(* ===== verification/_CoqProject ===== *)
-Q . S2P
Prelude.v
OrdMap.v
Doubles.v
JsonValue.v
JsonWriter.v
JsonPaths.v
JsonReader.v
JsonReaderFacts.v
JsonScalars.v
JsonDocuments.v
JsonRoundtrip.v
StyledWriter.v
JsonTheorems.v
ValueTheorems.v
Utils.v
UtilsTheorems.v
Syscalls.v
JsonAccess.v
Logger.v
LoggerTheorems.v
Notifications.v
NotificationsTheorems.v
Usage.v
UsageTheorems.v
Launchers.v
LauncherTheorems.v
Dispel.v
DispelTheorems.v
ZmqTables.v
Trie.v
TrieTheorems.v
Mtrie.v
MtrieTheorems.v
MtrieRefinement.v
Yqueue.v
YqueueTheorems.v
Ypipe.v
YpipeTheorems.v
Wire.v
Msg.v
MsgTheorems.v
Encoders.v
Decoders.v
EncoderTheorems.v
DecoderTheorems.v
CodecTheorems.v
Array.v
Pipes.v
Dist.v
DistTheorems.v
Pipe.v
PipeProtocol.v
PipeSafety.v
PipeTheorems.v
SocketPipes.v
DistRefinement.v
Rotation.v
Fq.v
Lb.v
FqTheorems.v
LbTheorems.v
Xpub.v
XpubTheorems.v
Listening.v
Xsub.v
XsubTheorems.v
Req.v
ReqTheorems.v
Routes.v
Router.v
Rep.v
RouterTheorems.v
RouterPeers.v
RepTheorems.v
Own.v
OwnTree.v
OwnSteps.v
OwnTheorems.v
Mailbox.v
SocketRuns.v
