(* ===== verification/Prelude.v ===== *)
(** * The native programs of ServeD: verification development

    ServeD is a set of native C++ tools around a JVM server, under [src/lib].
    This library models the tools and the libraries they rely on, and proves
    what makes them correct.  Definitions are executable; they carry the names
    of the source where Rocq allows it.

    ** The parts of the program and their files

    - Containers and numbers.  [OrdMap] is the [std::map] and [QMap] of the
      source; [Doubles] the interface [DoubleOps] to the floating point of the C
      library, with an IEEE 754 implementation [Binary64.ops] for the witnesses.
    - jsoncpp ([jsoncpp/json_value.cpp], [json_writer.cpp], [json_reader.cpp]).
      [JsonValue]: values, comments and the operations of [Json::Value];
      [JsonWriter]: [FastWriter] and the [valueTo...] conversions; [StyledWriter]:
      the two writers of indented text, with comments; [JsonReader]:
      the scanner, the parser with its error recovery and the decoders.  The
      reader keeps [root_], and instead of pointers paths into it ([nodes_],
      [lastValue_]); [JsonPaths] has the lemmas on paths.  [JsonAccess]: the order of
      values, iterators ([json_valueiterator.inl]), class [Path], and the messages of
      the reader.
    - The helpers of the launchers ([kickstart/utils.cc]): [Utils].
    - System calls: [Syscalls].  A program is a tree of calls ([prog]); an
      [oracle] answers them, and [ensures] relates every call and every ending to
      the history of the run.  All programs below are of this type.
    - The launchers: [Launchers], with a module each for the daemon
      ([daemon/daemon.cc]), [Kick] ([kickstart/kick.cc], [core.cc]), the shell
      ([shell/shell.cc], [shellutils.cc]) and the runner ([runner/run.cc]).
    - Process usage ([kickstart/usage_sys.cc], [stat.cc], [system_time.cc],
      [usage_gather.cc]): [Usage].
    - The logger ([cutelogger/*.cpp]): [Logger].
    - Notifications ([notifications/notifications.cc]): [Notifications].
    - The Dispel node ([dispel/dispel.cc], [dispel_core.cc],
      [dispel_publisher.cc], [dispel_subscriber.cc]): [Dispel].
    - ZeroMQ, the embedded messaging library ([zeromq/]), from the bottom up.
      [ZmqTables]: the tables of subnodes that both tries share; [Trie] and
      [Mtrie]: the tries of subscriptions ([trie.cpp], [mtrie.cpp]).  [Yqueue] and
      [Ypipe]: the queue of chunks and the lock-free pipe between two threads
      ([yqueue.hpp], [ypipe.hpp]).  [Mailbox]: the commands of many threads to one
      ([mailbox.cpp], [signaler.cpp]).  [Wire], [Encoders], [Decoders]: the framing of
      messages in both versions ([encoder.*], [v1_encoder.*], [decoder.*],
      [v1_decoder.*]).  [Msg]: messages with their shared contents ([msg.cpp]).
      [Array]: arrays whose items know their index ([array.hpp]).  [Pipe]: the ends
      of a connection with their commands ([pipe.cpp]).  [Dist], [Fq], [Lb]: the
      distributor, the fair queue and the load balancer of a socket ([dist.cpp],
      [fq.cpp], [lb.cpp]); [Rotation] is what the last two have in common.  The
      sockets above them: [Xpub] ([xpub.cpp], [pub.cpp]), [Xsub] ([xsub.cpp],
      [sub.cpp]), [Req] ([dealer.cpp], [req.cpp]), [Router] ([router.cpp]) and [Rep]
      ([rep.cpp]).  [Own]: the objects that own each other and end together
      ([own.cpp], [object.cpp]), with the commands between them in flight.

    The parts call each other as the code does: Dispel reads its file with
    [Notifications.readFileContents] and [JsonReader.parse] and indexes the result
    with [JsonValue]; the usage reports are written with [escapeJsonString]; the
    runner finds its executable with [findpathof]; notifications log with the
    levels of the logger.  In ZeroMQ, [Ypipe] runs on any queue that keeps the
    promises of the class [FifoLaws], and [Yqueue] does; [Dist], [Fq], [Lb] and the
    sockets run on any pipes that keep those of [PipeLaws] (file [Pipes]) and, where
    peers have names, of [RouteLaws] (file [Routes]), and the pipes of a socket,
    [SocketPipes], do; [Pipe] and [Mailbox] use the channel that [YpipeTheorems]
    shows [ypipe_t] to be.  The constants of [globals/globals.h] stand in the first
    file that uses them.

    ** How code becomes definitions

    Machine integers are [Z] with their wrap-around written out ([to_int32],
    [to_uint32], [to_int64]).  A [char] buffer is a list of 8 bit characters
    ([bytes]); a C string is read up to its NUL ([cstr]).  [outcome] is the result
    of code that may fail an assertion or write out of bounds ([Aborted]); an
    exception of [JSON_ASSERT_MESSAGE] is [Aborted] as well.  A pointer into freed
    memory is [Freed], and what is read there a parameter.  Loops that are not
    structural carry fuel, and [OutOfFuel] (in programs [NoFuel], as an ending
    [Diverged]) is an answer of its own, never confused with a result.

    ** What the theorems show

    - [JsonTheorems], on the lemmas of [JsonReaderFacts] (safety and termination),
      [JsonScalars] (tokens), [JsonDocuments] (a grammar of JSON with the values it
      denotes) and [JsonRoundtrip] (the writer's text is in the grammar): the
      reader parses every document to its value, always returns, overflows its
      number buffer on 32 digits only; writing and reading back is the identity, and
      so it is for the indented text ([StyledWriter]);
      number, escape and UTF-8 decoding are exact.
    - [ValueTheorems]: an invariant of everything the operations build; objects
      are finite maps, arrays without holes sequences; the outcomes of [resize],
      of the integer conversions, and what [operator==] compares.
    - [JsonAccess]: the operators of order are one comparison, but for [operator<=];
      iterators enumerate; paths lead to the nodes of their text, but for the
      arguments and defaults, which do not work.
    - [UtilsTheorems]: the search in PATH, [escape], [split], the JSON escapes and
      the splitting of command lines, with the out of bounds accesses.
    - [LauncherTheorems], for every behaviour of the operating system: who may
      exec what, as which user, under which lock; what is never reached; what is
      done twice or never.
    - [UsageTheorems]: the reports are JSON that the reader of this library reads
      back as the process table; the clock arithmetic; the gathering tool ends.
    - [LoggerTheorems]: the formatter against the directives of a format, and the
      delivery of records to appenders.
    - [NotificationsTheorems]: the rotation of the notification files and the
      writing of a notification, against a finite map of files.
    - [DispelTheorems]: the file of nodes is read as written; as root the node
      connects only to itself.

    - [TrieTheorems], [MtrieRefinement] (on [MtrieTheorems]): the tries are the
      multiset of subscribed keys and the map from topics to pipes, for every
      sequence of operations, with compact tables.
    - [YqueueTheorems], [YpipeTheorems]: the queue is a list and frees its chunks;
      every interleaving of writer and reader is one of a channel of four stages,
      the reader gets what was flushed, in order, and no wake-up is lost.
    - [Mailbox]: with any number of senders a mailbox is a queue, no assertion fails,
      the two signals that can be on their way at once included, and the reader
      sleeps only when there is nothing to receive.
    - [EncoderTheorems], [DecoderTheorems], [CodecTheorems]: the encoders write the
      framed messages whatever the buffers, the decoders are the machine that takes
      one byte at a time and never write out of bounds below a limit, and what is
      encoded is decoded, in pieces cut anywhere.
    - [MsgTheorems]: the reference counts are the numbers of the sharing messages.
    - [PipeTheorems] (on [PipeProtocol] and [PipeSafety]): a connection of two pipes
      never touches what is gone, in any order of calls and commands, and frees
      everything once both ends are terminated.
    - [DistRefinement] (on [DistTheorems]): the three borders of the distributor are
      a map from pipes to classes; a message reaches the matching pipes once.
    - [FqTheorems], [LbTheorems]: the arrays are turns; the fair queue serves a
      waiting pipe before as many messages as there are pipes before it; the load
      balancer keeps the parts of a message together.
    - [XpubTheorems]: the publishing socket is a map from topics to pipes with the
      classes of the distributor, and a message reaches, whole, the pipes that have
      a subscription that is a prefix of it.
    - [Listening]: what the receiving sockets share, one message that is received.
      [XsubTheorems]: only whole messages that nothing subscribes are dropped, and
      polling reads what the next receive returns.
    - [ReqTheorems]: requests and replies alternate; a request goes out whole behind
      an empty part, and a reply is read whole without it.
    - [RouterTheorems], [RouterPeers]: messages go, whole, to the peer that is named
      in front of them; whatever peers come and go, the table, the fair queue and
      the anonymous pipes of a router agree.  [RepTheorems]: replies and requests
      alternate, and a reply goes back to the peer that asked, behind the addresses
      of its request.
    - [OwnTheorems] (on [OwnTree] and [OwnSteps]): objects are a tree in which one
      goes only when nothing is left below it, no command reaches an object that is
      gone, and what is terminated goes, with all that it owns.
    - [SocketRuns]: inputs at which these theorems are used, and runs that do not go
      as they should: a pipe that leaves, a peer that does not follow the protocol,
      an object that is done too early.

    The documentation of a property starts with its number, in order of
    importance.

    ** Fuel and bounds

    [JsonReader.parse] has one unit of fuel more than the document has bytes; every
    level of nesting consumes a byte, and [parse_total] proves that it never runs
    out.  The loops of the reader are bounded by the text that is left plus one,
    the text loops of [Utils] and [Logger] by the length of their input plus one,
    [nodes_loop] by the size of the array plus one, the timing loops of
    [usage_gather] by 11 halvings of 1000; that these are enough is part of the
    theorems.  In ZeroMQ, the loops over pipes have a unit of fuel for every active
    or matching pipe, the loops that empty a ypipe one for every message in it, the
    loops of the sockets that drop messages one for every message that waits and a
    constant, the loops of the codecs one for every byte and step that is left, and a
    [recv] of a mailbox 5, the number of its steps.  The loops of the launchers that
    wait for input or for a child are bounded by a number that the theorems quantify
    over, so that they hold for runs of any length; [Diverged] means that it was used up.

    ** What is not modelled

    Of jsoncpp: the array and map of its own that the build does not select.  Of the
    logger: locks, [LogDevice] and the Qt message handler.  Of Dispel: the
    ZeroMQ binding nzmqt and [getCurrentNodeAddresses], which nothing calls.  The
    Apple branches of [usage_sys.cc].  Of ZeroMQ: sessions (but for the state of
    [req_session_t]), the reaper, [socket_base_t], engines, transports and the
    context, which are threads, polling and sockets of the operating system; of
    owned objects, addresses are not used again, and fewer than 2^32 commands are
    counted; of mailboxes the creation and the closing of their descriptors;
    failures of small allocations, which abort.  Memory is sequentially consistent.
    The embedded libraries quazip, fann and hiredis, which the programs use only
    through their interfaces or not at all.

    ** Order of the work

    Modelled first: jsoncpp and the launchers, then the usage reports, the logger,
    the notifications and Dispel, then ZeroMQ from the tries to the sockets and the
    ownership of objects, the mailboxes, and the rest of jsoncpp.  What would follow:
    sessions, options and timers. *)

From Stdlib Require Export Ascii String ZArith Lia.
From stdpp Require Export base numbers option strings list.

Declare Scope served_scope.
Delimit Scope served_scope with served.
#[global] Open Scope Z_scope.
#[global] Open Scope list_scope.
#[global] Open Scope served_scope.

(** ** Bytes

    A [char] buffer is a list of 8-bit characters.  [ord] is the value of the
    character as an [unsigned char], [schar] as the (signed) [char] of the
    x86-64 targets, [chr] the narrowing conversion back. *)

Abbreviation bytes := (list ascii).

Definition ord (c : ascii) : Z := Z.of_N (N_of_ascii c).
Definition schar (c : ascii) : Z := if ord c <? 128 then ord c else ord c - 256.
Definition chr (z : Z) : ascii := ascii_of_N (Z.to_N (z mod 256)).

Arguments ord : simpl never.
Arguments schar : simpl never.
Arguments chr : simpl never.

(** String literals of the source as byte lists. *)
Definition bs (s : string) : bytes := list_ascii_of_string s.
Arguments bs !s /.

Definition NUL : ascii := "000"%char.
Definition TAB : ascii := "009"%char.
Definition LF : ascii := "010"%char.
Definition CR : ascii := "013"%char.
Definition BSP : ascii := "008"%char.
Definition FF : ascii := "012"%char.
Definition DQUOTE : ascii := "034"%char.
Definition BACKSLASH : ascii := "092"%char.

Notation "a =? b" := (Ascii.eqb a b) (at level 70, no associativity) : char_scope.

(** The C string stored in a buffer: everything before the first NUL. *)
Fixpoint cstr (s : bytes) : bytes :=
  match s with
  | [] => []
  | c :: s' => if Ascii.eqb c NUL then [] else c :: cstr s'
  end.

Definition no_nul (s : bytes) : Prop := Forall (fun c => c <> NUL) s.

(** [strcmp] of the C library: unsigned lexicographic comparison. *)
Fixpoint strcmp (a b : bytes) : comparison :=
  match a, b with
  | [], [] => Eq
  | [], _ :: _ => Lt
  | _ :: _, [] => Gt
  | x :: a', y :: b' =>
      match Z.compare (ord x) (ord y) with
      | Eq => strcmp a' b'
      | r => r
      end
  end.

(** ** Machine integers *)

Definition INT_MAX : Z := 2147483647.
Definition INT_MIN : Z := -2147483648.
Definition UINT_MAX : Z := 4294967295.

Definition to_uint32 (z : Z) : Z := z mod 4294967296.
Definition to_int32 (z : Z) : Z := (z + 2147483648) mod 4294967296 - 2147483648.

Definition is_int32 (z : Z) : Prop := INT_MIN <= z <= INT_MAX.
Definition is_uint32 (z : Z) : Prop := 0 <= z <= UINT_MAX.

(** [long] and [int64_t]. *)
Definition to_int64 (z : Z) : Z :=
  (z + 9223372036854775808) mod 18446744073709551616 - 9223372036854775808.

(** [unsigned char], [unsigned short], [uint64_t]. *)
Definition to_uint8 (z : Z) : Z := z mod 256.
Definition to_uint16 (z : Z) : Z := z mod 65536.
Definition to_uint64 (z : Z) : Z := z mod 18446744073709551616.

Arguments to_int64 : simpl never.
Arguments to_uint8 : simpl never.
Arguments to_uint16 : simpl never.
Arguments to_uint64 : simpl never.

(** Parts with a separator between them. *)
Fixpoint join (delim : bytes) (parts : list bytes) : bytes :=
  match parts with
  | [] => []
  | [p] => p
  | p :: parts' => p ++ delim ++ join delim parts'
  end.

(** ** Outcomes of a run

    [Ok] is a normal return; [OutOfFuel] is the artefact of a fuelled
    recursion; [Aborted] a failed [assert] or an uncaught exception. *)

Inductive outcome (A : Type) : Type :=
| Ok (a : A)
| OutOfFuel
| Aborted (why : string).
Arguments Ok {A} a.
Arguments OutOfFuel {A}.
Arguments Aborted {A} why.

Definition obind {A B} (m : outcome A) (k : A -> outcome B) : outcome B :=
  match m with
  | Ok a => k a
  | OutOfFuel => OutOfFuel
  | Aborted w => Aborted w
  end.

Definition ofmap {A B} (f : A -> B) (m : outcome A) : outcome B :=
  obind m (fun a => Ok (f a)).

Notation "'let!' x := m 'in' k" := (obind m (fun x => k))
  (at level 10, x pattern, m at level 100, k at level 200) : served_scope.

Definition assertion (b : bool) (why : string) : outcome unit :=
  if b then Ok tt else Aborted why.

Definition is_ok {A} (m : outcome A) : bool :=
  match m with Ok _ => true | _ => false end.

Lemma Ok_inj {A} (a b : A) : Ok a = Ok b -> a = b.
Proof. congruence. Qed.

Lemma pair_inj {A B} (a c : A) (b d : B) : (a, b) = (c, d) -> a = c /\ b = d.
Proof. split; congruence. Qed.

(** ** Tactics *)

(** Case split on the discriminee of the first [match] of the goal. *)
Ltac case_goal_as E :=
  match goal with
  | |- context [match ?x with _ => _ end] => destruct x eqn:E
  end.
Ltac case_goal := let E := fresh "Ecase" in case_goal_as E.

(** Case split on the first [decide] of the goal. *)
Ltac case_dec := match goal with |- context [decide ?P] => destruct (decide P) end.

(** Invert [Ok] equations in the context. *)
Ltac inv_ok :=
  repeat match goal with
  | H : Ok _ = Ok _ |- _ => injection H as H; try subst
  | H : obind ?m _ = Ok _ |- _ =>
      let E := fresh "Ebind" in destruct m eqn:E; cbn [obind] in H; try discriminate H
  | H : OutOfFuel = Ok _ |- _ => discriminate H
  | H : Aborted _ = Ok _ |- _ => discriminate H
  | H : (_, _) = (_, _) |- _ => injection H as H; try subst
  end.

Create HintDb served discriminated.
Create Rewrite HintDb served.

(** ** Lemmas on bytes *)

Lemma ord_range c : 0 <= ord c < 256.
Proof.
  unfold ord. pose proof (N_ascii_bounded c) as H. lia.
Qed.

Lemma ord_inj a b : ord a = ord b -> a = b.
Proof.
  unfold ord. intros H. apply N2Z.inj in H.
  rewrite <- (ascii_N_embedding a), <- (ascii_N_embedding b). by rewrite H.
Qed.

Lemma ord_chr z : 0 <= z < 256 -> ord (chr z) = z.
Proof.
  intros H. unfold ord, chr. rewrite Z.mod_small by lia.
  rewrite N_ascii_embedding; lia.
Qed.

Lemma chr_ord c : chr (ord c) = c.
Proof. apply ord_inj. apply ord_chr. apply ord_range. Qed.

Lemma ascii_eqb_ne a b : a <> b -> Ascii.eqb a b = false.
Proof. intros H. by apply Ascii.eqb_neq. Qed.

Lemma strcmp_refl a : strcmp a a = Eq.
Proof. induction a as [|x a IH]; [done|]. cbn. by rewrite Z.compare_refl. Qed.

Lemma strcmp_eq a b : strcmp a b = Eq -> a = b.
Proof.
  revert b. induction a as [|x a IH]; intros [|y b]; cbn; try done.
  destruct (Z.compare_spec (ord x) (ord y)) as [E| |]; try done.
  intros H. apply ord_inj in E. by rewrite E, (IH b H).
Qed.

Lemma strcmp_lt_trans a b c : strcmp a b = Lt -> strcmp b c = Lt -> strcmp a c = Lt.
Proof.
  revert b c. induction a as [|x a IH]; intros [|y b] [|z c]; cbn; try done.
  destruct (Z.compare_spec (ord x) (ord y)) as [E|L|L];
    destruct (Z.compare_spec (ord y) (ord z)) as [E'|L'|L'];
    destruct (Z.compare_spec (ord x) (ord z)) as [E''|L''|L'']; try done; try lia.
  apply IH.
Qed.

Lemma strcmp_antisym a b : strcmp b a = CompOpp (strcmp a b).
Proof.
  revert b. induction a as [|x a IH]; intros [|y b]; cbn; try done.
  rewrite Z.compare_antisym. destruct (ord x ?= ord y); cbn; auto.
Qed.

Lemma cstr_no_nul s : no_nul (cstr s).
Proof.
  induction s as [|c s IH]; cbn; [constructor|].
  destruct (Ascii.eqb_spec c NUL); constructor; auto.
Qed.

Lemma cstr_id s : no_nul s -> cstr s = s.
Proof.
  induction 1 as [|c s Hc _ IH]; [done|]. cbn. by rewrite (ascii_eqb_ne _ _ Hc), IH.
Qed.

Lemma cstr_idemp s : cstr (cstr s) = cstr s.
Proof. apply cstr_id, cstr_no_nul. Qed.

#[export] Hint Resolve cstr_no_nul : served.
#[export] Hint Rewrite cstr_idemp @app_nil_r : served.

(** ** Lemmas on machine integers *)

Lemma to_int32_id z : is_int32 z -> to_int32 z = z.
Proof. unfold is_int32, to_int32, INT_MIN, INT_MAX. intros H. rewrite Z.mod_small; lia. Qed.

Lemma to_uint32_id z : is_uint32 z -> to_uint32 z = z.
Proof. unfold is_uint32, to_uint32, UINT_MAX. intros H. rewrite Z.mod_small; lia. Qed.

Lemma to_uint8_id z : 0 <= z < 256 -> to_uint8 z = z.
Proof. intros H. by apply Z.mod_small. Qed.

Lemma to_uint16_id z : 0 <= z < 65536 -> to_uint16 z = z.
Proof. intros H. by apply Z.mod_small. Qed.

Lemma to_uint64_id z : 0 <= z < 18446744073709551616 -> to_uint64 z = z.
Proof. intros H. by apply Z.mod_small. Qed.

Lemma to_int32_range z : is_int32 (to_int32 z).
Proof.
  unfold is_int32, to_int32, INT_MIN, INT_MAX.
  pose proof (Z.mod_pos_bound (z + 2147483648) 4294967296). lia.
Qed.

Lemma to_uint32_range z : is_uint32 (to_uint32 z).
Proof.
  unfold is_uint32, to_uint32, UINT_MAX. pose proof (Z.mod_pos_bound z 4294967296). lia.
Qed.

Lemma to_int32_to_uint32 z : to_int32 (to_uint32 z) = to_int32 z.
Proof. unfold to_int32, to_uint32. by rewrite Zplus_mod_idemp_l. Qed.

#[export] Hint Resolve to_int32_range to_uint32_range : served.

(** ** Bits *)

Lemma land_ones_mod k x m : 0 <= k -> m = Z.ones k -> Z.land m x = x mod 2 ^ k.
Proof. intros Hk ->. rewrite Z.land_comm. by apply Z.land_ones. Qed.

(** A marker bit pattern and the payload bits below it do not overlap. *)
Lemma lor_disjoint h k l : 0 <= k -> h mod 2 ^ k = 0 -> 0 <= l < 2 ^ k -> Z.lor h l = h + l.
Proof.
  intros Hk Hh Hl. symmetry. rewrite <- Z.lxor_lor, Z.add_nocarry_lxor; [done| |];
    apply Z.bits_inj'; intros n Hn; rewrite Z.land_spec, Z.bits_0;
    (destruct (Z.lt_ge_cases n k) as [H|H];
     [assert (Z.testbit h n = false) as ->; [|done];
      rewrite <- (Z.mod_pow2_bits_low h k n H), Hh; apply Z.bits_0
     |rewrite <- (Z.mod_small l (2 ^ k) Hl), (Z.mod_pow2_bits_high l k n) by lia;
      apply andb_false_r]).
Qed.
