(* ===== verification/OrdMap.v ===== *)
(** * Ordered maps

    The [std::map] / [QMap] of the source: an association list kept sorted by
    the key order of the container, with the operations the program uses.
    [KeyOrd] is the interface a key type offers; indices (compared as [int])
    and C strings (compared by [strcmp]) implement it. *)

From S2P Require Import Prelude.

Class KeyOrd (K : Type) := {
  kcmp : K -> K -> comparison;
  kcmp_refl : forall a, kcmp a a = Eq;
  kcmp_eq : forall a b, kcmp a b = Eq -> a = b;
  kcmp_antisym : forall a b, kcmp b a = CompOpp (kcmp a b);
  kcmp_lt_trans : forall a b c, kcmp a b = Lt -> kcmp b c = Lt -> kcmp a c = Lt
}.

#[export] Instance KeyOrd_Z : KeyOrd Z.
Proof.
  refine {| kcmp := Z.compare |}.
  - apply Z.compare_refl.
  - intros a b. apply Z.compare_eq.
  - intros a b. apply Z.compare_antisym.
  - intros a b c. rewrite !Z.compare_lt_iff. lia.
Defined.

#[export] Instance KeyOrd_bytes : KeyOrd bytes :=
  {| kcmp := strcmp; kcmp_refl := strcmp_refl; kcmp_eq := strcmp_eq;
     kcmp_antisym := strcmp_antisym; kcmp_lt_trans := strcmp_lt_trans |}.

Section OrdMap.
Context {K V : Type} `{KeyOrd K}.

Definition klt (a b : K) : Prop := kcmp a b = Lt.

(** [lower_bound] splits the container; the three operations below are the
    code's "find the lower bound, then compare the key" idiom. *)
Fixpoint om_find (k : K) (m : list (K * V)) : option V :=
  match m with
  | [] => None
  | (k', v) :: m' =>
      match kcmp k k' with
      | Eq => Some v
      | Lt => None
      | Gt => om_find k m'
      end
  end.

(** Make sure the key is present, with [d] as value when it was not. *)
Fixpoint om_touch (k : K) (d : V) (m : list (K * V)) : list (K * V) :=
  match m with
  | [] => [(k, d)]
  | (k', v) :: m' =>
      match kcmp k k' with
      | Eq => m
      | Lt => (k, d) :: m
      | Gt => (k', v) :: om_touch k d m'
      end
  end.

(** Assignment through the reference to an existing element. *)
Fixpoint om_alter (f : V -> V) (k : K) (m : list (K * V)) : list (K * V) :=
  match m with
  | [] => []
  | (k', v) :: m' =>
      match kcmp k k' with
      | Eq => (k', f v) :: m'
      | Lt => m
      | Gt => (k', v) :: om_alter f k m'
      end
  end.

(** [map[k] = v]: overwrite or insert. *)
Definition om_set (k : K) (v : V) (m : list (K * V)) : list (K * V) :=
  om_alter (fun _ => v) k (om_touch k v m).

Fixpoint om_erase (k : K) (m : list (K * V)) : list (K * V) :=
  match m with
  | [] => []
  | (k', v) :: m' =>
      match kcmp k k' with
      | Eq => m'
      | Lt => m
      | Gt => (k', v) :: om_erase k m'
      end
  end.

Definition om_keys (m : list (K * V)) : list K := map fst m.
Definition om_values (m : list (K * V)) : list V := map snd m.

(** Strictly increasing keys. *)
Definition above (k : K) (m : list (K * V)) : Prop := Forall (fun kv => klt k kv.1) m.
Fixpoint om_wf (m : list (K * V)) : Prop :=
  match m with
  | [] => True
  | (k, _) :: m' => above k m' /\ om_wf m'
  end.

Lemma kcmp_gt_lt a b : kcmp a b = Gt <-> klt b a.
Proof.
  unfold klt. rewrite (kcmp_antisym b a). destruct (kcmp b a) eqn:E; cbn; split; congruence.
Qed.

Lemma klt_irrefl a : ~ klt a a.
Proof. unfold klt. rewrite kcmp_refl. discriminate. Qed.

Lemma above_trans k k' m : klt k k' -> above k' m -> above k m.
Proof.
  intros Hk Hm. eapply Forall_impl; [exact Hm|]. intros kv Hkv.
  eapply kcmp_lt_trans; eassumption.
Qed.

Lemma om_find_above k m : above k m -> om_find k m = None.
Proof. intros Hm. destruct Hm as [|[k' v] m Hk Hm]; [done|]. cbn in *. by rewrite Hk. Qed.

Lemma om_find_touch_eq k d m :
  om_find k (om_touch k d m) = Some (default d (om_find k m)).
Proof.
  induction m as [|[k' v] m IH]; cbn; [by rewrite kcmp_refl|].
  destruct (kcmp k k') eqn:E; cbn; rewrite ?kcmp_refl, ?E; auto.
Qed.

Lemma om_find_touch_ne k k' d m :
  om_wf m -> k <> k' -> om_find k' (om_touch k d m) = om_find k' m.
Proof.
  intros Hm Hne. induction m as [|[k0 v] m IH]; cbn.
  - destruct (kcmp k' k) eqn:E; [|done|done]. apply kcmp_eq in E. congruence.
  - destruct Hm as [Ha Hm]. destruct (kcmp k k0) eqn:E; cbn; [done| |].
    + destruct (kcmp k' k) eqn:E'.
      * apply kcmp_eq in E'. congruence.
      * assert (kcmp k' k0 = Lt) as -> by (eapply kcmp_lt_trans; eassumption). done.
      * done.
    + destruct (kcmp k' k0); auto.
Qed.

Lemma above_touch k0 k d m : klt k0 k -> above k0 m -> above k0 (om_touch k d m).
Proof.
  intros Hk Hm. induction Hm as [|[k' v] m Hk' Hm IH]; cbn; [by repeat constructor|].
  destruct (kcmp k k'); repeat constructor; auto.
Qed.

Lemma om_wf_touch k d m : om_wf m -> om_wf (om_touch k d m).
Proof.
  induction m as [|[k' v] m IH]; cbn; [by repeat constructor|]. intros [Ha Hm].
  destruct (kcmp k k') eqn:E; cbn.
  - done.
  - split; [|done]. constructor; [done|]. eapply above_trans; eassumption.
  - split; [|auto]. apply above_touch; [by apply kcmp_gt_lt|done].
Qed.

Lemma om_keys_alter f k m : om_keys (om_alter f k m) = om_keys m.
Proof.
  induction m as [|[k' v] m IH]; cbn; [done|].
  destruct (kcmp k k'); cbn; [done|done|]. by f_equal.
Qed.

Lemma above_keys k m m' : om_keys m = om_keys m' -> above k m -> above k m'.
Proof.
  unfold above, om_keys. intros E Hm.
  apply (proj1 (Forall_map fst (fun k' => klt k k') m')).
  rewrite <- E. by apply Forall_map.
Qed.

Lemma om_wf_keys m m' : om_keys m = om_keys m' -> om_wf m -> om_wf m'.
Proof.
  revert m'. induction m as [|[k v] m IH]; intros [|[k' v'] m']; cbn; try done.
  intros E [Ha Hm]. injection E as <- E. split; [|by apply IH]. by eapply above_keys.
Qed.

Lemma om_wf_alter f k m : om_wf m -> om_wf (om_alter f k m).
Proof. apply om_wf_keys. by rewrite om_keys_alter. Qed.

Lemma om_wf_set k v m : om_wf m -> om_wf (om_set k v m).
Proof. intros Hm. by apply om_wf_alter, om_wf_touch. Qed.

Lemma om_find_alter_eq f k m : om_find k (om_alter f k m) = f <$> om_find k m.
Proof.
  induction m as [|[k' v] m IH]; cbn; [done|].
  destruct (kcmp k k') eqn:E; cbn; rewrite ?E; auto.
Qed.

Lemma om_find_alter_ne f k k' m : k <> k' -> om_find k' (om_alter f k m) = om_find k' m.
Proof.
  intros Hne. induction m as [|[k0 v] m IH]; cbn; [done|].
  destruct (kcmp k k0) eqn:E; cbn; destruct (kcmp k' k0) eqn:E'; auto.
  apply kcmp_eq in E, E'. congruence.
Qed.

Lemma om_find_set_eq k v m : om_find k (om_set k v m) = Some v.
Proof. unfold om_set. rewrite om_find_alter_eq, om_find_touch_eq. done. Qed.

Lemma om_find_set_ne k k' v m :
  om_wf m -> k <> k' -> om_find k' (om_set k v m) = om_find k' m.
Proof.
  intros Hm Hne. unfold om_set. rewrite om_find_alter_ne by done. by apply om_find_touch_ne.
Qed.

Lemma above_erase k k0 m : above k m -> above k (om_erase k0 m).
Proof.
  induction 1 as [|[k' v] m Hk' Hm IH]; cbn; [constructor|].
  destruct (kcmp k0 k'); [done| |]; constructor; auto.
Qed.

Lemma om_wf_erase k m : om_wf m -> om_wf (om_erase k m).
Proof.
  induction m as [|[k' v] m IH]; cbn; [done|]. intros [Ha Hm].
  destruct (kcmp k k'); cbn; auto. split; auto using above_erase.
Qed.

Lemma om_find_erase_eq k m : om_wf m -> om_find k (om_erase k m) = None.
Proof.
  induction m as [|[k' v] m IH]; cbn; [done|]. intros [Ha Hm].
  destruct (kcmp k k') eqn:E; cbn; rewrite ?E; auto.
  apply kcmp_eq in E as ->. by apply om_find_above.
Qed.

Lemma om_find_erase_ne k k' m :
  om_wf m -> k <> k' -> om_find k' (om_erase k m) = om_find k' m.
Proof.
  intros Hm Hne. induction m as [|[k0 v] m IH]; cbn; [done|]. destruct Hm as [Ha Hm].
  destruct (kcmp k k0) eqn:E; cbn; [|done|destruct (kcmp k' k0); auto].
  apply kcmp_eq in E as ->. destruct (kcmp k' k0) eqn:E'.
  - apply kcmp_eq in E'. congruence.
  - apply om_find_above. eapply above_trans; eassumption.
  - done.
Qed.

Lemma om_find_in k v m : om_find k m = Some v -> (k, v) ∈ m.
Proof.
  induction m as [|[k' v'] m IH]; cbn; [done|].
  destruct (kcmp k k') eqn:E; intros Hf; [|done|by right; apply IH].
  apply kcmp_eq in E as ->. injection Hf as ->. left.
Qed.

Lemma om_find_wf_in k v m : om_wf m -> (k, v) ∈ m -> om_find k m = Some v.
Proof.
  induction m as [|[k' v'] m IH]; cbn; [by intros _ ?%elem_of_nil|]. intros [Ha Hm] Hin.
  apply elem_of_cons in Hin as [[= -> ->]|Hin]; [by rewrite kcmp_refl|].
  assert (kcmp k k' = Gt) as ->; [|auto]. apply kcmp_gt_lt.
  unfold above in Ha. rewrite Forall_forall in Ha. apply (Ha (k, v) Hin).
Qed.

(** Appending a key above every other key. *)
Definition below (m : list (K * V)) (k : K) : Prop := Forall (fun kv => klt kv.1 k) m.

Lemma om_touch_found k d v m : om_find k m = Some v -> om_touch k d m = m.
Proof.
  induction m as [|[k' v'] m IH]; cbn; [done|].
  destruct (kcmp k k'); [done|done|]. intros Hk. by rewrite IH.
Qed.

Lemma om_alter_found k v m : om_find k m = Some v -> om_alter (fun _ => v) k m = m.
Proof.
  induction m as [|[k' v'] m IH]; cbn; [done|].
  destruct (kcmp k k'); [by intros [= ->]|done|]. intros Hk. by rewrite IH.
Qed.

Lemma om_find_below k m : below m k -> om_find k m = None.
Proof.
  induction 1 as [|[k' v] m Hk Hm IH]; [done|]. cbn in *.
  by rewrite (proj2 (kcmp_gt_lt _ _) Hk).
Qed.

Lemma om_find_below_app k v m m' : below m k -> om_find k (m ++ (k, v) :: m') = Some v.
Proof.
  induction 1 as [|[k' w] m Hk Hm IH]; cbn in *; [by rewrite kcmp_refl|].
  by rewrite (proj2 (kcmp_gt_lt _ _) Hk).
Qed.

Lemma om_touch_below k d m : below m k -> om_touch k d m = m ++ [(k, d)].
Proof.
  induction 1 as [|[k' v] m Hk Hm IH]; [done|]. cbn in *.
  by rewrite (proj2 (kcmp_gt_lt _ _) Hk), IH.
Qed.

Lemma om_alter_below_app f k v m m' :
  below m k -> om_alter f k (m ++ (k, v) :: m') = m ++ (k, f v) :: m'.
Proof.
  induction 1 as [|[k' w] m Hk Hm IH]; cbn in *; [by rewrite kcmp_refl|].
  by rewrite (proj2 (kcmp_gt_lt _ _) Hk), IH.
Qed.

Lemma om_wf_app_below m k v m' : om_wf (m ++ (k, v) :: m') -> below m k.
Proof.
  induction m as [|[k' w] m IH]; cbn; [constructor|]. intros [Ha Hm].
  unfold above in Ha. apply Forall_app in Ha as [_ Ha].
  apply Forall_cons_1 in Ha as [Ha _]. constructor; [exact Ha|]. apply (IH Hm).
Qed.
End OrdMap.

Arguments om_touch {K V _} k d !m /.
