(* ===== verification/Doubles.v ===== *)
(** * Floating point numbers of the C library

    The JSON component stores C [double]s and goes through [sscanf("%lf")] and
    [sprintf("%#.16g")].  [DoubleOps] is the interface it relies on; the
    development's theorems hold for every implementation of it.  [Binary64]
    implements it with the IEEE 754 arithmetic of [SpecFloat] and a correctly
    rounded decimal conversion, so that witnesses evaluate. *)

From Stdlib Require Import PArith.
From Corelib Require Import SpecFloat.
From S2P Require Import Prelude.

Class DoubleOps := {
  double : Type;
  d_zero : double;
  d_one : double;
  d_of_Z : Z -> double;            (** conversion of an integer *)
  d_to_Z : double -> Z;            (** truncation towards zero *)
  d_ltb : double -> double -> bool;
  d_leb : double -> double -> bool;
  d_eqb : double -> double -> bool;
  d_add : double -> double -> double;
  d_mul : double -> double -> double;
  d_scan : bytes -> option double; (** [sscanf(s, "%lf", &d)]; [None]: count is not 1 *)
  d_print : double -> bytes        (** [sprintf(buffer, "%#.16g", d)] *)
}.

(** ** Decimal digits, shared with the integer printers *)

Definition digit_char (d : Z) : ascii := chr (ord "0" + d).
Definition is_digit (c : ascii) : bool := (ord "0" <=? ord c) && (ord c <=? ord "9").

Arguments is_digit : simpl never.
Arguments digit_char : simpl never.

Fixpoint take_digits (s : bytes) : bytes * bytes :=
  match s with
  | c :: s' => if is_digit c then let '(ds, r) := take_digits s' in (c :: ds, r) else ([], s)
  | [] => ([], [])
  end.

Definition digits_value (ds : bytes) : Z :=
  fold_left (fun acc c => acc * 10 + (ord c - ord "0")) ds 0.

(** The [n] least significant decimal digits of [z], most significant first. *)
Fixpoint fixed_digits (n : nat) (z : Z) : bytes :=
  match n with
  | O => []
  | S n' => fixed_digits n' (z / 10) ++ [digit_char (z mod 10)]
  end.

(** ** Binary64 *)

Module Binary64.
Definition prec : Z := 53.
Definition emax : Z := 1024.

Definition of_Z (z : Z) : spec_float := binary_normalize prec emax z 0 false.

Definition to_Z (d : spec_float) : Z :=
  match d with
  | S754_finite s m e =>
      let a := if 0 <=? e then Zpos m * 2 ^ e else Zpos m / 2 ^ (- e) in
      if s then - a else a
  | _ => 0
  end.

(** [m * 10^e] rounded to nearest even. *)
Definition of_decimal (neg : bool) (m e : Z) : spec_float :=
  let signed d := if neg then SFopp d else d in
  match m with
  | Zpos p =>
      if 400 <? e then S754_infinity neg
      else if e + Z.log2 m <? -400 * 4 then S754_zero neg
      else if 0 <=? e then signed (of_Z (m * 10 ^ e))
      else match 10 ^ (- e) with
           | Zpos q => signed (SFdiv prec emax (S754_finite false p 0) (S754_finite false q 0))
           | _ => S754_nan
           end
  | _ => S754_zero neg
  end.

Definition scan_exponent (s : bytes) : Z :=
  match s with
  | c :: s1 =>
      if Ascii.eqb c "e" || Ascii.eqb c "E" then
        let '(neg, s2) :=
          match s1 with
          | "-"%char :: s2 => (true, s2)
          | "+"%char :: s2 => (false, s2)
          | _ => (false, s1)
          end in
        let '(ds, _) := take_digits s2 in
        let v := digits_value ds in if (neg : bool) then - v else v
      else 0
  | [] => 0
  end.

Definition scan (s : bytes) : option spec_float :=
  let '(neg, s1) :=
    match s with
    | "-"%char :: s' => (true, s')
    | "+"%char :: s' => (false, s')
    | _ => (false, s)
    end in
  let '(ip, s2) := take_digits s1 in
  let '(fp, s3) :=
    match s2 with
    | "."%char :: s' => take_digits s'
    | _ => ([], s2)
    end in
  match ip ++ fp with
  | [] => None
  | ds => Some (of_decimal neg (digits_value ds) (scan_exponent s3 - Z.of_nat (length fp)))
  end.

Definition div_half_even (n d : Z) : Z :=
  let q := n / d in
  match Z.compare (2 * (n mod d)) d with
  | Lt => q
  | Gt => q + 1
  | Eq => if Z.even q then q else q + 1
  end.

(** [n/d * 10^k] as a fraction. *)
Definition scale10 (n d k : Z) : Z * Z :=
  if 0 <=? k then (n * 10 ^ k, d) else (n, d * 10 ^ (- k)).

Definition print_exponent (x : Z) : bytes :=
  let a := Z.abs x in
  ["e"%char; if x <? 0 then "-"%char else "+"%char]
    ++ (if 100 <=? a then fixed_digits 3 a else fixed_digits 2 a).

Definition print_pos (n d : Z) : bytes :=
  let x0 := Z.log2 n - Z.log2 d in
  let e0 := x0 * 30103 / 100000 in
  let ge k := let '(a, b) := scale10 n d (- k) in b <=? a in
  let x := if ge (e0 + 1) then e0 + 1 else if ge e0 then e0 else e0 - 1 in
  let '(a, b) := scale10 n d (15 - x) in
  let r := div_half_even a b in
  let '(r, x) := if 10 ^ 16 <=? r then (r / 10, x + 1) else (r, x) in
  let ds := fixed_digits 16 r in
  if (-4 <=? x) && (x <? 16) then
    if 0 <=? x
    then take (Z.to_nat (x + 1)) ds ++ "."%char :: drop (Z.to_nat (x + 1)) ds
    else "0"%char :: "."%char :: replicate (Z.to_nat (- x - 1)) "0"%char ++ ds
  else take 1 ds ++ "."%char :: drop 1 ds ++ print_exponent x.

Definition print (d : spec_float) : bytes :=
  match d with
  | S754_zero s => (if s then bs "-" else []) ++ bs "0.000000000000000"
  | S754_infinity s => (if s then bs "-" else []) ++ bs "inf"
  | S754_nan => bs "nan"
  | S754_finite s m e =>
      (if s then bs "-" else []) ++
      (if 0 <=? e then print_pos (Zpos m * 2 ^ e) 1 else print_pos (Zpos m) (2 ^ (- e)))
  end.

Definition ops : DoubleOps :=
  {| double := spec_float; d_zero := S754_zero false; d_one := of_Z 1;
     d_of_Z := of_Z; d_to_Z := to_Z;
     d_ltb := SFltb; d_leb := SFleb; d_eqb := SFeqb;
     d_add := SFadd prec emax; d_mul := SFmul prec emax;
     d_scan := scan; d_print := print |}.

Example print_tenth : (print <$> scan (bs "0.1")) = Some (bs "0.1000000000000000").
Proof. reflexivity. Qed.

Example print_large : (print <$> scan (bs "-1.5e300")) = Some (bs "-1.500000000000000e+300").
Proof. vm_compute. reflexivity. Qed.
End Binary64.

(** ** Lemmas on digits *)

Lemma digit_char_ord d : 0 <= d < 10 -> ord (digit_char d) = 48 + d.
Proof. intros H. unfold digit_char. change (ord "0") with 48. apply ord_chr. lia. Qed.

Lemma is_digit_digit_char d : 0 <= d < 10 -> is_digit (digit_char d) = true.
Proof.
  intros H. unfold is_digit. rewrite digit_char_ord by done.
  change (ord "0") with 48. change (ord "9") with 57.
  apply andb_true_iff. rewrite !Z.leb_le. lia.
Qed.

Lemma digits_value_snoc ds c :
  digits_value (ds ++ [c]) = digits_value ds * 10 + (ord c - ord "0").
Proof. unfold digits_value. by rewrite fold_left_app. Qed.
