(* ===== verification/JsonValue.v ===== *)
(** * JSON values ([lib/jsoncpp/json_value.cpp], class [Json::Value])

    A value is a payload (the [type_] tag and the [value_] union) together with
    the comments attached to it.  Arrays and objects are the [ObjectValues] map
    of the source: arrays are keyed by [int] indices, objects by C strings.
    A non-const [operator\[\]] returns a reference into the map; here it returns
    the container in which the element exists, and the reference is the path of
    the element ([vget] and [vmodify] read and write through it).
    Ownership of the string buffers ([allocated_], the duplication policy of
    [CZString]) has no counterpart: a buffer is its contents. *)

From S2P Require Import Prelude OrdMap Doubles.

Section JsonValue.
Context {D : DoubleOps}.

(** ** Data *)

Inductive ValueType :=
| TnullValue | TintValue | TuintValue | TrealValue | TstringValue
| TbooleanValue | TarrayValue | TobjectValue.

#[global] Instance ValueType_eq_dec : EqDecision ValueType.
Proof. solve_decision. Defined.

Inductive CommentPlacement := commentBefore | commentAfterOnSameLine | commentAfter.

(** [comments_]: the array of three [CommentInfo], all empty when the pointer
    is null. *)
Record Comments := mkComments {
  cBefore : option bytes;
  cAfterOnSameLine : option bytes;
  cAfter : option bytes
}.
Definition noComments : Comments := mkComments None None None.

Inductive Payload (V : Type) : Type :=
| nullValue
| intValue (i : Z)
| uintValue (u : Z)
| realValue (r : double)
| stringValue (s : option bytes)
| booleanValue (b : bool)
| arrayValue (m : list (Z * V))
| objectValue (m : list (bytes * V)).

Inductive Value : Type := mkValue (c : Comments) (p : Payload Value).

Arguments nullValue {V}.
Arguments intValue {V} i.
Arguments uintValue {V} u.
Arguments realValue {V} r.
Arguments stringValue {V} s.
Arguments booleanValue {V} b.
Arguments arrayValue {V} m.
Arguments objectValue {V} m.

Definition comments_ (v : Value) : Comments := let 'mkValue c _ := v in c.
Definition value_ (v : Value) : Payload Value := let 'mkValue _ p := v in p.

(** A fresh value without comments. *)
Definition mk (p : Payload Value) : Value := mkValue noComments p.

(** [Value::null] *)
Definition null : Value := mk nullValue.

(** Children of a payload, in map order. *)
Definition children (p : Payload Value) : list Value :=
  match p with
  | arrayValue m => om_values m
  | objectValue m => om_values m
  | _ => []
  end.

Fixpoint Value_induction (P : Value -> Prop)
    (step : forall c p, Forall P (children p) -> P (mkValue c p)) (v : Value) : P v :=
  match v with
  | mkValue c p =>
      step c p
        (match p return Forall P (children p) with
         | arrayValue m =>
             (fix go (m : list (Z * Value)) : Forall P (om_values m) :=
                match m with
                | [] => List.Forall_nil P
                | kv :: m' => List.Forall_cons P (snd kv) (om_values m')
                                (Value_induction P step (snd kv)) (go m')
                end) m
         | objectValue m =>
             (fix go (m : list (bytes * Value)) : Forall P (om_values m) :=
                match m with
                | [] => List.Forall_nil P
                | kv :: m' => List.Forall_cons P (snd kv) (om_values m')
                                (Value_induction P step (snd kv)) (go m')
                end) m
         | _ => List.Forall_nil P
         end)
  end.

(** ** Constructors *)

Definition Value_of_type (t : ValueType) : Value :=
  mk match t with
     | TnullValue => nullValue
     | TintValue => intValue 0
     | TuintValue => uintValue 0
     | TrealValue => realValue d_zero
     | TstringValue => stringValue None
     | TarrayValue => arrayValue []
     | TobjectValue => objectValue []
     | TbooleanValue => booleanValue false
     end.

Definition Value_of_Int (i : Z) : Value := mk (intValue i).
Definition Value_of_UInt (u : Z) : Value := mk (uintValue u).
Definition Value_of_double (r : double) : Value := mk (realValue r).
Definition Value_of_bool (b : bool) : Value := mk (booleanValue b).
(** The constructor from a C string: [duplicateStringValue] copies [strlen] bytes. *)
Definition Value_of_cstring (s : bytes) : Value := mk (stringValue (Some (cstr s))).
(** The constructor from [std::string] copies [length()] bytes and appends a NUL;
    every reader of the buffer is a C string function, so what is stored is the
    C string. *)
Definition Value_of_string (s : bytes) : Value := mk (stringValue (Some (cstr s))).

(** ** Comments *)

Definition comment_at (c : Comments) (p : CommentPlacement) : option bytes :=
  match p with
  | commentBefore => cBefore c
  | commentAfterOnSameLine => cAfterOnSameLine c
  | commentAfter => cAfter c
  end.

Definition with_comment (c : Comments) (p : CommentPlacement) (t : option bytes) : Comments :=
  match p with
  | commentBefore => mkComments t (cAfterOnSameLine c) (cAfter c)
  | commentAfterOnSameLine => mkComments (cBefore c) t (cAfter c)
  | commentAfter => mkComments (cBefore c) (cAfterOnSameLine c) t
  end.

(** [CommentInfo::setComment]: the text is a C string that is empty or starts
    with a slash; anything else throws. *)
Definition valid_comment (text : bytes) : bool :=
  match cstr text with
  | [] => true
  | c :: _ => Ascii.eqb c "/"
  end.

Definition setComment (text : bytes) (p : CommentPlacement) (v : Value) : outcome Value :=
  let! _ := assertion (valid_comment text) "Comments must start with /" in
  Ok (mkValue (with_comment (comments_ v) p (Some (cstr text))) (value_ v)).

Definition hasComment (p : CommentPlacement) (v : Value) : bool :=
  match comment_at (comments_ v) p with Some _ => true | None => false end.

Definition getComment (p : CommentPlacement) (v : Value) : bytes :=
  default [] (comment_at (comments_ v) p).

(** ** Copy, swap, assignment *)

(** The copy constructor: a deep copy; strings go through [strlen]. *)
Fixpoint copy (v : Value) : Value :=
  match v with
  | mkValue c p =>
      mkValue c
        match p with
        | stringValue (Some s) => stringValue (Some (cstr s))
        | arrayValue m => arrayValue (map (fun kv => (fst kv, copy (snd kv))) m)
        | objectValue m => objectValue (map (fun kv => (cstr (fst kv), copy (snd kv))) m)
        | p => p
        end
  end.

(** [swap] exchanges tags and unions; the comments stay where they are. *)
Definition swap (a b : Value) : Value * Value :=
  (mkValue (comments_ a) (value_ b), mkValue (comments_ b) (value_ a)).

(** [operator=] copies, then swaps: the destination keeps its comments. *)
Definition assign (dst src : Value) : Value := fst (swap dst (copy src)).

(** ** Type tests *)

Definition type (v : Value) : ValueType :=
  match value_ v with
  | nullValue => TnullValue
  | intValue _ => TintValue
  | uintValue _ => TuintValue
  | realValue _ => TrealValue
  | stringValue _ => TstringValue
  | booleanValue _ => TbooleanValue
  | arrayValue _ => TarrayValue
  | objectValue _ => TobjectValue
  end.

Definition is_type (t : ValueType) (v : Value) : bool := bool_decide (type v = t).

Definition isNull (v : Value) : bool := is_type TnullValue v.
Definition isBool (v : Value) : bool := is_type TbooleanValue v.
Definition isInt (v : Value) : bool := is_type TintValue v.
Definition isUInt (v : Value) : bool := is_type TuintValue v.
Definition isIntegral (v : Value) : bool :=
  is_type TintValue v || is_type TuintValue v || is_type TbooleanValue v.
Definition isDouble (v : Value) : bool := is_type TrealValue v.
Definition isNumeric (v : Value) : bool := isIntegral v || isDouble v.
Definition isString (v : Value) : bool := is_type TstringValue v.
Definition isArray (v : Value) : bool := is_type TnullValue v || is_type TarrayValue v.
Definition isObject (v : Value) : bool := is_type TnullValue v || is_type TobjectValue v.
Definition operator_not (v : Value) : bool := isNull v.

(** ** Conversions.  [JSON_ASSERT_MESSAGE] throws, [JSON_ASSERT] aborts. *)

Definition minInt : Z := INT_MIN.
Definition maxInt : Z := INT_MAX.
Definition maxUInt : Z := UINT_MAX.

Definition asCString (v : Value) : outcome (option bytes) :=
  match value_ v with
  | stringValue s => Ok s
  | _ => Aborted "type_ == stringValue"
  end.

Definition asString (v : Value) : outcome bytes :=
  match value_ v with
  | nullValue => Ok []
  | stringValue s => Ok (default [] s)
  | booleanValue b => Ok (bs (if b then "true" else "false"))
  | _ => Aborted "Type is not convertible to string"
  end.

Definition asInt (v : Value) : outcome Z :=
  match value_ v with
  | nullValue => Ok 0
  | intValue i => Ok i
  | uintValue u =>
      let! _ := assertion (u <? maxInt) "integer out of signed integer range" in
      Ok (to_int32 u)
  | realValue r =>
      let! _ := assertion (d_leb (d_of_Z minInt) r && d_leb r (d_of_Z maxInt))
                  "Real out of signed integer range" in
      Ok (d_to_Z r)
  | booleanValue b => Ok (if b then 1 else 0)
  | _ => Aborted "Type is not convertible to int"
  end.

Definition asUInt (v : Value) : outcome Z :=
  match value_ v with
  | nullValue => Ok 0
  | intValue i =>
      let! _ := assertion (0 <=? i)
                  "Negative integer can not be converted to unsigned integer" in
      Ok (to_uint32 i)
  | uintValue u => Ok u
  | realValue r =>
      let! _ := assertion (d_leb (d_of_Z 0) r && d_leb r (d_of_Z maxUInt))
                  "Real out of unsigned integer range" in
      Ok (d_to_Z r)
  | booleanValue b => Ok (if b then 1 else 0)
  | _ => Aborted "Type is not convertible to uint"
  end.

Definition asDouble (v : Value) : outcome double :=
  match value_ v with
  | nullValue => Ok d_zero
  | intValue i => Ok (d_of_Z i)
  | uintValue u => Ok (d_of_Z u)
  | realValue r => Ok r
  | booleanValue b => Ok (if b then d_one else d_zero)
  | _ => Aborted "Type is not convertible to double"
  end.

Definition asBool (v : Value) : bool :=
  match value_ v with
  | nullValue => false
  | intValue i => negb (i =? 0)
  | uintValue u => negb (to_int32 u =? 0)
  | realValue r => negb (d_eqb r d_zero)
  | booleanValue b => b
  | stringValue s => match s with Some (_ :: _) => true | _ => false end
  | arrayValue m => negb (Z.of_nat (length m) =? 0)
  | objectValue m => negb (Z.of_nat (length m) =? 0)
  end.

Definition isConvertibleTo (v : Value) (other : ValueType) : bool :=
  let is_t t := bool_decide (other = t) in
  match value_ v with
  | nullValue => true
  | intValue i =>
      (is_t TnullValue && (i =? 0)) || is_t TintValue || (is_t TuintValue && (0 <=? i))
      || is_t TrealValue || is_t TstringValue || is_t TbooleanValue
  | uintValue u =>
      (is_t TnullValue && (u =? 0)) || (is_t TintValue && (u <=? maxInt)) || is_t TuintValue
      || is_t TrealValue || is_t TstringValue || is_t TbooleanValue
  | realValue r =>
      (is_t TnullValue && d_eqb r d_zero)
      || (is_t TintValue && (d_leb (d_of_Z minInt) r && d_leb r (d_of_Z maxInt)))
      || (is_t TuintValue && (d_leb (d_of_Z 0) r && d_leb r (d_of_Z maxUInt)))
      || is_t TrealValue || is_t TstringValue || is_t TbooleanValue
  | booleanValue b =>
      (is_t TnullValue && negb b) || is_t TintValue || is_t TuintValue
      || is_t TrealValue || is_t TstringValue || is_t TbooleanValue
  | stringValue s =>
      is_t TstringValue
      || (is_t TnullValue && match s with Some (_ :: _) => false | _ => true end)
  | arrayValue m => is_t TarrayValue || (is_t TnullValue && (Z.of_nat (length m) =? 0))
  | objectValue m => is_t TobjectValue || (is_t TnullValue && (Z.of_nat (length m) =? 0))
  end.

(** ** Size *)

(** The size of an array is its highest index + 1. *)
Definition size (v : Value) : Z :=
  match value_ v with
  | arrayValue m =>
      match last m with
      | Some (i, _) => to_uint32 (i + 1)
      | None => 0
      end
  | objectValue m => to_uint32 (to_int32 (Z.of_nat (length m)))
  | _ => 0
  end.

Definition empty (v : Value) : bool :=
  if isNull v || isArray v || isObject v then size v =? 0 else false.

Definition isValidIndex (index : Z) (v : Value) : bool := index <? size v.

Definition clear (v : Value) : outcome Value :=
  match value_ v with
  | nullValue => Ok v
  | arrayValue _ => Ok (mkValue (comments_ v) (arrayValue []))
  | objectValue _ => Ok (mkValue (comments_ v) (objectValue []))
  | _ => Aborted "type_ == nullValue || type_ == arrayValue || type_ == objectValue"
  end.

(** ** Element access *)

(** [*this = Value(arrayValue)] when the value is null. *)
Definition null_to (t : ValueType) (v : Value) : Value :=
  if isNull v then assign v (Value_of_type t) else v.

(** Non-const [operator\[\](UInt)]: the key is an [int]; a missing element is
    created null. *)
Definition index_ref (index : Z) (v : Value) : outcome Value :=
  let v' := null_to TarrayValue v in
  match value_ v' with
  | arrayValue m => Ok (mkValue (comments_ v') (arrayValue (om_touch (to_int32 index) null m)))
  | _ => Aborted "type_ == nullValue || type_ == arrayValue"
  end.

(** Const [operator\[\](UInt)]; [None] is the static [Value::null]. *)
Definition index_const (index : Z) (v : Value) : outcome (option Value) :=
  match value_ v with
  | nullValue => Ok None
  | arrayValue m => Ok (om_find (to_int32 index) m)
  | _ => Aborted "type_ == nullValue || type_ == arrayValue"
  end.

(** [resolveReference], behind the non-const [operator] on a C string. *)
Definition resolveReference (key : bytes) (v : Value) : outcome Value :=
  let v' := null_to TobjectValue v in
  match value_ v' with
  | objectValue m => Ok (mkValue (comments_ v') (objectValue (om_touch (cstr key) null m)))
  | _ => Aborted "type_ == nullValue || type_ == objectValue"
  end.

Definition member_const (key : bytes) (v : Value) : outcome (option Value) :=
  match value_ v with
  | nullValue => Ok None
  | objectValue m => Ok (om_find (cstr key) m)
  | _ => Aborted "type_ == nullValue || type_ == objectValue"
  end.

Definition get_index (index : Z) (dflt : Value) (v : Value) : outcome Value :=
  let! r := index_const index v in Ok (copy (default dflt r)).

Definition get_member (key : bytes) (dflt : Value) (v : Value) : outcome Value :=
  let! r := member_const key v in Ok (copy (default dflt r)).

Definition isMember (key : bytes) (v : Value) : outcome bool :=
  let! r := member_const key v in
  Ok (match r with Some _ => true | None => false end).

Definition removeMember (key : bytes) (v : Value) : outcome (Value * Value) :=
  match value_ v with
  | nullValue => Ok (null, v)
  | objectValue m =>
      match om_find (cstr key) m with
      | None => Ok (null, v)
      | Some old => Ok (copy old, mkValue (comments_ v) (objectValue (om_erase (cstr key) m)))
      end
  | _ => Aborted "type_ == nullValue || type_ == objectValue"
  end.

Definition getMemberNames (v : Value) : outcome (list bytes) :=
  match value_ v with
  | nullValue => Ok []
  | objectValue m => Ok (om_keys m)
  | _ => Aborted "type_ == nullValue || type_ == objectValue"
  end.

(** ** References: paths from a value down to one of its elements *)

Inductive Key := AtIndex (index : Z) | AtMember (name : bytes).
Definition Path := list Key.

Definition child (k : Key) (v : Value) : option Value :=
  match k, value_ v with
  | AtIndex i, arrayValue m => om_find i m
  | AtMember s, objectValue m => om_find s m
  | _, _ => None
  end.

Definition child_modify (f : Value -> Value) (k : Key) (v : Value) : Value :=
  match k, value_ v with
  | AtIndex i, arrayValue m => mkValue (comments_ v) (arrayValue (om_alter f i m))
  | AtMember s, objectValue m => mkValue (comments_ v) (objectValue (om_alter f s m))
  | _, _ => v
  end.

Fixpoint vget (p : Path) (v : Value) : option Value :=
  match p with
  | [] => Some v
  | k :: p' => match child k v with Some w => vget p' w | None => None end
  end.

Fixpoint vmodify (p : Path) (f : Value -> Value) (v : Value) : Value :=
  match p with
  | [] => f v
  | k :: p' => child_modify (vmodify p' f) k v
  end.

(** [append]: assign through the reference at [size()]. *)
Definition append (x : Value) (v : Value) : outcome Value :=
  let! v' := index_ref (size v) v in
  Ok (vmodify [AtIndex (to_int32 (size v))] (fun old => assign old x) v').

(** The erase loop of [resize]: indices [index], ..., [index + n - 1]. *)
Fixpoint erase_range (n : nat) (index : Z) (m : list (Z * Value)) : list (Z * Value) :=
  match n with
  | O => m
  | S n' => erase_range n' (index + 1) (om_erase (to_int32 index) m)
  end.

Definition resize (newSize : Z) (v : Value) : outcome Value :=
  match value_ v with
  | nullValue | arrayValue _ =>
      let v' := null_to TarrayValue v in
      let oldSize := size v' in
      if newSize =? 0 then clear v'
      else if oldSize <? newSize then index_ref (newSize - 1) v'
      else
        match value_ v' with
        | arrayValue m =>
            let v'' := mkValue (comments_ v')
                         (arrayValue (erase_range (Z.to_nat (oldSize - newSize)) newSize m)) in
            let! _ := assertion (size v'' =? newSize) "size() == newSize" in
            Ok v''
        | _ => Aborted "unreachable"
        end
  | _ => Aborted "type_ == nullValue || type_ == arrayValue"
  end.

(** [operator==]: same tag, same contents; comments do not count.  A null
    string buffer equals only a null buffer. *)
Fixpoint equal (a b : Value) {struct a} : bool :=
  match a, b with
  | mkValue _ p, mkValue _ q =>
      match p, q with
      | nullValue, nullValue => true
      | intValue i, intValue j => i =? j
      | uintValue i, uintValue j => i =? j
      | realValue r, realValue r' => d_eqb r r'
      | booleanValue x, booleanValue y => Bool.eqb x y
      | stringValue s, stringValue t =>
          match s, t with
          | None, None => true
          | Some s, Some t => match strcmp s t with Eq => true | _ => false end
          | _, _ => false
          end
      | arrayValue m, arrayValue n =>
          (fix go (m n : list (Z * Value)) : bool :=
             match m, n with
             | [], [] => true
             | (k, x) :: m', (l, y) :: n' => (k =? l) && equal x y && go m' n'
             | _, _ => false
             end) m n
      | objectValue m, objectValue n =>
          (fix go (m n : list (bytes * Value)) : bool :=
             match m, n with
             | [], [] => true
             | (k, x) :: m', (l, y) :: n' =>
                 match strcmp k l with Eq => true | _ => false end && equal x y && go m' n'
             | _, _ => false
             end) m n
      | _, _ => false
      end
  end.

(** ** Well-formed values

    Machine integers in range, C strings without NUL, ordered maps, comments
    that are empty or start with a slash. *)

Definition comment_ok (t : option bytes) : Prop :=
  match t with Some s => valid_comment s = true /\ no_nul s | None => True end.

Definition comments_ok (c : Comments) : Prop :=
  comment_ok (cBefore c) /\ comment_ok (cAfterOnSameLine c) /\ comment_ok (cAfter c).

Definition payload_ok (p : Payload Value) : Prop :=
  match p with
  | intValue i => is_int32 i
  | uintValue u => is_uint32 u
  | stringValue (Some s) => no_nul s
  | arrayValue m => om_wf m /\ Forall is_int32 (om_keys m)
  | objectValue m => om_wf m /\ Forall no_nul (om_keys m)
  | _ => True
  end.

Inductive Value_wf : Value -> Prop :=
| Value_wf_intro c p :
    comments_ok c -> payload_ok p -> Forall Value_wf (children p) -> Value_wf (mkValue c p).

(** No floating point number anywhere in the value. *)
Inductive no_real : Value -> Prop :=
| no_real_intro c p :
    (match p with realValue _ => False | _ => True end) ->
    Forall no_real (children p) -> no_real (mkValue c p).

(** The value without its comments, at every level. *)
Fixpoint strip (v : Value) : Value :=
  match v with
  | mkValue _ p =>
      mk match p with
         | arrayValue m => arrayValue (map (fun kv => (fst kv, strip (snd kv))) m)
         | objectValue m => objectValue (map (fun kv => (fst kv, strip (snd kv))) m)
         | p => p
         end
  end.

(** Arrays whose indices are exactly [0 .. n-1]. *)
Fixpoint dense_from (i : Z) (m : list (Z * Value)) : Prop :=
  match m with
  | [] => True
  | (k, _) :: m' => k = i /\ dense_from (i + 1) m'
  end.

Definition dense_map (m : list (Z * Value)) : Prop :=
  dense_from 0 m /\ Z.of_nat (length m) <= INT_MAX.

Definition dense (v : Value) : Prop :=
  match value_ v with arrayValue m => dense_map m | _ => False end.

(** ** Lemmas *)

Lemma Value_wf_inv v : Value_wf v ->
  comments_ok (comments_ v) /\ payload_ok (value_ v) /\ Forall Value_wf (children (value_ v)).
Proof. by destruct 1. Qed.

Lemma Value_wf_make v :
  comments_ok (comments_ v) -> payload_ok (value_ v) ->
  Forall Value_wf (children (value_ v)) -> Value_wf v.
Proof. destruct v. by constructor. Qed.

Lemma noComments_ok : comments_ok noComments.
Proof. done. Qed.

Lemma null_wf : Value_wf null.
Proof. by repeat constructor. Qed.

Lemma Value_of_type_wf t : Value_wf (Value_of_type t).
Proof. destruct t; constructor; cbn; auto using noComments_ok; by repeat constructor. Qed.

#[local] Hint Resolve noComments_ok null_wf Value_of_type_wf : served.

Lemma map_id_in {A B} (f : A -> A) (g : B -> A) (l : list B) :
  Forall (fun x => f (g x) = g x) l -> map (fun x => f (g x)) l = map g l.
Proof. induction 1; cbn; congruence. Qed.

Lemma copy_children {K} (m : list (K * Value)) :
  Forall (fun v => copy v = v) (om_values m) ->
  map (fun kv => (fst kv, copy (snd kv))) m = m.
Proof.
  induction m as [|[k v] m IH]; cbn; [done|]. intros [Hv Hm]%Forall_cons_1.
  by rewrite Hv, IH.
Qed.

(** The copy of a well-formed value is the value itself. *)
Lemma copy_id v : Value_wf v -> copy v = v.
Proof.
  induction v as [c p IH] using Value_induction. intros H. inversion H as [c' p' Hc Hp Hch]; subst.
  assert (Hall : Forall (fun v => copy v = v) (children p)).
  { clear -IH Hch. induction Hch as [|v l Hv Hl IHl]; [constructor|].
    apply Forall_cons_1 in IH as [IHv IH]. constructor; auto. }
  cbn. f_equal. destruct p as [| | | |[s|]| |m|m]; try done; cbn in *.
  - by rewrite cstr_id.
  - f_equal. by apply copy_children.
  - f_equal. rewrite <- (copy_children m Hall) at 2. destruct Hp as [_ Hp].
    unfold om_keys in Hp. clear -Hp. induction m as [|[k v] m IH]; [done|].
    cbn in *. apply Forall_cons_1 in Hp as [Hk Hm]. by rewrite cstr_id, IH.
Qed.

(** Assignment replaces the payload and keeps the comments. *)
Lemma assign_wf_eq dst src : Value_wf src -> assign dst src = mkValue (comments_ dst) (value_ src).
Proof. intros H. unfold assign, swap. cbn. by rewrite copy_id. Qed.

Lemma assign_wf dst src : Value_wf dst -> Value_wf src -> Value_wf (assign dst src).
Proof.
  intros Hd Hs. rewrite assign_wf_eq by done.
  apply Value_wf_inv in Hd as (Hc & _ & _). apply Value_wf_inv in Hs as (_ & Hp & Hch).
  by apply Value_wf_make.
Qed.

Lemma null_to_wf t v : Value_wf v -> Value_wf (null_to t v).
Proof. intros H. unfold null_to. destruct (isNull v); auto using assign_wf with served. Qed.

Lemma touch_values_wf {K} `{KeyOrd K} (k : K) m :
  Forall Value_wf (om_values m) -> Forall Value_wf (om_values (om_touch k null m)).
Proof.
  unfold om_values. induction m as [|[k' v] m IH]; cbn; [by repeat constructor; auto with served|].
  intros Hm. apply Forall_cons_1 in Hm as [Hv Hm].
  destruct (kcmp k k'); cbn; repeat constructor; auto with served.
Qed.

Lemma touch_keys {K V} `{KeyOrd K} (P : K -> Prop) (k : K) (d : V) m :
  P k -> Forall P (om_keys m) -> Forall P (om_keys (om_touch k d m)).
Proof.
  unfold om_keys. intros Hk. induction m as [|[k' v] m IH]; cbn; [by repeat constructor|].
  intros Hm. apply Forall_cons_1 in Hm as [Hv Hm].
  destruct (kcmp k k'); cbn; repeat constructor; auto.
Qed.

Lemma erase_Forall {K V} `{KeyOrd K} (P : K * V -> Prop) (k : K) m :
  Forall P m -> Forall P (om_erase k m).
Proof.
  induction 1 as [|[k' v] m Hv Hm IH]; cbn; [constructor|]. destruct (kcmp k k'); auto.
Qed.

Lemma erase_keys {K V} `{KeyOrd K} (P : K -> Prop) (k : K) (m : list (K * V)) :
  Forall P (om_keys m) -> Forall P (om_keys (om_erase k m)).
Proof. unfold om_keys. rewrite !Forall_map. apply erase_Forall. Qed.

Lemma erase_values_wf {K} `{KeyOrd K} (k : K) (m : list (K * Value)) :
  Forall Value_wf (om_values m) -> Forall Value_wf (om_values (om_erase k m)).
Proof. unfold om_values. rewrite !Forall_map. apply erase_Forall. Qed.

Lemma find_wf {K} `{KeyOrd K} (k : K) m v :
  Forall Value_wf (om_values m) -> om_find k m = Some v -> Value_wf v.
Proof.
  unfold om_values. intros Hm Hf%om_find_in. rewrite Forall_map, Forall_forall in Hm.
  apply (Hm _ Hf).
Qed.

Lemma index_ref_wf i v v' : Value_wf v -> index_ref i v = Ok v' -> Value_wf v'.
Proof.
  unfold index_ref. intros Hv%(null_to_wf TarrayValue) Hr. destruct (null_to TarrayValue v) as [c p].
  destruct p; cbn in Hr; inv_ok. apply Value_wf_inv in Hv as (Hc & [Hw Hk] & Hch).
  apply Value_wf_make; cbn in *; [done| |by apply touch_values_wf].
  split; [by apply om_wf_touch|]. apply touch_keys; auto with served.
Qed.

Lemma resolveReference_wf s v v' : Value_wf v -> resolveReference s v = Ok v' -> Value_wf v'.
Proof.
  unfold resolveReference. intros Hv%(null_to_wf TobjectValue) Hr.
  destruct (null_to TobjectValue v) as [c p].
  destruct p; cbn in Hr; inv_ok. apply Value_wf_inv in Hv as (Hc & [Hw Hk] & Hch).
  apply Value_wf_make; cbn in *; [done| |by apply touch_values_wf].
  split; [by apply om_wf_touch|]. apply touch_keys; auto with served.
Qed.

Lemma clear_wf v v' : Value_wf v -> clear v = Ok v' -> Value_wf v'.
Proof.
  intros Hv Hc. apply Value_wf_inv in Hv as Hi. destruct Hi as (Hcm & Hp & _).
  unfold clear in Hc. destruct (value_ v) eqn:E; inv_ok; try done; apply Value_wf_make;
    cbn; repeat constructor; apply Hcm.
Qed.

Lemma alter_values_wf {K} `{KeyOrd K} f (k : K) m :
  (forall v, Value_wf v -> Value_wf (f v)) ->
  Forall Value_wf (om_values m) -> Forall Value_wf (om_values (om_alter f k m)).
Proof.
  intros Hf. unfold om_values. induction m as [|[k' v] m IH]; cbn; [done|].
  intros [Hv Hm]%Forall_cons_1. destruct (kcmp k k'); cbn; constructor; auto.
Qed.

Lemma child_modify_wf f k v :
  (forall w, Value_wf w -> Value_wf (f w)) -> Value_wf v -> Value_wf (child_modify f k v).
Proof.
  intros Hf Hv. apply Value_wf_inv in Hv as Hi. destruct Hi as (Hc & Hp & Hch).
  unfold child_modify. destruct k, (value_ v) eqn:E; try done; apply Value_wf_make; cbn in *; try done;
    try (by apply alter_values_wf);
    destruct Hp as [Hw Hk]; split; auto using om_wf_alter; by rewrite om_keys_alter.
Qed.

Lemma vmodify_wf p f v :
  (forall w, Value_wf w -> Value_wf (f w)) -> Value_wf v -> Value_wf (vmodify p f v).
Proof.
  intros Hf. revert v. induction p as [|k p IH]; cbn; [auto|]. intros v Hv.
  by apply child_modify_wf.
Qed.

Lemma setComment_wf t p v v' : Value_wf v -> setComment t p v = Ok v' -> Value_wf v'.
Proof.
  intros Hv Hs. apply Value_wf_inv in Hv as (Hc & Hp & Hch). unfold setComment, assertion in Hs.
  destruct (valid_comment t) eqn:E; cbn in Hs; inv_ok. apply Value_wf_make; cbn; try done.
  assert (comment_ok (Some (cstr t))).
  { split; [|apply cstr_no_nul]. revert E. unfold valid_comment. by rewrite cstr_idemp. }
  destruct Hc as (? & ? & ?). unfold comments_ok. destruct p; cbn; auto.
Qed.

End JsonValue.

Arguments nullValue {D V}.
Arguments intValue {D V} i.
Arguments uintValue {D V} u.
Arguments realValue {D V} r.
Arguments stringValue {D V} s.
Arguments booleanValue {D V} b.
Arguments arrayValue {D V} m.
Arguments objectValue {D V} m.
#[export] Hint Resolve noComments_ok null_wf Value_of_type_wf : served.
Arguments type {D} v : simpl never.
