(* ===== verification/JsonWriter.v ===== *)
(** * JSON text output ([lib/jsoncpp/json_writer.cpp])

    The conversions of scalars to text and [FastWriter].  A writer appends to
    its [document_]; [writeValue] is the text one call appends. *)

From S2P Require Import Prelude OrdMap Doubles JsonValue.

(** ** Scalars *)

Definition isControlCharacter (ch : ascii) : bool := (0 <? schar ch) && (schar ch <=? 31).

(** [containsControlCharacter] and [strpbrk] walk a C string. *)
Definition containsControlCharacter (str : bytes) : bool := existsb isControlCharacter (cstr str).

Definition strpbrk_found (str accept : bytes) : bool :=
  existsb (fun c => existsb (Ascii.eqb c) accept) (cstr str).

(** [uintToString] fills a 32 byte buffer from the right: the NUL, then digits
    for as long as the value is not zero.  [room] is the space left. *)
Fixpoint uintToString (room : nat) (value : Z) (current : bytes) : bytes :=
  match room with
  | O => current
  | S room' =>
      let current' := chr (value mod 10 + ord "0") :: current in
      let value' := value / 10 in
      if value' =? 0 then current' else uintToString room' value' current'
  end.

Definition buffer_room : nat := 31.

Definition valueToString_Int (value : Z) : bytes :=
  let isNegative := value <? 0 in
  let value := if isNegative then to_int32 (- value) else value in
  let current := uintToString buffer_room (to_uint32 value) [] in
  if isNegative then "-"%char :: current else current.

Definition valueToString_UInt (value : Z) : bytes := uintToString buffer_room value [].

Definition valueToString_bool (value : bool) : bytes := bs (if value then "true" else "false").

(** [while (ch > buffer && *ch == '0') --ch] *)
Fixpoint skip_zeros (buffer : bytes) (ch : nat) : nat :=
  match ch with
  | O => O
  | S ch' =>
      match buffer !! ch with
      | Some c => if Ascii.eqb c "0" then skip_zeros buffer ch' else ch
      | None => ch
      end
  end.

(** The second loop: is there a point before the digits ending at [ch]? *)
Fixpoint find_point (buffer : bytes) (ch : nat) : bool :=
  match buffer !! ch with
  | Some c =>
      if is_digit c then match ch with O => false | S ch' => find_point buffer ch' end
      else Ascii.eqb c "."
  | None => false
  end.

Definition trim_zeros (buffer : bytes) : bytes :=
  let ch := (length buffer - 1)%nat in
  match buffer !! ch with
  | Some c =>
      if Ascii.eqb c "0" then
        let last_nonzero := skip_zeros buffer ch in
        if find_point buffer last_nonzero then take (last_nonzero + 2) buffer else buffer
      else buffer
  | None => buffer
  end.

(** ** Strings *)

Definition hex_digit (n : Z) : ascii := if n <? 10 then chr (48 + n) else chr (55 + n).

(** [oss << "\\u" << hex << uppercase << setfill('0') << setw(4) << int(c)] *)
Definition unicode_escape (c : ascii) : bytes :=
  let n := ord c in
  bs "\u" ++ [hex_digit (n / 4096); hex_digit (n / 256 mod 16);
              hex_digit (n / 16 mod 16); hex_digit (n mod 16)].

Definition escape_char (c : ascii) : bytes :=
  if Ascii.eqb c DQUOTE then [BACKSLASH; DQUOTE]
  else if Ascii.eqb c BACKSLASH then [BACKSLASH; BACKSLASH]
  else if Ascii.eqb c BSP then bs "\b"
  else if Ascii.eqb c FF then bs "\f"
  else if Ascii.eqb c LF then bs "\n"
  else if Ascii.eqb c CR then bs "\r"
  else if Ascii.eqb c TAB then bs "\t"
  else if isControlCharacter c then unicode_escape c
  else [c].

Definition valueToQuotedString (value : bytes) : bytes :=
  let value := cstr value in
  if negb (strpbrk_found value [DQUOTE; BACKSLASH; BSP; FF; LF; CR; TAB])
     && negb (containsControlCharacter value)
  then [DQUOTE] ++ value ++ [DQUOTE]
  else [DQUOTE] ++ concat (map escape_char value) ++ [DQUOTE].

Section JsonWriter.
Context {D : DoubleOps}.

Definition valueToString_double (value : double) : bytes := trim_zeros (d_print value).

(** ** FastWriter *)

(** The string of a [stringValue]; a null buffer is dereferenced by
    [valueToQuotedString]. *)
Definition string_text (v : Value) : outcome bytes :=
  let! s := asCString v in
  match s with
  | Some s => Ok (valueToQuotedString s)
  | None => Aborted "null string buffer"
  end.

(** [for (int index = 0; index < size; ++index)]: [ws] holds what writing each
    present element appends; an absent element is the null value. *)
Fixpoint write_elements (n : nat) (index : Z) (ws : list (Z * outcome bytes)) : outcome bytes :=
  match n with
  | O => Ok []
  | S n' =>
      let! x := default (Ok (bs "null")) (om_find (to_int32 index) ws) in
      let! rest := write_elements n' (index + 1) ws in
      Ok ((if 0 <? index then bs "," else []) ++ x ++ rest)
  end.

(** The loop over [getMemberNames()]; [first] is [it == members.begin()]. *)
Fixpoint write_members (yaml first : bool) (members : list bytes)
    (ws : list (bytes * outcome bytes)) : outcome bytes :=
  match members with
  | [] => Ok []
  | name :: members' =>
      let! x := default (Ok (bs "null")) (om_find (cstr name) ws) in
      let! rest := write_members yaml false members' ws in
      Ok ((if first then [] else bs ",") ++ valueToQuotedString name
            ++ bs (if yaml then ": " else ":") ++ x ++ rest)
  end.

Fixpoint writeValue (yaml : bool) (value : Value) : outcome bytes :=
  match value with
  | mkValue c p =>
      match p with
      | nullValue => Ok (bs "null")
      | intValue _ => let! i := asInt value in Ok (valueToString_Int i)
      | uintValue _ => let! u := asUInt value in Ok (valueToString_UInt u)
      | realValue _ => let! r := asDouble value in Ok (valueToString_double r)
      | stringValue _ => string_text value
      | booleanValue _ => Ok (valueToString_bool (asBool value))
      | arrayValue m =>
          let ws := map (fun kv => (fst kv, writeValue yaml (snd kv))) m in
          let! body := write_elements (Z.to_nat (to_int32 (size value))) 0 ws in
          Ok (bs "[" ++ body ++ bs "]")
      | objectValue m =>
          let ws := map (fun kv => (fst kv, writeValue yaml (snd kv))) m in
          let! members := getMemberNames value in
          let! body := write_members yaml true members ws in
          Ok (bs "{" ++ body ++ bs "}")
      end
  end.

Record FastWriter := mkFastWriter { yamlCompatiblityEnabled_ : bool; document_ : bytes }.

Definition FastWriter_new : FastWriter := mkFastWriter false [].

Definition enableYAMLCompatibility (w : FastWriter) : FastWriter :=
  mkFastWriter true (document_ w).

Definition FastWriter_write (w : FastWriter) (root : Value) : outcome (bytes * FastWriter) :=
  let! body := writeValue (yamlCompatiblityEnabled_ w) root in
  let doc := [] ++ body ++ [LF] in
  Ok (doc, mkFastWriter (yamlCompatiblityEnabled_ w) doc).

End JsonWriter.
