(* ===== verification/JsonPaths.v ===== *)
(** * Paths into a JSON tree

    Lemmas on [vget] and [vmodify] (JsonValue): reading back what was written,
    and what a write leaves alone.  [shape_eq] is the equivalence of trees that
    differ in comments only; the operations that attach comments stay inside
    one class. *)

From stdpp Require Import tactics.
From S2P Require Import Prelude OrdMap Doubles JsonValue.

Section JsonPaths.
Context {D : DoubleOps}.

Definition valid (p : Path) (v : Value) : Prop := is_Some (vget p v).

(** [q] is strictly below [p]. *)
Definition sbelow (p q : Path) : Prop := exists k s, q = p ++ k :: s.

Definition type_at (p : Path) (v : Value) : option ValueType := type <$> vget p v.

Definition shape_eq (v w : Value) : Prop := forall p, type_at p v = type_at p w.

#[export] Instance shape_eq_equiv : Equivalence shape_eq.
Proof.
  split; [by intros v p|by intros v w H p|].
  intros u v w H1 H2 p. by rewrite (H1 p), (H2 p).
Qed.

Lemma valid_type_at p v : valid p v <-> is_Some (type_at p v).
Proof. unfold valid, type_at. by rewrite fmap_is_Some. Qed.

#[export] Instance valid_proper p : Proper (shape_eq ==> iff) (valid p).
Proof. intros v w H. by rewrite !valid_type_at, (H p). Qed.

Lemma child_modify_same f k v : child k (child_modify f k v) = f <$> child k v.
Proof.
  unfold child, child_modify. destruct v as [c p].
  destruct k, p; cbn; try done; apply om_find_alter_eq.
Qed.

Lemma child_modify_other f k k' v : k <> k' -> child k' (child_modify f k v) = child k' v.
Proof.
  intros Hne. unfold child, child_modify. destruct v as [c p].
  destruct k, k', p; cbn; try done; apply om_find_alter_ne; congruence.
Qed.

Lemma child_modify_type f k v : type (child_modify f k v) = type v.
Proof. unfold child_modify. destruct v as [c p]. by destruct k, p. Qed.

Lemma Key_eq_dec (k k' : Key) : {k = k'} + {k <> k'}.
Proof. decide equality; [apply Z.eq_dec|apply list_eq_dec]. Qed.

Lemma vget_app p q v : vget (p ++ q) v = vget p v ≫= vget q.
Proof.
  revert v. induction p as [|k p IH]; intros v; cbn; [done|]. by destruct (child k v).
Qed.

Lemma vget_vmodify_app p q f v : vget p (vmodify (p ++ q) f v) = vmodify q f <$> vget p v.
Proof.
  revert v. induction p as [|k p IH]; intros v; cbn; [done|].
  rewrite child_modify_same. destruct (child k v); cbn; auto.
Qed.

Lemma vget_vmodify_same p f v : vget p (vmodify p f v) = f <$> vget p v.
Proof. rewrite <- (app_nil_r p) at 2. by rewrite vget_vmodify_app. Qed.

Lemma vmodify_compose p f g v : vmodify p f (vmodify p g v) = vmodify p (fun x => f (g x)) v.
Proof.
  revert v. induction p as [|k p IH]; intros v; cbn; [done|].
  unfold child_modify. destruct v as [c q]. destruct k, q as [| | | | | |m|m]; cbn; try done.
  - do 2 f_equal. induction m as [|[k x] m IHm]; cbn; [done|].
    destruct (index ?= k) eqn:E; cbn; rewrite E; congruence.
  - do 2 f_equal. induction m as [|[k x] m IHm]; cbn; [done|].
    destruct (strcmp name k) eqn:E; cbn; rewrite E; congruence.
Qed.

Lemma vmodify_app p q f v : vmodify (p ++ q) f v = vmodify p (vmodify q f) v.
Proof. revert v. induction p as [|k p IH]; intros v; cbn; [done|]. 
  unfold child_modify. destruct v as [c r]. destruct k, r as [| | | | | |m|m]; cbn; try done.
  - do 2 f_equal. induction m as [|[k x] m IHm]; cbn; [done|].
    destruct (index ?= k); rewrite ?IH; congruence.
  - do 2 f_equal. induction m as [|[k x] m IHm]; cbn; [done|].
    destruct (strcmp name k); rewrite ?IH; congruence.
Qed.

(** Only the value found at the path matters. *)
Lemma vmodify_ext p f g v w :
  vget p v = Some w -> f w = g w -> vmodify p f v = vmodify p g v.
Proof.
  revert v. induction p as [|k p IH]; intros v; cbn; [by intros [= ->]|].
  unfold child, child_modify. destruct v as [c r]. destruct k, r as [| | | | | |m|m]; cbn; try done.
  - intros Hg Hfg. do 2 f_equal. induction m as [|[k x] m IHm]; cbn in *; [done|].
    destruct (index ?= k); [by rewrite (IH x Hg Hfg)|done|by rewrite IHm].
  - intros Hg Hfg. do 2 f_equal. induction m as [|[k x] m IHm]; cbn in *; [done|].
    destruct (strcmp name k); [by rewrite (IH x Hg Hfg)|done|by rewrite IHm].
Qed.

(** A write at [p] does not invalidate what is not strictly below [p]. *)
Lemma vmodify_valid_not_below p q f v :
  ~ sbelow p q -> valid q v -> valid q (vmodify p f v).
Proof.
  unfold valid. revert q v. induction p as [|k p IH]; intros q v Hnb Hq; cbn.
  - destruct q as [|k' q]; [by eexists|]. exfalso. apply Hnb. by exists k', q.
  - destruct q as [|k' q]; cbn in *; [by eexists|].
    destruct (Key_eq_dec k k') as [<-|Hne].
    + rewrite child_modify_same. destruct (child k v) as [w|]; cbn; [|by destruct Hq].
      apply IH; [|done]. intros (k' & s & ->). apply Hnb. by exists k', s.
    + by rewrite child_modify_other.
Qed.

(** A write that keeps every path of the value it replaces keeps every path. *)
Lemma vmodify_valid_mono p q f v w :
  vget p v = Some w -> (forall s, valid s w -> valid s (f w)) ->
  valid q v -> valid q (vmodify p f v).
Proof.
  unfold valid. revert q v. induction p as [|k p IH]; intros q v Hw Hf Hq; cbn in *.
  - injection Hw as ->. by apply Hf.
  - destruct q as [|k' q]; cbn in *; [by eexists|].
    destruct (Key_eq_dec k k') as [<-|Hne].
    + rewrite child_modify_same. destruct (child k v) as [x|]; cbn; [|by destruct Hq].
      by apply IH.
    + by rewrite child_modify_other.
Qed.

(** A write strictly below [q] keeps the type at [q]. *)
Lemma type_at_vmodify_prefix q k s f v : type_at q (vmodify (q ++ k :: s) f v) = type_at q v.
Proof.
  unfold type_at. rewrite vget_vmodify_app. destruct (vget q v) as [w|]; cbn; [|done].
  by rewrite child_modify_type.
Qed.

(** A write that keeps the shape of the value keeps the shape of the tree. *)
Lemma vmodify_shape p f v w :
  vget p v = Some w -> shape_eq w (f w) -> shape_eq v (vmodify p f v).
Proof.
  unfold shape_eq, type_at. revert v.
  induction p as [|k p IH]; intros v Hw Hf q; cbn in *; [by injection Hw as ->|].
  destruct q as [|k' q]; cbn; [by rewrite child_modify_type|].
  destruct (Key_eq_dec k k') as [<-|Hne]; [|by rewrite child_modify_other].
  rewrite child_modify_same. destruct (child k v) as [x|]; cbn; [|done]. by apply IH.
Qed.

Lemma with_comments_shape c v : shape_eq v (mkValue c (value_ v)).
Proof. intros p. destruct v as [c' q]. destruct p as [|[] p]; by destruct q. Qed.

(** Creating an element keeps the paths of a container and adds the new one. *)
Lemma touch_valid {K} `{KeyOrd K} (k k' : K) (m : list (K * Value)) w :
  om_find k' m = Some w -> exists w', om_find k' (om_touch k null m) = Some w' /\
    forall s, valid s w -> valid s w'.
Proof.
  intros Hw. exists w. split; [|done]. revert Hw.
  induction m as [|[k0 v] m IH]; cbn; [done|].
  destruct (kcmp k k0) eqn:E; cbn; try done.
  - destruct (kcmp k' k0) eqn:E'; try done; intros Hf.
    + apply kcmp_eq in E' as ->. rewrite (proj2 (kcmp_gt_lt k0 k) E). done.
    + assert (kcmp k' k = Gt) as ->.
      { apply kcmp_gt_lt. eapply kcmp_lt_trans; [exact E|]. by apply kcmp_gt_lt. }
      done.
  - destruct (kcmp k' k0); auto.
Qed.

Lemma resolveReference_spec name v :
  type v = TobjectValue ->
  exists v', resolveReference name v = Ok v' /\ type v' = TobjectValue
    /\ valid [AtMember (cstr name)] v' /\ (forall s, valid s v -> valid s v').
Proof.
  destruct v as [c p]. unfold type; cbn. destruct p as [| | | | | | |m]; try done. intros _.
  eexists. split; [done|]. split; [done|]. split.
  - unfold valid; cbn. rewrite om_find_touch_eq. by eexists.
  - intros [|[i|n] s]; unfold valid; cbn; [by eexists|done|].
    destruct (om_find n m) as [w|] eqn:E; [|by intros [? [=]]]. intros Hs.
    destruct (touch_valid (cstr name) n m w E) as (w' & -> & Hw). by apply Hw.
Qed.

Lemma index_ref_spec i v :
  type v = TarrayValue ->
  exists v', index_ref i v = Ok v' /\ type v' = TarrayValue
    /\ valid [AtIndex (to_int32 i)] v' /\ (forall s, valid s v -> valid s v').
Proof.
  destruct v as [c p]. unfold type; cbn. destruct p as [| | | | | |m|]; try done. intros _.
  eexists. split; [done|]. split; [done|]. split.
  - unfold valid; cbn. rewrite om_find_touch_eq. by eexists.
  - intros [|[n|n] s]; unfold valid; cbn; [by eexists| |done].
    destruct (om_find n m) as [w|] eqn:E; [|by intros [? [=]]]. intros Hs.
    destruct (touch_valid (to_int32 i) n m w E) as (w' & -> & Hw). by apply Hw.
Qed.

End JsonPaths.
