(* ===== verification/JsonReader.v ===== *)
(** * The JSON parser ([lib/jsoncpp/json_reader.cpp], class [Json::Reader])

    A [Location] is a pointer into the document; it is represented by the text
    from that pointer to [end_], so that pointer differences are differences
    of lengths and [p == end_] is [p = \[\]].  The tree under construction is
    [root_]; [nodes_] and [lastValue_] are paths into it, which is how the code
    reaches values it has already finished ([lastValue_] receives comments).
    The recursion of [readValue] is fuelled by the nesting depth; the loops
    carry a bound of their own, the text left to read. *)

From S2P Require Import Prelude OrdMap Doubles JsonValue.

(** ** Features *)

Record Features := mkFeatures { allowComments_ : bool; strictRoot_ : bool }.
Definition Features_new : Features := mkFeatures true false.
Definition Features_all : Features := Features_new.
Definition Features_strictMode : Features := mkFeatures false true.

(** ** Locations, tokens and errors *)

Abbreviation Location := bytes.

Inductive TokenType :=
| tokenEndOfStream | tokenObjectBegin | tokenObjectEnd | tokenArrayBegin | tokenArrayEnd
| tokenString | tokenNumber | tokenTrue | tokenFalse | tokenNull
| tokenArraySeparator | tokenMemberSeparator | tokenComment | tokenError.

#[export] Instance TokenType_eq_dec : EqDecision TokenType.
Proof. solve_decision. Defined.

Record Token := mkToken { type_ : TokenType; start_ : Location; end_ : Location }.

Record ErrorInfo := mkErrorInfo {
  token_ : Token;
  message_ : bytes;
  extra_ : option Location
}.

(** [std::string(begin, end)] *)
Definition text_between (from upto : Location) : bytes := take (length from - length upto) from.

Definition token_text (t : Token) : bytes := text_between (start_ t) (end_ t).

(** [*p]; the document is NUL terminated. *)
Definition deref (p : Location) : ascii := match p with [] => NUL | c :: _ => c end.

Definition is_char (c : ascii) (cs : bytes) : bool := existsb (Ascii.eqb c) cs.

Arguments is_char : simpl never.

Definition containsNewLine (from upto : Location) : bool :=
  existsb (fun c => Ascii.eqb c LF || Ascii.eqb c CR) (text_between from upto).

(** ** UTF-8 *)

Definition codePointToUTF8 (cp : Z) : bytes :=
  if cp <=? 0x7f then [chr cp]
  else if cp <=? 0x7FF then
    [chr (Z.lor 0xC0 (Z.land 0x1f (Z.shiftr cp 6))); chr (Z.lor 0x80 (Z.land 0x3f cp))]
  else if cp <=? 0xFFFF then
    [chr (Z.lor 0xE0 (Z.land 0xf (Z.shiftr cp 12)));
     chr (Z.lor 0x80 (Z.land 0x3f (Z.shiftr cp 6)));
     chr (Z.lor 0x80 (Z.land 0x3f cp))]
  else if cp <=? 0x10FFFF then
    [chr (Z.lor 0xF0 (Z.land 0x7 (Z.shiftr cp 18)));
     chr (Z.lor 0x80 (Z.land 0x3f (Z.shiftr cp 12)));
     chr (Z.lor 0x80 (Z.land 0x3f (Z.shiftr cp 6)));
     chr (Z.lor 0x80 (Z.land 0x3f cp))]
  else [].

(** ** The lexer: what each scanner does to [current_] *)

Definition getNextChar (current : Location) : ascii * Location :=
  match current with
  | [] => (NUL, [])
  | c :: rest => (c, rest)
  end.

Definition is_space (c : ascii) : bool := is_char c [" "%char; TAB; CR; LF].

Arguments is_space : simpl never.

Fixpoint skipSpaces (current : Location) : Location :=
  match current with
  | c :: rest => if is_space c then skipSpaces rest else current
  | [] => []
  end.

Definition matchText (pattern : bytes) (current : Location) : bool * Location :=
  if bool_decide (take (length pattern) current = pattern)
  then (true, drop (length pattern) current)
  else (false, current).

(** The loop of [readCStyleComment] stops on the slash of the closing mark. *)
Fixpoint skip_to_comment_end (current : Location) : Location :=
  match current with
  | [] => []
  | c :: rest =>
      if Ascii.eqb c "*" && Ascii.eqb (deref rest) "/" then rest else skip_to_comment_end rest
  end.

Definition readCStyleComment (current : Location) : bool * Location :=
  let '(c, rest) := getNextChar (skip_to_comment_end current) in (Ascii.eqb c "/", rest).

Fixpoint skip_line (current : Location) : Location :=
  match current with
  | [] => []
  | c :: rest => if Ascii.eqb c CR || Ascii.eqb c LF then rest else skip_line rest
  end.

Definition readCppStyleComment (current : Location) : bool * Location := (true, skip_line current).

Definition is_number_char (c : ascii) : bool :=
  is_digit c || is_char c ["."%char; "e"%char; "E"%char; "+"%char; "-"%char].

Arguments is_number_char : simpl never.

Fixpoint readNumber (current : Location) : Location :=
  match current with
  | [] => []
  | c :: rest => if is_number_char c then readNumber rest else current
  end.

Fixpoint readString_loop (c : ascii) (current : Location) : ascii * Location :=
  match current with
  | [] => (c, [])
  | c :: rest =>
      if Ascii.eqb c BACKSLASH then
        match rest with
        | [] => (c, [])
        | _ :: rest' => readString_loop c rest'
        end
      else if Ascii.eqb c DQUOTE then (c, rest)
      else readString_loop c rest
  end.

Definition readString (current : Location) : bool * Location :=
  let '(c, rest) := readString_loop NUL current in (Ascii.eqb c DQUOTE, rest).

(** ** Decoding token texts *)

(** The text between the quotes is consumed from the left; [inl] is an error
    with its message and the text left when it was found. *)
Definition hex_value (c : ascii) : option Z :=
  if is_digit c then Some (ord c - ord "0")
  else if (ord "a" <=? ord c) && (ord c <=? ord "f") then Some (ord c - ord "a" + 10)
  else if (ord "A" <=? ord c) && (ord c <=? ord "F") then Some (ord c - ord "A" + 10)
  else None.

Fixpoint hex_loop (n : nat) (unicode : Z) (s : bytes) : (string * bytes) + (Z * bytes) :=
  match n with
  | O => inr (unicode, s)
  | S n' =>
      match s with
      | [] => inl ("unreachable"%string, [])
      | c :: s' =>
          match hex_value c with
          | Some d => hex_loop n' (to_uint32 (unicode * 16 + d)) s'
          | None =>
              inl ("Bad unicode escape sequence in string: hexadecimal digit expected."%string, s')
          end
      end
  end.

Definition decodeUnicodeEscapeSequence (s : bytes) : (string * bytes) + (Z * bytes) :=
  if (length s <? 4)%nat
  then inl ("Bad unicode escape sequence in string: four digits expected."%string, s)
  else hex_loop 4 0 s.

Definition expecting_u : string :=
  "expecting another \u token to begin the second half of a unicode surrogate pair".

Definition decodeUnicodeCodePoint (s : bytes) : (string * bytes) + (Z * bytes) :=
  match decodeUnicodeEscapeSequence s with
  | inl e => inl e
  | inr (unicode, s1) =>
      if (0xD800 <=? unicode) && (unicode <=? 0xDBFF) then
        if (length s1 <? 6)%nat
        then inl ("additional six characters expected to parse unicode surrogate pair."%string, s1)
        else
          match s1 with
          | c1 :: s2 =>
              if Ascii.eqb c1 BACKSLASH then
                match s2 with
                | c2 :: s3 =>
                    if Ascii.eqb c2 "u" then
                      match decodeUnicodeEscapeSequence s3 with
                      | inl e => inl e
                      | inr (surrogatePair, s4) =>
                          inr (0x10000 + Z.shiftl (Z.land unicode 0x3FF) 10
                                 + Z.land surrogatePair 0x3FF, s4)
                      end
                    else inl (expecting_u, s3)
                | [] => inl (expecting_u, [])
                end
              else inl (expecting_u, s2)
          | [] => inl (expecting_u, [])
          end
      else inr (unicode, s1)
  end.

Definition simple_escape (c : ascii) : option ascii :=
  if Ascii.eqb c DQUOTE then Some DQUOTE
  else if Ascii.eqb c "/" then Some "/"%char
  else if Ascii.eqb c BACKSLASH then Some BACKSLASH
  else if Ascii.eqb c "b" then Some BSP
  else if Ascii.eqb c "f" then Some FF
  else if Ascii.eqb c "n" then Some LF
  else if Ascii.eqb c "r" then Some CR
  else if Ascii.eqb c "t" then Some TAB
  else None.

(** The [while (current != end)] loop of [decodeString]. *)
Fixpoint decode_loop (n : nat) (s : bytes) (decoded : bytes) : outcome ((string * bytes) + bytes) :=
  match n with
  | O => OutOfFuel
  | S n' =>
      match s with
      | [] => Ok (inr decoded)
      | c :: s1 =>
          if Ascii.eqb c DQUOTE then Ok (inr decoded)
          else if Ascii.eqb c BACKSLASH then
            match s1 with
            | [] => Ok (inl ("Empty escape sequence in string"%string, []))
            | escape :: s2 =>
                match simple_escape escape with
                | Some d => decode_loop n' s2 (decoded ++ [d])
                | None =>
                    if Ascii.eqb escape "u" then
                      match decodeUnicodeCodePoint s2 with
                      | inl e => Ok (inl e)
                      | inr (unicode, s3) => decode_loop n' s3 (decoded ++ codePointToUTF8 unicode)
                      end
                    else Ok (inl ("Bad escape sequence in string"%string, s2))
                end
            end
          else decode_loop n' s1 (decoded ++ [c])
      end
  end.

(** What the digits of a number token denote. *)
Inductive NumberResult := IsInteger (value : Z) | IsDouble | NotANumber.

Fixpoint decode_digits (threshold value : Z) (s : bytes) : NumberResult :=
  match s with
  | [] => IsInteger value
  | c :: s' =>
      if negb (is_digit c) then NotANumber
      else if threshold <=? value then IsDouble
      else decode_digits threshold (to_uint32 (value * 10 + (ord c - ord "0"))) s'
  end.

(** The [isDouble] scan: an exponent, a point, a plus, or a minus that is not
    the first character. *)
Definition number_is_double (s : bytes) : bool :=
  existsb (fun c => is_char c ["."%char; "e"%char; "E"%char; "+"%char]) s
  || existsb (Ascii.eqb "-") (drop 1 s).

Definition number_threshold (isNegative : bool) : Z :=
  (if isNegative then to_uint32 (to_int32 (- minInt)) else maxUInt) / 10.

(** ** The reader *)

Section JsonReader.
Context {D : DoubleOps}.

Record Reader := mkReader {
  features_ : Features;
  collectComments_ : bool;
  begin_ : Location;
  current_ : Location;
  lastValueEnd_ : option Location;
  lastValue_ : option Path;
  commentsBefore_ : bytes;
  errors_ : list ErrorInfo;
  nodes_ : list Path;
  root_ : Value
}.

Definition with_current (l : Location) (r : Reader) : Reader :=
  mkReader (features_ r) (collectComments_ r) (begin_ r) l (lastValueEnd_ r) (lastValue_ r)
    (commentsBefore_ r) (errors_ r) (nodes_ r) (root_ r).
Definition with_last (e : option Location) (v : option Path) (r : Reader) : Reader :=
  mkReader (features_ r) (collectComments_ r) (begin_ r) (current_ r) e v
    (commentsBefore_ r) (errors_ r) (nodes_ r) (root_ r).
Definition with_commentsBefore (s : bytes) (r : Reader) : Reader :=
  mkReader (features_ r) (collectComments_ r) (begin_ r) (current_ r) (lastValueEnd_ r)
    (lastValue_ r) s (errors_ r) (nodes_ r) (root_ r).
Definition with_errors (es : list ErrorInfo) (r : Reader) : Reader :=
  mkReader (features_ r) (collectComments_ r) (begin_ r) (current_ r) (lastValueEnd_ r)
    (lastValue_ r) (commentsBefore_ r) es (nodes_ r) (root_ r).
Definition with_nodes (ns : list Path) (r : Reader) : Reader :=
  mkReader (features_ r) (collectComments_ r) (begin_ r) (current_ r) (lastValueEnd_ r)
    (lastValue_ r) (commentsBefore_ r) (errors_ r) ns (root_ r).
Definition with_root (v : Value) (r : Reader) : Reader :=
  mkReader (features_ r) (collectComments_ r) (begin_ r) (current_ r) (lastValueEnd_ r)
    (lastValue_ r) (commentsBefore_ r) (errors_ r) (nodes_ r) v.

(** *** The node stack *)

Definition top (r : Reader) : Path := default [] (head (nodes_ r)).
Definition push (p : Path) (r : Reader) : Reader := with_nodes (p :: nodes_ r) r.
Definition pop (r : Reader) : Reader := with_nodes (tail (nodes_ r)) r.

Definition currentValue (r : Reader) : Value := default null (vget (top r) (root_ r)).

(** [currentValue() = v] *)
Definition set_currentValue (v : Value) (r : Reader) : Reader :=
  with_root (vmodify (top r) (fun old => assign old v) (root_ r)) r.

(** Run a member function of the value at a path. *)
Definition update_at (p : Path) (f : Value -> outcome Value) (r : Reader) : outcome Reader :=
  match vget p (root_ r) with
  | Some v => let! v' := f v in Ok (with_root (vmodify p (fun _ => v') (root_ r)) r)
  | None => Aborted "dangling value"
  end.

(** *** Errors *)

Definition addError (message : bytes) (token : Token) (extra : option Location) (r : Reader)
  : bool * Reader :=
  (false, with_errors (errors_ r ++ [mkErrorInfo token message extra]) r).

(** *** Comments *)

Definition addComment (from upto : Location) (placement : CommentPlacement) (r : Reader)
  : outcome Reader :=
  let! _ := assertion (collectComments_ r) "collectComments_" in
  let text := text_between from upto in
  match placement with
  | commentAfterOnSameLine =>
      match lastValue_ r with
      | Some p => update_at p (setComment text placement) r
      | None => Aborted "lastValue_ != 0"
      end
  | _ =>
      let sep := match commentsBefore_ r with [] => [] | _ => [LF] end in
      Ok (with_commentsBefore (commentsBefore_ r ++ sep ++ text) r)
  end.

(** [current_] is just after the slash; [commentBegin] points at it. *)
Definition readComment (commentBegin : Location) (r : Reader) : outcome (bool * Reader) :=
  let '(c, l) := getNextChar (current_ r) in
  let '(successful, l) :=
    if Ascii.eqb c "*" then readCStyleComment l
    else if Ascii.eqb c "/" then readCppStyleComment l
    else (false, l) in
  let r := with_current l r in
  if negb successful then Ok (false, r)
  else if collectComments_ r then
    let placement :=
      match lastValueEnd_ r with
      | Some e =>
          if negb (containsNewLine e commentBegin)
             && (negb (Ascii.eqb c "*") || negb (containsNewLine commentBegin l))
          then commentAfterOnSameLine else commentBefore
      | None => commentBefore
      end in
    let! r := addComment commentBegin l placement r in Ok (true, r)
  else Ok (true, r).

(** *** Tokens *)

(** The tokens that only move [current_]: type, [ok], new position. *)
Definition scan_token (c : ascii) (l : Location) : TokenType * (bool * Location) :=
  if Ascii.eqb c "{" then (tokenObjectBegin, (true, l))
  else if Ascii.eqb c "}" then (tokenObjectEnd, (true, l))
  else if Ascii.eqb c "[" then (tokenArrayBegin, (true, l))
  else if Ascii.eqb c "]" then (tokenArrayEnd, (true, l))
  else if Ascii.eqb c DQUOTE then (tokenString, readString l)
  else if is_digit c || Ascii.eqb c "-" then (tokenNumber, (true, readNumber l))
  else if Ascii.eqb c "t" then (tokenTrue, matchText (bs "rue") l)
  else if Ascii.eqb c "f" then (tokenFalse, matchText (bs "alse") l)
  else if Ascii.eqb c "n" then (tokenNull, matchText (bs "ull") l)
  else if Ascii.eqb c "," then (tokenArraySeparator, (true, l))
  else if Ascii.eqb c ":" then (tokenMemberSeparator, (true, l))
  else if Ascii.eqb c NUL then (tokenEndOfStream, (true, l))
  else (tokenError, (false, l)).

Definition readToken (r : Reader) : outcome (bool * Token * Reader) :=
  let start := skipSpaces (current_ r) in
  let '(c, l) := getNextChar start in
  let! (type, ok, r) :=
    if Ascii.eqb c "/" then
      let! (ok, r) := readComment start (with_current l r) in
      Ok (tokenComment, ok, r)
    else
      let '(type, (ok, l)) := scan_token c l in
      Ok (type, ok, with_current l r) in
  let type := if (ok : bool) then type else tokenError in
  Ok (true, mkToken type start (current_ r), r).

(** [do readToken(token); while (token.type_ == tokenComment)]; every comment
    is at least two characters, so the text left bounds the loop. *)
Fixpoint read_past_comments (n : nat) (r : Reader) : outcome (Token * Reader) :=
  match n with
  | O => OutOfFuel
  | S n' =>
      let! (_, token, r) := readToken r in
      if decide (type_ token = tokenComment) then read_past_comments n' r else Ok (token, r)
  end.

Definition loop_bound (r : Reader) : nat := S (length (current_ r)).

Definition skipCommentTokens (r : Reader) : outcome (Token * Reader) :=
  if allowComments_ (features_ r) then read_past_comments (loop_bound r) r
  else let! (_, token, r) := readToken r in Ok (token, r).

(** [while (token.type_ == tokenComment && ok) ok = readToken(token)] *)
Fixpoint drop_comments (n : nat) (token : Token) (ok : bool) (r : Reader)
  : outcome (bool * Token * Reader) :=
  if decide (type_ token = tokenComment) then
    if ok then
      match n with
      | O => OutOfFuel
      | S n' => let! (ok, token, r) := readToken r in drop_comments n' token ok r
      end
    else Ok (ok, token, r)
  else Ok (ok, token, r).

Definition expectToken (type : TokenType) (message : bytes) (r : Reader)
  : outcome (bool * Token * Reader) :=
  let! (_, token, r) := readToken r in
  if decide (type_ token = type) then Ok (true, token, r)
  else let '(b, r) := addError message token None r in Ok (b, token, r).

(** *** Recovery *)

Fixpoint recover_loop (n : nat) (errorCount : nat) (skipUntilToken : TokenType) (r : Reader)
  : outcome Reader :=
  match n with
  | O => OutOfFuel
  | S n' =>
      let! (ok, skip, r) := readToken r in
      let r := if (ok : bool) then r else with_errors (take errorCount (errors_ r)) r in
      if decide (type_ skip = skipUntilToken) then Ok r
      else if decide (type_ skip = tokenEndOfStream) then Ok r
      else recover_loop n' errorCount skipUntilToken r
  end.

Definition recoverFromError (skipUntilToken : TokenType) (r : Reader) : outcome (bool * Reader) :=
  let errorCount := length (errors_ r) in
  let! r := recover_loop (loop_bound r) errorCount skipUntilToken r in
  Ok (false, with_errors (take errorCount (errors_ r)) r).

Definition addErrorAndRecover (message : bytes) (token : Token) (skipUntilToken : TokenType)
    (r : Reader) : outcome (bool * Reader) :=
  recoverFromError skipUntilToken (snd (addError message token None r)).

(** *** Scalars *)

Definition not_a_number (token : Token) : bytes := bs "'" ++ token_text token ++ bs "' is not a number.".

(** [char buffer\[bufferSize\]; memcpy(buffer, start, length); buffer\[length\] = 0]
    is out of bounds when the length is the buffer size. *)
Definition bufferSize : nat := 32.

Definition decodeDouble (token : Token) (r : Reader) : outcome (bool * Reader) :=
  let text := token_text token in
  let! _ := assertion (negb (length text =? bufferSize)%nat) "buffer[length] out of bounds" in
  match d_scan (cstr text) with
  | Some value => Ok (true, set_currentValue (Value_of_double value) r)
  | None => Ok (addError (not_a_number token) token None r)
  end.

Definition decodeNumber (token : Token) (r : Reader) : outcome (bool * Reader) :=
  let text := token_text token in
  if number_is_double text then decodeDouble token r
  else
    let isNegative := Ascii.eqb (deref text) "-" in
    let digits := if isNegative then drop 1 text else text in
    match decode_digits (number_threshold isNegative) 0 digits with
    | NotANumber => Ok (addError (not_a_number token) token None r)
    | IsDouble => decodeDouble token r
    | IsInteger value =>
        Ok (true, set_currentValue
                    (if isNegative then Value_of_Int (to_int32 (- to_int32 value))
                     else if value <=? maxInt then Value_of_Int (to_int32 value)
                     else Value_of_UInt value) r)
    end.

(** [decodeString(token, decoded)]: [None] when an error was added. *)
Definition decodeString_text (token : Token) (r : Reader) : outcome (option bytes * Reader) :=
  let from := drop 1 (start_ token) in
  let n := (length (start_ token) - length (end_ token) - 2)%nat in
  let text := take n from in
  let! res := decode_loop (S (length text)) text [] in
  match res with
  | inl (message, rest) =>
      Ok (None, snd (addError (bs message) token (Some (rest ++ drop n from)) r))
  | inr decoded => Ok (Some decoded, r)
  end.

Definition decodeString (token : Token) (r : Reader) : outcome (bool * Reader) :=
  let! (res, r) := decodeString_text token r in
  match res with
  | Some decoded => Ok (true, set_currentValue (Value_of_string decoded) r)
  | None => Ok (false, r)
  end.

(** *** Containers; [rv] is [readValue] *)

Definition read_child (rv : Reader -> outcome (bool * Reader)) (k : Key) (r : Reader)
  : outcome (bool * Reader) :=
  let! (ok, r) := rv (push (top r ++ [k]) r) in Ok (ok, pop r).

Fixpoint readObject_loop (rv : Reader -> outcome (bool * Reader)) (n : nat) (name : bytes)
    (r : Reader) : outcome (bool * Reader) :=
  match n with
  | O => OutOfFuel
  | S n' =>
      let! (ok, tokenName, r) := readToken r in
      let! (initialTokenOk, tokenName, r) := drop_comments (loop_bound r) tokenName true r in
      let missing_name r :=
        addErrorAndRecover (bs "Missing '}' or object member name") tokenName tokenObjectEnd r in
      if negb ok || negb initialTokenOk then missing_name r
      else if bool_decide (type_ tokenName = tokenObjectEnd) && bool_decide (name = [])
      then Ok (true, r)
      else if negb (bool_decide (type_ tokenName = tokenString)) then missing_name r
      else
        let! (res, r) := decodeString_text tokenName r in
        match res with
        | None => recoverFromError tokenObjectEnd r
        | Some name =>
            let! (ok, colon, r) := readToken r in
            if negb ok || negb (bool_decide (type_ colon = tokenMemberSeparator)) then
              addErrorAndRecover (bs "Missing ':' after object member name") colon
                tokenObjectEnd r
            else
              let! r := update_at (top r) (resolveReference name) r in
              let! (ok, r) := read_child rv (AtMember (cstr name)) r in
              if negb ok then recoverFromError tokenObjectEnd r
              else
                let! (ok, comma, r) := readToken r in
                if negb ok || (negb (bool_decide (type_ comma = tokenObjectEnd))
                               && negb (bool_decide (type_ comma = tokenArraySeparator))
                               && negb (bool_decide (type_ comma = tokenComment)))
                then addErrorAndRecover (bs "Missing ',' or '}' in object declaration") comma
                       tokenObjectEnd r
                else
                  let! (_, comma, r) := drop_comments (loop_bound r) comma true r in
                  if decide (type_ comma = tokenObjectEnd) then Ok (true, r)
                  else readObject_loop rv n' name r
        end
  end.

Definition readObject (rv : Reader -> outcome (bool * Reader)) (r : Reader)
  : outcome (bool * Reader) :=
  let r := set_currentValue (Value_of_type TobjectValue) r in
  readObject_loop rv (loop_bound r) [] r.

Fixpoint readArray_loop (rv : Reader -> outcome (bool * Reader)) (n : nat) (index : Z)
    (r : Reader) : outcome (bool * Reader) :=
  match n with
  | O => OutOfFuel
  | S n' =>
      let! r := update_at (top r) (index_ref (to_uint32 index)) r in
      let! (ok, r) := read_child rv (AtIndex (to_int32 index)) r in
      if negb ok then recoverFromError tokenArrayEnd r
      else
        let! (ok, token, r) := readToken r in
        let! (ok, token, r) := drop_comments (loop_bound r) token ok r in
        let badTokenType :=
          bool_decide (type_ token = tokenArraySeparator)
          && bool_decide (type_ token = tokenArrayEnd) in
        if negb ok || badTokenType then
          addErrorAndRecover (bs "Missing ',' or ']' in array declaration") token tokenArrayEnd r
        else if decide (type_ token = tokenArrayEnd) then Ok (true, r)
        else readArray_loop rv n' (index + 1) r
  end.

Definition readArray (rv : Reader -> outcome (bool * Reader)) (r : Reader)
  : outcome (bool * Reader) :=
  let r := set_currentValue (Value_of_type TarrayValue) r in
  let r := with_current (skipSpaces (current_ r)) r in
  if Ascii.eqb (deref (current_ r)) "]" then
    let! (_, _, r) := readToken r in Ok (true, r)
  else readArray_loop rv (loop_bound r) 0 r.

(** The dispatch of [readValue] on the token; [inl] is the early [return]. *)
Definition read_token_value (rv : Reader -> outcome (bool * Reader)) (token : Token) (r : Reader)
  : outcome ((bool * Reader) + (bool * Reader)) :=
  match type_ token with
  | tokenObjectBegin => ofmap inr (readObject rv r)
  | tokenArrayBegin => ofmap inr (readArray rv r)
  | tokenNumber => ofmap inr (decodeNumber token r)
  | tokenString => ofmap inr (decodeString token r)
  | tokenTrue => Ok (inr (true, set_currentValue (Value_of_bool true) r))
  | tokenFalse => Ok (inr (true, set_currentValue (Value_of_bool false) r))
  | tokenNull => Ok (inr (true, set_currentValue (Value_of_type TnullValue) r))
  | _ => Ok (inl (addError (bs "Syntax error: value, object or array expected.") token None r))
  end.

Fixpoint readValue (fuel : nat) (r : Reader) : outcome (bool * Reader) :=
  match fuel with
  | O => OutOfFuel
  | S fuel' =>
      let! (token, r) := skipCommentTokens r in
      let! r :=
        if collectComments_ r && negb (bool_decide (commentsBefore_ r = [])) then
          let! r := update_at (top r) (setComment (commentsBefore_ r) commentBefore) r in
          Ok (with_commentsBefore [] r)
        else Ok r in
      let! res := read_token_value (readValue fuel') token r in
      match res with
      | inl early => Ok early
      | inr (successful, r) =>
          Ok (successful,
              if collectComments_ r then with_last (Some (current_ r)) (Some (top r)) r else r)
      end
  end.

(** *** Entry points *)

Definition parse_fuel (doc : Location) : nat := S (length doc).

Definition parse_start (features : Features) (doc : Location) (root : Value)
    (collectComments : bool) : Reader :=
  mkReader features (collectComments && allowComments_ features) doc doc None None [] [] [[]] root.

Definition parse_with (fuel : nat) (features : Features) (doc : Location) (root : Value)
    (collectComments : bool) : outcome (bool * Reader) :=
  let! (successful, r) := readValue fuel (parse_start features doc root collectComments) in
  let! (token, r) := skipCommentTokens r in
  let! r :=
    if collectComments_ r && negb (bool_decide (commentsBefore_ r = [])) then
      update_at [] (setComment (commentsBefore_ r) commentAfter) r
    else Ok r in
  if strictRoot_ features && negb (isArray (root_ r)) && negb (isObject (root_ r)) then
    Ok (addError (bs "A valid JSON document must be either an array or an object value.")
          (mkToken tokenError doc []) None r)
  else Ok (successful, r).

Definition parse (features : Features) (doc : bytes) (root : Value) (collectComments : bool)
  : outcome (bool * Reader) :=
  parse_with (parse_fuel doc) features doc root collectComments.

(** [getline(sin, doc, (char)EOF)] stops at the first 0xFF byte. *)
Fixpoint until_eof_char (s : bytes) : bytes :=
  match s with
  | [] => []
  | c :: s' => if Ascii.eqb c "255" then [] else c :: until_eof_char s'
  end.

Definition parse_stream (features : Features) (stream : bytes) (root : Value)
    (collectComments : bool) : outcome (bool * Reader) :=
  parse features (until_eof_char stream) root collectComments.

(** *** Error messages *)

(** The scan of [getLocationLineAndColumn]: [n] characters remain before the
    location; the result is the number of line ends passed and the distance of
    the location from the last one. *)
Fixpoint line_scan (fuel : nat) (n : Z) (current : Location) (line sinceStart : Z) : Z * Z :=
  match fuel with
  | O => (line, sinceStart)
  | S fuel' =>
      if n <=? 0 then (line, sinceStart + n)
      else
        match current with
        | [] => (line, sinceStart + n)
        | c :: rest =>
            if Ascii.eqb c CR then
              if Ascii.eqb (deref rest) LF
              then line_scan fuel' (n - 2) (drop 1 rest) (line + 1) 0
              else line_scan fuel' (n - 1) rest (line + 1) 0
            else if Ascii.eqb c LF then line_scan fuel' (n - 1) rest (line + 1) 0
            else line_scan fuel' (n - 1) rest line (sinceStart + 1)
        end
  end.

Definition getLocationLineAndColumn (location : Location) (r : Reader) : Z * Z :=
  let offset := Z.of_nat (length (begin_ r)) - Z.of_nat (length location) in
  let '(line, dist) := line_scan (S (length (begin_ r))) offset (begin_ r) 0 0 in
  (line + 1, dist + 1).

End JsonReader.
