(* ===== verification/JsonReaderFacts.v ===== *)
(** * Safety and termination of the JSON parser

    The parser always returns: the fuel of [parse] is enough on every document,
    no assertion of the code fails, no value is reached through a dangling
    pointer, and the tree it leaves is well formed.  The one exception is the
    fixed buffer of [decodeDouble]. *)

From stdpp Require Import tactics.
From S2P Require Import Prelude OrdMap Doubles JsonValue JsonPaths JsonReader.

(** ** Scanners only move forward *)

Lemma skipSpaces_suffix l : skipSpaces l `suffix_of` l.
Proof.
  induction l as [|c l IH]; cbn; [done|]. destruct (is_space c); [by apply suffix_cons_r|reflexivity].
Qed.

Lemma matchText_suffix p l : snd (matchText p l) `suffix_of` l.
Proof.
  unfold matchText. case_bool_decide; cbn; [|done].
  exists (take (length p) l). by rewrite take_drop.
Qed.

Lemma skip_to_comment_end_suffix l : skip_to_comment_end l `suffix_of` l.
Proof.
  induction l as [|c l IH]; cbn; [done|]. destruct (_ && _); by apply suffix_cons_r.
Qed.

Lemma getNextChar_suffix l : snd (getNextChar l) `suffix_of` l.
Proof. destruct l as [|c l]; cbn; [done|]. by apply suffix_cons_r. Qed.

Lemma readCStyleComment_suffix l : snd (readCStyleComment l) `suffix_of` l.
Proof.
  unfold readCStyleComment. pose proof (getNextChar_suffix (skip_to_comment_end l)) as H.
  destruct (getNextChar _) as [c r]; cbn in *.
  etrans; [exact H|apply skip_to_comment_end_suffix].
Qed.

Lemma skip_line_suffix l : skip_line l `suffix_of` l.
Proof.
  induction l as [|c l IH]; cbn; [done|]. destruct (_ || _); by apply suffix_cons_r.
Qed.

Lemma readNumber_suffix l : readNumber l `suffix_of` l.
Proof.
  induction l as [|c l IH]; cbn; [done|]. destruct (is_number_char c); [by apply suffix_cons_r|reflexivity].
Qed.

Lemma readString_loop_suffix n c l : (length l <= n)%nat -> snd (readString_loop c l) `suffix_of` l.
Proof.
  revert c l. induction n as [|n IH]; intros c [|x l] Hn; cbn in *; try done; try lia.
  destruct (Ascii.eqb x BACKSLASH).
  - destruct l as [|y l]; cbn in *; [apply suffix_nil|].
    do 2 apply suffix_cons_r. apply IH. lia.
  - destruct (Ascii.eqb x DQUOTE); cbn; apply suffix_cons_r; [done|]. apply IH. lia.
Qed.

Lemma readString_suffix l : snd (readString l) `suffix_of` l.
Proof.
  unfold readString. pose proof (readString_loop_suffix (length l) NUL l (le_n _)) as H.
  by destruct (readString_loop NUL l).
Qed.

Lemma scan_token_suffix c l : snd (snd (scan_token c l)) `suffix_of` l.
Proof.
  unfold scan_token.
  repeat match goal with |- context [if ?b then _ else _] => destruct b end; cbn; try done;
    auto using readString_suffix, readNumber_suffix, matchText_suffix.
Qed.

(** ** Decoding strings terminates *)

Lemma hex_loop_length n u s r u' : hex_loop n u s = inr (u', r) -> (length r <= length s)%nat.
Proof.
  revert u s. induction n as [|n IH]; intros u s; cbn; [by intros [= -> ->]|].
  destruct s as [|c s]; [done|]. destruct (hex_value c); [|done]. intros H%IH. cbn. lia.
Qed.

Lemma decodeUnicodeEscapeSequence_length s u r :
  decodeUnicodeEscapeSequence s = inr (u, r) -> (length r <= length s)%nat.
Proof. unfold decodeUnicodeEscapeSequence. destruct (_ <? _)%nat; [done|]. apply hex_loop_length. Qed.

Lemma decodeUnicodeCodePoint_length s u r :
  decodeUnicodeCodePoint s = inr (u, r) -> (length r <= length s)%nat.
Proof.
  unfold decodeUnicodeCodePoint.
  destruct (decodeUnicodeEscapeSequence s) as [e|[u1 s1]] eqn:E1; [done|].
  apply decodeUnicodeEscapeSequence_length in E1.
  destruct (_ && _); [|by intros [= <- <-]].
  destruct (_ <? _)%nat; [done|]. destruct s1 as [|c1 s2]; [done|].
  destruct (Ascii.eqb c1 BACKSLASH); [|done]. destruct s2 as [|c2 s3]; [done|].
  destruct (Ascii.eqb c2 "u"); [|done].
  destruct (decodeUnicodeEscapeSequence s3) as [e|[u2 s4]] eqn:E2; [done|].
  apply decodeUnicodeEscapeSequence_length in E2. intros [= <- <-]. cbn in *. lia.
Qed.

Lemma decode_loop_total n s d : (length s < n)%nat -> exists r, decode_loop n s d = Ok r.
Proof.
  revert s d. induction n as [|n IH]; intros s d Hn; [lia|]. cbn.
  destruct s as [|c s1]; [by eexists|]. cbn in Hn.
  destruct (Ascii.eqb c DQUOTE); [by eexists|].
  destruct (Ascii.eqb c BACKSLASH); [|apply IH; lia].
  destruct s1 as [|e s2]; [by eexists|]. cbn in Hn.
  destruct (simple_escape e); [apply IH; lia|].
  destruct (Ascii.eqb e "u"); [|by eexists].
  destruct (decodeUnicodeCodePoint s2) as [err|[u s3]] eqn:E; [by eexists|].
  apply decodeUnicodeCodePoint_length in E. apply IH. lia.
Qed.

(** ** Reasoning about outcomes *)

Definition overflow : string := "buffer[length] out of bounds".

(** The run returns and satisfies [Q], or overflows the number buffer. *)
Definition sat {A} (m : outcome A) (Q : A -> Prop) : Prop :=
  match m with
  | Ok a => Q a
  | OutOfFuel => False
  | Aborted w => w = overflow
  end.

Lemma sat_bind {A B} (m : outcome A) (k : A -> outcome B) P Q :
  sat m P -> (forall a, P a -> sat (k a) Q) -> sat (obind m k) Q.
Proof. destruct m; cbn; auto. Qed.

Lemma sat_mono {A} (m : outcome A) (P Q : A -> Prop) :
  sat m P -> (forall a, P a -> Q a) -> sat m Q.
Proof. destruct m; cbn; auto. Qed.

Lemma sat_bind_assoc {A B C} (m : outcome A) (f : A -> outcome B) (g : B -> outcome C) P Q :
  sat (let! a := m in f a) P -> (forall b, P b -> sat (g b) Q) ->
  sat (let! a := m in let! b := f a in g b) Q.
Proof. destruct m; cbn; [|done|done]. apply sat_bind. Qed.

Lemma sat_ofmap {A B} (f : A -> B) (m : outcome A) Q :
  sat m (fun a => Q (f a)) -> sat (ofmap f m) Q.
Proof. by destruct m. Qed.

Section Safety.
Context {D : DoubleOps}.

(** ** Invariants *)

Definition comment_text (s : bytes) : Prop := match s with [] => True | c :: _ => c = "/"%char end.

(** The pointer to the last value read is live whenever it is set. *)
Definition last_ok (r : Reader) : Prop :=
  match lastValue_ r with
  | Some p => collectComments_ r = true /\ valid p (root_ r)
  | None => lastValueEnd_ r = None
  end.

Record Inv (r : Reader) : Prop := mkInv {
  inv_wf : Value_wf (root_ r);
  inv_top : valid (top r) (root_ r);
  inv_last : last_ok r;
  inv_comm : comment_text (commentsBefore_ r)
}.

(** What reading tokens leaves alone: the tree up to comments, and everything
    but the position and the pending comments. *)
Record lexstep (r r' : Reader) : Prop := mkLexstep {
  lex_features : features_ r' = features_ r;
  lex_collect : collectComments_ r' = collectComments_ r;
  lex_nodes : nodes_ r' = nodes_ r;
  lex_last : lastValue_ r' = lastValue_ r;
  lex_lastEnd : lastValueEnd_ r' = lastValueEnd_ r;
  lex_suffix : current_ r' `suffix_of` current_ r;
  lex_shape : shape_eq (root_ r) (root_ r')
}.

#[local] Instance lexstep_preorder : PreOrder lexstep.
Proof.
  split.
  - intros r. by constructor.
  - intros r1 r2 r3 [? ? ? ? ? ? ?] [? ? ? ? ? ? ?].
    constructor; try congruence; etrans; eassumption.
Qed.

Lemma lexstep_top r r' : lexstep r r' -> top r' = top r.
Proof. intros H. unfold top. by rewrite (lex_nodes _ _ H). Qed.

Lemma lexstep_length r r' : lexstep r r' -> (length (current_ r') <= length (current_ r))%nat.
Proof. intros H. apply suffix_length, H. Qed.

Lemma lexstep_type r r' p : lexstep r r' -> type_at p (root_ r') = type_at p (root_ r).
Proof. intros H. symmetry. apply (lex_shape _ _ H). Qed.

Lemma with_current_lex l r : l `suffix_of` current_ r -> lexstep r (with_current l r).
Proof. intros H. by constructor. Qed.

Lemma with_current_inv l r : Inv r -> Inv (with_current l r).
Proof. by intros [? ? ? ?]. Qed.

Lemma with_errors_lex es r : lexstep r (with_errors es r).
Proof. by constructor. Qed.

Lemma with_errors_inv es r : Inv r -> Inv (with_errors es r).
Proof. by intros [? ? ? ?]. Qed.

(** ** Comments *)

Lemma valid_comment_text s : comment_text s -> valid_comment s = true.
Proof. unfold valid_comment. destruct s as [|c s]; cbn; [done|]. by intros ->. Qed.

Lemma vmodify_const_wf p v v' : Value_wf v -> Value_wf v' -> Value_wf (vmodify p (fun _ => v') v).
Proof. intros Hv Hv'. by apply vmodify_wf. Qed.

Lemma vget_wf p v w : Value_wf v -> vget p v = Some w -> Value_wf w.
Proof.
  revert v. induction p as [|k p IH]; intros v Hv; cbn; [by intros [= <-]|].
  destruct (child k v) as [x|] eqn:E; [|done]. apply IH.
  apply Value_wf_inv in Hv as (_ & _ & Hch).
  destruct v as [c q]. unfold child in E. cbn in *.
  destruct k, q; try done; cbn in Hch; exact (find_wf _ _ _ Hch E).
Qed.

Lemma setComment_at_spec p text pl r :
  Inv r -> comment_text text -> valid p (root_ r) ->
  sat (update_at p (setComment text pl) r) (fun r' =>
    Inv r' /\ lexstep r r' /\ current_ r' = current_ r
    /\ commentsBefore_ r' = commentsBefore_ r).
Proof.
  intros HI Ht [v Hv]. unfold update_at. rewrite Hv. unfold setComment.
  rewrite valid_comment_text by done. cbn.
  set (v' := mkValue _ _).
  assert (Hs : shape_eq (root_ r) (vmodify p (fun _ => v') (root_ r))).
  { apply (vmodify_shape p (fun _ => v') (root_ r) v Hv). apply with_comments_shape. }
  assert (Hw : Value_wf v').
  { eapply (setComment_wf text pl v); [by eapply vget_wf; [apply HI|]|].
    unfold setComment. by rewrite valid_comment_text. }
  split_and!; try done.
  destruct HI as [Hwf Htop Hlast Hcomm]. constructor; cbn; try done.
  - by apply vmodify_const_wf.
  - unfold top; cbn. by rewrite <- Hs.
  - unfold last_ok in *; cbn. destruct (lastValue_ r); [|done]. destruct Hlast. split; [done|].
    by rewrite <- Hs.
Qed.

Lemma text_between_head from upto c l :
  from = c :: l -> (length upto <= length l)%nat -> exists s, text_between from upto = c :: s.
Proof.
  intros -> H. unfold text_between. cbn [length].
  destruct (S (length l) - length upto)%nat as [|n] eqn:E; [lia|]. by eexists.
Qed.

Lemma addComment_spec from upto pl r l :
  Inv r -> collectComments_ r = true -> from = "/"%char :: l -> (length upto <= length l)%nat ->
  (pl = commentAfterOnSameLine -> lastValue_ r <> None) ->
  sat (addComment from upto pl r) (fun r' => Inv r' /\ lexstep r r' /\ current_ r' = current_ r).
Proof.
  intros HI Hc Hf Hl Hpl. unfold addComment. rewrite Hc. cbn.
  destruct (text_between_head _ upto _ _ Hf Hl) as [s Hs].
  assert (Happ : comment_text (commentsBefore_ r ++
     match commentsBefore_ r with [] => [] | _ => [LF] end ++ text_between from upto)).
  { pose proof (inv_comm r HI) as Hcomm. rewrite Hs. by destruct (commentsBefore_ r). }
  assert (Hpush : Inv (with_commentsBefore (commentsBefore_ r ++
     match commentsBefore_ r with [] => [] | _ => [LF] end ++ text_between from upto) r)).
  { by destruct HI. }
  destruct pl; try (by split_and!).
  destruct (lastValue_ r) as [p|] eqn:E; [|by specialize (Hpl eq_refl)].
  eapply sat_mono; [apply setComment_at_spec; [done| |]|].
  - by rewrite Hs.
  - pose proof (inv_last r HI) as H. unfold last_ok in H. rewrite E in H. apply H.
  - intros r' (? & ? & ? & _). done.
Qed.

Lemma readComment_spec l r :
  Inv r -> current_ r `suffix_of` l ->
  sat (readComment ("/"%char :: l) r) (fun '(_, r') =>
    Inv r' /\ lexstep r r').
Proof.
  intros HI Hl. unfold readComment.
  pose proof (getNextChar_suffix (current_ r)) as H1.
  destruct (getNextChar (current_ r)) as [c l1]; cbn in H1.
  assert (H2 : exists b l2, (if Ascii.eqb c "*" then readCStyleComment l1
      else if Ascii.eqb c "/" then readCppStyleComment l1 else (false, l1)) = (b, l2)
      /\ l2 `suffix_of` l1).
  { destruct (Ascii.eqb c "*"); [|destruct (Ascii.eqb c "/")].
    - pose proof (readCStyleComment_suffix l1). destruct (readCStyleComment l1). by do 2 eexists.
    - do 2 eexists. split; [done|]. apply skip_line_suffix.
    - by do 2 eexists. }
  destruct H2 as (b & l2 & -> & H2).
  assert (Hsuf : l2 `suffix_of` current_ r) by (by etrans).
  assert (Hlex : lexstep r (with_current l2 r)) by by apply with_current_lex.
  assert (HI2 : Inv (with_current l2 r)) by by apply with_current_inv.
  destruct b; cbn [negb]; [|by split].
  destruct (collectComments_ (with_current l2 r)) eqn:Ec; [|by split].
  eapply sat_bind; [eapply addComment_spec; try done|].
  - assert (l2 `suffix_of` l) by by etrans. by apply suffix_length.
  - intros Hp. pose proof (inv_last _ HI2) as H. unfold last_ok in H.
    destruct (lastValue_ (with_current l2 r)); [done|]. by rewrite H in Hp.
  - intros r' (? & ? & ?). split; [done|]. by etrans.
Qed.

(** ** Tokens *)

Definition token_post (r : Reader) (res : bool * Token * Reader) : Prop :=
  let '(ok, token, r') := res in
  ok = true /\ Inv r' /\ lexstep r r' /\
  (type_ token <> tokenEndOfStream -> (length (current_ r') < length (current_ r))%nat).

Lemma readToken_spec r : Inv r -> sat (readToken r) (token_post r).
Proof.
  intros HI. unfold readToken. pose proof (skipSpaces_suffix (current_ r)) as Hs.
  destruct (skipSpaces (current_ r)) as [|c l] eqn:E; cbn [getNextChar].
  - cbn. split_and!; [done|by apply with_current_inv|apply with_current_lex, suffix_nil|done].
  - assert (Hl : l `suffix_of` current_ r) by (etrans; [|exact Hs]; by apply suffix_cons_r).
    assert (Hlen : (length l < length (current_ r))%nat).
    { apply suffix_length in Hs. cbn in Hs. lia. }
    destruct (Ascii.eqb_spec c "/") as [->|Hc].
    + apply (sat_bind _ _ (fun x : TokenType * bool * Reader =>
                             Inv x.2 /\ lexstep (with_current l r) x.2)).
      * eapply sat_bind; [apply (readComment_spec l); [by apply with_current_inv|reflexivity]|].
        by intros [ok r'] ?.
      * intros [[type ok] r'] [HI' Hlex]; cbn in *. split_and!; try done.
        -- etrans; [by apply with_current_lex|done].
        -- intros _. apply lexstep_length in Hlex. cbn in Hlex. lia.
    + pose proof (scan_token_suffix c l) as Hsuf.
      destruct (scan_token c l) as [type [ok l']]; cbn in *.
      split_and!; [done|by apply with_current_inv|apply with_current_lex; by etrans|].
      intros _. apply suffix_length in Hsuf. lia.
Qed.

Definition lex_post (r : Reader) (res : Token * Reader) : Prop :=
  let '(token, r') := res in
  Inv r' /\ lexstep r r' /\
  (type_ token <> tokenEndOfStream -> (length (current_ r') < length (current_ r))%nat).

Lemma read_past_comments_spec n r :
  Inv r -> (length (current_ r) < n)%nat -> sat (read_past_comments n r) (lex_post r).
Proof.
  revert r. induction n as [|n IH]; intros r HI Hn; [lia|]. cbn.
  eapply sat_bind; [by apply readToken_spec|]. intros [[ok token] r'] (-> & HI' & Hlex & Hlt).
  case_decide as Ht; [|done].
  specialize (Hlt ltac:(congruence)).
  eapply sat_mono; [apply IH; [done|lia]|].
  intros [t r''] (HI'' & Hlex' & Hlt'). split_and!; [done|by etrans|].
  intros Hne. specialize (Hlt' Hne). lia.
Qed.

Lemma skipCommentTokens_spec r : Inv r -> sat (skipCommentTokens r) (lex_post r).
Proof.
  intros HI. unfold skipCommentTokens. destruct (allowComments_ (features_ r)).
  - apply read_past_comments_spec; [done|]. unfold loop_bound. lia.
  - eapply sat_bind; [by apply readToken_spec|].
    intros [[ok token] r'] (_ & HI' & Hlex & Hlt). by split_and!.
Qed.

Lemma drop_comments_spec n token r :
  Inv r -> (length (current_ r) < n)%nat ->
  sat (drop_comments n token true r) (fun '(ok, token', r') =>
    ok = true /\ Inv r' /\ lexstep r r'
    /\ (token' = token \/ (length (current_ r') < length (current_ r))%nat
        \/ type_ token' = tokenEndOfStream)).
Proof.
  revert token r. induction n as [|n IH]; intros token r HI Hn; [lia|]. cbn.
  case_decide as Ht; [|split_and!; auto; reflexivity].
  eapply sat_bind; [by apply readToken_spec|]. intros [[ok token1] r1] (-> & HI' & Hlex & Hlt).
  destruct (decide (type_ token1 = tokenEndOfStream)) as [He|He].
  - assert (E : drop_comments n token1 true r1 = Ok (true, token1, r1)).
    { destruct n; cbn; rewrite decide_False by congruence; done. }
    rewrite E. cbn. split_and!; auto.
  - specialize (Hlt He). eapply sat_mono; [apply IH; [done|lia]|].
    intros [[ok token2] r2] (-> & HI2 & Hlex2 & _). split_and!; [done|done|by etrans|].
    right; left. apply lexstep_length in Hlex2. lia.
Qed.

(** ** Recovery *)

Definition fail_post (r : Reader) (res : bool * Reader) : Prop :=
  let '(ok, r') := res in ok = false /\ Inv r' /\ lexstep r r'.

Lemma recover_loop_spec n k t r :
  Inv r -> (length (current_ r) < n)%nat ->
  sat (recover_loop n k t r) (fun r' => Inv r' /\ lexstep r r').
Proof.
  revert r. induction n as [|n IH]; intros r HI Hn; [lia|]. cbn.
  eapply sat_bind; [by apply readToken_spec|]. intros [[ok token] r1] (-> & HI1 & Hlex & Hlt).
  cbn. case_decide; [by split|]. case_decide as He; [by split|]. specialize (Hlt He).
  eapply sat_mono; [apply IH; [done|lia]|]. intros r2 [HI2 Hlex2]. split; [done|by etrans].
Qed.

Lemma recoverFromError_spec t r : Inv r -> sat (recoverFromError t r) (fail_post r).
Proof.
  intros HI. unfold recoverFromError. eapply sat_bind.
  - apply recover_loop_spec; [done|]. unfold loop_bound. lia.
  - intros r1 [HI1 Hlex]. cbn. split_and!; [done|by apply with_errors_inv|].
    etrans; [done|apply with_errors_lex].
Qed.

Lemma addErrorAndRecover_spec m token t r :
  Inv r -> sat (addErrorAndRecover m token t r) (fail_post r).
Proof.
  intros HI. unfold addErrorAndRecover. eapply sat_mono.
  - apply recoverFromError_spec. by apply with_errors_inv.
  - intros [ok r1] (-> & HI1 & Hlex). split_and!; [done|done|].
    etrans; [apply with_errors_lex|exact Hlex].
Qed.

(** ** Values *)

(** What reading a value leaves alone: the types on the way down to it. *)
Record vstep (r r' : Reader) : Prop := mkVstep {
  v_features : features_ r' = features_ r;
  v_collect : collectComments_ r' = collectComments_ r;
  v_nodes : nodes_ r' = nodes_ r;
  v_suffix : current_ r' `suffix_of` current_ r;
  v_types : forall q, sbelow q (top r) -> type_at q (root_ r') = type_at q (root_ r)
}.

(** The last value is not strictly inside the value about to be replaced. *)
Definition last_outside (r : Reader) : Prop :=
  forall p, lastValue_ r = Some p -> ~ sbelow (top r) p.

Definition value_post (r : Reader) (res : bool * Reader) : Prop :=
  let '(ok, r') := res in
  Inv r' /\ vstep r r' /\
  (ok = true -> (length (current_ r') < length (current_ r))%nat
                /\ (collectComments_ r = true -> lastValue_ r' = Some (top r))).

Lemma vstep_top r r' : vstep r r' -> top r' = top r.
Proof. intros H. unfold top. by rewrite (v_nodes _ _ H). Qed.

#[local] Instance vstep_preorder : PreOrder vstep.
Proof.
  split.
  - intros r. by constructor.
  - intros r1 r2 r3 H1 H2. pose proof (vstep_top _ _ H1) as Ht.
    destruct H1, H2. constructor; try congruence; [by etrans|].
    intros q Hq. rewrite v_types1 by (by rewrite Ht). auto.
Qed.

Lemma lexstep_vstep r r' : lexstep r r' -> vstep r r'.
Proof.
  intros H. constructor; try apply H. intros q _. symmetry. apply (lex_shape _ _ H).
Qed.

Lemma lexstep_last_outside r r' : lexstep r r' -> last_outside r -> last_outside r'.
Proof.
  intros H Hl p. unfold last_outside in *. rewrite (lex_last _ _ H), (lexstep_top _ _ H). apply Hl.
Qed.

Lemma assign_type a b : Value_wf b -> type (assign a b) = type b.
Proof. intros H. rewrite assign_wf_eq by done. by destruct b. Qed.

Lemma set_currentValue_spec v r :
  Inv r -> last_outside r -> Value_wf v ->
  Inv (set_currentValue v r) /\ vstep r (set_currentValue v r)
  /\ type_at (top r) (root_ (set_currentValue v r)) = Some (type v).
Proof.
  intros [Hwf Htop Hlast Hcomm] Hout Hv. unfold set_currentValue.
  assert (Hsame : type_at (top r)
            (vmodify (top r) (fun old => assign old v) (root_ r)) = Some (type v)).
  { unfold type_at. rewrite vget_vmodify_same. destruct Htop as [w ->].
    apply (f_equal Some). by apply assign_type. }
  split_and!; [|constructor; cbn; try done|exact Hsame].
  - constructor; cbn; [|apply valid_type_at; eexists; exact Hsame| |done].
    + apply vmodify_wf; [|done]. intros w Hw. by apply assign_wf.
    + unfold last_ok in *; cbn. destruct (lastValue_ r) as [p|] eqn:E; [|done].
      destruct Hlast as [? Hp]. split; [done|]. apply vmodify_valid_not_below; [|done].
      by apply Hout.
  - intros q (k & s & ->). apply type_at_vmodify_prefix.
Qed.

(** Creating an element of the current container. *)
Lemma update_top_spec f r v v' :
  Inv r -> vget (top r) (root_ r) = Some v -> f v = Ok v' -> Value_wf v' ->
  type v' = type v -> (forall s, valid s v -> valid s v') ->
  exists r', update_at (top r) f r = Ok r' /\ Inv r' /\ vstep r r'
    /\ current_ r' = current_ r /\ lastValue_ r' = lastValue_ r
    /\ vget (top r) (root_ r') = Some v'.
Proof.
  intros [Hwf Htop Hlast Hcomm] Hg Hf Hw Ht Hmono. unfold update_at. rewrite Hg, Hf. cbn.
  eexists. split; [done|].
  assert (Hget : vget (top r) (vmodify (top r) (fun _ => v') (root_ r)) = Some v').
  { rewrite vget_vmodify_same, Hg. done. }
  split_and!; try done.
  - constructor; cbn; [by apply vmodify_const_wf|by eexists| |done].
    unfold last_ok in *; cbn. destruct (lastValue_ r) as [p|]; [|done].
    destruct Hlast. split; [done|]. eapply vmodify_valid_mono; eauto.
  - constructor; cbn; try done. intros q (k & s & ->). apply type_at_vmodify_prefix.
Qed.

Section Containers.
Context (rv : Reader -> outcome (bool * Reader)) (F : nat).
Hypothesis rv_spec : forall r,
  Inv r -> last_outside r -> (length (current_ r) < F)%nat -> sat (rv r) (value_post r).

(** The last value is outside the container, or one of its elements. *)
Definition last_element (r : Reader) : Prop :=
  forall p, lastValue_ r = Some p -> ~ sbelow (top r) p \/ exists k, p = top r ++ [k].

Definition child_post (k : Key) (r : Reader) (res : bool * Reader) : Prop :=
  let '(ok, r') := res in
  Inv r' /\ vstep r r' /\ type_at (top r) (root_ r') = type_at (top r) (root_ r) /\
  (ok = true -> (length (current_ r') < length (current_ r))%nat /\ last_element r').

Lemma read_child_spec k r :
  Inv r -> valid (top r ++ [k]) (root_ r) -> last_element r ->
  (length (current_ r) < F)%nat -> sat (read_child rv k r) (child_post k r).
Proof.
  intros HI Hv Hl Hlen. unfold read_child.
  eapply sat_bind; [apply rv_spec; [| |done]|].
  - destruct HI. by constructor.
  - intros p Hp (k' & s & E). cbn in E. destruct (Hl p Hp) as [Hn|[k0 ->]].
    + apply Hn. exists k, (k' :: s). by rewrite E, <- app_assoc.
    + apply (f_equal length) in E. rewrite !length_app in E. cbn in E. lia.
  - intros [ok r'] (HI' & Hst & Hok). cbn.
    assert (Hn : tail (nodes_ r') = nodes_ r) by by rewrite (v_nodes _ _ Hst).
    assert (Hty : forall q, sbelow q (top r) \/ q = top r ->
              type_at q (root_ r') = type_at q (root_ r)).
    { intros q Hq. apply (v_types _ _ Hst). destruct Hq as [(k' & s & E)| ->]; cbn.
      - exists k', (s ++ [k]). by rewrite E, <- app_assoc.
      - by exists k, []. }
    assert (Htop : top (pop r') = top r) by (unfold top; cbn; by rewrite Hn).
    split_and!.
    + destruct HI' as [Hw _ Hla Hco]. constructor; cbn; try done. rewrite Htop.
      apply valid_type_at. rewrite Hty by auto. apply valid_type_at, HI.
    + constructor; cbn; try apply Hst; [done|]. intros q Hq. apply Hty. by left.
    + apply Hty. by right.
    + intros E. destruct (Hok E) as [Hlt Hlast]. split; [done|]. intros p Hp. right.
      exists k. cbn in Hp. rewrite Htop.
      pose proof (inv_last _ HI') as Hlo. unfold last_ok in Hlo. rewrite Hp in Hlo.
      destruct Hlo as [Hc _]. rewrite (v_collect _ _ Hst) in Hc. specialize (Hlast Hc).
      rewrite Hp in Hlast. by injection Hlast.
Qed.

Definition loop_post (r : Reader) (res : bool * Reader) : Prop :=
  let '(ok, r') := res in Inv r' /\ vstep r r'.

Lemma fail_loop_post r0 r m :
  vstep r0 r -> sat m (fail_post r) -> sat m (loop_post r0).
Proof.
  intros Hst Hm. eapply sat_mono; [exact Hm|]. intros [ok r'] (_ & HI & Hlex).
  split; [done|]. etrans; [exact Hst|]. by apply lexstep_vstep.
Qed.

Lemma lexstep_last_element r r' : lexstep r r' -> last_element r -> last_element r'.
Proof.
  intros H Hl p. unfold last_element in *. rewrite (lex_last _ _ H), (lexstep_top _ _ H). apply Hl.
Qed.

Lemma decodeString_text_spec token r :
  Inv r -> sat (decodeString_text token r) (fun '(_, r') =>
    Inv r' /\ lexstep r r' /\ current_ r' = current_ r).
Proof.
  intros HI. unfold decodeString_text.
  set (text := take _ _).
  destruct (decode_loop_total (S (length text)) text [] ltac:(lia)) as [[[m rest]|d] ->]; cbn.
  - split_and!; [by apply with_errors_inv|apply with_errors_lex|done].
  - by split_and!.
Qed.
(** The loop state of a container of type [t]. *)
Definition loop_pre (t : ValueType) (r : Reader) : Prop :=
  Inv r /\ type_at (top r) (root_ r) = Some t /\ last_element r.

Lemma loop_pre_lex t r r' : loop_pre t r -> Inv r' -> lexstep r r' -> loop_pre t r'.
Proof.
  intros (HI & Ht & Hl) HI' Hlex. split_and!; [done| |by eapply lexstep_last_element].
  by rewrite (lexstep_top _ _ Hlex), (lexstep_type _ _ _ Hlex).
Qed.

Lemma element_spec t f k r :
  loop_pre t r -> (length (current_ r) < F)%nat ->
  (forall v, type v = t -> exists v', f v = Ok v' /\ type v' = t
      /\ valid [k] v' /\ (forall s, valid s v -> valid s v')) ->
  (forall v v', Value_wf v -> f v = Ok v' -> Value_wf v') ->
  sat (let! r := update_at (top r) f r in read_child rv k r) (fun '(ok, r') =>
    Inv r' /\ vstep r r' /\
    (ok = true -> loop_pre t r' /\ (length (current_ r') < length (current_ r))%nat)).
Proof.
  intros (HI & Ht & Hl) Hlen Hf Hwf.
  unfold type_at in Ht. destruct (vget (top r) (root_ r)) as [v|] eqn:Hg; [|done].
  injection Ht as Ht. destruct (Hf v Ht) as (v' & E & Ht' & Hk & Hmono).
  assert (Hv : Value_wf v) by (eapply vget_wf; [apply HI|done]).
  destruct (update_top_spec f r v v' HI Hg E (Hwf _ _ Hv E) ltac:(congruence) Hmono)
    as (r1 & -> & HI1 & Hst & Hc & Hlast & Hg1). cbn [obind].
  assert (Htop : top r1 = top r) by by apply vstep_top.
  eapply sat_mono; [apply read_child_spec|].
  - done.
  - unfold valid. by rewrite vget_app, Htop, Hg1.
  - intros p. rewrite Hlast, Htop. apply Hl.
  - by rewrite Hc.
  - intros [ok r2] (HI2 & Hst2 & Hty & Hok). split_and!; [done|by etrans|].
    intros Eok. destruct (Hok Eok) as [Hlt Hel]. rewrite Hc in Hlt.
    split; [split_and!|]; try done.
    rewrite (vstep_top _ _ Hst2), Hty. unfold type_at. by rewrite Htop, Hg1, <- Ht'.
Qed.

Lemma readArray_loop_spec n index r :
  loop_pre TarrayValue r -> (length (current_ r) < n)%nat -> (length (current_ r) < F)%nat ->
  sat (readArray_loop rv n index r) (loop_post r).
Proof.
  revert index r. induction n as [|n IH]; intros index r Hpre Hn HF; [lia|]. cbn [readArray_loop].
  apply (sat_bind_assoc _ (read_child rv (AtIndex (to_int32 index))) _ (fun '(ok, r') =>
    Inv r' /\ vstep r r' /\
    (ok = true -> loop_pre TarrayValue r' /\ (length (current_ r') < length (current_ r))%nat))).
  { apply element_spec; try done.
    - intros v Hv. destruct (index_ref_spec (to_uint32 index) v Hv) as (v' & ? & ? & ? & ?).
      exists v'. by rewrite <- to_int32_to_uint32.
    - apply index_ref_wf. }
  intros [ok r1] (HI1 & Hst1 & Hok1). destruct ok; cbn [negb].
  2: { eapply fail_loop_post; [exact Hst1|]. by apply recoverFromError_spec. }
  destruct (Hok1 eq_refl) as [Hpre1 Hlt1].
  eapply sat_bind; [by apply readToken_spec|].
  intros [[ok token] r2] (-> & HI2 & Hlex2 & Hlt2).
  eapply sat_bind; [apply drop_comments_spec; [done|unfold loop_bound; lia]|].
  intros [[ok token'] r3] (-> & HI3 & Hlex3 & _).
  assert (Hlex : lexstep r1 r3) by by etrans.
  assert (Hst : vstep r r3) by (etrans; [done|by apply lexstep_vstep]).
  case_goal.
  { eapply fail_loop_post; [exact Hst|]. by apply addErrorAndRecover_spec. }
  case_dec; [by split|].
  apply lexstep_length in Hlex as Hle.
  eapply sat_mono; [apply IH; [by eapply loop_pre_lex|lia|lia]|].
  intros [ok' r4] [HI4 Hst4]. split; [done|by etrans].
Qed.

Lemma readObject_loop_spec n name r :
  loop_pre TobjectValue r -> (length (current_ r) < n)%nat -> (length (current_ r) < F)%nat ->
  sat (readObject_loop rv n name r) (loop_post r).
Proof.
  revert name r. induction n as [|n IH]; intros name r Hpre Hn HF; [lia|]. cbn [readObject_loop].
  eapply sat_bind; [apply readToken_spec, Hpre|].
  intros [[ok tokenName] r1] (-> & HI1 & Hlex1 & Hlt1).
  eapply sat_bind; [apply drop_comments_spec; [done|unfold loop_bound; lia]|].
  intros [[ok tokenName'] r2] (-> & HI2 & Hlex2 & Hcase).
  assert (Hlex : lexstep r r2) by by etrans.
  assert (Hst : vstep r r2) by by apply lexstep_vstep.
  cbn [negb orb].
  case_goal; [by split|].
  case_goal_as Hstr.
  { eapply fail_loop_post; [exact Hst|]. by apply addErrorAndRecover_spec. }
  apply negb_false_iff, bool_decide_eq_true in Hstr.
  assert (Hlt : (length (current_ r2) < length (current_ r))%nat).
  { apply lexstep_length in Hlex1, Hlex2. destruct Hcase as [->|[?|?]]; [|lia|congruence].
    specialize (Hlt1 ltac:(congruence)). lia. }
  eapply sat_bind; [by apply decodeString_text_spec|].
  intros [[name'|] r3] (HI3 & Hlex3 & Hcur3).
  2: { eapply fail_loop_post; [|by apply recoverFromError_spec].
       etrans; [exact Hst|by apply lexstep_vstep]. }
  eapply sat_bind; [by apply readToken_spec|].
  intros [[ok4 colon] r4] (-> & HI4 & Hlex4 & _).
  assert (Hl4 : lexstep r r4) by (etrans; [exact Hlex|by etrans]).
  assert (Hle4 : (length (current_ r4) < length (current_ r))%nat).
  { apply lexstep_length in Hlex3, Hlex4. lia. }
  case_goal.
  { eapply fail_loop_post; [by apply lexstep_vstep|]. by apply addErrorAndRecover_spec. }
  apply (sat_bind_assoc _ (read_child rv (AtMember (cstr name'))) _ (fun '(ok, r') =>
    Inv r' /\ vstep r4 r' /\
    (ok = true -> loop_pre TobjectValue r' /\ (length (current_ r') < length (current_ r4))%nat))).
  { apply element_spec; [by eapply loop_pre_lex|lia| |apply resolveReference_wf].
    apply resolveReference_spec. }
  intros [ok5 r5] (HI5 & Hst5 & Hok5).
  assert (Hv5 : vstep r r5) by (etrans; [by apply lexstep_vstep|done]).
  destruct ok5; cbn [negb].
  2: { eapply fail_loop_post; [exact Hv5|]. by apply recoverFromError_spec. }
  destruct (Hok5 eq_refl) as [Hpre5 Hlt5].
  eapply sat_bind; [by apply readToken_spec|].
  intros [[ok6 comma] r6] (-> & HI6 & Hlex6 & _).
  case_goal.
  { eapply fail_loop_post; [|by apply addErrorAndRecover_spec].
    etrans; [exact Hv5|by apply lexstep_vstep]. }
  eapply sat_bind; [apply drop_comments_spec; [done|unfold loop_bound; lia]|].
  intros [[ok7 comma'] r7] (-> & HI7 & Hlex7 & _).
  assert (Hl7 : lexstep r5 r7) by by etrans.
  assert (Hv7 : vstep r r7) by (etrans; [exact Hv5|by apply lexstep_vstep]).
  case_dec; [by split|].
  apply lexstep_length in Hl7 as Hle7.
  eapply sat_mono; [apply IH; [by eapply loop_pre_lex|lia|lia]|].
  intros [ok8 r8] [HI8 Hst8]. split; [done|by etrans].
Qed.
End Containers.

(** ** Scalars *)

Lemma scalar_wf p : payload_ok p -> children p = [] -> Value_wf (mk p).
Proof. intros Hp Hc. constructor; [done|done|]. rewrite Hc. constructor. Qed.

Lemma scalar_post v r :
  Inv r -> last_outside r -> Value_wf v -> loop_post r (true, set_currentValue v r).
Proof. intros HI Ho Hv. by destruct (set_currentValue_spec v r HI Ho Hv) as (? & ? & _). Qed.

Lemma error_post m t e r : Inv r -> loop_post r (addError m t e r).
Proof. intros HI. split; [by apply with_errors_inv|by apply lexstep_vstep, with_errors_lex]. Qed.

Lemma decodeDouble_spec token r :
  Inv r -> last_outside r -> sat (decodeDouble token r) (loop_post r).
Proof.
  intros HI Ho. unfold decodeDouble, assertion. destruct (negb _); cbn; [|done].
  destruct (d_scan _); cbn; [|by apply (error_post (not_a_number token) token None)].
  apply scalar_post; [done|done|]. by apply scalar_wf.
Qed.

Lemma decode_digits_uint32 th v s u :
  is_uint32 v -> decode_digits th v s = IsInteger u -> is_uint32 u.
Proof.
  revert v. induction s as [|c s IH]; intros v Hv; cbn; [by intros [= <-]|].
  destruct (negb (is_digit c)); [done|]. destruct (th <=? v); [done|].
  apply IH. auto with served.
Qed.

Lemma Value_of_Int_wf z : is_int32 z -> Value_wf (Value_of_Int z).
Proof. intros H. by apply scalar_wf. Qed.

Lemma decodeNumber_spec token r :
  Inv r -> last_outside r -> sat (decodeNumber token r) (loop_post r).
Proof.
  intros HI Ho. unfold decodeNumber.
  destruct (number_is_double _); [by apply decodeDouble_spec|].
  destruct (decode_digits _ _ _) as [u| |] eqn:E.
  - apply decode_digits_uint32 in E; [|done]. apply scalar_post; [done|done|].
    destruct (Ascii.eqb _ _); [|destruct (u <=? maxInt)];
      [apply Value_of_Int_wf; auto with served..|].
    by apply scalar_wf.
  - by apply decodeDouble_spec.
  - by apply (error_post (not_a_number token) token None).
Qed.

Lemma Value_of_string_wf s : Value_wf (Value_of_string s).
Proof. apply scalar_wf; [apply cstr_no_nul|done]. Qed.

Lemma decodeString_spec token r :
  Inv r -> last_outside r -> sat (decodeString token r) (loop_post r).
Proof.
  intros HI Ho. unfold decodeString. eapply sat_bind; [by apply decodeString_text_spec|].
  intros [[d|] r'] (HI' & Hlex & _).
  - assert (Ho' : last_outside r') by by eapply lexstep_last_outside.
    destruct (scalar_post (Value_of_string d) r' HI' Ho' (Value_of_string_wf d)) as [? ?].
    split; [done|]. etrans; [by apply lexstep_vstep|done].
  - split; [done|by apply lexstep_vstep].
Qed.

(** ** Values, and the whole document *)

Lemma container_pre t r :
  Inv r -> last_outside r ->
  loop_pre (type (Value_of_type t)) (set_currentValue (Value_of_type t) r).
Proof.
  intros HI Ho.
  destruct (set_currentValue_spec (Value_of_type t) r HI Ho (Value_of_type_wf t)) as (HI' & Hst & Ht).
  split_and!; [done| |intros p Hp; left; by apply Ho].
  by rewrite (vstep_top _ _ Hst).
Qed.

Lemma readArray_spec rv F r :
  (forall r, Inv r -> last_outside r -> (length (current_ r) < F)%nat -> sat (rv r) (value_post r)) ->
  Inv r -> last_outside r -> (length (current_ r) < F)%nat -> sat (readArray rv r) (loop_post r).
Proof.
  intros Hrv HI Ho HF. unfold readArray.
  pose proof (container_pre TarrayValue r HI Ho) as Hpre.
  destruct (set_currentValue_spec _ r HI Ho (Value_of_type_wf TarrayValue)) as (HI1 & Hst1 & _).
  set (r1 := set_currentValue _ r) in *.
  assert (Hlex : lexstep r1 (with_current (skipSpaces (current_ r1)) r1))
    by apply with_current_lex, skipSpaces_suffix.
  assert (HI2 : Inv (with_current (skipSpaces (current_ r1)) r1)) by by apply with_current_inv.
  set (r2 := with_current _ r1) in *.
  assert (Hst2 : vstep r r2) by (etrans; [done|by apply lexstep_vstep]).
  destruct (Ascii.eqb _ _).
  - eapply sat_bind; [by apply readToken_spec|]. intros [[ok t] r3] (_ & HI3 & Hlex3 & _).
    split; [done|]. etrans; [done|by apply lexstep_vstep].
  - eapply sat_mono; [apply (readArray_loop_spec rv F Hrv)|].
    + by eapply loop_pre_lex.
    + unfold loop_bound. lia.
    + apply lexstep_length in Hlex. cbn in Hlex |- *. lia.
    + intros [ok r3] [HI3 Hst3]. split; [done|by etrans].
Qed.

Lemma readObject_spec rv F r :
  (forall r, Inv r -> last_outside r -> (length (current_ r) < F)%nat -> sat (rv r) (value_post r)) ->
  Inv r -> last_outside r -> (length (current_ r) < F)%nat -> sat (readObject rv r) (loop_post r).
Proof.
  intros Hrv HI Ho HF. unfold readObject.
  destruct (set_currentValue_spec _ r HI Ho (Value_of_type_wf TobjectValue)) as (_ & Hst1 & _).
  eapply sat_mono; [apply (readObject_loop_spec rv F Hrv)|].
  - by apply container_pre.
  - unfold loop_bound. lia.
  - done.
  - intros [ok r3] [HI3 Hst3]. split; [done|by etrans].
Qed.

Definition early_post (token : Token) (r : Reader) (res : (bool * Reader) + (bool * Reader)) : Prop :=
  match res with
  | inl (ok, r') => ok = false /\ loop_post r (ok, r')
  | inr x => type_ token <> tokenEndOfStream /\ loop_post r x
  end.

Lemma read_token_value_spec rv F token r :
  (forall r, Inv r -> last_outside r -> (length (current_ r) < F)%nat -> sat (rv r) (value_post r)) ->
  Inv r -> last_outside r -> (type_ token <> tokenEndOfStream -> (length (current_ r) < F)%nat) ->
  sat (read_token_value rv token r) (early_post token r).
Proof.
  intros Hrv HI Ho HF. unfold read_token_value.
  destruct (type_ token) eqn:Et; try specialize (HF ltac:(done));
    try (split; [done|by apply error_post]);
    try (split; [congruence|]; apply scalar_post; [done|done|]; auto with served; by apply scalar_wf);
    apply sat_ofmap; (eapply sat_mono; [|intros x Hx; split; [congruence|exact Hx]]).
  - by apply (readObject_spec rv F).
  - by apply (readArray_spec rv F).
  - by apply decodeString_spec.
  - by apply decodeNumber_spec.
Qed.

(** Flushing the pending comments into a value. *)
Lemma flush_comments_spec p pl r :
  Inv r -> valid p (root_ r) ->
  sat (update_at p (setComment (commentsBefore_ r) pl) r) (fun r' => Inv r' /\ lexstep r r').
Proof.
  intros HI Hp. eapply sat_mono; [by apply setComment_at_spec, Hp; [|apply HI]|].
  by intros r' (? & ? & _).
Qed.

Lemma readValue_spec fuel r :
  Inv r -> last_outside r -> (length (current_ r) < fuel)%nat ->
  sat (readValue fuel r) (value_post r).
Proof.
  revert r. induction fuel as [|fuel IH]; intros r HI Ho HF; [lia|]. cbn [readValue].
  eapply sat_bind; [by apply skipCommentTokens_spec|]. intros [token r1] (HI1 & Hlex1 & Hlt1).
  apply (sat_bind _ _ (fun r2 => Inv r2 /\ lexstep r1 r2)).
  { case_goal; [|by split].
    eapply sat_bind; [apply flush_comments_spec; [done|apply HI1]|].
    intros r2 [[? ? ? ?] Hlex2]. split; [by constructor|]. etrans; [exact Hlex2|by constructor]. }
  intros r2 [HI2 Hlex2]. assert (Hlex : lexstep r r2) by by etrans.
  apply lexstep_length in Hlex2 as Hle2. apply lexstep_vstep in Hlex as Hst.
  eapply sat_bind; [apply (read_token_value_spec _ fuel)|].
  - exact IH.
  - done.
  - by eapply lexstep_last_outside.
  - intros Hne. specialize (Hlt1 Hne). lia.
  - intros [[ok r3]|[ok r3]]; cbn.
    + intros (-> & HI3 & Hst3). by split_and!; [|etrans|].
    + intros [Hne [HI3 Hst3]]. assert (Hv : vstep r r3) by by etrans.
      specialize (Hlt1 Hne). pose proof (suffix_length _ _ (v_suffix _ _ Hst3)) as Hle3.
      assert (Hlt : (length (current_ r3) < length (current_ r))%nat) by lia.
      rewrite <- (v_collect _ _ Hv). destruct (collectComments_ r3) eqn:Ec; [|by split_and!].
      split_and!.
      * destruct HI3. by constructor.
      * destruct Hv. by constructor.
      * intros _. split; [done|]. intros _. cbn. by rewrite (vstep_top _ _ Hv).
Qed.

Lemma parse_start_inv features doc root collect :
  Value_wf root -> Inv (parse_start features doc root collect).
Proof. intros H. by constructor; [|eexists| |]. Qed.

(** The whole run of [parse]. *)
Lemma parse_sat features doc root collect :
  Value_wf root ->
  sat (parse features doc root collect) (fun '(_, r) => Value_wf (root_ r)).
Proof.
  intros Hw. unfold parse, parse_with.
  set (r0 := parse_start _ _ _ _).
  assert (HI0 : Inv r0) by by apply parse_start_inv.
  eapply sat_bind; [apply readValue_spec; [done|done|]|].
  { unfold parse_fuel. cbn. lia. }
  intros [ok r1] (HI1 & Hst1 & _).
  eapply sat_bind; [by apply skipCommentTokens_spec|]. intros [token r2] (HI2 & Hlex2 & _).
  apply (sat_bind _ _ (fun r3 => Value_wf (root_ r3))).
  - case_goal; [|apply HI2].
    eapply sat_mono; [apply flush_comments_spec; [done|by eexists]|].
    intros r3 [HI3 _]. apply HI3.
  - intros r3 H3. case_goal; exact H3.
Qed.

End Safety.
