(* ===== verification/JsonScalars.v ===== *)
(** * What the reader makes of a token

    The decoders against the values they should compute: digit strings and
    integers, string literals, and the reader's state after a scalar value. *)

From stdpp Require Import tactics.
From S2P Require Import Prelude OrdMap Doubles JsonValue JsonPaths JsonWriter JsonReader.
From S2P Require Import JsonReaderFacts.

#[local] Arguments assign : simpl never.

(** ** Integers *)

Definition all_digits (s : bytes) : Prop := Forall (fun c => is_digit c = true) s.

Lemma digit_bounds c : is_digit c = true -> 0 <= ord c - ord "0" < 10.
Proof.
  unfold is_digit. change (ord "0") with 48. change (ord "9") with 57.
  rewrite andb_true_iff, !Z.leb_le. lia.
Qed.

(** Value of a digit string read after the digits of [acc]. *)
Definition digits_from (acc : Z) (ds : bytes) : Z :=
  fold_left (fun acc c => acc * 10 + (ord c - ord "0")) ds acc.

Arguments digits_from : simpl never.

Lemma digits_from_cons acc c ds :
  digits_from acc (c :: ds) = digits_from (acc * 10 + (ord c - ord "0")) ds.
Proof. done. Qed.

Lemma digits_from_app acc a b : digits_from acc (a ++ b) = digits_from (digits_from acc a) b.
Proof. apply fold_left_app. Qed.

Lemma digits_from_ge acc ds : 0 <= acc -> all_digits ds -> acc <= digits_from acc ds.
Proof.
  intros Hacc Hds. revert acc Hacc. induction Hds as [|c ds Hc Hds IH]; intros acc Hacc; rewrite ?digits_from_cons; [done|].
  pose proof (digit_bounds c Hc). etrans; [|apply IH]; lia.
Qed.

(** The number decoder computes the value of the digits, provided the value
    without its last digit stays below the threshold. *)
Lemma decode_digits_value th acc ds :
  0 <= acc -> all_digits ds -> digits_from acc ds <= UINT_MAX ->
  (ds <> [] -> digits_from acc ds / 10 < th) ->
  decode_digits th acc ds = IsInteger (digits_from acc ds).
Proof.
  intros Hacc Hds. revert acc Hacc. induction Hds as [|c ds Hc Hds IH]; intros acc Hacc Hmax Hth;
    [done|]. rewrite digits_from_cons in *. cbn [decode_digits]. rewrite Hc. cbn [negb]. pose proof (digit_bounds c Hc) as Hb.
  pose proof (digits_from_ge (acc * 10 + (ord c - ord "0")) ds ltac:(lia) Hds) as Hge.
  assert (acc < th).
  { specialize (Hth ltac:(done)). assert (acc <= digits_from (acc * 10 + (ord c - ord "0")) ds / 10);
      [|lia]. apply Z.div_le_lower_bound; lia. }
  assert ((th <=? acc) = false) as -> by lia.
  rewrite to_uint32_id by (unfold is_uint32; lia).
  apply IH; [lia|done|]. intros _. by apply Hth.
Qed.

(** [uintToString] writes the decimal digits of its argument, without leading
    zero text to drop: the buffer is large enough for every [unsigned int]. *)
Lemma uintToString_digits room u acc :
  0 <= u < 10 ^ Z.of_nat (S room) ->
  exists ds, uintToString (S room) u acc = ds ++ acc /\ all_digits ds /\ ds <> []
    /\ digits_from 0 ds = u /\ (length ds <= S room)%nat.
Proof.
  revert u acc. induction room as [|room IH]; intros u acc Hu.
  - change (10 ^ Z.of_nat 1) with 10 in Hu. cbn [uintToString].
    assert (u / 10 = 0) as Hq by (apply Z.div_small; lia). rewrite Hq. cbn [Z.eqb].
    exists [digit_char (u mod 10)]. rewrite Z.mod_small by lia. split_and!; try done.
    + unfold digit_char. by rewrite (Z.add_comm u).
    + by repeat constructor; apply is_digit_digit_char.
    + unfold digits_from; cbn. rewrite digit_char_ord by lia. change (ord "0") with 48. lia.
  - remember (S room) as room' eqn:Er. cbn [uintToString].
    pose proof (Z.mod_pos_bound u 10 ltac:(lia)) as Hm.
    pose proof (Z.div_mod u 10 ltac:(lia)) as Hdm.
    assert (Hch : chr (u mod 10 + ord "0") = digit_char (u mod 10))
      by (unfold digit_char; f_equal; lia).
    rewrite Hch.
    assert (Hd : digits_from (u / 10) [digit_char (u mod 10)] = u).
    { unfold digits_from; cbn. rewrite digit_char_ord by lia. change (ord "0") with 48. lia. }
    destruct (Z.eqb_spec (u / 10) 0) as [E|E].
    + exists [digit_char (u mod 10)]. split_and!; try done; [|by rewrite <- E at 1|cbn; lia].
      by repeat constructor; apply is_digit_digit_char.
    + subst room'. destruct (IH (u / 10) (digit_char (u mod 10) :: acc))
        as (ds & -> & Hall & Hne & Hval & Hlen).
      { split; [apply Z.div_pos; lia|]. apply Z.div_lt_upper_bound; [lia|].
        rewrite (Nat2Z.inj_succ (S room)), Z.pow_succ_r in Hu by lia. lia. }
      exists (ds ++ [digit_char (u mod 10)]). split_and!.
      * by rewrite <- app_assoc.
      * apply Forall_app. split; [done|]. by repeat constructor; apply is_digit_digit_char.
      * by destruct ds.
      * by rewrite digits_from_app, Hval.
      * rewrite length_app. cbn. lia.
Qed.

Lemma valueToString_UInt_digits u :
  is_uint32 u ->
  exists ds, valueToString_UInt u = ds /\ all_digits ds /\ ds <> []
    /\ digits_from 0 ds = u /\ (length ds <= 31)%nat.
Proof.
  intros Hu. unfold valueToString_UInt, buffer_room.
  destruct (uintToString_digits 30 u []) as (ds & -> & ?); [unfold is_uint32, UINT_MAX in Hu; lia|].
  exists ds. by rewrite app_nil_r.
Qed.

Lemma valueToString_Int_digits i :
  is_int32 i ->
  exists ds, valueToString_Int i = (if i <? 0 then ["-"%char] else []) ++ ds
    /\ all_digits ds /\ ds <> [] /\ digits_from 0 ds = Z.abs i /\ (length ds <= 31)%nat.
Proof.
  intros Hi. unfold is_int32, INT_MIN, INT_MAX in Hi. unfold valueToString_Int, buffer_room.
  assert (E : to_uint32 (if i <? 0 then to_int32 (- i) else i) = Z.abs i).
  { unfold to_uint32, to_int32. destruct (Z.ltb_spec i 0).
    - destruct (Z.eq_dec i (-2147483648)) as [->|]; [done|].
      rewrite (Z.mod_small (- i + _)) by lia. rewrite Z.mod_small; lia.
    - rewrite Z.mod_small; lia. }
  rewrite E. destruct (uintToString_digits 30 (Z.abs i) []) as (ds & -> & ?); [lia|].
  exists ds. rewrite app_nil_r. split; [|done]. by destruct (i <? 0).
Qed.

(** ** Number tokens *)

Definition delimited (rest : Location) : Prop :=
  match rest with [] => True | c :: _ => is_number_char c = false end.

Lemma readNumber_stop s rest :
  Forall (fun c => is_number_char c = true) s -> delimited rest -> readNumber (s ++ rest) = rest.
Proof.
  intros Hs Hr. induction Hs as [|c s Hc _ IH]; cbn.
  - destruct rest as [|c rest]; [done|]. cbn in *. by rewrite Hr.
  - by rewrite Hc.
Qed.

Lemma digit_is_number_char c : is_digit c = true -> is_number_char c = true.
Proof. unfold is_number_char. by intros ->. Qed.

Lemma text_between_app a b : text_between (a ++ b) b = a.
Proof. unfold text_between. rewrite length_app, Nat.add_sub. apply take_app_length. Qed.

(** A plain digit is none of the characters that make a number a double. *)
Lemma digit_not_in c cs :
  is_digit c = true -> forallb (fun x => negb (is_digit x)) cs = true -> is_char c cs = false.
Proof.
  intros Hc. unfold is_char. induction cs as [|x cs IH]; cbn; [done|].
  rewrite andb_true_iff. intros [Hx Hcs]. rewrite (IH Hcs), orb_false_r.
  destruct (Ascii.eqb_spec c x) as [->|]; [|done]. by rewrite Hc in Hx.
Qed.

Lemma digits_not_double ds :
  all_digits ds -> number_is_double ds = false /\ number_is_double ("-"%char :: ds) = false.
Proof.
  intros H.
  assert (Hex : existsb (fun c => is_char c ["."%char; "e"%char; "E"%char; "+"%char]) ds = false).
  { induction H as [|c ds Hc _ IH]; cbn; [done|]. by rewrite IH, digit_not_in. }
  assert (Hm : forall l, all_digits l -> existsb (Ascii.eqb "-") l = false).
  { clear. induction 1 as [|c l Hc _ IH]; cbn [existsb]; [done|]. rewrite IH, orb_false_r.
    destruct (Ascii.eqb_spec "-" c) as [<-|]; [|done]. by vm_compute in Hc. }
  unfold number_is_double. cbn [existsb drop]. rewrite Hex. cbn [orb].
  split; [|by apply Hm]. apply Hm. destruct H; [constructor|done].
Qed.

(** ** Strings *)

Definition escaped (s : bytes) : bytes := concat (map escape_char s).

Lemma escape_char_plain c :
  existsb (Ascii.eqb c) [DQUOTE; BACKSLASH; BSP; FF; LF; CR; TAB] = false ->
  isControlCharacter c = false -> escape_char c = [c].
Proof.
  cbn. unfold escape_char. intros H ->.
  repeat match type of H with _ || _ = false => apply orb_false_iff in H as [-> H] end.
  done.
Qed.

(** The fast path of [valueToQuotedString] agrees with the escaping loop. *)
Lemma valueToQuotedString_escaped s :
  valueToQuotedString s = [DQUOTE] ++ escaped (cstr s) ++ [DQUOTE].
Proof.
  unfold valueToQuotedString, strpbrk_found, containsControlCharacter. rewrite cstr_idemp.
  destruct (_ && _) eqn:E; [|done]. f_equal. f_equal.
  apply andb_true_iff in E as [E1%negb_true_iff E2%negb_true_iff].
  induction (cstr s) as [|c l IH]; [done|]. cbn [existsb] in E1, E2.
  apply orb_false_iff in E1 as [E1 E1'], E2 as [E2 E2'].
  unfold escaped in *. cbn. rewrite escape_char_plain by done. cbn. f_equal. by apply IH.
Qed.

(** *** String literals

    What may stand between two quotes, and the bytes it denotes: plain bytes,
    the short escapes, and UTF-16 escapes of one unit or of a surrogate pair,
    stored in UTF-8. *)

Inductive unit16 : bytes -> Z -> Prop :=
| unit16_intro a b c d x y z w :
    hex_value a = Some x -> hex_value b = Some y -> hex_value c = Some z -> hex_value d = Some w ->
    unit16 [a; b; c; d] (((x * 16 + y) * 16 + z) * 16 + w).

Inductive literal : bytes -> bytes -> Prop :=
| literal_nil : literal [] []
| literal_plain c s x :
    c <> DQUOTE -> c <> BACKSLASH -> literal s x -> literal (c :: s) (c :: x)
| literal_escape e c s x :
    simple_escape e = Some c -> literal s x -> literal (BACKSLASH :: e :: s) (c :: x)
| literal_unit h n s x :
    unit16 h n -> ~ 0xD800 <= n <= 0xDBFF -> literal s x ->
    literal (BACKSLASH :: "u"%char :: h ++ s) (codePointToUTF8 n ++ x)
| literal_pair h n l m s x :
    unit16 h n -> 0xD800 <= n <= 0xDBFF -> unit16 l m -> 0xDC00 <= m <= 0xDFFF -> literal s x ->
    literal (BACKSLASH :: "u"%char :: h ++ BACKSLASH :: "u"%char :: l ++ s)
      (codePointToUTF8 (0x10000 + (n - 0xD800) * 1024 + (m - 0xDC00)) ++ x).

Definition hex4 (n : Z) : bytes :=
  [hex_digit (n / 4096); hex_digit (n / 256 mod 16); hex_digit (n / 16 mod 16); hex_digit (n mod 16)].

Lemma hex_value_digit d : 0 <= d < 16 -> hex_value (hex_digit d) = Some d.
Proof.
  intros Hd. rewrite <- (Z2Nat.id d) by lia. assert (H : (Z.to_nat d < 16)%nat) by lia.
  revert H. generalize (Z.to_nat d) as n. intros n H.
  do 16 (destruct n as [|n]; [done|]). lia.
Qed.

Lemma unit16_hex4 n : 0 <= n < 65536 -> unit16 (hex4 n) n.
Proof.
  intros Hn. replace n with ((((n / 4096) * 16 + n / 256 mod 16) * 16 + n / 16 mod 16) * 16 + n mod 16)
    at 2 by (Z.div_mod_to_equations; lia).
  apply unit16_intro; apply hex_value_digit; Z.div_mod_to_equations; lia.
Qed.

Lemma plain_literal s : Forall (fun c => c <> DQUOTE /\ c <> BACKSLASH) s -> literal s s.
Proof. induction 1 as [|c s [] _ IH]; by constructor. Qed.

Lemma hex_value_bounds c x : hex_value c = Some x -> 0 <= x < 16.
Proof.
  unfold hex_value. change (ord "a") with 97. change (ord "f") with 102.
  change (ord "A") with 65. change (ord "F") with 70.
  destruct (is_digit c) eqn:Hd; [intros [= <-]; pose proof (digit_bounds c Hd); lia|].
  destruct (_ && _) eqn:E; [|clear E; destruct (_ && _) eqn:E; [|done]];
    apply andb_true_iff in E as [?%Z.leb_le ?%Z.leb_le]; intros [= <-]; lia.
Qed.

Lemma hex_value_plain c x : hex_value c = Some x -> c <> DQUOTE /\ c <> BACKSLASH.
Proof. intros H. split; intros ->; by vm_compute in H. Qed.

Lemma unit16_bounds h n : unit16 h n -> 0 <= n < 65536.
Proof.
  intros [a b c d x y z w Ha Hb Hc Hd].
  apply hex_value_bounds in Ha, Hb, Hc, Hd. lia.
Qed.

Lemma decode_unit16 h n rest : unit16 h n -> decodeUnicodeEscapeSequence (h ++ rest) = inr (n, rest).
Proof.
  intros [a b c d x y z w Ha Hb Hc Hd]. unfold decodeUnicodeEscapeSequence.
  cbn [length app Nat.ltb Nat.leb hex_loop]. rewrite Ha, Hb, Hc, Hd.
  apply hex_value_bounds in Ha, Hb, Hc, Hd.
  rewrite (to_uint32_id (0 * 16 + x)), (to_uint32_id (_ + y)), (to_uint32_id (_ + z)),
    (to_uint32_id (_ + w)) by (unfold is_uint32, UINT_MAX; lia). done.
Qed.

Lemma land_3ff x : Z.land x 0x3FF = x mod 1024.
Proof. exact (Z.land_ones x 10 ltac:(lia)). Qed.

Lemma decode_unit h n rest : unit16 h n -> ~ 0xD800 <= n <= 0xDBFF ->
  decodeUnicodeCodePoint (h ++ rest) = inr (n, rest).
Proof.
  intros Hh Hn. unfold decodeUnicodeCodePoint. rewrite decode_unit16 with (n := n) by done.
  by assert ((0xD800 <=? n) && (n <=? 0xDBFF) = false) as -> by lia.
Qed.

Lemma decode_pair h n l m rest :
  unit16 h n -> 0xD800 <= n <= 0xDBFF -> unit16 l m -> 0xDC00 <= m <= 0xDFFF ->
  decodeUnicodeCodePoint (h ++ BACKSLASH :: "u"%char :: l ++ rest)
  = inr (0x10000 + (n - 0xD800) * 1024 + (m - 0xDC00), rest).
Proof.
  intros Hh Hn Hl Hm. unfold decodeUnicodeCodePoint. rewrite decode_unit16 with (n := n) by done.
  assert ((0xD800 <=? n) && (n <=? 0xDBFF) = true) as -> by lia.
  assert ((length (BACKSLASH :: "u"%char :: l ++ rest) <? 6)%nat = false) as ->.
  { destruct Hl. done. }
  rewrite !Ascii.eqb_refl, decode_unit16 with (n := m) by done.
  rewrite !land_3ff, Z.shiftl_mul_pow2 by lia. f_equal. f_equal. change (2 ^ 10) with 1024.
  Z.div_mod_to_equations. lia.
Qed.

Lemma scan_skip c x l : c <> DQUOTE -> c <> BACKSLASH ->
  readString_loop x (c :: l) = readString_loop c l.
Proof. intros H1 H2. cbn. by rewrite !ascii_eqb_ne. Qed.

Lemma scan_escape e x l : readString_loop x (BACKSLASH :: e :: l) = readString_loop BACKSLASH l.
Proof. done. Qed.

Lemma scan_unit16 h n x l : unit16 h n -> exists y, readString_loop x (h ++ l) = readString_loop y l.
Proof.
  intros [a b c d ? ? ? ? Ha Hb Hc Hd]. exists d. cbn [app].
  rewrite !scan_skip by (by eapply hex_value_plain). done.
Qed.

(** The scanner stops behind the closing quote of a literal. *)
Lemma literal_scans s x y rest : literal s x -> readString_loop y (s ++ DQUOTE :: rest) = (DQUOTE, rest).
Proof.
  intros H. revert y. induction H as [|c s x Hq Hb _ IH|e c s x _ _ IH|h n s x Hh _ _ IH
    |h n l m s x Hh _ Hl _ _ IH]; intros y; cbn [app].
  - done.
  - by rewrite scan_skip.
  - by rewrite scan_escape.
  - rewrite scan_escape, <- app_assoc. by destruct (scan_unit16 h n BACKSLASH (s ++ DQUOTE :: rest) Hh) as [? ->].
  - rewrite scan_escape, <- app_assoc. cbn [app]. rewrite <- app_assoc.
    destruct (scan_unit16 h n BACKSLASH (BACKSLASH :: "u"%char :: l ++ s ++ DQUOTE :: rest) Hh) as [? ->].
    rewrite scan_escape. by destruct (scan_unit16 l m BACKSLASH (s ++ DQUOTE :: rest) Hl) as [? ->].
Qed.

Lemma simple_escape_plain e c : simple_escape e = Some c -> e <> "u"%char.
Proof. by intros H ->. Qed.

(** The decoder computes what a literal denotes. *)
Lemma literal_decodes s x n d :
  literal s x -> (length s < n)%nat -> decode_loop n s d = Ok (inr (d ++ x)).
Proof.
  intros H. revert n d. induction H as [|c s x Hq Hb _ IH|e c s x He _ IH|h n s x Hh Hn _ IH
    |h n l m s x Hh Hn Hl Hm _ IH]; intros [|k] d Hk; try (cbn in Hk; lia); cbn [decode_loop].
  - by rewrite app_nil_r.
  - rewrite (ascii_eqb_ne _ _ Hq), (ascii_eqb_ne _ _ Hb), IH by (cbn in Hk; lia).
    by rewrite <- app_assoc.
  - change (Ascii.eqb BACKSLASH DQUOTE) with false. rewrite Ascii.eqb_refl, He.
    rewrite IH by (cbn in Hk; lia). by rewrite <- app_assoc.
  - change (Ascii.eqb BACKSLASH DQUOTE) with false. change (simple_escape "u") with (@None ascii).
    rewrite !Ascii.eqb_refl, (decode_unit h n) by done. cbn in Hk. rewrite length_app in Hk.
    rewrite IH by lia. by rewrite <- app_assoc.
  - change (Ascii.eqb BACKSLASH DQUOTE) with false. change (simple_escape "u") with (@None ascii).
    rewrite !Ascii.eqb_refl, (decode_pair h n l m) by done. cbn in Hk.
    rewrite length_app in Hk. cbn in Hk. rewrite length_app in Hk.
    rewrite IH by lia. by rewrite <- app_assoc.
Qed.

(** The writer's escapes are literals. *)
Lemma literal_escape_char c s x : c <> NUL -> literal s x -> literal (escape_char c ++ s) (c :: x).
Proof.
  intros Hc Hs. unfold escape_char.
  repeat match goal with
  | |- context [if Ascii.eqb c ?d then _ else _] =>
      destruct (Ascii.eqb_spec c d) as [->|]; [by apply literal_escape|]
  end.
  destruct (isControlCharacter c) eqn:E; [|by apply literal_plain].
  assert (Hu : codePointToUTF8 (ord c) = [c]).
  { clear -E. by destruct c as [[] [] [] [] [] [] [] []]. }
  replace (c :: x) with (codePointToUTF8 (ord c) ++ x) by (by rewrite Hu).
  pose proof (ord_range c). change (literal (BACKSLASH :: "u"%char :: hex4 (ord c) ++ s)
    (codePointToUTF8 (ord c) ++ x)).
  apply literal_unit; [apply unit16_hex4; lia|lia|done].
Qed.

Lemma escaped_literal s : no_nul s -> literal (escaped s) s.
Proof.
  induction 1 as [|c s Hc _ IH]; [constructor|]. by apply literal_escape_char.
Qed.

Section Scalars.
Context {D : DoubleOps}.

(** ** Arrays without holes *)

Lemma dense_from_below i m1 k v m2 :
  dense_from i (m1 ++ (k, v) :: m2) -> k = i + Z.of_nat (length m1) /\ below m1 k.
Proof.
  revert i. induction m1 as [|[k1 v1] m1 IH]; intros i; cbn.
  - intros [-> _]. split; [lia|constructor].
  - intros [-> H]. destruct (IH _ H) as [-> Hb]. split; [lia|]. constructor; [|done].
    unfold klt. cbn. apply Z.compare_lt_iff. lia.
Qed.

Lemma dense_from_wf i m : dense_from i m -> om_wf m /\ Forall (fun kv => i <= kv.1) m.
Proof.
  revert i. induction m as [|[k v] m IH]; intros i; cbn; [done|]. intros [-> H].
  destruct (IH _ H) as [Hw Hf]. split; [split; [|done]|].
  - eapply Forall_impl; [exact Hf|]. intros kv Hkv. unfold klt. cbn in *.
    apply Z.compare_lt_iff. lia.
  - constructor; [cbn; lia|]. eapply Forall_impl; [exact Hf|]. intros kv Hkv. cbn in *. lia.
Qed.

Lemma dense_keys_int32 m : dense_map m -> Forall is_int32 (om_keys m).
Proof.
  intros [H Hlen]. unfold om_keys. rewrite Forall_map, Forall_forall. intros [k v] Hin.
  apply list_elem_of_split in Hin as (m1 & m2 & ->).
  apply dense_from_below in H as [-> _]. rewrite length_app in Hlen. cbn in *.
  unfold is_int32, INT_MIN. lia.
Qed.

Lemma dense_from_app i m1 m2 :
  dense_from i (m1 ++ m2) <-> dense_from i m1 /\ dense_from (i + Z.of_nat (length m1)) m2.
Proof.
  revert i. induction m1 as [|[k v] m1 IH]; intros i; cbn [app dense_from length].
  - replace (i + Z.of_nat 0) with i by lia. tauto.
  - rewrite IH. replace (i + Z.of_nat (S (length m1))) with (i + 1 + Z.of_nat (length m1)) by lia.
    tauto.
Qed.

Lemma index_ref_put i m c :
  is_int32 i -> below m i ->
  index_ref (to_uint32 i) (mkValue c (arrayValue m)) = Ok (mkValue c (arrayValue (m ++ [(i, null)]))).
Proof.
  intros Hi Hb.
  transitivity (Ok (mkValue c (arrayValue (om_touch (to_int32 (to_uint32 i)) null m)))); [done|].
  by rewrite to_int32_to_uint32, to_int32_id, om_touch_below.
Qed.

Lemma dense_size c m : dense_map m -> size (mkValue c (arrayValue m)) = Z.of_nat (length m).
Proof.
  intros [Hd Hlen]. unfold size. cbn. induction m as [|[k v] m _] using rev_ind; [done|].
  rewrite last_snoc. apply dense_from_app in Hd as [_ [Hk _]]. rewrite length_app in *.
  cbn [length] in *. subst k. unfold INT_MAX in Hlen. rewrite to_uint32_id; [lia|].
  unfold is_uint32, UINT_MAX. lia.
Qed.

(** ** Reader states that differ in the current value and the position *)

Definition set_payload (p : Payload Value) (old : Value) : Value := mkValue (comments_ old) p.

Definition put (p : Payload Value) (l : Location) (r : Reader) : Reader :=
  with_current l (with_root (vmodify (top r) (set_payload p) (root_ r)) r).

Lemma put_put p l p' l' r : put p l (put p' l' r) = put p l r.
Proof. unfold put, top; cbn. by rewrite vmodify_compose. Qed.

Lemma put_current p l l' r : with_current l' (put p l r) = put p l' r.
Proof. done. Qed.

Lemma put_set v r l :
  Value_wf v -> valid (top r) (root_ r) ->
  set_currentValue v (with_current l r) = put (value_ v) l r.
Proof.
  intros Hv [w Hw]. unfold set_currentValue, put, with_root, with_current, top; cbn.
  f_equal. apply (vmodify_ext _ _ _ _ w Hw). cbn beta. by rewrite assign_wf_eq.
Qed.

Lemma put_top p l r : top (put p l r) = top r.
Proof. done. Qed.

Lemma put_valid p l r : valid (top r) (root_ r) -> valid (top r) (root_ (put p l r)).
Proof. intros [w Hw]. unfold valid, put; cbn. rewrite vget_vmodify_same, Hw. by eexists. Qed.

(** ** Tokens of a comment-free text *)

Definition plain (r : Reader) : Prop :=
  commentsBefore_ r = [] /\ valid (top r) (root_ r).

Lemma readToken_scan c l r :
  skipSpaces (current_ r) = c :: l -> c <> "/"%char ->
  readToken r =
    let '(type, (ok, l')) := scan_token c l in
    Ok (true, mkToken (if (ok : bool) then type else tokenError) (c :: l) l', with_current l' r).
Proof.
  intros Hs Hc. unfold readToken. rewrite Hs. cbn [getNextChar].
  rewrite (ascii_eqb_ne _ _ Hc). by destruct (scan_token c l) as [type [ok l']].
Qed.

Lemma skipCommentTokens_scan c l r type l' :
  skipSpaces (current_ r) = c :: l -> c <> "/"%char ->
  scan_token c l = (type, (true, l')) -> type <> tokenComment ->
  skipCommentTokens r = Ok (mkToken type (c :: l) l', with_current l' r).
Proof.
  intros Hs Hc Hscan Ht. unfold skipCommentTokens. cbn [read_past_comments loop_bound].
  rewrite (readToken_scan c l r Hs Hc), Hscan. cbn. rewrite decide_False by done.
  by destruct (allowComments_ _).
Qed.

Lemma drop_comments_none n token ok r :
  type_ token <> tokenComment -> drop_comments n token ok r = Ok (ok, token, r).
Proof. intros H. destruct n; cbn; by rewrite decide_False. Qed.

(** One unfolding of [readValue] on such a text. *)
Lemma readValue_scan fuel c l r type l' :
  plain r -> skipSpaces (current_ r) = c :: l -> c <> "/"%char ->
  scan_token c l = (type, (true, l')) -> type <> tokenComment ->
  readValue (S fuel) r =
    let! res := read_token_value (readValue fuel) (mkToken type (c :: l) l') (with_current l' r) in
    match res with
    | inl early => Ok early
    | inr (successful, r) =>
        Ok (successful,
            if collectComments_ r then with_last (Some (current_ r)) (Some (top r)) r else r)
    end.
Proof.
  intros [Hcom Hval] Hs Hc Hscan Ht. cbn [readValue].
  rewrite (skipCommentTokens_scan c l r type l') by done. cbn [obind with_current].
  unfold with_current; cbn. rewrite Hcom. by rewrite bool_decide_true, andb_false_r.
Qed.

(** [reads t p]: on the text [t] the reader puts the payload [p] in the current
    value and stops after the text; when it collects comments it also records
    where the value was. *)
Definition reads (t : bytes) (p : Payload Value) : Prop :=
  forall fuel r rest, plain r -> delimited rest -> (length t <= fuel)%nat ->
    skipSpaces (current_ r) = t ++ rest ->
    exists e v, readValue fuel r = Ok (true, put p rest (with_last e v r)).

Lemma record_last p l r :
  exists e v,
    (if collectComments_ r then with_last (Some l) (Some (top r)) (put p l r) else put p l r)
    = put p l (with_last e v r).
Proof.
  destruct (collectComments_ r); [by eexists _, _|]. exists (lastValueEnd_ r), (lastValue_ r).
  by destruct r.
Qed.

Lemma reads_scalar t c l p type :
  t = c :: l -> c <> "/"%char -> type <> tokenComment ->
  (forall rest, delimited rest -> scan_token c (l ++ rest) = (type, (true, rest))) ->
  (forall rest r rv, plain r -> delimited rest ->
     read_token_value rv (mkToken type (t ++ rest) rest) (with_current rest r)
     = Ok (inr (true, put p rest r))) ->
  reads t p.
Proof.
  intros -> Hc Ht Hscan Hval [|fuel] r rest Hp Hd Hf Hs; [cbn in Hf; lia|].
  rewrite (readValue_scan fuel c (l ++ rest) r type rest) by auto.
  change (c :: l ++ rest) with ((c :: l) ++ rest). rewrite Hval by done. cbn [obind].
  destruct (record_last p rest r) as (e & v & E). exists e, v. by rewrite <- E.
Qed.

Lemma matchText_app s rest : matchText s (s ++ rest) = (true, rest).
Proof. unfold matchText. rewrite take_app_length, drop_app_length. by rewrite bool_decide_true. Qed.

Lemma reads_null : reads (bs "null") nullValue.
Proof. by apply (reads_scalar _ "n" (bs "ull") _ tokenNull). Qed.

Lemma reads_bool b : reads (valueToString_bool b) (booleanValue b).
Proof.
  destruct b.
  - by apply (reads_scalar _ "t" (bs "rue") _ tokenTrue).
  - by apply (reads_scalar _ "f" (bs "alse") _ tokenFalse).
Qed.

Lemma all_digits_number_chars ds : all_digits ds -> Forall (fun c => is_number_char c = true) ds.
Proof. intros H. eapply Forall_impl; [exact H|]. apply digit_is_number_char. Qed.

Lemma digit_ne c x : is_digit c = true -> is_digit x = false -> c <> x.
Proof. congruence. Qed.

Lemma decodeNumber_uint ds rest r u :
  all_digits ds -> ds <> [] -> digits_from 0 ds = u -> 0 <= u <= 4294967289 -> plain r ->
  decodeNumber (mkToken tokenNumber (ds ++ rest) rest) (with_current rest r)
  = Ok (true, put (if u <=? maxInt then intValue u else uintValue u) rest r).
Proof.
  intros Hds Hne Hu Hb _. unfold decodeNumber, token_text. cbn [start_ end_].
  rewrite text_between_app. destruct (digits_not_double ds Hds) as [-> _].
  assert (Ascii.eqb (deref ds) "-" = false) as ->.
  { destruct Hds as [|c ds Hc _]; [done|]. by apply ascii_eqb_ne, digit_ne. }
  rewrite decode_digits_value; [|lia|done|unfold UINT_MAX; lia|].
  2: { intros _. rewrite Hu. change (number_threshold false) with 429496729.
       apply Z.div_lt_upper_bound; lia. }
  rewrite Hu. destruct (Z.leb_spec u maxInt) as [Hle|Hlt].
  - unfold maxInt, INT_MAX in Hle.
    assert (Hi : is_int32 u) by (unfold is_int32, INT_MIN, INT_MAX; lia).
    by rewrite to_int32_id.
  - reflexivity.
Qed.

Lemma decodeNumber_negative ds rest r u :
  all_digits ds -> ds <> [] -> digits_from 0 ds = u -> 0 <= u < 2147483640 -> plain r ->
  decodeNumber (mkToken tokenNumber (("-"%char :: ds) ++ rest) rest) (with_current rest r)
  = Ok (true, put (intValue (- u)) rest r).
Proof.
  intros Hds Hne Hu Hb _. unfold decodeNumber, token_text. cbn [start_ end_].
  rewrite text_between_app. destruct (digits_not_double ds Hds) as [_ ->].
  change (Ascii.eqb (deref ("-"%char :: ds)) "-") with true.
  change (drop 1 ("-"%char :: ds)) with ds. cbn match.
  rewrite decode_digits_value; [|lia|done|unfold UINT_MAX; lia|].
  2: { intros _. rewrite Hu. change (number_threshold true) with 214748364.
       apply Z.div_lt_upper_bound; lia. }
  rewrite Hu. cbn zeta.
  assert (Hi : is_int32 u) by (unfold is_int32, INT_MIN, INT_MAX; lia).
  assert (Hi' : is_int32 (- u)) by (unfold is_int32, INT_MIN, INT_MAX; lia).
  by rewrite (to_int32_id u Hi), (to_int32_id (- u) Hi').
Qed.

(** A value of the digits from which the decoder gives up the integers. *)
Lemma decode_digits_large th acc ds :
  th <= 429496729 -> 0 <= acc -> all_digits ds -> ds <> [] -> th <= digits_from acc ds / 10 ->
  decode_digits th acc ds = IsDouble.
Proof.
  intros Hth Hacc Hds. revert acc Hacc. induction Hds as [|c ds Hc Hds IH]; intros acc Hacc Hne Hge;
    [done|]. rewrite digits_from_cons in Hge. cbn [decode_digits]. rewrite Hc. cbn [negb].
  pose proof (digit_bounds c Hc). destruct (Z.leb_spec th acc) as [|Hlt]; [done|].
  rewrite to_uint32_id by (unfold is_uint32, UINT_MAX; lia).
  destruct ds as [|c' ds]; [|apply IH; [lia|done|done]].
  change (digits_from ?x []) with x in Hge. exfalso. revert Hge.
  assert (Hq : (acc * 10 + (ord c - ord "0")) / 10 = acc) by (Z.div_mod_to_equations; lia).
  rewrite Hq. lia.
Qed.

(** Number texts and what they denote: an [int] or [unsigned] where the decoder
    keeps integers, a double otherwise.  Texts of exactly 32 characters overflow
    the buffer of [decodeDouble]. *)
Inductive inexact : bytes -> Prop :=
| inexact_text t : number_is_double t = true -> inexact t
| inexact_unsigned ds : all_digits ds -> ds <> [] -> 4294967290 <= digits_from 0 ds -> inexact ds
| inexact_negative ds :
    all_digits ds -> ds <> [] -> 2147483640 <= digits_from 0 ds -> inexact ("-"%char :: ds).

Inductive number : bytes -> Payload Value -> Prop :=
| number_unsigned ds u :
    all_digits ds -> ds <> [] -> digits_from 0 ds = u -> u <= 4294967289 ->
    number ds (if u <=? maxInt then intValue u else uintValue u)
| number_negative ds u :
    all_digits ds -> ds <> [] -> digits_from 0 ds = u -> u < 2147483640 ->
    number ("-"%char :: ds) (intValue (- u))
| number_real c t d :
    is_digit c = true \/ c = "-"%char -> Forall (fun c => is_number_char c = true) t ->
    length (c :: t) <> bufferSize -> inexact (c :: t) -> d_scan (c :: t) = Some d ->
    number (c :: t) (realValue d).

Lemma number_start t p : number t p ->
  exists c l, t = c :: l /\ (is_digit c = true \/ c = "-"%char)
              /\ Forall (fun c => is_number_char c = true) l.
Proof.
  intros [ds u Hds Hne _ _|ds u Hds _ _ _|c l d Hc Hl _ _ _].
  - destruct Hds as [|c l Hc Hl]; [done|]. exists c, l. auto using all_digits_number_chars.
  - exists "-"%char, ds. auto using all_digits_number_chars.
  - by exists c, l.
Qed.

Lemma scan_number_token c l rest :
  is_digit c = true \/ c = "-"%char -> Forall (fun c => is_number_char c = true) l ->
  delimited rest -> scan_token c (l ++ rest) = (tokenNumber, (true, rest)).
Proof.
  intros Hc Hl Hd.
  assert (Hn : scan_token c (l ++ rest) = (tokenNumber, (true, readNumber (l ++ rest)))).
  { unfold scan_token. destruct Hc as [Hc| ->]; [|done].
    rewrite !(ascii_eqb_ne c) by (by apply digit_ne). by rewrite Hc. }
  by rewrite Hn, readNumber_stop.
Qed.

Lemma number_chars_no_nul t : Forall (fun c => is_number_char c = true) t -> no_nul t.
Proof. intros H. eapply Forall_impl; [exact H|]. by intros c Hc ->. Qed.

Lemma start_number_char c : is_digit c = true \/ c = "-"%char -> is_number_char c = true.
Proof. intros [Hc| ->]; [by apply digit_is_number_char|done]. Qed.

Lemma decodeNumber_inexact t rest r :
  inexact t -> decodeNumber (mkToken tokenNumber (t ++ rest) rest) r
               = decodeDouble (mkToken tokenNumber (t ++ rest) rest) r.
Proof.
  intros Ht. unfold decodeNumber, token_text. cbn [start_ end_]. rewrite text_between_app.
  destruct Ht as [t Ht|ds Hds Hne Hge|ds Hds Hne Hge]; [by rewrite Ht| |];
    destruct (digits_not_double ds Hds) as [Hd Hd'].
  - rewrite Hd. assert (Ascii.eqb (deref ds) "-" = false) as ->.
    { destruct Hds as [|c ds Hc _]; [done|]. by apply ascii_eqb_ne, digit_ne. }
    rewrite decode_digits_large; try done. change (number_threshold false) with 429496729.
    apply Z.div_le_lower_bound; lia.
  - rewrite Hd'. change (Ascii.eqb (deref ("-"%char :: ds)) "-") with true.
    change (drop 1 ("-"%char :: ds)) with ds. cbn match.
    rewrite decode_digits_large; try done. change (number_threshold true) with 214748364.
    apply Z.div_le_lower_bound; lia.
Qed.

Lemma decodeNumber_number t p rest r :
  number t p -> plain r ->
  decodeNumber (mkToken tokenNumber (t ++ rest) rest) (with_current rest r) = Ok (true, put p rest r).
Proof.
  intros [ds u Hds Hne Hu Hb|ds u Hds Hne Hu Hb|c l d Hc Hl Hlen Hi Hs] Hp.
  - apply decodeNumber_uint; try done. pose proof (digits_from_ge 0 ds ltac:(lia) Hds). lia.
  - apply decodeNumber_negative; try done. pose proof (digits_from_ge 0 ds ltac:(lia) Hds). lia.
  - rewrite decodeNumber_inexact by done. unfold decodeDouble, token_text. cbn [start_ end_].
    rewrite text_between_app.
    assert (negb (length (c :: l) =? bufferSize)%nat = true) as ->.
    { apply negb_true_iff. by apply Nat.eqb_neq. }
    cbn [obind assertion]. rewrite cstr_id, Hs.
    + apply (f_equal (fun r => Ok (true, r))). apply (put_set (mk (realValue d))); [by apply scalar_wf|apply Hp].
    + apply number_chars_no_nul. constructor; [by apply start_number_char|done].
Qed.

Lemma reads_number t p : number t p -> reads t p.
Proof.
  intros H. destruct (number_start t p H) as (c & l & -> & Hc & Hl).
  apply (reads_scalar _ c l _ tokenNumber); try done.
  - destruct Hc as [Hc| ->]; [by apply digit_ne|done].
  - intros rest Hd. by apply scan_number_token.
  - intros rest r rv Hp _. cbn [read_token_value type_]. by rewrite decodeNumber_number with (p := p).
Qed.

(** *** Strings *)

Definition quoted (s : bytes) : bytes := DQUOTE :: s ++ [DQUOTE].

Lemma scan_literal s x rest :
  literal s x -> scan_token DQUOTE ((s ++ [DQUOTE]) ++ rest) = (tokenString, (true, rest)).
Proof.
  intros Hs. rewrite <- app_assoc.
  change (scan_token DQUOTE ?l) with (tokenString, readString l). unfold readString.
  change ([DQUOTE] ++ rest) with (DQUOTE :: rest). by rewrite (literal_scans s x NUL rest Hs).
Qed.

Lemma decodeString_text_literal s x rest r :
  literal s x ->
  decodeString_text (mkToken tokenString (quoted s ++ rest) rest) r = Ok (Some x, r).
Proof.
  intros Hs. unfold decodeString_text, quoted. cbn [start_ end_ app].
  cbn [length]. rewrite !length_app. cbn [length].
  replace (S (length s + 1 + length rest) - length rest - 2)%nat with (length s) by lia.
  rewrite <- app_assoc. change (drop 1 (DQUOTE :: ?l)) with l. rewrite take_app_length.
  by rewrite (literal_decodes s x) by (auto; lia).
Qed.

Lemma reads_literal s x : literal s x -> reads (quoted s) (stringValue (Some (cstr x))).
Proof.
  intros Hs. apply (reads_scalar _ DQUOTE (s ++ [DQUOTE]) _ tokenString); try done.
  - intros rest _. by apply (scan_literal s x).
  - intros rest r rv [_ Hv] _. cbn [read_token_value type_]. unfold decodeString.
    rewrite (decodeString_text_literal s x) by done. cbn [obind].
    unfold Value_of_string, ofmap; cbn [obind]. do 3 f_equal.
    apply (put_set (mk (stringValue (Some (cstr x))))); [|done].
    apply scalar_wf; [|reflexivity]. unfold payload_ok. apply cstr_no_nul.
Qed.

(** *** Values and their texts *)

(** A text that starts with neither a space, a slash nor a closing bracket. *)
Definition solid (t : bytes) : Prop :=
  match t with
  | c :: _ => is_space c = false /\ c <> "]"%char
  | [] => False
  end.

Lemma skipSpaces_solid t l : solid t -> skipSpaces (t ++ l) = t ++ l.
Proof. destruct t as [|c t]; cbn; [done|]. by intros [-> _]. Qed.

(** A text that reads as the value [v]. *)
Definition text_of (t : bytes) (v : Value) : Prop :=
  comments_ v = noComments /\ solid t /\ reads t (value_ v).

Lemma update_at_put f p p' l r :
  valid (top r) (root_ r) ->
  (forall c, f (mkValue c p) = Ok (mkValue c p')) ->
  update_at (top r) f (put p l r) = Ok (put p' l r).
Proof.
  intros [w Hw] Hf. unfold update_at, put at 1, with_current, with_root; cbn [root_].
  rewrite vget_vmodify_same, Hw. cbn [fmap option_fmap option_map]. unfold set_payload at 1.
  rewrite Hf. cbn [obind]. unfold put, with_current, with_root, top; cbn. do 2 f_equal.
  rewrite vmodify_compose. by apply (vmodify_ext _ _ _ _ w Hw).
Qed.

Lemma pop_put p l' e q path P l r :
  pop (put p l' (with_last e q (push path (put P l r))))
  = with_current l' (with_root (vmodify path (set_payload p)
      (vmodify (top r) (set_payload P) (root_ r))) (with_last e q r)).
Proof. by destruct r. Qed.

(** Reading an element through its reference. *)
Lemma read_child_put fuel k P P' t rest v r l :
  plain r -> text_of t v -> delimited rest -> (length t <= fuel)%nat ->
  (exists w, child k (mkValue noComments P) = Some w) ->
  (forall c, child_modify (set_payload (value_ v)) k (mkValue c P) = mkValue c P') ->
  skipSpaces l = t ++ rest ->
  exists e q, read_child (readValue fuel) k (put P l r)
              = Ok (true, put P' rest (with_last e q r)).
Proof.
  intros [Hcom [x Hx]] (_ & Hs & Hr) Hd Hf [w Hw] Hmod Hl. unfold read_child.
  destruct (Hr fuel (push (top (put P l r) ++ [k]) (put P l r)) rest) as (e & q & E); auto.
  - split; [exact Hcom|]. unfold valid, top, put; cbn.
    change (default [] (head (nodes_ r))) with (top r).
    rewrite vget_app, vget_vmodify_same, Hx. cbn. unfold child in *. cbn in *.
    destruct k, P; try done; rewrite Hw; by eexists.
  - exists e, q. rewrite E. cbn [obind]. do 2 f_equal.
    rewrite pop_put. unfold put. f_equal. apply (f_equal (fun v => with_root v _)).
    change (top (with_current ?l (with_root ?v r))) with (top r).
    change (top (with_last e q r)) with (top r). change (root_ (with_last e q r)) with (root_ r).
    rewrite vmodify_app, vmodify_compose. apply (vmodify_ext _ _ _ _ x Hx). cbn. apply Hmod.
Qed.

Lemma put_with_last e v p l r : with_last e v (put p l r) = put p l (with_last e v r).
Proof. done. Qed.

Lemma plain_last e v r : plain r -> plain (with_last e v r).
Proof. done. Qed.

End Scalars.
