(* ===== verification/JsonDocuments.v ===== *)
(** * JSON documents and the values they denote

    [document t v] is the grammar of JSON texts with blanks wherever the
    standard allows them, together with the [Json::Value] that a text denotes:
    arrays number their elements, objects keep the last of the members that
    share a name.  The reader, started on a document, leaves that value. *)

From stdpp Require Import tactics.
From S2P Require Import Prelude OrdMap Doubles JsonValue JsonPaths JsonWriter JsonReader.
From S2P Require Import JsonReaderFacts JsonScalars.

#[local] Arguments assign : simpl never.

(** ** The grammar *)

Definition blanks (w : bytes) : Prop := Forall (fun c => is_space c = true) w.

(** A text between blanks. *)
Inductive padded {A} (P : bytes -> A -> Prop) : bytes -> A -> Prop :=
| padded_intro w t a w' : blanks w -> P t a -> blanks w' -> padded P (w ++ t ++ w') a.

(** One or more items with commas between them. *)
Inductive separated {A} (P : bytes -> A -> Prop) : bytes -> list A -> Prop :=
| separated_one s a : P s a -> separated P s [a]
| separated_more s a s' l :
    P s a -> separated P s' l -> separated P (s ++ ","%char :: s') (a :: l).

(** A name, a colon and a value. *)
Inductive member {A} (P : bytes -> A -> Prop) : bytes -> bytes * A -> Prop :=
| member_intro s k w t a :
    literal s k -> blanks w -> padded P t a -> member P (quoted s ++ w ++ ":"%char :: t) (k, a).

Arguments padded_intro {A P} w t a w' _ _ _.
Arguments separated_one {A P} s a _.
Arguments separated_more {A P} s a s' l _ _.
Arguments member_intro {A P} s k w t a _ _ _.

Section Documents.
Context {D : DoubleOps}.

(** The contents of an array and of an object with the given items. *)
Fixpoint indexed (i : Z) (vs : list Value) : list (Z * Value) :=
  match vs with
  | [] => []
  | v :: vs' => (i, v) :: indexed (i + 1) vs'
  end.

Definition object_of (ms : list (bytes * Value)) : list (bytes * Value) :=
  fold_left (fun m kv => om_set (cstr kv.1) kv.2 m) ms [].

Inductive document : bytes -> Value -> Prop :=
| document_null : document (bs "null") (mk nullValue)
| document_bool b : document (valueToString_bool b) (mk (booleanValue b))
| document_number t p : number t p -> document t (mk p)
| document_string s x : literal s x -> document (quoted s) (mk (stringValue (Some (cstr x))))
| document_empty_array w :
    blanks w -> document ("["%char :: w ++ bs "]") (mk (arrayValue []))
| document_array s vs :
    separated (padded document) s vs -> Z.of_nat (length vs) <= INT_MAX ->
    document ("["%char :: s ++ bs "]") (mk (arrayValue (indexed 0 vs)))
| document_empty_object w :
    blanks w -> document ("{"%char :: w ++ bs "}") (mk (objectValue []))
| document_object s ms :
    separated (padded (member document)) s ms ->
    document ("{"%char :: s ++ bs "}") (mk (objectValue (object_of ms))).

(** ** Induction on documents *)

Section Induction.
Context (Q : bytes -> Value -> Prop).
Context (Q_null : Q (bs "null") (mk nullValue)).
Context (Q_bool : forall b, Q (valueToString_bool b) (mk (booleanValue b))).
Context (Q_number : forall t p, number t p -> Q t (mk p)).
Context (Q_string : forall s x, literal s x -> Q (quoted s) (mk (stringValue (Some (cstr x))))).
Context (Q_empty_array : forall w, blanks w -> Q ("["%char :: w ++ bs "]") (mk (arrayValue []))).
Context (Q_array : forall s vs,
  separated (padded Q) s vs -> Z.of_nat (length vs) <= INT_MAX ->
  Q ("["%char :: s ++ bs "]") (mk (arrayValue (indexed 0 vs)))).
Context (Q_empty_object : forall w, blanks w -> Q ("{"%char :: w ++ bs "}") (mk (objectValue []))).
Context (Q_object : forall s ms,
  separated (padded (member Q)) s ms -> Q ("{"%char :: s ++ bs "}") (mk (objectValue (object_of ms)))).

Definition padded_map {A} {P P' : bytes -> A -> Prop} (f : forall t a, P t a -> P' t a)
  s a (H : padded P s a) : padded P' s a :=
  match H with padded_intro w t a w' Hw Ht Hw' => padded_intro w t a w' Hw (f t a Ht) Hw' end.

Definition member_map {A} {P P' : bytes -> A -> Prop} (f : forall t a, P t a -> P' t a)
  s kv (H : member P s kv) : member P' s kv :=
  match H with
  | member_intro s k w t a Hs Hw Ht => member_intro s k w t a Hs Hw (padded_map f t a Ht)
  end.

Definition separated_map {A} {P P' : bytes -> A -> Prop} (f : forall t a, P t a -> P' t a) :=
  fix go s l (H : separated P s l) : separated P' s l :=
    match H with
    | separated_one s a Ha => separated_one s a (f s a Ha)
    | separated_more s a s' l Ha Hl => separated_more s a s' l (f s a Ha) (go s' l Hl)
    end.

Fixpoint document_induction t v (H : document t v) : Q t v :=
  match H with
  | document_null => Q_null
  | document_bool b => Q_bool b
  | document_number t p H => Q_number t p H
  | document_string s x H => Q_string s x H
  | document_empty_array w H => Q_empty_array w H
  | document_array s vs H Hl => Q_array s vs (separated_map (padded_map document_induction) s vs H) Hl
  | document_empty_object w H => Q_empty_object w H
  | document_object s ms H => Q_object s ms 
      (separated_map (padded_map (member_map document_induction)) s ms H)
  end.

End Induction.

(** ** Blanks *)

Lemma skipSpaces_blanks w l : blanks w -> skipSpaces (w ++ l) = skipSpaces l.
Proof. induction 1 as [|c w Hc _ IH]; [done|]. cbn. by rewrite Hc. Qed.

Lemma skipSpaces_stop w c l : blanks w -> is_space c = false -> skipSpaces (w ++ c :: l) = c :: l.
Proof. intros Hw Hc. rewrite skipSpaces_blanks by done. cbn. by rewrite Hc. Qed.

Lemma space_delimits c : is_space c = true -> is_number_char c = false.
Proof.
  intros (y & Hy & ->%Ascii.eqb_eq)%existsb_exists. cbn in Hy.
  by destruct Hy as [<-|[<-|[<-|[<-|[]]]]].
Qed.

Lemma delimited_blanks w c l : blanks w -> is_number_char c = false -> delimited (w ++ c :: l).
Proof. intros [|x w' Hx _] Hc; [done|]. by apply space_delimits. Qed.

Lemma blanks_delimited w : blanks w -> delimited w.
Proof. intros [|x w' Hx _]; [done|]. by apply space_delimits. Qed.

(** ** Lists of items *)

Lemma separated_cons {A} (P : bytes -> A -> Prop) s a l : separated P s (a :: l) ->
  exists s1, P s1 a /\ ((l = [] /\ s = s1) \/ exists s2, s = s1 ++ ","%char :: s2 /\ separated P s2 l).
Proof. inversion 1; subst; eauto 10. Qed.

Lemma separated_not_nil {A} (P : bytes -> A -> Prop) s l : separated P s l -> l <> [].
Proof. by intros []. Qed.

(** The first item of a list in front of the closing bracket [z]: what follows
    it is the bracket, or a comma and the rest of the list. *)
Lemma separated_first {A} (P : bytes -> A -> Prop) s a l z rest : separated P s (a :: l) ->
  exists s1 c tail, P s1 a /\ s ++ z :: rest = s1 ++ c :: tail /\ (length s1 <= length s)%nat
    /\ ((c = z /\ tail = rest /\ l = [])
        \/ c = ","%char /\ exists s2, tail = s2 ++ z :: rest /\ separated P s2 l
                                     /\ (length s2 <= length s)%nat).
Proof.
  intros (s1 & Hs1 & [[-> ->]|(s2 & -> & Hs2)])%separated_cons.
  - exists s1, z, rest. auto 10.
  - exists s1, ","%char, (s2 ++ z :: rest). rewrite <- app_assoc, !length_app. cbn.
    split_and!; [done|done|lia|]. right. split; [done|]. exists s2. split_and!; [done|done|lia].
Qed.

Lemma separated_length {A} (P : bytes -> A -> Prop) s l :
  (forall t a, P t a -> t <> []) -> separated P s l -> (length l <= length s)%nat.
Proof.
  intros HP. induction 1 as [s a Ha|s a s' l Ha _ IH].
  - apply HP in Ha. destruct s; [done|cbn; lia].
  - rewrite length_app. cbn. lia.
Qed.

(** ** Arrays *)

Lemma indexed_app i vs ws :
  indexed i (vs ++ ws) = indexed i vs ++ indexed (i + Z.of_nat (length vs)) ws.
Proof.
  revert i. induction vs as [|v vs IH]; intros i; cbn [app indexed length].
  - f_equal. lia.
  - rewrite IH. do 3 f_equal. lia.
Qed.

Lemma indexed_dense i vs : dense_from i (indexed i vs).
Proof. revert i. by induction vs as [|v vs IH]; cbn. Qed.

Lemma indexed_length i vs : length (indexed i vs) = length vs.
Proof. revert i. induction vs as [|v vs IH]; intros i; cbn; [done|]. by rewrite IH. Qed.

Lemma indexed_below vs : below (indexed 0 vs) (Z.of_nat (length vs)).
Proof.
  pose proof (indexed_dense 0 (vs ++ [null])) as H. rewrite indexed_app in H. cbn [indexed] in H.
  by apply dense_from_below in H as [_ H].
Qed.

Definition item_text (t : bytes) (v : Value) : Prop := padded text_of t v.

Lemma text_not_nil t v : text_of t v -> t <> [].
Proof. by intros (_ & Hs & _) ->. Qed.

Lemma item_not_nil t v : padded text_of t v -> t <> [].
Proof.
  intros [w t' v' w' _ Ht%text_not_nil _] [_ [E _]%app_eq_nil]%app_eq_nil. done.
Qed.

Lemma item_start w t v l : blanks w -> text_of t v -> skipSpaces (w ++ t ++ l) = t ++ l.
Proof.
  intros Hw (_ & Hs & _). rewrite skipSpaces_blanks by done. by apply skipSpaces_solid.
Qed.

Lemma array_slot vs v :
  om_alter (set_payload (value_ v)) (Z.of_nat (length vs)) (indexed 0 (vs ++ [null]))
  = indexed 0 (vs ++ [mkValue noComments (value_ v)]).
Proof.
  rewrite !indexed_app. cbn [indexed]. rewrite Z.add_0_l.
  rewrite om_alter_below_app by apply indexed_below. done.
Qed.

(** The punctuation between items, behind blanks. *)
Lemma readToken_mark c type w tail P r :
  is_space c = false -> c <> "/"%char -> (forall l, scan_token c l = (type, (true, l))) -> blanks w ->
  readToken (put P (w ++ c :: tail) r)
  = Ok (true, mkToken type (c :: tail) tail, put P tail r).
Proof.
  intros Hs Hc Hscan Hw. rewrite (readToken_scan c tail); [by rewrite Hscan| |done].
  by apply skipSpaces_stop.
Qed.

Lemma text_of_eta t v : text_of t v -> mkValue noComments (value_ v) = v.
Proof. destruct v as [c p]. intros [Hc _]. cbn in *. by subst. Qed.

Lemma readArray_loop_document fuel vs :
  forall s, separated (padded text_of) s vs ->
  forall n us r rest l, plain r -> Z.of_nat (length (us ++ vs)) <= INT_MAX ->
  (length vs <= n)%nat -> (length s <= fuel)%nat ->
  skipSpaces l = skipSpaces (s ++ "]"%char :: rest) ->
  exists e q, readArray_loop (readValue fuel) n (Z.of_nat (length us)) (put (arrayValue (indexed 0 us)) l r)
              = Ok (true, put (arrayValue (indexed 0 (us ++ vs))) rest (with_last e q r)).
Proof.
  induction vs as [|v vs IH]; intros s H [|n] us r rest l Hp Hlen Hn Hf Hl;
    try (by apply separated_not_nil in H); [cbn in Hn; lia|].
  destruct (separated_first _ s v vs "]"%char rest H) as (s1 & c & tail & [w t v' w' Hw Ht Hw'] & E & Hs1 & Hc).
  rewrite E, <- !app_assoc in Hl. rewrite (item_start w t v') in Hl by done.
  rewrite length_app in Hlen. cbn [length] in Hlen.
  assert (Hi : is_int32 (Z.of_nat (length us))) by (unfold is_int32, INT_MIN, INT_MAX in *; lia).
  assert (is_number_char c = false) as Hz.
  { by destruct Hc as [(-> & _)|(-> & _)]. }
  cbn [readArray_loop]. rewrite put_top, (update_at_put _ _ (arrayValue (indexed 0 (us ++ [null])))); [|apply Hp|].
  2: { intros c'. rewrite index_ref_put by (done || apply indexed_below).
       by rewrite indexed_app. }
  cbn [obind]. rewrite to_int32_id by done.
  destruct (read_child_put fuel (AtIndex (Z.of_nat (length us))) (arrayValue (indexed 0 (us ++ [null])))
    (arrayValue (indexed 0 (us ++ [v']))) t (w' ++ c :: tail) v' r l) as (x & y & E'); auto.
  { by apply delimited_blanks. }
  { rewrite !length_app in Hs1. lia. }
  { exists null. rewrite indexed_app. cbn [indexed]. apply (om_find_below_app _ null _ []), indexed_below. }
  { intros c'. cbn. by rewrite array_slot, (text_of_eta t). }
  rewrite E'. cbn [obind negb]. change (v' :: vs) with ([v'] ++ vs). rewrite app_assoc.
  destruct Hc as [(-> & -> & ->)|(-> & s2 & -> & Hs2 & Hlen2)].
  - rewrite (readToken_mark "]" tokenArrayEnd) by done. cbn [obind].
    rewrite drop_comments_none by done. cbn. rewrite app_nil_r. by eexists _, _.
  - rewrite (readToken_mark "," tokenArraySeparator) by done. cbn [obind].
    rewrite drop_comments_none by done. cbn [obind type_ negb].
    rewrite (bool_decide_false (tokenArraySeparator = tokenArrayEnd)), andb_false_r by done.
    cbn [orb]. rewrite decide_False by done.
    destruct (IH s2 Hs2 n (us ++ [v']) (with_last x y r) rest (s2 ++ "]"%char :: rest)) as (e & q & E'');
      try done.
    + rewrite !length_app in *. cbn in *. lia.
    + cbn in *. lia.
    + lia.
    + exists e, q. rewrite length_app in E''. cbn [length] in E''.
      replace (Z.of_nat (length us) + 1) with (Z.of_nat (length us + 1)) by lia. by rewrite E''.
Qed.

(** ** Objects *)

Definition bare (m : list (bytes * Value)) : Prop :=
  Forall (fun kv => comments_ kv.2 = noComments) m.

(** Touching a member and reading its payload is an assignment. *)
Lemma set_slot k v m : bare m -> comments_ v = noComments ->
  om_alter (set_payload (value_ v)) k (om_touch k null m) = om_set k v m.
Proof.
  intros Hm Hv. unfold om_set.
  assert (Hp : forall u, comments_ u = noComments -> set_payload (value_ v) u = v).
  { intros u Hu. unfold set_payload. rewrite Hu, <- Hv. by destruct v. }
  induction m as [|[k' u] m IH]; cbn [om_touch om_alter].
  - case_eq (kcmp k k); intros E; [by rewrite Hp| |]; by rewrite kcmp_refl in E.
  - apply Forall_cons_1 in Hm as [Hu Hm]. cbn in Hu.
    destruct (kcmp k k') eqn:E; cbn [om_alter]; rewrite ?E, ?kcmp_refl, ?Hp by done; try done.
    by rewrite IH.
Qed.

Lemma bare_touch k v m : bare m -> comments_ v = noComments -> bare (om_touch k v m).
Proof.
  intros Hm Hv. unfold bare. induction Hm as [|[k' u] m Hu Hm IH]; cbn [om_touch]; [by repeat constructor|].
  destruct (kcmp k k'); by repeat constructor.
Qed.

Lemma bare_set k v m : bare m -> comments_ v = noComments -> bare (om_set k v m).
Proof.
  intros Hm Hv. apply (bare_touch k v) in Hm; [|done]. unfold om_set, bare.
  induction Hm as [|[k' u] m' Hu Hm' IH]; cbn [om_alter]; [constructor|].
  destruct (kcmp k k'); by repeat constructor.
Qed.

Lemma readToken_literal s k l rest P r :
  literal s k -> skipSpaces l = quoted s ++ rest ->
  readToken (put P l r)
  = Ok (true, mkToken tokenString (quoted s ++ rest) rest, put P rest r).
Proof.
  intros Hs Hl. rewrite (readToken_scan DQUOTE ((s ++ [DQUOTE]) ++ rest)); [|exact Hl|done].
  by rewrite (scan_literal s k).
Qed.

Lemma member_not_nil {A} (P : bytes -> A -> Prop) t kv : padded (member P) t kv -> t <> [].
Proof. intros [w t' a w' _ [s k u x v _ _ _] _] [_ [E _]%app_eq_nil]%app_eq_nil. done. Qed.

Lemma member_slot k m : exists w, child (AtMember k) (mkValue noComments (objectValue (om_touch k null m))) = Some w.
Proof. cbn. rewrite om_find_touch_eq. by eexists. Qed.

Lemma readObject_loop_document fuel ms :
  forall s, separated (padded (member text_of)) s ms ->
  forall n name m r rest l, plain r -> bare m ->
  (length ms <= n)%nat -> (length s <= fuel)%nat -> skipSpaces l = skipSpaces (s ++ "}"%char :: rest) ->
  exists e q, readObject_loop (readValue fuel) n name (put (objectValue m) l r)
              = Ok (true, put (objectValue (fold_left (fun m kv => om_set (cstr kv.1) kv.2 m) ms m)) rest
                            (with_last e q r)).
Proof.
  induction ms as [|[k v] ms IH]; intros s H [|n] name m r rest l Hp Hm Hn Hf Hl;
    try (by apply separated_not_nil in H); [cbn in Hn; lia|].
  destruct (separated_first _ s (k, v) ms "}"%char rest H) as (s1 & c & tail & Hi & E & Hs1 & Hc).
  inversion Hi as [w t kv w' Hw [s2 k' u t' v' Hs2 Hu [w2 t2 v2 w3 Hw2 Ht Hw3]] Hw' Es Ekv]; subst; clear Hi.
  assert (is_number_char c = false) as Hz by (by destruct Hc as [(-> & _)|(-> & _)]).
  set (tail' := w3 ++ w' ++ c :: tail).
  assert (Hl' : skipSpaces l = quoted s2 ++ u ++ ":"%char :: w2 ++ t2 ++ tail').
  { rewrite Hl, E. unfold tail'. repeat (rewrite <- app_assoc || cbn [app]).
    by rewrite skipSpaces_blanks. }
  rewrite !length_app in Hs1. cbn [length] in Hs1. rewrite !length_app in Hs1.
  cbn [readObject_loop]. rewrite (readToken_literal s2 k l _ _ _ Hs2 Hl'). cbn [obind].
  rewrite drop_comments_none by done. cbn [obind negb orb type_].
  rewrite (bool_decide_false (tokenString = tokenObjectEnd)) by done.
  rewrite (bool_decide_true (tokenString = tokenString)) by done. cbn [andb negb].
  rewrite (decodeString_text_literal s2 k) by done. cbn [obind].
  rewrite (readToken_mark ":" tokenMemberSeparator) by done. cbn [obind type_].
  rewrite bool_decide_true by done. cbn [negb orb]. rewrite put_top.
  rewrite (update_at_put _ _ (objectValue (om_touch (cstr k) null m))) by (done || apply Hp).
  cbn [obind].
  destruct (read_child_put fuel (AtMember (cstr k)) (objectValue (om_touch (cstr k) null m))
    (objectValue (om_set (cstr k) v m)) t2 tail' v r (w2 ++ t2 ++ tail')) as (x & y & E'); auto.
  { unfold tail'. rewrite app_assoc. apply delimited_blanks; [by apply Forall_app|done]. }
  { lia. }
  { apply member_slot. }
  { intros c'. cbn [child_modify value_ comments_]. f_equal. f_equal. apply set_slot; [done|apply Ht]. }
  { by apply item_start with v. }
  rewrite E'. cbn [obind negb]. unfold tail'. rewrite app_assoc.
  assert (Hb : bare (om_set (cstr k) v m)) by (apply bare_set; [done|apply Ht]).
  assert (blanks (w3 ++ w')) by (by apply Forall_app).
  destruct Hc as [(-> & -> & ->)|(-> & s3 & -> & Hs3 & Hlen3)].
  - rewrite (readToken_mark "}" tokenObjectEnd) by done. cbn [obind].
    rewrite drop_comments_none by done. cbn. by eexists _, _.
  - rewrite (readToken_mark "," tokenArraySeparator) by done.
    cbn [obind type_]. rewrite (bool_decide_false (tokenArraySeparator = tokenObjectEnd)) by done.
    rewrite (bool_decide_true (tokenArraySeparator = tokenArraySeparator)) by done.
    cbn [negb andb orb]. rewrite drop_comments_none by done. cbn [obind type_].
    rewrite decide_False by done.
    destruct (IH s3 Hs3 n k (om_set (cstr k) v m) (with_last x y r) rest (s3 ++ "}"%char :: rest))
      as (e & q & E''); try done; [cbn in Hn; lia|lia|].
    exists e, q. by rewrite E''.
Qed.

(** ** Whole documents *)

Lemma reads_container t c l type p :
  t = c :: l -> c <> "/"%char -> type <> tokenComment ->
  (forall l', scan_token c l' = (type, (true, l'))) ->
  (forall fuel r rest, plain r -> delimited rest -> (length l <= fuel)%nat ->
     exists e v, read_token_value (readValue fuel) (mkToken type (t ++ rest) (l ++ rest))
                   (with_current (l ++ rest) r)
                 = Ok (inr (true, put p rest (with_last e v r)))) ->
  reads t p.
Proof.
  intros -> Hc Ht Hscan Hval [|fuel] r rest Hp Hd Hf Hs; [cbn in Hf; lia|].
  rewrite (readValue_scan fuel c (l ++ rest) r type (l ++ rest)) by auto.
  destruct (Hval fuel r rest Hp Hd) as (e & v & E); [cbn in Hf; lia|].
  change (c :: l ++ rest) with ((c :: l) ++ rest). rewrite E. cbn [obind].
  destruct (record_last p rest (with_last e v r)) as (e' & v' & E'). exists e', v'.
  exact (f_equal (fun x => Ok (true, x)) E').
Qed.

Lemma last_self r : with_last (lastValueEnd_ r) (lastValue_ r) r = r.
Proof. by destruct r. Qed.

(** The first element starts with a character that does not close the array,
    and the blanks before it are not needed to bound the number of elements. *)
Lemma first_element s vs rest : separated (padded text_of) s vs ->
  exists c l, skipSpaces (s ++ rest) = c :: l /\ c <> "]"%char /\ (length vs <= length (c :: l))%nat.
Proof.
  assert (Hi : forall s1 v l, padded text_of s1 v -> exists c l',
    skipSpaces (s1 ++ l) = c :: l' /\ c <> "]"%char /\ (length l <= length l')%nat).
  { intros s1 v l [w t a w' Hw Ht Hw']. rewrite <- !app_assoc, (item_start w t a) by done.
    destruct Ht as (_ & Hs & _). destruct t as [|c t]; [done|]. destruct Hs as [Hc Hb].
    exists c, (t ++ w' ++ l). rewrite !length_app. split_and!; [done|done|lia]. }
  intros [s1 v Hv|s1 v s2 l Hv Hl%(separated_length _ _ _ item_not_nil)].
  - destruct (Hi s1 v rest Hv) as (c & l' & E & Hc & _). exists c, l'. split_and!; [done|done|cbn; lia].
  - rewrite <- app_assoc. destruct (Hi s1 v ((","%char :: s2) ++ rest) Hv) as (c & l' & E & Hc & Hlen).
    exists c, l'. cbn [app length] in *. rewrite length_app in Hlen. split_and!; [done|done|lia].
Qed.

Lemma skipSpaces_idem l : skipSpaces (skipSpaces l) = skipSpaces l.
Proof. induction l as [|c l IH]; [done|]. cbn. destruct (is_space c) eqn:E; [done|]. cbn. by rewrite E. Qed.

Lemma text_array s vs :
  separated (padded text_of) s vs -> Z.of_nat (length vs) <= INT_MAX ->
  reads ("["%char :: s ++ bs "]") (arrayValue (indexed 0 vs)).
Proof.
  intros Hs Hlen. apply (reads_container _ "[" (s ++ bs "]") tokenArrayBegin); try done.
  intros fuel r rest Hp Hdl Hf. cbn [read_token_value type_]. unfold readArray.
  rewrite (put_set (Value_of_type TarrayValue)) by (try apply Hp; apply Value_of_type_wf).
  rewrite length_app in Hf. rewrite <- app_assoc. change (bs "]" ++ rest) with ("]"%char :: rest).
  destruct (first_element s vs ("]"%char :: rest) Hs) as (c & l & E & Hb & Hn).
  change (current_ (put _ ?l _)) with l. rewrite put_current. change (current_ (put _ ?l _)) with l.
  rewrite E. cbn [deref]. rewrite (ascii_eqb_ne _ _ Hb).
  destruct (readArray_loop_document fuel vs s Hs (loop_bound (put (arrayValue []) (c :: l) r))
              [] r rest (c :: l)) as (e & q & E'); try done.
  - unfold loop_bound. change (current_ (put _ ?l _)) with l. lia.
  - lia.
  - by rewrite <- E, skipSpaces_idem.
  - exists e, q. exact (f_equal (ofmap inr) E').
Qed.

Lemma text_empty_array w : blanks w -> reads ("["%char :: w ++ bs "]") (arrayValue []).
Proof.
  intros Hw. apply (reads_container _ "[" (w ++ bs "]") tokenArrayBegin); try done.
  intros fuel r rest Hp Hdl Hf. cbn [read_token_value type_]. unfold readArray.
  rewrite (put_set (Value_of_type TarrayValue)) by (try apply Hp; apply Value_of_type_wf).
  rewrite <- app_assoc. change (current_ (put _ ?l _)) with l. rewrite put_current.
  change (bs "]" ++ rest) with ("]"%char :: rest). rewrite skipSpaces_stop by done.
  change (Ascii.eqb (deref (current_ (put _ ("]"%char :: rest) _))) "]") with true. cbn match.
  change ("]"%char :: rest) with ([] ++ "]"%char :: rest).
  rewrite (readToken_mark "]" tokenArrayEnd) by (done || constructor). cbn [obind].
  exists (lastValueEnd_ r), (lastValue_ r). by rewrite last_self.
Qed.

Lemma text_object s ms :
  separated (padded (member text_of)) s ms ->
  reads ("{"%char :: s ++ bs "}") (objectValue (object_of ms)).
Proof.
  intros Hs. apply (reads_container _ "{" (s ++ bs "}") tokenObjectBegin); try done.
  intros fuel r rest Hp Hdl Hf. cbn [read_token_value type_]. unfold readObject.
  rewrite (put_set (Value_of_type TobjectValue)) by (try apply Hp; apply Value_of_type_wf).
  rewrite length_app in Hf. rewrite <- app_assoc. change (bs "}" ++ rest) with ("}"%char :: rest).
  destruct (readObject_loop_document fuel ms s Hs
              (loop_bound (put (objectValue []) (s ++ "}"%char :: rest) r)) [] [] r rest
              (s ++ "}"%char :: rest)) as (e & q & E'); try done.
  - constructor.
  - unfold loop_bound. change (current_ (put _ ?l _)) with l. rewrite length_app.
    pose proof (separated_length _ s ms (member_not_nil text_of) Hs). lia.
  - lia.
  - exists e, q. exact (f_equal (ofmap inr) E').
Qed.

Lemma text_empty_object w : blanks w -> reads ("{"%char :: w ++ bs "}") (objectValue []).
Proof.
  intros Hw. apply (reads_container _ "{" (w ++ bs "}") tokenObjectBegin); try done.
  intros fuel r rest Hp Hdl Hf. cbn [read_token_value type_]. unfold readObject.
  rewrite (put_set (Value_of_type TobjectValue)) by (try apply Hp; apply Value_of_type_wf).
  rewrite <- app_assoc. change (bs "}" ++ rest) with ("}"%char :: rest).
  unfold loop_bound. cbn [readObject_loop]. rewrite (readToken_mark "}" tokenObjectEnd) by done.
  cbn [obind]. rewrite drop_comments_none by done. cbn [obind negb orb type_].
  rewrite !bool_decide_true by done. cbn [andb].
  exists (lastValueEnd_ r), (lastValue_ r). by rewrite last_self.
Qed.

Lemma digit_solid c : is_digit c = true \/ c = "-"%char -> is_space c = false /\ c <> "]"%char.
Proof. intros [Hc| ->]; [|done]. split; [by apply digit_not_in|by apply digit_ne]. Qed.

(** Every document reads as the value it denotes. *)
Lemma document_text t v : document t v -> text_of t v.
Proof.
  revert t v. apply (document_induction text_of).
  - split; [done|split; [done|apply reads_null]].
  - intros b. split; [done|split; [by destruct b|apply reads_bool]].
  - intros t p H. destruct (number_start t p H) as (c & l & -> & Hc & _).
    split; [done|split; [by apply digit_solid|by apply reads_number]].
  - intros s x H. split; [done|split; [done|by apply reads_literal]].
  - intros w H. split; [done|split; [done|by apply text_empty_array]].
  - intros s vs H Hl. split; [done|split; [done|by apply text_array]].
  - intros w H. split; [done|split; [done|by apply text_empty_object]].
  - intros s ms H. split; [done|split; [done|by apply text_object]].
Qed.

(** The end of a document: only blanks are left, and no comment. *)
Lemma read_past_blanks w r : blanks w -> current_ r = w ->
  exists token, skipCommentTokens r = Ok (token, with_current [] r).
Proof.
  intros Hw Hr.
  assert (Ht : readToken r = Ok (true, mkToken tokenEndOfStream [] [], with_current [] r)).
  { unfold readToken. rewrite Hr, <- (app_nil_r w), skipSpaces_blanks by done. done. }
  exists (mkToken tokenEndOfStream [] []). unfold skipCommentTokens.
  destruct (allowComments_ _); cbn [read_past_comments loop_bound]; by rewrite Ht.
Qed.

Definition strict_ok (features : Features) (v : Value) : Prop :=
  strictRoot_ features = true -> isArray v = true \/ isObject v = true.

Lemma parse_document features collect doc v root :
  padded document doc v -> strict_ok features v ->
  exists r, parse features doc (mkValue noComments root) collect = Ok (true, r)
    /\ root_ r = v /\ errors_ r = [].
Proof.
  intros [w t v' w' Hw Ht%document_text Hw'] Hstrict. unfold parse, parse_with.
  set (r0 := parse_start _ _ _ _). pose proof Ht as (Hc & Hs & Hr).
  destruct (Hr (parse_fuel (w ++ t ++ w')) r0 w') as (e & q & E).
  - split; [done|by eexists].
  - by apply blanks_delimited.
  - unfold parse_fuel. rewrite !length_app. lia.
  - by apply (item_start w t v').
  - rewrite E. cbn [obind].
    destruct (read_past_blanks w' (put (value_ v') w' (with_last e q r0))) as [token ->]; [done|done|].
    cbn [obind]. change (commentsBefore_ (with_current _ _)) with (@nil ascii).
    rewrite (bool_decide_true ([] = [])), andb_false_r by done. cbn [negb obind].
    assert (Hv : root_ (with_current [] (put (value_ v') w' (with_last e q r0))) = v').
    { change (mkValue noComments (value_ v') = v'). by rewrite (text_of_eta t). }
    rewrite Hv. exists (with_current [] (put (value_ v') w' (with_last e q r0))).
    split; [|by rewrite Hv]. destruct (strictRoot_ features) eqn:Es; [|done].
    by destruct (Hstrict Es) as [-> | ->]; rewrite ?andb_false_r.
Qed.

End Documents.
