(* ===== verification/JsonRoundtrip.v ===== *)
(** * What [FastWriter] writes is a document

    The text that the writer produces for a value is a document in the sense of
    JsonDocuments, and the value it denotes is the value that was written. *)

From stdpp Require Import tactics.
From S2P Require Import Prelude OrdMap Doubles JsonValue JsonPaths JsonWriter JsonReader.
From S2P Require Import JsonReaderFacts JsonScalars JsonDocuments.

#[local] Arguments assign : simpl never.

Section Roundtrip.
Context {D : DoubleOps}.

(** ** Values that survive the text form

    No floating point numbers, no comments, arrays without holes; integers
    outside the bands the number decoder turns into doubles, unsigned integers
    that are not also [int]s. *)

Inductive writable : Value -> Prop :=
| writable_null : writable (mk nullValue)
| writable_bool b : writable (mk (booleanValue b))
| writable_int i : -2147483640 < i <= INT_MAX -> writable (mk (intValue i))
| writable_uint u : INT_MAX < u <= 4294967289 -> writable (mk (uintValue u))
| writable_string s : no_nul s -> writable (mk (stringValue (Some s)))
| writable_array m :
    dense_map m -> Forall writable (om_values m) -> writable (mk (arrayValue m))
| writable_object m :
    om_wf m -> Forall no_nul (om_keys m) -> Z.of_nat (length m) <= INT_MAX ->
    Forall writable (om_values m) -> writable (mk (objectValue m)).

Lemma writable_wf v : writable v -> Value_wf v.
Proof.
  induction v as [c p IH] using Value_induction. intros H.
  assert (Hall : Forall writable (children p) -> Forall Value_wf (children p)).
  { clear -IH. induction IH; intros Hw; [constructor|]. apply Forall_cons_1 in Hw as []. constructor; auto. }
  revert IH Hall. remember (mkValue c p) as v eqn:Ev. intros _.
  destruct H as [|b|i Hi|u Hu|s Hs|m Hd Hm|m Hw Hk Hn Hm]; injection Ev as <- <-; intros Hall.
  - by apply scalar_wf.
  - by apply scalar_wf.
  - apply scalar_wf; [|reflexivity]. unfold payload_ok, is_int32, INT_MIN, INT_MAX in *. lia.
  - apply scalar_wf; [|reflexivity]. unfold payload_ok, is_uint32, UINT_MAX, INT_MAX in *. lia.
  - by apply scalar_wf.
  - constructor; [apply noComments_ok| |by apply Hall].
    split; [|by apply dense_keys_int32]. destruct Hd as [Hd _]. by eapply dense_from_wf.
  - constructor; [apply noComments_ok|by split|by apply Hall].
Qed.

(** ** The text of a container *)

(** The texts of the elements, with the separators between them. *)
Fixpoint joined (first : bool) (ts : list bytes) : bytes :=
  match ts with
  | [] => []
  | t :: ts' => (if first then [] else bs ",") ++ t ++ joined false ts'
  end.

Fixpoint joined_members (yaml first : bool) (names ts : list bytes) : bytes :=
  match names, ts with
  | name :: names', t :: ts' =>
      (if first then [] else bs ",") ++ valueToQuotedString name
        ++ bs (if yaml then ": " else ":") ++ t ++ joined_members yaml false names' ts'
  | _, _ => []
  end.

(** ** The writer's side *)

(** What the writer has computed for the children of a container. *)
Definition written {K} (yaml : bool) (m : list (K * Value)) : list (K * outcome bytes) :=
  map (fun kv => (fst kv, writeValue yaml (snd kv))) m.

Lemma written_find {K} `{KeyOrd K} yaml m1 (k : K) v m2 :
  om_wf (m1 ++ (k, v) :: m2) ->
  om_find k (written yaml (m1 ++ (k, v) :: m2)) = Some (writeValue yaml v).
Proof.
  intros Hw. unfold written. rewrite map_app. cbn [map fst snd]. apply om_find_below_app.
  apply om_wf_app_below in Hw. unfold below in *. rewrite Forall_map. exact Hw.
Qed.

Lemma write_elements_joined yaml m2 ts :
  Forall2 (fun kv t => writeValue yaml kv.2 = Ok t) m2 ts ->
  forall m1, dense_map (m1 ++ m2) ->
  write_elements (length m2) (Z.of_nat (length m1)) (written yaml (m1 ++ m2))
  = Ok (joined (bool_decide (m1 = [])) ts).
Proof.
  induction 1 as [|[k v] t m2 ts Ht Hts IH]; intros m1 Hd; [done|].
  destruct Hd as [Hd Hlen]. pose proof (dense_from_below 0 m1 k v m2 Hd) as [Hk Hb].
  rewrite Z.add_0_l in Hk. subst k.
  cbn [write_elements length]. rewrite to_int32_id.
  2: { rewrite length_app in Hlen. unfold is_int32, INT_MIN, INT_MAX in *. lia. }
  rewrite written_find by (by apply (dense_from_wf 0)). cbn [default obind] in *.
  cbn in Ht. change (default (Ok (bs "null")) (Some (writeValue yaml v))) with (writeValue yaml v).
  rewrite Ht. cbn [obind].
  specialize (IH (m1 ++ [(Z.of_nat (length m1), v)])). rewrite <- app_assoc in IH.
  rewrite length_app in IH. cbn [length app] in IH.
  replace (Z.of_nat (length m1) + 1) with (Z.of_nat (length m1 + 1)) by lia.
  rewrite IH by done. cbn [obind joined].
  rewrite (bool_decide_false (m1 ++ _ = [])) by (by destruct m1).
  by destruct m1.
Qed.

Lemma write_members_joined yaml m2 ts :
  Forall2 (fun kv t => writeValue yaml kv.2 = Ok t) m2 ts ->
  forall m1 first, om_wf (m1 ++ m2) -> Forall no_nul (om_keys m2) ->
  write_members yaml first (om_keys m2) (written yaml (m1 ++ m2))
  = Ok (joined_members yaml first (om_keys m2) ts).
Proof.
  induction 1 as [|[k v] t m2 ts Ht Hts IH]; intros m1 first Hw Hk; [done|].
  cbn [om_keys map fst write_members joined_members] in *. change (map fst m2) with (om_keys m2) in *.
  apply Forall_cons_1 in Hk as [Hk Hks]. rewrite cstr_id by done. rewrite written_find by done.
  cbn in Ht. change (default (Ok (bs "null")) (Some (writeValue yaml v))) with (writeValue yaml v).
  rewrite Ht. cbn [obind]. specialize (IH (m1 ++ [(k, v)]) false). rewrite <- app_assoc in IH.
  cbn [app] in IH. by rewrite IH.
Qed.

(** ** The text is a document *)

Lemma texts_exist {K} yaml (m : list (K * Value)) :
  Forall (fun v => exists t, writeValue yaml v = Ok t /\ document t v) (om_values m) ->
  exists ts, Forall2 (fun kv t => writeValue yaml kv.2 = Ok t) m ts
             /\ Forall2 (fun kv t => document t kv.2) m ts.
Proof.
  unfold om_values. induction m as [|[k v] m IH]; cbn; [by exists []|].
  intros [(t & Ht & Hr) Hm]%Forall_cons_1. destruct (IH Hm) as (ts & H1 & H2).
  exists (t :: ts). by split; constructor.
Qed.

Lemma unpadded {A} (P : bytes -> A -> Prop) t a : P t a -> padded P t a.
Proof.
  intros H. rewrite <- (app_nil_r t). apply (padded_intro [] t a []); [constructor|done|constructor].
Qed.

Lemma joined_separated {K} (m : list (K * Value)) ts :
  Forall2 (fun kv t => document t kv.2) m ts -> m <> [] ->
  separated (padded document) (joined true ts) (om_values m).
Proof.
  induction 1 as [|[k v] t m ts Ht Hts IH]; [done|]. intros _. cbn in Ht.
  destruct Hts as [|kv' t' m ts Ht' Hts].
  - cbn. rewrite app_nil_r. by apply separated_one, unpadded.
  - change (joined true (t :: t' :: ts)) with (t ++ ","%char :: joined true (t' :: ts)).
    apply separated_more; [by apply unpadded|by apply IH].
Qed.

Lemma members_separated yaml m ts :
  Forall2 (fun kv t => document t kv.2) m ts -> Forall no_nul (om_keys m) -> m <> [] ->
  separated (padded (member document)) (joined_members yaml true (om_keys m) ts) m.
Proof.
  assert (Hm : forall k v t, no_nul k -> document t v ->
    padded (member document) (valueToQuotedString k ++ bs (if yaml then ": " else ":") ++ t) (k, v)).
  { intros k v t Hk Ht. apply unpadded. rewrite valueToQuotedString_escaped, cstr_id by done.
    pose proof (member_intro (P := document) (escaped k) k [] ((if yaml then bs " " else []) ++ t) v)
      as H. cbn [app] in H.
    replace (([DQUOTE] ++ escaped k ++ [DQUOTE]) ++ bs (if yaml then ": " else ":") ++ t)
      with (quoted (escaped k) ++ ":"%char :: (if yaml then bs " " else []) ++ t) by (by destruct yaml).
    apply H; [by apply escaped_literal|constructor|]. rewrite <- (app_nil_r t).
    apply (padded_intro _ t v []); [|done|constructor].
    destruct yaml; [by repeat constructor|constructor]. }
  induction 1 as [|[k v] t m ts Ht Hts IH]; [done|]. intros [Hk Hks]%Forall_cons_1 _. cbn in Ht, Hk.
  destruct Hts as [|[k' v'] t' m ts Ht' Hts].
  - cbn [om_keys map joined_members]. cbn. rewrite app_nil_r. by apply separated_one, Hm.
  - replace (joined_members yaml true (om_keys ((k, v) :: (k', v') :: m)) (t :: t' :: ts))
      with ((valueToQuotedString k ++ bs (if yaml then ": " else ":") ++ t)
              ++ ","%char :: joined_members yaml true (om_keys ((k', v') :: m)) (t' :: ts)).
    + apply separated_more; [by apply Hm|by apply IH].
    + cbn [om_keys map joined_members]. by rewrite <- !app_assoc.
Qed.

Lemma indexed_values i m : dense_from i m -> indexed i (om_values m) = m.
Proof.
  revert i. induction m as [|[k v] m IH]; intros i; cbn; [done|]. intros [-> H].
  f_equal. by apply IH.
Qed.

Lemma object_of_sorted m : om_wf m -> Forall no_nul (om_keys m) -> object_of m = m.
Proof.
  intros Hw Hk. unfold object_of.
  assert (Hgo : forall m1, om_wf (m1 ++ m) ->
    fold_left (fun m kv => om_set (cstr kv.1) kv.2 m) m m1 = m1 ++ m); [|by apply (Hgo [])].
  clear Hw. induction m as [|[k v] m IH]; intros m1 Hw; cbn [fold_left]; [by rewrite app_nil_r|].
  apply Forall_cons_1 in Hk as [Hk Hks]. cbn in Hk.
  pose proof (om_wf_app_below m1 k v m Hw) as Hb. cbn [fst snd]. rewrite cstr_id by done.
  unfold om_set at 2. rewrite om_touch_below, om_alter_below_app by done.
  rewrite IH; [by rewrite <- app_assoc|done|by rewrite <- app_assoc].
Qed.

Lemma int_number i : -2147483640 < i <= INT_MAX -> number (valueToString_Int i) (intValue i).
Proof.
  intros Hi. unfold INT_MAX in Hi.
  destruct (valueToString_Int_digits i) as (ds & -> & Hds & Hne & Hval & _).
  { unfold is_int32, INT_MIN, INT_MAX. lia. }
  destruct (Z.ltb_spec i 0) as [Hlt|Hge].
  - pose proof (number_negative ds (- i) Hds Hne ltac:(lia) ltac:(lia)) as Hn.
    by rewrite Z.opp_involutive in Hn.
  - pose proof (number_unsigned ds i Hds Hne ltac:(lia) ltac:(lia)) as Hn.
    by assert ((i <=? maxInt) = true) as E by (unfold maxInt, INT_MAX; lia); rewrite E in Hn.
Qed.

Lemma uint_number u : INT_MAX < u <= 4294967289 -> number (valueToString_UInt u) (uintValue u).
Proof.
  intros Hu. unfold INT_MAX in Hu.
  destruct (valueToString_UInt_digits u) as (ds & -> & Hds & Hne & Hval & _).
  { unfold is_uint32, UINT_MAX. lia. }
  pose proof (number_unsigned ds u Hds Hne Hval ltac:(lia)) as Hn.
  by assert ((u <=? maxInt) = false) as E by (unfold maxInt, INT_MAX; lia); rewrite E in Hn.
Qed.

Lemma string_document s : no_nul s ->
  document (valueToQuotedString s) (mk (stringValue (Some s))).
Proof.
  intros Hs. rewrite valueToQuotedString_escaped, cstr_id by done.
  pose proof (document_string (escaped s) s (escaped_literal s Hs)) as H. by rewrite cstr_id in H.
Qed.

Lemma array_document m ts :
  dense_map m -> Forall2 (fun kv t => document t kv.2) m ts ->
  document (bs "[" ++ joined true ts ++ bs "]") (mk (arrayValue m)).
Proof.
  intros [Hd Hlen] Hts. destruct m as [|kv m]; [inversion Hts; by apply (document_empty_array []), Forall_nil|].
  rewrite <- (indexed_values 0 (kv :: m)) by done.
  apply document_array; [by apply joined_separated|]. unfold om_values. by rewrite length_map.
Qed.

Lemma object_document yaml m ts :
  om_wf m -> Forall no_nul (om_keys m) -> Forall2 (fun kv t => document t kv.2) m ts ->
  document (bs "{" ++ joined_members yaml true (om_keys m) ts ++ bs "}") (mk (objectValue m)).
Proof.
  intros Hw Hk Hts. destruct m as [|kv m].
  { inversion Hts. by apply (document_empty_object []), Forall_nil. }
  rewrite <- (object_of_sorted (kv :: m)) at 2 by done.
  by apply document_object, members_separated.
Qed.

Lemma text_exists yaml v : writable v -> exists t, writeValue yaml v = Ok t /\ document t v.
Proof.
  induction v as [c p IH] using Value_induction. intros H.
  assert (Hall : Forall writable (children p) -> Forall (fun v =>
    exists t, writeValue yaml v = Ok t /\ document t v) (children p)).
  { clear -IH. induction IH; intros Hw; [constructor|]. apply Forall_cons_1 in Hw as [].
    constructor; auto. }
  remember (mkValue c p) as v eqn:Ev.
  destruct H as [|b|i Hi|u Hu|s Hs|m Hd Hm|m Hw Hk Hn Hm]; injection Ev as <- <-.
  - eexists. split; [done|constructor].
  - eexists. split; [done|constructor].
  - eexists. split; [done|]. by apply document_number, int_number.
  - eexists. split; [done|]. by apply document_number, uint_number.
  - eexists. split; [done|]. by apply string_document.
  - destruct (texts_exist yaml m (Hall Hm)) as (ts & H1 & H2). eexists.
    split; [|by apply array_document].
    cbn [writeValue mk]. change (map (fun kv => (kv.1, writeValue yaml kv.2)) m) with (written yaml m).
    rewrite (dense_size noComments) by done. rewrite to_int32_id.
    2: { destruct Hd as [_ Hd]. unfold is_int32, INT_MIN, INT_MAX in *. lia. }
    rewrite Nat2Z.id. pose proof (write_elements_joined yaml m ts H1 [] Hd) as E.
    cbn [length app] in E. change (Z.of_nat 0) with 0 in E. by rewrite E.
  - destruct (texts_exist yaml m (Hall Hm)) as (ts & H1 & H2). eexists.
    split; [|by apply (object_document yaml)]. cbn [writeValue mk getMemberNames value_ obind].
    change (map (fun kv => (kv.1, writeValue yaml kv.2)) m) with (written yaml m).
    pose proof (write_members_joined yaml m ts H1 [] true Hw Hk) as E. cbn [app] in E.
    by rewrite E.
Qed.

End Roundtrip.
