(* ===== verification/StyledWriter.v ===== *)
(** * JSON text for people ([lib/jsoncpp/json_writer.cpp])

    [StyledWriter] writes to a string and [StyledStreamWriter] to a stream.  Both
    put members and long arrays on lines of their own, short arrays on one line,
    and comments next to their values.  They are the same methods but for
    [writeIndent] and the indentation; [style] says which of them it is.

    A writer is a state: the text so far, the indentation, and the texts of the
    elements of the last array that was measured. *)

From stdpp Require Import tactics.
From S2P Require Import Prelude OrdMap Doubles JsonValue JsonPaths JsonWriter JsonReader.
From S2P Require Import JsonReaderFacts JsonScalars JsonDocuments JsonRoundtrip.

#[local] Arguments assign : simpl never.

Inductive style := ToString | ToStream (indentation_ : bytes).

Definition rightMargin_ : Z := 74.

(** [std::string( indentSize_, ' ' )], with an [indentSize_] of 3. *)
Definition indentation (s : style) : bytes :=
  match s with ToString => bs "   " | ToStream indentation_ => indentation_ end.

Record StyledWriter := mkStyled {
  childValues_ : list bytes; sdocument_ : bytes; indentString_ : bytes; addChildValues_ : bool
}.

Definition StyledWriter_new : StyledWriter := mkStyled [] [] [] false.

(** [document_ += text], [*document_ << text]. *)
Definition put_text (text : bytes) (w : StyledWriter) : StyledWriter :=
  mkStyled (childValues_ w) (sdocument_ w ++ text) (indentString_ w) (addChildValues_ w).
Definition set_children (l : list bytes) (w : StyledWriter) : StyledWriter :=
  mkStyled l (sdocument_ w) (indentString_ w) (addChildValues_ w).
Definition set_adding (b : bool) (w : StyledWriter) : StyledWriter :=
  mkStyled (childValues_ w) (sdocument_ w) (indentString_ w) b.
Definition set_indent (s : bytes) (w : StyledWriter) : StyledWriter :=
  mkStyled (childValues_ w) (sdocument_ w) s (addChildValues_ w).

Definition pushValue (value : bytes) (w : StyledWriter) : StyledWriter :=
  if addChildValues_ w then set_children (childValues_ w ++ [value]) w else put_text value w.

(** What [writeIndent] writes. *)
Definition indent_text (s : style) (w : StyledWriter) : bytes :=
  match s with
  | ToStream _ => [LF] ++ indentString_ w
  | ToString =>
      match last (sdocument_ w) with
      | None => indentString_ w
      | Some last => if Ascii.eqb last " " then [] else (if Ascii.eqb last LF then [] else [LF]) ++ indentString_ w
      end
  end.

Definition writeIndent (s : style) (w : StyledWriter) : StyledWriter := put_text (indent_text s w) w.

Definition writeWithIndent (s : style) (value : bytes) (w : StyledWriter) : StyledWriter := put_text value (writeIndent s w).

Definition indent (s : style) (w : StyledWriter) : StyledWriter := set_indent (indentString_ w ++ indentation s) w.

Definition unindent (s : style) (w : StyledWriter) : outcome StyledWriter :=
  let n := length (indentString_ w) in
  let! _ := assertion (length (indentation s) <=? n)%nat "indentString_.size() >= indentSize_" in
  Ok (set_indent (take (n - length (indentation s)) (indentString_ w)) w).

(** The text is walked with pointers, its terminator included. *)
Fixpoint normalizeEOL (text : bytes) : bytes :=
  match text with
  | [] => []
  | c :: text' =>
      if Ascii.eqb c CR then
        LF :: match text' with
              | d :: text'' => if Ascii.eqb d LF then normalizeEOL text'' else normalizeEOL text'
              | [] => []
              end
      else c :: normalizeEOL text'
  end.

Section StyledWriter.
Context {D : DoubleOps}.
Context (s : style).

Definition writeCommentBeforeValue (root : Value) (w : StyledWriter) : StyledWriter :=
  if hasComment commentBefore root then put_text [LF] (put_text (normalizeEOL (getComment commentBefore root)) w) else w.

Definition writeCommentAfterValueOnSameLine (root : Value) (w : StyledWriter) : StyledWriter :=
  let w := if hasComment commentAfterOnSameLine root
    then put_text (bs " " ++ normalizeEOL (getComment commentAfterOnSameLine root)) w else w in
  if hasComment commentAfter root
  then put_text [LF] (put_text (normalizeEOL (getComment commentAfter root)) (put_text [LF] w)) else w.

Definition hasCommentForValue (value : Value) : bool :=
  hasComment commentBefore value || hasComment commentAfterOnSameLine value || hasComment commentAfter value.

(** An element with what writing it does; an absent one is the null value. *)
Definition writer := StyledWriter -> outcome StyledWriter.
Definition element : Type := Value * writer.
Definition null_element : element := (null, fun w => Ok (pushValue (bs "null") w)).
Definition at_key {K} `{KeyOrd K} (k : K) (ws : list (K * element)) : element := default null_element (om_find k ws).

(** [childValues_\[index\]] *)
Definition child_text (index : Z) (w : StyledWriter) : outcome bytes :=
  match childValues_ w !! Z.to_nat index with Some t => Ok t | None => Aborted "childValues_" end.

(** The first loop of [isMultineArray], over [n] more indices. *)
Fixpoint has_nested (n : nat) (index : Z) (ws : list (Z * element)) (isMultiLine : bool) : bool :=
  match n with
  | O => isMultiLine
  | S n =>
      if isMultiLine then isMultiLine
      else
        let childValue := fst (at_key (to_int32 index) ws) in
        has_nested n (index + 1) ws (isMultiLine || ((isArray childValue || isObject childValue) && (0 <? size childValue)))
  end.

(** The second one, which writes the elements to measure them. *)
Fixpoint measure (n : nat) (index : Z) (ws : list (Z * element)) (lineLength : Z) (isMultiLine : bool) (w : StyledWriter) :
    outcome (Z * bool * StyledWriter) :=
  match n with
  | O => Ok (lineLength, isMultiLine, w)
  | S n =>
      if isMultiLine then Ok (lineLength, isMultiLine, w)
      else
        let! w := snd (at_key (to_int32 index) ws) w in
        let! t := child_text index w in
        measure n (index + 1) ws (to_int32 (lineLength + to_int32 (Z.of_nat (length t))))
          (isMultiLine && hasCommentForValue (fst (at_key (to_int32 index) ws))) w
  end.

Definition isMultineArray (ws : list (Z * element)) (value : Value) (w : StyledWriter) : outcome (bool * StyledWriter) :=
  let size := to_int32 (size value) in
  let isMultiLine := rightMargin_ <=? to_int32 (size * 3) in
  let w := set_children [] w in
  let isMultiLine := has_nested (Z.to_nat size) 0 ws isMultiLine in
  if negb isMultiLine then
    let! (lineLength, isMultiLine, w) := measure (Z.to_nat size) 0 ws (to_int32 (4 + (size - 1) * 2)) isMultiLine (set_adding true w) in
    Ok (isMultiLine || (rightMargin_ <=? lineLength), set_adding false w)
  else Ok (isMultiLine, w).

(** The elements on lines of their own; [n] are left after this one. *)
Fixpoint write_lines (n : nat) (index : Z) (ws : list (Z * element)) (hasChildValue : bool) (w : StyledWriter) : outcome StyledWriter :=
  let childValue := fst (at_key (to_int32 index) ws) in
  let w := writeCommentBeforeValue childValue w in
  let! w := (if hasChildValue then let! t := child_text index w in Ok (writeWithIndent s t w)
             else snd (at_key (to_int32 index) ws) (writeIndent s w)) in
  match n with
  | O => Ok (writeCommentAfterValueOnSameLine childValue w)
  | S n => write_lines n (index + 1) ws hasChildValue (writeCommentAfterValueOnSameLine childValue (put_text (bs ",") w))
  end.

(** The elements on one line. *)
Fixpoint write_line (n : nat) (index : Z) (w : StyledWriter) : outcome StyledWriter :=
  match n with
  | O => Ok w
  | S n =>
      let w := if 0 <? index then put_text (bs ", ") w else w in
      let! t := child_text index w in
      write_line n (index + 1) (put_text t w)
  end.

Definition writeArrayValue (ws : list (Z * element)) (value : Value) (w : StyledWriter) : outcome StyledWriter :=
  let size := size value in
  if size =? 0 then Ok (pushValue (bs "[]") w)
  else
    let! (isArrayMultiLine, w) := isMultineArray ws value w in
    if isArrayMultiLine then
      let w := indent s (writeWithIndent s (bs "[") w) in
      let hasChildValue := negb (bool_decide (childValues_ w = [])) in
      let! w := write_lines (Z.to_nat (size - 1)) 0 ws hasChildValue w in
      let! w := unindent s w in
      Ok (writeWithIndent s (bs "]") w)
    else
      let! _ := assertion (Z.of_nat (length (childValues_ w)) =? size) "childValues_.size() == size" in
      let! w := write_line (Z.to_nat size) 0 (put_text (bs "[ ") w) in
      Ok (put_text (bs " ]") w).

(** The loop over the members. *)
Fixpoint write_styled_members (members : list bytes) (ws : list (bytes * element)) (w : StyledWriter) : outcome StyledWriter :=
  match members with
  | [] => Ok w
  | name :: members =>
      let childValue := fst (at_key (cstr name) ws) in
      let w := writeCommentBeforeValue childValue w in
      let w := put_text (bs " : ") (writeWithIndent s (valueToQuotedString name) w) in
      let! w := snd (at_key (cstr name) ws) w in
      match members with
      | [] => Ok (writeCommentAfterValueOnSameLine childValue w)
      | _ => write_styled_members members ws (writeCommentAfterValueOnSameLine childValue (put_text (bs ",") w))
      end
  end.

Definition writeObjectValue (ws : list (bytes * element)) (value : Value) (w : StyledWriter) : outcome StyledWriter :=
  let! members := getMemberNames value in
  match members with
  | [] => Ok (pushValue (bs "{}") w)
  | _ =>
      let! w := write_styled_members members ws (indent s (writeWithIndent s (bs "{") w)) in
      let! w := unindent s w in
      Ok (writeWithIndent s (bs "}") w)
  end.

Fixpoint writeStyledValue (value : Value) : writer :=
  match value with
  | mkValue c p =>
      match p with
      | nullValue => fun w => Ok (pushValue (bs "null") w)
      | intValue _ => fun w => let! i := asInt value in Ok (pushValue (valueToString_Int i) w)
      | uintValue _ => fun w => let! u := asUInt value in Ok (pushValue (valueToString_UInt u) w)
      | realValue _ => fun w => let! r := asDouble value in Ok (pushValue (valueToString_double r) w)
      | stringValue _ => fun w => let! t := string_text value in Ok (pushValue t w)
      | booleanValue _ => fun w => Ok (pushValue (valueToString_bool (asBool value)) w)
      | arrayValue m => fun w => writeArrayValue (map (fun kv => (fst kv, (snd kv, writeStyledValue (snd kv)))) m) value w
      | objectValue m => fun w => writeObjectValue (map (fun kv => (fst kv, (snd kv, writeStyledValue (snd kv)))) m) value w
      end
  end.

(** [write] behind the text [out]: nothing in a string, what a stream has taken
    before. *)
Definition write_styled (out : bytes) (root : Value) (w : StyledWriter) : outcome StyledWriter :=
  let w := mkStyled (childValues_ w) out [] false in
  let w := writeCommentBeforeValue root w in
  let! w := writeStyledValue root w in
  Ok (put_text [LF] (writeCommentAfterValueOnSameLine root w)).

End StyledWriter.

Section Entries.
Context {D : DoubleOps}.

Definition StyledWriter_write (root : Value) (w : StyledWriter) : outcome (bytes * StyledWriter) :=
  let! w := write_styled ToString [] root w in
  Ok (sdocument_ w, w).

(** What the stream holds afterwards. *)
Definition StyledStreamWriter_write (indentation_ out : bytes) (root : Value) (w : StyledWriter) : outcome (bytes * StyledWriter) :=
  let! w := write_styled (ToStream indentation_) out root w in
  Ok (sdocument_ w, w).

(** [operator<<], with the indentation by a tabulator. *)
Definition print_value (sout : bytes) (root : Value) : outcome bytes :=
  let! (out, _) := StyledStreamWriter_write [TAB] sout root StyledWriter_new in
  Ok out.

(** [Value::toStyledString]. *)
Definition toStyledString (v : Value) : outcome bytes :=
  let! (text, _) := StyledWriter_write v StyledWriter_new in
  Ok text.

End Entries.

(** * What the writers write is a document *)

Section Texts.
Context {D : DoubleOps}.
Context (s : style).

(** The indentation of a stream must be blank. *)
Context (Hs : blanks (indentation s)).

(** The writer has put [x] behind its text. *)
Definition grown (w : StyledWriter) (x : bytes) (w' : StyledWriter) : Prop :=
  sdocument_ w' = sdocument_ w ++ x /\ indentString_ w' = indentString_ w /\ addChildValues_ w' = false.

(** The writer is not measuring. *)
Definition writing (w : StyledWriter) : Prop := addChildValues_ w = false /\ blanks (indentString_ w).

Lemma grown_put x w : addChildValues_ w = false -> grown w x (put_text x w).
Proof. by intros Ha. Qed.

Lemma grown_more w x w' y w'' : grown w x w' -> grown w' y w'' -> grown w (x ++ y) w''.
Proof. intros (E1 & I1 & A1) (E2 & I2 & A2). split_and!; [by rewrite E2, E1, app_assoc|by rewrite I2|done]. Qed.

Lemma grown_writing w x w' : grown w x w' -> writing w -> writing w'.
Proof. intros (_ & I & A) [_ Hb]. split; [done|by rewrite I]. Qed.

Lemma blanks_app b b' : blanks b -> blanks b' -> blanks (b ++ b').
Proof. intros. by apply Forall_app_2. Qed.

Lemma indent_blanks w : blanks (indentString_ w) -> blanks (indent_text s w).
Proof.
  intros Hb. assert (Hl : blanks [LF]) by (by repeat constructor). unfold indent_text. destruct s as [|i].
  - destruct (last (sdocument_ w)) as [c|]; [|done]. destruct (Ascii.eqb c " "); [constructor|]. destruct (Ascii.eqb c LF); [done|by apply blanks_app].
  - by apply blanks_app.
Qed.

Lemma indented w x : writing w -> exists b, grown w (b ++ x) (writeWithIndent s x w) /\ blanks b.
Proof.
  intros [Ha Hb]. exists (indent_text s w). split; [|by apply indent_blanks].
  unfold writeWithIndent, writeIndent. by eapply grown_more; apply grown_put.
Qed.

(** ** Comments *)

Lemma no_comments v w : comments_ v = noComments -> writeCommentBeforeValue v w = w /\ writeCommentAfterValueOnSameLine v w = w.
Proof. intros E. unfold writeCommentBeforeValue, writeCommentAfterValueOnSameLine, hasComment. by rewrite E. Qed.

Lemma writable_comments v : writable v -> comments_ v = noComments.
Proof. by intros []. Qed.

(** ** Lists of items *)

Lemma separated_end {A} (P : bytes -> A -> Prop) x l b : separated (padded P) x l -> blanks b -> separated (padded P) (x ++ b) l.
Proof.
  intros H Hb. induction H as [x a [w t a' w' Hw Ht Hw']|x a x' l Ha _ IH].
  - apply separated_one. rewrite <- !app_assoc. apply padded_intro; [done|done|by apply blanks_app].
  - rewrite <- app_assoc. by apply separated_more.
Qed.

Lemma padded_start {A} (P : bytes -> A -> Prop) x a b : padded P x a -> blanks b -> padded P (b ++ x) a.
Proof. intros [w t a' w' Hw Ht Hw'] Hb. rewrite app_assoc. apply padded_intro; [by apply blanks_app|done|done]. Qed.

Lemma separated_start {A} (P : bytes -> A -> Prop) x l b : separated (padded P) x l -> blanks b -> separated (padded P) (b ++ x) l.
Proof.
  intros H Hb. destruct H as [x a Ha|x a x' l Ha Hl].
  - by apply separated_one, padded_start.
  - rewrite app_assoc. apply separated_more; [by apply padded_start|done].
Qed.

(** ** Elements *)

Definition elements {K} (m : list (K * Value)) : list (K * element) := map (fun kv => (fst kv, (snd kv, writeStyledValue s (snd kv)))) m.

Lemma elements_find {K} `{KeyOrd K} m1 (k : K) v m2 :
  om_wf (m1 ++ (k, v) :: m2) -> at_key k (elements (m1 ++ (k, v) :: m2)) = (v, writeStyledValue s v).
Proof.
  intros Hw. unfold at_key, elements. rewrite map_app. cbn [map fst snd]. rewrite om_find_below_app; [done|].
  apply om_wf_app_below in Hw. unfold below in *. rewrite Forall_map. exact Hw.
Qed.

(** The element of an array at its place. *)
Lemma element_at_place m1 k v m2 : dense_map (m1 ++ (k, v) :: m2) ->
  to_int32 (Z.of_nat (length m1)) = Z.of_nat (length m1) /\
  at_key (to_int32 (Z.of_nat (length m1))) (elements (m1 ++ (k, v) :: m2)) = (v, writeStyledValue s v).
Proof.
  intros [Hd Hl]. pose proof (dense_from_below 0 m1 k v m2 Hd) as [Hk _]. rewrite Z.add_0_l in Hk.
  assert (E : to_int32 (Z.of_nat (length m1)) = Z.of_nat (length m1)).
  { apply to_int32_id. rewrite length_app in Hl. unfold is_int32, INT_MIN, INT_MAX in *. lia. }
  split; [done|]. rewrite E, <- Hk. by apply elements_find, (dense_from_wf 0).
Qed.

Definition nested (v : Value) : bool := (isArray v || isObject v) && (0 <? size v).

Lemma has_nested_false m2 : forall m1 b, dense_map (m1 ++ m2) ->
  has_nested (length m2) (Z.of_nat (length m1)) (elements (m1 ++ m2)) b = false ->
  b = false /\ Forall (fun v => nested v = false) (om_values m2).
Proof.
  induction m2 as [|[k v] m2 IH]; intros m1 b Hd; [by split|]. cbn [has_nested length]. destruct b; [done|].
  destruct (element_at_place m1 k v m2 Hd) as [_ ->]. cbn [fst]. intros Hn.
  specialize (IH (m1 ++ [(k, v)])). rewrite <- app_assoc, length_app in IH. cbn [length app] in IH.
  replace (Z.of_nat (length m1 + 1)) with (Z.of_nat (length m1) + 1) in IH by lia. destruct (IH _ Hd Hn) as [Hb Hm].
  split; [done|]. by constructor.
Qed.

Lemma object_size m : Z.of_nat (length m) <= INT_MAX -> size (mk (objectValue m)) = Z.of_nat (length m).
Proof.
  intros H. unfold size. cbn [value_ mk]. unfold INT_MAX in H. rewrite to_int32_id; [|unfold is_int32, INT_MIN, INT_MAX; lia].
  apply to_uint32_id. unfold is_uint32, UINT_MAX. lia.
Qed.

(** A value that is written in one piece. *)
Definition flat_text (t : bytes) (v : Value) : Prop := document t v /\ forall w, writeStyledValue s v w = Ok (pushValue t w).

Lemma flat_exists v : writable v -> nested v = false -> exists t, flat_text t v.
Proof.
  intros [|b|i Hi|u Hu|x Hx|m Hd Hm|m Hw Hk Hn Hm] Hf; unfold flat_text.
  - exists (bs "null"). split; [constructor|done].
  - exists (valueToString_bool b). split; [constructor|done].
  - exists (valueToString_Int i). split; [by apply document_number, int_number|done].
  - exists (valueToString_UInt u). split; [by apply document_number, uint_number|done].
  - exists (valueToQuotedString x). split; [by apply string_document|done].
  - assert (m = []) as ->; [|exists (bs "[]"); split; [by apply (document_empty_array []), Forall_nil|done]].
    change ((0 <? size (mkValue noComments (arrayValue m))) = false) in Hf. rewrite dense_size in Hf by done. apply nil_length_inv. lia.
  - assert (m = []) as ->; [|exists (bs "{}"); split; [by apply (document_empty_object []), Forall_nil|done]].
    change ((0 <? size (mk (objectValue m))) = false) in Hf. rewrite object_size in Hf by done. apply nil_length_inv. lia.
Qed.

(** ** Arrays *)

(** The children that were measured: [ts] behind those before. *)
Lemma measure_texts m2 ts : Forall2 (fun kv t => flat_text t kv.2) m2 ts -> forall m1 l w, dense_map (m1 ++ m2) ->
  addChildValues_ w = true -> length (childValues_ w) = length m1 ->
  exists l', measure (length m2) (Z.of_nat (length m1)) (elements (m1 ++ m2)) l false w = Ok (l', false, set_children (childValues_ w ++ ts) w).
Proof.
  induction 1 as [|[k v] t m2 ts [_ Ht] Hts IH]; intros m1 l w Hd Ha Hl.
  - exists l. cbn. rewrite app_nil_r. by destruct w.
  - cbn [length measure]. destruct (element_at_place m1 k v m2 Hd) as [_ ->]. cbn [fst snd]. cbn in Ht. rewrite Ht. cbn [obind].
    unfold pushValue at 1 2. rewrite Ha. unfold child_text. cbn [childValues_ set_children].
    rewrite Nat2Z.id, lookup_app_r by lia. rewrite Hl, Nat.sub_diag. cbn [lookup list_lookup obind andb].
    specialize (IH (m1 ++ [(k, v)]) (to_int32 (l + to_int32 (Z.of_nat (length t)))) (set_children (childValues_ w ++ [t]) w)).
    rewrite <- app_assoc, length_app in IH. cbn [length app] in IH. replace (Z.of_nat (length m1 + 1)) with (Z.of_nat (length m1) + 1) in IH by lia.
    destruct IH as [l' ->]; [done|done|cbn; rewrite length_app; cbn; lia|]. exists l'. cbn. by rewrite <- app_assoc.
Qed.

(** The writer has the texts of the elements. *)
Definition measured (m : list (Z * Value)) (w : StyledWriter) : Prop := Forall2 (fun kv t => document t kv.2) m (childValues_ w).

Lemma multiline_cases m w : dense_map m -> Forall writable (om_values m) -> writing w ->
  exists b w', isMultineArray (elements m) (mk (arrayValue m)) w = Ok (b, w') /\ grown w [] w' /\
    (measured m w' \/ b = true /\ childValues_ w' = []).
Proof.
  intros Hd Hm [Ha Hb]. unfold isMultineArray. unfold mk. rewrite dense_size by done. rewrite to_int32_id.
  2: { destruct Hd as [_ Hd]. unfold is_int32, INT_MIN, INT_MAX in *. lia. }
  rewrite Nat2Z.id. destruct (has_nested _ _ _ _) eqn:En; cbn [negb].
  - eexists _, _. split; [reflexivity|]. split; [split_and!; [by rewrite app_nil_r|done|done]|by right].
  - destruct (has_nested_false m [] _ Hd En) as [_ Hf].
    assert (Hts : exists ts, Forall2 (fun kv t => flat_text t kv.2) m ts).
    { clear -Hm Hf. unfold om_values in *. induction m as [|[k v] m IH]; [by exists []|]. apply Forall_cons_1 in Hm as [Hv Hm]. apply Forall_cons_1 in Hf as [Hn Hf].
      destruct (flat_exists v Hv Hn) as [t Ht]. destruct (IH Hm Hf) as [ts ?]. exists (t :: ts). by constructor. }
    destruct Hts as [ts Hts].
    destruct (measure_texts m ts Hts [] (to_int32 (4 + (Z.of_nat (length m) - 1) * 2)) (set_adding true (set_children [] w)) Hd) as [l' E]; [done|done|].
    cbn [length app] in E. change (Z.of_nat 0) with 0 in E. rewrite E. cbn [obind orb]. eexists _, _. split; [reflexivity|].
    split; [split_and!; [by cbn; rewrite app_nil_r|done|done]|]. left. unfold measured. cbn. eapply Forall2_impl; [exact Hts|]. by intros ? ? [].
Qed.

(** What writing a value does. *)
Definition writes (v : Value) : Prop := forall w, writing w ->
  exists b t w', writeStyledValue s v w = Ok w' /\ grown w (b ++ t) w' /\ blanks b /\ document t v.

(** An element on a line of its own. *)
Lemma line_written m1 k v m2 has w : dense_map (m1 ++ (k, v) :: m2) -> writes v -> writing w ->
  (has = true -> measured (m1 ++ (k, v) :: m2) w) ->
  exists x w', (if has then let! t := child_text (Z.of_nat (length m1)) w in Ok (writeWithIndent s t w)
                else snd (at_key (to_int32 (Z.of_nat (length m1))) (elements (m1 ++ (k, v) :: m2))) (writeIndent s w)) = Ok w' /\
    grown w x w' /\ padded document x v /\ (has = true -> childValues_ w' = childValues_ w).
Proof.
  intros Hd Hv Hw Hm. destruct has.
  - destruct (Forall2_lookup_l _ _ _ (length m1) (k, v) (Hm eq_refl)) as (t & Ht & Hdoc); [by apply list_lookup_middle|].
    unfold child_text. rewrite Nat2Z.id, Ht. cbn [obind]. destruct (indented w t Hw) as (b & Hg & Hb). exists (b ++ t), (writeWithIndent s t w).
    split_and!; try done. by apply padded_start, Hb; apply unpadded.
  - destruct (element_at_place m1 k v m2 Hd) as [_ ->]. cbn [snd]. pose proof (indent_blanks w (proj2 Hw)) as Hb.
    pose proof (grown_put (indent_text s w) w (proj1 Hw)) as Hg. fold (writeIndent s w) in Hg.
    destruct (Hv (writeIndent s w) (grown_writing _ _ _ Hg Hw)) as (b' & t & w' & E & Hg' & Hb' & Ht). exists (indent_text s w ++ b' ++ t), w'.
    split_and!; try done; [by eapply grown_more|]. by apply padded_start; [apply padded_start; [apply unpadded|]|].
Qed.

Lemma lines_written m2 : forall m1 k v has w, dense_map (m1 ++ (k, v) :: m2) -> Forall writable (om_values ((k, v) :: m2)) ->
  Forall writes (om_values ((k, v) :: m2)) -> writing w -> (has = true -> measured (m1 ++ (k, v) :: m2) w) ->
  exists x w', write_lines s (length m2) (Z.of_nat (length m1)) (elements (m1 ++ (k, v) :: m2)) has w = Ok w' /\
    grown w x w' /\ separated (padded document) x (om_values ((k, v) :: m2)).
Proof.
  induction m2 as [|[k' v'] m2 IH]; intros m1 k v has w Hd Hr Hv Hw Hm; apply Forall_cons_1 in Hr as [Hr Hrs]; apply Forall_cons_1 in Hv as [Hv Hvs]; cbn in Hr, Hv;
    destruct (line_written m1 k v _ has w Hd Hv Hw Hm) as (x & w1 & E & Hg & Hx & Hc); pose proof (fun w => no_comments v w (writable_comments v Hr)) as Hnc;
    cbn [write_lines length]; destruct (element_at_place m1 k v _ Hd) as [_ Ef]; rewrite Ef in *; cbn [fst snd] in *; rewrite (proj1 (Hnc w)), E; cbn [obind]; rewrite (proj2 (Hnc _)).
  - exists x, w1. split_and!; try done. by apply separated_one.
  - pose proof (grown_more _ _ _ _ _ Hg (grown_put (bs ",") w1 (proj2 (proj2 Hg)))) as Hg'.
    specialize (IH (m1 ++ [(k, v)]) k' v' has (put_text (bs ",") w1)). rewrite <- app_assoc, length_app in IH. cbn [length app] in IH.
    replace (Z.of_nat (length m1 + 1)) with (Z.of_nat (length m1) + 1) in IH by lia.
    destruct IH as (y & w2 & E2 & Hg2 & Hy); try done.
    + by eapply grown_writing.
    + intros Ht. unfold measured. cbn [childValues_ put_text]. rewrite (Hc Ht). by apply Hm.
    + exists ((x ++ bs ",") ++ y), w2. split_and!; [done|by eapply grown_more|]. rewrite <- app_assoc. by apply separated_more.
Qed.

(** The elements on one line. *)
Fixpoint line (first : bool) (ts : list bytes) : bytes :=
  match ts with [] => [] | t :: ts => (if first then [] else bs ", ") ++ t ++ line false ts end.

Lemma line_written_at_once ts : forall ts1 w, childValues_ w = ts1 ++ ts ->
  write_line (length ts) (Z.of_nat (length ts1)) w = Ok (put_text (line (bool_decide (ts1 = [])) ts) w).
Proof.
  induction ts as [|t ts IH]; intros ts1 w Hc; cbn [length write_line line].
  - unfold put_text. rewrite app_nil_r. by destruct w.
  - assert (E : (if 0 <? Z.of_nat (length ts1) then put_text (bs ", ") w else w) = put_text (if bool_decide (ts1 = []) then [] else bs ", ") w).
    { destruct ts1; [|done]. cbn. unfold put_text. rewrite app_nil_r. by destruct w. }
    rewrite E. unfold child_text. cbn [childValues_ put_text]. rewrite Hc, Nat2Z.id, list_lookup_middle by done. cbn [obind].
    specialize (IH (ts1 ++ [t]) (put_text t (put_text (if bool_decide (ts1 = []) then [] else bs ", ") w))).
    rewrite length_app in IH. cbn [length] in IH. replace (Z.of_nat (length ts1 + 1)) with (Z.of_nat (length ts1) + 1) in IH by lia.
    rewrite IH by (cbn; by rewrite Hc, <- app_assoc). rewrite (bool_decide_false (ts1 ++ _ = [])) by (by destruct ts1).
    unfold put_text. cbn. by rewrite <- !app_assoc.
Qed.

Lemma line_separated (m : list (Z * Value)) ts : Forall2 (fun kv t => document t kv.2) m ts -> m <> [] ->
  separated (padded document) (line true ts) (om_values m).
Proof.
  induction 1 as [|[k v] t m ts Ht Hts IH]; [done|]. intros _. cbn in Ht. destruct Hts as [|kv' t' m ts Ht' Hts].
  - cbn. rewrite app_nil_r. by apply separated_one, unpadded.
  - change (line true (t :: t' :: ts)) with (t ++ ","%char :: (bs " " ++ line true (t' :: ts))).
    apply separated_more; [by apply unpadded|]. apply separated_start; [by apply IH|by repeat constructor].
Qed.

(** Between brackets, one step further to the right. *)
Lemma enclosed op cl w (body : writer) (Q : bytes -> Prop) : writing w ->
  (forall w1, writing w1 -> childValues_ w1 = childValues_ w -> exists x w2, body w1 = Ok w2 /\ grown w1 x w2 /\ Q x) ->
  exists b x b' w', (let! w := body (indent s (writeWithIndent s op w)) in let! w := unindent s w in Ok (writeWithIndent s cl w)) = Ok w' /\
    grown w (b ++ op ++ (x ++ b') ++ cl) w' /\ blanks b /\ blanks b' /\ Q x.
Proof.
  intros Hw Hbody. destruct (indented w op Hw) as (b & (E1 & I1 & A1) & Hb).
  destruct (Hbody (indent s (writeWithIndent s op w))) as (x & w2 & -> & (E2 & I2 & A2) & Hq); [|done|].
  { split; [done|]. cbn. apply blanks_app; [apply Hw|done]. }
  cbn [obind]. unfold unindent. rewrite I2. unfold indent at 1 2. cbn [indentString_ set_indent]. rewrite length_app, I1.
  assert (En : (length (indentation s) <=? length (indentString_ w) + length (indentation s))%nat = true) by (apply Nat.leb_le; lia).
  rewrite En. cbn [assertion obind]. rewrite Nat.add_sub. unfold indent. cbn [indentString_ set_indent]. rewrite I1, take_app_length.
  destruct (indented (set_indent (indentString_ w) w2) cl) as (b' & (E3 & I3 & A3) & Hb'); [by split; [|apply Hw]|].
  exists b, x, b'. eexists. split; [reflexivity|]. split; [split; [|by rewrite I3, A3]|done]. rewrite E3. cbn [sdocument_ set_indent]. rewrite E2.
  unfold indent. cbn [sdocument_ set_indent]. rewrite E1. by rewrite <- !app_assoc.
Qed.

Lemma array_writes m : dense_map m -> Forall writable (om_values m) -> Forall writes (om_values m) -> writes (mk (arrayValue m)).
Proof.
  intros Hd Hr Hv w Hw. change (writeStyledValue s (mk (arrayValue m)) w) with (writeArrayValue s (elements m) (mk (arrayValue m)) w).
  unfold writeArrayValue. rewrite (dense_size noComments m Hd : size (mk (arrayValue m)) = _). destruct m as [|[k v] m].
  { exists [], (bs "[]"). cbn. unfold pushValue. rewrite (proj1 Hw). eexists. split; [reflexivity|].
    split; [apply grown_put, Hw|]. split; [constructor|by apply (document_empty_array []), Forall_nil]. }
  destruct (multiline_cases ((k, v) :: m) w Hd Hr Hw) as (b & w1 & E & Hg & Hc). rewrite E. cbn [obind length].
  assert ((Z.of_nat (S (length m)) =? 0) = false) as -> by (by apply Z.eqb_neq). pose proof (grown_writing _ _ _ Hg Hw) as Hw1. destruct b.
  - destruct (enclosed (bs "[") (bs "]") w1
      (write_lines s (length m) 0 (elements ((k, v) :: m)) (negb (bool_decide (childValues_ w1 = []))))
      (fun x => separated (padded document) x (om_values ((k, v) :: m))) Hw1) as (b & x & b' & w2 & E2 & Hg2 & Hb & Hb' & Hx).
    + intros w2 Hw2 Hcv. destruct (lines_written m [] k v (negb (bool_decide (childValues_ w1 = []))) w2 Hd Hr Hv Hw2) as (x & w3 & E3 & Hg3 & Hx); [|by exists x, w3].
      intros Hne. unfold measured. rewrite Hcv. destruct Hc as [Hc|[_ Hc]]; [done|]. by rewrite Hc in Hne.
    + replace (Z.to_nat (Z.of_nat (S (length m)) - 1)) with (length m) by lia.
      change (childValues_ (indent s (writeWithIndent s (bs "[") w1))) with (childValues_ w1). cbv zeta. rewrite E2.
      exists b, (bs "[" ++ (x ++ b') ++ bs "]"), w2. split_and!; [done| |done|]. 
      * rewrite <- (app_nil_l (b ++ _)). by eapply grown_more.
      * rewrite <- (indexed_values 0 ((k, v) :: m)) by apply Hd. apply document_array; [by apply separated_end|].
        unfold om_values. rewrite length_map. apply Hd.
  - destruct Hc as [Hc|[? _]]; [|done]. pose proof (Forall2_length _ _ _ Hc) as Hlen. cbn [length] in Hlen.
    rewrite Hlen, Z.eqb_refl. cbn [assertion obind].
    rewrite Nat2Z.id. pose proof (line_written_at_once (childValues_ w1) [] (put_text (bs "[ ") w1) eq_refl) as El.
    cbn [length] in El. change (Z.of_nat 0) with 0 in El. rewrite El. cbn [obind].
    exists [], (bs "[" ++ ((bs " " ++ line true (childValues_ w1)) ++ bs " ") ++ bs "]"). eexists. split; [reflexivity|]. split_and!.
    + destruct Hg as (E1 & I1 & A1). split_and!; [|done|done]. cbn. by rewrite E1, app_nil_r, <- !app_assoc.
    + constructor.
    + rewrite <- (indexed_values 0 ((k, v) :: m)) by apply Hd.
      apply document_array; [|unfold om_values; rewrite length_map; apply Hd].
      apply separated_end; [|by repeat constructor]. apply separated_start; [by apply line_separated|by repeat constructor].
Qed.

(** ** Objects *)

Lemma members_written m2 : forall m1 k v w, om_wf (m1 ++ (k, v) :: m2) -> Forall no_nul (om_keys ((k, v) :: m2)) ->
  Forall writable (om_values ((k, v) :: m2)) -> Forall writes (om_values ((k, v) :: m2)) -> writing w ->
  exists x w', write_styled_members s (om_keys ((k, v) :: m2)) (elements (m1 ++ (k, v) :: m2)) w = Ok w' /\
    grown w x w' /\ separated (padded (member document)) x ((k, v) :: m2).
Proof.
  induction m2 as [|[k' v'] m2 IH]; intros m1 k v w Hf Hk Hr Hv Hw; apply Forall_cons_1 in Hk as [Hk Hks]; apply Forall_cons_1 in Hr as [Hr Hrs];
    apply Forall_cons_1 in Hv as [Hv Hvs]; cbn in Hk, Hr, Hv; pose proof (fun w => no_comments v w (writable_comments v Hr)) as Hnc.
  all: destruct (indented w (valueToQuotedString k) Hw) as (b & Hg1 & Hb);
    pose proof (grown_more _ _ _ _ _ Hg1 (grown_put (bs " : ") _ (proj2 (proj2 Hg1)))) as Hg2;
    destruct (Hv _ (grown_writing _ _ _ Hg2 Hw)) as (b' & t & w1 & E & Hg3 & Hb' & Ht); pose proof (grown_more _ _ _ _ _ Hg2 Hg3) as Hg.
  all: assert (Hm : padded (member document) (((b ++ valueToQuotedString k) ++ bs " : ") ++ b' ++ t) (k, v)) by
    (rewrite <- !app_assoc; apply padded_start; [|done]; apply unpadded; rewrite valueToQuotedString_escaped, cstr_id by done;
     apply (member_intro (P := document) (escaped k) k (bs " ") (bs " " ++ b' ++ t) v); [by apply escaped_literal|by repeat constructor|];
     apply padded_start; [|by repeat constructor]; by apply padded_start; [apply unpadded|]).
  all: cbn [om_keys map fst write_styled_members]; rewrite cstr_id, elements_find by done; cbn [fst snd];
    rewrite (proj1 (Hnc w)), E; cbn [obind]; rewrite (proj2 (Hnc _)).
  - eexists _, w1. split_and!; [done|exact Hg|]. by apply separated_one.
  - pose proof (grown_more _ _ _ _ _ Hg (grown_put (bs ",") w1 (proj2 (proj2 Hg)))) as Hg4.
    specialize (IH (m1 ++ [(k, v)]) k' v' (put_text (bs ",") w1)). rewrite <- app_assoc in IH. cbn [app] in IH.
    destruct IH as (y & w2 & E2 & Hg5 & Hy); try done; [by eapply grown_writing|].
    eexists _, w2. split_and!; [done|by eapply grown_more|]. rewrite <- app_assoc. by apply separated_more.
Qed.

Lemma object_writes m : om_wf m -> Forall no_nul (om_keys m) -> Forall writable (om_values m) -> Forall writes (om_values m) ->
  writes (mk (objectValue m)).
Proof.
  intros Hf Hk Hr Hv w Hw. change (writeStyledValue s (mk (objectValue m)) w) with (writeObjectValue s (elements m) (mk (objectValue m)) w).
  unfold writeObjectValue. cbn [getMemberNames value_ mk obind]. destruct m as [|[k v] m].
  { exists [], (bs "{}"). cbn. unfold pushValue. rewrite (proj1 Hw). eexists. split; [reflexivity|].
    split; [apply grown_put, Hw|]. split; [constructor|by apply (document_empty_object []), Forall_nil]. }
  destruct (enclosed (bs "{") (bs "}") w (write_styled_members s (om_keys ((k, v) :: m)) (elements ((k, v) :: m)))
    (fun x => separated (padded (member document)) x ((k, v) :: m)) Hw) as (b & x & b' & w2 & E2 & Hg2 & Hb & Hb' & Hx).
  { intros w1 Hw1 _. destruct (members_written m [] k v w1 Hf Hk Hr Hv Hw1) as (x & w2 & E & Hg & Hx). by exists x, w2. }
  exists b, (bs "{" ++ (x ++ b') ++ bs "}"), w2. split_and!; [exact E2|done|done|].
  rewrite <- (object_of_sorted ((k, v) :: m)) by done. apply document_object. by apply separated_end.
Qed.

Lemma writable_writes v : writable v -> writes v.
Proof.
  induction v as [c p IH] using Value_induction. intros H.
  assert (Hall : Forall writable (children p) -> Forall writes (children p)).
  { clear -IH. induction IH; intros Hw; [constructor|]. apply Forall_cons_1 in Hw as []. constructor; auto. }
  destruct (nested (mkValue c p)) eqn:En.
  - remember (mkValue c p) as v eqn:Ev. destruct H as [|b|i Hi|u Hu|x Hx|m Hd Hm|m Hw Hk Hn Hm]; injection Ev as <- <-; try done.
    + by apply array_writes, Hall.
    + by apply object_writes, Hall.
  - intros w Hw. destruct (flat_exists _ H En) as (t & Ht & E). exists [], t, (pushValue t w). rewrite E. split_and!; [done| |constructor|done].
    unfold pushValue. rewrite (proj1 Hw). apply grown_put, Hw.
Qed.

Lemma styled_document out v w : writable v ->
  exists text w', write_styled s out v w = Ok w' /\ sdocument_ w' = out ++ text /\ padded document text v.
Proof.
  intros H. unfold write_styled. pose proof (fun w => no_comments v w (writable_comments v H)) as Hnc. rewrite (proj1 (Hnc _)).
  destruct (writable_writes v H (mkStyled (childValues_ w) out [] false)) as (b & t & w' & -> & (E & _) & Hb & Ht); [by split; [|constructor]|].
  cbn [obind]. rewrite (proj2 (Hnc _)). exists (b ++ t ++ [LF]). eexists. split; [reflexivity|]. split.
  - cbn [sdocument_ put_text]. rewrite E. cbn [sdocument_]. by rewrite <- !app_assoc.
  - apply padded_intro; [done|done|by repeat constructor].
Qed.

End Texts.

(** ** The theorem *)

(** C30: What the styled writers write, [Reader::parse] reads back.  For every tree
    of nulls, booleans, NUL-free strings, arrays without holes, objects and
    integers outside the bands that the number decoder turns into doubles, and
    whatever the writer was used for before: [StyledWriter], and
    [StyledStreamWriter] behind what its stream holds and with any blank
    indentation, write without a failed assertion a text that parses without an
    error into the same tree, whichever arrays go on one line. *)
Theorem styled_writer_roundtrip `{D : DoubleOps} s collect out v w root :
  blanks (indentation s) -> writable v ->
  exists text w' r, write_styled s out v w = Ok w' /\ sdocument_ w' = out ++ text /\
    parse Features_all text (mkValue noComments root) collect = Ok (true, r) /\ root_ r = v /\ errors_ r = [].
Proof.
  intros Hs Hv. destruct (styled_document s Hs out v w Hv) as (text & w' & E & Ed & Ht).
  destruct (parse_document Features_all collect text v root Ht) as (r & Hr); [done|]. by exists text, w', r.
Qed.

(** ** Concrete values *)

#[local] Existing Instance Binary64.ops.

Definition long_word (n : nat) : Value := mk (stringValue (Some (replicate n "x"%char))).

(** A short array, one that is too long for a line, one with an array in it. *)
Definition three_arrays : Value := mk (objectValue [
  (bs "long", mk (arrayValue [(0, long_word 40); (1, long_word 40)]));
  (bs "nested", mk (arrayValue [(0, mk (arrayValue [(0, mk (intValue (-5)))])); (1, mk nullValue)]));
  (bs "short", mk (arrayValue [(0, mk (intValue 1)); (1, mk (booleanValue true)); (2, mk (arrayValue []))]))]).

Example short_array_on_one_line : exists text, toStyledString three_arrays = Ok text /\
  text = bs "{" ++ [LF] ++ bs "   " ++ valueToQuotedString (bs "long") ++ bs " : [" ++ [LF] ++
    bs "      " ++ valueToQuotedString (replicate 40 "x"%char) ++ bs "," ++ [LF] ++
    bs "      " ++ valueToQuotedString (replicate 40 "x"%char) ++ [LF] ++ bs "   ]," ++ [LF] ++
    bs "   " ++ valueToQuotedString (bs "nested") ++ bs " : [" ++ [LF] ++ bs "      [ -5 ]," ++ [LF] ++ bs "      null" ++ [LF] ++ bs "   ]," ++ [LF] ++
    bs "   " ++ valueToQuotedString (bs "short") ++ bs " : [ 1, true, [] ]" ++ [LF] ++ bs "}" ++ [LF].
Proof. eexists. split; vm_compute; reflexivity. Qed.

Lemma long_word_writable n : writable (long_word n).
Proof. apply writable_string, Forall_replicate. done. Qed.

Lemma three_arrays_writable : writable three_arrays.
Proof.
  pose proof (long_word_writable 40) as Hw. unfold three_arrays. revert Hw. generalize (long_word 40). intros x Hx.
  apply writable_object; cbn; [by repeat constructor|by repeat constructor|done|].
  repeat constructor; done || (unfold INT_MAX; lia).
Qed.

Lemma styled_writer_roundtrip_witness :
  writable three_arrays /\ exists text w' r, write_styled (ToStream [TAB]) (bs "before") three_arrays StyledWriter_new = Ok w' /\
    sdocument_ w' = bs "before" ++ text /\
    parse Features_all text null true = Ok (true, r) /\ root_ r = three_arrays /\ errors_ r = [].
Proof.
  split; [exact three_arrays_writable|].
  apply (styled_writer_roundtrip (ToStream [TAB]) true (bs "before") three_arrays StyledWriter_new nullValue); [by repeat constructor|exact three_arrays_writable].
Defined.

(** ** Comments *)

Definition commented (text : string) (v : Value) : Value :=
  match setComment (bs text) commentAfterOnSameLine v with Ok v => v | _ => v end.

(** A comment that ends with a blank: [writeIndent] takes it for an indentation,
    and the next member becomes part of the comment. *)
Definition blank_comment : Value := mk (objectValue [(bs "a", commented "// one " (mk (intValue 1))); (bs "b", mk (intValue 2))]).

Lemma comment_swallows_member :
  toStyledString blank_comment = Ok (bs "{" ++ [LF] ++ bs "   " ++ valueToQuotedString (bs "a") ++ bs " : 1, // one " ++
    valueToQuotedString (bs "b") ++ bs " : 2" ++ [LF] ++ bs "}" ++ [LF]) /\
  (let! text := toStyledString blank_comment in let! (ok, _) := parse Features_all text null false in Ok ok) = Ok false.
Proof. split; vm_compute; reflexivity. Qed.

(** The elements of an array on one line lose their comments. *)
Lemma short_array_loses_comments :
  toStyledString (mk (arrayValue [(0, commented "// one" (mk (intValue 1))); (1, mk (intValue 2))])) = Ok (bs "[ 1, 2 ]" ++ [LF]).
Proof. vm_compute. reflexivity. Qed.
