(* ===== verification/JsonTheorems.v ===== *)
(** * What the JSON reader and writer guarantee

    The theorems on [Json::Reader] and [Json::FastWriter]: every run returns,
    what is written is read back, numbers are decoded without wrap-around,
    [\u] escapes denote the code points of UTF-16 and strings are stored in
    UTF-8.  The specifications (a UTF-8 decoder, UTF-16 escapes, the position
    of a character in a text) are here; the lemmas are in JsonReaderFacts and
    JsonRoundtrip. *)

From S2P Require Import Prelude OrdMap Doubles JsonValue JsonPaths JsonWriter JsonReader.
From S2P Require Import JsonReaderFacts JsonScalars JsonDocuments JsonRoundtrip.

(** ** Bits of a code point *)

Definition in_bits (k h m x : Z) : Prop := 0 <= k /\ h mod 2 ^ k = 0 /\ m = Z.ones k.

Lemma marked_bits k h m x : in_bits k h m x -> Z.lor h (Z.land m x) = h + x mod 2 ^ k.
Proof.
  intros (Hk & Hh & Hm). rewrite (land_ones_mod k) by done. apply (lor_disjoint h k); [done|done|].
  apply Z.mod_pos_bound. lia.
Qed.

(** ** UTF-8 *)

Definition continuation (c : ascii) : option Z :=
  if (0x80 <=? ord c) && (ord c <? 0xC0) then Some (ord c - 0x80) else None.

Fixpoint continuations (n : nat) (acc : Z) (s : bytes) : option (Z * bytes) :=
  match n with
  | O => Some (acc, s)
  | S n' =>
      match s with
      | c :: s' =>
          match continuation c with
          | Some d => continuations n' (acc * 64 + d) s'
          | None => None
          end
      | [] => None
      end
  end.

(** The first character of a UTF-8 text and what follows it. *)
Definition utf8_decode (s : bytes) : option (Z * bytes) :=
  match s with
  | [] => None
  | a :: s =>
      if ord a <? 0x80 then Some (ord a, s)
      else if ord a <? 0xC0 then None
      else if ord a <? 0xE0 then continuations 1 (ord a - 0xC0) s
      else if ord a <? 0xF0 then continuations 2 (ord a - 0xE0) s
      else if ord a <? 0xF8 then continuations 3 (ord a - 0xF0) s
      else None
  end.

Lemma ord_marked k h m x :
  in_bits k h m x -> 0 <= h -> h + 2 ^ k <= 256 ->
  ord (chr (Z.lor h (Z.land m x))) = h + x mod 2 ^ k.
Proof.
  intros Hb Hh Hm. rewrite (marked_bits k) by done. apply ord_chr.
  destruct Hb as (Hk & _). pose proof (Z.mod_pos_bound x (2 ^ k)). lia.
Qed.

Lemma continuation_byte x : continuation (chr (Z.lor 0x80 (Z.land 0x3f x))) = Some (x mod 64).
Proof.
  unfold continuation. rewrite (ord_marked 6) by (try split; done || lia).
  change (2 ^ 6) with 64. pose proof (Z.mod_pos_bound x 64).
  destruct (Z.leb_spec 0x80 (0x80 + x mod 64)), (Z.ltb_spec (0x80 + x mod 64) 0xC0);
    cbn [andb]; try lia. f_equal. lia.
Qed.

Lemma continuations_cons n acc x s :
  continuations (S n) acc (chr (Z.lor 0x80 (Z.land 0x3f x)) :: s)
  = continuations n (acc * 64 + x mod 64) s.
Proof. cbn [continuations]. by rewrite continuation_byte. Qed.

Lemma utf8_lead k h m x : in_bits k h m x ->
  forall n s,
  (k, h, n) = (5, 0xC0, 1%nat) \/ (k, h, n) = (4, 0xE0, 2%nat) \/ (k, h, n) = (3, 0xF0, 3%nat) ->
  utf8_decode (chr (Z.lor h (Z.land m x)) :: s) = continuations n (x mod 2 ^ k) s.
Proof.
  intros Hb n s Hcase.
  assert (Hbound : 0 <= x mod 2 ^ k < 2 ^ k) by (apply Z.mod_pos_bound; destruct Hb; lia).
  unfold utf8_decode.
  destruct Hcase as [[= -> -> ->]|[[= -> -> ->]|[= -> -> ->]]];
    rewrite (ord_marked _ _ _ _ Hb) by lia;
    cbn [Z.pow Z.pow_pos Pos.iter Z.mul Pos.mul] in *;
    repeat match goal with |- context [?a <? ?b] => destruct (Z.ltb_spec a b); try lia end;
    f_equal; lia.
Qed.

Lemma utf8_decode_code cp rest :
  0 <= cp <= 0x10FFFF -> utf8_decode (codePointToUTF8 cp ++ rest) = Some (cp, rest).
Proof.
  intros Hcp. unfold codePointToUTF8.
  destruct (Z.leb_spec cp 0x7f); [|destruct (Z.leb_spec cp 0x7ff);
    [|destruct (Z.leb_spec cp 0xffff); [|destruct (Z.leb_spec cp 0x10ffff); [|lia]]]]; cbn [app].
  - unfold utf8_decode. rewrite ord_chr by lia. by destruct (Z.ltb_spec cp 0x80); [|lia].
  - rewrite (utf8_lead 5 _ _ _) with (n := 1%nat) by (done || auto).
    rewrite !continuations_cons. cbn [continuations]. rewrite !Z.shiftr_div_pow2 by done.
    f_equal. f_equal. change (2 ^ 5) with 32. change (2 ^ 6) with 64. Z.div_mod_to_equations. lia.
  - rewrite (utf8_lead 4 _ _ _) with (n := 2%nat) by (done || auto).
    rewrite !continuations_cons. cbn [continuations]. rewrite !Z.shiftr_div_pow2 by done.
    f_equal. f_equal. change (2 ^ 4) with 16. change (2 ^ 6) with 64. change (2 ^ 12) with 4096. Z.div_mod_to_equations. lia.
  - rewrite (utf8_lead 3 _ _ _) with (n := 3%nat) by (done || auto).
    rewrite !continuations_cons. cbn [continuations]. rewrite !Z.shiftr_div_pow2 by done.
    f_equal. f_equal. change (2 ^ 3) with 8. change (2 ^ 6) with 64. change (2 ^ 12) with 4096.
    change (2 ^ 18) with 262144. Z.div_mod_to_equations. lia.
Qed.

(** ** UTF-16 escapes *)

(** What follows the first [\u] in the escape of a code point: one unit, or the
    two halves of a surrogate pair. *)
Definition utf16_escape (cp : Z) : bytes :=
  if cp <? 0x10000 then hex4 cp
  else hex4 (0xD800 + (cp - 0x10000) / 1024) ++ bs "\u" ++ hex4 (0xDC00 + (cp - 0x10000) mod 1024).

Lemma decode_utf16 cp rest :
  0 <= cp <= 0x10FFFF -> ~ 0xD800 <= cp <= 0xDBFF ->
  decodeUnicodeCodePoint (utf16_escape cp ++ rest) = inr (cp, rest).
Proof.
  intros Hcp Hhi. unfold utf16_escape. destruct (Z.ltb_spec cp 0x10000).
  - apply decode_unit; [apply unit16_hex4; lia|done].
  - assert (Hq : 0 <= (cp - 0x10000) / 1024 < 1024) by (Z.div_mod_to_equations; lia).
    assert (Hr : 0 <= (cp - 0x10000) mod 1024 < 1024) by (Z.div_mod_to_equations; lia).
    rewrite <- app_assoc. change (bs "\u" ++ ?l) with (BACKSLASH :: "u"%char :: l).
    cbn [app].
    rewrite (decode_pair _ (0xD800 + (cp - 0x10000) / 1024) _ (0xDC00 + (cp - 0x10000) mod 1024))
      by (lia || (apply unit16_hex4; lia)).
    f_equal. f_equal. Z.div_mod_to_equations. lia.
Qed.

(** ** Numbers *)

Lemma number_threshold_bound b : 0 < number_threshold b <= 429496729.
Proof. by destruct b. Qed.

(** The accumulator never wraps: a token decoded as an integer is a digit
    string and the integer is its value. *)
Lemma decode_digits_sound th acc s v :
  th <= 429496729 -> 0 <= acc <= UINT_MAX ->
  decode_digits th acc s = IsInteger v ->
  all_digits s /\ v = digits_from acc s /\ 0 <= v <= UINT_MAX.
Proof.
  intros Hth. revert acc. induction s as [|c s IH]; intros acc Hacc H; cbn [decode_digits] in H.
  - injection H as <-. split; [constructor|]. split; [done|lia].
  - destruct (is_digit c) eqn:Hc; [cbn [negb] in H|done].
    destruct (Z.leb_spec th acc); [done|]. pose proof (digit_bounds c Hc).
    rewrite to_uint32_id in H by (unfold is_uint32, UINT_MAX; lia).
    apply IH in H as (Hs & -> & Hv); [|unfold UINT_MAX; lia].
    split; [by constructor|]. by rewrite digits_from_cons.
Qed.

Lemma decode_digits_digits th acc s :
  all_digits s -> decode_digits th acc s <> NotANumber.
Proof.
  intros Hs. revert acc. induction Hs as [|c s Hc _ IH]; intros acc; cbn [decode_digits]; [done|].
  rewrite Hc. cbn [negb]. by destruct (th <=? acc).
Qed.

Lemma digits_from_pow acc ds : 0 <= acc -> all_digits ds ->
  acc * 10 ^ Z.of_nat (length ds) <= digits_from acc ds.
Proof.
  intros Hacc Hds. revert acc Hacc. induction Hds as [|c ds Hc Hds IH]; intros acc Hacc.
  - unfold digits_from; cbn. lia.
  - rewrite digits_from_cons. pose proof (digit_bounds c Hc).
    etrans; [|apply IH; lia]. cbn [length]. rewrite Nat2Z.inj_succ, Z.pow_succ_r by lia. nia.
Qed.

Section Theorems.
Context {D : DoubleOps}.

Lemma parse_long_number collect features ds c :
  length (c :: ds) = 32%nat -> is_digit c = true -> c <> "0"%char -> all_digits ds ->
  parse features (c :: ds) null collect = Aborted overflow.
Proof.
  intros Hlen Hc H0 Hds. set (r := parse_start features (c :: ds) null collect).
  assert (Hall : all_digits (c :: ds)) by (by constructor).
  assert (Hscan : scan_token c ds = (tokenNumber, (true, []))).
  { rewrite <- (app_nil_r ds) at 1. by apply scan_number_token; auto using all_digits_number_chars. }
  assert (Hsp : skipSpaces (current_ r) = c :: ds).
  { cbn. assert (is_space c = false) as ->; [by apply digit_not_in|done]. }
  assert (Htok : skipCommentTokens r = Ok (mkToken tokenNumber (c :: ds) [], with_current [] r)).
  { by apply skipCommentTokens_scan; [|apply digit_ne| |]. }
  assert (Hdec : forall r, decodeNumber (mkToken tokenNumber (c :: ds) []) r = Aborted overflow).
  { intros r'. unfold decodeNumber, decodeDouble, token_text. cbn [start_ end_].
    pose proof (text_between_app (c :: ds) []) as Ht. rewrite app_nil_r in Ht. rewrite Ht.
    destruct (digits_not_double (c :: ds) Hall) as [-> _].
    assert (Ascii.eqb (deref (c :: ds)) "-" = false) as -> by (by apply ascii_eqb_ne, digit_ne).
    destruct (decode_digits (number_threshold false) 0 (c :: ds)) eqn:E.
    - apply decode_digits_sound in E as (_ & -> & Hv); [|apply number_threshold_bound|done].
      exfalso. rewrite digits_from_cons in Hv. pose proof (digit_bounds c Hc) as Hb.
      assert (ord c - ord "0" <> 0) by (intros E; apply H0, ord_inj; lia).
      pose proof (digits_from_pow (0 * 10 + (ord c - ord "0")) ds ltac:(lia) Hds) as Hp.
      cbn in Hlen. injection Hlen as Hlen. rewrite Hlen in Hp. unfold UINT_MAX in Hv.
      change (10 ^ Z.of_nat 31) with 10000000000000000000000000000000 in Hp. lia.
    - rewrite Hlen. done.
    - by apply decode_digits_digits in E. }
  unfold parse, parse_with, parse_fuel. change (parse_start _ _ _ _) with r. cbn [readValue].
  rewrite Htok. cbn [obind]. rewrite bool_decide_true, andb_false_r by done. cbn [obind].
  unfold read_token_value; cbn [type_]. by rewrite Hdec.
Qed.

(** C29: what [FastWriter::write] writes, [Reader::parse] reads back.  For every
    tree of nulls, booleans, NUL-free strings, arrays without holes, objects
    and integers outside the bands that the number decoder turns into doubles,
    nested to any depth, the written document parses without an error into the
    same tree, whether or not the reader collects comments, whether or not YAML
    spacing is on and whatever (comment-free) value the destination held. *)
Theorem fast_writer_roundtrip yaml collect root v :
  writable v ->
  exists text w r,
    FastWriter_write (mkFastWriter yaml []) v = Ok (text, w)
    /\ parse Features_all text (mkValue noComments root) collect = Ok (true, r)
    /\ root_ r = v /\ errors_ r = [].
Proof.
  intros (t & Hw & Ht)%(text_exists yaml). unfold FastWriter_write. cbn. rewrite Hw. cbn.
  destruct (parse_document Features_all collect (t ++ [LF]) v root) as (r & Hp & Hr); [|done|].
  - apply (padded_intro [] t v [LF]); [constructor|done|by repeat constructor].
  - by eexists _, _, r.
Qed.


(** C31: [Reader::parse] returns on every document, with every set of features,
    and the fuel (one more than the length of the document) is always enough:
    the recursion on nested values, the member and element loops, the comment
    and the recovery loops all end.  The value it leaves in the destination is
    well formed: ordered maps, machine integers in range, C strings.  The only
    other outcome is the write past the number buffer of [decodeDouble]. *)
Theorem parse_total features doc root collect :
  Value_wf root ->
  (exists ok r, parse features doc root collect = Ok (ok, r) /\ Value_wf (root_ r))
  \/ parse features doc root collect = Aborted overflow.
Proof.
  intros H. pose proof (parse_sat features doc root collect H) as Hs.
  destruct (parse features doc root collect) as [[ok r]| |w]; cbn in Hs; [|done|].
  - left. by exists ok, r.
  - right. by rewrite Hs.
Qed.


(** Decoding a string token undoes [valueToQuotedString], for every string
    without a NUL character and whatever follows the closing quote; no error is
    recorded. *)
Theorem quoted_string_decodes s rest r :
  no_nul s ->
  readString ((drop 1 (valueToQuotedString s)) ++ rest) = (true, rest)
  /\ decodeString_text (mkToken tokenString (valueToQuotedString s ++ rest) rest) r = Ok (Some s, r).
Proof.
  intros Hs. pose proof (escaped_literal s Hs) as Hl.
  assert (Hq : valueToQuotedString s = quoted (escaped s)).
  { by rewrite valueToQuotedString_escaped, cstr_id. }
  rewrite Hq. split; [|by apply decodeString_text_literal]. unfold quoted.
  change (drop 1 (DQUOTE :: ?l)) with l. unfold readString. rewrite <- app_assoc.
  change ([DQUOTE] ++ rest) with (DQUOTE :: rest). by rewrite (literal_scans _ s NUL rest Hl).
Qed.

(** C39: the digits of a number token are decoded without wrap-around: when the
    decoder answers an integer, the text is a digit string, the integer is its
    exact value and it fits an [unsigned int]. *)
Theorem decode_digits_exact isNegative s v :
  decode_digits (number_threshold isNegative) 0 s = IsInteger v ->
  Forall (fun c => is_digit c = true) s /\ v = digits_from 0 s /\ 0 <= v <= UINT_MAX.
Proof. intros H. eapply decode_digits_sound; [apply number_threshold_bound|done|exact H]. Qed.

(** [\u] escapes: the UTF-16 escape of a code point, one unit or a surrogate
    pair, is decoded into the code point and nothing else is consumed. *)
Theorem unicode_escape_decodes cp rest :
  0 <= cp <= 0x10FFFF -> ~ 0xD800 <= cp <= 0xDBFF ->
  decodeUnicodeCodePoint (utf16_escape cp ++ rest) = inr (cp, rest).
Proof. apply decode_utf16. Qed.

(** [codePointToUTF8] is UTF-8: a decoder of UTF-8 reads the code point
    back from the bytes and stops after them. *)
Theorem codePointToUTF8_decodes cp rest :
  0 <= cp <= 0x10FFFF -> utf8_decode (codePointToUTF8 cp ++ rest) = Some (cp, rest).
Proof. apply utf8_decode_code. Qed.

End Theorems.

(** ** Instances at concrete documents *)

#[local] Existing Instance Binary64.ops.

Definition sample : Value :=
  mk (objectValue
    [(bs "list", mk (arrayValue [(0, mk (intValue 7)); (1, mk (intValue (-2147483639)));
                                 (2, mk (stringValue (Some [DQUOTE; LF; "065"%char]))); (3, mk nullValue)]));
     (bs "open", mk (booleanValue true)); (bs "size", mk (uintValue 4000000000))]).

Lemma sample_writable : writable sample.
Proof.
  apply writable_object; cbn; [by repeat constructor|by repeat constructor|done|].
  repeat constructor; done || (unfold INT_MAX; lia).
Qed.

Lemma fast_writer_roundtrip_witness :
  exists text w r, FastWriter_write (mkFastWriter true []) sample = Ok (text, w)
    /\ parse Features_all text (mkValue noComments (booleanValue true)) true = Ok (true, r)
    /\ root_ r = sample /\ errors_ r = [].
Proof. exact (fast_writer_roundtrip true true (booleanValue true) sample sample_writable). Defined.

Lemma parse_total_witness :
  (exists ok r, parse Features_strictMode (bs "{[1,}") null true = Ok (ok, r) /\ Value_wf (root_ r))
  \/ parse Features_strictMode (bs "{[1,}") null true = Aborted overflow.
Proof. apply (parse_total Features_strictMode (bs "{[1,}") null true). apply null_wf. Defined.


Lemma quoted_string_decodes_witness :
  readString (drop 1 (valueToQuotedString (bs "a/b")) ++ bs ",") = (true, bs ",")
  /\ decodeString_text (mkToken tokenString (valueToQuotedString (bs "a/b") ++ bs ",") (bs ","))
       (parse_start Features_all [] null true)
     = Ok (Some (bs "a/b"), parse_start Features_all [] null true).
Proof. apply (quoted_string_decodes (bs "a/b") (bs ",")). by repeat constructor. Defined.

Lemma decode_digits_exact_witness :
  Forall (fun c => is_digit c = true) (bs "4294967289")
  /\ 4294967289 = digits_from 0 (bs "4294967289") /\ 0 <= 4294967289 <= UINT_MAX.
Proof. apply (decode_digits_exact false (bs "4294967289")). reflexivity. Defined.

Lemma unicode_escape_decodes_witness :
  decodeUnicodeCodePoint (utf16_escape 0x1F600 ++ bs "!") = inr (0x1F600, bs "!").
Proof. apply unicode_escape_decodes; lia. Defined.

Lemma codePointToUTF8_decodes_witness :
  utf8_decode (codePointToUTF8 0x20AC ++ bs "!") = Some (0x20AC, bs "!").
Proof. apply codePointToUTF8_decodes; lia. Defined.

(** A document with blanks, members out of order, a repeated name, a surrogate
    pair, and an integer that becomes a double. *)
Definition name_a : bytes := quoted (bs "a").
Definition name_b : bytes := quoted (bs "b").
Definition smiley_members : bytes :=
  bs " " ++ name_b ++ bs " : [ -7, 12 ] , " ++ name_a ++ bs ":true," ++ name_b ++ bs ": "
    ++ quoted (bs "\uD83D\uDE00") ++ bs " ".

Definition smiley_doc : bytes := [LF] ++ ("{"%char :: smiley_members ++ bs "}") ++ bs " ".

Definition smiley : Value :=
  mk (objectValue [(bs "a", mk (booleanValue true));
                   (bs "b", mk (stringValue (Some (codePointToUTF8 0x1F600))))]).

Lemma smiley_document : padded document smiley_doc smiley.
Proof.
  assert (H7 : document (bs "-7") (mk (intValue (-7)))).
  { by apply document_number, (number_negative (bs "7") 7); [repeat constructor| | |]. }
  assert (H12 : document (bs "12") (mk (intValue 12))).
  { by apply document_number, (number_unsigned (bs "12") 12); [repeat constructor| | |]. }
  assert (Harr : document ("["%char :: bs " -7, 12 " ++ bs "]")
                   (mk (arrayValue (indexed 0 [mk (intValue (-7)); mk (intValue 12)])))).
  { apply document_array; [|done]. apply (separated_more (bs " -7") _ (bs " 12 ")).
    - by apply (padded_intro (bs " ") (bs "-7") _ []); [repeat constructor| |constructor].
    - apply separated_one. by apply (padded_intro (bs " ") (bs "12") _ (bs " ")); [repeat constructor| |repeat constructor]. }
  assert (Ha : literal (bs "a") (bs "a")) by (by apply plain_literal; repeat constructor).
  assert (Hb : literal (bs "b") (bs "b")) by (by apply plain_literal; repeat constructor).
  assert (Hs : literal (bs "\uD83D\uDE00") (codePointToUTF8 0x1F600)).
  { rewrite <- (app_nil_r (codePointToUTF8 _)).
    apply (literal_pair (hex4 0xD83D) 0xD83D (hex4 0xDE00) 0xDE00 [] []);
      try (apply unit16_hex4; lia); lia || constructor. }
  apply (padded_intro [LF] ("{"%char :: smiley_members ++ bs "}") smiley (bs " "));
    [by repeat constructor| |by repeat constructor].
  apply (document_object smiley_members
    [(bs "b", mk (arrayValue (indexed 0 [mk (intValue (-7)); mk (intValue 12)])));
     (bs "a", mk (booleanValue true)); (bs "b", mk (stringValue (Some (codePointToUTF8 0x1F600))))]).
  assert (Hsp : blanks (bs " ")) by (by repeat constructor).
  assert (Hno : blanks []) by constructor.
  apply (separated_more (bs " " ++ name_b ++ bs " : [ -7, 12 ] ") _
           (bs " " ++ name_a ++ bs ":true," ++ name_b ++ bs ": " ++ quoted (bs "\uD83D\uDE00") ++ bs " ")).
  - apply (padded_intro (bs " ") (name_b ++ bs " : [ -7, 12 ] ") _ []); [done| |done].
    apply (member_intro (bs "b") _ (bs " ") (bs " [ -7, 12 ] ")); [done|done|].
    by apply (padded_intro (bs " ") (bs "[ -7, 12 ]") _ (bs " ")).
  - apply (separated_more (bs " " ++ name_a ++ bs ":true") _
             (name_b ++ bs ": " ++ quoted (bs "\uD83D\uDE00") ++ bs " ")).
    + apply (padded_intro (bs " ") (name_a ++ bs ":true") _ []); [done| |done].
      apply (member_intro (bs "a") _ [] (bs "true")); [done|done|].
      apply (padded_intro [] (bs "true") _ []); [done|exact (document_bool true)|done].
    + apply separated_one.
      apply (padded_intro [] (name_b ++ bs ": " ++ quoted (bs "\uD83D\uDE00")) _ (bs " ")); [done| |done].
      apply (member_intro (bs "b") _ [] (bs " " ++ quoted (bs "\uD83D\uDE00"))); [done|done|].
      apply (padded_intro (bs " ") (quoted (bs "\uD83D\uDE00")) _ []); [done| |done].
      by apply (document_string (bs "\uD83D\uDE00") (codePointToUTF8 0x1F600)).
Qed.

