(* ===== verification/ValueTheorems.v ===== *)
(** * What [Json::Value] guarantees

    Every value the public operations can build is well formed; objects behave
    as finite maps from C strings, arrays as sequences when they have no holes
    (and what happens when they have); equality ignores comments and nothing
    else; the conversions succeed exactly when [isConvertibleTo] says so, but
    for the exceptions stated. *)

From Stdlib Require Import Relations.
From stdpp Require Import tactics.
From S2P Require Import Prelude OrdMap Doubles JsonValue JsonPaths JsonReaderFacts JsonScalars.

Section ValueTheorems.
Context {D : DoubleOps}.

(** ** The public operations as a step relation

    One step changes the value, or the value behind a reference into it. *)

Inductive api_step : Value -> Value -> Prop :=
| api_assign v w : Value_wf w -> api_step v (assign v w)
| api_swap v w : Value_wf w -> api_step v (swap v w).1
| api_index i v v' : index_ref i v = Ok v' -> api_step v v'
| api_member s v v' : resolveReference s v = Ok v' -> api_step v v'
| api_append x v v' : Value_wf x -> append x v = Ok v' -> api_step v v'
| api_resize n v v' : resize n v = Ok v' -> api_step v v'
| api_clear v v' : clear v = Ok v' -> api_step v v'
| api_remove s v old v' : removeMember s v = Ok (old, v') -> api_step v v'
| api_comment t p v v' : setComment t p v = Ok v' -> api_step v v'
| api_child p v w w' : vget p v = Some w -> api_step w w' -> api_step v (vmodify p (fun _ => w') v).

Lemma swap_wf v w : Value_wf v -> Value_wf w -> Value_wf (swap v w).1.
Proof.
  intros Hv Hw. apply Value_wf_inv in Hv as (Hc & _ & _). apply Value_wf_inv in Hw as (_ & Hp & Hch).
  by apply Value_wf_make.
Qed.

Lemma append_wf x v v' : Value_wf x -> Value_wf v -> append x v = Ok v' -> Value_wf v'.
Proof.
  unfold append. intros Hx Hv H. destruct (index_ref (size v) v) as [u| |] eqn:E; try discriminate H.
  apply Ok_inj in H as <-. apply vmodify_wf; [|by eapply index_ref_wf].
  intros w Hw. by apply assign_wf.
Qed.

Lemma erase_range_wf n i m :
  om_wf m /\ Forall is_int32 (om_keys m) /\ Forall Value_wf (om_values m) ->
  om_wf (erase_range n i m) /\ Forall is_int32 (om_keys (erase_range n i m))
  /\ Forall Value_wf (om_values (erase_range n i m)).
Proof.
  revert i m. induction n as [|n IH]; intros i m; cbn; [done|]. intros (Hw & Hk & Hv). apply IH.
  split_and!; auto using om_wf_erase, erase_keys, erase_values_wf.
Qed.

Lemma resize_wf n v v' : Value_wf v -> resize n v = Ok v' -> Value_wf v'.
Proof.
  intros Hv H. unfold resize in H.
  assert (Hv' := null_to_wf TarrayValue v Hv). set (u := null_to TarrayValue v) in *.
  destruct (value_ v) eqn:E; try discriminate H.
  all: destruct (n =? 0); [by eapply clear_wf|].
  all: destruct (size u <? n); [by eapply index_ref_wf|].
  all: destruct (value_ u) as [| | | | | |mu|] eqn:Eu; try discriminate H; unfold assertion in H;
       destruct (_ =? n); cbn in H; inv_ok.
  all: apply Value_wf_inv in Hv' as (Hc & Hp & Hch); rewrite Eu in Hp, Hch;
       destruct (erase_range_wf (Z.to_nat (size u - n)) n mu) as (Hw & Hk & Hvs); [by destruct Hp|];
       by apply Value_wf_make.
Qed.

Lemma removeMember_wf s v old v' :
  Value_wf v -> removeMember s v = Ok (old, v') -> Value_wf old /\ Value_wf v'.
Proof.
  intros Hv H. unfold removeMember in H. pose proof Hv as (Hc & Hp & Hch)%Value_wf_inv.
  assert (Hnull : Ok (null, v) = Ok (old, v') -> Value_wf old /\ Value_wf v').
  { intros [<- <-]%Ok_inj%pair_inj. split; [apply null_wf|done]. }
  destruct (value_ v) as [| | | | | | |m] eqn:E; try discriminate H; [by apply Hnull|].
  destruct (om_find (cstr s) m) as [w|] eqn:Ef; [|by apply Hnull].
  apply Ok_inj, pair_inj in H as [<- <-].
  assert (Hw : Value_wf w) by (by eapply find_wf). split; [by rewrite copy_id|].
  destruct Hp. apply Value_wf_make; cbn; [done| |by apply erase_values_wf].
  split; auto using om_wf_erase, erase_keys.
Qed.

Lemma api_step_wf v v' : api_step v v' -> Value_wf v -> Value_wf v'.
Proof.
  induction 1 as [v w Hw|v w Hw|i v v' H|s v v' H|x v v' Hx H|n v v' H|v v' H|s v old v' H
                 |t p v v' H|p v w w' Hg _ IH]; intros Hv.
  - by apply assign_wf.
  - by apply swap_wf.
  - by eapply index_ref_wf.
  - by eapply resolveReference_wf.
  - by apply (append_wf x v v').
  - by apply (resize_wf n v v').
  - by eapply clear_wf.
  - by destruct (removeMember_wf _ _ _ _ Hv H).
  - by eapply setComment_wf.
  - apply vmodify_const_wf; [done|]. apply IH. by eapply vget_wf.
Qed.

(** ** Objects as finite maps *)

(** What a lookup finds; a missing member is [None]. *)
Definition members (v : Value) (k : bytes) : option Value :=
  match value_ v with objectValue m => om_find k m | _ => None end.

Lemma member_const_members s v : isObject v = true -> member_const s v = Ok (members v (cstr s)).
Proof.
  unfold isObject, is_type, member_const, members, type. destruct (value_ v); by cbn.
Qed.

(** [v\[key\] = x] *)
Definition set_member (key : bytes) (x v : Value) : outcome Value :=
  let! v' := resolveReference key v in
  Ok (vmodify [AtMember (cstr key)] (fun old => assign old x) v').

Lemma null_to_object v : isObject v = true ->
  exists c m, null_to TobjectValue v = mkValue c (objectValue m)
              /\ forall k, om_find k m = members v k.
Proof.
  destruct v as [c p]. unfold isObject, is_type, type, members; cbn.
  destruct p; cbn; try done; intros _; by eexists _, _.
Qed.

Lemma set_member_spec key x v : Value_wf v -> Value_wf x -> isObject v = true ->
  exists v' y, set_member key x v = Ok v' /\ isObject v' = true
    /\ members v' (cstr key) = Some y /\ value_ y = value_ x
    /\ forall k, k <> cstr key -> members v' k = members v k.
Proof.
  intros Hv Hx Ho. unfold set_member, resolveReference.
  destruct (null_to_object v Ho) as (c & m & E & Hm). pose proof (null_to_wf TobjectValue v Hv) as Hw.
  rewrite E in *. cbn [value_ obind comments_].
  apply Value_wf_inv in Hw as (_ & [Hw _] & _).
  eexists _, (assign (default null (om_find (cstr key) m)) x). split; [done|].
  split; [done|]. cbn [vmodify child_modify value_ members]. split_and!.
  - unfold members; cbn. by rewrite om_find_alter_eq, om_find_touch_eq.
  - by rewrite assign_wf_eq.
  - intros k Hk. unfold members at 1; cbn. rewrite om_find_alter_ne, om_find_touch_ne; auto.
Qed.

Lemma removeMember_spec key v : Value_wf v -> isObject v = true ->
  exists old v', removeMember key v = Ok (old, v') /\ isObject v' = true
    /\ old = default null (members v (cstr key)) /\ members v' (cstr key) = None
    /\ forall k, k <> cstr key -> members v' k = members v k.
Proof.
  intros Hv Ho. pose proof Hv as (_ & Hp & Hch)%Value_wf_inv.
  unfold removeMember, members. destruct (value_ v) as [| | | | | | |m] eqn:E;
    try (unfold isObject, is_type, type in Ho; by rewrite E in Ho).
  - eexists _, _. split; [done|]. by rewrite E.
  - destruct Hp as [Hw _]. destruct (om_find (cstr key) m) as [w|] eqn:Ef.
    + eexists _, _. split; [done|]. split; [done|]. split; [by apply copy_id; eapply find_wf|].
      split; [by apply om_find_erase_eq|]. intros k Hk. by apply om_find_erase_ne.
    + eexists _, _. split; [done|]. rewrite E. done.
Qed.

(** ** Arrays *)

Lemma append_dense x v m :
  Value_wf x -> value_ v = arrayValue m -> dense_map m -> Z.of_nat (length m) < INT_MAX ->
  append x v = Ok (mkValue (comments_ v)
                     (arrayValue (m ++ [(Z.of_nat (length m), mk (value_ x))]))).
Proof.
  intros Hx Hm Hd Hlen. destruct v as [c p]. cbn in Hm. subst p. unfold append.
  rewrite dense_size by done. destruct (dense_from_app 0 m [(Z.of_nat (length m), x)]) as [_ Hb].
  assert (Hbelow : below m (Z.of_nat (length m))).
  { destruct Hd as [Hd _]. specialize (Hb (conj Hd (conj eq_refl I))).
    by apply (dense_from_below 0 m _ x []) in Hb as [_ Hb]. }
  assert (Hi : is_int32 (Z.of_nat (length m))) by (unfold is_int32, INT_MIN, INT_MAX in *; lia).
  pose proof (index_ref_put (Z.of_nat (length m)) m c Hi Hbelow) as E.
  rewrite to_uint32_id in E by (unfold is_uint32, UINT_MAX, INT_MAX in *; lia).
  rewrite E. cbn [obind]. rewrite to_int32_id by done. apply (f_equal Ok).
  cbn [vmodify child_modify value_ comments_]. rewrite om_alter_below_app by done.
  by rewrite assign_wf_eq.
Qed.

Lemma om_erase_filter (k : Z) (m : list (Z * Value)) :
  om_wf m -> om_erase k m = filter (fun kv => kv.1 <> k) m.
Proof.
  induction m as [|[k' v] m IH]; [done|]. intros [Ha Hw]. cbn [om_erase kcmp KeyOrd_Z].
  assert (Hfil : forall m' : list (Z * Value), above k' m' -> k <= k' -> filter (fun kv => kv.1 <> k) m' = m').
  { clear. induction 1 as [|[j w] m' Hj _ IH]; intros Hk; [done|]. change (k' < j) in Hj.
    rewrite filter_cons_True by (cbn; lia). by rewrite IH. }
  destruct (Z.compare_spec k k') as [<-|L|G].
  - rewrite filter_cons_False by (cbn; lia). by rewrite Hfil.
  - rewrite filter_cons_True by (cbn; lia). rewrite Hfil by (done || lia). done.
  - rewrite filter_cons_True by (cbn; lia). by rewrite IH.
Qed.

Lemma erase_range_filter n i (m : list (Z * Value)) :
  om_wf m -> INT_MIN <= i -> i + Z.of_nat n - 1 <= INT_MAX ->
  erase_range n i m = filter (fun kv => ~ (i <= kv.1 < i + Z.of_nat n)) m.
Proof.
  revert i m. induction n as [|n IH]; intros i m Hw Hi Hn; cbn [erase_range].
  - clear. induction m as [|kv m IH]; [done|]. rewrite filter_cons_True by lia. by rewrite <- IH.
  - rewrite to_int32_id by (unfold is_int32; lia). rewrite IH by (try lia; by apply om_wf_erase).
    rewrite om_erase_filter by done. rewrite list_filter_filter. apply list_filter_iff.
    intros kv. lia.
Qed.

Lemma last_key_max (m : list (Z * Value)) k v :
  om_wf m -> last m = Some (k, v) -> Forall (fun kv => kv.1 <= k) m.
Proof.
  intros Hw. induction m as [|[k' v'] m _] using rev_ind; [done|].
  rewrite last_snoc. intros [= -> ->]. apply Forall_app. split; [|by repeat constructor].
  apply om_wf_app_below in Hw. eapply Forall_impl; [exact Hw|]. intros kv Hkv.
  change (kv.1 < k) in Hkv. lia.
Qed.

Lemma last_of_max (m : list (Z * Value)) k v :
  om_find k m = Some v -> om_wf m -> Forall (fun kv => kv.1 <= k) m -> last m = Some (k, v).
Proof.
  intros Hf Hw Hm. induction m as [|[k' v'] m _] using rev_ind; [done|]. rewrite last_snoc.
  assert (Hin : (k, v) ∈ m ++ [(k', v')]) by (by apply om_find_in).
  apply elem_of_app in Hin as [Hin|Hin]; [|by apply list_elem_of_singleton in Hin as [= -> ->]].
  exfalso. apply om_wf_app_below in Hw. unfold below in Hw. rewrite Forall_forall in Hw.
  specialize (Hw _ Hin). change (k < k') in Hw.
  apply Forall_app in Hm as [_ Hm]. apply Forall_cons_1 in Hm as [Hm _]. cbn in Hm. lia.
Qed.

Lemma om_wf_filter (P : Z * Value -> Prop) `{forall x, Decision (P x)} (m : list (Z * Value)) :
  om_wf m -> om_wf (filter P m).
Proof.
  induction m as [|[k v] m IH]; [done|]. intros [Ha Hw]. rewrite filter_cons.
  destruct (decide (P (k, v))); [|by apply IH]. split; [|by apply IH].
  unfold above in *. rewrite Forall_forall in *. intros x [_ Hx]%list_elem_of_filter. by apply Ha.
Qed.

Definition index_map (m : list (Z * Value)) : Prop :=
  om_wf m /\ Forall (fun kv => 0 <= kv.1 <= INT_MAX) m.

Lemma size_last c m k v : index_map m -> last m = Some (k, v) ->
  size (mkValue c (arrayValue m)) = k + 1 /\ 0 <= k <= INT_MAX.
Proof.
  intros [_ Hm] Hl. apply last_Some_elem_of in Hl as Hin. rewrite Forall_forall in Hm.
  specialize (Hm _ Hin). cbn [fst] in Hm. split; [|done]. unfold size; cbn [value_]. rewrite Hl.
  apply to_uint32_id. unfold is_uint32, UINT_MAX, INT_MAX in *. lia.
Qed.

Lemma size_above c m : index_map m ->
  0 <= size (mkValue c (arrayValue m)) <= INT_MAX + 1
  /\ Forall (fun kv => kv.1 < size (mkValue c (arrayValue m))) m.
Proof.
  intros Hm. destruct (last m) as [[k v]|] eqn:Hl.
  - destruct (size_last c m k v Hm Hl) as [-> Hk]. split; [unfold INT_MAX in *; lia|].
    eapply Forall_impl; [by apply (last_key_max m k v); [apply Hm|]|]. cbn. intros kv. lia.
  - apply last_None in Hl as ->. by repeat constructor.
Qed.

Lemma size_filter c m n : index_map m -> 0 < n ->
  size (mkValue c (arrayValue (filter (fun kv => kv.1 < n) m))) = n
  <-> is_Some (om_find (n - 1) m).
Proof.
  intros [Hw Hm] Hn. set (f := filter _ m).
  assert (Hf : index_map f).
  { split; [by apply om_wf_filter|]. unfold f. rewrite Forall_forall in *.
    intros x [_ Hx]%list_elem_of_filter. by apply Hm. }
  split.
  - intros Hs. destruct (last f) as [[k v]|] eqn:Hl.
    + destruct (size_last c f k v Hf Hl) as [Hk _]. rewrite Hk in Hs.
      apply last_Some_elem_of, list_elem_of_filter in Hl as [_ Hin]. exists v.
      apply om_find_wf_in; [done|]. by replace (n - 1) with k by lia.
    + unfold size in Hs; cbn [value_] in Hs. rewrite Hl in Hs. lia.
  - intros [v Hv]. assert (Hlast : last f = Some (n - 1, v)).
    { apply last_of_max; [|apply Hf|].
      - apply om_find_wf_in; [apply Hf|]. apply list_elem_of_filter. split; [cbn; lia|].
        by apply om_find_in.
      - unfold f. rewrite Forall_forall. intros x [Hx _]%list_elem_of_filter. cbn in Hx. lia. }
    destruct (size_last c f _ v Hf Hlast) as [-> _]. lia.
Qed.

Lemma resize_shrink c m n : index_map m -> 0 < n <= size (mkValue c (arrayValue m)) ->
  resize n (mkValue c (arrayValue m))
  = if decide (is_Some (om_find (n - 1) m))
    then Ok (mkValue c (arrayValue (filter (fun kv => kv.1 < n) m)))
    else Aborted "size() == newSize".
Proof.
  intros Hm [Hn Hs]. pose proof (size_above c m Hm) as [Hmax Hlt].
  set (s := size (mkValue c (arrayValue m))) in *.
  assert (Her : erase_range (Z.to_nat (s - n)) n m = filter (fun kv => kv.1 < n) m).
  { rewrite erase_range_filter; [|apply Hm|unfold INT_MIN; lia|unfold INT_MAX in *; lia].
    rewrite Z2Nat.id by lia. clear -Hlt. clearbody s.
    induction Hlt as [|kv m Hk _ IH]; [done|]. rewrite !filter_cons, IH.
    do 2 destruct (decide _); try done; lia. }
  unfold resize. cbn [value_]. change (null_to TarrayValue (mkValue c (arrayValue m)))
    with (mkValue c (arrayValue m)). change (size (mkValue c (arrayValue m))) with s. cbn [value_].
  assert ((n =? 0) = false) as -> by lia. assert ((s <? n) = false) as -> by lia.
  rewrite Her. cbn [comments_]. pose proof (size_filter c m n Hm Hn) as Hsz.
  destruct (decide _) as [Hd|Hd].
  - apply Hsz in Hd. by rewrite Hd, Z.eqb_refl.
  - destruct (Z.eqb_spec (size (mkValue c (arrayValue (filter (fun kv => kv.1 < n) m)))) n)
      as [E|]; [by apply Hsz in E|done].
Qed.

Lemma resize_grow c m n :
  index_map m -> size (mkValue c (arrayValue m)) < n -> n <= INT_MAX ->
  exists v', resize n (mkValue c (arrayValue m)) = Ok v' /\ size v' = n
    /\ value_ v' = arrayValue (m ++ [(n - 1, null)]).
Proof.
  intros Hm Hs Hn. pose proof (size_above c m Hm) as [Hmax Hlt].
  exists (mkValue c (arrayValue (m ++ [(n - 1, null)]))). split; [|split; [|done]].
  - unfold resize. cbn [value_]. change (null_to TarrayValue (mkValue c (arrayValue m)))
      with (mkValue c (arrayValue m)).
    set (s := size (mkValue c (arrayValue m))) in *.
    assert ((n =? 0) = false) as -> by lia. assert ((s <? n) = true) as -> by lia.
    rewrite <- (to_uint32_id (n - 1)) at 1 by (unfold is_uint32, UINT_MAX, INT_MAX in *; lia).
    apply index_ref_put; [unfold is_int32, INT_MIN, INT_MAX in *; lia|].
    eapply Forall_impl; [exact Hlt|]. intros kv Hkv. change (kv.1 < n - 1). cbn beta in Hkv. clearbody s. lia.
  - unfold size. cbn [value_]. rewrite last_snoc.
    rewrite to_uint32_id by (unfold is_uint32, UINT_MAX, INT_MAX in *; lia). lia.
Qed.

(** ** Equality *)

Lemma strcmp_reflect a b : reflect (a = b) (match strcmp a b with Eq => true | _ => false end).
Proof.
  destruct (strcmp a b) eqn:E; constructor.
  - by apply strcmp_eq.
  - intros ->. by rewrite strcmp_refl in E.
  - intros ->. by rewrite strcmp_refl in E.
Qed.

Definition strip_map {K} (m : list (K * Value)) : list (K * Value) :=
  map (fun kv => (fst kv, strip (snd kv))) m.

(** The two loops over the entries are one function of the key test. *)
Fixpoint entries_equal {K} (eqk : K -> K -> bool) (m n : list (K * Value)) : bool :=
  match m, n with
  | [], [] => true
  | (k, x) :: m', (l, y) :: n' => eqk k l && equal x y && entries_equal eqk m' n'
  | _, _ => false
  end.

Lemma entries_equal_strip {K} (eqk : K -> K -> bool) (m n : list (K * Value)) :
  (forall k l, reflect (k = l) (eqk k l)) ->
  Forall (fun a => forall b, no_real a -> equal a b = true <-> strip a = strip b) (om_values m) ->
  Forall no_real (om_values m) ->
  entries_equal eqk m n = true <-> strip_map m = strip_map n.
Proof.
  intros Hk. unfold om_values. revert n. induction m as [|[k x] m IH]; intros [|[l y] n]; cbn;
    try done. change (map (fun kv => (kv.1, strip kv.2)) ?l) with (strip_map l).
    intros [Hx Hm]%Forall_cons_1 [Hr Hrs]%Forall_cons_1.
  rewrite !andb_true_iff, (IH n Hm Hrs), (Hx y Hr). destruct (Hk k l) as [->|Hne].
  - split; [by intros [[_ ->] ->]|by intros [= -> ->]].
  - split; [by intros [[? _] _]|congruence].
Qed.

Lemma equal_array c c' m n :
  equal (mkValue c (arrayValue m)) (mkValue c' (arrayValue n)) = entries_equal Z.eqb m n.
Proof.
  cbn [equal]. revert n. induction m as [|[k x] m IH]; intros [|[l y] n]; cbn [entries_equal]; try done.
  by rewrite <- IH.
Qed.

Lemma equal_object c c' m n :
  equal (mkValue c (objectValue m)) (mkValue c' (objectValue n))
  = entries_equal (fun k l => match strcmp k l with Eq => true | _ => false end) m n.
Proof.
  cbn [equal]. revert n. induction m as [|[k x] m IH]; intros [|[l y] n]; cbn [entries_equal]; try done.
  by rewrite <- IH.
Qed.

Lemma equal_strip a b : no_real a -> equal a b = true <-> strip a = strip b.
Proof.
  revert b. induction a as [c p IH] using Value_induction. intros [c' q] Hr.
  inversion Hr as [c0 p0 Hp Hch]; subst.
  destruct p as [|i|i|x|s|x|m|m], q as [|j|j|y|t|y|n|n];
    rewrite ?equal_array, ?equal_object; try done.
  - cbn. rewrite Z.eqb_eq. unfold mk. split; congruence.
  - cbn. rewrite Z.eqb_eq. unfold mk. split; congruence.
  - cbn. unfold mk. destruct s as [s|], t as [t|]; try done.
    destruct (strcmp_reflect s t); split; congruence.
  - cbn. rewrite Bool.eqb_true_iff. unfold mk. split; congruence.
  - rewrite (entries_equal_strip Z.eqb m n Z.eqb_spec IH Hch).
    change (strip (mkValue c (arrayValue m))) with (mkValue noComments (arrayValue (strip_map m))).
    change (strip (mkValue c' (arrayValue n))) with (mkValue noComments (arrayValue (strip_map n))).
    split; congruence.
  - rewrite (entries_equal_strip _ m n strcmp_reflect IH Hch).
    change (strip (mkValue c (objectValue m))) with (mkValue noComments (objectValue (strip_map m))).
    change (strip (mkValue c' (objectValue n))) with (mkValue noComments (objectValue (strip_map n))).
    split; congruence.
Qed.

(** ** Conversions *)

(** The one unsigned value on the wrong side of the test [value_.uint_ < maxInt]. *)
Definition is_uint_maxInt (v : Value) : bool :=
  match value_ v with uintValue u => u =? maxInt | _ => false end.

Ltac eval_types :=
  repeat match goal with
  | |- context [bool_decide (?a = ?a :> ValueType)] => rewrite (bool_decide_true (a = a)) by done
  | |- context [bool_decide (?a = ?b :> ValueType)] => rewrite (bool_decide_false (a = b)) by done
  end.

Lemma asInt_ok v :
  is_ok (asInt v) = isConvertibleTo v TintValue && negb (is_uint_maxInt v).
Proof.
  destruct v as [c p]. destruct p as [|i|u|r|s|b|m|m]; cbn; try done; eval_types; cbn [andb orb].
  - unfold assertion, maxInt.
    destruct (Z.ltb_spec u INT_MAX), (Z.leb_spec u INT_MAX), (Z.eqb_spec u INT_MAX); cbn;
      try done; lia.
  - unfold assertion. by destruct (_ && _).
Qed.

Lemma asUInt_ok v : is_ok (asUInt v) = isConvertibleTo v TuintValue.
Proof.
  destruct v as [c p]. destruct p as [|i|u|r|s|b|m|m]; cbn; try done; eval_types; cbn [andb orb].
  - unfold assertion. by destruct (0 <=? i).
  - unfold assertion. by destruct (_ && _).
Qed.

(** ** The properties *)


(** An object is a finite map from C strings: after [v\[key\] = x] the
    member [key] holds the contents of [x] and every other member is what it
    was, whether [v] was null, lacked the member or had it. *)
Theorem object_store key x v :
  Value_wf v -> Value_wf x -> isObject v = true ->
  exists v' y, set_member key x v = Ok v' /\ isObject v' = true
    /\ member_const key v' = Ok (Some y) /\ value_ y = value_ x
    /\ forall k, cstr k <> cstr key -> member_const k v' = member_const k v.
Proof.
  intros Hv Hx Ho. destruct (set_member_spec key x v Hv Hx Ho) as (v' & y & E & Ho' & Hy & Hval & Hk).
  exists v', y. split_and!; try done.
  - by rewrite member_const_members, Hy.
  - intros k Hne. by rewrite !member_const_members, Hk.
Qed.

(** [removeMember] returns the member (null when there is none), removes
    it and leaves the other members alone. *)
Theorem object_remove key v :
  Value_wf v -> isObject v = true ->
  exists old v', removeMember key v = Ok (old, v') /\ get_member key null v = Ok old
    /\ isMember key v' = Ok false
    /\ forall k, cstr k <> cstr key -> member_const k v' = member_const k v.
Proof.
  intros Hv Ho. destruct (removeMember_spec key v Hv Ho) as (old & v' & E & Ho' & Hold & Hn & Hk).
  exists old, v'. split_and!; try done.
  - unfold get_member. rewrite member_const_members by done. cbn [obind]. apply (f_equal Ok).
    rewrite Hold. apply copy_id. destruct (members v (cstr key)) as [w|] eqn:E'; [|apply null_wf].
    unfold members in E'. pose proof Hv as (_ & _ & Hch)%Value_wf_inv.
    destruct (value_ v); try discriminate E'. by eapply find_wf.
  - unfold isMember. by rewrite member_const_members, Hn.
  - intros k Hne. by rewrite !member_const_members, Hk.
Qed.

(** On an array without holes [append] is the snoc of sequences: the
    elements are kept, the new one is last, the array still has no holes and
    its size is one more. *)
Theorem append_snoc x v m :
  Value_wf x -> value_ v = arrayValue m -> dense_map m -> Z.of_nat (length m) < INT_MAX ->
  exists v', append x v = Ok v'
    /\ value_ v' = arrayValue (m ++ [(Z.of_nat (length m), mk (value_ x))])
    /\ dense v' /\ size v' = size v + 1.
Proof.
  intros Hx Hm Hd Hlen. eexists. split; [by apply (append_dense x v m)|]. split; [done|].
  assert (Hd' : dense_map (m ++ [(Z.of_nat (length m), mk (value_ x))])).
  { destruct Hd as [Hd _]. split; [by apply dense_from_app|]. rewrite length_app; cbn [length].
    unfold INT_MAX in *. lia. }
  split; [exact Hd'|]. rewrite dense_size by done. destruct v as [c p]. cbn in Hm. subst p.
  rewrite dense_size by done. rewrite length_app; cbn [length]. lia.
Qed.

(** [resize] on an array.  Growing keeps every element and adds a null one
    at the new last index; shrinking keeps exactly the elements below the new
    size, provided the last of them is present: on an array with a hole there
    the assertion on the resulting size fails. *)
Theorem resize_outcomes c m n :
  index_map m -> 0 < n <= INT_MAX ->
  let v := mkValue c (arrayValue m) in
  if size v <? n then
    exists v', resize n v = Ok v' /\ size v' = n /\ value_ v' = arrayValue (m ++ [(n - 1, null)])
  else if decide (is_Some (om_find (n - 1) m)) then
    exists v', resize n v = Ok v' /\ size v' = n
      /\ value_ v' = arrayValue (filter (fun kv => kv.1 < n) m)
  else resize n v = Aborted "size() == newSize".
Proof.
  intros Hm Hn v. destruct (Z.ltb_spec (size v) n) as [Hs|Hs].
  - apply resize_grow; [done|exact Hs|lia].
  - pose proof (resize_shrink c m n Hm (conj (proj1 Hn) Hs)) as E. fold v in E.
    destruct (decide (is_Some (om_find (n - 1) m))) as [Hd|Hd]; [|exact E].
    eexists. split; [exact E|]. split; [|done]. apply size_filter; [done|lia|done].
Qed.

(** [operator==] holds exactly between values with the same contents:
    comments, at any depth, are the only thing it ignores (floating point
    members apart, which it compares as numbers). *)
Theorem equal_ignores_comments_only a b :
  no_real a -> equal a b = true <-> strip a = strip b.
Proof. apply equal_strip. Qed.

(** [asInt] and [asUInt] succeed exactly on the values that
    [isConvertibleTo] admits, with one exception: the unsigned integer
    [maxInt], which is convertible and which [asInt] refuses. *)
Theorem integer_conversions v :
  is_ok (asInt v) = isConvertibleTo v TintValue && negb (is_uint_maxInt v)
  /\ is_ok (asUInt v) = isConvertibleTo v TuintValue.
Proof. split; [apply asInt_ok|apply asUInt_ok]. Qed.

End ValueTheorems.

(** ** Instances at concrete values *)

#[local] Existing Instance Binary64.ops.


Definition one_member : Value := mk (objectValue [(bs "a", mk (intValue 1))]).

Lemma one_member_wf : Value_wf one_member.
Proof.
  repeat constructor; done.
Qed.

Lemma object_store_witness :
  exists v' y, set_member (bs "b") null one_member = Ok v' /\ isObject v' = true
    /\ member_const (bs "b") v' = Ok (Some y) /\ value_ y = value_ null
    /\ forall k, cstr k <> cstr (bs "b") -> member_const k v' = member_const k one_member.
Proof. apply object_store; [apply one_member_wf|apply null_wf|reflexivity]. Defined.

Lemma object_remove_witness :
  exists old v', removeMember (bs "a") one_member = Ok (old, v')
    /\ get_member (bs "a") null one_member = Ok old /\ isMember (bs "a") v' = Ok false
    /\ forall k, cstr k <> cstr (bs "a") -> member_const k v' = member_const k one_member.
Proof. apply object_remove; [apply one_member_wf|reflexivity]. Defined.

Lemma append_snoc_witness :
  exists v', append one_member (mk (arrayValue [(0, null)])) = Ok v'
    /\ value_ v' = arrayValue ([(0, null)] ++ [(1, mk (value_ one_member))])
    /\ dense v' /\ size v' = size (mk (arrayValue [(0, null)])) + 1.
Proof.
  apply (append_snoc one_member (mk (arrayValue [(0, null)])) [(0, null)]);
    [apply one_member_wf|reflexivity|split; [split; [reflexivity|exact I]|]|]; cbn; unfold INT_MAX; lia.
Defined.

Lemma resize_outcomes_witness :
  resize 2 (mk (arrayValue [(0, null); (4, null)])) = Aborted "size() == newSize".
Proof.
  apply (resize_outcomes noComments [(0, null); (4, null)] 2).
  - split; [by repeat constructor|]. repeat constructor; cbn; unfold INT_MAX; lia.
  - unfold INT_MAX. lia.
Defined.

Lemma equal_ignores_comments_only_witness :
  equal one_member (mkValue (mkComments (Some (bs "// x")) None None) (value_ one_member)) = true
  <-> strip one_member = strip (mkValue (mkComments (Some (bs "// x")) None None) (value_ one_member)).
Proof. apply equal_ignores_comments_only. by repeat constructor. Defined.
