(* ===== verification/Utils.v ===== *)
(** * Helpers of the launchers ([lib/kickstart/utils.cc])

    [escape], [split], [escapeJsonString], the command line splitter [parse],
    [checkifexecutable] and the search in PATH.  Buffers whose size matters
    ([pth], [argv]) are lists; an access outside of one ends the run. *)

From stdpp Require Import tactics.
From S2P Require Import Prelude.

(** ** [escape] *)

Definition toBeEscaped : bytes :=
  [" "%char; ":"%char; ";"%char; "/"%char; "#"%char; BACKSLASH; "'"%char; DQUOTE].

(** [s.find(c, pos)] *)
Fixpoint find_char (c : ascii) (s : bytes) : option nat :=
  match s with
  | [] => None
  | x :: s' => if Ascii.eqb x c then Some O else S <$> find_char c s'
  end.

Definition find_from (c : ascii) (pos : nat) (s : bytes) : option nat :=
  (fun i => (pos + i)%nat) <$> find_char c (drop pos s).

(** The loop [while (position != string::npos)]. *)
Fixpoint escape_loop (n : nat) (c : ascii) (input : bytes) (position : option nat)
  : outcome bytes :=
  match position with
  | None => Ok input
  | Some p =>
      match n with
      | O => OutOfFuel
      | S n' =>
          let input := <[p := "_"%char]> input in
          escape_loop n' c input (find_from c (p + 1) input)
      end
  end.

Fixpoint escape_each (cs : bytes) (input : bytes) : outcome bytes :=
  match cs with
  | [] => Ok input
  | c :: cs' =>
      let! input := escape_loop (S (length input)) c input (find_from c 0 input) in
      escape_each cs' input
  end.

Definition escape (input : bytes) : outcome bytes := escape_each toBeEscaped input.

(** ** [split] *)

Definition is_prefix (p s : bytes) : bool := bool_decide (take (length p) s = p).

(** [search]: what precedes the first occurrence and what follows it. *)
Fixpoint search (delim s : bytes) : option (bytes * bytes) :=
  if is_prefix delim s then Some ([], drop (length delim) s)
  else
    match s with
    | [] => None
    | c :: s' => prod_map (cons c) id <$> search delim s'
    end.

Fixpoint split_loop (n : nat) (s delim : bytes) (keep_empty : bool) (result : list bytes)
  : outcome (list bytes) :=
  match n with
  | O => OutOfFuel
  | S n' =>
      let '(temp, rest) :=
        match search delim s with
        | Some (temp, rest) => (temp, Some rest)
        | None => (s, None)
        end in
      let result := if keep_empty || negb (bool_decide (temp = [])) then result ++ [temp] else result in
      match rest with
      | None => Ok result
      | Some s => split_loop n' s delim keep_empty result
      end
  end.

Definition split (s delim : bytes) (keep_empty : bool) : outcome (list bytes) :=
  match delim with
  | [] => Ok [s]
  | _ => split_loop (S (length s)) s delim keep_empty []
  end.

(** ** [escapeJsonString] *)

Definition escapeJson_char (c : ascii) : bytes :=
  if Ascii.eqb c BACKSLASH then [BACKSLASH; BACKSLASH]
  else if Ascii.eqb c DQUOTE then [BACKSLASH; DQUOTE]
  else if Ascii.eqb c BSP then bs "\b"
  else if Ascii.eqb c FF then bs "\f"
  else if Ascii.eqb c LF then bs "\n"
  else if Ascii.eqb c CR then bs "\r"
  else if Ascii.eqb c TAB then bs "\t"
  else [c].

Definition escapeJsonString (input : bytes) : bytes := concat (map escapeJson_char input).

(** ** [parse]

    Cuts a command line in place: blanks in front of a word become NULs, the
    argument vector receives the positions of the words. *)

Definition is_blank (c : ascii) : bool :=
  Ascii.eqb c " " || Ascii.eqb c TAB || Ascii.eqb c LF.

Fixpoint span (p : ascii -> bool) (s : bytes) : bytes * bytes :=
  match s with
  | [] => ([], [])
  | c :: s' => if p c then let '(a, b) := span p s' in (c :: a, b) else ([], s)
  end.

(** [line] is what is left to read, [before] the buffer already passed,
    [argv] the positions stored so far. *)
Fixpoint parse_loop (n : nat) (line before : bytes) (argv : list nat) : outcome (list nat * bytes) :=
  match line with
  | [] => Ok (argv, before)
  | _ =>
      match n with
      | O => OutOfFuel
      | S n' =>
          let '(blanks, line) := span is_blank line in
          let before := before ++ replicate (length blanks) NUL in
          let '(word, line) := span (fun c => negb (is_blank c)) line in
          parse_loop n' line (before ++ word) (argv ++ [length before])
      end
  end.

Definition parse (line : bytes) : outcome (list nat * bytes) :=
  parse_loop (S (length line)) line [] [].

(** The C string at a position of the buffer. *)
Definition string_at (buffer : bytes) (pos : nat) : bytes := cstr (drop pos buffer).

Definition parsed_arguments (line : bytes) : outcome (list bytes) :=
  let! (argv, buffer) := parse line in Ok (map (string_at buffer) argv).

(** [char *arguments\[room\]; parse(line, arguments)]: the positions and the
    closing null pointer are written without a check. *)
Definition parse_into (room : nat) (line : bytes) : outcome (list bytes) :=
  let! args := parsed_arguments line in
  let! _ := assertion (length args + 1 <=? room)%nat "arguments out of bounds" in
  Ok args.

(** ** Executables *)

Record Stat := mkStat { st_reg : bool; st_uid : Z; st_gid : Z; st_mode : Z }.

(** Octal 100, 010 and 001. *)
Definition S_IXUSR : Z := 64.
Definition S_IXGRP : Z := 8.
Definition S_IXOTH : Z := 1.

(** Credentials and file system are the operating system's. *)
Definition checkifexecutable (stat : bytes -> option Stat) (euid egid : Z) (filename : bytes) : Z :=
  match stat filename with
  | None => 0
  | Some statinfo =>
      if negb (st_reg statinfo) then 0
      else if st_uid statinfo =? euid then Z.land (st_mode statinfo) S_IXUSR
      else if st_gid statinfo =? egid then Z.land (st_mode statinfo) S_IXGRP
      else Z.land (st_mode statinfo) S_IXOTH
  end.

Section FindPath.
Context (PATH_MAX : nat) (realpath : bytes -> option bytes) (check : bytes -> Z).

(** One directory of the list: copy it to [pth], add a slash, add the name.
    [pth] has room for [PATH_MAX] characters and the NUL. *)
Definition candidate (dir exe : bytes) (stop : bool) : outcome bytes :=
  let len := length dir in
  let! _ := assertion (if stop then (len <? PATH_MAX)%nat else (len <=? PATH_MAX)%nat)
              "pth overflow" in
  let! c := match last dir with
            | Some c => Ok c
            | None => Aborted "pth[-1]"
            end in
  let pth := if Ascii.eqb c "/" then dir else dir ++ bs "/" in
  let pth := pth ++ take (PATH_MAX - len) exe in
  let! _ := assertion (length pth <=? PATH_MAX)%nat "pth overflow" in
  Ok pth.

Fixpoint findpath_loop (n : nat) (beg exe : bytes) : outcome (Z * bytes) :=
  match n with
  | O => OutOfFuel
  | S n' =>
      let '(dir, rest) := span (fun c => negb (Ascii.eqb c ":")) beg in
      let stop := match rest with [] => true | _ => false end in
      let! pth := candidate dir exe stop in
      let found := check pth in
      if negb stop && (found =? 0) then findpath_loop n' (drop 1 rest) exe
      else Ok (found, pth)
  end.

Definition findpathof (PATH : option bytes) (exe : bytes) : outcome (Z * bytes) :=
  if existsb (fun c => Ascii.eqb c "/") exe then
    match realpath exe with
    | None => Ok (0, [])
    | Some pth => Ok (check pth, pth)
    end
  else
    match PATH with
    | None | Some [] => Ok (0, [])
    | Some searchpath => findpath_loop (S (length searchpath)) searchpath exe
    end.

End FindPath.
