(* ===== verification/UtilsTheorems.v ===== *)
(** * What the helpers of [lib/kickstart/utils.cc] guarantee *)

From stdpp Require Import tactics.
From S2P Require Import Prelude Doubles JsonWriter JsonReader JsonScalars Utils.

(** ** [escape] *)

Definition substitute (cs : bytes) (x : ascii) : ascii :=
  if existsb (Ascii.eqb x) cs then "_"%char else x.

Lemma find_char_spec c s :
  match find_char c s with
  | Some i => exists a b, s = a ++ c :: b /\ length a = i /\ map (substitute [c]) a = a
  | None => map (substitute [c]) s = s
  end.
Proof.
  induction s as [|x s IH]; cbn [find_char]; [done|].
  destruct (Ascii.eqb_spec x c) as [->|Hne]; [by exists [], s|].
  assert (Hx : substitute [c] x = x).
  { unfold substitute. cbn. by rewrite ascii_eqb_ne. }
  destruct (find_char c s) as [i|]; cbn [fmap option_fmap option_map].
  - destruct IH as (a & b & -> & <- & Ha). exists (x :: a), b. cbn [map length app]. by rewrite Hx, Ha.
  - cbn [map]. by rewrite Hx, IH.
Qed.

Lemma escape_loop_spec n c a b :
  (length b < n)%nat -> c <> "_"%char ->
  escape_loop n c (a ++ b) (find_from c (length a) (a ++ b)) = Ok (a ++ map (substitute [c]) b).
Proof.
  intros Hn Hc. revert a b Hn. induction n as [|n IH]; intros a b Hn; [lia|].
  unfold find_from. rewrite drop_app_length. pose proof (find_char_spec c b) as H.
  destruct (find_char c b) as [i|]; cbn [fmap option_fmap option_map escape_loop]; [|by rewrite H].
  destruct H as (x & y & -> & <- & Hx).
  assert (Hins : <[(length a + length x)%nat := "_"%char]> (a ++ x ++ c :: y)
                 = (a ++ x ++ ["_"%char]) ++ y).
  { rewrite insert_app_r, insert_app_r_alt by lia. rewrite Nat.sub_diag. cbn.
    by rewrite <- !app_assoc. }
  rewrite Hins. replace (length a + length x + 1)%nat with (length (a ++ x ++ ["_"%char]))
    by (rewrite !length_app; cbn; lia).
  rewrite length_app in Hn. cbn in Hn. rewrite IH by lia.
  rewrite map_app, Hx. cbn [map]. unfold substitute at 2. cbn. rewrite Ascii.eqb_refl. cbn.
  by rewrite <- !app_assoc.
Qed.

Lemma escape_each_spec cs input :
  Forall (fun c => c <> "_"%char) cs -> escape_each cs input = Ok (map (substitute cs) input).
Proof.
  intros Hcs. revert input. induction Hcs as [|c cs Hc Hcs IH]; intros input; cbn [escape_each].
  - apply (f_equal Ok). symmetry. apply map_id.
  - pose proof (escape_loop_spec (S (length input)) c [] input ltac:(lia) Hc) as E.
    cbn [length app] in E. rewrite E. cbn [obind]. rewrite IH, map_map. apply (f_equal Ok).
    apply map_ext. intros x. unfold substitute. cbn [existsb].
    destruct (Ascii.eqb x c); cbn [orb]; [|done].
    by destruct (existsb (Ascii.eqb "_") cs).
Qed.

(** ** [split] *)


Definition occurs (delim s : bytes) : Prop := exists x y, s = x ++ delim ++ y.

Lemma is_prefix_app p s : is_prefix p (p ++ s) = true.
Proof. unfold is_prefix. by rewrite take_app_length, bool_decide_true. Qed.

Lemma search_spec delim s : delim <> [] ->
  match search delim s with
  | Some (a, b) => s = a ++ delim ++ b /\ ~ occurs delim a
  | None => ~ occurs delim s
  end.
Proof.
  intros Hd. induction s as [|c s IH]; cbn [search].
  - unfold is_prefix. rewrite bool_decide_false by (by destruct delim). intros (x & y & E).
    by destruct x, delim.
  - destruct (is_prefix delim (c :: s)) eqn:Hp.
    + unfold is_prefix in Hp. apply bool_decide_eq_true in Hp. split.
      * cbn [app]. by rewrite <- (take_drop (length delim) (c :: s)), Hp at 1.
      * intros (x & y & E). by destruct x, delim.
    + assert (Hx : forall t x y, c :: t = x ++ delim ++ y -> is_prefix delim (c :: s) = false ->
                     t `prefix_of` s -> exists x', t = x' ++ delim ++ y).
      { intros t [|d x] y E Hf [z ->]; cbn in E.
        - exfalso. change (c :: t ++ z) with ((c :: t) ++ z) in Hf. rewrite E, <- app_assoc in Hf.
          by rewrite is_prefix_app in Hf.
        - injection E as -> ->. by exists x. }
      destruct (search delim s) as [[a b]|]; cbn [fmap option_fmap option_map prod_map id fst snd].
      * destruct IH as [-> Ha]. split; [done|]. intros (x & y & E).
        destruct (Hx a x y E Hp) as [x' ->]; [by eexists|]. apply Ha. by exists x', y.
      * intros (x & y & E). destruct (Hx s x y E Hp) as [x' E']; [done|]. apply IH. by exists x', y.
Qed.

Lemma split_loop_spec n s delim : delim <> [] -> (length s < n)%nat ->
  exists parts,
    (forall keep acc, split_loop n s delim keep acc
       = Ok (acc ++ if keep then parts else filter (fun p => p <> []) parts))
    /\ parts <> [] /\ join delim parts = s /\ Forall (fun p => ~ occurs delim p) parts.
Proof.
  intros Hd. revert s. induction n as [|n IH]; intros s Hn; [lia|].
  cbn [split_loop]. pose proof (search_spec delim s Hd) as Hs.
  assert (Hone : forall (temp : bytes) (keep : bool) (acc : list bytes),
            (if keep || negb (bool_decide (temp = [])) then acc ++ [temp] else acc)
            = acc ++ if keep then [temp] else filter (fun p => p <> []) [temp]).
  { intros temp keep acc. destruct keep; [done|]. cbn [orb]. rewrite filter_cons.
    case_bool_decide; destruct (decide _); try done. by rewrite app_nil_r. }
  destruct (search delim s) as [[temp rest]|].
  - destruct Hs as [-> Ho]. rewrite !length_app in Hn.
    assert (length delim <> 0%nat) by (by destruct delim).
    destruct (IH rest) as (parts & E & Hne & Hj & Hf); [lia|].
    exists (temp :: parts). split; [|split; [done|split; [|by constructor]]].
    + intros keep acc. rewrite Hone, E, <- app_assoc. apply (f_equal Ok), (f_equal (app acc)).
      destruct keep; [done|]. by rewrite <- (filter_app _ [temp] parts).
    + destruct parts; [done|]. cbn [join]. by rewrite <- Hj.
  - exists [s]. split; [|split; [done|split; [done|by constructor]]].
    intros keep acc. by rewrite Hone.
Qed.

(** ** [escapeJsonString] *)

Lemma escapeJson_literal s : literal (escapeJsonString s) s.
Proof.
  induction s as [|c s IH]; [constructor|]. unfold escapeJsonString in *. cbn [map concat].
  unfold escapeJson_char.
  repeat match goal with
  | |- context [if Ascii.eqb c ?d then _ else _] =>
      destruct (Ascii.eqb_spec c d) as [->|]; [by apply literal_escape|]
  end.
  by apply literal_plain.
Qed.

(** ** [parse] *)

(** The words of a text: its maximal runs of characters that are not blanks. *)
Definition starts_word (s : bytes) : bool :=
  match s with d :: _ => negb (is_blank d) | [] => false end.

Fixpoint words (s : bytes) : list bytes :=
  match s with
  | [] => []
  | c :: s' =>
      if is_blank c then words s'
      else if starts_word s' then
        match words s' with
        | w :: ws => (c :: w) :: ws
        | [] => [[c]]
        end
      else [c] :: words s'
  end.

Definition ends_blank (s : bytes) : bool :=
  match last s with Some c => is_blank c | None => false end.

(** Blanks at the end of the line make [parse] store one more, empty, word. *)
Definition command_words (s : bytes) : list bytes :=
  words s ++ if ends_blank s then [[]] else [].

Lemma span_spec p s :
  let '(a, b) := span p s in
  s = a ++ b /\ Forall (fun c => p c = true) a
  /\ match b with [] => True | c :: _ => p c = false end.
Proof.
  induction s as [|c s IH]; cbn; [done|]. destruct (p c) eqn:E; [|done].
  destruct (span p s) as [a b]. destruct IH as (-> & Ha & Hb). by repeat constructor.
Qed.

Lemma words_blanks a s : Forall (fun c => is_blank c = true) a -> words (a ++ s) = words s.
Proof. induction 1 as [|c a Hc _ IH]; cbn [words app]; [done|]. by rewrite Hc. Qed.

Lemma words_word c w s :
  Forall (fun x => is_blank x = false) (c :: w) ->
  match s with [] => True | d :: _ => is_blank d = true end ->
  words ((c :: w) ++ s) = (c :: w) :: words s.
Proof.
  revert c. induction w as [|d w IH]; intros c [Hc Hw]%Forall_cons_1 Hs.
  - cbn [words app]. rewrite Hc.
    assert (starts_word s = false) as -> by (destruct s; [done|]; by cbn; rewrite Hs). done.
  - specialize (IH d Hw Hs). cbn [app] in *. remember (d :: w ++ s) as t eqn:Et.
    cbn [words]. rewrite Hc, IH. subst t. apply Forall_cons_1 in Hw as [Hd _].
    unfold starts_word. by rewrite Hd.
Qed.

Lemma ends_blank_app a b : b <> [] -> ends_blank (a ++ b) = ends_blank b.
Proof.
  intros Hb. unfold ends_blank. rewrite last_app.
  destruct (last b) eqn:E; [done|]. by apply last_None in E.
Qed.

Lemma ends_blank_all s b : s <> [] -> Forall (fun c => is_blank c = b) s -> ends_blank s = b.
Proof.
  intros Hs Hf. unfold ends_blank. destruct (last s) as [c|] eqn:E; [|by apply last_None in E].
  apply last_Some_elem_of in E. rewrite Forall_forall in Hf. by apply Hf.
Qed.

Lemma cstr_word w tail : no_nul w -> (tail = [] \/ head tail = Some NUL) -> cstr (w ++ tail) = w.
Proof.
  intros Hw Ht. induction Hw as [|c w Hc _ IH]; cbn.
  - destruct Ht as [->|Ht]; [done|]. destruct tail as [|d t]; [done|]. injection Ht as ->. done.
  - by rewrite ascii_eqb_ne, IH.
Qed.

Lemma parse_loop_step n line before argv : line <> [] ->
  parse_loop (S n) line before argv =
    let '(blanks, line) := span is_blank line in
    let before := before ++ replicate (length blanks) NUL in
    let '(word, line) := span (fun c => negb (is_blank c)) line in
    parse_loop n line (before ++ word) (argv ++ [length before]).
Proof. by destruct line. Qed.

Lemma parse_loop_spec n line before argv :
  (length line < n)%nat -> no_nul line ->
  exists positions tail,
    parse_loop n line before argv = Ok (argv ++ positions, before ++ tail)
    /\ map (string_at (before ++ tail)) positions = command_words line
    /\ (line = [] -> tail = []) /\ (line <> [] -> starts_word line = false -> head tail = Some NUL).
Proof.
  revert line before argv. induction n as [|n IH]; intros line before argv Hn Hnul; [lia|].
  destruct (decide (line = [])) as [->|Hne]; [exists [], []; by rewrite !app_nil_r|].
  rewrite parse_loop_step by done.
  pose proof (span_spec is_blank line) as H1. destruct (span is_blank line) as [bl l1].
  destruct H1 as (-> & Hbl & Hl1).
  pose proof (span_spec (fun c => negb (is_blank c)) l1) as H2.
  destruct (span (fun c => negb (is_blank c)) l1) as [w l2]. destruct H2 as (-> & Hw & Hl2).
  apply Forall_app in Hnul as [_ [Hnw Hn2]%Forall_app].
  assert (Hw' : Forall (fun x => is_blank x = false) w).
  { eapply Forall_impl; [exact Hw|]. intros x Hx. by apply negb_true_iff. }
  assert (Hsw : starts_word l2 = false) by (by destruct l2; cbn in *).
  assert (Hl2' : match l2 with [] => True | d :: _ => is_blank d = true end).
  { destruct l2; [done|]. by apply negb_false_iff. }
  cbv zeta. set (before' := before ++ replicate (length bl) NUL).
  rewrite !length_app in Hn.
  destruct (IH l2 (before' ++ w) (argv ++ [length before'])) as (ps & tail & E & Hps & Ht0 & Ht1);
    [|done|].
  { destruct bl, w; cbn in *; try lia. destruct l2; [done|]. congruence. }
  exists (length before' :: ps), (replicate (length bl) NUL ++ w ++ tail).
  split; [|split; [|split]].
  - rewrite E. unfold before'. by rewrite <- !app_assoc.
  - assert (Hbuf : before ++ replicate (length bl) NUL ++ w ++ tail = (before' ++ w) ++ tail)
      by (unfold before'; by rewrite <- !app_assoc).
    rewrite Hbuf. cbn [map]. rewrite Hps. unfold string_at at 1.
    rewrite <- app_assoc, drop_app_length.
    rewrite cstr_word; [|done|destruct l2; [left; by apply Ht0|right; by apply Ht1]].
    unfold command_words. rewrite words_blanks by done. destruct w as [|d w].
    + assert (l2 = []) as -> by (destruct l2; [done|]; cbn in *; congruence).
      cbn [app words]. rewrite app_nil_r. rewrite (ends_blank_all bl true); [done| |done].
      by destruct bl.
    + rewrite words_word by done. rewrite ends_blank_app by done. cbn [app]. apply (f_equal (cons (d :: w))).
      apply (f_equal (app (words l2))). destruct l2 as [|e l2].
      * rewrite app_nil_r. by rewrite (ends_blank_all (d :: w) false).
      * change (d :: w ++ e :: l2) with ((d :: w) ++ e :: l2). by rewrite ends_blank_app.
  - intros E'. by apply app_eq_nil in E' as [-> [-> ->]%app_eq_nil].
  - intros _ Hst. destruct bl as [|c bl]; [|done]. cbn in *.
    destruct w as [|d w]; cbn in *; [by destruct l2; cbn in *; try congruence|].
    apply Forall_cons_1 in Hw as [Hd _]. congruence.
Qed.

(** ** The search in PATH *)

Section FindPath.
Context (PATH_MAX : nat) (realpath : bytes -> option bytes) (check : bytes -> Z).

Definition with_slash (dir : bytes) : bytes :=
  match last dir with
  | Some c => if Ascii.eqb c "/" then dir else dir ++ bs "/"
  | None => dir
  end.

(** A directory of PATH the buffer has room for. *)
Definition usable (exe dir : bytes) : Prop :=
  dir <> [] /\ Forall (fun c => c <> ":"%char) dir /\ (length dir + 1 + length exe <= PATH_MAX)%nat.

Lemma candidate_ok exe dir stop :
  usable exe dir -> candidate PATH_MAX dir exe stop = Ok (with_slash dir ++ exe).
Proof.
  intros (Hne & _ & Hlen). unfold candidate, with_slash.
  assert (Ha : (if stop then (length dir <? PATH_MAX)%nat else (length dir <=? PATH_MAX)%nat) = true).
  { destruct stop; [apply Nat.ltb_lt|apply Nat.leb_le]; lia. }
  rewrite Ha. cbn [assertion obind]. destruct (last dir) as [c|] eqn:E; [|by apply last_None in E].
  cbn [obind]. rewrite take_ge by lia.
  assert (Hb : (length ((if Ascii.eqb c "/" then dir else dir ++ bs "/") ++ exe) <=? PATH_MAX)%nat = true).
  { apply Nat.leb_le. destruct (Ascii.eqb c "/"); rewrite !length_app; cbn; lia. }
  by rewrite Hb.
Qed.

Lemma span_dir dir rest :
  Forall (fun c => c <> ":"%char) dir ->
  span (fun c => negb (Ascii.eqb c ":")) (dir ++ ":"%char :: rest) = (dir, ":"%char :: rest).
Proof.
  induction 1 as [|c dir Hc _ IH]; cbn; [done|]. by rewrite ascii_eqb_ne, IH.
Qed.

Lemma span_last_dir dir :
  Forall (fun c => c <> ":"%char) dir -> span (fun c => negb (Ascii.eqb c ":")) dir = (dir, []).
Proof.
  induction 1 as [|c dir Hc _ IH]; cbn; [done|]. by rewrite ascii_eqb_ne, IH.
Qed.

Lemma findpath_loop_spec exe dirs n :
  Forall (usable exe) dirs -> dirs <> [] -> (length dirs <= n)%nat ->
  exists d1 d d2, dirs = d1 ++ d :: d2
    /\ Forall (fun x => check (with_slash x ++ exe) = 0) d1
    /\ (check (with_slash d ++ exe) = 0 -> d2 = [])
    /\ findpath_loop PATH_MAX check n (join (bs ":") dirs) exe
       = Ok (check (with_slash d ++ exe), with_slash d ++ exe).
Proof.
  intros Hu. revert n. induction Hu as [|d dirs Hd Hu IH]; intros [|n] Hne Hn; cbn in Hn; try done; try lia.
  cbn [findpath_loop]. destruct dirs as [|d' dirs].
  - cbn [join]. rewrite span_last_dir by apply Hd. rewrite candidate_ok by done. cbn [obind].
    by exists [], d, [].
  - change (join (bs ":") (d :: d' :: dirs)) with (d ++ ":"%char :: join (bs ":") (d' :: dirs)).
    rewrite span_dir by apply Hd. rewrite candidate_ok by done. cbn [obind].
    destruct (Z.eqb_spec (check (with_slash d ++ exe)) 0) as [E|E]; cbn [negb andb].
    + destruct (IH n) as (d1 & x & d2 & Hdirs & H1 & H2 & H3); [done|cbn in Hn |- *; lia|].
      exists (d :: d1), x, d2. split; [by rewrite Hdirs|]. split; [by constructor|]. split; [done|].
      exact H3.
    + by exists [], d, (d' :: dirs).
Qed.

Lemma length_join dirs exe : Forall (usable exe) dirs ->
  (length dirs <= S (length (join (bs ":") dirs)))%nat.
Proof.
  induction 1 as [|d dirs [Hd _] _ IH]; [cbn; lia|]. destruct dirs as [|d' dirs]; [cbn; lia|].
  change (join (bs ":") (d :: d' :: dirs)) with (d ++ ":"%char :: join (bs ":") (d' :: dirs)).
  rewrite length_app. cbn [length] in *. lia.
Qed.

Lemma no_slash exe :
  Forall (fun c => c <> "/"%char) exe -> existsb (fun c => Ascii.eqb c "/") exe = false.
Proof. induction 1 as [|c exe Hc _ IH]; cbn; [done|]. by rewrite ascii_eqb_ne, IH. Qed.

(** Directories without the executable are passed over. *)
Lemma findpath_loop_skip exe dirs rest n :
  Forall (usable exe) dirs -> Forall (fun x => check (with_slash x ++ exe) = 0) dirs ->
  findpath_loop PATH_MAX check (length dirs + n) (concat (map (fun d => d ++ bs ":") dirs) ++ rest) exe
  = findpath_loop PATH_MAX check n rest exe.
Proof.
  intros Hu. induction Hu as [|d dirs Hd Hu IH]; intros Hc; [done|].
  apply Forall_cons_1 in Hc as [Hd0 Hc]. cbn [map concat length Nat.add findpath_loop].
  rewrite <- !app_assoc. change (bs ":" ++ ?l) with (":"%char :: l).
  rewrite span_dir by apply Hd. rewrite candidate_ok by done. cbn [obind].
  rewrite Hd0. cbn [negb andb Z.eqb]. by apply IH.
Qed.

(** ** The properties *)

(** [findpathof] returns the first directory of PATH, in order, whose file
    of the given name is executable, and the status of that file; when there is
    none it returns 0.  Directories must be nonempty and fit the buffer. *)
Theorem findpathof_first exe dirs :
  Forall (usable exe) dirs -> dirs <> [] -> Forall (fun c => c <> "/"%char) exe ->
  exists d1 d d2, dirs = d1 ++ d :: d2
    /\ Forall (fun x => check (with_slash x ++ exe) = 0) d1
    /\ (check (with_slash d ++ exe) = 0 -> d2 = [])
    /\ findpathof PATH_MAX realpath check (Some (join (bs ":") dirs)) exe
       = Ok (check (with_slash d ++ exe), with_slash d ++ exe).
Proof.
  intros Hu Hne Hexe. unfold findpathof.
  assert (Hs : existsb (fun c => Ascii.eqb c "/") exe = false).
  { by apply no_slash. }
  rewrite Hs. pose proof (length_join dirs exe Hu) as Hl.
  destruct (findpath_loop_spec exe dirs (S (length (join (bs ":") dirs))) Hu Hne Hl)
    as (d1 & d & d2 & E & H1 & H2 & H3).
  exists d1, d, d2. split_and!; try done.
  destruct (join (bs ":") dirs) as [|c l] eqn:Ej; [|exact H3].
  exfalso. destruct dirs as [|x dirs]; [done|]. apply Forall_cons_1 in Hu as [[Hx _] _].
  destruct x, dirs; done.
Qed.

(** An empty directory in PATH makes [findpathof] read the byte before its
    buffer as soon as the search reaches it. *)
Theorem empty_directory_out_of_bounds exe dirs rest :
  Forall (usable exe) dirs -> Forall (fun x => check (with_slash x ++ exe) = 0) dirs ->
  Forall (fun c => c <> "/"%char) exe -> (0 < PATH_MAX)%nat ->
  findpathof PATH_MAX realpath check
    (Some (concat (map (fun d => d ++ bs ":") dirs) ++ ":"%char :: rest)) exe
  = Aborted "pth[-1]".
Proof.
  intros Hu Hc Hexe Hmax. unfold findpathof. rewrite no_slash by done.
  set (p := concat _ ++ _).
  assert (Hp : (length dirs + 1 <= length p)%nat).
  { unfold p. clear -Hu. induction Hu as [|d dirs _ _ IH]; cbn [map concat length app]; [cbn; lia|].
    rewrite <- !app_assoc, length_app. change (bs ":" ++ ?l) with (":"%char :: l). cbn [length]. lia. }
  assert (E : findpath_loop PATH_MAX check (S (length p)) p exe = Aborted "pth[-1]").
  { replace (S (length p)) with (length dirs + S (length p - length dirs))%nat by lia.
    unfold p at 2. rewrite findpath_loop_skip by done. cbn [findpath_loop span].
    change (negb (Ascii.eqb ":" ":")) with false. cbn [negb]. unfold candidate. cbn [length].
    by assert ((0 <=? PATH_MAX)%nat = true) as -> by (apply Nat.leb_le; lia). }
  destruct p as [|c l] eqn:Ep; [cbn in Hp; lia|exact E].
Qed.

End FindPath.

(** [escape] replaces every space, colon, semicolon, slash, hash, backslash
    and quote by an underscore and changes nothing else; its find-and-replace
    loops end. *)
Theorem escape_substitutes input : escape input = Ok (map (substitute toBeEscaped) input).
Proof. apply escape_each_spec. by repeat constructor. Qed.

(** [split] cuts at every occurrence of the separator: the pieces joined by
    the separator are the text, no piece contains the separator, and without
    [keep_empty] the same pieces are returned less the empty ones. *)
Theorem split_joins s delim :
  delim <> [] ->
  exists parts, split s delim true = Ok parts
    /\ split s delim false = Ok (filter (fun p => p <> []) parts)
    /\ parts <> [] /\ join delim parts = s /\ Forall (fun p => ~ occurs delim p) parts.
Proof.
  intros Hd.
  destruct (split_loop_spec (S (length s)) s delim Hd ltac:(lia)) as (parts & E & H).
  exists parts. unfold split. destruct delim; [done|]. by rewrite !E.
Qed.

(** The JSON string literal made with [escapeJsonString] is read back by
    [Json::Reader] as the string it was made from, whatever characters the
    string holds. *)
Theorem escapeJsonString_decodes {D : DoubleOps} s rest r :
  readString (escapeJsonString s ++ DQUOTE :: rest) = (true, rest)
  /\ decodeString_text
       (mkToken tokenString (DQUOTE :: escapeJsonString s ++ DQUOTE :: rest) rest) r
     = Ok (Some s, r).
Proof.
  pose proof (escapeJson_literal s) as Hs.
  split; [unfold readString; by rewrite (literal_scans _ s NUL rest Hs)|].
  pose proof (decodeString_text_literal _ s rest r Hs) as H. unfold quoted in H. cbn [app] in H.
  by rewrite <- app_assoc in H.
Qed.

(** [parse] stores, in order, pointers to the words of the command line,
    each cut out as a C string of the buffer, and one pointer to an empty string
    when the line ends with a blank; its loop ends on every line. *)
Theorem parse_splits_words line :
  no_nul line -> parsed_arguments line = Ok (command_words line).
Proof.
  intros Hn. unfold parsed_arguments, parse.
  destruct (parse_loop_spec (S (length line)) line [] [] ltac:(lia) Hn) as (ps & tail & E & Hps & _).
  rewrite E. cbn [obind app]. by rewrite <- Hps.
Qed.

(** ** Instances *)

Definition only_zsh (p : bytes) : Z := if decide (p = bs "/usr/bin/zsh") then 1 else 0.

Lemma findpathof_first_witness :
  exists d1 d d2, [bs "/bin"; bs "/usr/bin/"] = d1 ++ d :: d2
    /\ Forall (fun x => only_zsh (with_slash x ++ bs "zsh") = 0) d1
    /\ (only_zsh (with_slash d ++ bs "zsh") = 0 -> d2 = [])
    /\ findpathof 1024 (fun _ => None) only_zsh
         (Some (join (bs ":") [bs "/bin"; bs "/usr/bin/"])) (bs "zsh")
       = Ok (only_zsh (with_slash d ++ bs "zsh"), with_slash d ++ bs "zsh").
Proof.
  apply (findpathof_first 1024 (fun _ => None) only_zsh (bs "zsh")
           [bs "/bin"; bs "/usr/bin/"]); [|done|by repeat constructor].
  repeat constructor; try done; cbn; lia.
Defined.

Lemma empty_directory_out_of_bounds_witness :
  findpathof 1024 (fun _ => None) (fun _ => 0) (Some (bs "/bin::/usr/bin")) (bs "zsh")
  = Aborted "pth[-1]".
Proof.
  apply (empty_directory_out_of_bounds 1024 (fun _ => None) (fun _ => 0) (bs "zsh") [bs "/bin"]
           (bs "/usr/bin"));
    [|by repeat constructor|by repeat constructor|lia].
  repeat constructor; try done; cbn; lia.
Defined.

Lemma split_joins_witness :
  exists parts, split (bs "a--b") (bs "--") true = Ok parts
    /\ split (bs "a--b") (bs "--") false = Ok (filter (fun p => p <> []) parts)
    /\ parts <> [] /\ join (bs "--") parts = bs "a--b"
    /\ Forall (fun p => ~ occurs (bs "--") p) parts.
Proof. apply split_joins. done. Defined.

Lemma parse_splits_words_witness :
  parsed_arguments (bs "ls  -la ") = Ok (command_words (bs "ls  -la ")).
Proof. apply parse_splits_words. by repeat constructor. Defined.
