(* ===== verification/Syscalls.v ===== *)
(** * Programs that talk to the operating system

    The launchers are straight-line C++ around system calls.  A program is a
    tree of calls: [Do c k] performs [c] and continues with the reply.  The
    operating system is an [oracle], an arbitrary function of what happened so
    far; the theorems hold for every oracle, so for every behaviour of the file
    system, of the process table and of the credentials.  A process forks into
    two runs that differ in the reply of [Fork].  A successful [Execv] or
    [Execvp] ends the run ([Replaced]). *)

From stdpp Require Import tactics.
From S2P Require Import Prelude Doubles Utils.

(** ** Text of numbers *)

(** [ostream << n] for an integer. *)
Fixpoint show_digits (n : nat) (z : Z) (acc : bytes) : bytes :=
  match n with
  | O => acc
  | S n' =>
      let acc := digit_char (z mod 10) :: acc in
      if z / 10 =? 0 then acc else show_digits n' (z / 10) acc
  end.

Definition show_Z (z : Z) : bytes :=
  let ds := show_digits (S (Z.to_nat (Z.log2 (Z.abs z)))) (Z.abs z) [] in
  if z <? 0 then "-"%char :: ds else ds.

(** [isspace] of the C locale. *)
Definition is_c_space (c : ascii) : bool :=
  (ord c =? 32) || ((9 <=? ord c) && (ord c <=? 13)).

Fixpoint skip_c_spaces (s : bytes) : bytes :=
  match s with
  | c :: s' => if is_c_space c then skip_c_spaces s' else s
  | [] => []
  end.

Definition scan_sign (s : bytes) : bool * bytes :=
  match s with
  | c :: s' => if Ascii.eqb c "-" then (true, s') else if Ascii.eqb c "+" then (false, s') else (false, s)
  | [] => (false, [])
  end.

Definition LONG_MAX : Z := 9223372036854775807.
Definition LONG_MIN : Z := -9223372036854775808.

(** [atoi]: [(int)strtol(s, NULL, 10)], saturating at the bounds of [long]. *)
Definition atoi (s : bytes) : Z :=
  let '(neg, s) := scan_sign (skip_c_spaces s) in
  let '(ds, _) := take_digits s in
  let v := if neg then - digits_value ds else digits_value ds in
  to_int32 (Z.max LONG_MIN (Z.min LONG_MAX v)).

(** [istringstream(s) >> n] for a 32 bit unsigned [n]; [None] is failure.  A
    minus sign is accepted and the value wraps. *)
Definition scan_uint32 (s : bytes) : option Z :=
  let '(neg, s) := scan_sign (skip_c_spaces s) in
  match take_digits s with
  | ([], _) => None
  | (ds, _) =>
      let v := digits_value ds in
      if UINT_MAX <? v then None else Some (if neg then to_uint32 (- v) else v)
  end.

(** The same for an [int]. *)
Definition scan_int32 (s : bytes) : option Z :=
  let '(neg, s) := scan_sign (skip_c_spaces s) in
  match take_digits s with
  | ([], _) => None
  | (ds, _) =>
      let v := if neg then - digits_value ds else digits_value ds in
      if (v <? INT_MIN) || (INT_MAX <? v) then None else Some v
  end.

(** ** Calls *)

Inductive call : Type -> Type :=
(* credentials and processes *)
| Getuid : call Z
| Setuid (uid : Z) : call Z
| Setgid (gid : Z) : call Z
| Setsid : call Z
| Getpid : call Z
| Fork : call Z
| Forkpty : call (Z * Z)
| Wait : call Z
| Kill (pid sig : Z) : call Z
| Signal (sig : Z) (disposition : string) : call unit
| Umask (mask : Z) : call unit
| Execv (path : option bytes) (argv : list bytes) : call Z
| Execvp (file : option bytes) (argv : list bytes) : call Z
(* environment *)
| Setenv (name value : bytes) : call unit
| Unsetenv (name : bytes) : call unit
| Getenv (name : bytes) : call (option bytes)
| Strerror : call bytes
(* memory that the code reads without having written it *)
| Uninitialised : call Z
| Dangling (was : bytes) : call bytes
(* files *)
| StatFile (path : bytes) : call (option Stat)
| Mkdir (path : bytes) (mode : Z) : call Z
| Chown (path : bytes) (uid gid : Z) : call Z
| Chdir (path : bytes) : call Z
| Getcwd : call (option bytes)
| Unlink (path : bytes) : call Z
| Open (path : bytes) (flags : string) : call Z
| Freopen (path : bytes) (stream : string) : call unit
| Lockf (fd : Z) : call Z
| Fcntl (fd : Z) (what : string) : call Z
| Dup2 (fd target : Z) : call Z
| Close (fd : Z) : call Z
| Read (fd : Z) (room : Z) : call (Z * bytes)
| Write (fd : Z) (data : bytes) : call Z
| ReadInt (path : bytes) : call Z
| Opendir (path : bytes) : call bool
| Readdir (path : bytes) : call (option bytes)
| AppendFile (path text : bytes) : call unit
(* clocks *)
| Clock_gettime : call (Z * Z)
| Clock_settime (tv_sec tv_nsec : Z) : call Z
| Usleep (microseconds : Z) : call Z
(* what is read at the pointer that [getProcessUsage] or [processDataToLearn] returns *)
| UsageText (uid : Z) : call bytes
| LearnText (uid : Z) : call bytes
(* the Qt programs: the log, files, ZeroMQ sockets (false: an exception), the
   event loop *)
| Log (level : string) (text : bytes) : call unit
| ReadFile (path : bytes) : call (option bytes)
| PathExists (path : bytes) : call bool
| Mkpath (path : bytes) : call bool
| Chmod (path : bytes) (mode : Z) : call Z
| ZmqVersion : call (Z * Z * Z)
| ZmqSocket (type : string) (name : bytes) : call unit
| ZmqBind (address : bytes) : call bool
| ZmqConnect (address : bytes) : call bool
| ZmqSubscribe (channel : bytes) : call bool
| ZmqIdentity (name : bytes) : call bool
| ZmqSend (message : bytes) : call bool
| Emit (signal : string) (payload : bytes) : call unit
| SingleShot (milliseconds : Z) (slot : string) : call unit
| AppExec : call Z
(* terminal and console *)
| Isatty (fd : Z) : call bool
| Ioctl (fd : Z) : call Z
| Tcgetattr (fd : Z) : call Z
| Tcsetattr (fd : Z) : call Z
| Getline : call (option bytes * bool)
| Atexit (handler : string) : call unit
| Cout (text : bytes) : call unit
| Cerr (text : bytes) : call unit
(* getopt_long *)
| Getopt : call (option (ascii * option bytes))
| Optind : call nat.

(** ** Programs *)

Inductive prog (A : Type) : Type :=
| Ret (a : A)
| Exit (code : Z)
| Crash (why : string)
| NoFuel
| Do {B : Type} (c : call B) (k : B -> prog A).
Arguments Ret {A} a.
Arguments Exit {A} code.
Arguments Crash {A} why.
Arguments NoFuel {A}.
Arguments Do {A B} c k.

Fixpoint pbind {A B} (p : prog A) (f : A -> prog B) : prog B :=
  match p with
  | Ret a => f a
  | Exit code => Exit code
  | Crash why => Crash why
  | NoFuel => NoFuel
  | Do c k => Do c (fun r => pbind (k r) f)
  end.

Definition perform {B} (c : call B) : prog B := Do c Ret.

Notation "'let*' x := p 'in' q" := (pbind p (fun x => q))
  (at level 10, x pattern, p at level 100, q at level 200) : served_scope.

(** A pure computation of the program: a failed assertion is a crash. *)
Definition lift {A} (m : outcome A) : prog A :=
  match m with
  | Ok a => Ret a
  | OutOfFuel => NoFuel
  | Aborted why => Crash why
  end.

(** ** Runs *)

Inductive event :=
| Ev {B : Type} (c : call B) (r : B).

Inductive ending (A : Type) : Type :=
| Returned (a : A) | Exited (code : Z) | Crashed (why : string) | Diverged | Replaced.
Arguments Returned {A} a.
Arguments Exited {A} code.
Arguments Crashed {A} why.
Arguments Diverged {A}.
Arguments Replaced {A}.

Definition oracle := forall B : Type, list event -> call B -> B.

(** A call that succeeded in replacing the process image. *)
Definition replaces {B} (c : call B) : B -> bool :=
  match c with
  | Execv _ _ => fun r => 0 <=? r
  | Execvp _ _ => fun r => 0 <=? r
  | _ => fun _ => false
  end.

Fixpoint run {A} (o : oracle) (h : list event) (p : prog A) : list event * ending A :=
  match p with
  | Ret a => (h, Returned a)
  | Exit code => (h, Exited code)
  | Crash why => (h, Crashed why)
  | NoFuel => (h, Diverged)
  | Do c k =>
      let r := o _ h c in
      let h := h ++ [Ev c r] in
      if replaces c r then (h, Replaced) else run o h (k r)
  end.

(** ** Reasoning about every run

    [ensures C Q h p]: after the history [h], every call [p] makes satisfies [C]
    at the time it is made, and every ending satisfies [Q]. *)

Section Ensures.
Context (C : list event -> forall B, call B -> Prop).

Fixpoint ensures {A} (Q : list event -> ending A -> Prop) (h : list event) (p : prog A) : Prop :=
  match p with
  | Ret a => Q h (Returned a)
  | Exit code => Q h (Exited code)
  | Crash why => Q h (Crashed why)
  | NoFuel => Q h Diverged
  | Do c k =>
      C h _ c /\
      forall r, if replaces c r then Q (h ++ [Ev c r]) Replaced else ensures Q (h ++ [Ev c r]) (k r)
  end.

Definition meets (h : list event) (e : event) : Prop := match e with Ev c _ => C h _ c end.

(** A history in which every event satisfied [C] when its call was made. *)
Definition respects (h : list event) : Prop :=
  forall pre e post, h = pre ++ e :: post -> meets pre e.

Lemma respects_nil : respects [].
Proof. intros pre e post E. by destruct pre. Qed.

Lemma respects_snoc h e : respects h -> meets h e -> respects (h ++ [e]).
Proof.
  intros Hh He pre e' post E. destruct post as [|x post _] using rev_ind.
  - by apply app_inj_tail in E as [<- <-].
  - rewrite app_comm_cons, app_assoc in E. apply app_inj_tail in E as [E _].
    by apply (Hh pre e' post).
Qed.

Lemma run_ensures {A} (Q : list event -> ending A -> Prop) o p h :
  respects h -> ensures Q h p ->
  respects (run o h p).1 /\ Q (run o h p).1 (run o h p).2.
Proof.
  revert h. induction p as [a|code|why| |B c k IH]; intros h Hh Hp; cbn in *; try done.
  destruct Hp as [Hc Hk]. specialize (Hk (o B h c)).
  assert (Hh' : respects (h ++ [Ev c (o B h c)])) by (by apply respects_snoc).
  destruct (replaces c (o B h c)); [done|]. by apply IH.
Qed.

(** Sequencing. *)
Lemma ensures_bind {A B} (p : prog A) (f : A -> prog B) (R : list event -> ending A -> Prop)
    (Q : list event -> ending B -> Prop) h :
  ensures R h p ->
  (forall h e, R h e ->
     match e with
     | Returned a => ensures Q h (f a)
     | Exited code => Q h (Exited code)
     | Crashed why => Q h (Crashed why)
     | Diverged => Q h Diverged
     | Replaced => Q h Replaced
     end) ->
  ensures Q h (pbind p f).
Proof.
  intros Hp HR. revert h Hp. induction p as [a|code|why| |X c k IH]; intros h Hp; cbn in *;
    try (by apply (HR _ _ Hp)).
  destruct Hp as [Hc Hk]. split; [done|]. intros r. specialize (Hk r).
  destruct (replaces c r); [by apply (HR _ _ Hk)|]. by apply IH.
Qed.

Lemma ensures_mono {A} (Q R : list event -> ending A -> Prop) h p :
  ensures Q h p -> (forall h e, Q h e -> R h e) -> ensures R h p.
Proof.
  intros Hp HQ. revert h Hp. induction p as [a|code|why| |X c k IH]; intros h Hp; cbn in *; auto.
  destruct Hp as [Hc Hk]. split; [done|]. intros r. specialize (Hk r).
  destruct (replaces c r); auto.
Qed.

End Ensures.

(** What is true of a history stays true of its extensions. *)
Definition stable (P : list event -> Prop) : Prop := forall h e, P h -> P (h ++ [e]).

Lemma ensures_stable {A} (P : list event -> Prop) (C C' : list event -> forall B, call B -> Prop)
    (Q : list event -> ending A -> Prop) h p :
  stable P -> P h -> (forall h B (c : call B), P h -> C h B c -> C' h B c) ->
  ensures C Q h p -> ensures C' (fun h e => P h /\ Q h e) h p.
Proof.
  intros HP Hh HC. revert h Hh. induction p as [a|code|why| |B c k IH]; intros h Hh Hp; cbn in *; auto.
  destruct Hp as [Hc Hk]. split; [auto|]. intros r. specialize (Hk r).
  destruct (replaces c r); auto.
Qed.

Lemma ensures_impl {A} (C C' : list event -> forall B, call B -> Prop)
    (Q : list event -> ending A -> Prop) h p :
  (forall h B (c : call B), C h B c -> C' h B c) -> ensures C Q h p -> ensures C' Q h p.
Proof.
  intros HC. revert h. induction p as [a|code|why| |B c k IH]; intros h Hp; cbn in *; auto.
  destruct Hp as [Hc Hk]. split; [auto|]. intros r. specialize (Hk r).
  destruct (replaces c r); auto.
Qed.

Lemma stable_event e : stable (fun h => e ∈ h).
Proof. intros h x H. apply elem_of_app. by left. Qed.

Lemma stable_and P Q : stable P -> stable Q -> stable (fun h => P h /\ Q h).
Proof. intros HP HQ h e [H1 H2]. split; auto. Qed.

#[export] Hint Resolve stable_event stable_and : served.
