(* ===== verification/JsonAccess.v ===== *)
(** * Order, iteration and paths of JSON values ([lib/jsoncpp/json_value.cpp])

    The comparison operators of [Json::Value], its iterators
    ([json_valueiterator.inl]), the paths of class [Path], and the messages of
    [Json::Reader] ([json_reader.cpp]).

    A comparison of two maps asks for the order of their elements both ways, so
    [less] recurses on both of its arguments; its fuel is the depth of the left one,
    which is enough ([less_spec]). *)

From stdpp Require Import tactics.
From S2P Require Import Prelude OrdMap Doubles JsonValue JsonPaths JsonWriter JsonReader JsonReaderFacts JsonScalars ValueTheorems.
From S2P Require Syscalls.

(** ** The order of values *)

(** The number of a [ValueType]. *)
Definition type_number (t : ValueType) : Z :=
  match t with
  | TnullValue => 0 | TintValue => 1 | TuintValue => 2 | TrealValue => 3
  | TstringValue => 4 | TbooleanValue => 5 | TarrayValue => 6 | TobjectValue => 7
  end.

(** [std::lexicographical_compare], behind [operator<] of [std::map]. *)
Fixpoint lexicographical_compare {A} (lt : A -> A -> bool) (l k : list A) : bool :=
  match l, k with
  | _, [] => false
  | [], _ :: _ => true
  | x :: l, y :: k => if lt x y then true else if lt y x then false else lexicographical_compare lt l k
  end.

(** [operator<] of [std::pair]. *)
Definition pair_less {A B} (lt : A -> A -> bool) (lt' : B -> B -> bool) (x y : A * B) : bool :=
  lt (fst x) (fst y) || (negb (lt (fst y) (fst x)) && lt' (snd x) (snd y)).

(** [CZString::operator<], for the keys of an array and of an object. *)
Definition key_less {K} `{KeyOrd K} (k l : K) : bool := match kcmp k l with Lt => true | _ => false end.

Section Access.
Context {D : DoubleOps}.

(** The case of arrays and objects. *)
Definition map_less {K} `{KeyOrd K} (lt : Value -> Value -> bool) (m n : list (K * Value)) : bool :=
  let delta := to_int32 (Z.of_nat (length m) - Z.of_nat (length n)) in
  if negb (delta =? 0) then delta <? 0 else lexicographical_compare (pair_less key_less lt) m n.

Fixpoint less (fuel : nat) (a b : Value) : bool :=
  match fuel with
  | O => false
  | S fuel =>
      let typeDelta := type_number (type a) - type_number (type b) in
      if negb (typeDelta =? 0) then typeDelta <? 0
      else
        match value_ a, value_ b with
        | intValue i, intValue j => i <? j
        | uintValue i, uintValue j => i <? j
        | realValue r, realValue r' => d_ltb r r'
        | booleanValue x, booleanValue y => negb x && y
        | stringValue s, stringValue t =>
            match s, t with
            | None, Some _ => true
            | Some s, Some t => match strcmp s t with Lt => true | _ => false end
            | _, None => false
            end
        | arrayValue m, arrayValue n => map_less (less fuel) m n
        | objectValue m, objectValue n => map_less (less fuel) m n
        | _, _ => false
        end
  end.

Fixpoint depth (v : Value) : nat :=
  match v with
  | mkValue _ p =>
      S match p with
        | arrayValue m => list_max (map (fun kv => depth (snd kv)) m)
        | objectValue m => list_max (map (fun kv => depth (snd kv)) m)
        | _ => O
        end
  end.

Definition operator_lt (a b : Value) : bool := less (depth a) a b.
Definition operator_gt (a b : Value) : bool := operator_lt b a.
Definition operator_le (a b : Value) : bool := negb (operator_gt b a).
Definition operator_ge (a b : Value) : bool := negb (operator_lt a b).

(** ** Iterators

    The position in the map that an iterator stands at ([current_]); behind the
    last element it is at the end. *)

Record ValueIterator := mkIterator { position : nat; isNull_ : bool }.

Definition ValueIterator_new : ValueIterator := mkIterator 0 true.

Definition entries (v : Value) : option nat :=
  match value_ v with arrayValue m => Some (length m) | objectValue m => Some (length m) | _ => None end.

Definition begin (v : Value) : ValueIterator := match entries v with Some _ => mkIterator 0 false | None => ValueIterator_new end.
Definition end_of (v : Value) : ValueIterator := match entries v with Some n => mkIterator n false | None => ValueIterator_new end.

(** [++] behind the end is undefined. *)
Definition increment (v : Value) (it : ValueIterator) : outcome ValueIterator :=
  match entries v with
  | Some n => if (position it <? n)%nat then Ok (mkIterator (S (position it)) (isNull_ it)) else Aborted "past the end"
  | None => Aborted "past the end"
  end.

Definition decrement (it : ValueIterator) : outcome ValueIterator :=
  match position it with O => Aborted "before the beginning" | S n => Ok (mkIterator n (isNull_ it)) end.

Definition it_deref (v : Value) (it : ValueIterator) : outcome Value :=
  match om_values <$> (match value_ v with arrayValue m => Some m | _ => None end) with
  | Some vs => match vs !! position it with Some x => Ok x | None => Aborted "past the end" end
  | None =>
      match value_ v with
      | objectValue m => match om_values m !! position it with Some x => Ok x | None => Aborted "past the end" end
      | _ => Aborted "past the end"
      end
  end.

Definition isEqual (it other : ValueIterator) : bool :=
  if isNull_ it then isNull_ other else (position it =? position other)%nat.

(** The assignment; [isNull_] stays as it was. *)
Definition it_copy (it other : ValueIterator) : ValueIterator := mkIterator (position other) (isNull_ it).

(** The index or the name of the element. *)
Definition it_key (v : Value) (it : ValueIterator) : outcome Value :=
  match value_ v with
  | arrayValue m => match om_keys m !! position it with Some i => Ok (Value_of_Int i) | None => Aborted "past the end" end
  | objectValue m => match om_keys m !! position it with Some s => Ok (Value_of_cstring s) | None => Aborted "past the end" end
  | _ => Aborted "past the end"
  end.

Definition it_index (v : Value) (it : ValueIterator) : outcome Z :=
  match value_ v with
  | arrayValue m => match om_keys m !! position it with Some i => Ok (to_uint32 i) | None => Aborted "past the end" end
  | objectValue m => match om_keys m !! position it with Some _ => Ok (to_uint32 (-1)) | None => Aborted "past the end" end
  | _ => Aborted "past the end"
  end.

Definition memberName (v : Value) (it : ValueIterator) : outcome bytes :=
  match value_ v with
  | arrayValue m => match om_keys m !! position it with Some _ => Ok [] | None => Aborted "past the end" end
  | objectValue m => match om_keys m !! position it with Some s => Ok s | None => Aborted "past the end" end
  | _ => Aborted "past the end"
  end.

Fixpoint distance_loop (fuel : nat) (v : Value) (it other : ValueIterator) (myDistance : Z) : outcome Z :=
  match fuel with
  | O => OutOfFuel
  | S fuel =>
      if (position it =? position other)%nat then Ok myDistance
      else let! it := increment v it in distance_loop fuel v it other (myDistance + 1)
  end.

Definition computeDistance (v : Value) (it other : ValueIterator) : outcome Z :=
  if isNull_ it && isNull_ other then Ok 0
  else distance_loop (S (default O (entries v))) v it other 0.

(** [for ( ; it != v.end(); ++it )], with what [*it] gives. *)
Fixpoint iterate (fuel : nat) (v : Value) (it : ValueIterator) : outcome (list Value) :=
  match fuel with
  | O => OutOfFuel
  | S fuel =>
      if isEqual it (end_of v) then Ok []
      else
        let! x := it_deref v it in
        let! it := increment v it in
        let! xs := iterate fuel v it in
        Ok (x :: xs)
  end.

(** ** Paths

    The arguments of a path; [kindNone] is a parameter that was not given. *)

Inductive PathArgument := PathNone | PathIndex (index_ : Z) | PathKey (key_ : bytes).

(** From a [std::string], through its [c_str()]. *)
Definition PathArgument_of_string (key : bytes) : PathArgument := PathKey (cstr key).

(** [for ( ; current != end && *current >= '0' && *current <= '9'; ++current )] *)
Fixpoint scan_index (index : Z) (current : Location) : Z * Location :=
  match current with
  | c :: rest => if is_digit c then scan_index (to_uint32 (to_uint32 (index * 10) + (ord c - ord "0"))) rest else (index, current)
  | [] => (index, [])
  end.

(** [strchr], which finds the terminator as well. *)
Definition strchr_finds (cs : bytes) (c : ascii) : bool := Ascii.eqb c NUL || is_char c cs.

Fixpoint scan_name (current : Location) : bytes * Location :=
  match current with
  | c :: rest => if strchr_finds (bs "[.") c then ([], current) else let (name, rest) := scan_name rest in (c :: name, rest)
  | [] => ([], [])
  end.

(** The argument at [itInArg], which stays where it is; [wants] is the kind. *)
Definition addPathInArg (itInArg : list PathArgument) (wants : PathArgument -> bool) (args : list PathArgument) : list PathArgument :=
  match itInArg with
  | [] => args
  | a :: _ => if wants a then args ++ [a] else args
  end.

Definition kindIndex (a : PathArgument) : bool := match a with PathIndex _ => true | _ => false end.
Definition kindKey (a : PathArgument) : bool := match a with PathKey _ => true | _ => false end.

(** [invalidPath] does nothing: a character that is not the bracket is skipped. *)
Definition skip_bracket (current : Location) : Location := match current with [] => [] | _ :: rest => rest end.

Fixpoint makePath (fuel : nat) (current : Location) (itInArg args : list PathArgument) : outcome (list PathArgument) :=
  match fuel with
  | O => OutOfFuel
  | S fuel =>
      match current with
      | [] => Ok args
      | c :: rest =>
          if Ascii.eqb c "[" then
            if Ascii.eqb (deref rest) "%" then makePath fuel (skip_bracket rest) itInArg (addPathInArg itInArg kindIndex args)
            else let (index, rest) := scan_index 0 rest in makePath fuel (skip_bracket rest) itInArg (args ++ [PathIndex index])
          else if Ascii.eqb c "%" then makePath fuel rest itInArg (addPathInArg itInArg kindKey args)
          else if Ascii.eqb c "." then makePath fuel rest itInArg args
          else let (name, rest) := scan_name current in makePath fuel rest itInArg (args ++ [PathArgument_of_string name])
      end
  end.

(** [Path( path, a1, ..., a5 )] *)
Definition Path_new (path : bytes) (in_ : list PathArgument) : outcome (list PathArgument) := makePath (S (length path)) path in_ [].

(** [resolve]; the errors are comments in the code. *)
Fixpoint resolve (args : list PathArgument) (node : Value) : outcome Value :=
  match args with
  | [] => Ok node
  | PathIndex i :: args => let! r := index_const i node in resolve args (default null r)
  | PathKey k :: args => let! r := member_const k node in resolve args (default null r)
  | PathNone :: args => resolve args node
  end.

Fixpoint resolve_or (args : list PathArgument) (defaultValue node : Value) : outcome Value :=
  match args with
  | [] => Ok node
  | PathIndex i :: args =>
      if negb (isArray node) || isValidIndex i node then Ok defaultValue
      else let! r := index_const i node in resolve_or args defaultValue (default null r)
  | PathKey k :: args =>
      if negb (isObject node) then Ok defaultValue
      else
        let! r := member_const k node in
        match r with None => Ok defaultValue | Some node => resolve_or args defaultValue node end
  | PathNone :: args => resolve_or args defaultValue node
  end.

(** The node is the place [p] of the tree [root], whose element is created. *)
Definition make_step (op : Value -> outcome Value) (p : Path) (root : Value) : outcome Value :=
  match vget p root with
  | Some node => let! node := op node in Ok (vmodify p (fun _ => node) root)
  | None => Aborted "dangling node"
  end.

Fixpoint make (args : list PathArgument) (p : Path) (root : Value) : outcome (Value * Path) :=
  match args with
  | [] => Ok (root, p)
  | PathIndex i :: args => let! root := make_step (index_ref i) p root in make args (p ++ [AtIndex (to_int32 i)]) root
  | PathKey k :: args => let! root := make_step (resolveReference k) p root in make args (p ++ [AtMember (cstr k)]) root
  | PathNone :: args => make args p root
  end.

(** ** The messages of the reader *)

(** [sprintf( buffer, "Line %d, Column %d", line, column )] *)
Definition location_text (location : Location) (r : Reader) : bytes :=
  let '(line, column) := getLocationLineAndColumn location r in
  bs "Line " ++ Syscalls.show_Z (to_int32 line) ++ bs ", Column " ++ Syscalls.show_Z (to_int32 column).

(** [char buffer\[18+16+16+1\]] *)
Definition location_buffer : nat := 51.

Definition error_text (error : ErrorInfo) (r : Reader) : bytes :=
  bs "* " ++ location_text (start_ (token_ error)) r ++ [LF] ++ bs "  " ++ message_ error ++ [LF] ++
  match extra_ error with Some l => bs "See " ++ location_text l r ++ bs " for detail." ++ [LF] | None => [] end.

Definition getFormatedErrorMessages (r : Reader) : bytes := concat (map (fun error => error_text error r) (errors_ r)).

(** [operator>>]: the value, or the exception with the messages. *)
Definition read_value (stream : bytes) (root : Value) : outcome Value :=
  let! (ok, r) := parse_stream Features_all stream root true in
  if (ok : bool) then Ok (root_ r) else Aborted (string_of_list_ascii (getFormatedErrorMessages r)).

(** ** The order as one comparison

    Types first, then contents; maps by their sizes, then entry by entry. *)

Definition lex (o o' : comparison) : comparison := match o with Eq => o' | _ => o end.

Definition entries_compare {K} `{KeyOrd K} (cmp : Value -> Value -> comparison) : list (K * Value) -> list (K * Value) -> comparison :=
  fix go m n :=
    match m, n with
    | [], [] => Eq
    | [], _ :: _ => Lt
    | _ :: _, [] => Gt
    | (k, x) :: m, (l, y) :: n => lex (lex (kcmp k l) (cmp x y)) (go m n)
    end.

Definition length_compare {A} (m n : list A) : comparison := kcmp (Z.of_nat (length m)) (Z.of_nat (length n)).

Fixpoint vcompare (a b : Value) {struct a} : comparison :=
  match a with
  | mkValue _ p =>
      lex (kcmp (type_number (type a)) (type_number (type b)))
        match p, value_ b with
        | intValue i, intValue j => kcmp i j
        | uintValue i, uintValue j => kcmp i j
        | realValue r, realValue r' => if d_ltb r r' then Lt else if d_ltb r' r then Gt else Eq
        | booleanValue x, booleanValue y => match x, y with false, true => Lt | true, false => Gt | _, _ => Eq end
        | stringValue s, stringValue t =>
            match s, t with
            | None, None => Eq
            | None, Some _ => Lt
            | Some _, None => Gt
            | Some s, Some t => kcmp s t
            end
        | arrayValue m, arrayValue n => lex (length_compare m n) (entries_compare vcompare m n)
        | objectValue m, objectValue n => lex (length_compare m n) (entries_compare vcompare m n)
        | _, _ => Eq
        end
  end.

Definition is_lt (o : comparison) : bool := match o with Lt => true | _ => false end.
Definition is_eq (o : comparison) : bool := match o with Eq => true | _ => false end.

(** No numbers with a point, and maps of at most [INT_MAX] elements. *)
Inductive comparable : Value -> Prop :=
| comparable_intro c p :
    (match p with realValue _ => False | _ => True end) -> Z.of_nat (length (children p)) <= INT_MAX ->
    Forall comparable (children p) -> comparable (mkValue c p).

Lemma comparable_no_real v : comparable v -> no_real v.
Proof.
  induction v as [c p IH] using Value_induction. inversion 1 as [? ? Hp _ Hc]; subst. constructor; [done|].
  clear -IH Hc. induction Hc as [|v l Hv _ IHl]; constructor; inversion IH; subst; auto.
Qed.

Lemma lex_opp o o' : CompOpp (lex o o') = lex (CompOpp o) (CompOpp o').
Proof. by destruct o. Qed.

(** [o], [o'] and [o''] compare [a] with [b], [b] with [c] and [a] with [c]. *)
Definition composes (o o' o'' : comparison) : Prop := o <> Gt -> o' <> Gt -> o'' = lex o o'.

Lemma composes_lex a b c a' b' c' : composes a b c -> (a = Eq -> b = Eq -> composes a' b' c') -> composes (lex a a') (lex b b') (lex c c').
Proof. unfold composes, lex. destruct a, b, c, a', b', c'; naive_solver. Qed.

Lemma kcmp_composes {K} `{KeyOrd K} (k l j : K) : composes (kcmp k l) (kcmp l j) (kcmp k j).
Proof.
  unfold composes. destruct (kcmp k l) eqn:E; [|intros _|done].
  - apply kcmp_eq in E as ->. by destruct (kcmp l j).
  - destruct (kcmp l j) eqn:E'; [apply kcmp_eq in E' as <-; by rewrite E|intros _; by eapply kcmp_lt_trans|done].
Qed.

(** ** Its laws *)

Lemma entries_antisym {K} `{KeyOrd K} (m n : list (K * Value)) :
  Forall (fun a => comparable a -> forall b, vcompare b a = CompOpp (vcompare a b)) (om_values m) -> Forall comparable (om_values m) ->
  entries_compare vcompare n m = CompOpp (entries_compare vcompare m n).
Proof.
  unfold om_values. revert n. induction m as [|[k x] m IH]; intros [|[l y] n] Hf Hc; cbn; try done.
  apply Forall_cons_1 in Hf as [Hx Hm]. apply Forall_cons_1 in Hc as [Hcx Hcm].
  rewrite !lex_opp, <- (IH n Hm Hcm). cbn in Hx. rewrite (Hx Hcx y). by rewrite (kcmp_antisym k l).
Qed.

Lemma vcompare_antisym a b : comparable a -> vcompare b a = CompOpp (vcompare a b).
Proof.
  intros Ha. revert Ha b. induction a as [c p IH] using Value_induction. intros Ha [c' q]. inversion Ha as [? ? Hp _ Hc]; subst.
  cbn [vcompare value_]. rewrite lex_opp, <- (kcmp_antisym (type_number (type (mkValue c p)))).
  destruct p as [|i|i|x|s|x|m|m], q as [|j|j|y|t|y|n|n]; try done; f_equal.
  - apply kcmp_antisym.
  - apply kcmp_antisym.
  - destruct s, t; try done. apply kcmp_antisym.
  - by destruct x, y.
  - rewrite lex_opp. unfold length_compare. by rewrite (kcmp_antisym (Z.of_nat (length m))), <- entries_antisym.
  - rewrite lex_opp. unfold length_compare. by rewrite (kcmp_antisym (Z.of_nat (length m))), <- entries_antisym.
Qed.

Lemma entries_eq {K} `{KeyOrd K} (m n : list (K * Value)) :
  Forall (fun a => comparable a -> forall b, vcompare a b = Eq <-> strip a = strip b) (om_values m) -> Forall comparable (om_values m) ->
  entries_compare vcompare m n = Eq <-> strip_map m = strip_map n.
Proof.
  unfold om_values. revert n. induction m as [|[k x] m IH]; intros [|[l y] n] Hf Hc; cbn; try done.
  apply Forall_cons_1 in Hf as [Hx Hm]. apply Forall_cons_1 in Hc as [Hcx Hcm]. cbn in Hx. specialize (IH n Hm Hcm). specialize (Hx Hcx y).
  change (map (fun kv => (kv.1, strip kv.2)) ?l) with (strip_map l). unfold lex. destruct (kcmp k l) eqn:E.
  - apply kcmp_eq in E as ->. destruct (vcompare x y) eqn:E; [|split; [done|]; intros [= Es _]; by apply Hx in Es..].
    rewrite IH. split; [|congruence]. intros ->. by rewrite (proj1 Hx).
  - split; [done|]. intros [= -> _ _]. by rewrite kcmp_refl in E.
  - split; [done|]. intros [= -> _ _]. by rewrite kcmp_refl in E.
Qed.

Lemma lex_length_eq {K} `{KeyOrd K} (m n : list (K * Value)) : lex (length_compare m n) (entries_compare vcompare m n) = Eq <-> entries_compare vcompare m n = Eq.
Proof.
  unfold length_compare, lex. destruct (kcmp (Z.of_nat (length m)) (Z.of_nat (length n))) eqn:E; [done|split; [done|]..]; intros Ee; exfalso;
    assert (Hl : length m = length n); try (rewrite Hl, kcmp_refl in E; done); clear E; revert n Ee; induction m as [|[k x] m IH]; intros [|[l y] n]; cbn; try done;
    unfold lex; destruct (kcmp k l), (vcompare x y); try done; intros He; f_equal; by apply IH.
Qed.

Lemma vcompare_eq a b : comparable a -> vcompare a b = Eq <-> strip a = strip b.
Proof.
  intros Ha. revert Ha b. induction a as [c p IH] using Value_induction. intros Ha [c' q]. inversion Ha as [? ? Hp _ Hc]; subst.
  cbn [vcompare value_ strip]. unfold mk. destruct p as [|i|i|x|s|x|m|m], q as [|j|j|y|t|y|n|n]; try done; cbn [lex kcmp].
  - change (kcmp i j = Eq <-> mkValue noComments (intValue i) = mkValue noComments (intValue j)). split; [by intros ->%kcmp_eq|intros [= ->]; apply kcmp_refl].
  - change (kcmp i j = Eq <-> mkValue noComments (uintValue i) = mkValue noComments (uintValue j)). split; [by intros ->%kcmp_eq|intros [= ->]; apply kcmp_refl].
  - destruct s as [s|], t as [t|]; try done. change (kcmp s t = Eq <-> mkValue noComments (stringValue (Some s)) = mkValue noComments (stringValue (Some t))).
    split; [by intros ->%kcmp_eq|intros [= ->]; apply kcmp_refl].
  - by destruct x, y.
  - change (lex (length_compare m n) (entries_compare vcompare m n) = Eq <-> mkValue noComments (arrayValue (strip_map m)) = mkValue noComments (arrayValue (strip_map n))).
    rewrite lex_length_eq, entries_eq by done. split; congruence.
  - change (lex (length_compare m n) (entries_compare vcompare m n) = Eq <-> mkValue noComments (objectValue (strip_map m)) = mkValue noComments (objectValue (strip_map n))).
    rewrite lex_length_eq, entries_eq by done. split; congruence.
Qed.

Lemma entries_composes {K} `{KeyOrd K} (m n j : list (K * Value)) :
  Forall (fun a => comparable a -> forall b c, composes (vcompare a b) (vcompare b c) (vcompare a c)) (om_values m) -> Forall comparable (om_values m) ->
  composes (entries_compare vcompare m n) (entries_compare vcompare n j) (entries_compare vcompare m j).
Proof.
  unfold om_values. revert n j. induction m as [|[k x] m IH]; intros [|[l y] n] [|[h z] j] Hf Hc; cbn; try done; try (unfold composes; intros; congruence).
  apply Forall_cons_1 in Hf as [Hx Hm]. apply Forall_cons_1 in Hc as [Hcx Hcm]. cbn in Hx.
  apply composes_lex; [|by intros _ _; apply IH]. apply composes_lex; [apply kcmp_composes|]. intros _ _. by apply Hx.
Qed.

Lemma vcompare_composes a b c : comparable a -> composes (vcompare a b) (vcompare b c) (vcompare a c).
Proof.
  intros Ha. revert Ha b c. induction a as [ca p IH] using Value_induction. intros Ha [cb q] [cc r]. inversion Ha as [? ? Hp _ Hc]; subst.
  cbn [vcompare value_]. apply composes_lex; [apply kcmp_composes|]. intros E1%kcmp_eq E2%kcmp_eq.
  destruct p as [|i|i|x|s|x|m|m], q as [|i'|i'|x'|s'|x'|m'|m']; try done; destruct r as [|i''|i''|x''|s''|x''|m''|m'']; try done.
  - apply kcmp_composes.
  - apply kcmp_composes.
  - destruct s, s', s''; try done; try (unfold composes; intros; congruence). apply kcmp_composes.
  - unfold composes. by destruct x, x', x''.
  - apply composes_lex; [apply kcmp_composes|]. intros _ _. by apply entries_composes.
  - apply composes_lex; [apply kcmp_composes|]. intros _ _. by apply entries_composes.
Qed.

(** ** The operators *)

Lemma key_less_spec {K} `{KeyOrd K} (k l : K) : key_less k l = is_lt (kcmp k l).
Proof. done. Qed.

Lemma ltb_spec x y : (x <? y) = is_lt (kcmp x y).
Proof. done. Qed.

Lemma pair_less_spec {K} `{KeyOrd K} (lt : Value -> Value -> bool) (k l : K) x y :
  lt x y = is_lt (vcompare x y) -> pair_less key_less lt (k, x) (l, y) = is_lt (lex (kcmp k l) (vcompare x y)).
Proof. intros E. unfold pair_less, key_less. cbn [fst snd]. rewrite E, (kcmp_antisym k l). by destruct (kcmp k l). Qed.

Lemma lexicographical_spec {K} `{KeyOrd K} (lt : Value -> Value -> bool) (m n : list (K * Value)) :
  (forall x y, x ∈ om_values m -> y ∈ om_values n -> lt x y = is_lt (vcompare x y) /\ lt y x = is_lt (vcompare y x)) ->
  Forall comparable (om_values m) ->
  lexicographical_compare (pair_less key_less lt) m n = is_lt (entries_compare vcompare m n).
Proof.
  unfold om_values. revert n. induction m as [|[k x] m IH]; intros [|[l y] n] Hlt Hc; cbn [lexicographical_compare entries_compare]; try done.
  apply Forall_cons_1 in Hc as [Hx Hc]. cbn in Hx. destruct (Hlt x y) as [E1 E2]; [by left|by left|].
  rewrite (pair_less_spec lt k l x y E1), (pair_less_spec lt l k y x E2), (kcmp_antisym k l), (vcompare_antisym x y Hx), <- lex_opp.
  destruct (lex (kcmp k l) (vcompare x y)); [|done|done]. cbn. apply IH; [|done]. intros u v Hu Hv. apply Hlt; by right.
Qed.

Lemma map_less_spec {K} `{KeyOrd K} (lt : Value -> Value -> bool) (m n : list (K * Value)) :
  (forall x y, x ∈ om_values m -> y ∈ om_values n -> lt x y = is_lt (vcompare x y) /\ lt y x = is_lt (vcompare y x)) ->
  Forall comparable (om_values m) -> Z.of_nat (length m) <= INT_MAX -> Z.of_nat (length n) <= INT_MAX ->
  map_less lt m n = is_lt (lex (length_compare m n) (entries_compare vcompare m n)).
Proof.
  intros Hlt Hc Hm Hn. unfold map_less. unfold INT_MAX in *. rewrite to_int32_id by (unfold is_int32, INT_MIN, INT_MAX; lia).
  unfold length_compare. cbn [kcmp KeyOrd_Z].
  destruct (Z.eqb_spec (Z.of_nat (length m) - Z.of_nat (length n)) 0) as [E|E]; cbn [negb].
  - assert (Z.of_nat (length m) = Z.of_nat (length n)) as -> by lia. rewrite Z.compare_refl. cbn [lex]. by rewrite lexicographical_spec.
  - destruct (Z.compare_spec (Z.of_nat (length m)) (Z.of_nat (length n))); cbn; [lia|apply Z.ltb_lt; lia|apply Z.ltb_ge; lia].
Qed.

(** The elements of a map are less deep. *)
Lemma depth_element {K} (m : list (K * Value)) x : x ∈ om_values m -> (depth x <= list_max (map (fun kv => depth (snd kv)) m))%nat.
Proof.
  unfold om_values, list_max. induction m as [|[k v] m IH]; cbn; [by intros ?%elem_of_nil|].
  intros [->|Hx]%elem_of_cons; [lia|]. specialize (IH Hx). lia.
Qed.

Lemma comparable_element {K} (m : list (K * Value)) x : Forall comparable (om_values m) -> x ∈ om_values m -> comparable x.
Proof. intros H Hx. by eapply (proj1 (Forall_forall _ _)) in Hx. Qed.

Lemma less_elements {K} fuel (m n : list (K * Value)) :
  (forall a b, comparable a -> comparable b -> (depth a <= fuel \/ depth b <= fuel)%nat -> less fuel a b = is_lt (vcompare a b)) ->
  Forall comparable (om_values m) -> Forall comparable (om_values n) ->
  (list_max (map (fun kv => depth (snd kv)) m) <= fuel \/ list_max (map (fun kv => depth (snd kv)) n) <= fuel)%nat ->
  forall x y, x ∈ om_values m -> y ∈ om_values n -> less fuel x y = is_lt (vcompare x y) /\ less fuel y x = is_lt (vcompare y x).
Proof.
  intros IH Hm Hn Hf x y Hx Hy. pose proof (depth_element m x Hx). pose proof (depth_element n y Hy).
  pose proof (comparable_element m x Hm Hx). pose proof (comparable_element n y Hn Hy). split; apply IH; try done; lia.
Qed.

Lemma less_spec fuel a b : comparable a -> comparable b -> (depth a <= fuel \/ depth b <= fuel)%nat -> less fuel a b = is_lt (vcompare a b).
Proof.
  revert a b. induction fuel as [|fuel IH]; intros [c p] [c' q] Ha Hb Hf; [cbn in Hf; lia|].
  inversion Ha as [? ? Hp Hl Hc]; subst. inversion Hb as [? ? Hq Hl' Hc']; subst. cbn [less vcompare value_]. cbn [kcmp KeyOrd_Z].
  destruct (Z.eqb_spec (type_number (type (mkValue c p)) - type_number (type (mkValue c' q))) 0) as [E|E]; cbn [negb].
  - assert (type_number (type (mkValue c p)) = type_number (type (mkValue c' q))) as E' by lia. rewrite E', Z.compare_refl. cbn [lex].
    destruct p as [|i|i|x|s|x|m|m], q as [|j|j|y|t|y|n|n]; try done.
    + by destruct s, t.
    + by destruct x, y.
    + cbn in Hl, Hl', Hf. unfold om_values in Hl, Hl'. rewrite length_map in Hl, Hl'. apply map_less_spec; try done. apply less_elements; try done. lia.
    + cbn in Hl, Hl', Hf. unfold om_values in Hl, Hl'. rewrite length_map in Hl, Hl'. apply map_less_spec; try done. apply less_elements; try done. lia.
  - destruct (Z.compare_spec (type_number (type (mkValue c p))) (type_number (type (mkValue c' q)))); cbn; [lia|apply Z.ltb_lt; lia|apply Z.ltb_ge; lia].
Qed.

Lemma operator_lt_spec a b : comparable a -> comparable b -> operator_lt a b = is_lt (vcompare a b).
Proof. intros Ha Hb. apply less_spec; try done. by left. Qed.

Lemma equal_spec a b : comparable a -> equal a b = is_eq (vcompare a b).
Proof.
  intros Ha. apply eq_bool_prop_intro. rewrite !Is_true_true, (equal_strip a b (comparable_no_real a Ha)), <- (vcompare_eq a b Ha).
  by destruct (vcompare a b).
Qed.

(** C33: The comparison operators of values without floating point numbers are one
    comparison: [operator<] says that it is less, [operator>] that it is greater,
    [operator==] that it is neither, two values that are neither less nor greater
    differ in comments only, and [operator<] is transitive.  [operator<=] is not
    the order: it is [operator>=]. *)
Theorem operators_compare a b c : comparable a -> comparable b -> comparable c ->
  (operator_lt a b, equal a b, operator_gt a b) = (is_lt (vcompare a b), is_eq (vcompare a b), is_lt (CompOpp (vcompare a b))) /\
  (operator_lt a b = false -> operator_gt a b = false -> strip a = strip b) /\
  (operator_lt a b = true -> operator_lt b c = true -> operator_lt a c = true) /\
  operator_le a b = operator_ge a b.
Proof.
  intros Ha Hb Hc. unfold operator_gt. rewrite !operator_lt_spec, equal_spec, (vcompare_antisym a b Ha) by done. split_and!; [done| | |done].
  - intros Hl Hg. apply (vcompare_eq a b Ha). by destruct (vcompare a b).
  - intros H1 H2. rewrite (vcompare_composes a b c Ha); destruct (vcompare a b), (vcompare b c); done.
Qed.

(** ** Iteration *)

Definition values_of (v : Value) : list Value := children (value_ v).

Lemma entries_values v : entries v = match value_ v with arrayValue _ | objectValue _ => Some (length (values_of v)) | _ => None end.
Proof. unfold entries, values_of. destruct (value_ v); try done; cbn; unfold om_values; by rewrite length_map. Qed.

Lemma it_deref_at v n x nul : values_of v !! n = Some x -> it_deref v (mkIterator n nul) = Ok x.
Proof. unfold it_deref, values_of. destruct v as [c p]. destruct p; cbn; try done; by intros ->. Qed.

Lemma iterate_from v n : entries v = Some (length (values_of v)) -> (n <= length (values_of v))%nat -> forall fuel, (length (values_of v) - n < fuel)%nat ->
  iterate fuel v (mkIterator n false) = Ok (drop n (values_of v)).
Proof.
  intros E Hn fuel. revert n Hn. induction fuel as [|fuel IH]; intros n Hn Hf; [lia|]. cbn [iterate]. unfold end_of. rewrite E. unfold isEqual. cbn [isNull_ position].
  destruct (Nat.eqb_spec n (length (values_of v))) as [->|Hne]; [by rewrite drop_all|].
  destruct (lookup_lt_is_Some_2 (values_of v) n) as [x Hx]; [lia|]. rewrite (it_deref_at v n x false Hx). cbn [obind]. unfold increment. rewrite E. cbn [position isNull_].
  assert ((n <? length (values_of v))%nat = true) as -> by (apply Nat.ltb_lt; lia). cbn [obind]. rewrite IH by lia. cbn [obind]. by rewrite (drop_S _ _ _ Hx).
Qed.

(** From [begin()] to [end()] the iterators give the elements in order, and
    nothing for a value that is no container. *)
Lemma iterators_enumerate v : iterate (S (length (values_of v))) v (begin v) = Ok (values_of v).
Proof.
  pose proof (entries_values v) as E. unfold begin. rewrite E. destruct v as [c p]. destruct p; try done; apply (iterate_from _ 0); cbn in *; try done; lia.
Qed.

(** ** Making paths *)

(** A name that can stand in the text of a path. *)
Definition plain_name (k : bytes) : Prop :=
  match k with c :: _ => c <> "%"%char /\ c <> "."%char | [] => False end /\ Forall (fun c => strchr_finds (bs "[.") c = false) k.

Definition plain_argument (a : PathArgument) : Prop :=
  match a with PathNone => False | PathIndex i => is_uint32 i | PathKey k => plain_name k end.

(** The text that stands for the arguments. *)
Definition path_text (args : list PathArgument) : bytes :=
  concat (map (fun a => match a with
    | PathIndex i => bs "[" ++ valueToString_UInt i ++ bs "]"
    | PathKey k => bs "." ++ k
    | PathNone => []
    end) args).

Lemma scan_index_digits ds : forall acc rest, all_digits ds -> 0 <= acc -> digits_from acc ds <= UINT_MAX ->
  match rest with c :: _ => is_digit c = false | [] => True end -> scan_index acc (ds ++ rest) = (digits_from acc ds, rest).
Proof.
  induction ds as [|c ds IH]; intros acc rest Hd Ha Hu Hr.
  - destruct rest as [|c rest]; [done|]. cbn. by rewrite Hr.
  - apply Forall_cons_1 in Hd as [Hc Hd]. cbn [app scan_index]. rewrite Hc. rewrite digits_from_cons in *. pose proof (digit_bounds c Hc) as Hb.
    pose proof (digits_from_ge (acc * 10 + (ord c - ord "0")) ds ltac:(lia) Hd) as Hge. unfold UINT_MAX in *.
    rewrite (to_uint32_id (acc * 10)) by (unfold is_uint32, UINT_MAX; lia). rewrite to_uint32_id by (unfold is_uint32, UINT_MAX; lia).
    apply IH; try done. lia.
Qed.

Lemma scan_name_plain k rest : Forall (fun c => strchr_finds (bs "[.") c = false) k ->
  match rest with c :: _ => strchr_finds (bs "[.") c = true | [] => True end -> scan_name (k ++ rest) = (k, rest).
Proof.
  intros Hk Hr. induction Hk as [|c k Hc _ IH]; cbn [app scan_name].
  - destruct rest as [|c rest]; [done|]. cbn [scan_name]. by rewrite Hr.
  - by rewrite Hc, IH.
Qed.

Lemma path_text_next args : match path_text args with c :: _ => strchr_finds (bs "[.") c = true | [] => True end.
Proof. induction args as [|[|i|k] args IH]; [done|exact IH|done|done]. Qed.

Lemma plain_no_nul k : Forall (fun c => strchr_finds (bs "[.") c = false) k -> no_nul k.
Proof. intros H. eapply Forall_impl; [exact H|]. intros c Hc ->. done. Qed.

Lemma plain_first c k : plain_name (c :: k) -> Ascii.eqb c "[" = false /\ Ascii.eqb c "%" = false /\ Ascii.eqb c "." = false.
Proof.
  intros [[H1 H2] [H3 _]%Forall_cons_1]. split_and!; apply Ascii.eqb_neq; try done. intros ->. done.
Qed.

Lemma makePath_name fuel c rest itInArg acc : Ascii.eqb c "[" = false -> Ascii.eqb c "%" = false -> Ascii.eqb c "." = false ->
  makePath (S fuel) (c :: rest) itInArg acc =
  let (name, rest) := scan_name (c :: rest) in makePath fuel rest itInArg (acc ++ [PathArgument_of_string name]).
Proof. intros E1 E2 E3. cbn [makePath]. by rewrite E1, E2, E3. Qed.

(** The text of a list of arguments is read back. *)
Lemma makePath_text itInArg args : Forall plain_argument args -> forall acc fuel, (length (path_text args) < fuel)%nat ->
  makePath fuel (path_text args) itInArg acc = Ok (acc ++ args).
Proof.
  induction 1 as [|a args Ha _ IH]; intros acc fuel Hf; [destruct fuel; [cbn in Hf; lia|cbn; by rewrite app_nil_r]|].
  destruct a as [|i|k]; [done| |]; cbn in Ha.
  - destruct (valueToString_UInt_digits i Ha) as (ds & Eds & Hd & Hne & Hv & _). unfold path_text in *. cbn [map concat] in *. fold (path_text args) in *.
    rewrite Eds, <- !app_assoc in *. rewrite !length_app in Hf. cbn in Hf. destruct fuel as [|fuel]; [lia|].
    change (makePath (S fuel) (bs "[" ++ ds ++ bs "]" ++ path_text args) itInArg acc) with
      (if Ascii.eqb (deref (ds ++ bs "]" ++ path_text args)) "%" then makePath fuel (skip_bracket (ds ++ bs "]" ++ path_text args)) itInArg (addPathInArg itInArg kindIndex acc)
       else let (index, rest) := scan_index 0 (ds ++ bs "]" ++ path_text args) in makePath fuel (skip_bracket rest) itInArg (acc ++ [PathIndex index])).
    rewrite (scan_index_digits ds 0 (bs "]" ++ path_text args)); [|done|lia|unfold is_uint32, UINT_MAX in *; lia|done].
    destruct ds as [|c ds]; [done|]. apply Forall_cons_1 in Hd as [Hc _]. cbn [app deref].
    assert (Ascii.eqb c "%" = false) as -> by (apply Ascii.eqb_neq; intros ->; done).
    change (skip_bracket (bs "]" ++ path_text args)) with (path_text args). rewrite Hv, IH by (cbn in Hf; lia). by rewrite <- app_assoc.
  - destruct k as [|c k]; [by destruct Ha|]. destruct (plain_first c k Ha) as (E1 & E2 & E3).
    change (path_text (PathKey (c :: k) :: args)) with ("."%char :: (c :: k) ++ path_text args) in *. cbn [length] in Hf. rewrite length_app in Hf. cbn [length] in Hf.
    destruct fuel as [|[|fuel]]; [lia|lia|].
    change (makePath (S (S fuel)) ("."%char :: (c :: k) ++ path_text args) itInArg acc) with (makePath (S fuel) ((c :: k) ++ path_text args) itInArg acc).
    assert (En : scan_name ((c :: k) ++ path_text args) = (c :: k, path_text args)) by (apply scan_name_plain; [by destruct Ha|apply path_text_next]).
    cbn [app] in *. rewrite makePath_name, En by done. unfold PathArgument_of_string. rewrite cstr_id by (destruct Ha; by apply plain_no_nul).
    rewrite IH by lia. by rewrite <- app_assoc.
Qed.

(** Without a NUL every turn of the loop takes a character. *)
Lemma scan_index_shorter current : forall index, (length (scan_index index current).2 <= length current)%nat /\ (no_nul current -> no_nul (scan_index index current).2).
Proof.
  induction current as [|c rest IH]; intros index; [done|]. cbn [scan_index]. destruct (is_digit c); [|done].
  destruct (IH (to_uint32 (to_uint32 (index * 10) + (ord c - ord "0")))) as [H1 H2]. split; [cbn; lia|]. intros [_ H]%Forall_cons_1. by apply H2.
Qed.

Lemma scan_name_shorter current : (length (scan_name current).2 <= length current)%nat /\ (no_nul current -> no_nul (scan_name current).2).
Proof.
  induction current as [|c rest [H1 H2]]; [done|]. cbn [scan_name]. destruct (strchr_finds (bs "[.") c); [done|].
  destruct (scan_name rest) as [name r]. cbn in *. split; [lia|]. intros [_ H]%Forall_cons_1. by apply H2.
Qed.

Lemma skip_bracket_shorter current : (length (skip_bracket current) <= length current)%nat /\ (no_nul current -> no_nul (skip_bracket current)).
Proof. destruct current as [|c rest]; [done|]. cbn. split; [lia|]. by intros [_ H]%Forall_cons_1. Qed.

Lemma makePath_total itInArg fuel : forall current args, no_nul current -> (length current < fuel)%nat -> exists args', makePath fuel current itInArg args = Ok args'.
Proof.
  induction fuel as [|fuel IH]; intros current args Hn Hf; [lia|]. destruct current as [|c rest]; [by exists args|]. cbn [length] in Hf.
  pose proof Hn as [Hc Hr]%Forall_cons_1. cbn [makePath]. destruct (skip_bracket_shorter rest) as [L1 N1].
  destruct (Ascii.eqb c "[") eqn:E1.
  - destruct (Ascii.eqb (deref rest) "%"); [apply IH; [by apply N1|lia]|].
    destruct (scan_index_shorter rest 0) as [L2 N2]. destruct (scan_index 0 rest) as [index r]. cbn in L2, N2. destruct (skip_bracket_shorter r) as [L3 N3].
    apply IH; [by apply N3, N2|lia].
  - destruct (Ascii.eqb c "%"); [apply IH; [done|lia]|]. destruct (Ascii.eqb c ".") eqn:E3; [apply IH; [done|lia]|].
    destruct (scan_name_shorter rest) as [L4 N4]. cbn [scan_name]. unfold strchr_finds.
    assert (Ascii.eqb c NUL = false) as -> by (by apply Ascii.eqb_neq). assert (is_char c (bs "[.") = false) as -> by (unfold is_char; cbn; by rewrite E1, E3).
    cbn [orb]. destruct (scan_name rest) as [name r]. cbn in L4, N4. apply IH; [by apply N4|lia].
Qed.

(** [strchr] finds a NUL in any string: the loop stays where it is. *)
Lemma makePath_hangs rest itInArg fuel : forall args, makePath fuel (NUL :: rest) itInArg args = OutOfFuel.
Proof. induction fuel as [|fuel IH]; intros args; [done|]. exact (IH (args ++ [PathKey []])). Qed.

(** ** Going along paths *)

(** The place in the tree that the arguments lead to. *)
Fixpoint place (args : list PathArgument) : Path :=
  match args with
  | [] => []
  | PathIndex i :: args => AtIndex (to_int32 i) :: place args
  | PathKey k :: args => AtMember (cstr k) :: place args
  | PathNone :: args => place args
  end.

Lemma resolve_place args : forall v x, vget (place args) v = Some x -> resolve args v = Ok x.
Proof.
  induction args as [|[|i|k] args IH]; intros v x; cbn [place resolve].
  - by intros [= ->].
  - apply IH.
  - cbn [vget child]. unfold index_const. destruct (value_ v); try done. destruct (om_find (to_int32 i) m); [|done]. apply IH.
  - cbn [vget child]. unfold member_const. destruct (value_ v); try done. destruct (om_find (cstr k) m); [|done]. apply IH.
Qed.

Lemma index_ref_creates i v v' : index_ref i v = Ok v' -> is_Some (child (AtIndex (to_int32 i)) v').
Proof. unfold index_ref, child. destruct (value_ (null_to TarrayValue v)); try done. intros [= <-]. cbn. rewrite om_find_touch_eq. by eexists. Qed.

Lemma resolveReference_creates k v v' : resolveReference k v = Ok v' -> is_Some (child (AtMember (cstr k)) v').
Proof. unfold resolveReference, child. destruct (value_ (null_to TobjectValue v)); try done. intros [= <-]. cbn. rewrite om_find_touch_eq. by eexists. Qed.

Lemma make_step_valid op p k root root' : (forall v v', op v = Ok v' -> is_Some (child k v')) -> make_step op p root = Ok root' -> valid (p ++ [k]) root'.
Proof.
  intros Hop. unfold make_step. destruct (vget p root) as [v|] eqn:E; [|done]. destruct (op v) as [v'| |] eqn:Eo; try done. cbn [obind]. intros [= <-].
  unfold valid. rewrite vget_app, vget_vmodify_same, E. cbn. destruct (Hop v v' Eo) as [x ->]. by exists x.
Qed.

Lemma make_place args : forall p root root' q, valid p root -> make args p root = Ok (root', q) -> q = p ++ place args /\ valid q root'.
Proof.
  induction args as [|[|i|k] args IH]; intros p root root' q Hv; cbn [make place].
  - intros [= <- <-]. by rewrite app_nil_r.
  - by apply IH.
  - destruct (make_step (index_ref i) p root) as [root1| |] eqn:E; try done. cbn [obind]. intros Hm.
    destruct (IH _ _ _ _ (make_step_valid _ p _ _ _ (index_ref_creates i) E) Hm) as [-> ?]. split; [by rewrite <- app_assoc|done].
  - destruct (make_step (resolveReference k) p root) as [root1| |] eqn:E; try done. cbn [obind]. intros Hm.
    destruct (IH _ _ _ _ (make_step_valid _ p _ _ _ (resolveReference_creates k) E) Hm) as [-> ?]. split; [by rewrite <- app_assoc|done].
Qed.

(** From a null node nothing is in the way. *)
Lemma make_from_null args : forall p root v, vget p root = Some v -> isNull v = true -> exists r, make args p root = Ok r.
Proof.
  induction args as [|[|i|k] args IH]; intros p root v Hv Hn; cbn [make]; [by eexists|by eapply IH| |].
  - unfold make_step. rewrite Hv. unfold index_ref, null_to. rewrite Hn. cbn. apply (IH _ _ null); [|done].
    rewrite vget_app, vget_vmodify_same, Hv. cbn. by rewrite Z.compare_refl.
  - unfold make_step. rewrite Hv. unfold resolveReference, null_to. rewrite Hn. cbn. apply (IH _ _ null); [|done].
    rewrite vget_app, vget_vmodify_same, Hv. cbn. by rewrite strcmp_refl.
Qed.

(** [Path] leads where its text says.  The text of any list of indices and
    names (not empty, without the characters of the syntax) is read as this list;
    [make] goes to the place of these indices and names, [resolve] then finds the
    node that [make] returned, and starting from a null value [make] always
    succeeds. *)
Theorem paths_lead_to_their_node args in_ root :
  Forall plain_argument args ->
  Path_new (path_text args) in_ = Ok args /\
  (isNull root = true -> is_ok (make args [] root) = true) /\
  forall root' p, make args [] root = Ok (root', p) -> p = place args /\ exists node, vget p root' = Some node /\ resolve args root' = Ok node.
Proof.
  intros Ha. split_and!.
  - apply (makePath_text in_ args Ha []). lia.
  - intros Hn. by destruct (make_from_null args [] root root eq_refl Hn) as [r ->].
  - intros root' p Hm. destruct (make_place args [] root root' p) as [-> [node Hv]]; [by eexists|done|]. split; [done|]. exists node.
    split; [done|]. by apply resolve_place.
Qed.

(** [resolve] with a default gives the default for every index that there is. *)
Lemma resolve_or_misses i args dflt v : isArray v = true -> isValidIndex i v = true -> resolve_or (PathIndex i :: args) dflt v = Ok dflt.
Proof. intros Ha Hi. cbn [resolve_or]. by rewrite Ha, Hi. Qed.

End Access.

(** ** Concrete values *)

#[local] Existing Instance Binary64.ops.

Lemma operators_compare_witness :
  let a := mk (arrayValue [(0, mk (intValue 1)); (1, mk (intValue 5))]) in
  let b := mk (arrayValue [(0, mk (intValue 2)); (1, mk (intValue 0))]) in
  let c := mk (objectValue []) in
  (comparable a /\ comparable b /\ comparable c) /\ operator_lt a b = true /\ operator_lt b c = true /\ operator_lt a c = true /\ operator_le a b = operator_ge a b.
Proof.
  cbv zeta. set (a := mk (arrayValue [(0, _); _])). set (b := mk (arrayValue [(0, mk (intValue 2)); _])). set (c := mk (objectValue [])).
  assert (Ha : comparable a) by (by repeat constructor). assert (Hb : comparable b) by (by repeat constructor). assert (Hc : comparable c) by (by repeat constructor).
  destruct (operators_compare a b c Ha Hb Hc) as (_ & _ & Ht & Hle). split; [done|]. split; [reflexivity|]. split; [reflexivity|].
  split; [apply Ht; reflexivity|exact Hle].
Defined.

Definition deep_path : list PathArgument := [PathKey (bs "a"); PathIndex 2; PathKey (bs "b c")].

Lemma paths_lead_to_their_node_witness :
  Forall plain_argument deep_path /\ Path_new (bs ".a[2].b c") [] = Ok deep_path /\ is_ok (make deep_path [] null) = true.
Proof.
  assert (Ha : Forall plain_argument deep_path) by (by repeat constructor).
  destruct (paths_lead_to_their_node deep_path [] null Ha) as (H1 & H2 & _). split; [exact Ha|]. split; [exact H1|]. apply H2. reflexivity.
Defined.

(** [operator<=] is the wrong way round. *)
Lemma one_is_not_at_most_two : operator_le (mk (intValue 1)) (mk (intValue 2)) = false /\ operator_le (mk (intValue 2)) (mk (intValue 1)) = true.
Proof. split; reflexivity. Qed.

(** An index as an argument: the sign is not skipped, and the bracket behind it
    becomes a name. *)
Lemma index_argument_adds_a_name : Path_new (bs "[%]") [PathIndex 3] = Ok [PathIndex 3; PathKey (bs "]")].
Proof. reflexivity. Qed.

(** Every sign takes the first argument. *)
Lemma second_argument_is_not_used : Path_new (bs "%.%") [PathKey (bs "x"); PathKey (bs "y")] = Ok [PathKey (bs "x"); PathKey (bs "x")].
Proof. reflexivity. Qed.

(** The first element of an array, with a default. *)
Lemma default_instead_of_element :
  let v := mk (arrayValue [(0, mk (intValue 7))]) in
  resolve [PathIndex 0] v = Ok (mk (intValue 7)) /\ resolve_or [PathIndex 0] null v = Ok null.
Proof. split; reflexivity. Qed.

(** An iterator that was made without a value and is then assigned: it is never
    equal to the end, and runs past it. *)
Lemma assigned_iterator_runs_past_the_end :
  let v := mk (arrayValue [(0, mk (intValue 7))]) in
  iterate 3 v (begin v) = Ok [mk (intValue 7)] /\ iterate 3 v (it_copy ValueIterator_new (begin v)) = Aborted "past the end".
Proof. split; reflexivity. Qed.

(** Behind a path that a NUL is in, the program hangs. *)
Lemma path_with_nul_hangs fuel rest in_ : makePath fuel (NUL :: rest) in_ [] = OutOfFuel.
Proof. apply makePath_hangs. Qed.

(** The message of a failed parse. *)
Example message_of_an_error :
  (let! (ok, r) := parse Features_all (bs "{" ++ [LF] ++ bs "  1}") null true in Ok (ok, getFormatedErrorMessages r)) =
  Ok (false, bs "* Line 2, Column 3" ++ [LF] ++ bs "  Missing '}' or object member name" ++ [LF]).
Proof. vm_compute. reflexivity. Qed.
