(* ===== verification/Logger.v ===== *)
(** * The logger ([lib/cutelogger])

    Levels, the appenders with their level filter, the dispatch of a record to
    the registered appenders, and the formatting of a record by
    [AbstractStringAppender::formattedString].  Texts are 8 bit; the regular
    expression engine behind [stripFunctionName] and the conversion of the time
    stamp are Qt's and enter as parameters. *)

From stdpp Require Import tactics.
From S2P Require Import Prelude Doubles Utils Syscalls.

(** ** Levels *)

Inductive LogLevel := Trace | Debug | Info | Warning | Error | Fatal.

#[export] Instance LogLevel_eq_dec : EqDecision LogLevel.
Proof. solve_decision. Defined.

(** The value of the enumerator. *)
Definition level_value (l : LogLevel) : Z :=
  match l with Trace => 0 | Debug => 1 | Info => 2 | Warning => 3 | Error => 4 | Fatal => 5 end.

Definition levelToString (logLevel : LogLevel) : bytes :=
  match logLevel with
  | Trace => bs "Trace"
  | Debug => bs "Debug"
  | Info => bs "Info"
  | Warning => bs "Warning"
  | Error => bs "Error"
  | Fatal => bs "Fatal"
  end.

(** [QString::trimmed], [toLower] and [toUpper] on ASCII. *)
Definition trim_left (s : bytes) : bytes := (span is_c_space s).2.
Definition trimmed (s : bytes) : bytes := rev (trim_left (rev (trim_left s))).

Definition lower (c : ascii) : ascii :=
  if (ord "A" <=? ord c) && (ord c <=? ord "Z") then chr (ord c + 32) else c.
Definition upper (c : ascii) : ascii :=
  if (ord "a" <=? ord c) && (ord c <=? ord "z") then chr (ord c - 32) else c.
Definition toLower (s : bytes) : bytes := map lower s.
Definition toUpper (s : bytes) : bytes := map upper s.

Definition levelFromString (s : bytes) : LogLevel :=
  let str := toLower (trimmed s) in
  if bool_decide (str = bs "trace") then Trace
  else if bool_decide (str = bs "debug") then Debug
  else if bool_decide (str = bs "info") then Info
  else if bool_decide (str = bs "warning") then Warning
  else if bool_decide (str = bs "error") then Error
  else if bool_decide (str = bs "fatal") then Fatal
  else Debug.

(** ** Records and their text *)

Record LogRecord := mkRecord {
  logLevel : LogLevel; file : bytes; line : Z; function : bytes; message : bytes
}.

Section Format.
(** [timeStamp.toString(format)] ([None]: a null string) and [stripFunctionName]. *)
Context (timeStamp : bytes -> option bytes) (stripFunctionName : bytes -> bytes).

(** [QString::toInt]: 0 when the text is not a number or does not fit. *)
Definition toInt (s : bytes) : Z := default 0 (scan_int32 s).

(** [QString("%1").arg(chunk, fieldWidth)] *)
Definition arg (chunk : bytes) (fieldWidth : Z) : bytes :=
  let pad := replicate (Z.to_nat (Z.abs fieldWidth) - length chunk) " "%char in
  if 0 <=? fieldWidth then pad ++ chunk else chunk ++ pad.

(** [section('/', -1)]: what follows the last slash. *)
Definition base_name (s : bytes) : bytes := rev (span (fun c => negb (Ascii.eqb c "/")) (rev s)).1.

(** The width after the percent sign: the width, the command and what follows
    it; a format that ends inside the width is read past its end. *)
Definition read_width (command : ascii) (rest : bytes) : outcome (Z * ascii * bytes) :=
  if is_digit command || Ascii.eqb command "-" then
    let '(digits, rest) := take_digits rest in
    match rest with
    | [] => Aborted "QString::at: index out of range"
    | next :: rest => Ok (toInt (command :: digits), next, rest)
    end
  else Ok (0, command, rest).

Definition default_stamp : bytes := default [] (timeStamp (bs "HH:mm:ss.zzz")).

(** The time stamp: an optional format in braces.  The first character after the
    brace belongs to the format even when it closes it. *)
Definition read_stamp (rest : bytes) : outcome (bytes * bytes) :=
  match rest with
  | [] => Aborted "QString::at: index out of range"
  | b :: inside =>
      if Ascii.eqb b "{" then
        match inside with
        | [] => Ok (default_stamp, rest)
        | a :: more =>
            let '(fmt, closed) := span (fun c => negb (Ascii.eqb c "}")) more in
            match closed with
            | [] => Ok (default_stamp, rest)
            | _ :: after =>
                match timeStamp (a :: fmt) with
                | Some chunk => Ok (chunk, after)
                | None => Ok (default_stamp, after)
                end
            end
        end
      else Ok (default_stamp, rest)
  end.

Definition chunk_of (r : LogRecord) (command : ascii) : bytes :=
  if Ascii.eqb command "l" then levelToString (logLevel r)
  else if Ascii.eqb command "L" then toUpper (levelToString (logLevel r))
  else if Ascii.eqb command "F" then file r
  else if Ascii.eqb command "f" then base_name (file r)
  else if Ascii.eqb command "i" then show_Z (line r)
  else if Ascii.eqb command "C" then function r
  else if Ascii.eqb command "c" then stripFunctionName (function r)
  else if Ascii.eqb command "m" then message r
  else if Ascii.eqb command "%" then bs "%"
  else ["%"%char; command].

(** The loop; [f] is what is left of the format. *)
Fixpoint format_loop (n : nat) (r : LogRecord) (f result : bytes) : outcome bytes :=
  match n with
  | O => OutOfFuel
  | S n' =>
      match f with
      | [] => Ok result
      | c :: f' =>
          match f' with
          | [] => format_loop n' r f' (result ++ [c])
          | command :: rest =>
              if negb (Ascii.eqb c "%") then format_loop n' r f' (result ++ [c])
              else
                let! (fieldWidth, command, rest) := read_width command rest in
                let! (chunk, rest) :=
                  if Ascii.eqb command "t" then read_stamp rest
                  else Ok (chunk_of r command, rest) in
                format_loop n' r rest (result ++ arg chunk fieldWidth)
          end
      end
  end.

Definition ESC : ascii := "027"%char.
Definition colour (code : string) : bytes := ESC :: bs code.

(** The [switch] without breaks: every level runs into the next. *)
Definition prepend_colours (l : LogLevel) (result : bytes) : bytes :=
  let result := if level_value l <=? 0 then colour "[35m" ++ result else result in
  let result := if level_value l <=? 1 then colour "[36m" ++ result else result in
  let result := if level_value l <=? 2 then colour "[37m" ++ result else result in
  let result := if level_value l <=? 3 then colour "[33m" ++ result else result in
  let result := if level_value l <=? 4 then colour "[31m" ++ result else result in
  colour "[34m" ++ result.

Definition formattedString (ansiColors : bool) (format : bytes) (r : LogRecord) : outcome bytes :=
  let! result := format_loop (S (length format)) r format [] in
  Ok (if ansiColors then prepend_colours (logLevel r) result ++ colour "[0m" else result).

(** ** Appenders *)

Inductive Target := Console | LogFile (fileName : bytes).

Record Appender := mkAppender {
  appender_id : nat; target : Target; detailsLevel : LogLevel; format : bytes; ansiColors : bool
}.

Definition default_format : bytes := bs "%t{yyyy-MM-ddTHH:mm:ss.zzz} [%-7l] <%c> %m" ++ [LF].

(** The constructors: level [Debug], the default format, colours on. *)
Definition new_appender (id : nat) (t : Target) : Appender := mkAppender id t Debug default_format true.

Definition setDetailsLevel (l : LogLevel) (a : Appender) : Appender :=
  mkAppender (appender_id a) (target a) l (format a) (ansiColors a).
Definition setFormat (f : bytes) (a : Appender) : Appender :=
  mkAppender (appender_id a) (target a) (detailsLevel a) f (ansiColors a).

(** What reaches the outside: text on [cerr], text appended to a file. *)
Inductive Output := ToStderr (text : bytes) | ToFile (fileName text : bytes).

(** [can_open]: whether the log file can be opened for appending. *)
Context (can_open : bytes -> bool).

Definition append (a : Appender) (r : LogRecord) : outcome (list Output) :=
  let! text := formattedString (ansiColors a) (format a) r in
  match target a with
  | Console => Ok [ToStderr text]
  | LogFile fileName =>
      if can_open fileName then Ok [ToFile fileName text]
      else Ok [ToStderr (bs "<FileAppender::append> Cannot open the log file " ++ fileName ++ [LF])]
  end.

Definition appender_write (a : Appender) (r : LogRecord) : outcome (list Output) :=
  if level_value (detailsLevel a) <=? level_value (logLevel r) then append a r else Ok [].

(** ** The logger *)

Definition registerAppender (a : Appender) (appenders : list Appender) : list Appender * list Output :=
  if existsb (fun b => (appender_id b =? appender_id a)%nat) appenders
  then (appenders, [ToStderr (bs "Trying to register appender that was already registered" ++ [LF])])
  else (appenders ++ [a], []).

Fixpoint write_all (appenders : list Appender) (r : LogRecord) : outcome (list Output) :=
  match appenders with
  | [] => Ok []
  | a :: appenders' =>
      let! out := appender_write a r in
      let! outs := write_all appenders' r in
      Ok (out ++ outs)
  end.

Definition fallback (r : LogRecord) : list Output :=
  [ToStderr (bs "[" ++ arg (levelToString (logLevel r)) (-7) ++ bs "] <" ++ function r ++ bs "> "
               ++ message r ++ [LF])].

(** The record is written, then a fatal one aborts the process: the boolean. *)
Definition write (appenders : list Appender) (r : LogRecord) : outcome (list Output * bool) :=
  let! out :=
    match appenders with
    | [] => Ok (fallback r)
    | _ => write_all appenders r
    end in
  Ok (out, bool_decide (logLevel r = Fatal)).

Definition writeAssert (appenders : list Appender) (f : bytes) (l : Z) (fn condition : bytes)
  : outcome (list Output * bool) :=
  write appenders (mkRecord Fatal f l fn (bs "ASSERT: " ++ [DQUOTE] ++ condition ++ [DQUOTE])).

End Format.
