(* ===== verification/LoggerTheorems.v ===== *)
(** * What the logger writes

    The formatting loop against the directives that the format stands for, the
    colour that takes effect, the names of the levels and the delivery of a
    record. *)

From stdpp Require Import tactics.
From S2P Require Import Prelude Doubles Utils UtilsTheorems Syscalls Logger.

(** ** Directives *)

(** A format is a sequence of plain characters, fields with a width, and time
    stamps with their own format. *)
Inductive directive :=
| Text (c : ascii)
| Field (width : bytes) (command : ascii)
| Stamp (width fmt : bytes).

Definition directive_text (d : directive) : bytes :=
  match d with
  | Text c => [c]
  | Field w command => "%"%char :: w ++ [command]
  | Stamp w fmt => "%"%char :: w ++ "t"%char :: "{"%char :: fmt ++ [ "}"%char ]
  end.

Fixpoint format_text (ds : list directive) : bytes :=
  match ds with
  | [] => []
  | d :: ds' => directive_text d ++ format_text ds'
  end.

(** A width is empty, or a digit or a minus followed by digits. *)
Definition width_ok (w : bytes) : Prop :=
  match w with
  | [] => True
  | c :: ds => (is_digit c = true \/ c = "-"%char) /\ Forall (fun c => is_digit c = true) ds
  end.

(** The bare time stamp must not stand at the end nor in front of a brace. *)
Definition directive_ok (d : directive) (following : bytes) : Prop :=
  match d with
  | Text c => c <> "%"%char
  | Field w command =>
      width_ok w /\ is_digit command = false /\ (w = [] -> command <> "-"%char)
      /\ (command = "t"%char -> exists c s, following = c :: s /\ c <> "{"%char)
  | Stamp w fmt => width_ok w /\ exists a fmt', fmt = a :: fmt' /\ Forall (fun c => c <> "}"%char) fmt'
  end.

Fixpoint directives_ok (ds : list directive) : Prop :=
  match ds with
  | [] => True
  | d :: ds' => directive_ok d (format_text ds') /\ directives_ok ds'
  end.

Lemma take_digits_app ds c rest :
  Forall (fun c => is_digit c = true) ds -> is_digit c = false ->
  take_digits (ds ++ c :: rest) = (ds, c :: rest).
Proof.
  intros H Hc. induction H as [|d ds Hd _ IH]; cbn [app take_digits]; [by rewrite Hc|].
  by rewrite Hd, IH.
Qed.

Definition width_value (w : bytes) : Z := match w with [] => 0 | _ => toInt w end.

Lemma read_width_text w command rest :
  width_ok w -> is_digit command = false -> (w = [] -> command <> "-"%char) ->
  exists c f, w ++ command :: rest = c :: f /\ read_width c f = Ok (width_value w, command, rest).
Proof.
  intros Hw Hc Hm. destruct w as [|c ds].
  - exists command, rest. split; [done|]. unfold read_width.
    by rewrite Hc, (ascii_eqb_ne _ _ (Hm eq_refl)).
  - destruct Hw as [Hd Hds]. exists c, (ds ++ command :: rest). split; [done|]. unfold read_width.
    assert (is_digit c || Ascii.eqb c "-" = true) as ->.
    { destruct Hd as [-> | ->]; [done|]. by rewrite orb_true_r. }
    by rewrite take_digits_app.
Qed.

Section Formatting.
Context (timeStamp : bytes -> option bytes) (stripFunctionName : bytes -> bytes).

(** What a directive stands for. *)
Definition denote (r : LogRecord) (d : directive) : bytes :=
  match d with
  | Text c => [c]
  | Field w command =>
      arg (if Ascii.eqb command "t" then default_stamp timeStamp
           else chunk_of stripFunctionName r command) (width_value w)
  | Stamp w fmt => arg (default (default_stamp timeStamp) (timeStamp fmt)) (width_value w)
  end.

Lemma span_stop (p : ascii -> bool) (s rest : bytes) c :
  Forall (fun c => p c = true) s -> p c = false -> span p (s ++ c :: rest) = (s, c :: rest).
Proof.
  intros Hs Hc. induction Hs as [|x s Hx _ IH]; cbn [app span]; [by rewrite Hc|]. by rewrite Hx, IH.
Qed.

Lemma read_stamp_format fmt rest :
  (exists a fmt', fmt = a :: fmt' /\ Forall (fun c => c <> "}"%char) fmt') ->
  read_stamp timeStamp ("{"%char :: fmt ++ "}"%char :: rest)
  = Ok (default (default_stamp timeStamp) (timeStamp fmt), rest).
Proof.
  intros (a & fmt' & -> & Hf). cbn [read_stamp app].
  change (Ascii.eqb "{" "{") with true. cbn match.
  rewrite span_stop; [by destruct (timeStamp (a :: fmt'))| |done].
  eapply Forall_impl; [exact Hf|]. intros c Hc. by rewrite ascii_eqb_ne.
Qed.

Lemma format_step n r d following result :
  directive_ok d following ->
  format_loop timeStamp stripFunctionName (S n) r (directive_text d ++ following) result
  = format_loop timeStamp stripFunctionName n r following (result ++ denote r d).
Proof.
  destruct d as [c|w command|w fmt]; cbn [directive_ok directive_text denote].
  - intros Hc. cbn [app format_loop]. destruct following; [done|].
    by rewrite (ascii_eqb_ne _ _ Hc).
  - intros (Hw & Hd & Hm & Ht). cbn [app]. rewrite <- app_assoc. cbn [app].
    destruct (read_width_text w command following Hw Hd Hm) as (c & f & -> & E).
    cbn [format_loop]. change (negb (Ascii.eqb "%" "%")) with false. cbn match.
    rewrite E. cbn [obind]. destruct (Ascii.eqb_spec command "t") as [->|]; [|done].
    destruct (Ht eq_refl) as (x & s & -> & Hx). unfold read_stamp.
    by rewrite (ascii_eqb_ne _ _ Hx).
  - intros (Hw & Hf). cbn [app]. rewrite <- app_assoc. cbn [app]. rewrite <- app_assoc. cbn [app].
    destruct (read_width_text w "t" ("{"%char :: fmt ++ "}"%char :: following) Hw eq_refl ltac:(done))
      as (c & f & E1 & E). rewrite E1.
    cbn [format_loop]. change (negb (Ascii.eqb "%" "%")) with false. cbn match.
    rewrite E. cbn [obind]. change (Ascii.eqb "t" "t") with true. cbn match.
    by rewrite read_stamp_format.
Qed.

Lemma directive_length d : (1 <= length (directive_text d))%nat.
Proof. destruct d; cbn; lia. Qed.

Lemma format_loop_denotes r ds n result :
  directives_ok ds -> (length (format_text ds) < n)%nat ->
  format_loop timeStamp stripFunctionName n r (format_text ds) result
  = Ok (result ++ concat (map (denote r) ds)).
Proof.
  revert n result. induction ds as [|d ds IH]; intros [|n] result Hok Hn; try lia; cbn [format_text].
  - cbn. by rewrite app_nil_r.
  - destruct Hok as [Hd Hds]. cbn [format_text] in Hn. rewrite length_app in Hn.
    pose proof (directive_length d). rewrite format_step by done. rewrite IH by (done || lia).
    cbn [map concat]. by rewrite app_assoc.
Qed.

(** The colour of a level. *)
Definition own_colour (l : LogLevel) : bytes :=
  colour match l with
  | Trace => "[35m" | Debug => "[36m" | Info => "[37m"
  | Warning => "[33m" | Error => "[31m" | Fatal => "[34m"
  end.

Lemma prepend_colours_own l text : exists before, prepend_colours l text = before ++ own_colour l ++ text.
Proof.
  exists (concat (map colour (match l with
    | Trace => ["[34m"; "[31m"; "[33m"; "[37m"; "[36m"]
    | Debug => ["[34m"; "[31m"; "[33m"; "[37m"]
    | Info => ["[34m"; "[31m"; "[33m"]
    | Warning => ["[34m"; "[31m"]
    | Error => ["[34m"]
    | Fatal => []
    end)%string)).
  by destruct l.
Qed.


(** ** Delivery *)

Context (can_open : bytes -> bool).

(** The appenders that take a record of the level. *)
Definition listening (l : LogLevel) (a : Appender) : Prop :=
  level_value (detailsLevel a) <= level_value l.

#[local] Instance listening_dec l a : Decision (listening l a).
Proof. unfold listening. solve_decision. Defined.

Definition delivered (r : LogRecord) (a : Appender) (text : bytes) : Output :=
  match target a with
  | Console => ToStderr text
  | LogFile name =>
      if can_open name then ToFile name text
      else ToStderr (bs "<FileAppender::append> Cannot open the log file " ++ name ++ [LF])
  end.

Lemma write_all_delivers appenders r (text : Appender -> bytes) :
  (forall a, a ∈ appenders -> formattedString timeStamp stripFunctionName (ansiColors a) (format a) r
                              = Ok (text a)) ->
  write_all timeStamp stripFunctionName can_open appenders r
  = Ok (map (fun a => delivered r a (text a)) (filter (listening (logLevel r)) appenders)).
Proof.
  induction appenders as [|a appenders IH]; intros Ht; [done|]. cbn [write_all].
  rewrite IH by (intros b Hb; apply Ht; by right).
  unfold appender_write, append, listening, delivered. rewrite filter_cons.
  destruct (Z.leb_spec (level_value (detailsLevel a)) (level_value (logLevel r))) as [Hl|Hl];
    cbn [obind].
  - rewrite decide_True by done. rewrite Ht by (by left). cbn [obind map].
    destruct (target a); [done|]. by destruct (can_open _).
  - by rewrite decide_False by lia.
Qed.

(** A record goes to exactly the registered appenders whose level it
    reaches, in the order of registration, each in its own format, or to the
    standard error stream when there is none; the process aborts after a fatal
    record and after no other. *)
Theorem record_reaches_appenders appenders r (text : Appender -> bytes) :
  (forall a, a ∈ appenders -> formattedString timeStamp stripFunctionName (ansiColors a) (format a) r
                              = Ok (text a)) ->
  write timeStamp stripFunctionName can_open appenders r
  = Ok (match appenders with
        | [] => fallback r
        | _ => map (fun a => delivered r a (text a)) (filter (listening (logLevel r)) appenders)
        end, bool_decide (logLevel r = Fatal)).
Proof.
  intros Ht. unfold write. destruct appenders as [|a appenders]; [done|].
  by rewrite (write_all_delivers _ _ text).
Qed.

End Formatting.

(** ** Level names *)

Lemma level_name_inj l l' : toLower (levelToString l) = toLower (levelToString l') -> l = l'.
Proof. by destruct l, l'. Qed.

Lemma levelFromString_cases s :
  (exists l, toLower (trimmed s) = toLower (levelToString l) /\ levelFromString s = l)
  \/ levelFromString s = Debug /\ forall l, toLower (trimmed s) <> toLower (levelToString l).
Proof.
  unfold levelFromString.
  repeat case_bool_decide; first [left; eexists; (split; [|reflexivity]); assumption|right].
  split; [done|]. intros []; assumption.
Qed.

(** [levelFromString] recognises the name of every level, whatever its case
    and the blanks around it, and answers [Debug] for every other text. *)
Theorem level_names s l :
  levelFromString s = l <->
  toLower (trimmed s) = toLower (levelToString l)
  \/ l = Debug /\ forall l', toLower (trimmed s) <> toLower (levelToString l').
Proof.
  destruct (levelFromString_cases s) as [(l0 & Et & ->)|[-> Hno]].
  - split; [intros <-; by left|]. intros [E|[_ Hno]]; [|by destruct (Hno l0)].
    apply level_name_inj. congruence.
  - split; [intros <-; by right|]. intros [E|[-> _]]; [by destruct (Hno l)|done].
Qed.

(** ** Instances *)

Definition stamp (fmt : bytes) : option bytes :=
  if decide (fmt = bs "dd-HH:mm:ss") then Some (bs "27-10:15:00") else None.

(** The format of Dispel: "%t{dd-HH:mm:ss} \[%-7l\] %m". *)
Definition dispel_format : list directive :=
  [Stamp [] (bs "dd-HH:mm:ss"); Text " "; Text "["; Field (bs "-7") "l"; Text "]"; Text " ";
   Field [] "m"; Text LF].

Definition sample_record : LogRecord :=
  mkRecord Info (bs "dispel.cc") 333 (bs "int main(int, char**)") (bs "Using Zeromq").

Lemma dispel_format_ok : directives_ok dispel_format.
Proof.
  unfold dispel_format. repeat match goal with
  | |- directives_ok (_ :: _) => split
  | |- directive_ok (Stamp _ _) _ =>
      split; [exact I|eexists _, _; split; [reflexivity|repeat constructor; discriminate]]
  | |- directive_ok _ _ => repeat split; (discriminate || reflexivity || by left || by right || idtac)
  | |- _ => done || (by repeat constructor)
  end.
Qed.


Definition sample_appenders : list Appender :=
  [setFormat (bs "%m") (new_appender 1 Console);
   setDetailsLevel Error (new_appender 2 Console);
   setFormat (bs "%l") (new_appender 3 (LogFile (bs "/var/log/svd.log")))].

Definition sample_text (a : Appender) : bytes :=
  match formattedString stamp (fun f => f) (ansiColors a) (format a) sample_record with
  | Ok t => t
  | _ => []
  end.

Lemma record_reaches_appenders_witness :
  exists first second,
    write stamp (fun f => f) (fun _ => true) sample_appenders sample_record
    = Ok ([ToStderr first; ToFile (bs "/var/log/svd.log") second], false).
Proof.
  eexists _, _.
  refine (eq_trans (record_reaches_appenders stamp (fun f => f) (fun _ => true) sample_appenders
                      sample_record sample_text _) _).
  - intros a Ha. unfold sample_appenders in Ha. rewrite !elem_of_cons, elem_of_nil in Ha.
    destruct Ha as [->|[->|[->|[]]]]; reflexivity.
  - reflexivity.
Defined.
