(* ===== verification/Notifications.v ===== *)
(** * Notifications ([lib/notifications/notifications.cc])

    The notification files of a service and their history.  The file system is
    a map from a directory and a name to a file; Qt's [entryList(Files, Time)]
    is a parameter, because the order of files of the same age is Qt's, and so
    are the clock, SHA-1 and the length of a text in UTF-16 units. *)

From stdpp Require Import tactics gmap sets.
From S2P Require Import Prelude Doubles Utils Syscalls Logger.

Definition NOTIFICATIONS_LAST_SHOWN : Z := 7.
Definition NOTIFICATIONS_HISTORY_KEEP_UPTO : Z := 100.
Definition NOTIFICATIONS_DATA_DIR : bytes := bs "/.notifications/".
Definition NOTIFICATIONS_HISTORY_DATA_DIR : bytes := bs "/.notifications-history/".
Definition SOFTWARE_DATA_DIR : bytes := bs "/SoftwareData".

(** ** Files *)

Record file := mkFile { modified : Z; contents : bytes }.

(** A file is found under its directory and its name. *)
Abbreviation filesystem := (gmap (bytes * bytes) file).

Definition names_in (dir : bytes) (fs : filesystem) : gset bytes :=
  set_map snd (filter (fun k => k.1 = dir) (dom fs)).

(** [QFile::copy] refuses to overwrite; the copy is a new file. *)
Definition copy_file (now : Z) (from to : bytes * bytes) (fs : filesystem) : filesystem :=
  match fs !! from, fs !! to with
  | Some f, None => <[to := mkFile now (contents f)]> fs
  | _, _ => fs
  end.

Definition remove_file (path : bytes * bytes) (fs : filesystem) : filesystem := delete path fs.

(** [writeToFile]: truncates or creates; nothing happens when the directory is
    missing.  [stream << contents << endl]. *)
Definition writeToFile (now : Z) (dirs : gset bytes) (path : bytes * bytes) (text : bytes)
    (fs : filesystem) : filesystem :=
  if decide (path.1 ∈ dirs) then <[path := mkFile now (text ++ [LF])]> fs else fs.

Definition getOrCreateDir (path : bytes) (dirs : gset bytes) : gset bytes := {[path]} ∪ dirs.

(** *** Reading *)

(** [QTextStream::readLine] until [atEnd]: the lines, without their ends. *)
Fixpoint read_lines (s line : bytes) : list bytes :=
  match s with
  | [] => match line with [] => [] | _ => [line] end
  | c :: s' =>
      if Ascii.eqb c LF then
        (match rev line with
         | d :: before => if Ascii.eqb d CR then rev before else line
         | [] => line
         end) :: read_lines s' []
      else read_lines s' (line ++ [c])
  end.

(** [readFileContents]; [None]: the file cannot be opened. *)
Definition readFileContents (f : option bytes) : bytes :=
  concat (map (fun line => match trimmed line with [] => [] | _ => line ++ [LF] end)
              (read_lines (default [] f) []))
  ++ [LF].

(** ** Rotation *)

Section Rotation.
(** [QDir(dir).entryList(QDir::Files, QDir::Time)] *)
Context (entryList : bytes -> filesystem -> list bytes).

(** [for (int i = notificationAmount - 1; i > 0; i--) if (i > keep) step(items.at(i))] *)
Fixpoint from_last (i : nat) (keep : Z) (items : list bytes) (step : bytes -> filesystem -> filesystem)
    (fs : filesystem) : filesystem :=
  match i with
  | O => fs
  | S i' =>
      from_last i' keep items step
        (if keep <? Z.of_nat i then step (default [] (items !! i)) fs else fs)
  end.

Definition move_to_history (now : Z) (notificationRoot historyRoot item : bytes) (fs : filesystem)
  : filesystem :=
  remove_file (notificationRoot, item) (copy_file now (notificationRoot, item) (historyRoot, item) fs).

Definition moveOldNotificationsToHistoryAndCleanHistory (now : Z) (notificationRoot historyRoot : bytes)
    (fs : filesystem) : filesystem :=
  let items := entryList notificationRoot fs in
  let fs := from_last (length items - 1) NOTIFICATIONS_LAST_SHOWN items
              (move_to_history now notificationRoot historyRoot) fs in
  let items := entryList historyRoot fs in
  from_last (length items - 1) NOTIFICATIONS_HISTORY_KEEP_UPTO items
    (fun item => remove_file (historyRoot, item)) fs.

(** ** [notification] *)

Inductive NotificationLevels := NOTIFY | WARNING | ERROR | FATAL.

Definition postfix (level : NotificationLevels) : bytes :=
  match level with
  | NOTIFY => bs ".notice"
  | WARNING => bs ".warning"
  | ERROR => bs ".error"
  | FATAL => bs ".fatal"
  end.

Definition log_level (level : NotificationLevels) : LogLevel :=
  match level with NOTIFY => Info | WARNING => Warning | ERROR => Error | FATAL => Fatal end.

(** [history] is the static map of the messages and their amounts. *)
Record Center := mkCenter { dirs : gset bytes; fs : filesystem; history : gmap bytes Z }.

(** The moment of the call: the clock, the two renderings of it and [HOME]. *)
Record Moment := mkMoment { now : Z; dd_hh_mm : bytes; dd_hh_mm_ss : bytes; HOME : bytes }.

Context (sha1_hex : bytes -> bytes) (utf16_length : bytes -> nat).

Definition stamped (m : Moment) (notificationMessage : bytes) : bytes :=
  if negb (is_prefix (dd_hh_mm m) notificationMessage) then dd_hh_mm_ss m ++ notificationMessage
  else notificationMessage.

(** [hash->addData(content.toUtf8(), content.length())] *)
Definition file_name (message : bytes) (level : NotificationLevels) : bytes :=
  sha1_hex (take (utf16_length message) message) ++ postfix level.

Definition roots (m : Moment) (serviceName : bytes) : bytes * bytes :=
  match serviceName with
  | [] => (HOME m ++ SOFTWARE_DATA_DIR ++ NOTIFICATIONS_DATA_DIR,
           HOME m ++ SOFTWARE_DATA_DIR ++ NOTIFICATIONS_HISTORY_DATA_DIR)
  | _ => (HOME m ++ SOFTWARE_DATA_DIR ++ bs "/" ++ serviceName ++ NOTIFICATIONS_DATA_DIR,
          HOME m ++ SOFTWARE_DATA_DIR ++ bs "/" ++ serviceName ++ NOTIFICATIONS_HISTORY_DATA_DIR)
  end.

(** [history\[message\]] inserts a zero for a message it does not hold. *)
Definition amount_of (message : bytes) (h : gmap bytes Z) : Z * gmap bytes Z :=
  match h !! message with
  | Some n => (n, h)
  | None => (0, <[message := 0]> h)
  end.

(** The levels are logged first, and a fatal log record aborts the process. *)
Definition notification (m : Moment) (notificationMessage serviceName : bytes)
    (level : NotificationLevels) (c : Center) : outcome Center :=
  let message := stamped m notificationMessage in
  let! _ := assertion (negb (bool_decide (log_level level = Fatal))) "abort()" in
  let '(amount, h) := amount_of message (history c) in
  if 0 <? amount then Ok (mkCenter (dirs c) (fs c) (<[message := amount + 1]> h))
  else
    let '(notificationRoot, historyRoot) := roots m serviceName in
    let dirs := getOrCreateDir historyRoot (getOrCreateDir notificationRoot (dirs c)) in
    let fs := writeToFile (now m) dirs (notificationRoot, file_name message level) message (fs c) in
    Ok (mkCenter dirs
          (moveOldNotificationsToHistoryAndCleanHistory (now m) notificationRoot historyRoot fs) h).

End Rotation.
