(* ===== verification/NotificationsTheorems.v ===== *)
(** * What the notification directory keeps *)

From stdpp Require Import tactics gmap sets sorting.
From S2P Require Import Prelude Doubles Utils Syscalls Logger Notifications.

(** ** Folding over the old items *)

Lemma from_last_fold i keep items step fs :
  0 <= keep -> (i < length items)%nat ->
  from_last i keep items step fs
  = fold_left (fun fs x => step x fs) (rev (drop (Z.to_nat keep + 1) (take (S i) items))) fs.
Proof.
  intros Hk. revert fs. induction i as [|i IH]; intros fs Hi; cbn [from_last].
  - rewrite drop_ge; [done|]. rewrite length_take. lia.
  - destruct (lookup_lt_is_Some_2 items (S i) Hi) as [x Hx].
    rewrite (take_S_r items (S i) x Hx). rewrite IH by lia. rewrite Hx. cbn [default].
    destruct (Z.ltb_spec keep (Z.of_nat (S i))) as [Hlt|Hge].
    + rewrite drop_app_le by (rewrite length_take; lia). by rewrite rev_app_distr.
    + rewrite !drop_ge; [done| |]; rewrite ?length_app, ?length_take; cbn [length]; lia.
Qed.

Lemma from_last_items keep items step fs :
  0 <= keep ->
  from_last (length items - 1) keep items step fs
  = fold_left (fun fs x => step x fs) (rev (drop (Z.to_nat keep + 1) items)) fs.
Proof.
  intros Hk. destruct items as [|x items]; [by rewrite drop_nil|].
  rewrite from_last_fold by (done || cbn; lia). rewrite take_ge; [done|]. cbn. lia.
Qed.

Section Rotation.
Context (entryList : bytes -> filesystem -> list bytes).

(** What Qt documents of [entryList(QDir::Files, QDir::Time)]: every file once,
    the most recently modified first. *)
Definition lists_by_time : Prop :=
  forall dir fs,
    NoDup (entryList dir fs)
    /\ (forall x, x ∈ entryList dir fs <-> is_Some (fs !! (dir, x)))
    /\ forall i j x y f g, (i < j)%nat ->
         entryList dir fs !! i = Some x -> entryList dir fs !! j = Some y ->
         fs !! (dir, x) = Some f -> fs !! (dir, y) = Some g -> modified g <= modified f.

(** ** Moving and removing *)

Ltac by_cases :=
  repeat case_decide; try done; exfalso;
  repeat match goal with H : context [_ ∈ _ :: _] |- _ => rewrite elem_of_cons in H end;
  intuition congruence.

Lemma moved_lookup now root hist xs fs k :
  root <> hist -> NoDup xs ->
  fold_left (fun fs x => move_to_history now root hist x fs) xs fs !! k
  = if decide (k.1 = root /\ k.2 ∈ xs) then None
    else if decide (k.1 = hist /\ k.2 ∈ xs) then
      match fs !! k with
      | Some f => Some f
      | None => (fun f => mkFile now (contents f)) <$> fs !! (root, k.2)
      end
    else fs !! k.
Proof.
  intros Hrh. destruct k as [d x]. revert fs. induction xs as [|y xs IH]; intros fs Hnd; cbn [fold_left fst snd].
  - rewrite !decide_False by (intros [_ H]; by apply not_elem_of_nil in H). done.
  - apply NoDup_cons in Hnd as [Hy Hnd]. rewrite IH by done. cbn [fst snd]. clear IH.
    assert (Hone : forall d x, move_to_history now root hist y fs !! (d, x)
      = if decide (d = root /\ x = y) then None
        else if decide (d = hist /\ x = y) then
          match fs !! (d, x) with
          | Some f => Some f
          | None => (fun f => mkFile now (contents f)) <$> fs !! (root, x)
          end
        else fs !! (d, x)).
    { clear d x. intros d x. unfold move_to_history, remove_file, copy_file.
      destruct (decide (d = root /\ x = y)) as [[-> ->]|Hne1]; [by rewrite lookup_delete_eq|].
      rewrite lookup_delete_ne by naive_solver.
      destruct (decide (d = hist /\ x = y)) as [[-> ->]|Hne2].
      - destruct (fs !! (root, y)) as [f|] eqn:E1; destruct (fs !! (hist, y)) as [g|] eqn:E2;
          rewrite ?lookup_insert_eq, ?E2; done.
      - destruct (fs !! (root, y)) as [f|]; [|done]. destruct (fs !! (hist, y)); [done|].
        rewrite lookup_insert_ne; [done|naive_solver]. }
    rewrite !Hone.
    by_cases.
Qed.

Lemma removed_lookup (dir : bytes) (xs : list bytes) (fs : filesystem) (k : bytes * bytes) :
  fold_left (fun fs x => remove_file (dir, x) fs) xs fs !! k
  = if decide (k.1 = dir /\ k.2 ∈ xs) then None else fs !! k.
Proof.
  destruct k as [d x]. revert fs. induction xs as [|y xs IH]; intros fs; cbn [fold_left fst snd].
  - rewrite decide_False; [done|]. intros [_ H]. by apply not_elem_of_nil in H.
  - rewrite IH. cbn [fst snd]. unfold remove_file.
    destruct (decide (d = dir /\ x = y)) as [[-> ->]|Hne].
    + rewrite lookup_delete_eq. rewrite (decide_True (P := dir = dir /\ y ∈ y :: xs)) by set_solver.
      by destruct (decide (dir = dir /\ y ∈ xs)).
    + rewrite lookup_delete_ne by naive_solver.
      by_cases.
Qed.

(** ** The whole rotation *)

Definition kept_shown (items : list bytes) : list bytes := take 8 items.
Definition moved_out (items : list bytes) : list bytes := drop 8 items.
Definition kept_history (items : list bytes) : list bytes := take 101 items.

(** The history after the old notifications have been moved into it. *)
Definition after_move (now : Z) (root hist : bytes) (fs : filesystem) : filesystem :=
  fold_left (fun fs x => move_to_history now root hist x fs)
    (rev (moved_out (entryList root fs))) fs.

Lemma rotation_folds now root hist fs :
  moveOldNotificationsToHistoryAndCleanHistory entryList now root hist fs
  = fold_left (fun fs x => remove_file (hist, x) fs)
      (rev (drop 101 (entryList hist (after_move now root hist fs)))) (after_move now root hist fs).
Proof.
  unfold moveOldNotificationsToHistoryAndCleanHistory, after_move, moved_out.
  by rewrite !from_last_items.
Qed.

Lemma listed_split n dir fs x : lists_by_time ->
  is_Some (fs !! (dir, x)) ->
  (x ∈ take n (entryList dir fs)) <-> ~ x ∈ drop n (entryList dir fs).
Proof.
  intros Hl Hx. destruct (Hl dir fs) as (Hnd & Hin & _). apply Hin in Hx.
  rewrite <- (take_drop n (entryList dir fs)) in Hnd, Hx.
  apply NoDup_app in Hnd as (_ & Hdisj & _). apply elem_of_app in Hx. specialize (Hdisj x). tauto.
Qed.

Lemma NoDup_moved dir fs : lists_by_time -> NoDup (rev (moved_out (entryList dir fs))).
Proof.
  intros Hl. destruct (Hl dir fs) as (Hnd & _). unfold moved_out.
  rewrite <- (take_drop 8 (entryList dir fs)) in Hnd. apply NoDup_app in Hnd as (_ & _ & Hnd).
  by rewrite <- Permutation_rev.
Qed.

Lemma unlisted dir fs x : lists_by_time -> fs !! (dir, x) = None -> ~ x ∈ entryList dir fs.
Proof. intros Hl Hn Hx%(proj1 (proj1 (proj2 (Hl dir fs)) x)). by destruct Hx as [f Hf]; rewrite Hn in Hf. Qed.

Lemma elem_of_rev (x : bytes) l : x ∈ rev l <-> x ∈ l.
Proof. by rewrite <- Permutation_rev. Qed.

Lemma rotation_spec now root hist fs :
  lists_by_time -> root <> hist ->
  let fs1 := after_move now root hist fs in
  let fs2 := moveOldNotificationsToHistoryAndCleanHistory entryList now root hist fs in
  (forall x, fs2 !! (root, x) = if decide (x ∈ kept_shown (entryList root fs)) then fs !! (root, x) else None)
  /\ (forall x, fs1 !! (hist, x) =
        match fs !! (hist, x) with
        | Some f => Some f
        | None => if decide (x ∈ moved_out (entryList root fs))
                  then (fun f => mkFile now (contents f)) <$> fs !! (root, x) else None
        end)
  /\ (forall x, fs2 !! (hist, x) = if decide (x ∈ kept_history (entryList hist fs1)) then fs1 !! (hist, x) else None)
  /\ (forall d x, d <> root -> d <> hist -> fs2 !! (d, x) = fs !! (d, x)).
Proof.
  intros Hl Hrh fs1 fs2. subst fs2. rewrite rotation_folds. fold fs1.
  pose proof (NoDup_moved root fs Hl) as Hnd.
  assert (H1 : forall k, fs1 !! k = _) by (intros k; by apply moved_lookup).
  assert (H2 : forall k, fold_left (fun fs x => remove_file (hist, x) fs)
    (rev (drop 101 (entryList hist fs1))) fs1 !! k = _) by (intros k; by apply removed_lookup).
  split_and!.
  - intros x. rewrite H2, H1. cbn [fst snd]. rewrite decide_False by intuition congruence.
    destruct (fs !! (root, x)) as [f|] eqn:E.
    + pose proof (listed_split 8 root fs x Hl ltac:(by eexists)) as Hs. unfold kept_shown, moved_out.
      repeat case_decide; try done; exfalso; rewrite ?elem_of_rev in *; intuition congruence.
    + repeat case_decide; done.
  - intros x. rewrite H1. cbn [fst snd]. rewrite decide_False by intuition congruence.
    destruct (fs !! (hist, x)) as [f|] eqn:E; repeat case_decide; try done;
      rewrite ?elem_of_rev in *; intuition congruence.
  - intros x. rewrite H2. cbn [fst snd].
    destruct (fs1 !! (hist, x)) as [f|] eqn:E.
    + pose proof (listed_split 101 hist fs1 x Hl ltac:(by eexists)) as Hs. unfold kept_history.
      repeat case_decide; try done; exfalso; rewrite ?elem_of_rev in *; intuition congruence.
    + repeat case_decide; done.
  - intros d x Hr Hh. rewrite H2, H1. cbn [fst snd].
    rewrite !decide_False by intuition congruence. done.
Qed.

(** C38: the rotation keeps, unchanged, the eight most recent notifications and
    moves exactly the other ones to the history, where a copy with the same
    contents appears unless a file of that name is there already; of the history
    it keeps, unchanged, the 101 most recent files.  No other directory is
    touched. *)
Theorem rotation_keeps_the_newest now root hist fs :
  lists_by_time -> root <> hist ->
  let fs1 := after_move now root hist fs in
  let fs2 := moveOldNotificationsToHistoryAndCleanHistory entryList now root hist fs in
  (forall x, fs2 !! (root, x) = if decide (x ∈ kept_shown (entryList root fs)) then fs !! (root, x) else None)
  /\ (forall x, fs1 !! (hist, x) =
        match fs !! (hist, x) with
        | Some f => Some f
        | None => if decide (x ∈ moved_out (entryList root fs))
                  then (fun f => mkFile now (contents f)) <$> fs !! (root, x) else None
        end)
  /\ (forall x, fs2 !! (hist, x) = if decide (x ∈ kept_history (entryList hist fs1)) then fs1 !! (hist, x) else None)
  /\ (forall d x, d <> root -> d <> hist -> fs2 !! (d, x) = fs !! (d, x)).
Proof. apply rotation_spec. Qed.

(** ** Delivery *)

Lemma listed_bound (n : nat) (dir : bytes) (fs : filesystem) (items : list bytes) : lists_by_time ->
  (forall x : bytes, is_Some (fs !! (dir, x)) -> x ∈ take n items) ->
  (length (entryList dir fs) <= n)%nat.
Proof.
  intros Hl Hin. destruct (Hl dir fs) as (Hnd & Hel & _).
  transitivity (length (take n items)); [|rewrite length_take; lia].
  apply submseteq_length, NoDup_submseteq; [done|]. intros x Hx. by apply Hin, Hel.
Qed.

Lemma roots_differ m serviceName : (roots m serviceName).1 <> (roots m serviceName).2.
Proof.
  destruct serviceName as [|c s]; intros E; unfold roots in E; cbn [fst snd] in E;
    repeat apply app_inv_head in E; discriminate E.
Qed.

(** The most recent file is listed first. *)
Lemma newest_shown (n : nat) (dir : bytes) (fs : filesystem) (x : bytes) (f : file) : lists_by_time ->
  fs !! (dir, x) = Some f ->
  (forall y g, fs !! (dir, y) = Some g -> y <> x -> modified g < modified f) ->
  (0 < n)%nat -> x ∈ take n (entryList dir fs).
Proof.
  intros Hl Hx Hnew Hn. destruct (Hl dir fs) as (_ & Hel & Htime).
  assert (Hin : x ∈ entryList dir fs) by (apply Hel; by eexists).
  apply list_elem_of_lookup in Hin as [i Hi]. destruct i as [|i].
  - apply list_elem_of_lookup. exists 0%nat. by rewrite lookup_take_lt.
  - exfalso. destruct (entryList dir fs !! 0%nat) as [y|] eqn:E0.
    2: { apply lookup_ge_None in E0. apply lookup_lt_Some in Hi. lia. }
    assert (is_Some (fs !! (dir, y))) as [g Hg].
    { apply Hel, list_elem_of_lookup. by exists 0%nat. }
    pose proof (Htime 0%nat (S i) y x g f ltac:(lia) E0 Hi Hg Hx) as Hle.
    destruct (decide (y = x)) as [->|Hne].
    + destruct (Hl dir fs) as (Hnd & _). pose proof (NoDup_lookup _ _ _ _ Hnd E0 Hi). lia.
    + specialize (Hnew y g Hg Hne). lia.
Qed.

Context (sha1_hex : bytes -> bytes) (utf16_length : bytes -> nat).

(** No message has a positive amount. *)
Definition never_counted (c : Center) : Prop := map_Forall (fun _ n => n = 0) (history c).

(** A notification that is not fatal is always written: its file, named by
    the hash and the level, holds the stamped message, and stays on display
    provided it is the most recent one; the display then holds at most eight and
    the history at most 101 files.  The amounts of the static history stay zero,
    so that its branch for repeated messages is never taken. *)
Theorem notification_is_written m notificationMessage serviceName level c :
  lists_by_time -> level <> FATAL -> never_counted c ->
  let '(root, hist) := roots m serviceName in
  let message := stamped m notificationMessage in
  let name := file_name sha1_hex utf16_length message level in
  (forall x f, fs c !! (root, x) = Some f -> x <> name -> modified f < now m) ->
  exists c', notification entryList sha1_hex utf16_length m notificationMessage serviceName level c = Ok c'
    /\ never_counted c'
    /\ fs c' !! (root, name) = Some (mkFile (now m) (message ++ [LF]))
    /\ (length (entryList root (fs c')) <= 8)%nat /\ (length (entryList hist (fs c')) <= 101)%nat.
Proof.
  intros Hl Hlevel Hc. pose proof (roots_differ m serviceName) as Hrh.
  destruct (roots m serviceName) as [root hist] eqn:Er. cbn [fst snd] in Hrh.
  intros message name Hnew.
  unfold notification. fold message. rewrite Er.
  assert (Hok : bool_decide (log_level level = Fatal) = false) by (by destruct level). rewrite Hok.
  assert (Ha : exists h, amount_of message (history c) = (0, h) /\ map_Forall (fun _ n => n = 0) h).
  { unfold amount_of. destruct (history c !! message) as [n|] eqn:E.
    - exists (history c). split; [|done]. by rewrite (Hc _ _ E).
    - eexists. split; [done|]. by apply map_Forall_insert_2. }
  destruct Ha as (h & -> & Hh). cbn [obind assertion negb].
  change (0 <? 0) with false. cbn match. eexists. split; [done|]. split; [exact Hh|]. cbn [Notifications.fs].
  set (ds := getOrCreateDir hist (getOrCreateDir root (dirs c))).
  assert (Hw : writeToFile (now m) ds (root, name) message (fs c)
               = <[(root, name) := mkFile (now m) (message ++ [LF])]> (fs c)).
  { unfold writeToFile. rewrite decide_True; [done|]. unfold ds, getOrCreateDir. set_solver. }
  fold name. rewrite Hw. set (fs0 := insert _ _ _).
  destruct (rotation_spec (now m) root hist fs0 Hl Hrh) as (H1 & _ & H3 & _).
  split; [|split].
  - rewrite H1. assert (Hx : fs0 !! (root, name) = Some (mkFile (now m) (message ++ [LF]))).
    { apply lookup_insert_eq. }
    rewrite decide_True; [done|]. apply (newest_shown 8 root fs0 name _ Hl Hx); [|lia].
    intros y g Hg Hy. unfold fs0 in Hg. rewrite lookup_insert_ne in Hg by congruence.
    by apply (Hnew y).
  - apply (listed_bound 8 _ _ (entryList root fs0)); [done|]. intros x [f Hf].
    rewrite H1 in Hf. by case_decide.
  - eapply (listed_bound 101); [done|]. intros x [f Hf]. rewrite H3 in Hf.
    case_decide as Hd; [exact Hd|done].
Qed.

End Rotation.

(** ** Instances *)

(** A listing by time: the files of the directory, sorted. *)
Definition in_dir (dir : bytes) (kf : (bytes * bytes) * file) : option (bytes * file) :=
  if decide (kf.1.1 = dir) then Some (kf.1.2, kf.2) else None.

Definition newer (a b : bytes * file) : Prop := modified b.2 <= modified a.2.

#[local] Instance newer_dec a b : Decision (newer a b).
Proof. unfold newer. solve_decision. Defined.
#[local] Instance newer_total : Total newer.
Proof. intros a b. unfold newer. lia. Qed.
#[local] Instance newer_trans : Transitive newer.
Proof. intros a b c. unfold newer. lia. Qed.

Definition sorted_files (dir : bytes) (fs : filesystem) : list (bytes * file) :=
  merge_sort newer (omap (in_dir dir) (map_to_list fs)).

Definition by_time (dir : bytes) (fs : filesystem) : list bytes := map fst (sorted_files dir fs).

Lemma in_sorted_files dir fs x f : (x, f) ∈ sorted_files dir fs <-> fs !! (dir, x) = Some f.
Proof.
  unfold sorted_files. rewrite merge_sort_Permutation, list_elem_of_omap. split.
  - intros ([[d y] g] & Hk & Hd). apply elem_of_map_to_list in Hk. unfold in_dir in Hd. cbn in Hd.
    case_decide; [|done]. by simplify_eq.
  - intros Hf. exists ((dir, x), f). split; [by apply elem_of_map_to_list|].
    unfold in_dir. cbn. by rewrite decide_True.
Qed.

Lemma sorted_lookup {A} (R : A -> A -> Prop) l i j a b :
  StronglySorted R l -> (i < j)%nat -> l !! i = Some a -> l !! j = Some b -> R a b.
Proof.
  intros H. revert i j. induction H as [|x l _ IH Hx]; intros i j Hij Hi Hj; [done|].
  destruct i as [|i], j as [|j]; try lia; cbn in Hi, Hj.
  - injection Hi as ->. rewrite Forall_forall in Hx. apply Hx. by apply list_elem_of_lookup_2 in Hj.
  - apply (IH i j); [lia|done|done].
Qed.

Lemma by_time_lookup dir fs i x f :
  map fst (sorted_files dir fs) !! i = Some x -> fs !! (dir, x) = Some f ->
  sorted_files dir fs !! i = Some (x, f).
Proof.
  intros Hi Hf. apply list_lookup_fmap_Some in Hi as ([y g] & Ey & Hg). cbn in Ey. subst y.
  rewrite Hg. apply list_elem_of_lookup_2, in_sorted_files in Hg. congruence.
Qed.

Lemma by_time_lists : lists_by_time by_time.
Proof.
  intros dir fs. unfold by_time. split; [|split].
  - assert (Hp : map fst (sorted_files dir fs) ≡ₚ map fst (omap (in_dir dir) (map_to_list fs))).
    { apply Permutation_map, merge_sort_Permutation. }
    rewrite Hp. clear Hp. pose proof (NoDup_fst_map_to_list fs) as Hnd.
    induction (map_to_list fs) as [|[[d x] f] l IH]; [constructor|].
    cbn [map fst fmap list_fmap] in Hnd. apply NoDup_cons in Hnd as [Hx Hnd].
    cbn [omap list_omap]. unfold in_dir at 1. cbn [fst snd]. case_decide as Hd; [|by apply IH].
    cbn [map fst]. apply NoDup_cons. split; [|by apply IH]. subst d.
    intros Hin. apply Hx. apply list_elem_of_fmap in Hin as ([y g] & -> & Hin).
    apply list_elem_of_omap in Hin as ([[d y'] g'] & Hk & Hd). unfold in_dir in Hd. cbn in Hd.
    case_decide; [|done]. simplify_eq. apply list_elem_of_fmap.
    eexists. by split; [|exact Hk].
  - intros x. rewrite list_elem_of_fmap. split.
    + intros ([y f] & -> & Hin%in_sorted_files). by eexists.
    + intros [f Hf]. exists (x, f). split; [done|]. by apply in_sorted_files.
  - intros i j x y f g Hij Hi Hj Hf Hg.
    apply (by_time_lookup dir fs i x f) in Hi; [|done]. apply (by_time_lookup dir fs j y g) in Hj; [|done].
    exact (sorted_lookup newer _ i j _ _ (StronglySorted_merge_sort newer _) Hij Hi Hj).
Qed.

(** A full display: nine notifications, the oldest of them also in the history. *)
Definition note (n : nat) : bytes := bs "note" ++ [digit_char (Z.of_nat n)].
Definition shown_dir : bytes := bs "/Users/501/SoftwareData/.notifications/".
Definition hist_dir : bytes := bs "/Users/501/SoftwareData/.notifications-history/".

Definition full_display : filesystem :=
  list_to_map (((hist_dir, note 1), mkFile 50 (bs "older"))
    :: map (fun n => ((shown_dir, note n), mkFile (100 + Z.of_nat n) (note n))) (seq 0 10)).

Lemma rotation_keeps_the_newest_witness :
  let fs1 := after_move by_time 200 shown_dir hist_dir full_display in
  let fs2 := moveOldNotificationsToHistoryAndCleanHistory by_time 200 shown_dir hist_dir full_display in
  (forall x, fs2 !! (shown_dir, x)
     = if decide (x ∈ kept_shown (by_time shown_dir full_display)) then full_display !! (shown_dir, x) else None)
  /\ (forall x, fs1 !! (hist_dir, x) =
        match full_display !! (hist_dir, x) with
        | Some f => Some f
        | None => if decide (x ∈ moved_out (by_time shown_dir full_display))
                  then (fun f => mkFile 200 (contents f)) <$> full_display !! (shown_dir, x) else None
        end)
  /\ (forall x, fs2 !! (hist_dir, x)
        = if decide (x ∈ kept_history (by_time hist_dir fs1)) then fs1 !! (hist_dir, x) else None)
  /\ (forall d x, d <> shown_dir -> d <> hist_dir -> fs2 !! (d, x) = full_display !! (d, x)).
Proof.
  exact (rotation_keeps_the_newest by_time 200 shown_dir hist_dir full_display by_time_lists ltac:(discriminate)).
Defined.

Definition noon : Moment := mkMoment 200 (bs "27-12:00") (bs "27-12:00:00 - ") (bs "/Users/501").

Lemma notification_is_written_witness :
  exists c',
    notification by_time (fun s => s) (@length ascii) noon (bs "Disk full") [] WARNING
      (mkCenter {[shown_dir; hist_dir]} full_display ∅) = Ok c'
    /\ never_counted c'
    /\ fs c' !! (shown_dir, bs "27-12:00:00 - Disk full.warning")
       = Some (mkFile 200 (bs "27-12:00:00 - Disk full" ++ [LF]))
    /\ (length (by_time shown_dir (fs c')) <= 8)%nat /\ (length (by_time hist_dir (fs c')) <= 101)%nat.
Proof.
  apply (notification_is_written by_time (fun s => s) (@length ascii) noon (bs "Disk full") [] WARNING
           (mkCenter {[shown_dir; hist_dir]} full_display ∅)).
  - apply by_time_lists.
  - discriminate.
  - apply map_Forall_empty.
  - intros x f Hx _. cbn [fs] in Hx. apply elem_of_list_to_map_2 in Hx.
    unfold full_display in Hx. cbn in Hx. rewrite !elem_of_cons, elem_of_nil in Hx.
    repeat (destruct Hx as [Hx|Hx]; [simplify_eq; cbn; lia|]). done.
Defined.
