(* ===== verification/Usage.v ===== *)
(** * Process usage ([lib/kickstart/usage_sys.cc], [stat.cc], [system_time.cc])

    The FreeBSD branch.  The kernel tables are data: a [kinfo_proc] holds what
    [kvm_getprocs], [kvm_getargv] and libprocstat answer for one process.  The
    functions return a pointer; most of them the [c_str()] of a local string,
    whose buffer is freed on return: [stale] is what such a buffer reads as. *)

From stdpp Require Import tactics.
From S2P Require Import Prelude Doubles Utils Syscalls.

(** A returned [const char*]. *)
Inductive cstring := Static (text : bytes) | Freed (was : bytes).

Section Usage.
Context (inet_ntoa : Z -> bytes) (inet_ntop : bytes -> option bytes) (stale : bytes -> bytes).

Definition read_cstring (p : cstring) : bytes :=
  match p with Static text => cstr text | Freed was => cstr (stale was) end.

(** ** Sockets *)

Inductive family := AF_LOCAL | AF_INET | AF_INET6 | AF_OTHER.
Inductive socktype := SOCK_STREAM | SOCK_DGRAM | SOCK_OTHER.
Inductive protocol :=
| IPPROTO_TCP | IPPROTO_UDP | IPPROTO_ICMP | IPPROTO_RAW | IPPROTO_SCTP | IPPROTO_DIVERT
| IPPROTO_OTHER.

Inductive sockaddr_storage :=
| sockaddr_un (sun_path : bytes)
| sockaddr_in (sin_addr : Z) (sin_port : Z)
| sockaddr_in6 (sin6_addr : bytes) (sin6_port : Z)
| sockaddr_other.

(** Network byte order, on a little endian machine. *)
Definition ntohs (port : Z) : Z := Z.lor (Z.shiftl (Z.land port 0xFF) 8) (Z.shiftr port 8).

Definition addr_to_string (ss : sockaddr_storage) : cstring :=
  Freed
    match ss with
    | sockaddr_un sun_path => cstr sun_path
    | sockaddr_in sin_addr sin_port => inet_ntoa sin_addr ++ bs ":" ++ show_Z (ntohs sin_port)
    | sockaddr_in6 sin6_addr sin6_port =>
        match inet_ntop sin6_addr with
        | Some buffer2 => buffer2 ++ bs "." ++ show_Z (ntohs sin6_port)
        | None => []
        end
    | sockaddr_other => bs "*:*"
    end.

Definition protocol_to_string (domain : family) (type : socktype) (protocol : protocol) : bytes :=
  match domain with
  | AF_INET | AF_INET6 =>
      match protocol with
      | IPPROTO_TCP => bs "TCP"
      | IPPROTO_UDP => bs "UDP"
      | IPPROTO_ICMP => bs "ICM"
      | IPPROTO_RAW => bs "RAW"
      | IPPROTO_SCTP => bs "SCT"
      | IPPROTO_DIVERT => bs "IPD"
      | IPPROTO_OTHER => bs "IP?"
      end
  | AF_LOCAL =>
      match type with
      | SOCK_STREAM => bs "UDS"
      | SOCK_DGRAM => bs "UDD"
      | SOCK_OTHER => bs "UD?"
      end
  | AF_OTHER => bs "?"
  end.

Record sockstat := mkSockstat {
  dom_family : family; sock_type : socktype; proto : protocol;
  sa_local : sockaddr_storage; sa_peer : sockaddr_storage
}.

(** An entry of the file list; [None]: [procstat_get_socket_info] fails. *)
Inductive filestat := PS_FST_TYPE_SOCKET (info : option sockstat) | PS_FST_OTHER.

Definition socket_text (sock : sockstat) : bytes :=
  match dom_family sock with
  | AF_INET | AF_INET6 =>
      protocol_to_string (dom_family sock) (sock_type sock) (proto sock) ++ bs " "
        ++ read_cstring (addr_to_string (sa_local sock)) ++ bs "-"
        ++ read_cstring (addr_to_string (sa_peer sock)) ++ bs "#"
  | _ => []
  end.

Fixpoint files_loop (out : bytes) (files : list filestat) : cstring :=
  match files with
  | [] => Freed out
  | PS_FST_OTHER :: files' => files_loop out files'
  | PS_FST_TYPE_SOCKET None :: _ => Static (bs "ERROR PROCSTAT GET SOCKET")
  | PS_FST_TYPE_SOCKET (Some sock) :: files' => files_loop (out ++ socket_text sock) files'
  end.

Definition procstat_files (head : option (list filestat)) : cstring :=
  match head with
  | None => Static (bs "ERROR: HEAD NULL")
  | Some files => files_loop [] files
  end.

(** ** Processes *)

(** [ki_args]: what [kvm_getargv] returns; [ki_files]: what libprocstat finds,
    [None] when it does not find the process ([cnt == 0]). *)
Record kinfo_proc := mkProc {
  ki_pid : Z; ki_ppid : Z; ki_comm : bytes; ki_rssize : Z; ru_maxrss : Z; ki_runtime : Z;
  ru_inblock : Z; ru_oublock : Z; ki_numthreads : Z; pri_level : ascii;
  ki_args : option (list bytes); ki_files : option (option (list filestat))
}.

(** The loop over [args]. *)
Fixpoint command_loop (y : nat) (args : list bytes) (command : bytes) : bytes :=
  match args with
  | [] => command
  | a :: args' =>
      command_loop (S y) args'
        (match y with O => cstr a | S _ => command ++ bs " " ++ cstr a end)
  end.

Definition command_of (p : kinfo_proc) : bytes :=
  match ki_args p with
  | None => []
  | Some args => command_loop 0 args []
  end.

Definition netinfo_of (p : kinfo_proc) : bytes :=
  match ki_files p with
  | None => []
  | Some head => read_cstring (procstat_files head)
  end.

(** A string literal of the source with its quotes. *)
Definition dq (s : bytes) : bytes := DQUOTE :: s ++ [DQUOTE].

(** [setiosflags(ios::left) << setw(n)]: pads on the right. *)
Definition setw (n : nat) (s : bytes) : bytes := s ++ replicate (n - length s) " "%char.

Definition usage_header : bytes :=
  setw 6 (bs "| NO:") ++ setw 27 (bs "| NAME:") ++ setw 52 (bs "| CMD:") ++ setw 10 (bs "| PID:")
    ++ setw 10 (bs "| PPID:") ++ setw 10 (bs "| RSS:") ++ setw 10 (bs "| MRSS:")
    ++ setw 16 (bs "| RUN-TIME(ms):") ++ setw 12 (bs "| BLK-IN:") ++ setw 12 (bs "| BLK-OUT:")
    ++ setw 6 (bs "| THR:") ++ setw 6 (bs "| PRI-NRML:") ++ [LF].

Definition console_row (pagesize i : Z) (p : kinfo_proc) : bytes :=
  bs "| " ++ setw 4 (show_Z (i + 1))
    ++ bs "| " ++ setw 25 (cstr (ki_comm p))
    ++ bs "| " ++ setw 50 (command_of p)
    ++ bs "| " ++ setw 8 (show_Z (ki_pid p))
    ++ bs "| " ++ setw 8 (show_Z (ki_ppid p))
    ++ bs "| " ++ setw 8 (show_Z (to_int64 (ki_rssize p * pagesize)))
    ++ bs "| " ++ setw 8 (show_Z (to_int64 (ru_maxrss p * pagesize)))
    ++ bs "| " ++ setw 14 (show_Z (ki_runtime p / 1000))
    ++ bs "| " ++ setw 10 (show_Z (ru_inblock p))
    ++ bs "| " ++ setw 10 (show_Z (ru_oublock p))
    ++ bs "| " ++ setw 4 (show_Z (ki_numthreads p))
    ++ bs "| " ++ setw 6 (show_Z (ord (pri_level p)))
    ++ bs "| " ++ netinfo_of p ++ [LF].

(** One field of a JSON row. *)
Definition field (name text : bytes) : bytes := dq name ++ bs ":" ++ text.

Definition usage_fields (pagesize : Z) (p : kinfo_proc) : list bytes :=
  [ field (bs "pid") (show_Z (ki_pid p));
    field (bs "ppid") (show_Z (ki_ppid p));
    field (bs "name") (dq (escapeJsonString (cstr (ki_comm p))));
    field (bs "cmd") (dq (escapeJsonString (command_of p)));
    field (bs "rss") (show_Z (to_int64 (ki_rssize p * pagesize)));
    field (bs "mrss") (show_Z (to_int64 (ru_maxrss p * pagesize)));
    field (bs "runtime") (show_Z (ki_runtime p / 1000));
    field (bs "blk-in") (show_Z (ru_inblock p));
    field (bs "blk-out") (show_Z (ru_oublock p));
    field (bs "thr") (show_Z (ki_numthreads p));
    field (bs "pri-nrml") (show_Z (ord (pri_level p)));
    field (bs "netinfo") (dq (escapeJsonString (netinfo_of p))) ].

Definition json_row (fields : list bytes) : bytes := bs "{" ++ join (bs ",") fields ++ bs "}".

Fixpoint usage_loop (pagesize : Z) (consoleOutput : bool) (count i : Z) (procs : list kinfo_proc)
    (output : bytes) : bytes :=
  match procs with
  | [] => output
  | p :: procs' =>
      let out :=
        if consoleOutput then console_row pagesize i p
        else
          (if i =? 0 then bs "[" else []) ++ json_row (usage_fields pagesize p)
            ++ (if i =? count - 1 then bs "]" else bs ",") in
      usage_loop pagesize consoleOutput count (i + 1) procs' (output ++ out)
  end.

(** [procs]: [None] when [kvm_open] fails, else the table of the user. *)
Definition getProcessUsage (pagesize uid : Z) (consoleOutput : bool) (procs : option (list kinfo_proc))
  : prog cstring :=
  match procs with
  | None =>
      let* _ := (if consoleOutput
                 then perform (Cerr (bs "Error initializing kernel descriptor!")) else Ret tt) in
      Ret (Static (bs "KDERR"))
  | Some [] =>
      let* _ := (if consoleOutput
                 then perform (Cerr (bs "No processes for given UID!")) else Ret tt) in
      Ret (Static (bs "NOPCS"))
  | Some procs =>
      let count := Z.of_nat (length procs) in
      let* _ :=
        (if consoleOutput then
           let* _ := perform (Cout (bs "Process count: " ++ show_Z count ++ bs ". Owner UID: "
                                      ++ show_Z uid ++ [LF])) in
           perform (Cout usage_header)
         else Ret tt) in
      Ret (Freed (usage_loop pagesize consoleOutput count 0 procs []))
  end.

(** ** The data for the learning tools *)

(** The command name is not escaped. *)
Definition learn_fields (pagesize : Z) (p : kinfo_proc) : list bytes :=
  [ field (bs "cmd") (dq (cstr (ki_comm p)));
    field (bs "pid") (show_Z (ki_pid p));
    field (bs "ppid") (show_Z (ki_ppid p));
    field (bs "runt") (show_Z (ki_runtime p / 1000));
    field (bs "ioin") (show_Z (ru_inblock p));
    field (bs "ioout") (show_Z (ru_oublock p));
    field (bs "rss") (show_Z (to_int64 (ki_rssize p * pagesize))) ].

Fixpoint learn_loop (pagesize count i : Z) (procs : list kinfo_proc) (output : bytes) : bytes :=
  match procs with
  | [] => output
  | p :: procs' =>
      let out := json_row (learn_fields pagesize p) ++ (if i + 1 =? count then [] else bs ",") in
      learn_loop pagesize count (i + 1) procs' (output ++ out)
  end.

Definition status_fields (message status : string) : list bytes :=
  [ dq (bs "message") ++ bs ": " ++ dq (bs message); bs " " ++ dq (bs "status") ++ bs ":" ++ bs status ].

Definition processDataToLearn (pagesize : Z) (procs : option (list kinfo_proc)) : cstring :=
  match procs with
  | None => Static (bs "{" ++ join (bs ",") (status_fields "KDERR" "-1") ++ bs "}")
  | Some [] => Static (bs "{" ++ join (bs ",") (status_fields "NOPCS" "-2") ++ bs "}")
  | Some procs =>
      let output := bs "{" ++ join (bs ",") (status_fields "Ok" "0") ++ bs ", " ++ dq (bs "content")
                      ++ bs ": [" in
      Freed (learn_loop pagesize (Z.of_nat (length procs)) 0 procs output ++ bs "]}")
  end.

End Usage.

(** ** [getOwner] ([stat.cc]) *)

Definition getOwner (st : option Stat) : Z :=
  match st with
  | Some st => to_int32 (st_uid st)
  | None => -1
  end.

(** ** [adjustSystemTime] ([system_time.cc]) *)

Definition NS : Z := 1000000000.

(** The clock is read as a [long] of nanoseconds; the sum with the offset is
    computed in floating point. *)
Definition adjusted_time {D : DoubleOps} (tv_sec tv_nsec : Z) (offset : double) : Z :=
  let current_time := to_int64 (to_int64 (tv_sec * NS) + tv_nsec) in
  to_int64 (d_to_Z (d_add (d_of_Z current_time) (d_mul offset (d_of_Z NS)))).

(** The seconds and nanoseconds that are set. *)
Definition timespec_of (adjusted_time : Z) : Z * Z :=
  let nsec := Z.rem adjusted_time NS in
  (Z.quot (to_int64 (adjusted_time - nsec)) NS, nsec).

Definition adjustSystemTime {D : DoubleOps} (offset : double) : prog Z :=
  let* (tv_sec, tv_nsec) := perform Clock_gettime in
  let '(sec, nsec) := timespec_of (adjusted_time tv_sec tv_nsec offset) in
  let* r := perform (Clock_settime sec nsec) in
  Ret (if r =? 0 then 1 else 0).

(** ** [usage_gather.cc] *)

Module Gather.
Definition DEFAULT_USER_UID : Z := 501.
Definition DEFAULT_BEHAVIORS_DIR : bytes := bs "basesystem/behaviors".
Definition DEFAULT_BEHAVIORS_RAW : bytes := bs "/output_raw_processes.raw.input".
Definition DEFAULT_GATHERING_PAUSE_MICROSECONDS : Z := 500000.
Definition DEFAULT_COUNT_OF_ROUNDS_OF_GATHERING : nat := Z.to_nat 7200.

(** [n] times a call. *)
Fixpoint repeat_call (n : nat) (c : call bytes) : prog unit :=
  match n with
  | O => Ret tt
  | S n' => let* _ := perform c in repeat_call n' c
  end.

(** The [while (COUNT_TIMES > 0)] loop: the clock is set to the epoch, the
    function called, the clock read. *)
Fixpoint timing_loop (fuel : nat) (name : bytes) (c : call bytes) (COUNT_TIMES : Z) : prog unit :=
  if COUNT_TIMES <=? 0 then Ret tt
  else
    match fuel with
    | O => NoFuel
    | S fuel' =>
        let* _ := perform (Clock_settime 0 0) in
        let* _ := repeat_call (Z.to_nat COUNT_TIMES) c in
        let* (sec, nsec) := perform Clock_gettime in
        let* _ := perform (Cout (bs "Time taken for " ++ show_Z COUNT_TIMES ++ bs " rounds of "
                                   ++ name ++ bs "() is: " ++ show_Z sec ++ bs "s, "
                                   ++ show_Z (Z.quot nsec 1000) ++ bs "us ("
                                   ++ show_Z (Z.quot nsec 1000000) ++ bs "ms)" ++ [LF])) in
        timing_loop fuel' name c (COUNT_TIMES / 2)
    end.

Fixpoint check_loop (times : nat) (z : Z) (name : bytes) (c : call bytes) : prog unit :=
  match times with
  | O => Ret tt
  | S times' =>
      let* _ := perform (Cout (bs "Check NO: " ++ show_Z (z + 1) ++ [LF])) in
      let* text := perform c in
      let* _ := perform (Cout (text ++ [LF])) in
      let* _ := timing_loop 11 name c 1000 in
      check_loop times' (z + 1) name c
  end.

(** One line of the data: [front] and [back] of the pieces; [split] never
    returns none with [keep_empty]. *)
Definition record_line (value : bytes) : outcome (option (bytes * bytes)) :=
  let! two_sides := split value (bs "#") true in
  let! process_name_and_pid := split (default [] (head two_sides)) (bs " ") true in
  let procName := default [] (head process_name_and_pid) in
  let procPid := default [] (last process_name_and_pid) in
  Ok (if bool_decide (procName = []) then None
      else Some (DEFAULT_BEHAVIORS_DIR ++ bs "/" ++ procName ++ bs "-" ++ procPid ++ bs ".input",
                 default [] (last two_sides) ++ [LF])).

Fixpoint record_lines (values : list bytes) : prog unit :=
  match values with
  | [] => Ret tt
  | value :: values' =>
      let* file := lift (record_line value) in
      let* _ :=
        match file with
        | Some (fileName, line) => perform (AppendFile fileName line)
        | None => Ret tt
        end in
      record_lines values'
  end.

Fixpoint gather_loop (rounds : nat) (i : Z) (uid : Z) : prog unit :=
  match rounds with
  | O => Ret tt
  | S rounds' =>
      let* _ := perform (Cout (bs "Iteration " ++ show_Z (i + 1) ++ bs " of "
                                 ++ show_Z (Z.of_nat DEFAULT_COUNT_OF_ROUNDS_OF_GATHERING) ++ [LF])) in
      let* data := perform (LearnText uid) in
      let* values := lift (split data [LF] true) in
      let* _ := record_lines values in
      let* _ := perform (AppendFile (DEFAULT_BEHAVIORS_DIR ++ DEFAULT_BEHAVIORS_RAW)
                           (bs "PROC_BEGIN" ++ [LF] ++ data ++ bs "PROC_END" ++ [LF; LF])) in
      let* _ := perform (Usleep DEFAULT_GATHERING_PAUSE_MICROSECONDS) in
      gather_loop rounds' (i + 1) uid
  end.

(** What the command line asks for: the writer, and the user id. *)
Definition arguments (argv : list bytes) : bool * Z :=
  match argv with
  | _ :: arg :: rest =>
      if bool_decide (arg = bs "GATHER") then
        (true, match rest with uid :: _ => atoi uid | [] => DEFAULT_USER_UID end)
      else (false, atoi arg)
  | _ => (false, 0)
  end.

Definition main (argv : list bytes) : prog Z :=
  let* _ :=
    (match argv with
     | [_] => perform (Cout (bs "No UID argument given for getProcessUsage(). Setting default to uid 0."
                               ++ [LF]))
     | _ => Ret tt
     end) in
  let '(SVDWRITER, argument) := arguments argv in
  let* _ :=
    (if (SVDWRITER : bool) then
       let* _ := perform (Mkdir DEFAULT_BEHAVIORS_DIR 509) in
       gather_loop DEFAULT_COUNT_OF_ROUNDS_OF_GATHERING 0 argument
     else
       let* _ := check_loop 5 0 (bs "getProcessUsage") (UsageText argument) in
       check_loop 5 0 (bs "processDataToLearn") (LearnText argument)) in
  Ret 0.
End Gather.
