(* ===== verification/UsageTheorems.v ===== *)
(** * What the usage reports say

    The text of [getProcessUsage] is a JSON document, whatever the processes are
    called and whatever the freed socket descriptions read as; parsed with
    [Json::Reader] it gives one object per process with the numbers and strings
    of the kernel tables.  [processDataToLearn] promises the same only for
    command names without quotes and backslashes. *)

From stdpp Require Import tactics.
From S2P Require Import Prelude OrdMap Doubles JsonValue JsonPaths JsonReader JsonReaderFacts.
From S2P Require Import JsonScalars JsonDocuments JsonRoundtrip Utils UtilsTheorems Syscalls Usage.

(** ** The digits that a stream writes *)

Lemma show_digits_spec n k z acc :
  0 <= z < 10 ^ Z.of_nat (S k) -> (k < n)%nat ->
  exists ds, show_digits n z acc = ds ++ acc /\ all_digits ds /\ ds <> []
    /\ digits_from 0 ds = z /\ (length ds <= S k)%nat.
Proof.
  revert n z acc. induction k as [|k IH]; intros [|n] z acc Hz Hn; try lia; cbn [show_digits].
  - change (10 ^ Z.of_nat 1) with 10 in Hz. rewrite Z.div_small, Z.mod_small by lia.
    exists [digit_char z]. split_and!; try done; [by repeat constructor; apply is_digit_digit_char|].
    unfold digits_from; cbn. rewrite digit_char_ord by lia. change (ord "0") with 48. lia.
  - pose proof (Z.mod_pos_bound z 10 ltac:(lia)). pose proof (Z.div_mod z 10 ltac:(lia)).
    assert (Hd : digits_from (z / 10) [digit_char (z mod 10)] = z).
    { unfold digits_from; cbn. rewrite digit_char_ord by lia. change (ord "0") with 48. lia. }
    assert (Hdig : all_digits [digit_char (z mod 10)]).
    { by repeat constructor; apply is_digit_digit_char. }
    destruct (Z.eqb_spec (z / 10) 0) as [E|E].
    + exists [digit_char (z mod 10)]. rewrite E in Hd. split_and!; try done. cbn. lia.
    + destruct (IH n (z / 10) (digit_char (z mod 10) :: acc)) as (ds & -> & Hall & Hne & Hval & Hlen).
      { split; [apply Z.div_pos; lia|]. apply Z.div_lt_upper_bound; [lia|].
        rewrite (Nat2Z.inj_succ (S k)), Z.pow_succ_r in Hz by lia. lia. }
      { lia. }
      exists (ds ++ [digit_char (z mod 10)]). split_and!.
      * by rewrite <- app_assoc.
      * by apply Forall_app.
      * by destruct ds.
      * by rewrite digits_from_app, Hval.
      * rewrite length_app. cbn. lia.
Qed.

Lemma show_Z_digits z : Z.abs z < 10 ^ 30 ->
  exists ds, show_Z z = (if z <? 0 then ["-"%char] else []) ++ ds /\ all_digits ds /\ ds <> []
    /\ digits_from 0 ds = Z.abs z /\ (length ds <= 30)%nat.
Proof.
  intros Hz. unfold show_Z. set (n := Z.to_nat (Z.log2 (Z.abs z))).
  assert (Hn : Z.abs z < 10 ^ Z.of_nat (S n)).
  { unfold n. rewrite Nat2Z.inj_succ, Z2Nat.id by apply Z.log2_nonneg.
    destruct (Z.eq_dec (Z.abs z) 0) as [->|]; [done|].
    pose proof (Z.log2_spec (Z.abs z) ltac:(lia)). pose proof (Z.log2_nonneg (Z.abs z)).
    eapply Z.lt_le_trans; [apply H|]. apply Z.pow_le_mono_l. lia. }
  destruct (Nat.le_gt_cases n 29) as [Hle|Hgt].
  - destruct (show_digits_spec (S n) n (Z.abs z) []) as (ds & -> & ? & ? & ? & ?); [lia|lia|].
    exists ds. rewrite app_nil_r. split_and!; try done; [by destruct (z <? 0)|lia].
  - destruct (show_digits_spec (S n) 29 (Z.abs z) []) as (ds & -> & ? & ? & ? & ?);
      [change (10 ^ Z.of_nat 30) with (10 ^ 30); lia|lia|].
    exists ds. rewrite app_nil_r. split_and!; try done. by destruct (z <? 0).
Qed.

Section Reports.
Context {D : DoubleOps}.

(** What the reader makes of the text of a number; the numbers that are not
    read as integers must be ones that [sscanf] converts. *)
Definition exact (z : Z) : bool := (-2147483640 <? z) && (z <=? 4294967289).

Definition json_number (z : Z) : Payload Value :=
  if exact z then (if z <=? maxInt then intValue z else uintValue z)
  else realValue (default d_zero (d_scan (show_Z z))).

Definition readable (z : Z) : Prop :=
  Z.abs z < 10 ^ 30 /\ (exact z = false -> is_Some (d_scan (show_Z z))).

Lemma show_Z_number z : readable z -> number (show_Z z) (json_number z).
Proof.
  intros [Hz Hs]. destruct (show_Z_digits z Hz) as (ds & Et & Hds & Hne & Hval & Hlen).
  unfold json_number. destruct (exact z) eqn:E.
  - apply andb_true_iff in E as [E1%Z.ltb_lt E2%Z.leb_le]. rewrite Et.
    destruct (Z.ltb_spec z 0) as [Hlt|Hge].
    + assert ((z <=? maxInt) = true) as -> by (unfold maxInt, INT_MAX; lia).
      pose proof (number_negative ds (- z) Hds Hne ltac:(lia) ltac:(lia)) as Hn.
      by rewrite Z.opp_involutive in Hn.
    + apply (number_unsigned ds z); try done; lia.
  - destruct (Hs eq_refl) as [d Ed]. rewrite Ed. cbn [default].
    apply andb_false_iff in E. rewrite Z.ltb_ge, Z.leb_gt in E.
    assert (Hi : inexact (show_Z z)).
    { rewrite Et. destruct (Z.ltb_spec z 0).
      - apply inexact_negative; [done|done|lia].
      - apply (inexact_unsigned ds); [done|done|lia]. }
    assert (Hl : (length (show_Z z) <= 31)%nat).
    { rewrite Et, length_app. destruct (z <? 0); cbn; lia. }
    destruct (show_Z z) as [|c t] eqn:Es.
    { symmetry in Et. apply app_eq_nil in Et as [_ ->]. done. }
    assert (Hc : (is_digit c = true \/ c = "-"%char) /\ all_digits t).
    { destruct (z <? 0); cbn [app] in Et.
      - injection Et as -> ->. auto.
      - subst ds. apply Forall_cons_1 in Hds as [? ?]. auto. }
    apply number_real; try done; [apply Hc|apply all_digits_number_chars, Hc|].
    unfold bufferSize. lia.
Qed.

(** ** Objects written field by field *)

Lemma field_member name text v :
  literal name name -> document text v -> padded (member document) (field name text) (name, v).
Proof.
  intros Hn Ht. apply unpadded. exact (member_intro name name [] text v Hn (Forall_nil_2 _) (unpadded _ _ _ Ht)).
Qed.

Lemma joined_fields parts ms :
  Forall2 (padded (member document)) parts ms -> parts <> [] ->
  separated (padded (member document)) (join (bs ",") parts) ms.
Proof.
  induction 1 as [|p m parts ms Hp Hps IH]; [done|]. intros _.
  destruct Hps as [|p' m' parts ms Hp' Hps]; [by apply separated_one|].
  change (join (bs ",") (p :: p' :: parts)) with (p ++ ","%char :: join (bs ",") (p' :: parts)).
  apply separated_more; [done|by apply IH].
Qed.

Lemma json_row_document parts ms :
  Forall2 (padded (member document)) parts ms -> parts <> [] ->
  document (json_row parts) (mk (objectValue (object_of ms))).
Proof. intros H Hne. by apply document_object, joined_fields. Qed.

Lemma number_document z : readable z -> document (show_Z z) (mk (json_number z)).
Proof. intros H. by apply document_number, show_Z_number. Qed.

Lemma text_document s : document (dq (escapeJsonString s)) (mk (stringValue (Some (cstr s)))).
Proof. exact (document_string _ _ (escapeJson_literal s)). Qed.

(** The names of the fields are literals that denote themselves. *)
Ltac plain_name := apply plain_literal; repeat constructor; discriminate.

(** ** [getProcessUsage] *)

Context (inet_ntoa : Z -> bytes) (inet_ntop : bytes -> option bytes) (stale : bytes -> bytes).
Context (pagesize : Z).

Definition string_value (s : bytes) : Value := mk (stringValue (Some (cstr s))).
Definition number_value (z : Z) : Value := mk (json_number z).

(** The object that a process is reported as. *)
Definition usage_members (p : kinfo_proc) : list (bytes * Value) :=
  [ (bs "pid", number_value (ki_pid p));
    (bs "ppid", number_value (ki_ppid p));
    (bs "name", string_value (cstr (ki_comm p)));
    (bs "cmd", string_value (command_of p));
    (bs "rss", number_value (to_int64 (ki_rssize p * pagesize)));
    (bs "mrss", number_value (to_int64 (ru_maxrss p * pagesize)));
    (bs "runtime", number_value (ki_runtime p / 1000));
    (bs "blk-in", number_value (ru_inblock p));
    (bs "blk-out", number_value (ru_oublock p));
    (bs "thr", number_value (ki_numthreads p));
    (bs "pri-nrml", number_value (ord (pri_level p)));
    (bs "netinfo", string_value (netinfo_of inet_ntoa inet_ntop stale p)) ].

Definition usage_numbers (p : kinfo_proc) : list Z :=
  [ ki_pid p; ki_ppid p; to_int64 (ki_rssize p * pagesize); to_int64 (ru_maxrss p * pagesize);
    ki_runtime p / 1000; ru_inblock p; ru_oublock p; ki_numthreads p; ord (pri_level p) ].

Definition usage_row (p : kinfo_proc) : bytes :=
  json_row (usage_fields inet_ntoa inet_ntop stale pagesize p).

Ltac fields :=
  repeat match goal with
  | |- Forall2 _ (_ :: _) _ =>
      constructor;
      [apply field_member; [plain_name|first [apply text_document|apply number_document; assumption]]|]
  | |- Forall2 _ [] _ => constructor
  end.

Lemma usage_row_document p :
  Forall readable (usage_numbers p) ->
  document (usage_row p) (mk (objectValue (object_of (usage_members p)))).
Proof.
  intros H. unfold usage_numbers in H. repeat apply Forall_cons_1 in H as [? H].
  apply json_row_document; [|done]. unfold usage_fields, usage_members. fields.
Qed.

Lemma rows_document (row : kinfo_proc -> bytes) (value : kinfo_proc -> Value) procs :
  Forall (fun p => document (row p) (value p)) procs -> procs <> [] ->
  separated (padded document) (join (bs ",") (map row procs)) (map value procs).
Proof.
  induction 1 as [|p procs Hp Hps IH]; [done|]. intros _. cbn [map].
  destruct Hps as [|p' procs Hp' Hps]; [by apply separated_one, unpadded|].
  change (join (bs ",") (row p :: map row (p' :: procs)))
    with (row p ++ ","%char :: join (bs ",") (map row (p' :: procs))).
  apply separated_more; [by apply unpadded|by apply IH].
Qed.

Lemma usage_loop_text count i procs output :
  procs <> [] -> 0 <= i -> i + Z.of_nat (length procs) = count ->
  usage_loop inet_ntoa inet_ntop stale pagesize false count i procs output
  = output ++ (if i =? 0 then bs "[" else []) ++ join (bs ",") (map usage_row procs) ++ bs "]".
Proof.
  revert i output. induction procs as [|p procs IH]; intros i output Hne Hi Hc; [done|].
  cbn [usage_loop]. cbn [length] in Hc. destruct procs as [|p' procs].
  - cbn [usage_loop map join]. assert ((i =? count - 1) = true) as -> by (cbn in Hc; lia). done.
  - rewrite IH by (done || lia).
    assert ((i =? count - 1) = false) as -> by (cbn in Hc; lia).
    assert ((i + 1 =? 0) = false) as -> by lia.
    change (join (bs ",") (map usage_row (p :: p' :: procs)))
      with (usage_row p ++ bs "," ++ join (bs ",") (map usage_row (p' :: procs))).
    fold (usage_row p). by rewrite <- !app_assoc.
Qed.

(** C34: the report of [getProcessUsage] is JSON that [Json::Reader] reads back,
    in every mode, as the array of the processes: one object per process, in
    order, with the kernel's numbers and with the command name, the command line
    and the socket list as they are, whatever characters they hold and whatever
    the freed buffers of the socket descriptions read as.  Numbers beyond the
    integers of the reader must be ones that [sscanf] converts. *)
Theorem usage_report_is_json uid procs features collect :
  procs <> [] -> Z.of_nat (length procs) <= INT_MAX ->
  Forall (fun p => Forall readable (usage_numbers p)) procs ->
  exists text r,
    getProcessUsage inet_ntoa inet_ntop stale pagesize uid false (Some procs) = Ret (Freed text)
    /\ JsonReader.parse features text null collect = Ok (true, r) /\ errors_ r = []
    /\ root_ r = mk (arrayValue (indexed 0
                       (map (fun p => mk (objectValue (object_of (usage_members p)))) procs))).
Proof.
  intros Hne Hlen Hr. destruct procs as [|p procs]; [done|].
  eexists. cbn [getProcessUsage pbind].
  rewrite usage_loop_text by (done || lia). change (0 =? 0) with true. cbn [app].
  destruct (parse_document features collect
    ("["%char :: join (bs ",") (map usage_row (p :: procs)) ++ bs "]")
    (mk (arrayValue (indexed 0
       (map (fun p => mk (objectValue (object_of (usage_members p)))) (p :: procs))))) nullValue)
    as (r & Hp & Hroot & He); [|by left|].
  - apply unpadded, document_array; [|by rewrite length_map].
    apply rows_document; [|done]. eapply Forall_impl; [exact Hr|]. apply usage_row_document.
  - by exists r.
Qed.

(** ** [processDataToLearn] *)

Definition learn_members (p : kinfo_proc) : list (bytes * Value) :=
  [ (bs "cmd", string_value (cstr (ki_comm p)));
    (bs "pid", number_value (ki_pid p));
    (bs "ppid", number_value (ki_ppid p));
    (bs "runt", number_value (ki_runtime p / 1000));
    (bs "ioin", number_value (ru_inblock p));
    (bs "ioout", number_value (ru_oublock p));
    (bs "rss", number_value (to_int64 (ki_rssize p * pagesize))) ].

Definition learn_numbers (p : kinfo_proc) : list Z :=
  [ ki_pid p; ki_ppid p; ki_runtime p / 1000; ru_inblock p; ru_oublock p;
    to_int64 (ki_rssize p * pagesize) ].

Definition plain_name_of (p : kinfo_proc) : Prop :=
  Forall (fun c => c <> DQUOTE /\ c <> BACKSLASH) (cstr (ki_comm p)).

Definition learn_row (p : kinfo_proc) : bytes := json_row (learn_fields pagesize p).

Lemma learn_row_document p :
  Forall readable (learn_numbers p) -> plain_name_of p ->
  document (learn_row p) (mk (objectValue (object_of (learn_members p)))).
Proof.
  intros H Hp. unfold learn_numbers in H. repeat apply Forall_cons_1 in H as [? H].
  apply json_row_document; [|done]. unfold learn_fields, learn_members.
  constructor; [|fields]. apply field_member; [plain_name|].
  apply document_string. by apply plain_literal.
Qed.

Lemma learn_loop_text count i procs output :
  0 <= i -> i + Z.of_nat (length procs) = count ->
  learn_loop pagesize count i procs output = output ++ join (bs ",") (map learn_row procs).
Proof.
  revert i output. induction procs as [|p procs IH]; intros i output Hi Hc;
    [by rewrite app_nil_r|].
  cbn [learn_loop]. cbn [length] in Hc. rewrite IH by lia. destruct procs as [|p' procs].
  - assert ((i + 1 =? count) = true) as -> by (cbn in Hc; lia). cbn [map join]. by rewrite !app_nil_r.
  - assert ((i + 1 =? count) = false) as -> by (cbn in Hc; lia).
    change (join (bs ",") (map learn_row (p :: p' :: procs)))
      with (learn_row p ++ bs "," ++ join (bs ",") (map learn_row (p' :: procs))).
    by rewrite <- !app_assoc.
Qed.

(** The whole answer: a message, a status and the rows. *)
Definition learn_value (procs : list kinfo_proc) : Value :=
  mk (objectValue (object_of
    [ (bs "message", string_value (bs "Ok")); (bs "status", number_value 0);
      (bs "content", mk (arrayValue (indexed 0
         (map (fun p => mk (objectValue (object_of (learn_members p)))) procs)))) ])).

Lemma spaced_member sp name text v :
  blanks sp -> literal name name -> padded document text v ->
  padded (member document) (sp ++ dq name ++ bs ":" ++ text) (name, v).
Proof.
  intros Hsp Hn Ht. pose proof (padded_intro (P := member document) sp _ _ []
    Hsp (member_intro name name [] text v Hn (Forall_nil_2 _) Ht) (Forall_nil_2 _)) as H.
  by rewrite app_nil_r in H.
Qed.

Lemma learn_document procs :
  procs <> [] -> Z.of_nat (length procs) <= INT_MAX ->
  Forall (fun p => Forall readable (learn_numbers p) /\ plain_name_of p) procs ->
  document (bs "{" ++ join (bs ",") (status_fields "Ok" "0") ++ bs ", " ++ dq (bs "content") ++ bs ": ["
              ++ join (bs ",") (map learn_row procs) ++ bs "]}") (learn_value procs).
Proof.
  intros Hne Hlen Hr.
  assert (Hrows : document ("["%char :: join (bs ",") (map learn_row procs) ++ bs "]")
    (mk (arrayValue (indexed 0 (map (fun p => mk (objectValue (object_of (learn_members p)))) procs))))).
  { apply document_array; [|by rewrite length_map]. apply rows_document; [|done].
    eapply Forall_impl; [exact Hr|]. intros p [H Hp]. by apply learn_row_document. }
  assert (Hsp : blanks (bs " ")) by (by repeat constructor).
  pose proof (document_object _ _ (separated_more _ _ _ _
    (spaced_member [] (bs "message") (bs " " ++ dq (bs "Ok")) (string_value (bs "Ok")) (Forall_nil_2 _)
       ltac:(plain_name) (padded_intro (bs " ") (dq (bs "Ok")) _ [] Hsp
          (document_string (bs "Ok") (bs "Ok") ltac:(plain_name)) (Forall_nil_2 _)))
    (separated_more _ _ _ _
       (spaced_member (bs " ") (bs "status") (bs "0") (number_value 0) Hsp ltac:(plain_name)
          (unpadded _ _ _ (number_document 0 ltac:(done))))
       (separated_one _ _ (spaced_member (bs " ") (bs "content") _ _ Hsp ltac:(plain_name)
          (padded_intro (bs " ") _ _ [] Hsp Hrows (Forall_nil_2 _))))))) as H.
  unfold learn_value. revert H. cbn [join status_fields]. unfold dq, bs.
  repeat (cbn [list_ascii_of_string app] || rewrite <- app_assoc). done.
Qed.

(** The answer of [processDataToLearn] is JSON that [Json::Reader] reads
    back as a message, a zero status and the array of the processes, provided no
    command name holds a quote or a backslash. *)
Theorem learn_report_is_json procs features collect :
  procs <> [] -> Z.of_nat (length procs) <= INT_MAX ->
  Forall (fun p => Forall readable (learn_numbers p) /\ plain_name_of p) procs ->
  exists text r,
    processDataToLearn pagesize (Some procs) = Freed text
    /\ JsonReader.parse features text null collect = Ok (true, r) /\ errors_ r = []
    /\ root_ r = learn_value procs.
Proof.
  intros Hne Hlen Hr. pose proof (learn_document procs Hne Hlen Hr) as Hd.
  destruct procs as [|p procs]; [done|]. eexists. cbn [processDataToLearn].
  rewrite learn_loop_text by lia. repeat rewrite <- app_assoc.
  destruct (parse_document features collect _ (learn_value (p :: procs)) nullValue (unpadded _ _ _ Hd))
    as (r & Hp & Hroot & He); [by right|]. by exists r.
Qed.

End Reports.

(** ** The clock *)

(** [adjustSystemTime] splits a time that is not negative into seconds and
    nanoseconds that [clock_settime] accepts, and loses nothing: the nanoseconds
    are below one second and the two add up to the time. *)
Theorem timespec_normalised t :
  0 <= t < 9223372036854775808 ->
  let '(sec, nsec) := timespec_of t in 0 <= nsec < NS /\ 0 <= sec /\ sec * NS + nsec = t.
Proof.
  intros Ht. unfold timespec_of, NS. rewrite Z.rem_mod_nonneg by lia.
  pose proof (Z.mod_pos_bound t 1000000000 ltac:(lia)). pose proof (Z.mod_le t 1000000000).
  pose proof (Z.div_mod t 1000000000 ltac:(lia)).
  unfold to_int64. rewrite (Z.mod_small (_ + _)) by lia.
  rewrite Z.quot_div_nonneg by lia.
  replace (t - t mod 1000000000 + 9223372036854775808 - 9223372036854775808)
    with ((t / 1000000000) * 1000000000) by lia.
  rewrite Z.div_mul by lia. pose proof (Z.div_pos t 1000000000). lia.
Qed.

(** ** The gathering tool *)

(** Every run of [p] returns. *)
Definition ends {A} (p : prog A) : Prop :=
  forall h, ensures (fun _ _ _ => True) (fun _ e => exists a, e = Returned a) h p.

Lemma ends_ret {A} (a : A) : ends (Ret a).
Proof. intros h. by exists a. Qed.

Lemma ends_bind {A B} (p : prog A) (f : A -> prog B) : ends p -> (forall a, ends (f a)) -> ends (pbind p f).
Proof. intros Hp Hf h. eapply ensures_bind; [apply Hp|]. intros h' e [a ->]. apply Hf. Qed.

Lemma ends_perform {B} (c : call B) : (forall r, replaces c r = false) -> ends (perform c).
Proof. intros Hc h. split; [done|]. intros r. rewrite Hc. by exists r. Qed.

Lemma ends_lift {A} (m : outcome A) a : m = Ok a -> ends (lift m).
Proof. intros ->. apply ends_ret. Qed.

Create HintDb gather.
#[local] Hint Resolve ends_ret ends_bind : gather.
#[local] Hint Extern 1 (ends (perform _)) => (apply ends_perform; reflexivity) : gather.
#[local] Hint Extern 2 (ends (match ?b with _ => _ end)) => destruct b : gather.

Lemma repeat_call_ends n c : (forall r, replaces c r = false) -> ends (Gather.repeat_call n c).
Proof.
  intros Hc. induction n as [|n IH]; cbn [Gather.repeat_call]; [apply ends_ret|].
  apply ends_bind; [by apply ends_perform|done].
Qed.

(** The rounds are halved until none is left: [fuel] doublings bound them. *)
Lemma timing_loop_ends fuel name c rounds : (forall r, replaces c r = false) ->
  rounds < 2 ^ Z.of_nat fuel -> ends (Gather.timing_loop fuel name c rounds).
Proof.
  intros Hc. revert rounds. induction fuel as [|fuel IH]; intros rounds Hr; cbn [Gather.timing_loop];
    destruct (Z.leb_spec rounds 0) as [Hle|Hgt]; auto with gather.
  - cbn in Hr. lia.
  - pose proof (repeat_call_ends (Z.to_nat rounds) c Hc).
    assert (rounds / 2 < 2 ^ Z.of_nat fuel).
    { rewrite Nat2Z.inj_succ, Z.pow_succ_r in Hr by lia. apply Z.div_lt_upper_bound; lia. }
    pose proof (IH (rounds / 2)). auto 8 with gather.
Qed.

#[local] Opaque Gather.repeat_call Gather.timing_loop.

Lemma check_loop_ends times z name c : (forall r, replaces c r = false) ->
  ends (Gather.check_loop times z name c).
Proof.
  intros Hc. revert z. induction times as [|times IH]; intros z; cbn [Gather.check_loop]; auto with gather.
  apply ends_bind; [auto with gather|intros _]. apply ends_bind; [by apply ends_perform|intros text].
  apply ends_bind; [auto with gather|intros _].
  apply ends_bind; [by apply timing_loop_ends|intros _; apply IH].
Qed.

Lemma split_ok s delim : delim <> [] -> exists parts, split s delim true = Ok parts.
Proof.
  intros Hd. destruct (split_loop_spec (S (length s)) s delim Hd ltac:(lia)) as (parts & E & _).
  exists parts. unfold split. destruct delim; [done|]. by rewrite E.
Qed.

Lemma record_line_ok value : exists file, Gather.record_line value = Ok file.
Proof.
  unfold Gather.record_line. destruct (split_ok value (bs "#") ltac:(done)) as [two_sides ->].
  cbn [obind]. destruct (split_ok (default [] (head two_sides)) (bs " ") ltac:(done)) as [names ->].
  by eexists.
Qed.

Lemma record_lines_end values : ends (Gather.record_lines values).
Proof.
  induction values as [|value values IH]; cbn [Gather.record_lines]; auto with gather.
  destruct (record_line_ok value) as [file E]. pose proof (ends_lift _ _ E). auto 8 with gather.
Qed.

#[local] Opaque Gather.record_line Gather.record_lines.

Lemma gather_loop_ends rounds i uid : ends (Gather.gather_loop rounds i uid).
Proof.
  revert i. induction rounds as [|rounds IH]; intros i; cbn [Gather.gather_loop]; auto with gather.
  apply ends_bind; [auto with gather|intros _]. apply ends_bind; [auto with gather|intros data].
  destruct (split_ok data [LF] ltac:(done)) as [values E].
  pose proof (ends_lift _ _ E). pose proof record_lines_end. auto 8 with gather.
Qed.

#[local] Opaque Gather.gather_loop Gather.check_loop.

(** The gathering tool ends: whatever the kernel answers and whatever the
    data look like, [main] of [usage_gather] returns 0, in both of its modes. *)
Theorem gather_ends argv o : (run o [] (Gather.main argv)).2 = Returned 0.
Proof.
  assert (H : ensures (fun _ _ _ => True) (fun _ e => e = Returned 0) [] (Gather.main argv)).
  { unfold Gather.main. apply (ensures_bind _ _ _ (fun _ e => exists a, e = Returned a)).
    - assert (Hs : ends (match argv with
        | [_] => perform (Cout (bs "No UID argument given for getProcessUsage(). Setting default to uid 0."
                                  ++ [LF]))
        | _ => Ret tt
        end)) by (destruct argv as [|? [|? ?]]; auto with gather).
      apply Hs.
    - intros h e [a ->]. destruct (Gather.arguments argv) as [SVDWRITER argument].
      apply (ensures_bind _ _ _ (fun _ e => exists a, e = Returned a)); [|by intros h' e [b ->]].
      pose proof (gather_loop_ends Gather.DEFAULT_COUNT_OF_ROUNDS_OF_GATHERING 0 argument).
      pose proof (fun n => check_loop_ends n 0 (bs "getProcessUsage") (UsageText argument) ltac:(done)).
      pose proof (fun n => check_loop_ends n 0 (bs "processDataToLearn") (LearnText argument) ltac:(done)).
      destruct SVDWRITER; apply ends_bind; auto with gather. }
  by apply (run_ensures (fun _ _ _ => True) (fun _ e => e = Returned 0) o (Gather.main argv) []
              (fun pre e post _ => match e with Ev _ _ => I end)).
Qed.

(** ** Instances *)

#[local] Existing Instance Binary64.ops.

(** A process with a quote in its name and more resident memory than fits an
    [unsigned int]. *)
Definition busy (name : bytes) : kinfo_proc :=
  mkProc 4242 1 name 2000000 2000000 12000 7 9 3 "096"
    (Some [bs "java"; bs "-jar"; bs "svd.jar"])
    (Some (Some [PS_FST_OTHER;
                 PS_FST_TYPE_SOCKET (Some (mkSockstat AF_INET SOCK_STREAM IPPROTO_TCP
                                             (sockaddr_in 16777343 20480) sockaddr_other))])).

Ltac each_process := repeat first [apply Forall_nil_2 | apply Forall_cons_2].
Ltac readable := split; [vm_compute; reflexivity|vm_compute; intros; try discriminate; eexists; reflexivity].

Lemma usage_report_is_json_witness :
  exists text r,
    getProcessUsage (fun _ => bs "127.0.0.1") (fun _ => None) (fun was => was) 4096 501 false
      (Some [busy [DQUOTE; BACKSLASH]; busy (bs "java")]) = Ret (Freed text)
    /\ JsonReader.parse Features_strictMode text null true = Ok (true, r) /\ errors_ r = []
    /\ root_ r = mk (arrayValue (indexed 0
         (map (fun p => mk (objectValue (object_of
                 (usage_members (fun _ => bs "127.0.0.1") (fun _ => None) (fun was => was) 4096 p))))
            [busy [DQUOTE; BACKSLASH]; busy (bs "java")]))).
Proof.
  apply (usage_report_is_json (fun _ => bs "127.0.0.1") (fun _ => None) (fun was => was) 4096 501
           [busy [DQUOTE; BACKSLASH]; busy (bs "java")] Features_strictMode true);
    [discriminate|discriminate|each_process; readable].
Defined.

Lemma learn_report_is_json_witness :
  exists text r,
    processDataToLearn 4096 (Some [busy (bs "java"); busy (bs "sh")]) = Freed text
    /\ JsonReader.parse Features_all text null true = Ok (true, r) /\ errors_ r = []
    /\ root_ r = learn_value 4096 [busy (bs "java"); busy (bs "sh")].
Proof.
  apply (learn_report_is_json 4096 [busy (bs "java"); busy (bs "sh")] Features_all true);
    [discriminate|discriminate|].
  each_process; (split; [each_process; readable|repeat constructor; discriminate]).
Defined.

Lemma timespec_normalised_witness :
  let '(sec, nsec) := timespec_of 1400000000123456789 in
  0 <= nsec < NS /\ 0 <= sec /\ sec * NS + nsec = 1400000000123456789.
Proof. apply (timespec_normalised 1400000000123456789). lia. Defined.

(** The detour through a double moves the clock even for a zero offset. *)
Example zero_offset_moves_the_clock :
  timespec_of (adjusted_time 1400000000 123456789 (d_of_Z 0)) = (1400000000, 123456768).
Proof. vm_compute. reflexivity. Qed.
