(* ===== verification/Launchers.v ===== *)
(** * The launchers

    [kick] ([lib/kickstart/kick.cc], [core.cc]) boots the system or a user
    controller; [svddaemon] ([lib/daemon/daemon.cc]) runs a command for a user in
    the background; [svdrunner] ([lib/runner/run.cc]) runs an executable found in
    PATH; [svdshell] ([lib/shell/shell.cc], [shellutils.cc]) opens a shell.  The
    production build is modelled (DEVEL undefined), on a system whose paths are
    the BSD ones of [lib/globals/globals.h]. *)

From stdpp Require Import tactics.
From S2P Require Import Prelude Doubles Utils Syscalls.

(** ** [lib/globals/globals.h] *)

Definition USERS_HOME_DIR : bytes := bs "/Users".
Definition SYSTEMUSERS_HOME_DIR : bytes := bs "/SystemUsers".
Definition LIBRARIES_DIR : bytes := bs "/lib".
Definition CORE_SVD_ID : bytes := bs "boot".
Definition LOCK_FILE : bytes := bs "svd-core.lock".
Definition INTERNAL_LOG_FILE : bytes := bs "svd-diagnostics.log".
Definition ROOT_JAR_FILE : bytes := bs "/sbin/root.core".
Definition USER_JAR_FILE : bytes := bs "/bin/user.core".
Definition DEFAULT_SHELL_COMMAND : bytes := bs "/Software/Zsh/exports/zsh".
Definition DEFAULT_JAVA_BIN : bytes := bs "/Software/Openjdk7/openjdk7/bin/java".
Definition LOCALE : bytes := bs "en_GB.UTF-8".
Definition APP_VERSION : bytes := bs "0.28.3".
Definition DEFAULT_USER_GROUP : Z := 0.
Definition BUFFER_SIZE : Z := 256.
Definition LOCK_FILE_OCCUPIED_ERROR : Z := 100.
Definition CANNOT_LOCK_ERROR : Z := 101.
Definition NOROOT_PRIVLEGES_ERROR : Z := 104.
Definition SETUID_ERROR : Z := 105.
Definition SETGID_ERROR : Z := 106.
Definition FORK_ERROR : Z := 107.
Definition EXEC_ERROR : Z := 108.
Definition NO_UID_GIVEN_ERROR : Z := 109.
Definition AMBIGOUS_ENTRY_ERROR : Z := 111.
Definition ROOT_UID_ERROR : Z := 112.
Definition INSTALLATION_MISSING_ERROR : Z := 113.
Definition STDIN_GETATTR_ERROR : Z := 114.
Definition STDIN_SETATTR_ERROR : Z := 115.
Definition STDIN_READ_ERROR : Z := 116.
Definition STDOUT_WRITE_ERROR : Z := 117.
Definition TERM_GETSIZE_ERROR : Z := 118.
Definition TERM_GETATTR_ERROR : Z := 119.
Definition PTY_WRITE_ERROR : Z := 120.
Definition PTY_FORK_ERROR : Z := 121.
Definition GETOPT_ERROR : Z := 122.

(** Octal 700, 070, 010, 004 and 001. *)
Definition S_IRWXU : Z := 448.
Definition S_IXGRP : Z := 8.
Definition S_IXOTH : Z := 1.

Definition SIGHUP : Z := 1.
Definition SIGINT : Z := 2.
Definition SIGQUIT : Z := 3.
Definition SIGTERM : Z := 15.
Definition SIGTSTP : Z := 18.
Definition SIGTTIN : Z := 21.
Definition SIGTTOU : Z := 22.

Definition STDIN_FILENO : Z := 0.
Definition STDOUT_FILENO : Z := 1.
Definition STDERR_FILENO : Z := 2.

(** ** Shared pieces *)

Definition skip : prog unit := Ret tt.

Fixpoint each (cs : list (call unit)) : prog unit :=
  match cs with
  | [] => skip
  | c :: cs' => let* _ := perform c in each cs'
  end.

Definition say (text : string) : prog unit := perform (Cerr (bs text)).

(** [fileExists] ([utils.cc]) *)
Definition fileExists (path : bytes) : prog bool :=
  let* s := perform (StatFile path) in
  Ret (match s with Some _ => true | None => false end).

(** [defaultSignalHandler] ([utils.cc]) *)
Definition defaultSignalHandler (sig : Z) : prog unit :=
  if (sig =? SIGQUIT) || (sig =? SIGINT) || (sig =? SIGTERM) then
    let* _ := say "SIGTERM/INT (terminate) signal catched. Quitting" in
    let* _ := perform (Unlink LOCK_FILE) in
    Exit 0
  else skip.

(** The variables every [execute] sets, with the home directory and the name. *)
Definition user_variables (home user : bytes) : list (call unit) :=
  [Setenv (bs "HOME") home; Setenv (bs "PWD") home; Setenv (bs "OLDPWD") home;
   Setenv (bs "USER") user; Setenv (bs "LOGNAME") user].

Definition dropped_variables : list (call unit) :=
  map (fun n => Unsetenv (bs n))
    ["USERNAME"; "SUDO_USERNAME"; "SUDO_USER"; "SUDO_UID"; "SUDO_GID"; "SUDO_COMMAND"; "MAIL"]%string.

(** [if (execvp( *argv, argv) < 0) ... exit(EXEC_ERROR)] *)
Definition exec_or_exit (argv : list bytes) : prog unit :=
  let* r := perform (Execvp (head argv) argv) in
  if r <? 0 then let* _ := say "Exec failed!" in Exit EXEC_ERROR else skip.

(** The arguments after the second, with a space between two of them: the loop
    adds a space unless the next entry of [argv] is the null pointer. *)
Fixpoint appArguments (args : list bytes) : bytes :=
  match args with
  | [] => []
  | [a] => a
  | a :: args' => (a ++ bs " ") ++ appArguments args'
  end.

(** ** [lib/daemon/daemon.cc] *)

Module Daemon.

Definition spawnDaemon (nochdir noclose : bool) : prog Z :=
  let* pid := perform Fork in
  if pid =? -1 then Ret (-1)
  else if negb (pid =? 0) then Exit 0
  else
    let* s := perform Setsid in
    if s =? -1 then Ret (-1)
    else
      let* _ := (if nochdir then Ret 0 else perform (Chdir (bs "/"))) in
      let* _ :=
        (if noclose then skip
         else
           let* fd := perform (Open (bs "/dev/null") "O_RDWR") in
           if fd =? -1 then skip
           else
             let* _ := perform (Fcntl fd "F_GETFD") in
             let* _ := perform (Fcntl fd "F_SETFD") in
             let* _ := perform (Dup2 fd STDIN_FILENO) in
             let* _ := perform (Dup2 fd STDOUT_FILENO) in
             let* _ := perform (Dup2 fd STDERR_FILENO) in
             if 2 <? fd then let* _ := perform (Close fd) in skip else skip) in
      Ret 0.

Definition execute (argv : list bytes) (uid : Z) : prog unit :=
  let hd := USERS_HOME_DIR ++ bs "/" ++ show_Z uid in
  let* _ := perform (Chdir hd) in
  let* _ := each (user_variables hd (show_Z uid)) in
  let* _ := each dropped_variables in
  let* _ := spawnDaemon false false in
  exec_or_exit argv.

Definition default_command : bytes := DEFAULT_SHELL_COMMAND ++ bs " -i -s".

(** From the privileges on; [argc] is the size of the argument array. *)
Definition become (uid : Z) (argc : nat) (command : bytes) : prog Z :=
  let* r := perform (Setuid uid) in
  if negb (r =? 0) then let* _ := say "Error setuid to uid: " in Exit SETUID_ERROR
  else
    let* r := perform (Setgid DEFAULT_USER_GROUP) in
    if negb (r =? 0) then let* _ := say "Error setgid to gid: " in Exit SETGID_ERROR
    else
      let* arguments := lift (parse_into argc command) in
      let* _ := execute arguments (to_int32 uid) in
      Ret 0.

Definition main (argv : list bytes) : prog Z :=
  let* _ := perform (Cout (bs "ServeD Daemon v" ++ APP_VERSION)) in
  match argv with
  | _ :: arg :: args =>
      if bool_decide (arg = bs "0") then
        let* _ := say "Cannot spawn as root!" in Exit ROOT_UID_ERROR
      else
        match scan_uint32 arg with
        | Some uid =>
            if uid =? 0 then let* _ := say "Ambigous uid given!" in Exit AMBIGOUS_ENTRY_ERROR
            else
              let homeDir := USERS_HOME_DIR ++ bs "/" ++ arg in
              let* present := fileExists homeDir in
              let* _ :=
                (if present then skip
                 else
                   let* _ := perform (Mkdir homeDir (Z.lor S_IRWXU S_IXOTH)) in
                   let* _ := perform (Chown homeDir uid DEFAULT_USER_GROUP) in skip) in
              become uid (length argv)
                (match args with [] => default_command | _ => appArguments args end)
        | None => let* _ := say "Ambigous uid given!" in Exit AMBIGOUS_ENTRY_ERROR
        end
  | _ => let* _ := say "No UID argument given!" in Exit NO_UID_GIVEN_ERROR
  end.

End Daemon.

(** ** [lib/kickstart/core.cc] and [kick.cc] *)

Module Kick.

Record execParams := mkParams { javaPath : bytes; jar : bytes; svdArg : bytes }.

Definition jnalp : bytes := bs "-Djava.library.path=" ++ LIBRARIES_DIR.

Definition java_options (memory : list string) : list bytes :=
  map bs memory ++ map bs ["-Dfile.encoding=UTF-8"; "-Djava.awt.headless=true";
                           "-Djava.net.preferIPv4Stack=true"]%string ++ [jnalp].

(** [load_svd64] and [load_svd] differ in the options; the result of [execv] is
    not looked at. *)
Definition load_svd64 (params : execParams) : prog unit :=
  let args :=
    [DEFAULT_JAVA_BIN] ++
    java_options ["-d64"; "-Xmn4m"; "-Xms16m"; "-Xmx128m"; "-XX:+UseCompressedOops"]%string ++
    [bs "-jar"; jar params; svdArg params] in
  let* _ := perform (Execv (Some (javaPath params)) args) in skip.

Definition load_svd (params : execParams) : prog unit :=
  let args :=
    [DEFAULT_JAVA_BIN] ++
    java_options ["-d64"; "-XX:+UseCompressedOops"; "-Xmn4m"; "-XX:NewRatio=1"; "-Xms64m";
                  "-Xmx128m"]%string ++
    [bs "-jar"; jar params; svdArg params] in
  let* _ := perform (Execv (Some (javaPath params)) args) in skip.

Definition with_jar (j : bytes) (p : execParams) : execParams := mkParams (javaPath p) j (svdArg p).
Definition with_svdArg (a : bytes) (p : execParams) : execParams := mkParams (javaPath p) (jar p) a.

Definition spawnBackgroundTask (params : execParams) (lockFileName : bytes) : prog unit :=
  let* _ := perform Setsid in
  let logFileName := svdArg params ++ bs "-" ++ INTERNAL_LOG_FILE in
  let* _ := perform (Freopen logFileName "stdout") in
  let* _ := perform (Freopen logFileName "stderr") in
  let* _ := perform (Umask 23) in
  let userSpawn := negb (bool_decide (svdArg params = CORE_SVD_ID)) in
  let* _ :=
    (if userSpawn then
       let homeDir := USERS_HOME_DIR ++ bs "/" ++ svdArg params in
       let* _ := perform (Cerr (bs "Spawning user svd in home dir: " ++ homeDir)) in
       let* _ := perform (Chdir homeDir) in skip
     else
       let* dir := perform Getcwd in
       perform (Cerr (bs "Spawning boot svd in dir: " ++ default [] dir))) in
  let* lfp := perform (Open lockFileName "O_RDWR | O_CREAT, 0600") in
  if lfp <? 0 then
    let* e := perform Strerror in
    let* _ := perform (Cerr (bs "Lock file occupied: " ++ lockFileName ++ bs ". Error: " ++ e)) in
    Exit LOCK_FILE_OCCUPIED_ERROR
  else
    let* l := perform (Lockf lfp) in
    if l <? 0 then
      let* _ := say "Cannot lock! Already spawned?" in Exit CANNOT_LOCK_ERROR
    else
      let* pid := perform Getpid in
      let* _ := perform (Write lfp (show_Z pid ++ [LF])) in
      let* _ := each [Signal SIGTSTP "SIG_IGN"; Signal SIGTTOU "SIG_IGN"; Signal SIGTTIN "SIG_IGN";
                      Signal SIGHUP "defaultSignalHandler"; Signal SIGTERM "defaultSignalHandler";
                      Signal SIGINT "defaultSignalHandler"] in
      if userSpawn then load_svd (with_jar USER_JAR_FILE params)
      else load_svd64 (with_jar ROOT_JAR_FILE params).

(** The end of [main]: root spawns the core and then, should [execv] return,
    runs into the second call. *)
Definition boot (arg lockName : bytes) : prog Z :=
  let uid := to_uint32 (atoi arg) in
  let params := mkParams DEFAULT_JAVA_BIN [] arg in
  let* params :=
    (if uid =? 0 then
       let params := with_svdArg CORE_SVD_ID params in
       let* _ := spawnBackgroundTask params lockName in Ret params
     else
       let* r := perform (Setuid uid) in
       if negb (r =? 0) then
         let* _ := perform (Cerr (bs "SetUID(" ++ show_Z uid ++ bs ") failed. Aborting.")) in
         Exit SETUID_ERROR
       else Ret params) in
  let* _ := spawnBackgroundTask params lockName in
  Ret 0.

Definition main (argv : list bytes) : prog Z :=
  let* _ := perform (Cout (bs "ServeD KickStart v" ++ APP_VERSION)) in
  let* _ := each [Signal SIGINT "defaultSignalHandler"; Signal SIGQUIT "defaultSignalHandler";
                  Signal SIGTERM "defaultSignalHandler"] in
  let* me := perform Getuid in
  if negb (me =? 0) then
    let* _ := say "Kick requires root privileges to run." in Exit NOROOT_PRIVLEGES_ERROR
  else
    let* user_jar := fileExists USER_JAR_FILE in
    let* root_jar := (if user_jar then fileExists ROOT_JAR_FILE else Ret false) in
    if negb user_jar || negb root_jar then
      let* _ := say "No ServeD Core available in system! Install ServeD Core first!" in
      Exit INSTALLATION_MISSING_ERROR
    else
      let* users := fileExists USERS_HOME_DIR in
      let* _ :=
        (if users then skip
         else
           let* _ := say "/Users does not exists. Creating default dir." in
           let* _ := perform (Mkdir USERS_HOME_DIR (Z.lor S_IRWXU (Z.lor S_IXGRP S_IXOTH))) in skip) in
      let '(arg, homeDir) :=
        match argv with
        | _ :: arg :: _ => (arg, USERS_HOME_DIR ++ bs "/" ++ arg)
        | _ => (bs "0", SYSTEMUSERS_HOME_DIR)
        end in
      let* home := fileExists homeDir in
      let* _ :=
        (if home then skip
         else
           let* _ := perform (Cerr (bs "Directory: " ++ homeDir ++ bs " does not exists. Creating it.")) in
           let* _ := perform (Mkdir homeDir S_IRWXU) in
           let* _ := perform (Chown homeDir (to_uint32 (atoi arg)) DEFAULT_USER_GROUP) in skip) in
      let lockName := homeDir ++ bs "/" ++ arg ++ bs ".pid" in
      let* _ := perform (ReadInt lockName) in
      let* _ := perform (Chdir homeDir) in
      boot arg lockName.

End Kick.

(** ** [lib/shell/shellutils.cc] *)

Module ShellUtils.

(** [gatherUserNameFromDirEntry]: the first entry whose owner is [uid].  When
    [stat] fails its buffer is read unwritten; what is returned points into a
    string that dies with the call, so its text is whatever is there later.
    [n] bounds the entries read. *)
Fixpoint entries (n : nat) (uid : Z) (dir : bytes) : prog (option bytes) :=
  match n with
  | O => NoFuel
  | S n' =>
      let* ent := perform (Readdir dir) in
      match ent with
      | None => Ret None
      | Some name =>
          if bool_decide (name = bs ".") || bool_decide (name = bs "..") then entries n' uid dir
          else
            let* status := perform (StatFile (dir ++ bs "/" ++ name)) in
            let* owner :=
              match status with
              | Some st => Ret (st_uid st)
              | None => perform Uninitialised
              end in
            if owner =? to_uint32 uid then Ret (Some name) else entries n' uid dir
      end
  end.

Definition gatherUserNameFromDirEntry (n : nat) (uid : Z) (dir : bytes) : prog (option bytes) :=
  let* opened := perform (Opendir dir) in
  if opened : bool then
    let* r := entries n uid dir in
    match r with
    | Some name => let* text := perform (Dangling name) in Ret (Some text)
    | None => Ret None
    end
  else
    let* _ := say "Failed to find required home directory. Cannot continue" in Exit 1.

End ShellUtils.

(** ** [lib/runner/run.cc] *)

Module Runner.
Import ShellUtils.

(** [while (wait(&status) != pid);] *)
Fixpoint wait_for (n : nat) (pid : Z) : prog unit :=
  match n with
  | O => NoFuel
  | S n' => let* w := perform Wait in if w =? pid then skip else wait_for n' pid
  end.

Definition execute (n : nat) (argv : list bytes) (uid : Z) : prog unit :=
  let* pid := perform Fork in
  if pid <? 0 then let* _ := say "Error forking child process failed!" in Exit FORK_ERROR
  else if pid =? 0 then
    let* fd := perform (Open (bs "/dev/null") "O_RDWR") in
    let* _ := perform (Fcntl fd "F_GETFD") in
    let* _ := perform (Fcntl fd "F_SETFD") in
    let* name := gatherUserNameFromDirEntry n uid USERS_HOME_DIR in
    let hd := USERS_HOME_DIR ++ bs "/" ++ default [] name in
    let* _ := perform (Chdir hd) in
    let* _ := each (user_variables hd (show_Z uid)) in
    let* _ := each dropped_variables in
    exec_or_exit argv
  else wait_for n pid.

Section Main.
Context (PATH_MAX : nat) (realpath : bytes -> option bytes) (stat : bytes -> option Stat)
  (euid egid : Z).

Definition main (n : nat) (argv : list bytes) : prog Z :=
  let* _ := perform (Cout (bs "ServeD Runner v" ++ APP_VERSION)) in
  let* uid := perform Getuid in
  match argv with
  | _ :: exe :: args =>
      let* PATH := (if existsb (fun c => Ascii.eqb c "/") exe then Ret None
                    else perform (Getenv (bs "PATH"))) in
      let* (found, path) :=
        lift (findpathof PATH_MAX realpath (checkifexecutable stat euid egid) PATH exe) in
      if found =? 0 then
        let* _ := perform (Cerr (bs "No executable " ++ [DQUOTE] ++ exe ++ [DQUOTE] ++ bs " found")) in Ret 1
      else
        let* coreLibPath := lift (split path (bs "exports/" ++ exe) true) in
        let someLibDir := default [] (head coreLibPath) ++ bs "lib/" in
        let* _ := perform (StatFile someLibDir) in
        let command := match args with [] => path | _ => path ++ bs " " ++ appArguments args end in
        let* arguments := lift (parse_into (length argv) command) in
        let* _ := execute n arguments (to_int32 uid) in
        Ret 0
  | _ => let* _ := say "No argument given!" in Exit NO_UID_GIVEN_ERROR
  end.

End Main.
End Runner.

(** ** [lib/shell/shell.cc] *)

Module Shell.
Import ShellUtils.

(** The characters of a user name, as bytes of the UTF-8 source. *)
Definition alphanum : bytes :=
  bs "0123456789.-+ABCDEFGHIJKLMNOPQRSTUVWXYZabcdefghijklmnopqrstuvwxyzżźłóćęąń".

(** [strchr(alphanum, c) != NULL]; the closing NUL counts. *)
Definition allowed_char (c : ascii) : bool := existsb (Ascii.eqb c) alphanum || Ascii.eqb c NUL.

Fixpoint getUserHomeDirAndAskForName (n : nat) : prog bytes :=
  match n with
  | O => NoFuel
  | S n' =>
      let* _ := perform (Cout (bs "Enter your user name: ")) in
      let* (line, eof) := perform Getline in
      match line with
      | None => if eof : bool then let* _ := say "Terminated on EOF" in Exit 0 else Exit 1
      | Some name =>
          if bool_decide (name = []) then
            let* _ := say "Empty user name given!" in getUserHomeDirAndAskForName n'
          else if negb (forallb allowed_char name) then getUserHomeDirAndAskForName n'
          else
            let home := USERS_HOME_DIR ++ bs "/" ++ name in
            let* present := fileExists (cstr home) in
            if present : bool then
              let* _ := say "User with that name already exists!" in getUserHomeDirAndAskForName n'
            else Ret home
      end
  end.

Definition ttySetRaw : prog unit :=
  let* r := perform (Tcgetattr STDIN_FILENO) in
  if r <? 0 then let* _ := say "Unable to get terminal settings." in Exit STDIN_GETATTR_ERROR
  else
    let* r := perform (Tcsetattr STDIN_FILENO) in
    if r <? 0 then let* _ := say "Unable to set terminal in raw mode." in Exit STDIN_SETATTR_ERROR
    else skip.

Definition ttyReset : prog unit :=
  let* r := perform (Tcsetattr STDIN_FILENO) in
  if r <? 0 then say "Unable to reset terminal to its previous state." else skip.

(** The child: standard input to the terminal, until end of file. *)
Fixpoint copy_input (n : nat) (master parent : Z) : prog unit :=
  match n with
  | O => NoFuel
  | S n' =>
      let* (nread, data) := perform (Read STDIN_FILENO BUFFER_SIZE) in
      if nread <? 0 then let* _ := say "Error reading from stdin!" in Exit STDIN_READ_ERROR
      else if nread =? 0 then
        let* _ := perform (Kill parent SIGTERM) in Exit 0
      else
        let* w := perform (Write master data) in
        if negb (w =? nread) then let* _ := say "Error writing to PTY master!" in Exit PTY_WRITE_ERROR
        else copy_input n' master parent
  end.

(** The parent: the terminal to standard output. *)
Fixpoint copy_output (n : nat) (master child : Z) : prog unit :=
  match n with
  | O => NoFuel
  | S n' =>
      let* (nread, data) := perform (Read master BUFFER_SIZE) in
      if nread <=? 0 then let* _ := perform (Kill child SIGTERM) in skip
      else
        let* w := perform (Write STDOUT_FILENO data) in
        if negb (w =? nread) then let* _ := say "Error writing to stdout!" in Exit STDOUT_WRITE_ERROR
        else copy_output n' master child
  end.

Definition copyStreams (n : nat) (master : Z) : prog unit :=
  let* parent := perform Getpid in
  let* child := perform Fork in
  if child <? 0 then let* _ := say "Error forking child process!" in Exit FORK_ERROR
  else if child =? 0 then copy_input n master parent
  else copy_output n master child.

(** The code after [forkpty] does not tell the parent from the child. *)
Definition execute (n : nat) (interactive : bool) (argv : list bytes) (uid : Z) : prog unit :=
  let* _ :=
    (if interactive then
       let* r := perform (Ioctl STDIN_FILENO) in
       if r <? 0 then let* _ := say "Can't get size of terminal window." in Exit TERM_GETSIZE_ERROR
       else
         let* r := perform (Tcgetattr STDIN_FILENO) in
         if r <? 0 then let* _ := say "Can't get terminal settings." in Exit TERM_GETATTR_ERROR
         else skip
     else skip) in
  let* (pid, master) := perform Forkpty in
  if pid <? 0 then let* _ := say "Error forking PTY master process!" in Exit PTY_FORK_ERROR
  else
    let* hd :=
      (if uid =? 0 then Ret SYSTEMUSERS_HOME_DIR
       else
         let* name := gatherUserNameFromDirEntry n uid USERS_HOME_DIR in
         Ret (USERS_HOME_DIR ++ bs "/" ++ default [] name)) in
    let* usr := gatherUserNameFromDirEntry n uid USERS_HOME_DIR in
    let usr := default [] usr in
    let* _ := each [Setenv (bs "HOME") hd; Setenv (bs "~") hd; Setenv (bs "PWD") hd;
                    Setenv (bs "OLDPWD") hd; Setenv (bs "USER") usr; Setenv (bs "LOGNAME") usr;
                    Setenv (bs "LC_ALL") LOCALE; Setenv (bs "LANG") LOCALE] in
    let* _ := each dropped_variables in
    let* dest := perform (Getenv (bs "DESTPATH")) in
    let* _ := perform (Chdir (match dest with Some (c :: d) => c :: d | _ => hd end)) in
    let* r := perform (Execvp (head argv) argv) in
    if r <? 0 then
      let* _ := perform (Cerr (bs "Can't execute: " ++ default [] (head argv))) in Exit EXEC_ERROR
    else
      let* _ :=
        (if interactive then let* _ := ttySetRaw in perform (Atexit "ttyReset") else skip) in
      copyStreams n master.

Definition printVersion : prog unit := perform (Cout (bs "ServeD Shell v" ++ APP_VERSION)).

Definition printUsage : prog unit :=
  each (map (fun l => Cout (bs l))
    [""; "Usage: "; "  svdshell [option] [command]"; "  svdshell --uid=700 pstree";
     "  svdshell -u700 -- ls -la"; ""; "Options:"; "  -h, --help                This message.";
     "  -n, --non-interactive     Force non-interactive mode.";
     "  -u, --uid=<uid>           Spawn command with <uid> privileges.";
     "  -v, --version             Show copyright and version information."]%string).

(** The [getopt_long] loop; the state is [uid] and [interactive]. *)
Fixpoint options (n : nat) (uid : Z) (interactive : bool) : prog (Z * bool) :=
  match n with
  | O => NoFuel
  | S n' =>
      let* opt := perform Getopt in
      match opt with
      | None => Ret (uid, interactive)
      | Some (c, optarg) =>
          if Ascii.eqb c "h" then let* _ := printUsage in Exit 0
          else if Ascii.eqb c "u" then
            if negb (uid =? 0) then
              let* _ := say "You are not allowed to specify custom uid!" in Exit ROOT_UID_ERROR
            else
              match optarg ≫= scan_int32 with
              | Some optUid =>
                  if optUid <? 0 then let* _ := say "Ambigous uid given!" in Exit AMBIGOUS_ENTRY_ERROR
                  else options n' optUid interactive
              | None => let* _ := say "Ambigous uid given!" in Exit AMBIGOUS_ENTRY_ERROR
              end
          else if Ascii.eqb c "n" then options n' uid false
          else if Ascii.eqb c "v" then Exit 0
          else if Ascii.eqb c "?" || Ascii.eqb c ":" then Exit GETOPT_ERROR
          else options n' uid interactive
      end
  end.

Definition home_of (n : nat) (uid : Z) : prog bytes :=
  if uid =? 0 then Ret SYSTEMUSERS_HOME_DIR
  else
    let* userName := gatherUserNameFromDirEntry n (to_int32 uid) USERS_HOME_DIR in
    match userName with
    | Some name => Ret (USERS_HOME_DIR ++ bs "/" ++ name)
    | None => getUserHomeDirAndAskForName n
    end.

Definition main (n : nat) (argv : list bytes) : prog Z :=
  let* _ := printVersion in
  let* me := perform Getuid in
  let* tty := perform (Isatty STDIN_FILENO) in
  let* (uid, interactive) := options n me tty in
  let* optind := perform Optind in
  let arguments :=
    if (optind <? length argv)%nat then drop optind argv else [DEFAULT_SHELL_COMMAND; bs "-s"] in
  let* homeDir := home_of n uid in
  let* present := fileExists (cstr homeDir) in
  let* _ :=
    (if present : bool then skip
     else
       let* _ := perform (Mkdir (cstr homeDir) (Z.lor S_IRWXU S_IXOTH)) in
       let* _ := perform (Chown (cstr homeDir) uid DEFAULT_USER_GROUP) in skip) in
  let* r := perform (Setuid uid) in
  if negb (r =? 0) then let* _ := say "Error setuid to uid: " in Exit SETUID_ERROR
  else
    let* _ := execute n interactive arguments (to_int32 uid) in
    Ret 0.

End Shell.
