(* ===== verification/LauncherTheorems.v ===== *)
(** * What the launchers guarantee, whatever the operating system answers *)

From Stdlib Require Import FunctionalExtensionality.
From stdpp Require Import tactics.
From S2P Require Import Prelude Doubles Utils UtilsTheorems Syscalls Launchers.

(** ** Walking through a program

    [walk] unfolds the calls of a straight-line program one by one and splits on
    its conditions; [find_event] looks an event up in the history. *)

Ltac find_event :=
  first [ apply elem_of_app; right; apply list_elem_of_singleton; reflexivity
        | apply elem_of_app; left; find_event ].

Ltac walk_step :=
  match goal with
  | |- _ /\ (forall _, _) => split; [try exact I|intros ?]
  | |- ensures _ _ _ (pbind (if ?b then _ else _) _) => let E := fresh "Eb" in destruct b eqn:E
  | |- ensures _ _ _ (pbind (pbind (if ?b then _ else _) _) _) =>
      let E := fresh "Eb" in destruct b eqn:E
  | |- ensures _ _ _ (if ?b then _ else _) => let E := fresh "Eb" in destruct b eqn:E
  | |- ensures _ _ _ (pbind (match ?b with _ => _ end) _) => let E := fresh "Eb" in destruct b eqn:E
  | |- ensures _ _ _ (match ?b with _ => _ end) => let E := fresh "Eb" in destruct b eqn:E
  | |- if ?b then _ else _ => let E := fresh "Er" in destruct b eqn:E
  end; cbn [ensures pbind perform each skip say replaces map negb andb orb user_variables dropped_variables].

Ltac walk := cbn [ensures pbind perform each skip say replaces map negb andb orb user_variables dropped_variables];
  repeat walk_step.

(** What an exec may be, given the history; other calls are free. *)
Definition exec_guard (G : list event -> option bytes -> list bytes -> Prop)
    (h : list event) (B : Type) (c : call B) : Prop :=
  match c with
  | Execvp f a => G h f a
  | Execv f a => G h f a
  | _ => True
  end.

Definition anything {A} (h : list event) (e : ending A) : Prop := True.

(** Every exec of a run of [p] satisfies [G] at the time it is made. *)
Definition every_exec {A} (G : list event -> option bytes -> list bytes -> Prop) (p : prog A) : Prop :=
  forall o pre e post, (run o [] p).1 = pre ++ e :: post -> meets (exec_guard G) pre e.

Lemma every_exec_intro {A} G (p : prog A) : ensures (exec_guard G) anything [] p -> every_exec G p.
Proof.
  intros Hp o. apply (run_ensures (exec_guard G) anything o); [apply respects_nil|done].
Qed.

Lemma ensures_lift {A B} C Q h (m : outcome A) (f : A -> prog B) :
  (forall a, m = Ok a -> ensures C Q h (f a)) ->
  (forall why, m = Aborted why -> Q h (Crashed why)) -> (m = OutOfFuel -> Q h Diverged) ->
  ensures C Q h (pbind (lift m) f).
Proof. destruct m; cbn; auto. Qed.

(** ** The daemon *)

Section Daemon.
Import Daemon.

(** The process has become the user. *)
Definition became (uid : Z) (h : list event) : Prop :=
  Ev (Setuid uid) 0 ∈ h /\ Ev (Setgid DEFAULT_USER_GROUP) 0 ∈ h.

Lemma became_stable uid : stable (became uid).
Proof. apply stable_and; apply stable_event. Qed.

Definition this_command (argv : list bytes) (h : list event) (f : option bytes) (a : list bytes) : Prop :=
  f = head argv /\ a = argv.

Lemma execute_guard argv uid h :
  ensures (exec_guard (this_command argv)) anything h (execute argv uid).
Proof. unfold execute, spawnDaemon, exec_or_exit. walk; try (by split).
Qed.

Definition daemon_exec uid argc command (h : list event) (f : option bytes) (a : list bytes) : Prop :=
  became uid h /\ exists args, parse_into argc command = Ok args /\ f = head args /\ a = args.

Lemma become_guard uid argc command h :
  ensures (exec_guard (daemon_exec uid argc command)) anything h (become uid argc command).
Proof.
  unfold become. walk; try done. apply negb_false_iff, Z.eqb_eq in Eb, Eb0. subst.
  apply ensures_lift; [|done|done]. intros args Hargs.
  eapply ensures_bind.
  - eapply (ensures_stable (became uid)); [apply became_stable|split; find_event| |
      apply (execute_guard args (to_int32 uid))].
    intros h' B c Hb Hc. destruct c; try done; destruct Hc as [-> ->]; (split; [done|by exists args]).
  - intros h' [] _; done.
Qed.

Lemma main_guard name arg args :
  ensures (exec_guard (fun h f a =>
      exists uid, scan_uint32 arg = Some uid /\ uid <> 0
        /\ daemon_exec uid (length (name :: arg :: args))
             (match args with [] => default_command | _ => appArguments args end) h f a))
    anything [] (main (name :: arg :: args)).
Proof.
  unfold main, fileExists. walk; try done;
    (eapply ensures_impl; [|apply become_guard]; intros h B c Hc; destruct c; try done;
     exists z; (split; [done|split; [lia|exact Hc]])).
Qed.

End Daemon.

(** Words that survive the trip through one command line. *)
Definition simple_word (w : bytes) : Prop :=
  w <> [] /\ Forall (fun c => is_blank c = false) w /\ no_nul w.

Lemma appArguments_words args : Forall simple_word args ->
  words (appArguments args) = args /\ ends_blank (appArguments args) = false
  /\ no_nul (appArguments args).
Proof.
  induction 1 as [|w args (Hne & Hw & Hn) Hargs IH]; [split_and!; [done|done|constructor]|].
  destruct w as [|c w]; [done|]. destruct args as [|w' args].
  - cbn [appArguments]. split_and!; [|by apply (ends_blank_all (c :: w) false)|done].
    pose proof (words_word c w [] Hw I) as E. by rewrite app_nil_r in E.
  - destruct IH as (IHw & IHe & IHn).
    change (appArguments ((c :: w) :: w' :: args))
      with (((c :: w) ++ bs " ") ++ appArguments (w' :: args)). rewrite <- app_assoc.
    split_and!.
    + rewrite words_word, words_blanks by (done || by repeat constructor). by rewrite IHw.
    + assert (Hne' : appArguments (w' :: args) <> []).
      { intros E. by rewrite E in IHw. }
      change (bs " " ++ ?l) with ([" "%char] ++ l). rewrite app_assoc. by rewrite ends_blank_app.
    + apply Forall_app. split; [done|]. apply Forall_app. split; [by repeat constructor|done].
Qed.

Lemma parse_into_words room args :
  Forall simple_word args -> (length args + 1 <= room)%nat ->
  parse_into room (appArguments args) = Ok args.
Proof.
  intros Hs Hr. destruct (appArguments_words args Hs) as (Hw & He & Hn).
  unfold parse_into, parsed_arguments, parse.
  destruct (parse_loop_spec (S (length (appArguments args))) (appArguments args) [] []
              ltac:(lia) Hn) as (ps & tail & E & Hps & _).
  rewrite E. cbn [obind app]. cbn [app] in Hps. rewrite Hps. unfold command_words.
  rewrite Hw, He, app_nil_r. apply Nat.leb_le in Hr. by rewrite Hr.
Qed.

(** *** The properties of the daemon *)

(** C35: the daemon never runs a command as root: whatever the system answers,
    when it execs, [setuid] to the nonzero user id given on its command line and
    [setgid] have succeeded. *)
Theorem daemon_becomes_user name arg args :
  every_exec (fun h f a =>
      exists uid, scan_uint32 arg = Some uid /\ uid <> 0 /\ became uid h)
    (Daemon.main (name :: arg :: args)).
Proof.
  apply every_exec_intro. eapply ensures_impl; [|apply main_guard].
  intros h B c Hc. destruct c; try done; destruct Hc as (uid & ? & ? & ? & _); by exists uid.
Qed.

(** Given a command, the daemon execs that command and no other: the words
    of its command line after the user id are the argument vector, provided no
    word is empty or holds a blank. *)
Theorem daemon_runs_command name arg args :
  args <> [] -> Forall simple_word args ->
  every_exec (fun h f a => f = head args /\ a = args) (Daemon.main (name :: arg :: args)).
Proof.
  intros Hne Hs. apply every_exec_intro. eapply ensures_impl; [|apply main_guard].
  intros h B c Hc. destruct args as [|w args]; [done|].
  destruct c; try done; destruct Hc as (uid & _ & _ & _ & args' & Hp & -> & ->);
    rewrite parse_into_words in Hp by (try done; cbn; lia); by injection Hp as <-.
Qed.

(** Without a command the daemon does not start the default shell: its three
    words do not fit the argument array, which has as many entries as the daemon
    has arguments.  Every run ends in an error exit or in the out of bounds write. *)
Theorem daemon_default_shell_overflows name arg o :
  let '(h, e) := run o [] (Daemon.main [name; arg]) in
  e = Crashed "arguments out of bounds"
  \/ exists code, e = Exited code
       /\ code ∈ [ROOT_UID_ERROR; AMBIGOUS_ENTRY_ERROR; SETUID_ERROR; SETGID_ERROR].
Proof.
  pose proof (run_ensures (fun _ _ _ => True) (fun _ e =>
    e = Crashed "arguments out of bounds"
    \/ exists code, e = Exited code
       /\ code ∈ [ROOT_UID_ERROR; AMBIGOUS_ENTRY_ERROR; SETUID_ERROR; SETGID_ERROR]) o
    (Daemon.main [name; arg]) []) as H.
  destruct (run o [] (Daemon.main [name; arg])) as [h e]. apply H; [by intros pre [] post _|].
  assert (Hc : parse_into 2 Daemon.default_command = Aborted "arguments out of bounds") by reflexivity.
  unfold Daemon.main, fileExists, Daemon.become. change (length [name; arg]) with 2%nat.
  rewrite Hc. cbn [lift]. walk; try (by left); right; eexists; (split; [reflexivity|]);
    rewrite !elem_of_cons; auto.
Qed.

(** ** Kick *)

Section Kick.
Import Kick.

(** The lock file is open, locked and holds the process id. *)
Definition locked (lock : bytes) (h : list event) : Prop :=
  exists fd r pid w,
    Ev (Open lock "O_RDWR | O_CREAT, 0600") fd ∈ h /\ 0 <= fd /\ Ev (Lockf fd) r ∈ h /\ 0 <= r
    /\ Ev Getpid pid ∈ h /\ Ev (Write fd (show_Z pid ++ [LF])) w ∈ h.

(** The argument vector of a JVM started on a jar with one argument. *)
Definition boots (jar arg : bytes) (a : list bytes) : Prop :=
  exists options, a = options ++ [bs "-jar"; jar; arg].

Definition background_exec (params : execParams) (lock : bytes)
    (h : list event) (f : option bytes) (a : list bytes) : Prop :=
  f = Some (javaPath params) /\ locked lock h
  /\ if bool_decide (svdArg params = CORE_SVD_ID) then boots ROOT_JAR_FILE CORE_SVD_ID a
     else boots USER_JAR_FILE (svdArg params) a.

Lemma spawn_guard params lock h :
  ensures (exec_guard (background_exec params lock)) anything h (spawnBackgroundTask params lock).
Proof.
  unfold spawnBackgroundTask, load_svd, load_svd64. destruct params as [java jar arg].
  cbn [svdArg javaPath with_jar]. case_bool_decide as Harg; walk; try done;
    (split; [done|split; [|rewrite ?Harg, ?(bool_decide_true (CORE_SVD_ID = _)),
                             ?(bool_decide_false (arg = _)) by done; by eexists (_ :: _ ++ _)]]);
    eexists _, _, _, _; split_and!; try find_event; lia.
Qed.

Definition kick_exec (arg : bytes) (h : list event) (f : option bytes) (a : list bytes) : Prop :=
  Ev Getuid 0 ∈ h
  /\ let uid := to_uint32 (atoi arg) in
     if uid =? 0 then boots ROOT_JAR_FILE CORE_SVD_ID a
     else Ev (Setuid uid) 0 ∈ h /\ boots USER_JAR_FILE arg a.

Definition kick_argument (argv : list bytes) : bytes :=
  match argv with _ :: arg :: _ => arg | _ => bs "0" end.

(** A spawn in a history where [P] holds, followed by [k]. *)
Lemma spawn_bind {A} (P : list event -> Prop) C Q params lock h (k : unit -> prog A) :
  stable P -> P h ->
  (forall h f a, P h -> background_exec params lock h f a -> C h f a) ->
  (forall h, Q h Replaced) -> (forall h c, Q h (Exited c)) -> (forall h w, Q h (Crashed w)) ->
  (forall h, Q h Diverged) ->
  (forall h, P h -> ensures (exec_guard C) Q h (k tt)) ->
  ensures (exec_guard C) Q h (pbind (spawnBackgroundTask params lock) k).
Proof.
  intros Hst Hh HC ? ? ? ? Hk. eapply ensures_bind.
  - eapply (ensures_stable P); [done|done| |apply spawn_guard].
    intros h' B c HP Hc. destruct c; try done; by apply HC.
  - intros h' [[]| | | |] [HP _]; auto.
Qed.

Lemma pbind_assoc {A B E} (p : prog A) (f : A -> prog B) (g : B -> prog E) :
  pbind (pbind p f) g = pbind p (fun x => pbind (f x) g).
Proof.
  induction p as [a|code|why| |X c k IH]; cbn; try done. f_equal.
  apply functional_extensionality. intros x. apply IH.
Qed.

Lemma boot_guard arg lock h :
  Ev Getuid 0 ∈ h -> ensures (exec_guard (kick_exec arg)) anything h (boot arg lock).
Proof.
  intros Hh. unfold boot.
  destruct (Z.eqb_spec (to_uint32 (atoi arg)) 0) as [E|E].
  - rewrite pbind_assoc. cbn [pbind with_svdArg javaPath jar].
    assert (HC : forall h f a, Ev Getuid 0 ∈ h ->
      background_exec (mkParams DEFAULT_JAVA_BIN [] CORE_SVD_ID) lock h f a -> kick_exec arg h f a).
    { intros h' f a Hg (_ & _ & Hb). split; [done|]. cbv zeta. rewrite E. cbn [svdArg] in Hb.
      by rewrite bool_decide_true in Hb. }
    apply (spawn_bind (fun h => Ev Getuid 0 ∈ h)); try done; [apply stable_event|].
    intros h' Hh'. apply (spawn_bind (fun h => Ev Getuid 0 ∈ h)); try done. apply stable_event.
  - walk; try done. apply negb_false_iff, Z.eqb_eq in Eb. subst r.
    apply (spawn_bind (fun h => Ev Getuid 0 ∈ h /\ Ev (Setuid (to_uint32 (atoi arg))) 0 ∈ h)); try done.
    + apply stable_and; apply stable_event.
    + split; find_event || (apply elem_of_app; by left).
    + intros h' f a [Hg Hs] (_ & _ & Hb). split; [done|]. cbv zeta. cbn [svdArg] in Hb.
      rewrite bool_decide_false in Hb by (intros ->; by apply E).
      by apply Z.eqb_neq in E as ->.
Qed.

Lemma kick_guard argv :
  ensures (exec_guard (kick_exec (kick_argument argv))) anything [] (main argv).
Proof.
  set (arg := kick_argument argv). unfold main, fileExists.
  assert (Hcase : exists homeDir,
    match argv with
    | _ :: arg :: _ => (arg, USERS_HOME_DIR ++ bs "/" ++ arg)
    | _ => (bs "0", SYSTEMUSERS_HOME_DIR)
    end = (arg, homeDir)) by (destruct argv as [|? [|? ?]]; by eexists).
  destruct Hcase as [homeDir ->].
  walk; try done; apply boot_guard; apply negb_false_iff, Z.eqb_eq in Eb; subst; find_event.
Qed.

End Kick.

(** *** The properties of kick *)

(** Kick starts a JVM only as root or after becoming the user, and always
    holding the lock file: the argument that [atoi] reads as 0 boots the root
    core, any other argument boots the user core, with itself as argument,
    after a successful [setuid] to it. *)
Theorem kick_starts_the_right_core argv :
  every_exec (kick_exec (kick_argument argv)) (Kick.main argv).
Proof. apply every_exec_intro, kick_guard. Qed.

(** A background task execs only under its lock: the lock file was opened,
    [lockf] succeeded and the process id was written to it. *)
Theorem background_task_holds_lock params lock :
  every_exec (fun h f a => locked lock h /\ f = Some (Kick.javaPath params))
    (Kick.spawnBackgroundTask params lock).
Proof.
  apply every_exec_intro. eapply ensures_impl; [|apply spawn_guard].
  intros h B c Hc. destruct c; try done; by destruct Hc as (-> & Hl & _).
Qed.

(** An operating system on which everything succeeds, but for the replies of
    [exec]. *)
Definition obliging (exec_reply : Z) : oracle := fun B h c =>
  match c in call B return B with
  | Getuid => 0 | Setuid _ => 0 | Setgid _ => 0 | Setsid => 1 | Getpid => 42 | Fork => 0
  | Forkpty => (0, 3) | Wait => 0 | Kill _ _ => 0 | Signal _ _ => tt | Umask _ => tt
  | Execv _ _ => exec_reply | Execvp _ _ => exec_reply
  | Setenv _ _ => tt | Unsetenv _ => tt | Getenv _ => None | Strerror => []
  | Uninitialised => 0 | Dangling was => was
  | StatFile _ => Some (mkStat true 0 0 493)
  | Mkdir _ _ => 0 | Chown _ _ _ => 0 | Chdir _ => 0 | Getcwd => Some (bs "/") | Unlink _ => 0
  | Open _ _ => 3 | Freopen _ _ => tt | Lockf _ => 0 | Fcntl _ _ => 0 | Dup2 _ _ => 0
  | Close _ => 0 | Read _ _ => (0, []) | Write _ d => Z.of_nat (length d) | ReadInt _ => 0
  | AppendFile _ _ => tt | Clock_gettime => (0, 0) | Clock_settime _ _ => 0 | Usleep _ => 0
  | UsageText _ => [] | LearnText _ => []
  | Log _ _ => tt | ReadFile _ => None | PathExists _ => true | Mkpath _ => true | Chmod _ _ => 0
  | ZmqVersion => (3, 2, 3) | ZmqSocket _ _ => tt | ZmqBind _ => true | ZmqConnect _ => true
  | ZmqSubscribe _ => true | ZmqIdentity _ => true | ZmqSend _ => true | Emit _ _ => tt
  | SingleShot _ _ => tt | AppExec => 0
  | Opendir _ => true | Readdir _ => None | Isatty _ => false | Ioctl _ => 0
  | Tcgetattr _ => 0 | Tcsetattr _ => 0 | Getline => (None, true) | Atexit _ => tt
  | Cout _ => tt | Cerr _ => tt | Getopt => None | Optind => 1%nat
  end.

Definition is_exec (e : event) : bool :=
  match e with Ev c _ => match c with Execv _ _ | Execvp _ _ => true | _ => false end end.

(** When the root core fails to start, kick falls through and starts it a
    second time before returning 0. *)
Theorem kick_root_spawns_twice :
  let '(h, e) := run (obliging (-1)) [] (Kick.main [bs "kick"]) in
  length (filter (fun x => is_exec x = true) h) = 2%nat /\ e = Returned 0.
Proof. vm_compute. done. Qed.

(** ** The shell *)

Section Shell.
Import ShellUtils Shell.

(** Calls that neither exec nor touch the streams of the terminal. *)
Definition plain_call (h : list event) (B : Type) (c : call B) : Prop :=
  match c with
  | Execvp _ _ | Execv _ _ | Read _ _ | Write _ _ | Kill _ _ | Fork => False
  | _ => True
  end.

Definition quiet {A} (p : prog A) : Prop := forall h, ensures plain_call anything h p.

Lemma quiet_bind {A B} (p : prog A) (f : A -> prog B) :
  quiet p -> (forall a, quiet (f a)) -> quiet (pbind p f).
Proof.
  intros Hp Hf h. eapply ensures_bind; [apply Hp|]. intros h' [] _; try done. apply Hf.
Qed.

Lemma quiet_entries n uid dir : quiet (entries n uid dir).
Proof.
  induction n as [|n IH]; [done|]. cbn [entries]. intros h. walk; try done; apply IH.
Qed.

Lemma quiet_gather n uid dir : quiet (gatherUserNameFromDirEntry n uid dir).
Proof.
  unfold gatherUserNameFromDirEntry. apply quiet_bind; [done|]. intros [].
  - apply quiet_bind; [apply quiet_entries|]. intros [name|] h; by walk.
  - intros h. by walk.
Qed.

Lemma quiet_ask n : quiet (getUserHomeDirAndAskForName n).
Proof.
  induction n as [|n IH]; [done|]. cbn [getUserHomeDirAndAskForName fileExists].
  intros h. unfold fileExists. walk; try done; apply IH.
Qed.

Lemma quiet_home n uid : quiet (home_of n uid).
Proof.
  unfold home_of. destruct (uid =? 0); [done|]. apply quiet_bind; [apply quiet_gather|].
  intros [name|]; [done|apply quiet_ask].
Qed.

(** The user id the options leave: the caller's own, or any when the caller is
    root. *)
Definition allowed_uid (me uid : Z) : Prop := uid = me \/ me = 0.

Lemma options_spec n me uid i h :
  allowed_uid me uid ->
  ensures plain_call (fun _ e => match e with Returned (u, _) => allowed_uid me u | _ => True end)
    h (options n uid i).
Proof.
  revert uid i h. induction n as [|n IH]; intros uid i h Hu; [done|]. cbn [options]. unfold printUsage.
  walk; try done; apply IH; try done.
  right. destruct Hu as [->|Hu]; [lia|done].
Qed.

(** What a call of the shell may be: an exec after a successful [setuid] to an
    allowed user; no call of [copyStreams]. *)
Definition switched (h : list event) : Prop :=
  exists me uid, Ev Getuid me ∈ h /\ allowed_uid me uid /\ Ev (Setuid uid) 0 ∈ h.

Definition shell_call (h : list event) (B : Type) (c : call B) : Prop :=
  match c with
  | Execvp f a => switched h /\ f = head a
  | Execv _ _ | Read _ _ | Write _ _ | Kill _ _ | Fork => False
  | _ => True
  end.

Lemma plain_shell h B (c : call B) : plain_call h B c -> shell_call h B c.
Proof. by destruct c. Qed.

Lemma switched_stable : stable switched.
Proof.
  intros h e (me & uid & H1 & H2 & H3). exists me, uid. split_and!; [|done|]; apply elem_of_app; by left.
Qed.

(** A quiet block inside the shell. *)
Lemma quiet_then {A B} (P : list event -> Prop) (p : prog A) (f : A -> prog B) h :
  quiet p -> stable P -> P h ->
  (forall h a, P h -> ensures shell_call anything h (f a)) ->
  ensures shell_call anything h (pbind p f).
Proof.
  intros Hq Hst Hh Hf. eapply ensures_bind.
  - eapply (ensures_stable P plain_call); [done|done| |apply Hq]. intros h' X c _. apply plain_shell.
  - intros h' [a| | | |] [HP _]; try done. by apply Hf.
Qed.

Lemma shell_execute n interactive argv uid h :
  switched h -> ensures shell_call anything h (execute n interactive argv uid).
Proof.
  intros Hh. unfold execute.
  apply (quiet_then switched); [|apply switched_stable|done|].
  { destruct interactive; [|done]. intros h'. by walk. }
  clear h Hh. intros h [] Hh. unfold perform at 1. cbn [pbind ensures]. split; [done|]. intros [pid master].
  cbn [replaces].
  assert (Hh1 := switched_stable h (Ev Forkpty (pid, master)) Hh). clear Hh.
  destruct (pid <? 0); [by walk|].
  apply (quiet_then switched); [|apply switched_stable|done|].
  { destruct (uid =? 0); [done|]. apply quiet_bind; [apply quiet_gather|done]. }
  clear h Hh1. intros h hd Hh.
  apply (quiet_then switched); [apply quiet_gather|apply switched_stable|done|].
  clear h Hh. intros h usr Hh.
  apply (quiet_then switched); [intros h'; by walk|apply switched_stable|done|].
  clear h Hh. intros h _ Hh.
  apply (quiet_then switched); [intros h'; by walk|apply switched_stable|done|].
  clear h Hh. intros h _ Hh. unfold perform at 1. cbn [pbind ensures].
  split; [done|]. intros dest. cbn [pbind perform ensures replaces].
  split; [done|]. intros r. cbn [pbind perform ensures replaces].
  split; [split; [by do 2 apply switched_stable|done]|]. intros x. cbn [replaces].
  destruct (Z.leb_spec 0 x); [done|]. destruct (Z.ltb_spec x 0); [|lia]. by walk.
Qed.

Lemma shell_main n argv : ensures shell_call anything [] (main n argv).
Proof.
  unfold main, printVersion. unfold perform at 1 2 3. cbn [pbind ensures replaces].
  split; [done|]. intros u0. split; [done|]. intros me. split; [done|]. intros tty.
  set (h := _ ++ [Ev (Isatty _) _]).
  assert (Hme : Ev Getuid me ∈ h) by (unfold h; find_event). clearbody h.
  eapply ensures_bind.
  { eapply (ensures_stable (fun h => Ev Getuid me ∈ h) plain_call shell_call);
      [apply stable_event|done|intros h' X c _; apply plain_shell|].
    apply (options_spec n me me tty). by left. }
  clear h Hme. intros h [[uid interactive]| | | |] [Hme Hu]; try done.
  unfold perform at 1. cbn [pbind ensures replaces]. split; [done|]. intros optind.
  assert (Hst : stable (fun h => Ev Getuid me ∈ h)) by apply stable_event.
  apply (Hst _ (Ev Optind optind)) in Hme.
  apply (quiet_then (fun h => Ev Getuid me ∈ h)); [apply quiet_home|done|done|].
  clear h Hme. intros h homeDir Hme.
  apply (quiet_then (fun h => Ev Getuid me ∈ h)); [intros h'; by walk|done|done|].
  clear h Hme. intros h present Hme.
  apply (quiet_then (fun h => Ev Getuid me ∈ h)); [intros h'; by destruct present; walk|done|done|].
  clear h Hme. intros h _ Hme. unfold perform at 1. cbn [pbind ensures replaces].
  split; [done|]. intros r. apply (Hst _ (Ev (Setuid uid) r)) in Hme as Hme'.
  destruct (Z.eqb_spec r 0) as [->|]; cbn [negb]; [|by walk].
  eapply ensures_bind; [apply shell_execute|by intros h' [] _].
  exists me, uid. split_and!; [done|done|find_event].
Qed.
End Shell.


(** The stream copying of the shell is dead code: after [forkpty] both
    processes take the branch of the exec, so no run reads, writes, forks or
    kills. *)
Theorem shell_never_copies_streams n argv o pre e post :
  (run o [] (Shell.main n argv)).1 = pre ++ e :: post ->
  match e with
  | Ev c _ => match c with Read _ _ | Write _ _ | Fork | Kill _ _ => False | _ => True end
  end.
Proof.
  intros Hrun.
  destruct (run_ensures shell_call anything o (Shell.main n argv) [] (respects_nil _) (shell_main n argv))
    as [Hr _].
  specialize (Hr pre e post Hrun). destruct e as [B c r]. by destruct c.
Qed.

Lemma allowed_no_slash name :
  forallb Shell.allowed_char name = true -> Forall (fun c => c <> "/"%char) name.
Proof.
  induction name as [|c name IH]; cbn [forallb]; [constructor|]. intros [Hc Hn]%andb_true_iff.
  constructor; [|by apply IH]. intros ->. by vm_compute in Hc.
Qed.

(** The home directory made from a typed name is a direct child of the
    directory of homes: the name is not empty, holds no slash, and nothing of
    that name existed when it was accepted. *)
Theorem asked_home_is_new n o :
  let '(h, e) := run o [] (Shell.getUserHomeDirAndAskForName n) in
  match e with
  | Returned home =>
      exists name, home = USERS_HOME_DIR ++ bs "/" ++ name /\ name <> []
        /\ Forall (fun c => c <> "/"%char) name /\ Ev (StatFile (cstr home)) None ∈ h
  | Exited code => code = 0 \/ code = 1
  | _ => e = Diverged
  end.
Proof.
  pose proof (run_ensures (fun _ _ _ => True) (fun h e =>
    match e with
    | Returned home =>
        exists name, home = USERS_HOME_DIR ++ bs "/" ++ name /\ name <> []
          /\ Forall (fun c => c <> "/"%char) name /\ Ev (StatFile (cstr home)) None ∈ h
    | Exited code => code = 0 \/ code = 1
    | _ => e = Diverged
    end) o (Shell.getUserHomeDirAndAskForName n) []) as H.
  destruct (run o [] _) as [h e]. apply H; [by intros pre [] post _|]. clear H h e.
  generalize (@nil event) as h. induction n as [|n IH]; intros h; [done|].
  cbn [Shell.getUserHomeDirAndAskForName]. unfold fileExists. walk; auto; try apply IH.
  exists l. split; [done|]. apply bool_decide_eq_false in Eb1. split; [done|].
  split; [by apply allowed_no_slash, negb_false_iff|]. destruct r1; [done|]. find_event.
Qed.

(** ** The runner *)

Section Runner.
Import ShellUtils Runner.
Context (PATH_MAX : nat) (realpath : bytes -> option bytes) (stat : bytes -> option Stat)
  (euid egid : Z).

(** The history ends with a wait for the child that was forked. *)
Definition waited (h : list event) : Prop :=
  exists pid, 0 < pid /\ Ev Fork pid ∈ h /\ last h = Some (Ev Wait pid).

(** The forked child execs; the parent returns after the wait. *)
Definition runner_guard (argv : list bytes) (h : list event) (f : option bytes) (a : list bytes) : Prop :=
  f = head argv /\ a = argv /\ Ev Fork 0 ∈ h.

Definition runner_end (h : list event) (e : ending unit) : Prop :=
  match e with Returned _ => waited h | _ => True end.

Lemma wait_for_spec argv n pid h :
  0 < pid -> Ev Fork pid ∈ h ->
  ensures (exec_guard (runner_guard argv)) runner_end h (wait_for n pid).
Proof.
  intros Hpid. revert h. induction n as [|n IH]; intros h Hf; [done|]. cbn [wait_for].
  cbn [pbind perform ensures replaces]. split; [done|]. intros w.
  destruct (Z.eqb_spec w pid) as [->|].
  - exists pid. split; [done|]. split; [by apply stable_event|]. by rewrite last_snoc.
  - apply IH. by apply stable_event.
Qed.

Lemma runner_execute n argv uid h :
  ensures (exec_guard (runner_guard argv)) runner_end h (execute n argv uid).
Proof.
  unfold execute. cbn [pbind perform ensures replaces]. split; [done|]. intros pid.
  destruct (Z.ltb_spec pid 0); [by walk|]. destruct (Z.eqb_spec pid 0) as [->|].
  - assert (Hf : Ev Fork 0 ∈ h ++ [Ev Fork 0]) by find_event.
    revert Hf. generalize (h ++ [Ev Fork 0]). clear h. intros h Hf.
    do 3 (cbn [pbind perform ensures replaces]; split; [done|]; intros ?).
    cbn [pbind perform ensures replaces].
    eapply ensures_bind.
    { eapply (ensures_stable (fun h => Ev Fork 0 ∈ h) plain_call (exec_guard (runner_guard argv)));
        [apply stable_event| |intros h' B c _ Hc; by destruct c|apply quiet_gather].
      by do 3 apply stable_event. }
    clear h Hf. intros h [name| | | |] [Hf _]; try done. unfold exec_or_exit.
    walk; try done; [|lia]. split; [done|]. split; [done|]. by repeat (apply elem_of_app; left).
  - apply wait_for_spec; [lia|find_event].
Qed.

Lemma runner_main n name exe args :
  ensures (exec_guard (fun h f a => exists PATH found path,
      findpathof PATH_MAX realpath (checkifexecutable stat euid egid) PATH exe = Ok (found, path)
      /\ found <> 0
      /\ parse_into (length (name :: exe :: args))
           (match args with [] => path | _ => path ++ bs " " ++ appArguments args end) = Ok a
      /\ f = head a /\ Ev Fork 0 ∈ h))
    anything [] (main PATH_MAX realpath stat euid egid n (name :: exe :: args)).
Proof.
  unfold main. cbn [pbind perform ensures replaces]. split; [done|]. intros u0.
  split; [done|]. intros uid. generalize ((([] ++ [Ev (Cout (bs "ServeD Runner v" ++ APP_VERSION)) u0])
    ++ [Ev Getuid uid])). intros h.
  eapply ensures_bind with (R := anything); [destruct (existsb _ exe); by walk|].
  intros h1 [PATH| | | |] _; try done. apply ensures_lift; try done. intros [found path] Hfind.
  destruct (Z.eqb_spec found 0) as [|Hfound]; [by walk|].
  apply ensures_lift; try done. intros libs _. cbn [pbind perform ensures replaces].
  split; [done|]. intros st. apply ensures_lift; try done. intros arguments Hargs.
  eapply ensures_bind.
  - eapply ensures_impl; [|apply (runner_execute n arguments)].
    intros h2 B c Hc. destruct c; try done; destruct Hc as (-> & -> & Hf); by exists PATH, found, path.
  - intros h2 [] _; done.
Qed.

(** The runner execs, in the forked child, the executable that the search
    in PATH found, with its own remaining arguments, provided neither the path
    nor an argument is empty or holds a blank. *)
Theorem runner_execs_found_path n name exe args :
  Forall simple_word args ->
  every_exec (fun h f a => exists PATH found path,
      findpathof PATH_MAX realpath (checkifexecutable stat euid egid) PATH exe = Ok (found, path)
      /\ found <> 0 /\ Ev Fork 0 ∈ h
      /\ (simple_word path -> f = Some path /\ a = path :: args))
    (main PATH_MAX realpath stat euid egid n (name :: exe :: args)).
Proof.
  intros Hs. apply every_exec_intro. eapply ensures_impl; [|apply runner_main].
  intros h B c Hc.
  assert (Hone : forall f a, (exists PATH found path,
      findpathof PATH_MAX realpath (checkifexecutable stat euid egid) PATH exe = Ok (found, path)
      /\ found <> 0
      /\ parse_into (length (name :: exe :: args))
           (match args with [] => path | _ => path ++ bs " " ++ appArguments args end) = Ok a
      /\ f = head a /\ Ev Fork 0 ∈ h) ->
    exists PATH found path,
      findpathof PATH_MAX realpath (checkifexecutable stat euid egid) PATH exe = Ok (found, path)
      /\ found <> 0 /\ Ev Fork 0 ∈ h
      /\ (simple_word path -> f = Some path /\ a = path :: args)).
  { intros f a (PATH & found & path & H1 & H2 & H3 & -> & H5). exists PATH, found, path.
    split_and!; try done. intros Hp.
    assert (E : match args with [] => path | _ => path ++ bs " " ++ appArguments args end
                = appArguments (path :: args)) by (destruct args; [done|]; by rewrite app_assoc).
    rewrite E, parse_into_words in H3 by first [by constructor | cbn; lia].
    by injection H3 as <-. }
  destruct c; try done; by apply Hone.
Qed.

(** When [execute] of the runner returns, it has waited for the child it
    forked: [wait] returned the child's process id last. *)
Theorem runner_waits n argv uid o :
  let '(h, e) := run o [] (execute n argv uid) in
  match e with Returned _ => waited h | _ => True end.
Proof.
  pose proof (run_ensures (exec_guard (runner_guard argv)) runner_end o (execute n argv uid) []
                (respects_nil _) (runner_execute n argv uid [])) as [_ H].
  by destruct (run o [] (execute n argv uid)) as [h [| | | |]].
Qed.

End Runner.

(** ** Instances *)

Lemma daemon_runs_command_witness :
  every_exec (fun h f a => f = head [bs "ls"; bs "-la"] /\ a = [bs "ls"; bs "-la"])
    (Daemon.main [bs "svddaemon"; bs "501"; bs "ls"; bs "-la"]).
Proof.
  apply (daemon_runs_command (bs "svddaemon") (bs "501") [bs "ls"; bs "-la"]); [discriminate|].
  repeat constructor; discriminate.
Defined.

Lemma runner_execs_found_path_witness :
  every_exec (fun h f a => exists PATH found path,
      findpathof 1024 (fun _ => None) (checkifexecutable (fun _ => Some (mkStat true 0 0 493)) 0 0)
        PATH (bs "zsh") = Ok (found, path)
      /\ found <> 0 /\ Ev Fork 0 ∈ h
      /\ (simple_word path -> f = Some path /\ a = path :: [bs "-i"]))
    (Runner.main 1024 (fun _ => None) (fun _ => Some (mkStat true 0 0 493)) 0 0 5
       [bs "svdrunner"; bs "zsh"; bs "-i"]).
Proof.
  apply (runner_execs_found_path 1024 (fun _ => None) (fun _ => Some (mkStat true 0 0 493)) 0 0 5
           (bs "svdrunner") (bs "zsh") [bs "-i"]).
  repeat constructor; discriminate.
Defined.

Definition shell_greeting : event := Ev (Cout (bs "ServeD Shell v" ++ APP_VERSION)) tt.

Lemma shell_never_copies_streams_witness :
  match shell_greeting with
  | Ev c _ => match c with Read _ _ | Write _ _ | Fork | Kill _ _ => False | _ => True end
  end.
Proof.
  apply (shell_never_copies_streams 3 [bs "svdshell"] (obliging 0) [] shell_greeting
           (tail (run (obliging 0) [] (Shell.main 3 [bs "svdshell"])).1)).
  vm_compute. reflexivity.
Defined.

(** Runs on which the guarded programs do reach an exec. *)
Lemma exec_instance {A} G (p : prog A) o :
  every_exec G p -> existsb is_exec (run o [] p).1 = true ->
  exists pre e post, (run o [] p).1 = pre ++ e :: post /\ is_exec e = true
    /\ meets (exec_guard G) pre e.
Proof.
  intros Hp (e & (pre & post & E)%in_split & He)%existsb_exists. exists pre, e, post.
  split_and!; [exact E|exact He|by apply (Hp o pre e post)].
Qed.

Lemma daemon_becomes_user_witness :
  exists pre e post,
    (run (obliging 0) [] (Daemon.main [bs "svddaemon"; bs "501"; bs "ls"])).1 = pre ++ e :: post
    /\ is_exec e = true
    /\ meets (exec_guard (fun h f a =>
         exists uid, scan_uint32 (bs "501") = Some uid /\ uid <> 0 /\ became uid h)) pre e.
Proof. apply exec_instance; [apply daemon_becomes_user|by vm_compute]. Defined.

Lemma daemon_default_shell_overflows_witness :
  let '(h, e) := run (obliging 0) [] (Daemon.main [bs "svddaemon"; bs "501"]) in
  e = Crashed "arguments out of bounds"
  \/ exists code, e = Exited code
       /\ code ∈ [ROOT_UID_ERROR; AMBIGOUS_ENTRY_ERROR; SETUID_ERROR; SETGID_ERROR].
Proof. exact (daemon_default_shell_overflows (bs "svddaemon") (bs "501") (obliging 0)). Defined.

Lemma kick_starts_the_right_core_witness :
  exists pre e post,
    (run (obliging 0) [] (Kick.main [bs "kick"; bs "501"])).1 = pre ++ e :: post
    /\ is_exec e = true
    /\ meets (exec_guard (kick_exec (bs "501"))) pre e.
Proof. apply exec_instance; [apply (kick_starts_the_right_core [bs "kick"; bs "501"])|by vm_compute]. Defined.

Lemma background_task_holds_lock_witness :
  let params := Kick.mkParams DEFAULT_JAVA_BIN [] CORE_SVD_ID in
  exists pre e post,
    (run (obliging 0) [] (Kick.spawnBackgroundTask params (bs "/lock"))).1 = pre ++ e :: post
    /\ is_exec e = true
    /\ meets (exec_guard (fun h f a => locked (bs "/lock") h /\ f = Some (Kick.javaPath params))) pre e.
Proof. apply exec_instance; [apply background_task_holds_lock|by vm_compute]. Defined.


(** A system on which a forked process is the parent of process 5, on which no
    file exists and on which somebody types a name. *)
Definition parental : oracle := fun B h c =>
  match c in call B return B with
  | Fork => 5 | Wait => 5 | StatFile _ => None | Getline => (Some (bs "home"), false)
  | c => obliging 0 _ h c
  end.

Lemma asked_home_is_new_witness :
  let '(h, e) := run parental [] (Shell.getUserHomeDirAndAskForName 2) in
  match e with
  | Returned home =>
      exists name, home = USERS_HOME_DIR ++ bs "/" ++ name /\ name <> []
        /\ Forall (fun c => c <> "/"%char) name /\ Ev (StatFile (cstr home)) None ∈ h
  | Exited code => code = 0 \/ code = 1
  | _ => e = Diverged
  end.
Proof. exact (asked_home_is_new 2 parental). Defined.

Lemma runner_waits_witness :
  let '(h, e) := run parental [] (Runner.execute 2 [bs "/bin/ls"] 501) in
  match e with Returned _ => waited h | _ => True end.
Proof. exact (runner_waits 2 [bs "/bin/ls"] 501 parental). Defined.
