(* ===== verification/Dispel.v ===== *)
(** * The Dispel node ([lib/dispel])

    The file of known nodes, the identity of this node, the publisher and the
    subscribers.  Qt strings are UTF-8 byte strings and a [QMap] is a map ordered
    by its keys.  A fatal log record aborts the process (Logger).  Log texts are
    the literals of the source without the values streamed after them. *)

From stdpp Require Import tactics.
From S2P Require Import Prelude OrdMap Doubles JsonValue JsonReader Utils Syscalls Launchers Notifications.

Definition log (level text : string) : prog unit := perform (Log level (bs text)).

Definition logFatal {A} (text : string) : prog A :=
  let* _ := log "Fatal" text in Crash "abort()".

Definition DEFAULT_SYSTEM_ADDRESS : bytes := bs "127.0.0.1".
Definition DISPEL_NODE_PUBLISHER_PORT : bytes := bs "12000".
Definition DISPEL_NODE_PUBLISHER_ENDPOINT : bytes := bs "tcp://*:" ++ DISPEL_NODE_PUBLISHER_PORT.
Definition DISPEL_NODE_PUBLISHER_PAUSE : Z := 5000.
Definition DISPEL_NODE_IDENTIFICATION_FILE : bytes := SYSTEMUSERS_HOME_DIR ++ bs "/svd-node-id.uuid".
Definition DISPEL_NODE_KNOWN_NODES_DIR : bytes := SYSTEMUSERS_HOME_DIR ++ bs "/svd-known-nodes/".

(** A [QMap<QString,QString>]. *)
Abbreviation QMap := (list (bytes * bytes)).

(** ** [parseJSON] *)

Section Nodes.
Context {D : DoubleOps}.

Definition knownNodesIdentifier : bytes := bs "knownNodes".

(** [root\[knownNodes\]]: the root, with the member created when it was missing,
    and the member. *)
Definition known_nodes (root : Value) : outcome (Value * Value) :=
  let! root := resolveReference knownNodesIdentifier root in
  Ok (root, default null (child (AtMember knownNodesIdentifier) root)).

(** [root\[knownNodes\]\[index\]] *)
Definition known_node (index : Z) (root : Value) : outcome (Value * Value) :=
  let! (root, nodes) := known_nodes root in
  let! nodes := index_ref index nodes in
  Ok (vmodify [AtMember knownNodesIdentifier] (fun _ => nodes) root,
      default null (child (AtIndex (to_int32 index)) nodes)).

(** [get((uint)i, &key).asCString()]: the default is the address of a value,
    converted to [bool].  A null pointer makes a null string. *)
Definition node_text (i : Z) (node : Value) : outcome bytes :=
  let! v := get_index i (Value_of_bool true) node in
  let! s := asCString v in
  Ok (default [] s).

(** The loop over the nodes; the assertions of [Json::Value] are not exceptions,
    so that the [catch] is never reached. *)
Fixpoint nodes_loop (n : nat) (index : Z) (root : Value) (mapOfKnownUUIDs : QMap) : outcome QMap :=
  match n with
  | O => OutOfFuel
  | S n' =>
      let! (root, nodes) := known_nodes root in
      if index <? size nodes then
        let! (root, node) := known_node index root in
        let! ip := node_text 0 node in
        let! (root, node) := known_node index root in
        let! uuid := node_text 1 node in
        nodes_loop n' (to_uint32 (index + 1)) root (om_set ip uuid mapOfKnownUUIDs)
      else Ok mapOfKnownUUIDs
  end.

(** What is made of a parsed document: [None] when the nodes are not an array. *)
Definition nodes_of (root : Value) : outcome (option QMap) :=
  let! (root, values) := known_nodes root in
  if negb (isArray values) || isInt values || isBool values || isNumeric values then Ok None
  else ofmap Some (nodes_loop (S (Z.to_nat (size values))) 0 root []).

Definition parseJSON (contents : bytes) : prog QMap :=
  let* (parsedSuccess, r) := lift (JsonReader.parse Features_all (cstr contents) null false) in
  if negb parsedSuccess then let* _ := log "Error" "JSON Parse Failure of content:" in Ret []
  else
    let* nodes := lift (nodes_of (root_ r)) in
    match nodes with
    | None => let* _ := log "Error" "JSON Type: Array - Failed in content:" in Ret []
    | Some m => let* _ := log "Debug" "Array with" in Ret m
    end.

Definition read_nodes : prog QMap :=
  let* contents := perform (ReadFile DISPEL_NODE_IDENTIFICATION_FILE) in
  parseJSON (readFileContents contents).

Definition allKnownNodeUUIDs : prog QMap :=
  let* nodes := read_nodes in
  match nodes with
  | [] => logFatal "No nodes available found! Something bad happened. I will die now."
  | _ => Ret nodes
  end.

Definition currentNodeUUID : prog bytes :=
  let* nodeID := read_nodes in
  match nodeID with
  | [] => logFatal "No default node identifier found. No identifier for default IP:"
  | _ =>
      match om_find DEFAULT_SYSTEM_ADDRESS nodeID with
      | Some result => let* _ := log "Info" "Found local node identifier:" in Ret result
      | None => Ret DEFAULT_SYSTEM_ADDRESS
      end
  end.

(** ** [readNodesData] *)

(** [Q_FOREACH(QString node, nodes)]: the values in the order of the keys. *)
Definition under_default_address (nodes : QMap) : QMap :=
  fold_left (fun map node => om_set DEFAULT_SYSTEM_ADDRESS node map) (om_values nodes) [].

Definition readNodesData : prog QMap :=
  let* uid := perform Getuid in
  if uid =? 0 then
    let* nodes := allKnownNodeUUIDs in
    let* _ := log "Info" "Known nodes:" in
    Ret (under_default_address nodes)
  else
    Ret (om_set (bs "192.168.0.10") (bs "{devel-node-uuid}")
           (om_set (bs "192.168.0.9") (bs "{devel-node-uuid}") [])).

(** ** Publisher and subscriber *)

Record Publisher := mkPublisher { nodeUuid : bytes; address : bytes; channel : bytes }.

(** The constructor asserts that its arguments are not empty. *)
Definition new_publisher (address channel : bytes) : prog Publisher :=
  let* _ := lift (assertion (negb (bool_decide (address = []))) "!address_.isEmpty()") in
  let* _ := lift (assertion (negb (bool_decide (channel = []))) "!channel_.isEmpty()") in
  let* _ := perform (ZmqSocket "XPUB" (bs "Publisher.Socket.socket(PUB) -> " ++ channel)) in
  let* _ := log "Debug" "Publisher created for channel:" in
  Ret (mkPublisher [] address channel).

Definition Publisher_startImpl (p : Publisher) : prog Publisher :=
  let* nodeUuid := currentNodeUUID in
  let p := mkPublisher nodeUuid (address p) (channel p) in
  let* _ := log "Info" "Launching Publisher with id:" in
  let* bound := perform (ZmqBind (address p)) in
  if negb bound then
    let* _ := log "Error" "Exception thrown in publisher: " in
    logFatal "Publisher requires free tcp address:"
  else
    let* _ := perform (SingleShot DISPEL_NODE_PUBLISHER_PAUSE "sendIDLEJobMessage") in
    Ret p.

(** The slot: an exception of the socket leaves it.  [counter] is the static
    number of the message; the answer is the next one. *)
Definition sendIDLEJobMessage (p : Publisher) (counter : Z) : prog Z :=
  let msg := channel p ++ bs "{}" in
  let* _ := perform (Log "Trace" (bs "Publishing IDLE:" ++ msg ++ bs "no:" ++ show_Z counter)) in
  let* named := perform (ZmqIdentity (channel p)) in
  if negb named then Crash "ZMQException"
  else
    let* sent := perform (ZmqSend (cstr msg)) in
    if negb sent then Crash "ZMQException"
    else
      let* _ := perform (Emit "sentJobMessage" msg) in
      let* _ := perform (SingleShot DISPEL_NODE_PUBLISHER_PAUSE "sendIDLEJobMessage") in
      Ret ((counter + 1) mod 18446744073709551616).

Record Subscriber := mkSubscriber { sub_uuid : bytes; sub_address : bytes; sub_channel : bytes }.

Definition new_subscriber (address channel : bytes) : prog Subscriber :=
  let* _ := lift (assertion (negb (bool_decide (address = []))) "!address_.isEmpty()") in
  let* _ := lift (assertion (negb (bool_decide (channel = []))) "!channel_.isEmpty()") in
  let* _ := perform (ZmqSocket "SUB" (bs "Subscriber.Socket.socket(SUB)")) in
  let* _ := log "Debug" "Subscriber created for channel:" in
  Ret (mkSubscriber [] address channel).

(** [AbstractZmqBase::start] reports an exception of [startImpl] and goes on. *)
Definition start_failed : prog unit :=
  let* _ := perform (Emit "failure" []) in perform (Emit "finished" []).

Definition Subscriber_start (s : Subscriber) : prog Subscriber :=
  let* nodeUuid := currentNodeUUID in
  let s := mkSubscriber nodeUuid (sub_address s) (sub_channel s) in
  let* _ := log "Info" "Launching Subscriber with id:" in
  let* _ := lift (assertion (negb (bool_decide (nodeUuid = []))) "!nodeUuid.isEmpty()") in
  let* connected := perform (ZmqConnect (sub_address s)) in
  if negb connected then let* _ := start_failed in Ret s
  else
    let* subscribed := perform (ZmqSubscribe (sub_channel s)) in
    if negb subscribed then let* _ := start_failed in Ret s
    else let* _ := log "Debug" "Subscribing to:" in Ret s.

(** ** [main] *)

Definition subscribe (ip uuid : bytes) : prog Subscriber :=
  let nodeAddress := bs "tcp://" ++ ip ++ bs ":" ++ DISPEL_NODE_PUBLISHER_PORT in
  let* _ := log "Info" "Subscribing to Node ID:" in
  let* s := new_subscriber nodeAddress uuid in
  Subscriber_start s.

Fixpoint subscribe_all (map : QMap) : prog (list Subscriber) :=
  match map with
  | [] => Ret []
  | (ip, uuid) :: map' =>
      let* s := subscribe ip uuid in
      let* subscribers := subscribe_all map' in
      Ret (s :: subscribers)
  end.

(** [QRegExp(option).indexIn(argument) != -1]: anywhere in the argument. *)
Definition mentions (option argument : bytes) : bool :=
  match search option argument with Some _ => true | None => false end.

(** The options: debug, trace; [None] when the version is asked for. *)
Fixpoint dispel_options (args : list bytes) (debug trace : bool) : option (bool * bool) :=
  match args with
  | [] => Some (debug, trace)
  | a :: args' =>
      let debug := debug || mentions (bs "-d") a in
      let '(debug, trace) := if mentions (bs "-t") a then (true, true) else (debug, trace) in
      if mentions (bs "-v") a then None else dispel_options args' debug trace
  end.

(** The level of the console: without options it is [Debug] too. *)
Definition console_level (debug trace : bool) : Logger.LogLevel :=
  if trace && debug then Logger.Trace else Logger.Debug.

Definition prepare_directories (uid : Z) : prog unit :=
  if uid =? 0 then
    let* _ := log "Info" "Checking existance and access priviledges of ServeD private directories" in
    let* present := perform (PathExists DISPEL_NODE_KNOWN_NODES_DIR) in
    let* _ := (if present : bool then skip
               else let* _ := perform (Mkpath DISPEL_NODE_KNOWN_NODES_DIR) in skip) in
    let* _ := perform (Chmod DISPEL_NODE_IDENTIFICATION_FILE 384) in
    let* _ := perform (Chmod DISPEL_NODE_KNOWN_NODES_DIR 384) in
    skip
  else log "Error" "Please note that this software requires super user priviledges to run!".

Definition zmqVersion : prog bytes :=
  let* v := perform ZmqVersion in
  let '(major, minor, patch) := v in
  Ret (show_Z major ++ bs "." ++ show_Z minor ++ bs "." ++ show_Z patch).

Definition main (argv : list bytes) : prog Z :=
  match dispel_options (tail argv) false false with
  | None => let* _ := log "Info" "ServeD Dispel v" in Ret 0
  | Some _ =>
      let* uid := perform Getuid in
      let* _ := prepare_directories uid in
      let* _ := log "Info" "The ServeD Dispel v" in
      let* v := zmqVersion in
      let* _ := perform (Log "Info" (bs "Using Zeromq v" ++ v)) in
      let* nodeID := currentNodeUUID in
      let* publisher := new_publisher DISPEL_NODE_PUBLISHER_ENDPOINT nodeID in
      let* _ := Publisher_startImpl publisher in
      let* map := readNodesData in
      let* subscribers := subscribe_all map in
      let* _ := log "Debug" "Subscribed Nodes:" in
      perform AppExec
  end.

End Nodes.
