(* ===== verification/DispelTheorems.v ===== *)
(** * What a Dispel node reads and whom it talks to *)

From stdpp Require Import tactics.
From S2P Require Import Prelude OrdMap Doubles JsonValue JsonReader JsonScalars JsonDocuments.
From S2P Require Import Utils Syscalls Launchers LauncherTheorems Notifications Dispel.

(** ** The file of known nodes *)

Section Nodes.
Context {D : DoubleOps}.

(** A node of the file: an array that starts with two strings, the address and
    the identifier. *)
Definition node_entry (v : Value) (node : bytes * bytes) : Prop :=
  exists a b more, value_ v = arrayValue ((0, a) :: (1, b) :: more)
    /\ value_ a = stringValue (Some node.1) /\ value_ b = stringValue (Some node.2)
    /\ no_nul node.1 /\ no_nul node.2.

(** A root with the member [knownNodes], the array of the given nodes. *)
Definition names_nodes (root : Value) (nodes : list (bytes * bytes)) : Prop :=
  exists members v items,
    value_ root = objectValue members /\ om_find knownNodesIdentifier members = Some v
    /\ value_ v = arrayValue items /\ dense_map items /\ Forall2 node_entry (om_values items) nodes.

(** The map of the nodes: of two nodes with one address the later counts. *)
Definition map_of_nodes (nodes : list (bytes * bytes)) : QMap :=
  fold_left (fun m node => om_set node.1 node.2 m) nodes [].

Lemma dense_lookup i (items : list (Z * Value)) n v :
  dense_from i items -> om_values items !! n = Some v -> (i + Z.of_nat n, v) ∈ items.
Proof.
  revert i n. induction items as [|[k w] items IH]; intros i n; [done|]. intros [Hk Hd] Hn.
  apply elem_of_cons. destruct n as [|n]; cbn in Hn.
  - injection Hn as ->. rewrite Z.add_0_r, Hk. by left.
  - right. specialize (IH (i + 1) n Hd Hn).
    by replace (i + Z.of_nat (S n)) with (i + 1 + Z.of_nat n) by lia.
Qed.

Lemma dense_find i (items : list (Z * Value)) n v :
  dense_from i items -> om_values items !! n = Some v -> om_find (i + Z.of_nat n) items = Some v.
Proof.
  intros Hd Hn. apply om_find_wf_in; [by apply dense_from_wf in Hd as [? _]|].
  by apply dense_lookup.
Qed.

Lemma known_nodes_found root members v :
  value_ root = objectValue members -> om_find knownNodesIdentifier members = Some v ->
  known_nodes root = Ok (root, v).
Proof.
  destruct root as [c p]. intros Hm Hv. cbn in Hm. subst p.
  unfold known_nodes, resolveReference. cbn [obind null_to isNull is_type].
  change (null_to TobjectValue (mkValue c (objectValue members))) with (mkValue c (objectValue members)).
  cbn [value_ comments_]. change (cstr knownNodesIdentifier) with knownNodesIdentifier.
  rewrite (om_touch_found _ null v) by done. cbn [obind child value_]. by rewrite Hv.
Qed.

Lemma known_node_found root members v items n node :
  value_ root = objectValue members -> om_find knownNodesIdentifier members = Some v ->
  value_ v = arrayValue items -> dense_map items -> om_values items !! n = Some node ->
  known_node (Z.of_nat n) root = Ok (root, node).
Proof.
  intros Hm Hv Hi [Hd Hlen] Hn. unfold known_node. rewrite (known_nodes_found root members v) by done.
  cbn [obind]. destruct v as [c p]. cbn in Hi. subst p.
  pose proof (lookup_lt_Some _ _ _ Hn) as Hlt. unfold om_values in Hlt. rewrite length_map in Hlt.
  pose proof (dense_find 0 items n node Hd Hn) as Hf. rewrite Z.add_0_l in Hf.
  unfold index_ref.
  change (null_to TarrayValue (mkValue c (arrayValue items))) with (mkValue c (arrayValue items)).
  cbn [value_ comments_]. rewrite to_int32_id by (unfold is_int32, INT_MIN, INT_MAX in *; lia).
  rewrite (om_touch_found _ null node) by done. cbn [obind child value_]. rewrite Hf.
  destruct root as [c' p']. cbn in Hm. subst p'. cbn [vmodify child_modify value_ comments_ default].
  by rewrite om_alter_found.
Qed.

Lemma node_entry_text v node : node_entry v node ->
  node_text 0 v = Ok node.1 /\ node_text 1 v = Ok node.2.
Proof.
  intros (a & b & more & Hv & Ha & Hb & Hn1 & Hn2). destruct v as [c p], a as [ca pa], b as [cb pb].
  cbn in Hv, Ha, Hb. subst p pa pb. unfold node_text, get_index, index_const, asCString.
  change (to_int32 0) with 0. change (to_int32 1) with 1.
  cbn [value_ obind om_find kcmp default copy id].
  change (kcmp 0 0) with Eq. change (kcmp 1 0) with Gt. change (kcmp 1 1) with Eq.
  cbn [value_ obind om_find kcmp default copy id from_option]. by rewrite !cstr_id.
Qed.

Lemma nodes_loop_spec root members v items nodes n done_ m fuel :
  value_ root = objectValue members -> om_find knownNodesIdentifier members = Some v ->
  value_ v = arrayValue items -> dense_map items ->
  Forall2 node_entry (om_values items) (done_ ++ nodes) -> n = length done_ -> (length nodes < fuel)%nat ->
  nodes_loop fuel (Z.of_nat n) root m = Ok (fold_left (fun m node => om_set node.1 node.2 m) nodes m).
Proof.
  intros Hm Hv Hi Hd. revert n done_ m fuel. 
  assert (Hsize : size v = Z.of_nat (length items)).
  { destruct v as [c p]. cbn in Hi. subst p. by apply dense_size. }
  induction nodes as [|node nodes IH]; intros n done_ m fuel Hall Hn Hf;
    (destruct fuel as [|fuel]; [lia|]); cbn [nodes_loop];
    rewrite (known_nodes_found root members v) by done; cbn [obind]; rewrite Hsize;
    pose proof (Forall2_length _ _ _ Hall) as Hlen; unfold om_values in Hlen;
    rewrite length_map, length_app in Hlen; cbn [length] in Hlen, Hf.
  - rewrite (proj2 (Z.ltb_ge _ _)) by lia. done.
  - rewrite (proj2 (Z.ltb_lt _ _)) by lia.
    destruct (Forall2_lookup_r _ _ _ n node Hall) as (w & Hw & He).
    { rewrite lookup_app_r by lia. by rewrite Hn, Nat.sub_diag. }
    destruct (node_entry_text _ _ He) as [E0 E1].
    rewrite (known_node_found root members v items n w) by done. cbn [obind]. rewrite E0. cbn [obind].
    rewrite (known_node_found root members v items n w) by done. cbn [obind]. rewrite E1. cbn [obind fold_left].
    destruct Hd as [Hd HM]. rewrite to_uint32_id by (unfold is_uint32, UINT_MAX, INT_MAX in *; lia).
    replace (Z.of_nat n + 1) with (Z.of_nat (S n)) by lia.
    apply (IH (S n) (done_ ++ [node])); [|rewrite length_app; cbn; lia|lia].
    by rewrite <- app_assoc.
Qed.

Lemma nodes_of_spec root nodes : names_nodes root nodes -> nodes_of root = Ok (Some (map_of_nodes nodes)).
Proof.
  intros (members & v & items & Hm & Hv & Hi & Hd & Hall). unfold nodes_of.
  rewrite (known_nodes_found root members v) by done. cbn [obind].
  assert (Ht : type v = TarrayValue) by (unfold type; by rewrite Hi).
  unfold isArray, isInt, isBool, isNumeric, isIntegral, isDouble, is_type. rewrite Ht.
  rewrite (bool_decide_true (TarrayValue = TarrayValue)), !bool_decide_false by done. cbn [negb orb].
  assert (Hsize : size v = Z.of_nat (length items)).
  { destruct v as [c p]. cbn in Hi. subst p. by apply dense_size. }
  pose proof (Forall2_length _ _ _ Hall) as Hlen. unfold om_values in Hlen. rewrite length_map in Hlen.
  pose proof (nodes_loop_spec root members v items nodes 0 [] []) as Hloop. change (Z.of_nat 0) with 0 in Hloop.
  rewrite Hloop; [done..|]. rewrite Hsize. lia.
Qed.

(** A text without NUL that a document fills. *)
Definition nodes_document (contents : bytes) (nodes : list (bytes * bytes)) : Prop :=
  exists root, padded document contents root /\ no_nul contents /\ names_nodes root nodes.

Lemma parseJSON_spec contents nodes o h : nodes_document contents nodes ->
  run o h (parseJSON contents)
  = (h ++ [Ev (Log "Debug" (bs "Array with")) (o unit h (Log "Debug" (bs "Array with")))],
     Returned (map_of_nodes nodes)).
Proof.
  intros (root & Hdoc & Hn & Hnames). unfold parseJSON. rewrite cstr_id by done.
  destruct (parse_document Features_all false contents root nullValue Hdoc) as (r & Hp & Hr & _); [done|].
  change null with (mkValue noComments nullValue). rewrite Hp. cbn [lift pbind negb].
  rewrite Hr, (nodes_of_spec root nodes) by done. by cbn.
Qed.

(** ** Whom the node connects to *)

(** The process was not root when it asked. *)
Definition not_root (h : list event) : Prop := exists uid, uid <> 0 /\ Ev Getuid uid ∈ h.

Lemma not_root_stable : stable not_root.
Proof. intros h e (uid & Hu & Hin). exists uid. split; [done|]. apply elem_of_app. by left. Qed.

Definition local_endpoint : bytes := bs "tcp://127.0.0.1:12000".

Definition connects_locally (h : list event) (B : Type) (c : call B) : Prop :=
  match c with ZmqConnect address => not_root h \/ address = local_endpoint | _ => True end.

Definition whatever {A} (h : list event) (e : ending A) : Prop := True.

(** No call of [p] connects anywhere. *)
Definition connects_not {A} (p : prog A) : Prop :=
  forall h, ensures (fun _ B (c : call B) => match c with ZmqConnect _ => False | _ => True end) whatever h p.

Lemma connects_not_bind {A B} (p : prog A) (f : A -> prog B) :
  connects_not p -> (forall a, connects_not (f a)) -> connects_not (pbind p f).
Proof.
  intros Hp Hf h. eapply ensures_bind; [apply Hp|]. intros h' e _. destruct e; try done; apply Hf.
Qed.

Lemma connects_not_lift {A} (m : outcome A) : connects_not (lift m).
Proof. by destruct m. Qed.

Lemma connects_not_perform {B} (c : call B) :
  match c with ZmqConnect _ => False | _ => True end -> connects_not (perform c).
Proof. intros Hc h. cbn. split; [done|]. intros r. by destruct (replaces c r). Qed.

Lemma connects_not_ret {A} (a : A) : connects_not (Ret a).
Proof. done. Qed.

Lemma connects_not_crash {A} why : connects_not (@Crash A why).
Proof. done. Qed.

End Nodes.

Create HintDb dispel.
#[export] Hint Resolve connects_not_bind connects_not_lift connects_not_ret connects_not_crash : dispel.
#[export] Hint Extern 1 (connects_not (perform _)) => (apply connects_not_perform; exact I) : dispel.
#[export] Hint Extern 2 (connects_not (match ?b with _ => _ end)) => destruct b : dispel.

Section Connections.
Context {D : DoubleOps}.

Lemma read_nodes_connects_not : connects_not read_nodes.
Proof. unfold read_nodes, parseJSON, log. auto 12 with dispel. Qed.

#[local] Hint Resolve read_nodes_connects_not : dispel.

Lemma currentNodeUUID_connects_not : connects_not currentNodeUUID.
Proof. unfold currentNodeUUID, logFatal, log. auto 12 with dispel. Qed.

#[local] Hint Resolve currentNodeUUID_connects_not : dispel.

Lemma allKnownNodeUUIDs_connects_not : connects_not allKnownNodeUUIDs.
Proof. unfold allKnownNodeUUIDs, logFatal, log. auto 12 with dispel. Qed.

Lemma new_publisher_connects_not address channel : connects_not (new_publisher address channel).
Proof. unfold new_publisher, log. auto 12 with dispel. Qed.

Lemma new_subscriber_address address channel h :
  ensures (fun _ B (c : call B) => match c with ZmqConnect _ => False | _ => True end)
    (fun _ e => forall s, e = Returned s -> sub_address s = address) h (new_subscriber address channel).
Proof.
  unfold new_subscriber, log, assertion. destruct (negb _), (negb _); cbn; try done.
  split; [done|]. intros _. split; [done|]. by intros _ s [= <-].
Qed.

Lemma Publisher_startImpl_connects_not p : connects_not (Publisher_startImpl p).
Proof. unfold Publisher_startImpl, logFatal, log. auto 20 with dispel. Qed.

Lemma prepare_directories_connects_not uid : connects_not (prepare_directories uid).
Proof. unfold prepare_directories, log, skip. auto 20 with dispel. Qed.

Lemma zmqVersion_connects_not : connects_not zmqVersion.
Proof. unfold zmqVersion. auto 20 with dispel. Qed.

(** A program that does not connect, before one that connects locally. *)
Lemma locally_after {A B} (p : prog A) (f : A -> prog B) h :
  connects_not p -> (forall h a, ensures connects_locally whatever h (f a)) ->
  ensures connects_locally whatever h (pbind p f).
Proof.
  intros Hp Hf. eapply ensures_bind.
  - eapply ensures_impl; [|apply Hp]. by intros h' X [].
  - intros h' e _. destruct e; try done; apply Hf.
Qed.

(** The same where [P] holds and lasts. *)
Lemma locally_while {A B} (P : list event -> Prop) (p : prog A) (f : A -> prog B) h :
  stable P -> connects_not p -> P h ->
  (forall h a, P h -> ensures connects_locally (fun h _ => P h) h (f a)) ->
  ensures connects_locally (fun h _ => P h) h (pbind p f).
Proof.
  intros HP Hp Hh Hf. eapply ensures_bind.
  - eapply (ensures_stable P); [done|done| |apply Hp]. by intros h' X [].
  - intros h' e [Hh' _]. destruct e; try done; by apply Hf.
Qed.

Lemma locally_quiet {A} (P : list event -> Prop) (p : prog A) h :
  stable P -> connects_not p -> P h -> ensures connects_locally (fun h _ => P h) h p.
Proof.
  intros HP Hp Hh. eapply ensures_mono.
  - eapply (ensures_stable P); [done|done| |apply Hp]. by intros h' X [].
  - by intros h' e [Hh' _].
Qed.

Definition may_connect (address : bytes) (h : list event) : Prop := not_root h \/ address = local_endpoint.

Lemma may_connect_stable address : stable (may_connect address).
Proof. intros h e [H|H]; [left; by apply not_root_stable|by right]. Qed.

Lemma start_failed_connects_not : connects_not start_failed.
Proof. unfold start_failed. auto with dispel. Qed.

#[local] Hint Resolve may_connect_stable start_failed_connects_not : dispel.

Lemma Subscriber_start_locally s h : may_connect (sub_address s) h ->
  ensures connects_locally (fun h _ => may_connect (sub_address s) h) h (Subscriber_start s).
Proof.
  intros Hh. unfold Subscriber_start, log.
  do 3 (apply locally_while; [auto with dispel|auto with dispel|done|]; clear h Hh; intros h ? Hh).
  eapply ensures_bind with (R := fun h _ => may_connect (sub_address s) h).
  - cbn. split; [exact Hh|]. intros r. by apply may_connect_stable.
  - intros h' e Hh'. destruct e as [connected| | | |]; try done.
    apply locally_quiet; [auto with dispel|auto 20 with dispel|done].
Qed.

(** Every node of the map may be connected to. *)
Definition may_subscribe (map : QMap) (h : list event) : Prop :=
  not_root h \/ Forall (fun node => node.1 = DEFAULT_SYSTEM_ADDRESS) map.

Lemma subscribe_locally ip uuid map h :
  may_subscribe ((ip, uuid) :: map) h ->
  ensures connects_locally (fun h _ => may_subscribe map h) h (subscribe ip uuid).
Proof.
  intros Hh. assert (Hst : stable (may_subscribe ((ip, uuid) :: map))).
  { intros h' e [H|H]; [left; by apply not_root_stable|by right]. }
  unfold subscribe, log. 
  apply (ensures_mono _ (fun h _ => may_subscribe ((ip, uuid) :: map) h)).
  2:{ intros h' e [Hr|Hr]; [by left|right]. exact (Forall_inv_tail Hr). }
  apply locally_while; [done|auto with dispel|done|]. clear h Hh. intros h _ Hh.
  eapply ensures_bind.
  - eapply (ensures_stable (may_subscribe ((ip, uuid) :: map))); [done|done| |apply new_subscriber_address].
    by intros h' X [].
  - intros h' e [Hh' Hs]. destruct e as [s| | | |]; try done. specialize (Hs s eq_refl).
    eapply ensures_mono; [eapply (ensures_stable (may_subscribe ((ip, uuid) :: map)) connects_locally)|].
    + done.
    + done.
    + by intros.
    + apply Subscriber_start_locally. destruct Hh' as [Hr|Hr]; [by left|right].
      apply Forall_inv in Hr. cbn in Hr. by rewrite Hs, Hr.
    + by intros h'' e [? _].
Qed.

Lemma subscribe_all_locally map h :
  may_subscribe map h -> ensures connects_locally whatever h (subscribe_all map).
Proof.
  revert h. induction map as [|[ip uuid] map IH]; intros h Hh; [done|]. cbn [subscribe_all].
  eapply ensures_bind; [by apply subscribe_locally|].
  intros h' e Hh'. destruct e; try done. eapply ensures_bind; [by apply IH|].
  intros h'' e _. by destruct e.
Qed.

Definition at_most_local (map : QMap) : Prop :=
  map = [] \/ exists node, map = [(DEFAULT_SYSTEM_ADDRESS, node)].

Lemma set_local node map : at_most_local map ->
  om_set DEFAULT_SYSTEM_ADDRESS node map = [(DEFAULT_SYSTEM_ADDRESS, node)].
Proof. by intros [->|[x ->]]. Qed.

Lemma under_default_address_last nodes node : last (om_values nodes) = Some node ->
  under_default_address nodes = [(DEFAULT_SYSTEM_ADDRESS, node)].
Proof.
  unfold under_default_address. generalize (om_values nodes). clear nodes. intros l Hl.
  apply last_Some in Hl as [l' ->]. rewrite fold_left_app. cbn [fold_left]. apply set_local.
  induction l' as [|x l' IH] using rev_ind; [by left|]. right. exists x.
  rewrite fold_left_app. cbn [fold_left]. by apply set_local.
Qed.

Lemma under_default_address_local nodes : at_most_local (under_default_address nodes).
Proof.
  destruct (last (om_values nodes)) as [node|] eqn:E.
  - right. exists node. by apply under_default_address_last.
  - apply last_None in E. unfold under_default_address. rewrite E. by left.
Qed.

Lemma readNodesData_local h :
  ensures connects_locally
    (fun h e => forall map, e = Returned map -> may_subscribe map h) h readNodesData.
Proof.
  unfold readNodesData. cbn [pbind perform ensures]. split; [done|]. intros uid. cbn [replaces].
  destruct (Z.eqb_spec uid 0) as [->|Hu].
  - eapply (ensures_bind _ _ _ whatever).
    + eapply ensures_impl; [|apply allKnownNodeUUIDs_connects_not]. by intros h' X [].
    + intros h' e _. destruct e as [nodes| | | |]; try done. cbn. split; [done|]. intros r m E.
      injection E as <-. right. destruct (under_default_address_local nodes) as [-> | [node ->]]; by repeat constructor.
  - cbn. intros map _. left. exists uid. split; [done|]. apply elem_of_app. right. by left.
Qed.

Lemma main_locally argv h : ensures connects_locally whatever h (main argv).
Proof.
  unfold main, log. destruct (dispel_options _ _ _); [|by cbn].
  apply locally_after; [auto with dispel|]. clear h. intros h uid.
  apply locally_after; [apply prepare_directories_connects_not|]. clear h. intros h _.
  apply locally_after; [auto with dispel|]. clear h. intros h _.
  apply locally_after; [apply zmqVersion_connects_not|]. clear h. intros h v.
  apply locally_after; [auto with dispel|]. clear h. intros h _.
  apply locally_after; [auto with dispel|]. clear h. intros h nodeID.
  apply locally_after; [apply new_publisher_connects_not|]. clear h. intros h publisher.
  apply locally_after; [apply Publisher_startImpl_connects_not|]. clear h. intros h _.
  eapply ensures_bind; [apply readNodesData_local|]. intros h' e Hm.
  destruct e as [map| | | |]; try done. specialize (Hm map eq_refl).
  eapply ensures_bind; [by apply subscribe_all_locally|]. intros h'' e _.
  by destruct e.
Qed.

(** ** The nodes that are read *)

Lemma om_set_not_empty {V} (k : bytes) (v : V) m : om_set k v m <> [].
Proof. intros E. pose proof (om_find_set_eq k v m) as H. by rewrite E in H. Qed.

Lemma map_of_nodes_not_empty nodes : nodes <> [] -> map_of_nodes nodes <> [].
Proof.
  destruct nodes as [|node nodes _] using rev_ind; [done|]. intros _.
  unfold map_of_nodes. rewrite fold_left_app. apply om_set_not_empty.
Qed.

Lemma run_bind {A B} o h (p : prog A) (f : A -> prog B) :
  run o h (pbind p f) =
    match run o h p with
    | (h', Returned a) => run o h' (f a)
    | (h', Exited code) => (h', Exited code)
    | (h', Crashed why) => (h', Crashed why)
    | (h', Diverged) => (h', Diverged)
    | (h', Replaced) => (h', Replaced)
    end.
Proof.
  revert h. induction p as [a|code|why| |X c k IH]; intros h; cbn; try done.
  destruct (replaces c (o X h c)); [done|apply IH].
Qed.

(** The file of the nodes holds the document. *)
Definition nodes_on_file (o : oracle) (nodes : list (bytes * bytes)) : Prop :=
  exists file, (forall h, o _ h (ReadFile DISPEL_NODE_IDENTIFICATION_FILE) = file)
    /\ nodes_document (readFileContents file) nodes.

Lemma read_nodes_run o h nodes : nodes_on_file o nodes ->
  exists h', run o h read_nodes = (h', Returned (map_of_nodes nodes)).
Proof.
  intros (file & Hf & Hd). unfold read_nodes. cbn [pbind perform run replaces]. rewrite Hf.
  rewrite (parseJSON_spec _ nodes) by done. by eexists.
Qed.

Lemma allKnownNodeUUIDs_run o h nodes : nodes_on_file o nodes -> nodes <> [] ->
  exists h', run o h allKnownNodeUUIDs = (h', Returned (map_of_nodes nodes)).
Proof.
  intros Hf Hne. unfold allKnownNodeUUIDs. rewrite run_bind.
  destruct (read_nodes_run o h nodes Hf) as [h' ->].
  apply map_of_nodes_not_empty in Hne. destruct (map_of_nodes nodes); [done|]. by eexists.
Qed.

End Connections.

(** The file of known nodes is read as it is meant: when its lines hold a
    JSON object whose member [knownNodes] is an array of address and identifier
    pairs, [allKnownNodeUUIDs] answers exactly these pairs (the last one of an
    address counts), and [currentNodeUUID] the identifier of 127.0.0.1, or the
    address itself when it is not among them. *)
Theorem known_nodes_are_read `{D : DoubleOps} o h nodes :
  nodes_on_file o nodes -> nodes <> [] ->
  (run o h allKnownNodeUUIDs).2 = Returned (map_of_nodes nodes)
  /\ (run o h currentNodeUUID).2
     = Returned (default DEFAULT_SYSTEM_ADDRESS (om_find DEFAULT_SYSTEM_ADDRESS (map_of_nodes nodes))).
Proof.
  intros Hf Hne. split.
  - by destruct (allKnownNodeUUIDs_run o h nodes Hf Hne) as [h' ->].
  - unfold currentNodeUUID. rewrite run_bind. destruct (read_nodes_run o h nodes Hf) as [h' ->].
    apply map_of_nodes_not_empty in Hne. destruct (map_of_nodes nodes) as [|node map]; [done|].
    by destruct (om_find _ _).
Qed.

(** As root, Dispel connects to no node but its own publisher: every address
    it connects to is the one of 127.0.0.1, whatever nodes the file names, since
    [readNodesData] files all of them under that address. *)
Theorem root_connects_to_itself `{D : DoubleOps} argv o pre address connected post :
  (run o [] (main argv)).1 = pre ++ Ev (ZmqConnect address) connected :: post ->
  not_root pre \/ address = local_endpoint.
Proof.
  intros E. destruct (run_ensures connects_locally whatever o (main argv) []) as [H _];
    [apply respects_nil|apply main_locally|]. exact (H pre _ post E).
Qed.

(** ** A node file *)

Definition node_name (n : Z) : bytes := bs "{40a8e817-" ++ show_Z n ++ bs "}".

Definition node_pair (ip uuid : bytes) : bytes := bs "[" ++ quoted ip ++ bs ", " ++ quoted uuid ++ bs "]".

Definition nodes_file : bytes :=
  bs "{ " ++ quoted knownNodesIdentifier ++ bs ": [" ++ [LF]
  ++ node_pair (bs "127.0.0.1") (node_name 1) ++ bs "," ++ [LF]
  ++ node_pair (bs "192.168.0.9") (node_name 2) ++ bs "] }" ++ [LF].

Definition two_nodes : list (bytes * bytes) :=
  [(bs "127.0.0.1", node_name 1); (bs "192.168.0.9", node_name 2)].

Section NodeFile.
Context {D : DoubleOps}.

Definition text_value (s : bytes) : Value := mk (stringValue (Some (cstr s))).

Lemma node_text_document s : Forall (fun c => c <> DQUOTE /\ c <> BACKSLASH) s ->
  document (quoted s) (text_value s).
Proof. intros Hs. by apply document_string, plain_literal. Qed.

Lemma node_pair_document ip uuid :
  Forall (fun c => c <> DQUOTE /\ c <> BACKSLASH) (ip ++ uuid) ->
  document (node_pair ip uuid) (mk (arrayValue (indexed 0 [text_value ip; text_value uuid]))).
Proof.
  intros [Hip Huuid]%Forall_app. unfold node_pair.
  replace (bs "[" ++ quoted ip ++ bs ", " ++ quoted uuid ++ bs "]")
    with ("["%char :: (quoted ip ++ ","%char :: bs " " ++ quoted uuid) ++ bs "]")
    by (cbn [app]; rewrite <- !app_assoc; reflexivity).
  apply document_array; [|by cbn].
  apply separated_more.
  - rewrite <- (app_nil_r (quoted ip)). apply (padded_intro []); [constructor|by apply node_text_document|constructor].
  - apply separated_one. rewrite <- (app_nil_r (quoted uuid)).
    apply (padded_intro (bs " ")); [by repeat constructor|by apply node_text_document|constructor].
Qed.

Definition nodes_root : Value :=
  mk (objectValue (object_of [(knownNodesIdentifier,
    mk (arrayValue (indexed 0
      (map (fun node => mk (arrayValue (indexed 0 [text_value node.1; text_value node.2]))) two_nodes))))])).

Lemma nodes_file_document : padded document (readFileContents (Some nodes_file)) nodes_root.
Proof.
  assert (Hn : blanks []) by constructor.
  assert (E : readFileContents (Some nodes_file)
    = [] ++ ("{"%char :: (bs " " ++ (quoted knownNodesIdentifier ++ [] ++ ":"%char :: bs " " ++
        ("["%char :: (([LF] ++ node_pair (bs "127.0.0.1") (node_name 1) ++ []) ++ ","%char ::
            ([LF] ++ node_pair (bs "192.168.0.9") (node_name 2) ++ [])) ++ bs "]") ++ bs " ") ++ []) ++ bs "}")
      ++ [LF; LF]) by reflexivity.
  rewrite E. apply padded_intro; [done| |by repeat constructor].
  apply document_object, separated_one, padded_intro; [by repeat constructor| |done].
  apply member_intro; [|done|].
  - apply plain_literal. repeat constructor; by intros.
  - apply padded_intro; [by repeat constructor| |by repeat constructor].
    apply document_array; [|by cbn]. 
    apply separated_more; [|apply separated_one]; (apply padded_intro; [by repeat constructor| |done]);
      apply node_pair_document; repeat constructor; by intros.
Qed.

Lemma nodes_file_names : nodes_document (readFileContents (Some nodes_file)) two_nodes.
Proof.
  exists nodes_root. split; [apply nodes_file_document|]. split; [by repeat constructor; intros|].
  eexists _, _, _. split; [reflexivity|]. split; [reflexivity|]. split; [reflexivity|].
  split; [by split_and!|]. repeat constructor; eexists _, _, _; split_and!; try reflexivity;
    repeat constructor; by intros.
Qed.

End NodeFile.

(** An operating system with this file, on which every call succeeds. *)
Definition with_nodes : oracle := fun B h c =>
  match c in call X return X -> X with
  | ReadFile _ => fun _ => Some nodes_file
  | _ => fun r => r
  end (LauncherTheorems.obliging (-1) B h c).

Example two_subscriptions :
  omap (fun e => match e with Ev (ZmqConnect a) _ => Some a | _ => None end)
    (run with_nodes [] (main (D := Binary64.ops) [bs "dispel"])).1 = [local_endpoint].
Proof. vm_compute. reflexivity. Qed.

Lemma with_nodes_on_file `{D : DoubleOps} : nodes_on_file with_nodes two_nodes.
Proof. exists (Some nodes_file). split; [done|apply nodes_file_names]. Qed.

Lemma known_nodes_are_read_witness :
  (run with_nodes [] (allKnownNodeUUIDs (D := Binary64.ops))).2 = Returned two_nodes
  /\ (run with_nodes [] (currentNodeUUID (D := Binary64.ops))).2 = Returned (node_name 1).
Proof.
  apply (known_nodes_are_read (D := Binary64.ops) with_nodes [] two_nodes);
    [apply with_nodes_on_file|discriminate].
Defined.

(** The run of [main] with these answers. *)
Definition node_run : list event := (run with_nodes [] (main (D := Binary64.ops) [bs "dispel"])).1.

Definition is_connection (e : event) : bool := match e with Ev (ZmqConnect _) _ => true | _ => false end.

Fixpoint until_connection (h : list event) : nat :=
  match h with
  | [] => 0
  | e :: h' => if is_connection e then 0 else S (until_connection h')
  end.

Lemma root_connects_to_itself_witness :
  let n := until_connection node_run in
  not_root (take n node_run) \/ local_endpoint = local_endpoint.
Proof.
  apply (root_connects_to_itself (D := Binary64.ops) [bs "dispel"] with_nodes
           (take (until_connection node_run) node_run) local_endpoint true
           (drop (S (until_connection node_run)) node_run)).
  vm_compute. reflexivity.
Defined.
