(* ===== verification/ZmqTables.v ===== *)
(** * Tables of subnodes ([lib/zeromq/trie.cpp], [mtrie.cpp])

    The nodes of both tries of ZeroMQ keep their subnodes in the same way: [min]
    is the smallest character with a slot, [count] the number of slots, and
    [next] a union of one pointer ([count] is 1) and of an allocated table of
    pointers ([count] is above 1).  Reading the member of the union that was not
    written last is an abort, and so is an index outside the table.  Characters
    are the values of [unsigned char]s.  At the end, the order of the keys of a
    trie. *)

From stdpp Require Import tactics sorting gmap.
From S2P Require Import Prelude.

(** ** Data *)

Inductive Next (A : Type) : Type :=
| unset
| node (p : option A)
| table (ps : list (option A)).
Arguments unset {A}.
Arguments node {A} p.
Arguments table {A} ps.

Record Table (A : Type) : Type := mkTable {
  min : Z; count : Z; live_nodes : Z; next : Next A
}.
Arguments mkTable {A} _ _ _ _.
Arguments min {A} _.
Arguments count {A} _.
Arguments live_nodes {A} _.
Arguments next {A} _.

Section Tables.
Context {A : Type}.
Implicit Types (T : Table A) (c : Z) (ps : list (option A)).

(** What the constructors of the nodes set. *)
Definition empty_table : Table A := mkTable 0 0 0 unset.

Definition node_of T : outcome (option A) :=
  match next T with node p => Ok p | _ => Aborted "next.node" end.

Definition table_of T : outcome (list (option A)) :=
  match next T with table ps => Ok ps | _ => Aborted "next.table" end.

Definition get_at (i : Z) ps : outcome (option A) :=
  match ps !! Z.to_nat i with
  | Some p => if 0 <=? i then Ok p else Aborted "next.table index"
  | None => Aborted "next.table index"
  end.

Definition set_at (i : Z) (p : option A) ps : outcome (list (option A)) :=
  let! _ := get_at i ps in Ok (<[Z.to_nat i := p]> ps).

(** [count] entries of a table, from the one at [i]: what [memmove] copies. *)
Definition entries (i count : Z) ps : outcome (list (option A)) :=
  let! _ := assertion ((0 <=? i) && (0 <=? count) && (i + count <=? Z.of_nat (length ps))) "memmove" in
  Ok (take (Z.to_nat count) (drop (Z.to_nat i) ps)).

(** ** Operations *)

Definition out_of_range c T : bool := (c <? min T) || (min T + count T <=? c).

(** The extension of the table to a character out of its range. *)
Definition extend c T : outcome (Table A) :=
  if negb (out_of_range c T) then Ok T
  else if count T =? 0 then Ok (mkTable c 1 (live_nodes T) (node None))
  else if count T =? 1 then
    let! oldp := node_of T in
    let count := to_uint16 ((if min T <? c then c - min T else min T - c) + 1) in
    let min' := Z.min (min T) c in
    let! ps := set_at (min T - min') oldp (replicate (Z.to_nat count) None) in
    Ok (mkTable min' count (live_nodes T) (table ps))
  else if min T <? c then
    let! ps := table_of T in
    let count' := to_uint16 (c - min T + 1) in
    let! kept := entries 0 (count T) ps in
    Ok (mkTable (min T) count' (live_nodes T)
          (table (kept ++ replicate (Z.to_nat (count' - count T)) None)))
  else
    let! ps := table_of T in
    let count' := to_uint16 (min T + count T - c) in
    let! kept := entries 0 (count T) ps in
    Ok (mkTable c count' (live_nodes T) (table (replicate (Z.to_nat (min T - c)) None ++ kept))).

(** The pointer for a character in the range, and writing it. *)
Definition slot c T : outcome (option A) :=
  if count T =? 1 then node_of T
  else let! ps := table_of T in get_at (c - min T) ps.

Definition put c (p : option A) T : outcome (Table A) :=
  if count T =? 1 then Ok (mkTable (min T) (count T) (live_nodes T) (node p))
  else
    let! ps := table_of T in
    let! ps := set_at (c - min T) p ps in
    Ok (mkTable (min T) (count T) (live_nodes T) (table ps)).

Definition with_live (n : Z) T : Table A := mkTable (min T) (count T) n (next T).

(** [if (!next...) { next... = new ...; ++live_nodes; }]; whether it was created. *)
Definition create (fresh : A) c T : outcome (bool * Table A) :=
  let! p := slot c T in
  match p with
  | Some _ => Ok (false, T)
  | None => let! T := put c (Some fresh) T in Ok (true, with_live (to_uint16 (live_nodes T + 1)) T)
  end.

(** The first pointer that is not null, from the index [i] on. *)
Fixpoint first_live (i : Z) ps : option Z :=
  match ps with
  | [] => None
  | Some _ :: _ => Some i
  | None :: ps' => first_live (i + 1) ps'
  end.

(** A walk over the pointers that are not null; the characters start at [c]. *)
Definition each {B} (f : Z -> A -> outcome (list B)) : Z -> list (option A) -> outcome (list B) :=
  fix go (c : Z) ps :=
    match ps with
    | [] => Ok []
    | Some t :: ps' => let! xs := f c t in let! ys := go (c + 1) ps' in Ok (xs ++ ys)
    | None :: ps' => go (c + 1) ps'
    end.

(** ** The children *)

Definition slots T : list (option A) :=
  match next T with unset => [] | node p => [p] | table ps => ps end.

(** The subnode of a character. *)
Definition child c T : option A :=
  if c <? min T then None else mjoin (slots T !! Z.to_nat (c - min T)).

Fixpoint lives ps : Z :=
  match ps with
  | [] => 0
  | Some _ :: ps' => 1 + lives ps'
  | None :: ps' => lives ps'
  end.

(** The first and the last pointer are not null. *)
Definition tight ps : Prop :=
  (exists x, head ps = Some (Some x)) /\ (exists x, last ps = Some (Some x)).

(** The compact form: nothing, one pointer, or a table of at least two pointers
    that starts and ends with one. *)
Definition shape T : Prop :=
  0 <= min T <= 255 /\
  match next T with
  | unset | node None => count T = 0 /\ live_nodes T = 0
  | node (Some _) => count T = 1 /\ live_nodes T = 1
  | table ps =>
      count T = Z.of_nat (length ps) /\ min T + count T <= 256
      /\ live_nodes T = lives ps /\ 2 <= live_nodes T /\ tight ps
  end.

(** ** Lists of pointers *)

Lemma lives_app ps qs : lives (ps ++ qs) = lives ps + lives qs.
Proof. induction ps as [|[x|] ps IH]; cbn [lives app]; lia. Qed.

Lemma lives_replicate n : lives (replicate n None) = 0.
Proof. by induction n. Qed.

Lemma lives_bounds ps : 0 <= lives ps <= Z.of_nat (length ps).
Proof. induction ps as [|[x|] ps IH]; cbn [lives length]; lia. Qed.

Lemma lives_insert ps i (p q : option A) : ps !! i = Some q ->
  lives (<[i := p]> ps) = lives ps + (if p then 1 else 0) - (if q then 1 else 0).
Proof.
  revert i. induction ps as [|r ps IH]; intros [|i] Hi; cbn in Hi; try done.
  - injection Hi as ->. destruct p, q; cbn [insert list_insert lives]; lia.
  - change (<[S i := p]> (r :: ps)) with (r :: <[i := p]> ps). cbn [lives].
    rewrite (IH i Hi). destruct r; lia.
Qed.

Lemma tight_ends ps : tight ps <->
  (exists x, ps !! 0%nat = Some (Some x)) /\ exists x, ps !! pred (length ps) = Some (Some x).
Proof. unfold tight. by rewrite head_lookup, last_lookup. Qed.

Lemma tight_insert ps i x : tight ps -> tight (<[i := Some x]> ps).
Proof.
  rewrite !tight_ends, length_insert. intros [[y Hy] [z Hz]].
  split; [destruct (decide (i = 0%nat)) as [->|Hi]|destruct (decide (i = pred (length ps))) as [Hi|Hi]].
  - exists x. apply list_lookup_insert_eq. by apply lookup_lt_Some in Hy.
  - exists y. by rewrite list_lookup_insert_ne by done.
  - exists x. rewrite Hi. apply list_lookup_insert_eq. by apply lookup_lt_Some in Hz.
  - exists z. by rewrite list_lookup_insert_ne by done.
Qed.

Lemma tight_lives ps : tight ps -> (2 <= length ps)%nat -> 2 <= lives ps.
Proof.
  intros [[x Hx] [y Hy]] Hl. destruct ps as [|p ps]; [done|]. cbn in Hx. injection Hx as ->.
  destruct ps as [|q ps _] using rev_ind; [cbn in Hl; lia|].
  rewrite app_comm_cons, last_snoc in Hy. injection Hy as ->.
  cbn [lives app]. rewrite lives_app. cbn. pose proof (lives_bounds ps). lia.
Qed.

(** ** Children *)

Lemma child_lookup c T : min T <= c -> child c T = mjoin (slots T !! Z.to_nat (c - min T)).
Proof. intros H. unfold child. by rewrite (proj2 (Z.ltb_ge _ _)). Qed.

Lemma child_below c T : c < min T -> child c T = None.
Proof. intros H. unfold child. by rewrite (proj2 (Z.ltb_lt _ _)). Qed.

Lemma child_above c T : min T + Z.of_nat (length (slots T)) <= c -> child c T = None.
Proof.
  intros H. rewrite child_lookup by lia. by rewrite lookup_ge_None_2 by lia.
Qed.

Lemma child_range c T x : child c T = Some x -> min T <= c < min T + Z.of_nat (length (slots T)).
Proof.
  intros H. destruct (Z.lt_ge_cases c (min T)); [by rewrite child_below in H|].
  destruct (Z.lt_ge_cases c (min T + Z.of_nat (length (slots T)))); [lia|].
  by rewrite child_above in H.
Qed.

(** The state after [extend]: the character is in the range, and only its own
    pointer may be missing at an end. *)
Definition loose c T : Prop :=
  0 <= min T /\ min T <= c < min T + count T /\ min T + count T <= 256
  /\ count T = Z.of_nat (length (slots T)) /\ live_nodes T = lives (slots T)
  /\ match next T with unset => False | node _ => True | table ps => (2 <= length ps)%nat end
  /\ forall x, tight (<[Z.to_nat (c - min T) := Some x]> (slots T)).

Lemma shape_empty : shape empty_table.
Proof. split; [cbn; lia|done]. Qed.

Lemma shape_loose c T : shape T -> out_of_range c T = false -> loose c T.
Proof.
  destruct T as [m n l [|[x|]|ps]]; unfold shape, out_of_range, loose; cbn; intros [Hm H] Hr; try lia.
  - destruct H as [-> ->]. assert (c = m) as -> by lia. rewrite Z.sub_diag.
    split_and!; try (lia || done). intros y. split; by eexists.
  - destruct H as (-> & Hb & -> & H2 & Ht). pose proof (lives_bounds ps).
    split_and!; try (lia || done). intros y. by apply tight_insert.
Qed.

Lemma loose_shape c T x : loose c T -> child c T = Some x -> shape T.
Proof.
  intros (H0 & Hc & Hb & Hn & Hl & Hk & Ht) Hx. rewrite child_lookup in Hx by lia.
  destruct (slots T !! Z.to_nat (c - min T)) as [p|] eqn:E; [|done]. cbn in Hx. subst p.
  specialize (Ht x). rewrite list_insert_id in Ht by done.
  destruct T as [m n l [|[y|]|ps]]; unfold shape; cbn in *; try done.
  - split; lia.
  - destruct Ht as [[z Hz] _]. done.
  - split; [lia|]. split_and!; try (lia || done). rewrite Hl. by apply tight_lives.
Qed.

Lemma shape_in_range c T x : shape T -> child c T = Some x -> out_of_range c T = false.
Proof.
  intros [Hm H] Hx. pose proof (child_range c T x Hx) as Hr. unfold out_of_range.
  destruct T as [m n l [|[y|]|ps]]; cbn in *; try lia.
  assert (c = m) as -> by lia. rewrite child_lookup in Hx by (cbn; lia). cbn in Hx.
  by rewrite Z.sub_diag in Hx.
Qed.

Lemma child_loose c T x : shape T -> child c T = Some x -> loose c T.
Proof. intros Hs Hx. apply shape_loose; [done|]. by eapply shape_in_range. Qed.

(** ** What the operations do *)

Lemma get_at_ok i ps p : 0 <= i -> ps !! Z.to_nat i = Some p -> get_at i ps = Ok p.
Proof. intros H0 Hp. unfold get_at. rewrite Hp. by rewrite (proj2 (Z.leb_le _ _)). Qed.

Lemma set_at_ok i p ps : 0 <= i < Z.of_nat (length ps) -> set_at i p ps = Ok (<[Z.to_nat i := p]> ps).
Proof.
  intros Hi. unfold set_at. destruct (lookup_lt_is_Some_2 ps (Z.to_nat i)) as [q Hq]; [lia|].
  by rewrite (get_at_ok i ps q) by (done || lia).
Qed.

Lemma entries_ok i n ps : 0 <= i -> 0 <= n -> i + n <= Z.of_nat (length ps) ->
  entries i n ps = Ok (take (Z.to_nat n) (drop (Z.to_nat i) ps)).
Proof.
  intros. unfold entries. rewrite !(proj2 (Z.leb_le _ _)) by lia. done.
Qed.

Lemma entries_all n ps : n = Z.of_nat (length ps) -> entries 0 n ps = Ok ps.
Proof.
  intros ->. rewrite entries_ok by lia. by rewrite drop_0, take_ge by lia.
Qed.

Lemma lookup_replicate_None (n i : nat) : mjoin (replicate n (@None A) !! i) = None.
Proof. destruct (replicate n None !! i) eqn:E; [|done]. by apply lookup_replicate in E as [-> _]. Qed.

Lemma lives_none ps (i : nat) : lives ps = 0 -> mjoin (ps !! i) = None.
Proof.
  intros H. destruct (ps !! i) as [[x|]|] eqn:E; [|done..]. exfalso.
  apply take_drop_middle in E. rewrite <- E, lives_app in H. cbn [lives] in H.
  pose proof (lives_bounds (take i ps)). pose proof (lives_bounds (drop (S i) ps)). lia.
Qed.

Lemma child_none c T : lives (slots T) = 0 -> child c T = None.
Proof. intros H. unfold child. destruct (c <? min T); [done|by apply lives_none]. Qed.

(** A single pointer, moved into a table. *)
Lemma widen_loose c m x n : 0 <= c < 256 -> 0 <= m < 256 -> c <> m ->
  n = (if m <? c then c - m else m - c) + 1 ->
  let T := mkTable (Z.min m c) n 1
             (table (<[Z.to_nat (m - Z.min m c) := Some x]> (replicate (Z.to_nat n) None))) in
  loose c T /\ forall c', child c' T = if decide (c' = m) then Some x else None.
Proof.
  intros Hc Hm Hne Hn T.
  assert (Hlen : length (slots T) = Z.to_nat n) by (cbn; by rewrite length_insert, length_replicate).
  assert (Hn' : n = Z.max m c - Z.min m c + 1) by (destruct (Z.ltb_spec m c); lia). clear Hn.
  assert (Hi : forall i, (i < Z.to_nat n)%nat -> slots T !! i
      = Some (if decide (i = Z.to_nat (m - Z.min m c)) then Some x else None)).
  { intros i Hi. cbn. destruct (decide (i = Z.to_nat (m - Z.min m c))) as [->|Hne'].
    - apply list_lookup_insert_eq. by rewrite length_replicate.
    - rewrite list_lookup_insert_ne by done. by apply lookup_replicate_2. }
  split.
  - unfold loose. rewrite Hlen. change (min T) with (Z.min m c). change (count T) with n.
    change (live_nodes T) with 1. split_and!; try lia; [..|cbn; rewrite length_insert, length_replicate; lia|].
    + unfold T, slots. cbn [next]. rewrite (lives_insert _ _ _ None) by (apply lookup_replicate_2; lia).
      by rewrite lives_replicate.
    + intros y. rewrite tight_ends, length_insert, Hlen.
      assert (Hlk : forall i, (i < Z.to_nat n)%nat -> i = Z.to_nat (m - Z.min m c) \/ i = Z.to_nat (c - Z.min m c) ->
        exists z, <[Z.to_nat (c - Z.min m c) := Some y]> (slots T) !! i = Some (Some z)).
      { intros i Hlt [E|E].
        - exists x. rewrite list_lookup_insert_ne by lia. rewrite Hi by done. by rewrite decide_True.
        - exists y. rewrite E. apply list_lookup_insert_eq. rewrite Hlen. lia. }
      split; apply Hlk; lia.
  - intros c'. destruct (Z.lt_ge_cases c' (Z.min m c)) as [Hb|Hb].
    + rewrite child_below by done. by rewrite decide_False by lia.
    + rewrite child_lookup by done. change (min T) with (Z.min m c).
      destruct (Z.lt_ge_cases c' (Z.min m c + n)) as [Ha|Ha].
      * rewrite Hi by lia. cbn. destruct (decide (c' = m)) as [->|Hne']; [by rewrite decide_True|].
        by rewrite decide_False by lia.
      * rewrite lookup_ge_None_2 by lia. by rewrite decide_False by lia.
Qed.

Lemma extend_spec c T : shape T -> 0 <= c < 256 ->
  exists T1, extend c T = Ok T1 /\ loose c T1 /\ forall c', child c' T1 = child c' T.
Proof.
  intros Hs Hc. pose proof Hs as [Hm Hn]. unfold extend.
  destruct (out_of_range c T) eqn:Er; cbn [negb]; [|exists T; by split_and!; [|apply shape_loose|]].
  destruct T as [m n l [|[x|]|ps]]; cbn [min count live_nodes next] in *.
  1,3: destruct Hn as [-> ->]; eexists; split; [reflexivity|]; split;
    [unfold loose; cbn; split_and!; try (lia || done); intros y; rewrite Z.sub_diag; split; by eexists
    |intros c'; by rewrite !child_none].
  - destruct Hn as [-> ->]. assert (Hne : c <> m) by (unfold out_of_range in Er; cbn in Er; lia).
    cbn [Z.eqb node_of next obind]. rewrite to_uint16_id by (destruct (Z.ltb_spec m c); lia).
    destruct (widen_loose c m x _ Hc ltac:(lia) Hne eq_refl) as [Hl Hch].
    rewrite set_at_ok by (rewrite length_replicate; destruct (Z.ltb_spec m c); lia).
    eexists. split; [reflexivity|]. split; [exact Hl|]. intros c'. rewrite Hch.
    case_decide as Hd; unfold child; cbn.
    + subst c'. rewrite (proj2 (Z.ltb_ge _ _)) by lia. by rewrite Z.sub_diag.
    + destruct (Z.ltb_spec c' m); [done|]. by rewrite lookup_ge_None_2 by (cbn; lia).
  - destruct Hn as (-> & Hb & -> & H2 & Ht). pose proof (lives_bounds ps) as Hlb.
    unfold out_of_range in Er. cbn in Er.
    rewrite (proj2 (Z.eqb_neq _ 0)), (proj2 (Z.eqb_neq _ 1)) by lia.
    apply tight_ends in Ht as [[y Hy] [z Hz]].
    destruct (Z.ltb_spec m c) as [Hlt|Hge]; cbn [table_of next obind];
      rewrite to_uint16_id, entries_all by (done || lia); cbn [obind]; eexists; (split; [reflexivity|]).
    + set (k := Z.to_nat (c - m + 1 - Z.of_nat (length ps))). split.
      * unfold loose. cbn [min count live_nodes next slots].
        rewrite length_app, length_replicate, lives_app, lives_replicate.
        split_and!; try lia. intros w. apply tight_ends.
        rewrite length_insert, length_app, length_replicate. split.
        -- exists y. rewrite list_lookup_insert_ne by lia. rewrite lookup_app_l by lia. done.
        -- exists w. replace (pred (length ps + k)) with (Z.to_nat (c - m)) by lia.
           apply list_lookup_insert_eq. rewrite length_app, length_replicate. lia.
      * intros c'. unfold child. cbn [min slots next]. destruct (c' <? m); [done|].
        destruct (Nat.lt_ge_cases (Z.to_nat (c' - m)) (length ps)).
        -- by rewrite lookup_app_l.
        -- rewrite lookup_app_r by done. rewrite lookup_replicate_None.
           by rewrite lookup_ge_None_2.
    + set (k := Z.to_nat (m - c)). assert (c <> m) by lia. split.
      * unfold loose. cbn [min count live_nodes next slots].
        rewrite length_app, length_replicate, lives_app, lives_replicate.
        split_and!; try lia. intros w. apply tight_ends.
        rewrite length_insert, length_app, length_replicate. split.
        -- exists w. rewrite Z.sub_diag. apply list_lookup_insert_eq.
           rewrite length_app, length_replicate. lia.
        -- exists z. rewrite list_lookup_insert_ne by lia. rewrite lookup_app_r by (rewrite length_replicate; lia).
           rewrite length_replicate. by replace (pred (k + length ps) - k)%nat with (pred (length ps)) by lia.
      * intros c'. unfold child. cbn [min slots next].
        destruct (Z.ltb_spec c' c); [by rewrite (proj2 (Z.ltb_lt _ _)) by lia|].
        destruct (Z.ltb_spec c' m).
        -- rewrite lookup_app_l by (rewrite length_replicate; lia). apply lookup_replicate_None.
        -- rewrite lookup_app_r by (rewrite length_replicate; lia). rewrite length_replicate.
           by replace (Z.to_nat (c' - c) - k)%nat with (Z.to_nat (c' - m)) by lia.
Qed.

Lemma loose_lookup c T : loose c T -> slots T !! Z.to_nat (c - min T) = Some (child c T).
Proof.
  intros (H0 & Hc & Hb & Hn & _). rewrite child_lookup by lia.
  destruct (lookup_lt_is_Some_2 (slots T) (Z.to_nat (c - min T))) as [p Hp]; [lia|]. by rewrite Hp.
Qed.

Lemma slot_spec c T : loose c T -> slot c T = Ok (child c T).
Proof.
  intros Hl. pose proof (loose_lookup c T Hl) as Hp. destruct Hl as (H0 & Hc & Hb & Hn & _ & Hk & _).
  unfold slot. destruct T as [m n l [|p|ps]]; cbn [min count live_nodes next slots] in *; [done| |].
  - cbn in Hn. subst n. cbn. assert (c = m) as E by lia. rewrite E, Z.sub_diag in Hp. cbn in Hp.
    injection Hp as Hp. by rewrite E, <- Hp.
  - rewrite (proj2 (Z.eqb_neq _ _)) by lia. cbn [table_of next obind]. by apply get_at_ok; [lia|].
Qed.

Lemma put_spec c p T : loose c T ->
  exists T', put c p T = Ok T' /\ min T' = min T /\ count T' = count T /\ live_nodes T' = live_nodes T
    /\ slots T' = <[Z.to_nat (c - min T) := p]> (slots T)
    /\ match next T' with unset => False | node _ => True | table ps => (2 <= length ps)%nat end.
Proof.
  intros (H0 & Hc & Hb & Hn & _ & Hk & _). unfold put.
  destruct T as [m n l [|q|ps]]; cbn [min count live_nodes next slots] in *; [done| |].
  - cbn in Hn. subst n. cbn. assert (c = m) as -> by lia. rewrite Z.sub_diag. eexists. split; [reflexivity|done].
  - rewrite (proj2 (Z.eqb_neq _ _)) by lia. cbn [table_of next obind]. rewrite set_at_ok by lia.
    cbn [obind]. eexists. split; [reflexivity|]. cbn. by rewrite length_insert.
Qed.

Lemma child_insert c p T T' : loose c T -> min T' = min T ->
  slots T' = <[Z.to_nat (c - min T) := p]> (slots T) ->
  child c T' = p /\ forall c', c' <> c -> child c' T' = child c' T.
Proof.
  intros (H0 & Hc & Hb & Hn & _) Hm Hs. unfold child. rewrite Hm, Hs. split.
  - rewrite (proj2 (Z.ltb_ge _ _)) by lia. by rewrite list_lookup_insert_eq by lia.
  - intros c' Hne. destruct (Z.ltb_spec c' (min T)); [done|]. by rewrite list_lookup_insert_ne by lia.
Qed.

(** Overwriting the pointer of a subnode. *)
Lemma put_child c x y T : shape T -> child c T = Some x ->
  exists T', put c (Some y) T = Ok T' /\ shape T' /\ child c T' = Some y
    /\ (forall c', c' <> c -> child c' T' = child c' T) /\ live_nodes T' = live_nodes T
    /\ count T' = count T.
Proof.
  intros Hs Hx. pose proof (child_loose c T x Hs Hx) as Hl. pose proof (loose_lookup c T Hl) as Hp.
  destruct (put_spec c (Some y) T Hl) as (T' & E & Hm & Hn & Hv & Hsl & Hk). exists T'.
  destruct (child_insert c (Some y) T T' Hl Hm Hsl) as [Hc Ho]. split_and!; try done.
  apply (loose_shape c T' y); [|done]. destruct Hl as (H0 & Hr & Hb & Hcn & Hlv & _ & Ht).
  unfold loose. rewrite Hm, Hn, Hv, Hsl, length_insert. split_and!; try (lia || done).
  - rewrite (lives_insert _ _ _ (Some x)) by (by rewrite Hp, Hx). lia.
  - intros z. rewrite list_insert_insert_eq. apply Ht.
Qed.

(** Creating a subnode where there is none. *)
Lemma create_spec fresh c T : loose c T ->
  exists b T', create fresh c T = Ok (b, T') /\ shape T'
    /\ child c T' = Some (default fresh (child c T))
    /\ (forall c', c' <> c -> child c' T' = child c' T)
    /\ (b = true -> if count T' =? 1 then live_nodes T' = 1 else 1 < live_nodes T').
Proof.
  intros Hl. pose proof (loose_lookup c T Hl) as Hp. unfold create. rewrite slot_spec by done. cbn [obind].
  destruct (child c T) as [x|] eqn:Ex.
  - exists false, T. split_and!; try done. by apply (loose_shape c T x).
  - destruct (put_spec c (Some fresh) T Hl) as (T' & -> & Hm & Hn & Hv & Hsl & Hk). cbn [obind].
    destruct (child_insert c (Some fresh) T T' Hl Hm Hsl) as [Hc Ho].
    destruct Hl as (H0 & Hr & Hb & Hcn & Hlv & _ & Ht).
    pose proof (lives_bounds (slots T)) as Hlb.
    assert (HL : loose c (with_live (to_uint16 (live_nodes T' + 1)) T')).
    { unfold loose. change (slots (with_live _ T')) with (slots T'). cbn [with_live min count live_nodes next].
      rewrite Hm, Hn, Hv, Hsl, length_insert, to_uint16_id by lia. split_and!; try (lia || done).
      - rewrite (lives_insert _ _ _ None) by done. lia.
      - intros z. rewrite list_insert_insert_eq. apply Ht. }
    pose proof (loose_shape c _ fresh HL Hc) as Hsh.
    exists true, (with_live (to_uint16 (live_nodes T' + 1)) T'). split_and!; try done.
    intros _. destruct Hsh as [_ Hsh]. revert Hsh. cbn [with_live next count live_nodes].
    destruct (next T') as [|[z|]|ps]; [lia|..|].
    + intros [-> ->]. done.
    + lia.
    + intros (E & _ & E' & Hge & _). pose proof (lives_bounds ps).
      rewrite (proj2 (Z.eqb_neq _ 1)); lia.
Qed.

Lemma child_slot i T x : slots T !! i = Some (Some x) -> child (min T + Z.of_nat i) T = Some x.
Proof.
  intros H. rewrite child_lookup by lia. replace (Z.to_nat (min T + Z.of_nat i - min T)) with i by lia.
  by rewrite H.
Qed.

(** A character in the range of a single pointer has a subnode. *)
Lemma child_single c T : shape T -> out_of_range c T = false -> count T = 1 -> child c T <> None.
Proof.
  intros [Hm H] Hr Hn. unfold out_of_range in Hr. destruct T as [m n l [|[x|]|ps]]; cbn in *; try lia.
  - assert (c = m) as -> by lia. unfold child. cbn. rewrite (proj2 (Z.ltb_ge m m)) by lia. by rewrite Z.sub_diag.
  - destruct H as (-> & _ & Hl & H2 & _). pose proof (lives_bounds ps). lia.
Qed.

(** A node with a subnode has a live node. *)
Lemma live_child c x T : shape T -> child c T = Some x -> live_nodes T <> 0.
Proof.
  intros Hs Hx H. destruct (child_loose c T x Hs Hx) as (_ & _ & _ & _ & Hl & _).
  rewrite child_none in Hx by lia. done.
Qed.

(** A character without a slot has no subnode. *)
Lemma no_slot c T : shape T -> (count T =? 0) || out_of_range c T = true -> child c T = None.
Proof.
  intros Hs H. destruct (child c T) as [x|] eqn:E; [|done]. exfalso.
  rewrite (shape_in_range c T x Hs E), orb_false_r in H.
  destruct (child_loose c T x Hs E) as (_ & Hc & _). lia.
Qed.

Lemma each_total {B} (f : Z -> A -> outcome (list B)) c ps :
  (forall i x, ps !! i = Some (Some x) -> exists xs, f (c + Z.of_nat i) x = Ok xs) ->
  exists xs, each f c ps = Ok xs.
Proof.
  revert c. induction ps as [|p ps IH]; intros c H; [by eexists|].
  destruct (IH (c + 1)) as [ys Hys].
  { intros i x Hi. destruct (H (S i) x Hi) as [xs Hxs]. exists xs. rewrite <- Hxs. f_equal. lia. }
  destruct p as [x|]; cbn; rewrite Hys; [|by eexists].
  destruct (H 0%nat x eq_refl) as [xs Hxs]. rewrite Z.add_0_r in Hxs. rewrite Hxs. by eexists.
Qed.

(** Removing a subnode: a table without the pointer, in the compact form. *)
Definition removed c T T' : Prop :=
  shape T' /\ child c T' = None /\ (forall c', c' <> c -> child c' T' = child c' T).

Lemma first_live_spec i ps :
  match first_live i ps with
  | Some j => exists k x, j = i + Z.of_nat k /\ ps !! k = Some (Some x) /\ lives (take k ps) = 0
  | None => lives ps = 0
  end.
Proof.
  revert i. induction ps as [|[x|] ps IH]; intros i; cbn [first_live]; [done| |].
  - exists 0%nat, x. split; [lia|done].
  - specialize (IH (i + 1)). destruct (first_live (i + 1) ps) as [j|]; [|done].
    destruct IH as (k & x & -> & Hk & Ht). exists (S k), x. split; [lia|]. split; [done|exact Ht].
Qed.

(** A table whose outer parts hold no pointer may be cut down. *)
Lemma shape_window m l a ps b :
  lives a = 0 -> lives b = 0 -> tight ps -> (2 <= length ps)%nat -> 0 <= m ->
  m + Z.of_nat (length (a ++ ps ++ b)) <= 256 -> l = lives ps ->
  let T := mkTable m (Z.of_nat (length (a ++ ps ++ b))) l (table (a ++ ps ++ b)) in
  let T' := mkTable (m + Z.of_nat (length a)) (Z.of_nat (length ps)) l (table ps) in
  shape T' /\ forall c, child c T' = child c T.
Proof.
  intros Ha Hb Ht Hlen Hm Hle Hl T T'. rewrite !length_app in Hle. pose proof (tight_lives ps Ht Hlen). split.
  - split; cbn; [lia|]. split_and!; (lia || done).
  - intros c. unfold T, T', child. cbn [min slots next].
    destruct (Z.ltb_spec c (m + Z.of_nat (length a))) as [Hc|Hc].
    + destruct (Z.ltb_spec c m); [done|]. rewrite lookup_app_l by lia. by rewrite lives_none.
    + rewrite (proj2 (Z.ltb_ge c m)) by lia. rewrite lookup_app_r by lia.
      replace (Z.to_nat (c - m) - length a)%nat with (Z.to_nat (c - (m + Z.of_nat (length a)))) by lia.
      destruct (Nat.lt_ge_cases (Z.to_nat (c - (m + Z.of_nat (length a)))) (length ps)).
      * by rewrite lookup_app_l.
      * rewrite lookup_app_r by done. rewrite (lives_none b) by done. by rewrite lookup_ge_None_2.
Qed.

(** A table with one pointer left becomes the pointer. *)
Lemma shape_single m a x b :
  lives a = 0 -> lives b = 0 -> 0 <= m -> m + Z.of_nat (length (a ++ Some x :: b)) <= 256 ->
  let T := mkTable m (Z.of_nat (length (a ++ Some x :: b))) 1 (table (a ++ Some x :: b)) in
  let T' := mkTable (m + Z.of_nat (length a)) 1 1 (node (Some x)) in
  shape T' /\ forall c, child c T' = child c T.
Proof.
  intros Ha Hb Hm Hle T T'. rewrite length_app in Hle. cbn in Hle. split.
  - split; cbn; lia.
  - intros c. unfold T, T', child. cbn [min slots next].
    destruct (Z.ltb_spec c (m + Z.of_nat (length a))) as [Hc|Hc].
    + destruct (Z.ltb_spec c m); [done|]. rewrite lookup_app_l by lia. by rewrite lives_none.
    + rewrite (proj2 (Z.ltb_ge c m)) by lia. rewrite lookup_app_r by lia.
      replace (Z.to_nat (c - m) - length a)%nat with (Z.to_nat (c - (m + Z.of_nat (length a)))) by lia.
      destruct (Z.to_nat (c - (m + Z.of_nat (length a)))) as [|k]; [done|].
      change (None = mjoin (b !! k)). by rewrite lives_none.
Qed.

End Tables.

(** ** What is left of a table when a subnode is removed

    Both tries compact a table after a removal: to nothing, to one pointer, or
    to a smaller table.  These lemmas say which part of the old table is left in
    each case and that it is in the compact form. *)

Lemma lives_take_drop {A} n (ps : list (option A)) : lives (take n ps) + lives (drop n ps) = lives ps.
Proof. by rewrite <- lives_app, take_drop. Qed.

Lemma lives_rev {A} (ps : list (option A)) : lives (rev ps) = lives ps.
Proof.
  induction ps as [|p ps IH]; [done|]. cbn [rev]. rewrite lives_app, IH. destruct p; cbn; lia.
Qed.

Section Prune.
Context {A : Type} (c m l : Z) (ps : list (option A)) (x : A).
Let T : Table A := mkTable m (Z.of_nat (length ps)) l (table ps).
Context (Hs : shape T) (Hx : child c T = Some x).
Let i : nat := Z.to_nat (c - m).
Let ps' : list (option A) := <[i := None]> ps.
Let T0 : Table A := mkTable m (Z.of_nat (length ps)) (l - 1) (table ps').

Lemma prune_facts :
  0 <= m <= c /\ (i < length ps)%nat /\ ps !! i = Some (Some x) /\ m + Z.of_nat (length ps) <= 256
  /\ l = lives ps /\ 2 <= l <= Z.of_nat (length ps) /\ lives ps' = l - 1 /\ length ps' = length ps /\ tight ps.
Proof.
  pose proof (child_loose c T x Hs Hx) as Hl. pose proof (loose_lookup c T Hl) as Hp.
  rewrite Hx in Hp. destruct Hl as (H0 & Hr & Hb & _). destruct Hs as [_ (_ & _ & Hlv & H2 & Ht)].
  cbn in *. fold i in Hp. pose proof (lives_bounds ps). unfold ps'. rewrite length_insert.
  rewrite (lives_insert ps i None (Some x)) by done. split_and!; (lia || done).
Qed.

Lemma prune_children T' : shape T' -> (forall c', child c' T' = child c' T0) -> removed c T T'.
Proof.
  intros HT Hc. split; [done|]. pose proof (child_loose c T x Hs Hx) as Hl.
  destruct (child_insert c None T T0 Hl eq_refl eq_refl) as [H0 Ho].
  split; [by rewrite Hc|]. intros c' Hne. rewrite Hc. by apply Ho.
Qed.

(** Both ends hold a pointer, so that the removed one is an end when one is left. *)
Lemma prune_pair : l = 2 -> i = 0%nat \/ i = pred (length ps).
Proof.
  intros Hl. destruct prune_facts as (_ & Hi & Hp & _ & Hlv & _ & Hlp & Hlen & Ht).
  destruct (decide (i = 0%nat)) as [|H0]; [by left|]. destruct (decide (i = pred (length ps))) as [|H1]; [by right|].
  exfalso. apply tight_ends in Ht as [[y Hy] [z Hz]].
  assert (Ht' : tight ps').
  { apply tight_ends. rewrite Hlen. split; [exists y|exists z]; unfold ps'; by rewrite list_lookup_insert_ne by done. }
  pose proof (tight_lives ps' Ht'). lia.
Qed.

Lemma prune_left_single : i = 0%nat -> l = 2 ->
  exists y, ps' !! Z.to_nat (Z.of_nat (length ps) - 1) = Some (Some y)
    /\ removed c T (mkTable (to_uint8 (m + (Z.of_nat (length ps) - 1))) 1 1 (node (Some y))).
Proof.
  intros Hi Hl. destruct prune_facts as (Hm & Hlt & Hp & Hle & Hlv & H2 & Hlp & Hlen & Ht).
  apply tight_ends in Ht as [_ [y Hy]]. exists y.
  assert (Hy' : ps' !! pred (length ps) = Some (Some y)).
  { unfold ps'. rewrite list_lookup_insert_ne by lia. done. }
  replace (Z.to_nat (Z.of_nat (length ps) - 1)) with (pred (length ps)) by lia. split; [done|].
  pose proof (take_drop_middle ps' _ _ Hy') as E. rewrite (drop_ge ps' (S _)) in E by lia.
  assert (Ha : lives (take (pred (length ps)) ps') = 0).
  { rewrite <- E, lives_app in Hlp. cbn in Hlp. lia. }
  destruct (shape_single m (take (pred (length ps)) ps') y []) as [HT Hc]; [done|done|lia| |].
  { rewrite E. lia. }
  rewrite E in Hc. rewrite length_take in HT, Hc. rewrite to_uint8_id by lia.
  replace (m + Z.of_nat (pred (length ps) `min` length ps')) with (m + (Z.of_nat (length ps) - 1)) in HT, Hc by lia.
  apply prune_children; [done|]. intros c'. rewrite Hc. unfold T0. rewrite Hlen. done.
Qed.

Lemma prune_right_single : i = pred (length ps) -> l = 2 ->
  exists y, ps' !! 0%nat = Some (Some y) /\ removed c T (mkTable m 1 1 (node (Some y))).
Proof.
  intros Hi Hl. destruct prune_facts as (Hm & Hlt & Hp & Hle & Hlv & H2 & Hlp & Hlen & Ht).
  apply tight_ends in Ht as [[y Hy] _]. exists y.
  assert (Hy' : ps' !! 0%nat = Some (Some y)) by (unfold ps'; by rewrite list_lookup_insert_ne by lia).
  split; [done|]. pose proof (take_drop_middle ps' _ _ Hy') as E. rewrite take_0 in E. cbn [app] in E.
  destruct (shape_single m [] y (drop 1 ps')) as [HT Hc]; [done| |lia| |].
  { rewrite <- E in Hlp. cbn [lives] in Hlp. lia. }
  { cbn [app]. rewrite E. lia. }
  cbn [app] in Hc. rewrite E in Hc. cbn [length] in HT, Hc. rewrite Z.add_0_r in HT, Hc.
  apply prune_children; [done|]. intros c'. rewrite Hc. unfold T0. by rewrite Hlen.
Qed.

Lemma prune_window a n : ps' = a ++ take n (drop (length a) ps') ++ drop (length a + n) ps' ->
  lives a = 0 -> lives (drop (length a + n) ps') = 0 -> (length a + n <= length ps)%nat -> (2 <= n)%nat ->
  tight (take n (drop (length a) ps')) ->
  removed c T (mkTable (m + Z.of_nat (length a)) (Z.of_nat n) (l - 1) (table (take n (drop (length a) ps')))).
Proof.
  intros E Ha Hb Hn H2n Ht. destruct prune_facts as (Hm & Hlt & Hp & Hle & Hlv & H2 & Hlp & Hlen & _).
  assert (Hlw : length (take n (drop (length a) ps')) = n) by (rewrite length_take, length_drop; lia).
  destruct (shape_window m (l - 1) a (take n (drop (length a) ps')) (drop (length a + n) ps'))
    as [HT Hc]; try done; try lia.
  { rewrite <- E. lia. }
  { rewrite E, !lives_app in Hlp. lia. }
  rewrite <- E, Hlw in Hc. rewrite Hlw in HT. apply prune_children; [done|].
  intros c'. rewrite Hc. unfold T0. by rewrite Hlen.
Qed.

Lemma prune_left k y : i = 0%nat -> l <> 2 ->
  drop 1 ps' !! k = Some (Some y) -> lives (take k (drop 1 ps')) = 0 ->
  (2 <= length ps - S k)%nat /\
  removed c T (mkTable (m + Z.of_nat (S k)) (Z.of_nat (length ps - S k)) (l - 1)
                 (table (take (length ps - S k) (drop (S k) ps')))).
Proof.
  intros Hi Hl Hk Ht0. destruct prune_facts as (Hm & Hlt & Hp & Hle & Hlv & H2 & Hlp & Hlen & Ht).
  assert (Hk' : (S k < length ps)%nat) by (rewrite lookup_drop in Hk; apply lookup_lt_Some in Hk; lia).
  assert (Ha : length (take (S k) ps') = S k) by (rewrite length_take; lia).
  assert (Hw : take (length ps - S k) (drop (S k) ps') = drop (S k) ps').
  { rewrite take_ge; [done|]. rewrite length_drop. lia. }
  assert (H0 : ps' !! 0%nat = Some None) by (unfold ps'; rewrite Hi; apply list_lookup_insert_eq; lia).
  assert (Hla : lives (take (S k) ps') = 0).
  { destruct ps' as [|p qs]; [done|]. cbn in H0. injection H0 as ->. cbn [take lives]. exact Ht0. }
  assert (Hlw : lives (drop (S k) ps') = l - 1) by (pose proof (lives_take_drop (S k) ps'); lia).
  assert (Hn : (2 <= length ps - S k)%nat).
  { pose proof (lives_bounds (drop (S k) ps')) as Hb. rewrite length_drop in Hb. lia. }
  split; [done|]. pose proof (prune_window (take (S k) ps') (length ps - S k)) as Hwin.
  rewrite Ha in Hwin. apply Hwin; try done; try lia.
  - rewrite Hw, (drop_ge ps' (S k + _)) by lia. by rewrite app_nil_r, take_drop.
  - by rewrite drop_ge by lia.
  - rewrite Hw. apply tight_ends. rewrite length_drop, !lookup_drop.
    apply tight_ends in Ht as [_ [z Hz]]. rewrite lookup_drop in Hk. split.
    + exists y. rewrite <- Hk. f_equal. lia.
    + exists z. replace (S k + pred (length ps' - S k))%nat with (pred (length ps)) by lia.
      unfold ps'. by rewrite list_lookup_insert_ne by lia.
Qed.

Lemma prune_right k y : i = pred (length ps) -> l <> 2 ->
  drop 1 (rev ps') !! k = Some (Some y) -> lives (take k (drop 1 (rev ps'))) = 0 ->
  (2 <= length ps - S k)%nat /\
  removed c T (mkTable m (Z.of_nat (length ps - S k)) (l - 1) (table (take (length ps - S k) ps'))).
Proof.
  intros Hi Hl Hk Ht0. destruct prune_facts as (Hm & Hlt & Hp & Hle & Hlv & H2 & Hlp & Hlen & Ht).
  rewrite lookup_drop in Hk.
  assert (Hk' : (S k < length ps)%nat).
  { apply lookup_lt_Some in Hk. rewrite length_rev in Hk. lia. }
  assert (Hlast : last ps' = Some None).
  { rewrite last_lookup, Hlen, <- Hi. unfold ps'. apply list_lookup_insert_eq. lia. }
  assert (Hlr : lives (take (S k) (rev ps')) = 0).
  { destruct ps' as [|p qs _] using rev_ind; [done|]. rewrite last_snoc in Hlast. injection Hlast as ->.
    rewrite rev_app_distr in Ht0 |- *. cbn [rev app take lives] in *. exact Ht0. }
  assert (Hb : lives (drop (length ps - S k) ps') = 0).
  { rewrite <- lives_rev. rewrite <- Hlr. f_equal. rewrite <- (rev_involutive ps') at 1.
    rewrite skipn_rev, rev_involutive, length_rev. f_equal. lia. }
  assert (Hlw : lives (take (length ps - S k) ps') = l - 1) by (pose proof (lives_take_drop (length ps - S k) ps'); lia).
  assert (Hn : (2 <= length ps - S k)%nat).
  { pose proof (lives_bounds (take (length ps - S k) ps')) as Hb'. rewrite length_take in Hb'. lia. }
  split; [done|].
  pose proof (prune_window [] (length ps - S k)) as Hwin. cbn [length app Nat.add] in Hwin.
  rewrite drop_0, Z.add_0_r in Hwin. apply Hwin; try done; try lia.
  - by rewrite take_drop.
  - apply tight_ends. rewrite length_take, !lookup_take_lt by lia.
    apply tight_ends in Ht as [[z Hz] _]. split.
    + exists z. unfold ps'. by rewrite list_lookup_insert_ne by lia.
    + exists y. rewrite rev_alt in Hk. apply reverse_lookup_Some in Hk as [Hk _].
      rewrite <- Hk. f_equal. lia.
Qed.

Lemma prune_interior : i <> 0%nat -> i <> pred (length ps) -> removed c T T0.
Proof.
  intros H0 H1. destruct prune_facts as (Hm & Hlt & Hp & Hle & Hlv & H2 & Hlp & Hlen & Ht).
  apply prune_children; [|done]. apply tight_ends in Ht as [[y Hy] [z Hz]].
  assert (Ht' : tight ps').
  { apply tight_ends. rewrite Hlen. split; [exists y|exists z]; unfold ps'; by rewrite list_lookup_insert_ne by done. }
  pose proof (tight_lives ps' Ht'). split; cbn; [lia|]. split_and!; (lia || done).
Qed.

End Prune.

(** The two forms of a table with a subnode. *)
Lemma prune_cases {A} c (T : Table A) x : shape T -> child c T = Some x ->
  (T = mkTable c 1 1 (node (Some x)) /\ removed c T (mkTable c 0 0 (node None)))
  \/ exists m l ps, T = mkTable m (Z.of_nat (length ps)) l (table ps).
Proof.
  intros Hs Hx. pose proof (child_range c T x Hx) as Hr. pose proof Hs as [_ Hsh].
  destruct T as [m n l [|[y|]|ps]]; cbn in Hr, Hsh; try lia.
  - left. destruct Hsh as [-> ->]. assert (c = m) as -> by lia.
    assert (y = x) as -> by (unfold child in Hx; cbn in Hx; rewrite Z.ltb_irrefl, Z.sub_diag in Hx; by injection Hx).
    split; [done|]. split_and!; [by destruct Hs|by apply child_none|]. intros c' Hne. rewrite child_none by done.
    unfold child. cbn. destruct (Z.ltb_spec c' m); [done|]. destruct (Z.to_nat (c' - m)) eqn:E; [lia|done].
  - exfalso. unfold child in Hx. cbn in Hx. assert (c = m) as -> by lia. by rewrite Z.ltb_irrefl, Z.sub_diag in Hx.
  - right. destruct Hsh as (-> & _). by exists m, l, ps.
Qed.

(** ** The keys of a trie in order

    The order of keys is that of their bytes ([strcmp] on byte strings).  A node
    of a trie lists the keys with a property [Q]: its own key, then the keys
    below each of its subnodes, from the smallest character on. *)

Definition bytes_le (a b : bytes) : Prop := strcmp a b <> Gt.

#[export] Instance bytes_le_dec a b : Decision (bytes_le a b).
Proof. unfold bytes_le, Decision. destruct (strcmp a b); [left|left|right]; congruence. Defined.

Definition bytes_lt (a b : bytes) : Prop := strcmp a b = Lt.

Lemma bytes_lt_cons c a b : bytes_lt a b -> bytes_lt (c :: a) (c :: b).
Proof. unfold bytes_lt. cbn. by rewrite Z.compare_refl. Qed.

Lemma bytes_lt_head c d a b : ord c < ord d -> bytes_lt (c :: a) (d :: b).
Proof. unfold bytes_lt. cbn. intros H. by rewrite (proj2 (Z.compare_lt_iff _ _) H). Qed.

#[export] Instance bytes_le_total : Total bytes_le.
Proof. intros a b. unfold bytes_le. rewrite (strcmp_antisym a b). destruct (strcmp a b); cbn; naive_solver. Qed.

#[export] Instance bytes_le_antisymm : AntiSymm eq bytes_le.
Proof.
  intros a b. unfold bytes_le. rewrite (strcmp_antisym a b). destruct (strcmp a b) eqn:E; cbn; try done.
  by apply strcmp_eq in E.
Qed.

#[export] Instance bytes_le_trans : Transitive bytes_le.
Proof.
  intros a b c. unfold bytes_le. intros H1 H2.
  destruct (strcmp a b) eqn:E1; [apply strcmp_eq in E1 as ->; done| |done].
  destruct (strcmp b c) eqn:E2; [apply strcmp_eq in E2 as ->; congruence| |done].
  by rewrite (strcmp_lt_trans a b c).
Qed.

Lemma bytes_lt_sorted ks : StronglySorted bytes_lt ks -> StronglySorted bytes_le ks /\ NoDup ks.
Proof.
  induction 1 as [|k ks Hs [IHs IHn] Hk]; [split; constructor|]. rewrite Forall_forall in Hk. split.
  - constructor; [done|]. apply Forall_forall. intros k' H. specialize (Hk k' H). unfold bytes_lt, bytes_le in *. congruence.
  - constructor; [|done]. intros H. specialize (Hk k H). unfold bytes_lt in Hk. by rewrite strcmp_refl in Hk.
Qed.

Section Lists.
Context {A : Type} (Q : A -> bytes -> Prop).

(** [ks] lists the keys of the node [t] that satisfy [Q]. *)
Definition lists (t : A) (ks : list bytes) : Prop :=
  StronglySorted bytes_lt ks /\ forall k, k ∈ ks <-> Q t k.

(** The keys below the pointers [ps]; [m] is the first character. *)
Definition lists_from (m : Z) (ps : list (option A)) (ks : list bytes) : Prop :=
  StronglySorted bytes_lt ks /\
  forall k, k ∈ ks <-> exists i x k', ps !! i = Some (Some x) /\ k = chr (m + Z.of_nat i) :: k' /\ Q x k'.

Lemma lists_from_skip m ps ks : lists_from (m + 1) ps ks -> lists_from m (None :: ps) ks.
Proof.
  intros [Hs Hk]. split; [done|]. intros k. rewrite Hk. split.
  - intros (i & x & k' & Hi & -> & H). exists (S i), x, k'. split_and!; [done| |done]. do 2 f_equal. lia.
  - intros ([|i] & x & k' & Hi & -> & H); [done|]. exists i, x, k'. split_and!; [done| |done]. do 2 f_equal. lia.
Qed.

Lemma lists_from_cons m x ps ks ks' : 0 <= m -> m + Z.of_nat (length (Some x :: ps)) <= 256 ->
  lists x ks -> lists_from (m + 1) ps ks' -> lists_from m (Some x :: ps) ((cons (chr m) <$> ks) ++ ks').
Proof.
  intros Hm Hle [Hs Hk] [Hs' Hk']. cbn in Hle. split.
  - apply StronglySorted_app. split_and!; [|by eapply StronglySorted_fmap, Hs; apply bytes_lt_cons|done].
    intros k1 k2 (k & -> & _)%list_elem_of_fmap (i & y & k' & Hi & -> & _)%Hk'.
    apply lookup_lt_Some in Hi. apply bytes_lt_head. rewrite !ord_chr; lia.
  - intros k. rewrite elem_of_app, list_elem_of_fmap, Hk'. split.
    + intros [(k' & -> & H%Hk)|(i & y & k' & Hi & -> & H)].
      * exists 0%nat, x, k'. split_and!; [done| |done]. do 2 f_equal. lia.
      * exists (S i), y, k'. split_and!; [done| |done]. do 2 f_equal. lia.
    + intros ([|i] & y & k' & Hi & -> & H).
      * injection Hi as <-. left. exists k'. split; [do 2 f_equal; lia|by apply Hk].
      * right. exists i, y, k'. split_and!; [done| |done]. do 2 f_equal. lia.
Qed.

(** The walk over the pointers lists the keys below them. *)
Lemma each_lists f buff m c ps : 0 <= m + c -> m + c + Z.of_nat (length ps) <= 256 ->
  (forall i x, ps !! i = Some (Some x) -> exists ks,
     f (c + Z.of_nat i) x = Ok (app (buff ++ [chr (m + (c + Z.of_nat i))]) <$> ks) /\ lists x ks) ->
  exists ks, each f c ps = Ok (app buff <$> ks) /\ lists_from (m + c) ps ks.
Proof.
  revert c. induction ps as [|p ps IH]; intros c Hm Hle H.
  { exists []. split; [done|]. split; [constructor|]. intros k. split; [by intros ?%elem_of_nil|]. intros (i & x & k' & Hi & _). done. }
  destruct (IH (c + 1)) as (ks' & E' & HL'); [lia|cbn in Hle; lia| |].
  { intros i x Hi. destruct (H (S i) x Hi) as (ks & Hks & HL). exists ks. split; [|done].
    replace (c + 1 + Z.of_nat i) with (c + Z.of_nat (S i)) by lia. exact Hks. }
  rewrite Z.add_assoc in HL'. destruct p as [x|]; cbn; rewrite E'.
  - destruct (H 0%nat x eq_refl) as (ks & Hks & HL). rewrite Z.add_0_r in Hks. rewrite Hks. cbn [obind].
    exists ((cons (chr (m + c)) <$> ks) ++ ks'). split; [|by apply lists_from_cons].
    rewrite fmap_app, <- list_fmap_compose. do 2 f_equal. apply list_fmap_ext. intros _ k _. cbn. by rewrite <- app_assoc.
  - exists ks'. split; [done|by apply lists_from_skip].
Qed.

(** The key of a node comes before the keys below it. *)
Lemma lists_node t T here ks : shape T -> lists_from (min T) (slots T) ks ->
  (Q t [] <-> here = true) ->
  (forall c k, Q t (c :: k) <-> exists x, child (ord c) T = Some x /\ Q x k) ->
  lists t ((if here then [[]] else []) ++ ks).
Proof.
  intros Hs [Hss Hk] Hnil Hcons.
  assert (Hin : forall k, k ∈ ks <-> k <> [] /\ Q t k).
  { intros k. rewrite Hk. split.
    - intros (i & x & k' & Hi & -> & H). split; [done|]. apply Hcons. exists x. apply child_slot in Hi.
      pose proof (child_loose _ T x Hs Hi) as (H0 & Hr & Hb & _). by rewrite ord_chr by lia.
    - intros [Hne H]. destruct k as [|c k']; [done|]. apply Hcons in H as (x & E & H).
      pose proof (child_loose _ T x Hs E) as Hl. pose proof (loose_lookup _ T Hl) as Hx. destruct Hl as (_ & Hr & _).
      exists (Z.to_nat (ord c - min T)), x, k'. rewrite Hx, E. split_and!; [done| |done].
      f_equal. rewrite <- (chr_ord c) at 1. f_equal. lia. }
  split.
  - destruct here; [|done]. constructor; [done|]. apply Forall_forall. intros k [Hne _]%Hin. by destruct k.
  - intros k. destruct here; cbn [app].
    + rewrite elem_of_cons, Hin. split; [intros [->|[_ ?]]; [by apply Hnil|done]|].
      intros H. destruct k; [by left|by right].
    + rewrite Hin. split; [by intros [_ ?]|]. intros H. split; [|done]. intros ->. by apply Hnil in H.
Qed.

(** A table without pointers has no keys. *)
Lemma lists_from_none m ps : lives ps = 0 -> lists_from m ps [].
Proof.
  intros H. split; [constructor|]. intros k. split; [by intros ?%elem_of_nil|].
  intros (i & x & k' & Hi & _). pose proof (lives_none ps i H) as E. by rewrite Hi in E.
Qed.

(** The list is determined by its elements. *)
Lemma lists_unique (t : A) (X : gset bytes) ks : lists t ks -> (forall k, k ∈ X <-> Q t k) ->
  ks = merge_sort bytes_le (elements X).
Proof.
  intros [Hs Hk] HX. destruct (bytes_lt_sorted ks Hs) as [Hle Hnd].
  apply (StronglySorted_unique bytes_le); [done|apply StronglySorted_merge_sort; apply _|].
  rewrite merge_sort_Permutation. apply NoDup_Permutation; [done|apply NoDup_elements|].
  intros k. by rewrite Hk, elem_of_elements, HX.
Qed.

End Lists.
