(* ===== verification/Trie.v ===== *)
(** * The subscription trie of ZeroMQ ([lib/zeromq/trie.cpp])

    A node counts the subscriptions to the key that leads to it.  [add] and [rm]
    recurse into the subnodes; a subnode is an object of its own, so that what
    is done to it is written back under the same pointer.  Keys and messages are
    byte strings.  A failed [zmq_assert] and a null pointer that is followed are
    aborts. *)

From stdpp Require Import tactics sorting gmultiset.
From S2P Require Import Prelude ZmqTables.

Inductive trie_t : Type := mkTrie (refcnt : Z) (subnodes : Table trie_t).

Definition refcnt (t : trie_t) : Z := let 'mkTrie n _ := t in n.
Definition subnodes (t : trie_t) : Table trie_t := let 'mkTrie _ T := t in T.

(** The constructor. *)
Definition new_trie : trie_t := mkTrie 0 empty_table.

(** The destructor: it follows every pointer. *)
Fixpoint destroy (t : trie_t) : outcome unit :=
  match t with
  | mkTrie _ T =>
      if count T =? 1 then
        match next T with
        | node (Some t') => destroy t'
        | _ => Aborted "next.node"
        end
      else if 1 <? count T then
        match next T with
        | table ps => ofmap (fun _ => tt) (each (fun _ t' => ofmap (fun _ => @nil unit) (destroy t')) 0 ps)
        | _ => Aborted "next.table"
        end
      else Ok tt
  end.

Definition is_redundant (t : trie_t) : bool := (refcnt t =? 0) && (live_nodes (subnodes t) =? 0).

(** ** [add] *)

(** The assertions on a subnode that was just created. *)
Definition created_ok (created : bool) (T : Table trie_t) : outcome unit :=
  if created then
    assertion (if count T =? 1 then live_nodes T =? 1 else 1 <? live_nodes T) "live_nodes"
  else Ok tt.

Fixpoint add (prefix_ : bytes) (t : trie_t) : outcome (bool * trie_t) :=
  match prefix_ with
  | [] =>
      let n := to_uint32 (refcnt t + 1) in
      Ok (n =? 1, mkTrie n (subnodes t))
  | c :: prefix' =>
      let! T := extend (ord c) (subnodes t) in
      let! (created, T) := create new_trie (ord c) T in
      let! _ := created_ok created T in
      let! p := slot (ord c) T in
      match p with
      | None => Aborted "null pointer"
      | Some t' =>
          let! (r, t') := add prefix' t' in
          let! T := put (ord c) (Some t') T in
          Ok (r, mkTrie (refcnt t) T)
      end
  end.

(** ** [rm] *)

(** What is done to the table after the subnode of [c] was deleted. *)
Definition prune (c : Z) (T : Table trie_t) : outcome (Table trie_t) :=
  let! _ := assertion (0 <? count T) "count > 0" in
  let live := to_uint16 (live_nodes T - 1) in
  if count T =? 1 then
    let! _ := assertion (live =? 0) "live_nodes == 0" in
    Ok (mkTable (min T) 0 live (node None))
  else
    let! ps := table_of T in
    let! ps := set_at (c - min T) None ps in
    let! _ := assertion (1 <? live_nodes T) "live_nodes > 1" in
    if live =? 1 then
      let! (p, min') :=
        if c =? min T then
          let! p := get_at (count T - 1) ps in Ok (p, to_uint8 (min T + (count T - 1)))
        else if c =? min T + count T - 1 then
          let! p := get_at 0 ps in Ok (p, min T)
        else Ok (None, min T) in
      match p with
      | None => Aborted "node"
      | Some _ => Ok (mkTable min' 1 live (node p))
      end
    else if c =? min T then
      let new_min := match first_live 1 (drop 1 ps) with
                     | Some i => to_uint8 (i + min T)
                     | None => min T
                     end in
      let! _ := assertion (negb (new_min =? min T)) "new_min != min" in
      let! _ := assertion (min T <? new_min) "new_min > min" in
      let! _ := assertion (new_min - min T <? count T) "count > new_min - min" in
      let count' := to_uint16 (count T - (new_min - min T)) in
      let! ps := entries (new_min - min T) count' ps in
      Ok (mkTable new_min count' live (table ps))
    else if c =? min T + count T - 1 then
      let new_count := match first_live 1 (drop 1 (rev ps)) with
                       | Some i => to_uint16 (count T - i)
                       | None => count T
                       end in
      let! _ := assertion (negb (new_count =? count T)) "new_count != count" in
      let! ps := entries 0 new_count ps in
      Ok (mkTable (min T) new_count live (table ps))
    else Ok (mkTable (min T) (count T) live (table ps)).

Fixpoint rm (prefix_ : bytes) (t : trie_t) : outcome (bool * trie_t) :=
  match prefix_ with
  | [] =>
      if refcnt t =? 0 then Ok (false, t)
      else
        let n := to_uint32 (refcnt t - 1) in
        Ok (n =? 0, mkTrie n (subnodes t))
  | c :: prefix' =>
      let T := subnodes t in
      if (count T =? 0) || out_of_range (ord c) T then Ok (false, t)
      else
        let! next_node := slot (ord c) T in
        match next_node with
        | None => Ok (false, t)
        | Some t' =>
            let! (ret, t') := rm prefix' t' in
            let! T := put (ord c) (Some t') T in
            if is_redundant t' then
              let! _ := destroy t' in
              let! T := prune (ord c) T in
              Ok (ret, mkTrie (refcnt t) T)
            else Ok (ret, mkTrie (refcnt t) T)
        end
  end.

(** ** [check] *)

(** The loop: [data_] is what is left of the message. *)
Fixpoint check (data_ : bytes) (current : trie_t) : outcome bool :=
  if negb (refcnt current =? 0) then Ok true
  else
    match data_ with
    | [] => Ok false
    | c :: data' =>
        let T := subnodes current in
        if out_of_range (ord c) T then Ok false
        else
          let! p := slot (ord c) T in
          match p with
          | Some t' => check data' t'
          | None => if count T =? 1 then Aborted "null pointer" else Ok false
          end
    end.

(** ** [apply] *)

(** The keys that [func_] is called with, in order; [buff] is the part of the
    buffer that leads to the node. *)
Fixpoint apply_helper (buff : bytes) (t : trie_t) : outcome (list bytes) :=
  match t with
  | mkTrie n T =>
      let here := if n =? 0 then [] else [buff] in
      if count T =? 0 then Ok here
      else
        let! below :=
          if count T =? 1 then
            match next T with
            | node (Some t') => apply_helper (buff ++ [chr (min T)]) t'
            | _ => Aborted "next.node"
            end
          else
            match next T with
            | table ps => each (fun c t' => apply_helper (buff ++ [chr (min T + c)]) t') 0 ps
            | _ => Aborted "next.table"
            end in
        Ok (here ++ below)
  end.

Definition apply (t : trie_t) : outcome (list bytes) := apply_helper [] t.

(** ** A trie behind its operations *)

Inductive operation := Add (key : bytes) | Rm (key : bytes) | Check (data : bytes) | Apply.

Inductive answer := Said (b : bool) | Listed (keys : list bytes).

Definition perform (o : operation) (t : trie_t) : outcome (answer * trie_t) :=
  match o with
  | Add k => let! (b, t) := add k t in Ok (Said b, t)
  | Rm k => let! (b, t) := rm k t in Ok (Said b, t)
  | Check d => let! b := check d t in Ok (Said b, t)
  | Apply => let! ks := apply t in Ok (Listed ks, t)
  end.

Fixpoint perform_all (os : list operation) (t : trie_t) : outcome (list answer * trie_t) :=
  match os with
  | [] => Ok ([], t)
  | o :: os' =>
      let! (a, t) := perform o t in
      let! (answers, t) := perform_all os' t in
      Ok (a :: answers, t)
  end.

(** ** What a trie promises

    A multiset of keys.  [Add] and [Rm] say whether the set of the keys changed,
    [Check] whether a key is a prefix of the message, and [Apply] lists the
    distinct keys in the order of their bytes. *)

Definition promised (o : operation) (M : gmultiset bytes) : answer * gmultiset bytes :=
  match o with
  | Add k => (Said (bool_decide (multiplicity k M = 0%nat)), M ⊎ {[+ k +]})
  | Rm k => (Said (bool_decide (multiplicity k M = 1%nat)), M ∖ {[+ k +]})
  | Check d => (Said (bool_decide (Exists (fun k => k `prefix_of` d) (elements M))), M)
  | Apply => (Listed (merge_sort bytes_le (elements (dom M))), M)
  end.

Fixpoint promised_all (os : list operation) (M : gmultiset bytes) : list answer * gmultiset bytes :=
  match os with
  | [] => ([], M)
  | o :: os' =>
      let (a, M) := promised o M in
      let (answers, M) := promised_all os' M in
      (a :: answers, M)
  end.
