(* ===== verification/TrieTheorems.v ===== *)
(** * The trie refines a multiset of subscriptions

    Every operation of [trie_t] answers as the multiset of the keys that were
    added and not yet removed would; no assertion fails, no pointer is missing,
    and the tables stay in their compact form. *)

From stdpp Require Import tactics sorting gmultiset.
From S2P Require Import Prelude ZmqTables Trie.

(** ** Pruning *)

Section Prune.
Context (c m l : Z) (ps : list (option trie_t)) (x : trie_t).
Let T : Table trie_t := mkTable m (Z.of_nat (length ps)) l (table ps).
Context (Hs : shape T) (Hx : child c T = Some x).
Let i : nat := Z.to_nat (c - m).
Let ps' : list (option trie_t) := <[i := None]> ps.

Lemma prune_from_left : i = 0%nat -> l <> 2 ->
  exists T', (let new_min := match first_live 1 (drop 1 ps') with
                             | Some j => to_uint8 (j + m)
                             | None => m
                             end in
              let! _ := assertion (negb (new_min =? m)) "new_min != min" in
              let! _ := assertion (m <? new_min) "new_min > min" in
              let! _ := assertion (new_min - m <? Z.of_nat (length ps)) "count > new_min - min" in
              let count' := to_uint16 (Z.of_nat (length ps) - (new_min - m)) in
              let! qs := entries (new_min - m) count' ps' in
              Ok (mkTable new_min count' (l - 1) (table qs))) = Ok T' /\ removed c T T'.
Proof.
  intros Hi Hl. destruct (prune_facts c m l ps x Hs Hx) as (Hm & Hlt & Hp & Hle & Hlv & H2 & Hlp & Hlen & Ht); fold i ps' in Hlt, Hlp, Hlen.
  pose proof (first_live_spec 1 (drop 1 ps')) as HF. destruct (first_live 1 (drop 1 ps')) as [j|].
  - destruct HF as (k & y & -> & Hk & Ht0). destruct (prune_left c m l ps x Hs Hx k y Hi Hl Hk Ht0) as [Hn HR].
    rewrite to_uint8_id by lia. replace (1 + Z.of_nat k + m) with (m + Z.of_nat (S k)) by lia. cbv zeta.
    rewrite (proj2 (Z.eqb_neq _ m)) by lia. rewrite (proj2 (Z.ltb_lt m _)) by lia.
    rewrite (proj2 (Z.ltb_lt _ (Z.of_nat (length ps)))) by lia. cbn [negb assertion obind].
    rewrite to_uint16_id by lia. rewrite entries_ok by lia. cbn [obind].
    replace (Z.of_nat (length ps) - (m + Z.of_nat (S k) - m)) with (Z.of_nat (length ps - S k)) by lia.
    replace (m + Z.of_nat (S k) - m) with (Z.of_nat (S k)) by lia. rewrite !Nat2Z.id.
    eexists. split; [reflexivity|exact HR].
  - pose proof (lives_take_drop 1 ps'). pose proof (lives_bounds (take 1 ps')) as Hb.
    rewrite length_take in Hb. lia.
Qed.

Lemma prune_from_right : i = pred (length ps) -> l <> 2 ->
  exists T', (let new_count := match first_live 1 (drop 1 (rev ps')) with
                               | Some j => to_uint16 (Z.of_nat (length ps) - j)
                               | None => Z.of_nat (length ps)
                               end in
              let! _ := assertion (negb (new_count =? Z.of_nat (length ps))) "new_count != count" in
              let! qs := entries 0 new_count ps' in
              Ok (mkTable m new_count (l - 1) (table qs))) = Ok T' /\ removed c T T'.
Proof.
  intros Hi Hl. destruct (prune_facts c m l ps x Hs Hx) as (Hm & Hlt & Hp & Hle & Hlv & H2 & Hlp & Hlen & Ht); fold i ps' in Hlt, Hlp, Hlen.
  pose proof (first_live_spec 1 (drop 1 (rev ps'))) as HF. destruct (first_live 1 (drop 1 (rev ps'))) as [j|].
  - destruct HF as (k & y & -> & Hk & Ht0). destruct (prune_right c m l ps x Hs Hx k y Hi Hl Hk Ht0) as [Hn HR].
    rewrite to_uint16_id by lia. cbv zeta.
    replace (Z.of_nat (length ps) - (1 + Z.of_nat k)) with (Z.of_nat (length ps - S k)) by lia.
    rewrite (proj2 (Z.eqb_neq _ (Z.of_nat (length ps)))) by lia. cbn [negb assertion obind].
    rewrite entries_ok by lia. cbn [obind]. rewrite !Nat2Z.id, drop_0.
    eexists. split; [reflexivity|exact HR].
  - pose proof (lives_take_drop 1 (rev ps')) as HL. rewrite lives_rev in HL.
    pose proof (lives_bounds (take 1 (rev ps'))) as Hb. rewrite length_take in Hb. lia.
Qed.

End Prune.

(** What [rm] does to the table after it deleted a subnode: no assertion fails. *)
Lemma prune_spec c T x : shape T -> child c T = Some x -> exists T', prune c T = Ok T' /\ removed c T T'.
Proof.
  intros Hs Hx. destruct (prune_cases c T x Hs Hx) as [[-> HR]|(m & l & ps & ->)].
  - eexists. split; [reflexivity|exact HR].
  - destruct (prune_facts c m l ps x Hs Hx) as (Hm & Hi & Hp & Hle & Hlv & H2 & Hlp & Hlen & Ht).
    unfold prune. cbn [count live_nodes min table_of next].
    rewrite (proj2 (Z.ltb_lt 0 _)) by lia. cbn [assertion obind].
    rewrite (proj2 (Z.eqb_neq _ 1)) by lia. cbn [obind]. rewrite set_at_ok by lia. cbn [obind].
    rewrite (proj2 (Z.ltb_lt 1 _)) by lia. cbn [assertion obind]. rewrite to_uint16_id by lia.
    destruct (Z.eqb_spec (l - 1) 1) as [Hl|Hl].
    + destruct (prune_pair c m l ps x Hs Hx) as [H0|H1]; [lia| |].
      * destruct (prune_left_single c m l ps x Hs Hx H0) as (y & Hy & HR); [lia|].
        assert (c = m) as -> by lia. rewrite Z.eqb_refl.
        rewrite (get_at_ok _ _ (Some y)) by (done || lia). cbn [obind]. eexists. split; [reflexivity|].
        replace (l - 1) with 1 by lia. exact HR.
      * destruct (prune_right_single c m l ps x Hs Hx H1) as (y & Hy & HR); [lia|].
        rewrite (proj2 (Z.eqb_neq c m)) by lia. rewrite (proj2 (Z.eqb_eq c _)) by lia.
        rewrite (get_at_ok _ _ (Some y)) by (done || lia). cbn [obind]. eexists. split; [reflexivity|].
        replace (l - 1) with 1 by lia. exact HR.
    + destruct (Z.eqb_spec c m) as [->|Hc0]; [|destruct (Z.eqb_spec c (m + Z.of_nat (length ps) - 1)) as [Hc1|Hc1]].
      * apply (prune_from_left m m l ps x); try done; lia.
      * apply (prune_from_right c m l ps x); try done; lia.
      * eexists. split; [reflexivity|]. apply (prune_interior c m l ps x); try done; lia.
Qed.

(** ** The invariant *)

(** Counters fit, the tables are compact, and there is no subnode without a
    subscription below it. *)
Inductive wf : trie_t -> Prop :=
| wf_node n T : is_uint32 n -> shape T ->
    (forall c t, child c T = Some t -> wf t) ->
    (forall c t, child c T = Some t -> is_redundant t = false) ->
    wf (mkTrie n T).

(** The count of a key. *)
Fixpoint refcount (t : trie_t) (key : bytes) : Z :=
  match key with
  | [] => refcnt t
  | c :: key' =>
      match child (ord c) (subnodes t) with
      | Some t' => refcount t' key'
      | None => 0
      end
  end.

(** Opens a node and keeps its invariant. *)
Ltac open_wf Hw n T Hn Hs HW HR :=
  destruct Hw as [n T Hn Hs HW HR]; pose proof (wf_node n T Hn Hs HW HR) as Hw.

Lemma wf_new_trie : wf new_trie.
Proof. constructor; [done|apply shape_empty| |]; intros c t H; by rewrite child_none in H. Qed.

Lemma refcount_new key : refcount new_trie key = 0.
Proof. destruct key as [|c key]; [done|]. cbn. by rewrite child_none. Qed.

Lemma refcount_range t key : wf t -> is_uint32 (refcount t key).
Proof.
  revert t. induction key as [|c key IH]; intros t Hw; destruct Hw as [n T Hn Hs Hc Hr]; [done|].
  cbn. destruct (child (ord c) T) as [t'|] eqn:E; [|done]. apply IH. by eapply Hc.
Qed.

Lemma redundant_spec n T : is_redundant (mkTrie n T) = false <-> n <> 0 \/ live_nodes T <> 0.
Proof. unfold is_redundant. cbn. lia. Qed.

(** Replacing a subnode keeps the invariant. *)
Lemma wf_put n c t (T T' : Table trie_t) : is_uint32 n -> shape T' -> child c T' = Some t -> wf t ->
  is_redundant t = false ->
  (forall c', c' <> c -> child c' T' = child c' T) ->
  (forall c' t', child c' T = Some t' -> wf t') ->
  (forall c' t', child c' T = Some t' -> is_redundant t' = false) ->
  wf (mkTrie n T').
Proof.
  intros Hn Hs Hc Ht Hr Ho HW HR. constructor; [done|done| |]; intros c' t' E;
    (destruct (decide (c' = c)) as [->|Hne]; [rewrite Hc in E; by injection E as <-|]);
    rewrite Ho in E by done; eauto.
Qed.

(** [add] counts the key, and says whether it is new. *)
Lemma add_spec key t : wf t -> refcount t key < UINT_MAX ->
  exists t', add key t = Ok (refcount t key =? 0, t') /\ wf t' /\ is_redundant t' = false
    /\ forall k, refcount t' k = refcount t k + (if decide (k = key) then 1 else 0).
Proof.
  revert t. induction key as [|c key IH]; intros t Hw Hlt; open_wf Hw n T Hn Hs HW HR.
  - cbn in Hlt. assert (Hn1 : is_uint32 (n + 1)) by (unfold is_uint32 in *; lia). cbn [add refcnt subnodes].
    rewrite to_uint32_id by done. exists (mkTrie (n + 1) T).
    split; [cbn; f_equal; f_equal; lia|]. split; [by constructor|].
    split; [apply redundant_spec; unfold is_uint32 in *; lia|].
    intros [|d k]; cbn [refcount refcnt subnodes]; [done|]. rewrite decide_False by done. lia.
  - cbn [add subnodes refcnt] in *. destruct (extend_spec (ord c) T Hs (ord_range c)) as (T1 & -> & Hl & H1).
    cbn [obind]. destruct (create_spec new_trie (ord c) T1 Hl) as (b & T2 & -> & Hs2 & Hc2 & H2 & Hb). cbn [obind].
    assert (created_ok b T2 = Ok tt) as ->.
    { destruct b; [|done]. unfold created_ok. specialize (Hb eq_refl). destruct (count T2 =? 1);
        [by rewrite Hb|by rewrite (proj2 (Z.ltb_lt _ _))]. }
    cbn [obind]. rewrite slot_spec by (by eapply child_loose). cbn [obind]. rewrite Hc2, H1.
    set (t0 := default new_trie (child (ord c) T)).
    assert (Hw0 : wf t0) by (unfold t0; destruct (child (ord c) T) eqn:E; [by eapply HW|apply wf_new_trie]).
    assert (Hr0 : forall k, refcount (mkTrie n T) (c :: k) = refcount t0 k).
    { intros k. unfold t0. cbn. destruct (child (ord c) T); [done|]. by rewrite refcount_new. }
    rewrite Hr0 in Hlt |- *. destruct (IH t0 Hw0 Hlt) as (t1 & -> & Hw1 & Hn1 & Hk1). cbn [obind].
    rewrite H1 in Hc2. fold t0 in Hc2.
    destruct (put_child (ord c) t0 t1 T2 Hs2 Hc2) as (T3 & -> & Hs3 & Hc3 & H3 & _). cbn [obind].
    assert (Ho : forall c', c' <> ord c -> child c' T3 = child c' T).
    { intros c' Hne. by rewrite H3, H2, H1. }
    exists (mkTrie n T3). split; [done|]. split; [by eapply wf_put|]. split.
    { apply redundant_spec. right. by eapply live_child. }
    intros [|d k]; [rewrite decide_False by done; cbn; lia|]. destruct (decide (d = c)) as [->|Hd].
    + rewrite Hr0. cbn [refcount subnodes]. rewrite Hc3, Hk1.
      destruct (decide (k = key)) as [->|]; [by rewrite decide_True|]. by rewrite decide_False by congruence.
    + cbn [refcount subnodes]. rewrite Ho by (intros E; by apply ord_inj in E).
      rewrite decide_False by congruence. lia.
Qed.

(** The destructor finds every pointer it follows. *)
Lemma destroy_spec t : wf t -> destroy t = Ok tt.
Proof.
  induction 1 as [n T Hn Hs HW IH HR]. pose proof Hs as [_ H]. cbn [destroy].
  assert (Hch : forall i x, slots T !! i = Some (Some x) -> destroy x = Ok tt).
  { intros i x Hi. by apply child_slot, IH in Hi. }
  destruct (next T) as [|[x|]|ps] eqn:En; unfold slots in Hch; rewrite En in Hch.
  - by destruct H as [-> _].
  - destruct H as [-> _]. by apply (Hch 0%nat).
  - by destruct H as [-> _].
  - destruct H as (-> & _ & -> & H2 & _). pose proof (lives_bounds ps).
    rewrite (proj2 (Z.eqb_neq _ 1)), (proj2 (Z.ltb_lt 1 _)) by lia.
    destruct (each_total (fun _ t' => ofmap (fun _ => @nil unit) (destroy t')) 0 ps) as [xs ->]; [|done].
    intros i x Hi. rewrite (Hch i x Hi). by eexists.
Qed.

Lemma refcount_redundant t k : wf t -> is_redundant t = true -> refcount t k = 0.
Proof.
  intros Hw Hr. destruct Hw as [n T Hn Hs HW HR]. unfold is_redundant in Hr. cbn in Hr.
  destruct k as [|c k]; [cbn; lia|]. cbn. destruct (child (ord c) T) as [x|] eqn:E; [|done].
  apply live_child in E; [lia|done].
Qed.

(** The counts after one subscription to a key is removed, if there is one. *)
Definition discounted (key : bytes) (t t' : trie_t) : Prop :=
  forall k, refcount t' k = Z.max 0 (refcount t k - (if decide (k = key) then 1 else 0)).

Lemma discounted_none key t : wf t -> refcount t key = 0 -> discounted key t t.
Proof.
  intros Hw H0 k. pose proof (refcount_range t k Hw) as [Hk _].
  destruct (decide (k = key)) as [->|]; lia.
Qed.

Lemma discounted_child c key n (T T' : Table trie_t) t0 t1 :
  wf (mkTrie n T) -> child (ord c) T = Some t0 -> discounted key t0 t1 ->
  (forall k, match child (ord c) T' with Some t' => refcount t' k | None => 0 end = refcount t1 k) ->
  (forall c', c' <> ord c -> child c' T' = child c' T) ->
  discounted (c :: key) (mkTrie n T) (mkTrie n T').
Proof.
  intros Hw E0 Hd Hc Ho k. pose proof (refcount_range (mkTrie n T) k Hw) as [Hk _]. destruct k as [|d k].
  - rewrite decide_False by done. cbn [refcount refcnt] in *. lia.
  - cbn [refcount subnodes] in *. destruct (decide (d = c)) as [->|Hne].
    + rewrite Hc, Hd, E0. destruct (decide (k = key)) as [->|]; [by rewrite decide_True|].
      by rewrite decide_False by congruence.
    + rewrite Ho by (intros E; by apply ord_inj in E). rewrite decide_False by congruence. lia.
Qed.

(** [rm] discounts the key, and says whether it was the last. *)
Lemma rm_spec key t : wf t ->
  exists t', rm key t = Ok (refcount t key =? 1, t') /\ wf t' /\ discounted key t t'.
Proof.
  revert t. induction key as [|c key IH]; intros t Hw; open_wf Hw n T Hn Hs HW HR.
  - cbn [rm refcnt subnodes refcount]. destruct (Z.eqb_spec n 0) as [->|H0].
    + exists (mkTrie 0 T). split; [done|]. split; [done|]. by apply discounted_none.
    + assert (Hn1 : is_uint32 (n - 1)) by (unfold is_uint32 in *; lia). rewrite to_uint32_id by done.
      exists (mkTrie (n - 1) T). split; [f_equal; f_equal; lia|]. split; [by constructor|].
      intros k. pose proof (refcount_range (mkTrie n T) k Hw) as [Hk _]. destruct k as [|d k].
      * cbn [refcount refcnt]. rewrite decide_True by done. unfold is_uint32 in Hn. lia.
      * rewrite decide_False by done. cbn [refcount subnodes] in *. lia.
  - cbn [rm subnodes refcnt].
    destruct ((count T =? 0) || out_of_range (ord c) T) eqn:Er.
    { apply no_slot in Er; [|done]. exists (mkTrie n T). assert (refcount (mkTrie n T) (c :: key) = 0) as H0 by (cbn; by rewrite Er).
      rewrite H0. split_and!; [done|done|by apply discounted_none]. }
    apply orb_false_iff in Er as [_ Er]. rewrite slot_spec by (by apply shape_loose). cbn [obind].
    destruct (child (ord c) T) as [t0|] eqn:E0.
    2: { exists (mkTrie n T). assert (refcount (mkTrie n T) (c :: key) = 0) as H0 by (cbn; by rewrite E0).
         rewrite H0. split_and!; [done|done|by apply discounted_none]. }
    destruct (IH t0 (HW _ _ E0)) as (t1 & -> & Hw1 & Hk1). cbn [obind].
    destruct (put_child (ord c) t0 t1 T Hs E0) as (T1 & -> & Hs1 & Hc1 & H1 & _). cbn [obind].
    assert (Hret : refcount (mkTrie n T) (c :: key) = refcount t0 key) by (cbn; by rewrite E0). rewrite Hret.
    destruct (is_redundant t1) eqn:Er1.
    + rewrite (destroy_spec t1 Hw1). cbn [obind].
      destruct (prune_spec (ord c) T1 t1 Hs1 Hc1) as (T2 & -> & Hs2 & Hc2 & H2). cbn [obind].
      assert (Ho : forall c', c' <> ord c -> child c' T2 = child c' T) by (intros; by rewrite H2, H1).
      exists (mkTrie n T2). split; [done|]. split.
      * constructor; [done|done| |]; intros c' t' E; (destruct (decide (c' = ord c)) as [->|Hne];
          [by rewrite Hc2 in E|]); rewrite Ho in E by done; eauto.
      * apply (discounted_child c key n T T2 t0 t1); try done. intros k. rewrite Hc2. by rewrite refcount_redundant.
    + exists (mkTrie n T1). split; [done|]. split; [by eapply wf_put|].
      apply (discounted_child c key n T T1 t0 t1); try done. intros k. by rewrite Hc1.
Qed.

(** [check] looks for a subscription to a prefix of the message. *)
Lemma check_spec d t : wf t ->
  exists b, check d t = Ok b /\ (b = true <-> exists k, k `prefix_of` d /\ refcount t k <> 0).
Proof.
  revert t. induction d as [|c d IH]; intros t Hw; open_wf Hw n T Hn Hs HW HR; cbn [check refcnt subnodes];
    (destruct (Z.eqb_spec n 0) as [->|H0]; cbn [negb]; [|exists true; split; [done|]; split; [|done];
      intros _; exists []; split; [apply prefix_nil|done]]).
  - exists false. split; [done|]. split; [done|]. intros (k & Hk & H). by apply prefix_nil_inv in Hk as ->.
  - assert (Hno : child (ord c) T = None -> false = true <-> exists k, k `prefix_of` c :: d /\ refcount (mkTrie 0 T) k <> 0).
    { intros E. split; [done|]. intros ([|a k] & Hk & H); [done|]. apply prefix_cons_inv_1 in Hk as ->.
      cbn in H. by rewrite E in H. }
    destruct (out_of_range (ord c) T) eqn:Er.
    { exists false. split; [done|]. apply Hno, no_slot; [done|]. by rewrite Er, orb_true_r. }
    rewrite slot_spec by (by apply shape_loose). cbn [obind]. destruct (child (ord c) T) as [t0|] eqn:E0.
    + destruct (IH t0 (HW _ _ E0)) as (b & Hb & Hiff). exists b. split; [done|]. rewrite Hiff. split.
      * intros (k & Hk & H). exists (c :: k). split; [by apply prefix_cons|]. cbn. by rewrite E0.
      * intros ([|a k] & Hk & H); [done|]. pose proof Hk as Hk'. apply prefix_cons_inv_1 in Hk as ->.
        exists k. split; [by eapply prefix_cons_inv_2|]. cbn in H. by rewrite E0 in H.
    + destruct (Z.eqb_spec (count T) 1) as [H1|]; [by destruct (child_single (ord c) T Hs Er H1)|].
      exists false. split; [done|by apply Hno].
Qed.

(** The keys of a trie. *)
Definition is_key (t : trie_t) (k : bytes) : Prop := refcount t k <> 0.

Lemma is_key_cons n T c k : is_key (mkTrie n T) (c :: k) <-> exists x, child (ord c) T = Some x /\ is_key x k.
Proof.
  unfold is_key. cbn. destruct (child (ord c) T) as [x|]; split.
  - intros H. by exists x.
  - by intros (y & [= <-] & H).
  - done.
  - by intros (y & [=] & _).
Qed.

(** [apply] calls back with every key once, in the order of the keys. *)
Lemma apply_helper_spec t : wf t -> forall buff,
  exists ks, apply_helper buff t = Ok (app buff <$> ks) /\ lists is_key t ks.
Proof.
  induction 1 as [n T Hn Hs HW IH HR]. intros buff. cbn [apply_helper].
  assert (Hhere : (if n =? 0 then [] else [buff]) = app buff <$> (if negb (n =? 0) then [[]] else [])).
  { destruct (n =? 0); [done|]. cbn. by rewrite app_nil_r. }
  assert (Hnode : forall ks, lists_from is_key (min T) (slots T) ks ->
    lists is_key (mkTrie n T) ((if negb (n =? 0) then [[]] else []) ++ ks)).
  { intros ks HL. apply (lists_node is_key _ T); [done|done| |apply is_key_cons].
    unfold is_key. cbn. destruct (Z.eqb_spec n 0); cbn; [split; [done|congruence]|done]. }
  assert (Hf : 0 <= min T -> min T + Z.of_nat (length (slots T)) <= 256 ->
    exists ks, each (fun c t' => apply_helper (buff ++ [chr (min T + c)]) t') 0 (slots T) = Ok (app buff <$> ks)
      /\ lists_from is_key (min T) (slots T) ks).
  { intros H0 Hle. destruct (each_lists is_key (fun c t' => apply_helper (buff ++ [chr (min T + c)]) t') buff (min T) 0 (slots T))
      as (ks & E & HL); [lia|lia| |rewrite Z.add_0_r in HL; by exists ks].
    intros i x Hi. by apply (IH _ _ (child_slot i T x Hi)). }
  pose proof Hs as [Hm H]. destruct (next T) as [|[x|]|ps] eqn:En; unfold slots in Hnode, Hf; rewrite En in Hnode, Hf.
  1, 3: destruct H as [-> _]; eexists; split; [rewrite Hhere; cbn [Z.eqb]; by rewrite <- (app_nil_r (if negb _ then _ else _)) at 1|];
    by apply Hnode, lists_from_none.
  - destruct H as [-> _]. destruct Hf as (ks & E & HL); [cbn; lia..|].
    change (1 =? 0) with false. change (1 =? 1) with true. cbn [each] in E.
    rewrite Z.add_0_r in E. destruct (apply_helper _ x) as [xs| |]; try done. cbn [obind] in E |- *.
    apply Ok_inj in E. rewrite app_nil_r in E. rewrite Hhere, E. cbn [obind]. rewrite <- fmap_app. eexists. split; [done|by apply Hnode].
  - destruct H as (-> & Hle & Hl & H2 & _). pose proof (lives_bounds ps).
    destruct Hf as (ks & E & HL); [lia|lia|]. rewrite !(proj2 (Z.eqb_neq (Z.of_nat (length ps)) _)) by lia.
    rewrite E. cbn [obind]. rewrite Hhere, <- fmap_app. eexists. split; [done|by apply Hnode].
Qed.

(** ** The refinement *)

Definition represents (t : trie_t) (M : gmultiset bytes) : Prop :=
  wf t /\ forall k, refcount t k = Z.of_nat (multiplicity k M).

Lemma represents_new : represents new_trie ∅.
Proof. split; [apply wf_new_trie|]. intros k. by rewrite refcount_new, multiplicity_empty. Qed.

Lemma represents_key t M k : represents t M -> refcount t k <> 0 <-> k ∈ M.
Proof. intros [_ H]. rewrite H, elem_of_multiplicity. lia. Qed.

Lemma perform_promised n o t M : Z.of_nat n < UINT_MAX -> represents t M -> (forall k, (multiplicity k M <= n)%nat) ->
  exists t', perform o t = Ok ((promised o M).1, t') /\ represents t' (promised o M).2
    /\ forall k, (multiplicity k (promised o M).2 <= S n)%nat.
Proof.
  intros Hn HR Hb. pose proof HR as [Hw Hk]. destruct o as [key|key|d|]; cbn [perform promised fst snd].
  - destruct (add_spec key t Hw) as (t' & -> & Hw' & _ & Hk'); [rewrite Hk; specialize (Hb key); lia|].
    cbn [obind]. exists t'. split; [|split; [split; [done|]|]].
    + do 3 f_equal. rewrite Hk. case_bool_decide; lia.
    + intros k. rewrite Hk', Hk, multiplicity_disj_union, multiplicity_singleton. repeat case_decide; congruence || lia.
    + intros k. rewrite multiplicity_disj_union, multiplicity_singleton. specialize (Hb k). case_decide; lia.
  - destruct (rm_spec key t Hw) as (t' & -> & Hw' & Hk'). cbn [obind]. exists t'. split; [|split; [split; [done|]|]].
    + do 3 f_equal. rewrite Hk. case_bool_decide; lia.
    + intros k. rewrite Hk', Hk, multiplicity_difference, multiplicity_singleton. repeat case_decide; congruence || lia.
    + intros k. rewrite multiplicity_difference. specialize (Hb k). lia.
  - destruct (check_spec d t Hw) as (b & -> & Hiff). cbn [obind]. exists t. split; [|split; [done|intros k; specialize (Hb k); lia]].
    do 3 f_equal. apply Bool.eq_iff_eq_true. rewrite Hiff, bool_decide_eq_true, Exists_exists.
    split; intros (k & H1 & H2); exists k; rewrite ?gmultiset_elem_of_elements, ?(represents_key t M) in *; done.
  - destruct (apply_helper_spec t Hw []) as (ks & E & HL). unfold apply. rewrite E. cbn [obind]. exists t.
    split; [|split; [done|intros k; specialize (Hb k); lia]]. do 3 f_equal.
    rewrite list_fmap_id. apply (lists_unique is_key t); [done|]. intros k.
    rewrite gmultiset_elem_of_dom. symmetry. by apply represents_key.
Qed.

Lemma perform_all_promised os t M n : Z.of_nat (n + length os) <= UINT_MAX -> represents t M ->
  (forall k, (multiplicity k M <= n)%nat) ->
  exists t', perform_all os t = Ok ((promised_all os M).1, t') /\ represents t' (promised_all os M).2.
Proof.
  revert t M n. induction os as [|o os IH]; intros t M n Hn HR Hb; [by exists t|]. cbn [length] in Hn.
  destruct (perform_promised n o t M) as (t1 & E & HR1 & Hb1); [lia|done..|]. cbn [perform_all promised_all].
  rewrite E. cbn [obind]. destruct (promised o M) as [a M1]. cbn [fst snd] in HR1, Hb1.
  destruct (IH t1 M1 (S n)) as (t2 & E2 & HR2); [lia|done..|]. cbn [fst]. rewrite E2. cbn [obind].
  destruct (promised_all os M1) as [answers M2]. by exists t2.
Qed.

(** C8: the trie refines the multiset of the subscriptions: for any sequence of
    fewer than 2^32 operations on a new trie, no assertion fails and no null
    pointer is followed, every operation answers as the multiset does ([add]:
    the key is new; [rm]: it was the last; [check]: a subscribed key is a prefix
    of the message; [apply]: the distinct keys in order), the trie that is left
    counts the keys of the multiset, its tables are compact, it has no redundant
    node below the root, and its destructor succeeds. *)
Theorem trie_refines_multiset os : Z.of_nat (length os) <= UINT_MAX ->
  exists t, perform_all os new_trie = Ok ((promised_all os ∅).1, t)
    /\ represents t (promised_all os ∅).2 /\ destroy t = Ok tt.
Proof.
  intros Hn. destruct (perform_all_promised os new_trie ∅ 0) as (t & E & HR);
    [done|apply represents_new|intros k; by rewrite multiplicity_empty|].
  exists t. split_and!; [done|done|apply destroy_spec, HR].
Qed.

(** Two topics, one of them subscribed twice; the removals compact the root. *)
Definition trie_session : list operation :=
  [Add (bs "weather"); Add (bs "news"); Add (bs "news"); Check (bs "newsletter"); Rm (bs "weather");
   Rm (bs "news"); Apply; Rm (bs "news"); Check (bs "newsletter"); Rm (bs "sport")].

Lemma trie_refines_multiset_witness :
  (promised_all trie_session ∅).1
    = [Said true; Said true; Said false; Said true; Said true; Said false; Listed [bs "news"]; Said true;
       Said false; Said false]
  /\ exists t, perform_all trie_session new_trie = Ok ((promised_all trie_session ∅).1, t)
    /\ represents t (promised_all trie_session ∅).2 /\ destroy t = Ok tt.
Proof. split; [vm_compute; reflexivity|]. apply (trie_refines_multiset trie_session). vm_compute. congruence. Defined.
