(* ===== verification/Mtrie.v ===== *)
(** * The subscription trie of a publisher ([lib/zeromq/mtrie.cpp])

    A node holds the set of the pipes that subscribe to the key that leads to
    it, or a null pointer.  A pipe is its address, and a [std::set] of pipes is
    iterated in the order of the addresses.  The tables are those of
    [ZmqTables]; the callbacks of [rm] and [match] are recorded as the lists of
    their arguments. *)

From stdpp Require Import tactics sorting gmap.
From S2P Require Import Prelude ZmqTables.

Abbreviation pipes_t := (gset Z).

(** [begin] to [end]. *)
Definition iterate (X : pipes_t) : list Z := merge_sort Z.le (elements X).

Inductive mtrie_t : Type := mkMtrie (pipes : option pipes_t) (subnodes : Table mtrie_t).

Definition pipes (t : mtrie_t) : option pipes_t := let 'mkMtrie p _ := t in p.
Definition subnodes (t : mtrie_t) : Table mtrie_t := let 'mkMtrie _ T := t in T.

Definition new_mtrie : mtrie_t := mkMtrie None empty_table.

(** The destructor. *)
Fixpoint destroy (t : mtrie_t) : outcome unit :=
  match t with
  | mkMtrie _ T =>
      if count T =? 1 then
        match next T with
        | node (Some t') => destroy t'
        | _ => Aborted "next.node"
        end
      else if 1 <? count T then
        match next T with
        | table ps => ofmap (fun _ => tt) (each (fun _ t' => ofmap (fun _ => @nil unit) (destroy t')) 0 ps)
        | _ => Aborted "next.table"
        end
      else Ok tt
  end.

Definition is_redundant (t : mtrie_t) : bool :=
  match pipes t with None => live_nodes (subnodes t) =? 0 | Some _ => false end.

(** ** [add] *)

Fixpoint add_helper (prefix_ : bytes) (pipe_ : Z) (t : mtrie_t) : outcome (bool * mtrie_t) :=
  match prefix_ with
  | [] =>
      let result := match pipes t with None => true | Some _ => false end in
      Ok (result, mkMtrie (Some ({[ pipe_ ]} ∪ default ∅ (pipes t))) (subnodes t))
  | c :: prefix' =>
      let! T := extend (ord c) (subnodes t) in
      let! (_, T) := create new_mtrie (ord c) T in
      let! p := slot (ord c) T in
      match p with
      | None => Aborted "null pointer"
      | Some t' =>
          let! (r, t') := add_helper prefix' pipe_ t' in
          let! T := put (ord c) (Some t') T in
          Ok (r, mkMtrie (pipes t) T)
      end
  end.

Definition add := add_helper.

(** ** [rm] of a pipe *)

(** What [pipes->erase] leaves, with the set deleted when it is empty. *)
Definition erase_pipe (pipe_ : Z) (X : pipes_t) : option pipes_t :=
  let X := X ∖ {[ pipe_ ]} in if decide (X = ∅) then None else Some X.

(** The loop over the table: the keys the callback got, the table, and
    [live_nodes], [new_min] and [new_max]; [c] is an index, [m] is [min]. *)
Definition sweep (f : Z -> mtrie_t -> outcome (list bytes * mtrie_t)) (m : Z)
  : Z -> list (option mtrie_t) -> Z -> Z -> Z
    -> outcome (list bytes * list (option mtrie_t) * Z * Z * Z) :=
  fix go c ps live new_min new_max :=
    match ps with
    | [] => Ok ([], [], live, new_min, new_max)
    | None :: ps' =>
        let! (keys, qs, live, new_min, new_max) := go (c + 1) ps' live new_min new_max in
        Ok (keys, None :: qs, live, new_min, new_max)
    | Some t :: ps' =>
        let! (keys, t) := f c t in
        if is_redundant t then
          let! _ := destroy t in
          let! _ := assertion (0 <? live) "live_nodes > 0" in
          let! (keys', qs, live, new_min, new_max) :=
            go (c + 1) ps' (to_uint16 (live - 1)) new_min new_max in
          Ok (keys ++ keys', None :: qs, live, new_min, new_max)
        else
          let! (keys', qs, live, new_min, new_max) :=
            go (c + 1) ps' live (if c + m <? new_min then to_uint8 (c + m) else new_min)
               (if new_max <? c + m then to_uint8 (c + m) else new_max) in
          Ok (keys ++ keys', Some t :: qs, live, new_min, new_max)
    end.

(** What follows the loop.  The union of an empty table holds a null pointer
    that is never read. *)
Definition compact (m n : Z) (ps : list (option mtrie_t)) (live new_min new_max : Z)
  : outcome (Table mtrie_t) :=
  let! _ := assertion (1 <? n) "count > 1" in
  if live =? 0 then Ok (mkTable m 0 live unset)
  else if live =? 1 then
    let! _ := assertion (new_min =? new_max) "new_min == new_max" in
    let! _ := assertion ((m <=? new_min) && (new_min <? m + n)) "new_min >= min" in
    let! p := get_at (new_min - m) ps in
    match p with
    | None => Aborted "node"
    | Some _ => Ok (mkTable new_min 1 live (node p))
    end
  else if (m <? new_min) || (new_max <? m + n - 1) then
    let! _ := assertion (1 <? new_max - new_min + 1) "new_max - new_min + 1 > 1" in
    let! _ := assertion (m <=? new_min) "new_min >= min" in
    let! _ := assertion (new_max <=? m + n - 1) "new_max <= min + count - 1" in
    let! _ := assertion (new_max - new_min + 1 <? n) "new_max - new_min + 1 < count" in
    let count' := to_uint16 (new_max - new_min + 1) in
    let! qs := entries (new_min - m) count' ps in
    Ok (mkTable new_min count' live (table qs))
  else Ok (mkTable m n live (table ps)).

(** The keys the callback gets, in order, and the trie. *)
Fixpoint rm_pipe_helper (pipe_ : Z) (buff : bytes) (t : mtrie_t) : outcome (list bytes * mtrie_t) :=
  match t with
  | mkMtrie ps T =>
      let here := match ps with
                  | Some X => if decide (pipe_ ∈ X) then
                                if decide (X ∖ {[ pipe_ ]} = ∅) then [buff] else []
                              else []
                  | None => []
                  end in
      let ps := match ps with
                | Some X => if decide (pipe_ ∈ X) then erase_pipe pipe_ X else Some X
                | None => None
                end in
      if count T =? 0 then Ok (here, mkMtrie ps T)
      else if count T =? 1 then
        match next T with
        | node (Some t') =>
            let! (keys, t') := rm_pipe_helper pipe_ (buff ++ [chr (min T)]) t' in
            if is_redundant t' then
              let! _ := destroy t' in
              let live := to_uint16 (live_nodes T - 1) in
              let! _ := assertion (live =? 0) "live_nodes == 0" in
              Ok (here ++ keys, mkMtrie ps (mkTable (min T) 0 live (node None)))
            else Ok (here ++ keys, mkMtrie ps (mkTable (min T) (count T) (live_nodes T) (node (Some t'))))
        | _ => Aborted "next.node"
        end
      else
        match next T with
        | table qs =>
            let! (keys, qs, live, new_min, new_max) :=
              sweep (fun c t' => rm_pipe_helper pipe_ (buff ++ [chr (min T + c)]) t') (min T) 0 qs
                (live_nodes T) (to_uint8 (min T + count T - 1)) (min T) in
            let! T := compact (min T) (count T) qs live new_min new_max in
            Ok (here ++ keys, mkMtrie ps T)
        | _ => Aborted "next.table"
        end
  end.

Definition rm_pipe (pipe_ : Z) (t : mtrie_t) : outcome (list bytes * mtrie_t) := rm_pipe_helper pipe_ [] t.

(** ** [rm] of a subscription *)

Definition prune (c : Z) (T : Table mtrie_t) : outcome (Table mtrie_t) :=
  let! _ := assertion (0 <? count T) "count > 0" in
  let live := to_uint16 (live_nodes T - 1) in
  if count T =? 1 then
    let! _ := assertion (live =? 0) "live_nodes == 0" in
    Ok (mkTable (min T) 0 live (node None))
  else
    let! ps := table_of T in
    let! ps := set_at (c - min T) None ps in
    let! _ := assertion (1 <? live_nodes T) "live_nodes > 1" in
    if live =? 1 then
      match first_live 0 ps with
      | None => Aborted "i < count"
      | Some i => let! p := get_at i ps in Ok (mkTable (to_uint8 (min T + i)) 1 live (node p))
      end
    else if c =? min T then
      match first_live 1 (drop 1 ps) with
      | None => Aborted "i < count"
      | Some i =>
          let count' := to_uint16 (count T - i) in
          let! ps := entries i count' ps in
          Ok (mkTable (to_uint8 (min T + i)) count' live (table ps))
      end
    else if c =? min T + count T - 1 then
      match first_live 1 (drop 1 (rev ps)) with
      | None => Aborted "i < count"
      | Some i =>
          let count' := to_uint16 (count T - i) in
          let! ps := entries 0 count' ps in
          Ok (mkTable (min T) count' live (table ps))
      end
    else Ok (mkTable (min T) (count T) live (table ps)).

Fixpoint rm_helper (prefix_ : bytes) (pipe_ : Z) (t : mtrie_t) : outcome (bool * mtrie_t) :=
  match prefix_ with
  | [] =>
      match pipes t with
      | None => Ok (true, t)
      | Some X =>
          let! _ := assertion (bool_decide (pipe_ ∈ X)) "erased == 1" in
          let ps := erase_pipe pipe_ X in
          Ok (match ps with None => true | Some _ => false end, mkMtrie ps (subnodes t))
      end
  | c :: prefix' =>
      let T := subnodes t in
      if (count T =? 0) || out_of_range (ord c) T then Ok (false, t)
      else
        let! next_node := slot (ord c) T in
        match next_node with
        | None => Ok (false, t)
        | Some t' =>
            let! (ret, t') := rm_helper prefix' pipe_ t' in
            let! T := put (ord c) (Some t') T in
            if is_redundant t' then
              let! _ := destroy t' in
              let! T := prune (ord c) T in
              Ok (ret, mkMtrie (pipes t) T)
            else Ok (ret, mkMtrie (pipes t) T)
        end
  end.

Definition rm := rm_helper.

(** ** [match]: the pipes that are signalled, in order *)

Fixpoint match_ (data_ : bytes) (current : mtrie_t) : outcome (list Z) :=
  let here := match pipes current with Some X => iterate X | None => [] end in
  match data_ with
  | [] => Ok here
  | c :: data' =>
      let T := subnodes current in
      if count T =? 0 then Ok here
      else if count T =? 1 then
        if negb (ord c =? min T) then Ok here
        else
          let! p := node_of T in
          match p with
          | None => Aborted "null pointer"
          | Some t' => let! below := match_ data' t' in Ok (here ++ below)
          end
      else if out_of_range (ord c) T then Ok here
      else
        let! ps := table_of T in
        let! p := get_at (ord c - min T) ps in
        match p with
        | None => Ok here
        | Some t' => let! below := match_ data' t' in Ok (here ++ below)
        end
  end.

(** ** A trie behind its operations *)

Inductive operation :=
| Add (key : bytes) (pipe_ : Z)
| Rm (key : bytes) (pipe_ : Z)
| RmPipe (pipe_ : Z)
| Match (data : bytes).

Inductive answer := Said (b : bool) | Listed (keys : list bytes) | Signalled (pipes : list Z).

Definition perform (o : operation) (t : mtrie_t) : outcome (answer * mtrie_t) :=
  match o with
  | Add k p => let! (b, t) := add k p t in Ok (Said b, t)
  | Rm k p => let! (b, t) := rm k p t in Ok (Said b, t)
  | RmPipe p => let! (ks, t) := rm_pipe p t in Ok (Listed ks, t)
  | Match d => let! ps := match_ d t in Ok (Signalled ps, t)
  end.

Fixpoint perform_all (os : list operation) (t : mtrie_t) : outcome (list answer * mtrie_t) :=
  match os with
  | [] => Ok ([], t)
  | o :: os' =>
      let! (a, t) := perform o t in
      let! (answers, t) := perform_all os' t in
      Ok (a :: answers, t)
  end.

(** ** What a trie promises

    A map from topics to the pipes that subscribe to them, none of them empty.
    Removing a subscription that the pipe does not have, from a topic that
    others subscribe to, is an abort; removing one from a topic nobody
    subscribes to answers whether there is a longer topic (or the topic is
    empty). *)

Abbreviation topics := (gmap bytes pipes_t).

Definition without (pipe_ : Z) (M : topics) : topics := omap (erase_pipe pipe_) M.

Definition promised (o : operation) (M : topics) : outcome (answer * topics) :=
  match o with
  | Add k p => Ok (Said (bool_decide (M !! k = None)), <[k := {[ p ]} ∪ default ∅ (M !! k)]> M)
  | Rm k p =>
      match M !! k with
      | Some X =>
          if decide (p ∈ X) then
            Ok (Said (bool_decide (X ∖ {[ p ]} = ∅)), partial_alter (fun _ => erase_pipe p X) k M)
          else Aborted "erased == 1"
      | None => Ok (Said (bool_decide (k = [] \/ Exists (fun k' => k `prefix_of` k') (elements (dom M)))), M)
      end
  | RmPipe p =>
      Ok (Listed (merge_sort bytes_le (elements (filter (fun k => M !! k = Some {[ p ]}) (dom M)))), without p M)
  | Match d =>
      Ok (Signalled (concat (map (fun n => iterate (default ∅ (M !! take n d))) (seq 0 (S (length d))))), M)
  end.

Fixpoint promised_all (os : list operation) (M : topics) : outcome (list answer * topics) :=
  match os with
  | [] => Ok ([], M)
  | o :: os' =>
      let! (a, M) := promised o M in
      let! (answers, M) := promised_all os' M in
      Ok (a :: answers, M)
  end.
