(* ===== verification/MtrieTheorems.v ===== *)
(** * The publisher's trie refines a map from topics to pipes

    Every operation of [mtrie_t] answers, or aborts, as the map of [promised]
    does; the tables stay in their compact form. *)

From stdpp Require Import tactics sorting gmap.
From S2P Require Import Prelude ZmqTables Mtrie.

(** ** Pruning *)

Section Prune.
Context (c m l : Z) (ps : list (option mtrie_t)) (x : mtrie_t).
Let T : Table mtrie_t := mkTable m (Z.of_nat (length ps)) l (table ps).
Context (Hs : shape T) (Hx : child c T = Some x).
Let i : nat := Z.to_nat (c - m).
Let ps' : list (option mtrie_t) := <[i := None]> ps.

Lemma prune_to_single : l = 2 ->
  exists T', match first_live 0 ps' with
             | None => Aborted "i < count"
             | Some j => let! p := get_at j ps' in Ok (mkTable (to_uint8 (m + j)) 1 (l - 1) (node p))
             end = Ok T' /\ removed c T T'.
Proof.
  intros Hl. destruct (prune_facts c m l ps x Hs Hx) as (Hm & Hlt & Hp & Hle & Hlv & H2 & Hlp & Hlen & Ht).
  fold i ps' in Hlt, Hlp, Hlen. pose proof (first_live_spec 0 ps') as HF. destruct (first_live 0 ps') as [j|]; [|lia].
  destruct HF as (k & y & -> & Hk & Ht0). pose proof (lookup_lt_Some _ _ _ Hk) as Hkl.
  rewrite Z.add_0_l, (get_at_ok _ _ (Some y)) by (rewrite ?Nat2Z.id; done || lia). cbn [obind].
  rewrite to_uint8_id by lia. eexists. split; [reflexivity|].
  pose proof (take_drop_middle ps' _ _ Hk) as E.
  destruct (shape_single m (take k ps') y (drop (S k) ps')) as [HT Hc]; [done| |lia| |].
  { rewrite <- E, lives_app in Hlp. cbn [lives] in Hlp. lia. }
  { rewrite E. lia. }
  rewrite E in Hc. rewrite length_take in HT, Hc. replace (k `min` length ps')%nat with k in HT, Hc by lia.
  rewrite Hl. apply (prune_children c m l ps x Hs Hx); [exact HT|]. intros c'. rewrite Hc. unfold ps'.
  by rewrite length_insert, Hl.
Qed.

Lemma mtrie_prune_from_left : i = 0%nat -> l <> 2 ->
  exists T', match first_live 1 (drop 1 ps') with
             | None => Aborted "i < count"
             | Some j =>
                 let count' := to_uint16 (Z.of_nat (length ps) - j) in
                 let! qs := entries j count' ps' in
                 Ok (mkTable (to_uint8 (m + j)) count' (l - 1) (table qs))
             end = Ok T' /\ removed c T T'.
Proof.
  intros Hi Hl. destruct (prune_facts c m l ps x Hs Hx) as (Hm & Hlt & Hp & Hle & Hlv & H2 & Hlp & Hlen & Ht).
  fold i ps' in Hlt, Hlp, Hlen. pose proof (first_live_spec 1 (drop 1 ps')) as HF.
  destruct (first_live 1 (drop 1 ps')) as [j|].
  - destruct HF as (k & y & -> & Hk & Ht0). destruct (prune_left c m l ps x Hs Hx k y Hi Hl Hk Ht0) as [Hn HR].
    replace (1 + Z.of_nat k) with (Z.of_nat (S k)) by lia. rewrite to_uint8_id, to_uint16_id by lia. cbv zeta.
    replace (Z.of_nat (length ps) - Z.of_nat (S k)) with (Z.of_nat (length ps - S k)) by lia.
    rewrite entries_ok by lia. cbn [obind]. rewrite !Nat2Z.id. eexists. split; [reflexivity|exact HR].
  - pose proof (lives_take_drop 1 ps'). pose proof (lives_bounds (take 1 ps')) as Hb.
    rewrite length_take in Hb. lia.
Qed.

Lemma mtrie_prune_from_right : i = pred (length ps) -> l <> 2 ->
  exists T', match first_live 1 (drop 1 (rev ps')) with
             | None => Aborted "i < count"
             | Some j =>
                 let count' := to_uint16 (Z.of_nat (length ps) - j) in
                 let! qs := entries 0 count' ps' in
                 Ok (mkTable m count' (l - 1) (table qs))
             end = Ok T' /\ removed c T T'.
Proof.
  intros Hi Hl. destruct (prune_facts c m l ps x Hs Hx) as (Hm & Hlt & Hp & Hle & Hlv & H2 & Hlp & Hlen & Ht).
  fold i ps' in Hlt, Hlp, Hlen. pose proof (first_live_spec 1 (drop 1 (rev ps'))) as HF.
  destruct (first_live 1 (drop 1 (rev ps'))) as [j|].
  - destruct HF as (k & y & -> & Hk & Ht0). destruct (prune_right c m l ps x Hs Hx k y Hi Hl Hk Ht0) as [Hn HR].
    rewrite to_uint16_id by lia. cbv zeta.
    replace (Z.of_nat (length ps) - (1 + Z.of_nat k)) with (Z.of_nat (length ps - S k)) by lia.
    rewrite entries_ok by lia. cbn [obind]. rewrite !Nat2Z.id, drop_0. eexists. split; [reflexivity|exact HR].
  - pose proof (lives_take_drop 1 (rev ps')) as HL. rewrite lives_rev in HL.
    pose proof (lives_bounds (take 1 (rev ps'))) as Hb. rewrite length_take in Hb. lia.
Qed.

End Prune.

Lemma mtrie_prune_spec c T x : shape T -> child c T = Some x -> exists T', prune c T = Ok T' /\ removed c T T'.
Proof.
  intros Hs Hx. destruct (prune_cases c T x Hs Hx) as [[-> HR]|(m & l & ps & ->)].
  - eexists. split; [reflexivity|exact HR].
  - destruct (prune_facts c m l ps x Hs Hx) as (Hm & Hi & Hp & Hle & Hlv & H2 & Hlp & Hlen & Ht).
    unfold prune. cbn [count live_nodes min table_of next].
    rewrite (proj2 (Z.ltb_lt 0 _)) by lia. cbn [assertion obind].
    rewrite (proj2 (Z.eqb_neq _ 1)) by lia. cbn [obind]. rewrite set_at_ok by lia. cbn [obind].
    rewrite (proj2 (Z.ltb_lt 1 _)) by lia. cbn [assertion obind]. rewrite to_uint16_id by lia.
    destruct (Z.eqb_spec (l - 1) 1) as [Hl|Hl]; [apply (prune_to_single c m l ps x); try done; lia|].
    destruct (Z.eqb_spec c m) as [->|Hc0]; [|destruct (Z.eqb_spec c (m + Z.of_nat (length ps) - 1)) as [Hc1|Hc1]].
    + apply (mtrie_prune_from_left m m l ps x); try done; lia.
    + apply (mtrie_prune_from_right c m l ps x); try done; lia.
    + eexists. split; [reflexivity|]. apply (prune_interior c m l ps x); try done; lia.
Qed.

(** ** The invariant *)

(** Sets of pipes are not empty, the tables are compact, and there is no subnode
    without a subscription below it. *)
Inductive wf : mtrie_t -> Prop :=
| wf_node ps T : ps <> Some ∅ -> shape T ->
    (forall c t, child c T = Some t -> wf t) ->
    (forall c t, child c T = Some t -> is_redundant t = false) ->
    wf (mkMtrie ps T).

(** The pipes of a topic. *)
Fixpoint pipes_at (t : mtrie_t) (key : bytes) : option pipes_t :=
  match key with
  | [] => pipes t
  | c :: key' => child (ord c) (subnodes t) ≫= fun t' => pipes_at t' key'
  end.

(** Opens a node and keeps its invariant. *)
Ltac open_wf Hw ps T Hn Hs HW HR :=
  destruct Hw as [ps T Hn Hs HW HR]; pose proof (wf_node ps T Hn Hs HW HR) as Hw.

Lemma wf_new_mtrie : wf new_mtrie.
Proof. constructor; [done|apply shape_empty| |]; intros c t H; by rewrite child_none in H. Qed.

Lemma pipes_at_new key : pipes_at new_mtrie key = None.
Proof. destruct key as [|c key]; [done|]. cbn. by rewrite child_none. Qed.

Lemma mtrie_redundant_spec ps T : is_redundant (mkMtrie ps T) = false <-> ps <> None \/ live_nodes T <> 0.
Proof. unfold is_redundant. cbn. destruct ps; [naive_solver|]. rewrite Z.eqb_neq. naive_solver. Qed.

Lemma pipes_at_redundant t k : wf t -> is_redundant t = true -> pipes_at t k = None.
Proof.
  intros Hw Hr. destruct Hw as [ps T Hn Hs HW HR]. unfold is_redundant in Hr. cbn in Hr.
  destruct ps; [done|]. destruct k as [|c k]; [done|]. cbn.
  destruct (child (ord c) T) as [x|] eqn:E; [|done]. apply live_child in E; [lia|done].
Qed.

(** A node that is not redundant has a topic below it. *)
Lemma topic_below t : wf t -> is_redundant t = false -> exists k, pipes_at t k <> None.
Proof.
  induction 1 as [ps T Hn Hs HW IH HR]. intros Hr. apply mtrie_redundant_spec in Hr as [Hr|Hr]; [by exists []|].
  pose proof Hs as [Hm H].
  assert (exists i x, slots T !! i = Some (Some x)) as (i & x & Hi).
  { unfold slots. destruct (next T) as [|[x|]|qs]; [lia|by exists 0%nat, x|lia|].
    destruct H as (_ & _ & _ & _ & [[x Hx] _]). exists 0%nat, x. by rewrite <- head_lookup. }
  pose proof (child_slot i T x Hi) as Hc. destruct (IH _ _ Hc (HR _ _ Hc)) as [k Hk].
  destruct (child_loose _ T x Hs Hc) as (H0 & Hrg & Hb & _).
  exists (chr (min T + Z.of_nat i) :: k). cbn. by rewrite ord_chr, Hc by lia.
Qed.

Lemma mtrie_wf_put ps c t (T T' : Table mtrie_t) : ps <> Some ∅ -> shape T' -> child c T' = Some t -> wf t ->
  is_redundant t = false -> (forall c', c' <> c -> child c' T' = child c' T) ->
  (forall c' t', child c' T = Some t' -> wf t') ->
  (forall c' t', child c' T = Some t' -> is_redundant t' = false) ->
  wf (mkMtrie ps T').
Proof.
  intros Hn Hs Hc Ht Hr Ho HW HR. constructor; [done|done| |]; intros c' t' E;
    (destruct (decide (c' = c)) as [->|Hne]; [rewrite Hc in E; by injection E as <-|]);
    rewrite Ho in E by done; eauto.
Qed.

Lemma wf_removed ps c (T T' : Table mtrie_t) : ps <> Some ∅ -> shape T' -> child c T' = None ->
  (forall c', c' <> c -> child c' T' = child c' T) ->
  (forall c' t', child c' T = Some t' -> wf t') ->
  (forall c' t', child c' T = Some t' -> is_redundant t' = false) ->
  wf (mkMtrie ps T').
Proof.
  intros Hn Hs Hc Ho HW HR. constructor; [done|done| |]; intros c' t' E;
    (destruct (decide (c' = c)) as [->|Hne]; [by rewrite Hc in E|]); rewrite Ho in E by done; eauto.
Qed.

(** The destructor finds every pointer it follows. *)
Lemma mtrie_destroy_spec t : wf t -> destroy t = Ok tt.
Proof.
  induction 1 as [n T Hn Hs HW IH HR]. pose proof Hs as [_ H]. cbn [destroy].
  assert (Hch : forall i x, slots T !! i = Some (Some x) -> destroy x = Ok tt).
  { intros i x Hi. by apply child_slot, IH in Hi. }
  destruct (next T) as [|[x|]|ps] eqn:En; unfold slots in Hch; rewrite En in Hch.
  - by destruct H as [-> _].
  - destruct H as [-> _]. by apply (Hch 0%nat).
  - by destruct H as [-> _].
  - destruct H as (-> & _ & -> & H2 & _). pose proof (lives_bounds ps).
    rewrite (proj2 (Z.eqb_neq _ 1)), (proj2 (Z.ltb_lt 1 _)) by lia.
    destruct (each_total (fun _ t' => ofmap (fun _ => @nil unit) (destroy t')) 0 ps) as [xs ->]; [|done].
    intros i x Hi. rewrite (Hch i x Hi). by eexists.
Qed.

(** ** The operations *)

(** [t'] has the pipes of [t], but [X] at [key]. *)
Definition updated (key : bytes) (X : option pipes_t) (t t' : mtrie_t) : Prop :=
  forall k, pipes_at t' k = if decide (k = key) then X else pipes_at t k.

Lemma updated_child c key X ps (T T' : Table mtrie_t) t0 t1 :
  (forall k, pipes_at (mkMtrie ps T) (c :: k) = pipes_at t0 k) -> updated key X t0 t1 ->
  (forall k, child (ord c) T' ≫= (fun t' => pipes_at t' k) = pipes_at t1 k) ->
  (forall c', c' <> ord c -> child c' T' = child c' T) ->
  updated (c :: key) X (mkMtrie ps T) (mkMtrie ps T').
Proof.
  intros H0 Hu Hc Ho [|d k]; [by rewrite decide_False|]. destruct (decide (d = c)) as [->|Hne].
  - rewrite H0. cbn [pipes_at subnodes]. rewrite Hc, Hu.
    destruct (decide (k = key)) as [->|]; [by rewrite decide_True|]. by rewrite decide_False by congruence.
  - cbn [pipes_at subnodes]. rewrite Ho by (intros E; by apply ord_inj in E). by rewrite decide_False by congruence.
Qed.

(** [add] adds the pipe to the topic, and says whether the topic is new. *)
Lemma mtrie_add_spec key p t : wf t ->
  exists t', add key p t = Ok (bool_decide (pipes_at t key = None), t') /\ wf t' /\ is_redundant t' = false
    /\ updated key (Some ({[ p ]} ∪ default ∅ (pipes_at t key))) t t'.
Proof.
  unfold add. revert t. induction key as [|c key IH]; intros t Hw; open_wf Hw ps T Hn Hs HW HR.
  - cbn [add_helper pipes_at pipes subnodes]. eexists. split; [by destruct ps|].
    split; [constructor; [|done..]; intros E; injection E; set_solver|].
    split; [by apply mtrie_redundant_spec; left|]. by intros [|d k].
  - cbn [add_helper subnodes pipes]. destruct (extend_spec (ord c) T Hs (ord_range c)) as (T1 & -> & Hl & H1).
    cbn [obind]. destruct (create_spec new_mtrie (ord c) T1 Hl) as (b & T2 & -> & Hs2 & Hc2 & H2 & _). cbn [obind].
    rewrite slot_spec by (by eapply child_loose). cbn [obind]. rewrite Hc2, H1.
    set (t0 := default new_mtrie (child (ord c) T)).
    assert (Hw0 : wf t0) by (unfold t0; destruct (child (ord c) T) eqn:E; [by eapply HW|apply wf_new_mtrie]).
    assert (Hr0 : forall k, pipes_at (mkMtrie ps T) (c :: k) = pipes_at t0 k).
    { intros k. unfold t0. cbn. destruct (child (ord c) T); [done|]. cbn. by rewrite pipes_at_new. }
    rewrite Hr0. destruct (IH t0 Hw0) as (t1 & -> & Hw1 & Hn1 & Hk1). cbn [obind].
    rewrite H1 in Hc2. fold t0 in Hc2.
    destruct (put_child (ord c) t0 t1 T2 Hs2 Hc2) as (T3 & -> & Hs3 & Hc3 & H3 & _). cbn [obind].
    assert (Ho : forall c', c' <> ord c -> child c' T3 = child c' T).
    { intros c' Hne. by rewrite H3, H2, H1. }
    exists (mkMtrie ps T3). split; [done|]. split; [by eapply mtrie_wf_put|]. split.
    { apply mtrie_redundant_spec. right. by eapply live_child. }
    eapply updated_child; [done|done| |done]. intros k. by rewrite Hc3.
Qed.

Lemma erase_pipe_wf p X : erase_pipe p X <> Some ∅.
Proof. unfold erase_pipe. case_decide; congruence. Qed.

(** What [rm] does once it is done with the subnode. *)
Lemma rm_step c ps T t0 t1 key X (ret : bool) : wf (mkMtrie ps T) -> child (ord c) T = Some t0 -> wf t1 ->
  updated key X t0 t1 ->
  exists t', (let! T := put (ord c) (Some t1) T in
              if is_redundant t1 then
                let! _ := destroy t1 in
                let! T := prune (ord c) T in
                Ok (ret, mkMtrie ps T)
              else Ok (ret, mkMtrie ps T)) = Ok (ret, t') /\ wf t' /\ updated (c :: key) X (mkMtrie ps T) t'.
Proof.
  intros Hw E0 Hw1 Hu. inversion Hw as [? ? Hn Hs HW HR]; subst.
  destruct (put_child (ord c) t0 t1 T Hs E0) as (T1 & -> & Hs1 & Hc1 & H1 & _). cbn [obind].
  assert (Hr0 : forall k, pipes_at (mkMtrie ps T) (c :: k) = pipes_at t0 k) by (intros k; cbn; by rewrite E0).
  destruct (is_redundant t1) eqn:Er1.
  - rewrite (mtrie_destroy_spec t1 Hw1). cbn [obind].
    destruct (mtrie_prune_spec (ord c) T1 t1 Hs1 Hc1) as (T2 & -> & Hs2 & Hc2 & H2). cbn [obind].
    assert (Ho : forall c', c' <> ord c -> child c' T2 = child c' T) by (intros; by rewrite H2, H1).
    exists (mkMtrie ps T2). split; [done|]. split; [by eapply wf_removed|].
    eapply updated_child; [done|done| |done]. intros k. rewrite Hc2. by rewrite pipes_at_redundant.
  - exists (mkMtrie ps T1). split; [done|]. split; [by eapply mtrie_wf_put|].
    eapply updated_child; [done|done| |done]. intros k. by rewrite Hc1.
Qed.

(** A topic that the trie has no node for. *)
Lemma no_topic c key ps T : child (ord c) T = None ->
  pipes_at (mkMtrie ps T) (c :: key) = None
  /\ (false = true <-> c :: key = [] \/ exists k, pipes_at (mkMtrie ps T) k <> None /\ c :: key `prefix_of` k).
Proof.
  intros E. split; [cbn; by rewrite E|]. split; [done|]. intros [|(k & Hk & H)]; [done|].
  destruct k as [|d k]; [by apply prefix_nil_not in H|]. apply prefix_cons_inv_1 in H as ->. cbn in Hk. by rewrite E in Hk.
Qed.

Lemma updated_same key t : pipes_at t key = None -> updated key None t t.
Proof. intros E k. case_decide; congruence. Qed.

(** [rm] of a subscription: the pipe leaves the topic; without the topic nothing
    changes; and a topic of other pipes is an abort. *)
Lemma mtrie_rm_spec key p t : wf t ->
  match pipes_at t key with
  | Some X =>
      if decide (p ∈ X) then
        exists t', rm key p t = Ok (bool_decide (X ∖ {[ p ]} = ∅), t') /\ wf t' /\ updated key (erase_pipe p X) t t'
      else rm key p t = Aborted "erased == 1"
  | None =>
      exists b t', rm key p t = Ok (b, t') /\ wf t' /\ updated key None t t'
        /\ (b = true <-> key = [] \/ exists k, pipes_at t k <> None /\ key `prefix_of` k)
  end.
Proof.
  unfold rm. revert t. induction key as [|c key IH]; intros t Hw; open_wf Hw ps T Hn Hs HW HR.
  - cbn [rm_helper pipes_at pipes subnodes]. destruct ps as [X|].
    + destruct (decide (p ∈ X)) as [Hp|Hp]; [|by rewrite bool_decide_false]. rewrite bool_decide_true by done.
      cbn [assertion obind]. eexists. split; [|split; [by constructor; [apply erase_pipe_wf|..]|by intros [|d k]]].
      unfold erase_pipe. do 2 f_equal. by case_decide as E; [rewrite bool_decide_true|rewrite bool_decide_false].
    + exists true, (mkMtrie None T). split_and!; [done|done|by apply updated_same|naive_solver].
  - cbn [rm_helper subnodes pipes].
    assert (Hnone : child (ord c) T = None -> match pipes_at (mkMtrie ps T) (c :: key) with
      | Some X => if decide (p ∈ X) then
          exists t', Ok (false, mkMtrie ps T) = Ok (bool_decide (X ∖ {[ p ]} = ∅), t') /\ wf t' /\ updated (c :: key) (erase_pipe p X) (mkMtrie ps T) t'
          else Ok (false, mkMtrie ps T) = Aborted "erased == 1"
      | None => exists b t', Ok (false, mkMtrie ps T) = Ok (b, t') /\ wf t' /\ updated (c :: key) None (mkMtrie ps T) t'
          /\ (b = true <-> c :: key = [] \/ exists k, pipes_at (mkMtrie ps T) k <> None /\ c :: key `prefix_of` k) end).
    { intros E. destruct (no_topic c key ps T E) as [EN Hiff]. rewrite EN. exists false, (mkMtrie ps T).
      split_and!; [done|done|by apply updated_same|done]. }
    destruct ((count T =? 0) || out_of_range (ord c) T) eqn:Er; [by apply Hnone, no_slot|].
    apply orb_false_iff in Er as [_ Er]. rewrite slot_spec by (by apply shape_loose). cbn [obind].
    destruct (child (ord c) T) as [t0|] eqn:E0; [clear Hnone|by apply Hnone].
    specialize (IH t0 (HW _ _ E0)). cbn [pipes_at subnodes]. rewrite E0. cbn [mbind option_bind].
    destruct (pipes_at t0 key) as [X|] eqn:EX; [destruct (decide (p ∈ X))|].
    + destruct IH as (t1 & -> & Hw1 & Hu). cbn [obind]. by eapply rm_step.
    + by rewrite IH.
    + destruct IH as (b & t1 & -> & Hw1 & Hu & Hb). cbn [obind].
      destruct (rm_step c ps T t0 t1 key None b Hw E0 Hw1 Hu) as (t' & -> & Hw' & Hu').
      exists b, t'. split_and!; [done|done|done|]. rewrite Hb. split.
      * intros [->|(k & Hk & Hp)]; right.
        -- destruct (topic_below t0) as [k Hk]; [by eapply HW|by eapply HR|]. exists (c :: k).
           split; [cbn; by rewrite E0|apply prefix_cons, prefix_nil].
        -- exists (c :: k). split; [cbn; by rewrite E0|by apply prefix_cons].
      * intros [|(k & Hk & Hp)]; [done|]. destruct k as [|d k]; [by apply prefix_nil_not in Hp|].
        pose proof Hp as Hd. apply prefix_cons_inv_1 in Hd as ->. right. exists k. cbn in Hk. rewrite E0 in Hk.
        split; [done|by eapply prefix_cons_inv_2].
Qed.

(** [match] signals the pipes of every prefix of the message, the shortest first. *)
Definition signalled (t : mtrie_t) (d : bytes) : list Z :=
  concat (map (fun n => default [] (iterate <$> pipes_at t (take n d))) (seq 0 (S (length d)))).

Lemma signalled_cons ps T c d : signalled (mkMtrie ps T) (c :: d)
  = default [] (iterate <$> ps) ++ match child (ord c) T with Some t' => signalled t' d | None => [] end.
Proof.
  unfold signalled. cbn [length]. rewrite <- cons_seq. cbn [map concat take pipes_at pipes]. f_equal.
  rewrite <- seq_shift, map_map. cbn [take pipes_at subnodes].
  destruct (child (ord c) T) as [t'|]; [done|]. cbn [mbind option_bind fmap option_fmap option_map default from_option].
  induction (seq 0 (S (length d))) as [|n ns IHn]; [done|exact IHn].
Qed.

Lemma match_spec d t : wf t -> match_ d t = Ok (signalled t d).
Proof.
  revert t. induction d as [|c d IH]; intros t Hw; open_wf Hw ps T Hn Hs HW HR.
  { unfold signalled. cbn. rewrite app_nil_r. by destruct ps. }
  cbn [match_ pipes subnodes]. rewrite signalled_cons.
  replace (match ps with Some X => iterate X | None => [] end) with (default [] (iterate <$> ps)) by (by destruct ps).
  assert (Hend : child (ord c) T = None -> Ok (default [] (iterate <$> ps))
    = Ok (default [] (iterate <$> ps) ++ match child (ord c) T with Some t' => signalled t' d | None => [] end)).
  { intros ->. by rewrite app_nil_r. }
  destruct (Z.eqb_spec (count T) 0) as [H0|H0].
  { apply Hend, no_slot; [done|]. by rewrite H0. }
  destruct (Z.eqb_spec (count T) 1) as [H1|H1].
  - assert (Hor : out_of_range (ord c) T = negb (ord c =? min T)) by (unfold out_of_range; lia).
    rewrite <- Hor. destruct (out_of_range (ord c) T) eqn:Er; [apply Hend, no_slot; [done|by rewrite Er, orb_true_r]|].
    pose proof (slot_spec _ T (shape_loose _ T Hs Er)) as Hsl. unfold slot in Hsl. rewrite H1 in Hsl. cbn [Z.eqb Pos.eqb] in Hsl.
    rewrite Hsl. cbn [obind]. destruct (child (ord c) T) as [t'|] eqn:E; [|by destruct (child_single _ T Hs Er H1)].
    by rewrite (IH t' (HW _ _ E)).
  - destruct (out_of_range (ord c) T) eqn:Er; [apply Hend, no_slot; [done|by rewrite Er, orb_true_r]|].
    pose proof (slot_spec _ T (shape_loose _ T Hs Er)) as Hsl. unfold slot in Hsl.
    rewrite (proj2 (Z.eqb_neq _ 1)) in Hsl by done. destruct (table_of T) as [qs| |]; try done. cbn [obind] in *.
    rewrite Hsl. cbn [obind]. destruct (child (ord c) T) as [t'|] eqn:E; [|by apply Hend].
    by rewrite (IH t' (HW _ _ E)).
Qed.
