(* ===== verification/MtrieRefinement.v ===== *)
(** * Removing a pipe, and the refinement

    [rm] of a pipe sweeps the whole trie: every set loses the pipe, redundant
    subnodes are deleted, and each table is compacted between the first and the
    last subnode that is left.  With it, every operation of [mtrie_t] refines
    the map of topics. *)

From stdpp Require Import tactics sorting gmap.
From S2P Require Import Prelude ZmqTables Mtrie MtrieTheorems.

(** ** The bounds of what is left of a table *)

Section Bounds.
Context {A : Type}.
Implicit Types (ps : list (option A)).

Definition least (m lo : Z) ps (r : Z) : Prop :=
  r <= lo /\ (forall i x, ps !! i = Some (Some x) -> r <= m + Z.of_nat i)
  /\ (r = lo \/ exists i x, ps !! i = Some (Some x) /\ r = m + Z.of_nat i).

Definition greatest (m hi : Z) ps (r : Z) : Prop :=
  hi <= r /\ (forall i x, ps !! i = Some (Some x) -> m + Z.of_nat i <= r)
  /\ (r = hi \/ exists i x, ps !! i = Some (Some x) /\ r = m + Z.of_nat i).

Lemma least_none m lo ps r : least (m + 1) lo ps r -> least m lo (None :: ps) r.
Proof.
  intros (H1 & H2 & H3). split_and!; [done| |].
  - intros [|i] x Hi; [done|]. specialize (H2 i x Hi). lia.
  - destruct H3 as [|(i & x & Hi & ->)]; [by left|]. right. exists (S i), x. split; [done|lia].
Qed.

Lemma least_some m lo x ps r : least (m + 1) (Z.min lo m) ps r -> least m lo (Some x :: ps) r.
Proof.
  intros (H1 & H2 & H3). split_and!; [lia| |].
  - intros [|i] y Hi; [lia|]. specialize (H2 i y Hi). lia.
  - destruct H3 as [->|(i & y & Hi & ->)].
    + destruct (Z.min_spec lo m) as [[_ ->]|[_ ->]]; [by left|]. right. exists 0%nat, x. split; [done|lia].
    + right. exists (S i), y. split; [done|lia].
Qed.

Lemma greatest_none m hi ps r : greatest (m + 1) hi ps r -> greatest m hi (None :: ps) r.
Proof.
  intros (H1 & H2 & H3). split_and!; [done| |].
  - intros [|i] x Hi; [done|]. specialize (H2 i x Hi). lia.
  - destruct H3 as [|(i & x & Hi & ->)]; [by left|]. right. exists (S i), x. split; [done|lia].
Qed.

Lemma greatest_some m hi x ps r : greatest (m + 1) (Z.max hi m) ps r -> greatest m hi (Some x :: ps) r.
Proof.
  intros (H1 & H2 & H3). split_and!; [lia| |].
  - intros [|i] y Hi; [lia|]. specialize (H2 i y Hi). lia.
  - destruct H3 as [->|(i & y & Hi & ->)].
    + destruct (Z.max_spec hi m) as [[_ ->]|[_ ->]]; [|by left]. right. exists 0%nat, x. split; [done|lia].
    + right. exists (S i), y. split; [done|lia].
Qed.

Lemma lives_zero ps : (forall i x, ps !! i <> Some (Some x)) -> lives ps = 0.
Proof.
  induction ps as [|[x|] ps IH]; intros H; [done|by destruct (H 0%nat x)|]. apply IH.
  intros i x. apply (H (S i) x).
Qed.

Lemma lives_pos ps : 0 < lives ps -> exists i x, ps !! i = Some (Some x).
Proof.
  induction ps as [|[x|] ps IH]; cbn [lives]; intros H; [lia|by exists 0%nat, x|].
  destruct (IH H) as (i & x & Hi). by exists (S i), x.
Qed.

(** With a pointer left, the bounds are those of pointers. *)
Lemma bounds_live m ps lo hi : 0 < lives ps ->
  least m (m + Z.of_nat (length ps) - 1) ps lo -> greatest m m ps hi ->
  (exists i x, ps !! i = Some (Some x) /\ lo = m + Z.of_nat i)
  /\ (exists j y, ps !! j = Some (Some y) /\ hi = m + Z.of_nat j).
Proof.
  intros (i & x & Hi)%lives_pos (_ & H2 & H3) (_ & H5 & H6). specialize (H2 i x Hi). specialize (H5 i x Hi).
  pose proof (lookup_lt_Some _ _ _ Hi). split.
  - destruct H3 as [->|H3]; [|done]. exists i, x. split; [done|lia].
  - destruct H6 as [->|H6]; [|done]. exists i, x. split; [done|lia].
Qed.

(** Outside of the bounds there is no pointer. *)
Lemma bounds_outside ps (i j : nat) m lo hi : least m lo ps (m + Z.of_nat i) -> greatest m hi ps (m + Z.of_nat j) ->
  lives (take i ps) = 0 /\ lives (drop (S j) ps) = 0.
Proof.
  intros (_ & H2 & _) (_ & H5 & _). split; apply lives_zero; intros k x Hk.
  - apply lookup_take_Some in Hk as [Hk Hlt]. specialize (H2 k x Hk). lia.
  - rewrite lookup_drop in Hk. specialize (H5 _ x Hk). lia.
Qed.

End Bounds.

(** ** The compaction *)

(** One pointer left. *)
Lemma compact_single m qs i (x : mtrie_t) : 0 <= m -> m + Z.of_nat (length qs) <= 256 -> lives qs = 1 ->
  qs !! i = Some (Some x) -> lives (take i qs) = 0 ->
  let T' := mkTable (m + Z.of_nat i) 1 1 (node (Some x)) in
  shape T' /\ forall c, child c T' = child c (mkTable m (Z.of_nat (length qs)) 1 (table qs)).
Proof.
  intros Hm Hle E1 Hi Ha T'. pose proof (take_drop_middle qs _ _ Hi) as E. pose proof (lookup_lt_Some _ _ _ Hi).
  destruct (shape_single m (take i qs) x (drop (S i) qs)) as [HT Hc]; [done| |lia|by rewrite E|].
  { rewrite <- E, lives_app in E1. cbn [lives] in E1. lia. }
  rewrite E, length_take in Hc. rewrite length_take in HT. replace (i `min` length qs)%nat with i in HT, Hc by lia.
  done.
Qed.

(** The part of the table between two pointers. *)
Lemma compact_window m qs i j (x y : mtrie_t) : 0 <= m -> m + Z.of_nat (length qs) <= 256 -> 2 <= lives qs ->
  qs !! i = Some (Some x) -> qs !! j = Some (Some y) -> lives (take i qs) = 0 -> lives (drop (S j) qs) = 0 ->
  (i <= j)%nat ->
  let T' := mkTable (m + Z.of_nat i) (Z.of_nat (S j - i)) (lives qs) (table (take (S j - i) (drop i qs))) in
  (i < j)%nat /\ shape T' /\ forall c, child c T' = child c (mkTable m (Z.of_nat (length qs)) (lives qs) (table qs)).
Proof.
  intros Hm Hle E1 Hi Hj Ha Hd Hij T'. pose proof (lookup_lt_Some _ _ _ Hi). pose proof (lookup_lt_Some _ _ _ Hj).
  set (mid := take (S j - i) (drop i qs)).
  assert (E : qs = take i qs ++ mid ++ drop (S j) qs).
  { unfold mid. replace (drop (S j) qs) with (drop (S j - i) (drop i qs)) by (rewrite drop_drop; f_equal; lia).
    by rewrite take_drop, take_drop. }
  assert (Hlm : length mid = (S j - i)%nat) by (unfold mid; rewrite length_take, length_drop; lia).
  assert (Hl : lives mid = lives qs) by (pose proof (f_equal lives E) as E2; rewrite !lives_app in E2; lia).
  pose proof (lives_bounds mid) as Hb. split; [lia|].
  destruct (shape_window m (lives qs) (take i qs) mid (drop (S j) qs)) as [HT Hc]; try done; try lia.
  - apply tight_ends. rewrite Hlm. unfold mid. rewrite !lookup_take_lt, !lookup_drop by lia. split.
    + exists x. by rewrite Nat.add_0_r.
    + exists y. rewrite <- Hj. f_equal. lia.
  - by rewrite <- E.
  - rewrite <- E, length_take, Hlm in Hc. rewrite length_take, Hlm in HT.
    replace (i `min` length qs)%nat with i in HT, Hc by lia. done.
Qed.

(** The new table is compact and has the same subnodes. *)
Lemma compact_spec m qs lo hi : 0 <= m -> m + Z.of_nat (length qs) <= 256 -> (2 <= length qs)%nat ->
  least m (m + Z.of_nat (length qs) - 1) qs lo -> greatest m m qs hi ->
  exists T', compact m (Z.of_nat (length qs)) qs (lives qs) lo hi = Ok T' /\ shape T'
    /\ forall c, child c T' = child c (mkTable m (Z.of_nat (length qs)) (lives qs) (table qs)).
Proof.
  intros Hm Hle Hlen Hlo Hhi. unfold compact. rewrite (proj2 (Z.ltb_lt 1 _)) by lia. cbn [assertion obind].
  destruct (Z.eqb_spec (lives qs) 0) as [E0|E0].
  { rewrite E0. eexists. split; [reflexivity|]. split; [split; cbn; lia|]. intros c. by rewrite !child_none. }
  pose proof (lives_bounds qs) as Hb.
  destruct (bounds_live m qs lo hi) as [(i & x & Hi & ->) (j & y & Hj & ->)]; [lia|done..|].
  destruct (bounds_outside qs i j _ _ _ Hlo Hhi) as [Ha Hd].
  pose proof (lookup_lt_Some _ _ _ Hi) as Hil. pose proof (lookup_lt_Some _ _ _ Hj) as Hjl.
  assert (Hij : (i <= j)%nat) by (destruct Hlo as (_ & Hlo & _); specialize (Hlo j y Hj); lia).
  destruct (Z.eqb_spec (lives qs) 1) as [E1|E1].
  - assert (j = i) as ->.
    { destruct (decide (j = i)) as [|Hne]; [done|]. exfalso. pose proof (take_drop_middle qs _ _ Hi) as E.
      assert (Hd' : lives (drop (S i) qs) = 0) by (rewrite <- E, lives_app in E1; cbn [lives] in E1; lia).
      pose proof (lives_none _ (j - S i) Hd') as Hn. rewrite lookup_drop in Hn.
      by replace (S i + (j - S i))%nat with j in Hn by lia; rewrite Hj in Hn. }
    rewrite Z.eqb_refl. rewrite (proj2 (Z.leb_le m _)), (proj2 (Z.ltb_lt _ (m + _))) by lia. cbn [andb assertion obind].
    rewrite (get_at_ok _ _ (Some x)) by (lia || (rewrite <- Hi; f_equal; lia)). cbn [obind]. rewrite E1.
    eexists. split; [reflexivity|]. by apply compact_single.
  - destruct (compact_window m qs i j x y) as (Hlt & HT & Hc); try done; try lia.
    destruct ((m <? m + Z.of_nat i) || (m + Z.of_nat j <? m + Z.of_nat (length qs) - 1)) eqn:Eo.
    + rewrite (proj2 (Z.ltb_lt 1 _)), !(proj2 (Z.leb_le _ _)), (proj2 (Z.ltb_lt _ (Z.of_nat (length qs)))) by lia.
      cbn [assertion obind]. rewrite to_uint16_id by lia.
      replace (m + Z.of_nat j - (m + Z.of_nat i) + 1) with (Z.of_nat (S j - i)) by lia.
      replace (m + Z.of_nat i - m) with (Z.of_nat i) by lia. rewrite entries_ok by lia. cbn [obind].
      rewrite !Nat2Z.id. eexists. split; [reflexivity|done].
    + assert (i = 0%nat) as -> by lia. rewrite drop_0, take_ge, Z.add_0_r in HT by lia.
      replace (S j - 0)%nat with (length qs) in HT by lia. eexists. split; [reflexivity|done].
Qed.

(** ** The sweep *)

(** The key loses its last pipe. *)
Definition last_of (p : Z) (t : mtrie_t) (k : bytes) : Prop := pipes_at t k = Some {[ p ]}.

Definition dropped (p : Z) (t t' : mtrie_t) : Prop :=
  forall k, pipes_at t' k = pipes_at t k ≫= erase_pipe p.

(** What becomes of a pointer. *)
Definition swept (p : Z) (o o' : option mtrie_t) : Prop :=
  match o, o' with
  | None, None => True
  | Some x, Some x' => wf x' /\ is_redundant x' = false /\ dropped p x x'
  | Some x, None => forall k, pipes_at x k ≫= erase_pipe p = None
  | None, Some _ => False
  end.

(** What a removal of the pipe from a subnode promises. *)
Definition drops (p : Z) (buff : bytes) (x : mtrie_t) (r : outcome (list bytes * mtrie_t)) : Prop :=
  exists ks x', r = Ok (app buff <$> ks, x') /\ lists (last_of p) x ks /\ wf x' /\ dropped p x x'.

Lemma app_cons_fmap (buff : bytes) c (ks : list bytes) :
  app (buff ++ [c]) <$> ks = app buff <$> (cons c <$> ks).
Proof. rewrite <- list_fmap_compose. apply list_fmap_ext. intros _ k _. cbn. by rewrite <- app_assoc. Qed.

Lemma sweep_spec f p buff m c ps live lo hi :
  0 <= m -> 0 <= c -> m + c + Z.of_nat (length ps) <= 256 -> lives ps <= live <= 65535 ->
  (forall i x, ps !! i = Some (Some x) ->
     drops p (buff ++ [chr (m + (c + Z.of_nat i))]) x (f (c + Z.of_nat i) x)) ->
  exists ks qs lo' hi', sweep f m c ps live lo hi = Ok (app buff <$> ks, qs, live - lives ps + lives qs, lo', hi')
    /\ lists_from (last_of p) (m + c) ps ks /\ Forall2 (swept p) ps qs
    /\ least (m + c) lo qs lo' /\ greatest (m + c) hi qs hi'.
Proof.
  revert c live lo hi. induction ps as [|o ps IH]; intros c live lo hi Hm Hc Hle Hlv H.
  { exists [], [], lo, hi. split; [cbn; by rewrite Z.sub_0_r, Z.add_0_r|]. split; [by apply lists_from_none|].
    split; [constructor|]. split; (split_and!; [lia|done|by left]). }
  assert (H' : forall i x, ps !! i = Some (Some x) ->
     drops p (buff ++ [chr (m + (c + 1 + Z.of_nat i))]) x (f (c + 1 + Z.of_nat i) x)).
  { intros i x Hi. specialize (H (S i) x Hi). by replace (c + Z.of_nat (S i)) with (c + 1 + Z.of_nat i) in H by lia. }
  cbn [length] in Hle. destruct o as [x|]; cbn [lives] in Hlv.
  - destruct (H 0%nat x eq_refl) as (ks & x' & E & HL & Hw & Hd). rewrite Z.add_0_r in E.
    cbn [sweep]. rewrite E. cbn [obind]. rewrite app_cons_fmap. destruct (is_redundant x') eqn:Er.
    + rewrite (mtrie_destroy_spec x' Hw). cbn [obind]. pose proof (lives_bounds ps).
      rewrite (proj2 (Z.ltb_lt 0 live)) by lia. cbn [assertion obind]. rewrite to_uint16_id by lia.
      destruct (IH (c + 1) (live - 1) lo hi) as (ks' & qs & lo' & hi' & E' & HL' & HF & Hlo & Hhi); [lia..|done|].
      fold (sweep f m). rewrite E'. cbn [obind]. rewrite Z.add_assoc in HL', Hlo, Hhi.
      exists ((cons (chr (m + c)) <$> ks) ++ ks'), (None :: qs), lo', hi'.
      split.
      { rewrite <- fmap_app. cbn [lives]. by replace (live - (1 + lives ps) + lives qs) with (live - 1 - lives ps + lives qs) by lia. }
      split; [apply lists_from_cons; cbn; try done; lia|]. split.
      { constructor; [|done]. intros k. by rewrite <- Hd, pipes_at_redundant. }
      split; [by apply least_none|by apply greatest_none].
    + set (lo1 := if c + m <? lo then to_uint8 (c + m) else lo). set (hi1 := if hi <? c + m then to_uint8 (c + m) else hi).
      assert (lo1 = Z.min lo (m + c)) as -> by (unfold lo1; rewrite to_uint8_id by lia; destruct (Z.ltb_spec (c + m) lo); lia).
      assert (hi1 = Z.max hi (m + c)) as -> by (unfold hi1; rewrite to_uint8_id by lia; destruct (Z.ltb_spec hi (c + m)); lia).
      destruct (IH (c + 1) live (Z.min lo (m + c)) (Z.max hi (m + c))) as (ks' & qs & lo' & hi' & E' & HL' & HF & Hlo & Hhi); [lia..|done|].
      fold (sweep f m). rewrite E'. cbn [obind]. rewrite Z.add_assoc in HL', Hlo, Hhi.
      exists ((cons (chr (m + c)) <$> ks) ++ ks'), (Some x' :: qs), lo', hi'.
      split.
      { rewrite <- fmap_app. cbn [lives]. by replace (live - (1 + lives ps) + (1 + lives qs)) with (live - lives ps + lives qs) by lia. }
      split; [apply lists_from_cons; cbn; try done; lia|]. split; [by constructor|].
      split; [by apply least_some|by apply greatest_some].
  - cbn [sweep]. destruct (IH (c + 1) live lo hi) as (ks' & qs & lo' & hi' & E' & HL' & HF & Hlo & Hhi); [lia..|done|].
    fold (sweep f m). rewrite E'. cbn [obind]. rewrite Z.add_assoc in HL', Hlo, Hhi.
    exists ks', (None :: qs), lo', hi'. split; [done|]. split; [by apply lists_from_skip|]. split; [by constructor|].
    split; [by apply least_none|by apply greatest_none].
Qed.

(** The children of the swept table. *)
Lemma swept_child p (T T' : Table mtrie_t) c : min T' = min T -> Forall2 (swept p) (slots T) (slots T') ->
  swept p (child c T) (child c T').
Proof.
  intros Hm HF. unfold child. rewrite Hm. destruct (c <? min T); [done|].
  destruct (slots T !! Z.to_nat (c - min T)) as [o|] eqn:E.
  - destruct (Forall2_lookup_l _ _ _ _ _ HF E) as (o' & -> & Ho). exact Ho.
  - apply lookup_ge_None in E. rewrite (Forall2_length _ _ _ HF) in E. by rewrite lookup_ge_None_2.
Qed.

(** A node whose subnodes were swept. *)
Lemma swept_node p ps T T' : wf (mkMtrie ps T) -> shape T' ->
  (forall c, swept p (child c T) (child c T')) ->
  wf (mkMtrie (ps ≫= erase_pipe p) T') /\ dropped p (mkMtrie ps T) (mkMtrie (ps ≫= erase_pipe p) T').
Proof.
  intros Hw Hs Hc. split.
  - constructor; [destruct ps; [apply erase_pipe_wf|done]|done| |]; intros c t E; specialize (Hc c); rewrite E in Hc;
      destruct (child c T); by (done || apply Hc).
  - intros [|c k]; [done|]. cbn. specialize (Hc (ord c)).
    destruct (child (ord c) T) as [x|], (child (ord c) T') as [x'|]; try done; cbn; [apply Hc|by rewrite Hc].
Qed.

Lemma last_of_cons p ps T c k : last_of p (mkMtrie ps T) (c :: k) <-> exists x, child (ord c) T = Some x /\ last_of p x k.
Proof.
  unfold last_of. cbn. destruct (child (ord c) T) as [x|]; cbn; split.
  - intros H. by exists x.
  - by intros (y & [= <-] & H).
  - done.
  - by intros (y & [=] & _).
Qed.

Lemma only_member (p : Z) (X : pipes_t) : p ∈ X -> X ∖ {[ p ]} = ∅ -> X = {[ p ]}.
Proof.
  intros Hp E. apply leibniz_equiv. intros x. rewrite elem_of_singleton. split; [|by intros ->]. intros Hx.
  destruct (decide (x = p)) as [|Hne]; [done|]. exfalso. apply (not_elem_of_empty (C := pipes_t) x).
  rewrite <- E. by apply elem_of_difference; rewrite elem_of_singleton.
Qed.

(** The node itself: the set loses the pipe, and the key is listed when the set
    held nothing else. *)
Lemma erase_here p (buff : bytes) (ps : option pipes_t) : ps <> Some ∅ ->
  (match ps with
   | Some X => if decide (p ∈ X) then if decide (X ∖ {[ p ]} = ∅) then [buff] else [] else []
   | None => []
   end = app buff <$> (if bool_decide (ps = Some {[ p ]}) then [[]] else []))
  /\ match ps with
     | Some X => if decide (p ∈ X) then erase_pipe p X else Some X
     | None => None
     end = ps ≫= erase_pipe p.
Proof.
  intros Hne. destruct ps as [X|]; [|done]. cbn [mbind option_bind].
  assert (Hx : X <> ∅) by congruence. clear Hne. destruct (decide (p ∈ X)) as [Hp|Hp]; split; try done.
  - destruct (decide (X ∖ {[ p ]} = ∅)) as [E|E].
    + assert (X = {[ p ]}) as -> by by apply only_member. rewrite bool_decide_true by done. cbn. by rewrite app_nil_r.
    + rewrite bool_decide_false; [done|]. intros [= ->]. set_solver.
  - rewrite bool_decide_false; [done|]. intros [= ->]. set_solver.
  - unfold erase_pipe. replace (X ∖ {[ p ]}) with X by set_solver. rewrite decide_False by congruence. done.
Qed.

(** [rm] of a pipe calls back with every key that loses its last pipe, in order,
    and drops the pipe everywhere. *)
Lemma rm_pipe_helper_spec p t : wf t -> forall buff, drops p buff t (rm_pipe_helper p buff t).
Proof.
  induction 1 as [ps T Hn Hs HW IH HR]. intros buff. pose proof (wf_node ps T Hn Hs HW HR) as Hwn.
  destruct (erase_here p buff ps Hn) as [Ehere Eps]. cbn [rm_pipe_helper]. rewrite Ehere, Eps. clear Ehere Eps.
  assert (Hend : forall ks T', lists_from (last_of p) (min T) (slots T) ks -> shape T' ->
    (forall c, swept p (child c T) (child c T')) ->
    drops p buff (mkMtrie ps T) (Ok ((app buff <$> (if bool_decide (ps = Some {[ p ]}) then [[]] else [])) ++ (app buff <$> ks),
                                     mkMtrie (ps ≫= erase_pipe p) T'))).
  { intros ks T' HL HT' Hsw. eexists _, _. rewrite <- fmap_app. split; [done|]. split; [|by apply swept_node].
    apply (lists_node _ _ T); [done|done|by rewrite bool_decide_eq_true|apply last_of_cons]. }
  assert (Hnone : lives (slots T) = 0 -> drops p buff (mkMtrie ps T)
    (Ok (app buff <$> (if bool_decide (ps = Some {[ p ]}) then [[]] else []), mkMtrie (ps ≫= erase_pipe p) T))).
  { intros H0. specialize (Hend [] T (lists_from_none _ _ _ H0) Hs). rewrite app_nil_r in Hend. apply Hend.
    intros c. by rewrite child_none. }
  pose proof Hs as [Hm H]. destruct (next T) as [|[x|]|qs] eqn:En.
  1, 3: (destruct H as [-> _]; apply Hnone; unfold slots; by rewrite En).
  - destruct H as [Ecount Elive]. rewrite Ecount, Elive. change (1 =? 0) with false. change (1 =? 1) with true. cbv iota.
    assert (Esl : slots T = [Some x]) by (unfold slots; by rewrite En). rewrite Esl in Hend.
    assert (Hc : child (min T) T = Some x).
    { rewrite child_lookup by lia. by rewrite Esl, Z.sub_diag. }
    destruct (IH _ _ Hc (buff ++ [chr (min T)])) as (ks & x' & -> & HL & Hw' & Hd). cbn [obind]. rewrite app_cons_fmap.
    assert (HL' : lists_from (last_of p) (min T) [Some x] (cons (chr (min T)) <$> ks)).
    { rewrite <- (app_nil_r (_ <$> ks)). apply lists_from_cons; [lia|cbn; lia|done|by apply lists_from_none]. }
    destruct (is_redundant x') eqn:Er.
    + rewrite (mtrie_destroy_spec x' Hw'). cbn [obind]. change (to_uint16 (1 - 1)) with 0. cbn [Z.eqb assertion obind].
      apply Hend; [done|split; cbn; lia|]. intros c. apply swept_child; [done|]. rewrite Esl. constructor; [|constructor].
      intros k. by rewrite <- Hd, pipes_at_redundant.
    + apply Hend; [done|split; cbn; lia|]. intros c. apply swept_child; [done|]. rewrite Esl. by repeat constructor.
  - destruct H as (Hn' & Hle & Hl & H2 & Ht). pose proof (lives_bounds qs) as Hb.
    assert (Esl : slots T = qs) by (unfold slots; by rewrite En). rewrite Esl in Hend. rewrite Hn' in Hle |- *.
    rewrite !(proj2 (Z.eqb_neq (Z.of_nat (length qs)) _)) by lia. rewrite to_uint8_id by lia.
    destruct (sweep_spec (fun c t' => rm_pipe_helper p (buff ++ [chr (min T + c)]) t') p buff (min T) 0 qs (live_nodes T)
      (min T + Z.of_nat (length qs) - 1) (min T)) as (ks & qs' & lo & hi & -> & HL & HF & Hlo & Hhi); [lia..| |].
    { intros i x Hi. rewrite <- Esl in Hi. apply (IH _ _ (child_slot i T x Hi)). }
    rewrite Z.add_0_r in HL, Hlo, Hhi. rewrite Hl. replace (lives qs - lives qs + lives qs') with (lives qs') by lia.
    cbn [obind]. pose proof (Forall2_length _ _ _ HF) as Hlen. rewrite Hlen in Hlo, Hle |- *.
    destruct (compact_spec (min T) qs' lo hi) as (T' & -> & HT' & Hc); [lia|lia|lia|done|done|]. cbn [obind].
    apply Hend; [done|done|]. intros c. rewrite Hc. apply swept_child; [done|]. by rewrite Esl.
Qed.

(** ** The refinement *)

Definition represents (t : mtrie_t) (M : topics) : Prop := wf t /\ forall k, pipes_at t k = M !! k.

Lemma mtrie_represents_new : represents new_mtrie ∅.
Proof. split; [apply wf_new_mtrie|]. intros k. by rewrite pipes_at_new, lookup_empty. Qed.

Lemma represents_dom t M k : represents t M -> k ∈ elements (dom M) <-> pipes_at t k <> None.
Proof.
  intros [_ H]. rewrite H, elem_of_elements, elem_of_dom. destruct (M !! k); split; [done|by eexists|by intros [? [=]]|done].
Qed.

Lemma represents_updated t t' M X key : wf t' -> represents t M -> updated key X t t' ->
  represents t' (partial_alter (fun _ => X) key M).
Proof.
  intros Hw [_ H] Hu. split; [done|]. intros k. rewrite Hu, H. case_decide as E.
  - rewrite E. by rewrite lookup_partial_alter_eq.
  - by rewrite lookup_partial_alter_ne.
Qed.

Lemma updated_none t t' M key : wf t' -> represents t M -> updated key None t t' -> M !! key = None -> represents t' M.
Proof. intros Hw [_ H] Hu HN. split; [done|]. intros k. rewrite Hu, H. case_decide; congruence. Qed.

(** What an outcome of the specification demands of the code. *)
Definition keeps {X} (promise : outcome (X * topics)) (run : outcome (X * mtrie_t)) : Prop :=
  match promise with
  | Ok (a, M) => exists t, run = Ok (a, t) /\ represents t M
  | Aborted why => run = Aborted why
  | OutOfFuel => False
  end.

Lemma mtrie_perform_promised o t M : represents t M -> keeps (promised o M) (perform o t).
Proof.
  intros HR. pose proof HR as [Hw Hk]. destruct o as [key p|key p|p|d]; cbn [perform promised keeps].
  - destruct (mtrie_add_spec key p t Hw) as (t' & -> & Hw' & _ & Hu). cbn [obind]. exists t'. rewrite Hk in Hu |- *.
    split; [done|]. by eapply represents_updated.
  - pose proof (mtrie_rm_spec key p t Hw) as H. rewrite Hk in H. destruct (M !! key) as [X|] eqn:EX.
    + destruct (decide (p ∈ X)); [|by cbn; rewrite H]. destruct H as (t' & -> & Hw' & Hu). exists t'.
      split; [done|by eapply represents_updated].
    + destruct H as (b & t' & -> & Hw' & Hu & Hb). exists t'. split; [|by eapply updated_none]. cbn. do 3 f_equal.
      apply Bool.eq_iff_eq_true. rewrite Hb, bool_decide_eq_true, Exists_exists.
      split; (intros [|(k & H1 & H2)]; [by left|right; exists k]); by rewrite (represents_dom t M) in *.
  - unfold rm_pipe. destruct (rm_pipe_helper_spec p t Hw []) as (ks & t' & -> & HL & Hw' & Hd). cbn [obind]. exists t'. split.
    + do 3 f_equal. rewrite list_fmap_id. apply (lists_unique (last_of p) t); [done|]. intros k.
      rewrite elem_of_filter. unfold last_of. rewrite Hk, elem_of_dom. split; [by intros [? _]|].
      intros E. split; [done|by rewrite E].
    + split; [done|]. intros k. unfold without. by rewrite Hd, Hk, lookup_omap.
  - rewrite (match_spec d t Hw). exists t. split; [|done]. cbn [obind]. do 3 f_equal. unfold signalled. f_equal.
    apply map_ext. intros n. rewrite Hk. by destruct (M !! take n d).
Qed.

Lemma mtrie_perform_all_promised os t M : represents t M -> keeps (promised_all os M) (perform_all os t).
Proof.
  revert t M. induction os as [|o os IH]; intros t M HR; [by exists t|]. cbn [perform_all promised_all].
  pose proof (mtrie_perform_promised o t M HR) as H. destruct (promised o M) as [[a M1]| |w]; [|done|by cbn in H |- *; rewrite H].
  destruct H as (t1 & -> & HR1). cbn [obind]. specialize (IH t1 M1 HR1).
  destruct (promised_all os M1) as [[answers M2]| |w]; [|done|by cbn in IH |- *; rewrite IH].
  destruct IH as (t2 & -> & HR2). by exists t2.
Qed.

(** C9: the publisher's trie refines the map from topics to pipes, for any
    sequence of operations on a new trie.  Where the map answers, the trie gives
    the same answers ([add]: the topic is new; [rm]: it is gone; [rm] of a pipe:
    the topics that lost their last pipe, in order; [match]: the pipes of every
    prefix of the message), its tables are compact, it has no redundant node
    below the root and its destructor succeeds.  It fails an assertion exactly
    where the map does: when a pipe leaves a topic it is not subscribed to
    while others are. *)
Theorem mtrie_refines_topics os :
  match promised_all os ∅ with
  | Ok (answers, M) => exists t, perform_all os new_mtrie = Ok (answers, t) /\ represents t M /\ destroy t = Ok tt
  | Aborted why => perform_all os new_mtrie = Aborted why
  | OutOfFuel => False
  end.
Proof.
  pose proof (mtrie_perform_all_promised os new_mtrie ∅ mtrie_represents_new) as H.
  destruct (promised_all os ∅) as [[answers M]| |w]; [|done|done].
  destruct H as (t & E & HR). exists t. split_and!; [done|done|apply mtrie_destroy_spec, HR].
Qed.

(** Three pipes and three topics; then a pipe leaves a topic of another. *)
Example mtrie_session :
  promised_all [Add (bs "a") 1; Add (bs "a") 2; Add (bs "abc") 1; Add (bs "z") 3; Match (bs "abcd");
                RmPipe 1; Match (bs "abcd"); Rm (bs "z") 3] ∅
    = Ok ([Said true; Said false; Said true; Said true; Signalled [1; 2; 1]; Listed [bs "abc"]; Signalled [2]; Said true],
          {[ bs "a" := {[ 2 ]} ]})
  /\ perform_all [Add (bs "a") 1; Rm (bs "a") 2] new_mtrie = Aborted "erased == 1".
Proof. split; [vm_compute; reflexivity|reflexivity]. Qed.
