(* ===== verification/Yqueue.v ===== *)
(** * The queue of chunks ([lib/zeromq/yqueue.hpp])

    Elements live in chunks of [N] on a heap; the chunks are linked in both
    directions.  An address is a chunk and a position.  [malloc] gives a chunk
    at an address that is not in use (a freed one may come back) whose cells
    hold nothing and whose links are null; reading or freeing a chunk that is
    not allocated is an abort. *)

From stdpp Require Import tactics gmap.
From S2P Require Import Prelude.

Section Yqueue.
Context {T : Type} (N : Z).

(** ** Data *)

Abbreviation ptr := (option Z).

Record chunk_t := mkChunk { values : list (option T); prev : ptr; next : ptr }.

Abbreviation heap := (gmap Z chunk_t).

Record yqueue_t := mkYqueue {
  chunks : heap;
  begin_chunk : ptr; begin_pos : Z;
  back_chunk : ptr; back_pos : Z;
  end_chunk : ptr; end_pos : Z;
  spare_chunk : ptr
}.

(** ** The heap *)

Definition malloc (h : heap) : Z * heap :=
  let a := fresh (dom h) in (a, <[a := mkChunk (replicate (Z.to_nat N) None) None None]> h).

Definition load (p : ptr) (h : heap) : outcome chunk_t :=
  match p ≫= fun a => h !! a with Some c => Ok c | None => Aborted "invalid pointer" end.

Definition store (p : ptr) (f : chunk_t -> chunk_t) (h : heap) : outcome heap :=
  let! c := load p h in
  match p with Some a => Ok (<[a := f c]> h) | None => Aborted "invalid pointer" end.

Definition free (p : ptr) (h : heap) : outcome heap :=
  let! _ := load p h in
  match p with Some a => Ok (delete a h) | None => Aborted "invalid pointer" end.

Definition set_prev (p : ptr) (c : chunk_t) : chunk_t := mkChunk (values c) p (next c).
Definition set_next (p : ptr) (c : chunk_t) : chunk_t := mkChunk (values c) (prev c) p.
Definition set_values (vs : list (option T)) (c : chunk_t) : chunk_t := mkChunk vs (prev c) (next c).

(** ** Construction and destruction *)

Definition new_yqueue : yqueue_t :=
  let (a, h) := malloc ∅ in mkYqueue h (Some a) 0 None 0 (Some a) 0 None.

(** The loop of the destructor; the fuel bounds the number of chunks. *)
Fixpoint free_chunks (fuel : nat) (begin_ end_ : ptr) (h : heap) : outcome heap :=
  match fuel with
  | O => OutOfFuel
  | S fuel' =>
      if decide (begin_ = end_) then free begin_ h
      else
        let! c := load begin_ h in
        let! h := free begin_ h in
        free_chunks fuel' (next c) end_ h
  end.

Definition destroy (q : yqueue_t) : outcome heap :=
  let! h := free_chunks (size (chunks q)) (begin_chunk q) (end_chunk q) (chunks q) in
  match spare_chunk q with
  | Some _ => free (spare_chunk q) h
  | None => Ok h
  end.

(** ** Access *)

Abbreviation address := (ptr * Z)%type.

(** [&front ()] and [&back ()]. *)
Definition front_address (q : yqueue_t) : address := (begin_chunk q, begin_pos q).
Definition back_address (q : yqueue_t) : address := (back_chunk q, back_pos q).

Definition fetch (a : address) (q : yqueue_t) : outcome (option T) :=
  let! c := load a.1 (chunks q) in
  match values c !! Z.to_nat a.2 with
  | Some v => if 0 <=? a.2 then Ok v else Aborted "values"
  | None => Aborted "values"
  end.

Definition front (q : yqueue_t) : outcome (option T) := fetch (front_address q) q.
Definition back (q : yqueue_t) : outcome (option T) := fetch (back_address q) q.

Definition with_chunks (h : heap) (q : yqueue_t) : yqueue_t :=
  mkYqueue h (begin_chunk q) (begin_pos q) (back_chunk q) (back_pos q) (end_chunk q) (end_pos q) (spare_chunk q).

(** [back () = value]. *)
Definition set_back (v : T) (q : yqueue_t) : outcome yqueue_t :=
  let! _ := back q in
  let! h := store (back_chunk q) (fun c => set_values (<[Z.to_nat (back_pos q) := Some v]> (values c)) c) (chunks q) in
  Ok (with_chunks h q).

(** ** Operations *)

Definition push (q : yqueue_t) : outcome yqueue_t :=
  let back_chunk := end_chunk q in
  let back_pos := end_pos q in
  let end_pos := end_pos q + 1 in
  if negb (end_pos =? N) then
    Ok (mkYqueue (chunks q) (begin_chunk q) (begin_pos q) back_chunk back_pos (end_chunk q) end_pos (spare_chunk q))
  else
    let! (sc, h) :=
      match spare_chunk q with
      | Some _ =>
          let sc := spare_chunk q in
          let! h := store (end_chunk q) (set_next sc) (chunks q) in
          let! h := store sc (set_prev (end_chunk q)) h in
          Ok (sc, h)
      | None =>
          let (a, h) := malloc (chunks q) in
          let! h := store (end_chunk q) (set_next (Some a)) h in
          let! h := store (Some a) (set_prev (end_chunk q)) h in
          Ok (Some a, h)
      end in
    Ok (mkYqueue h (begin_chunk q) (begin_pos q) back_chunk back_pos sc 0 None).

Definition unpush (q : yqueue_t) : outcome yqueue_t :=
  let! (back_chunk, back_pos) :=
    if negb (back_pos q =? 0) then Ok (back_chunk q, back_pos q - 1)
    else let! c := load (back_chunk q) (chunks q) in Ok (prev c, N - 1) in
  let! (end_chunk, end_pos, h) :=
    if negb (end_pos q =? 0) then Ok (end_chunk q, end_pos q - 1, chunks q)
    else
      let! c := load (end_chunk q) (chunks q) in
      let! c' := load (prev c) (chunks q) in
      let! h := free (next c') (chunks q) in
      let! h := store (prev c) (set_next None) h in
      Ok (prev c, N - 1, h) in
  Ok (mkYqueue h (begin_chunk q) (begin_pos q) back_chunk back_pos end_chunk end_pos (spare_chunk q)).

Definition pop (q : yqueue_t) : outcome yqueue_t :=
  let begin_pos := begin_pos q + 1 in
  if begin_pos =? N then
    let o := begin_chunk q in
    let! c := load o (chunks q) in
    let! h := store (next c) (set_prev None) (chunks q) in
    let! h := match spare_chunk q with
              | Some _ => free (spare_chunk q) h
              | None => Ok h
              end in
    Ok (mkYqueue h (next c) 0 (back_chunk q) (back_pos q) (end_chunk q) (end_pos q) o)
  else
    Ok (mkYqueue (chunks q) (begin_chunk q) begin_pos (back_chunk q) (back_pos q) (end_chunk q) (end_pos q) (spare_chunk q)).

End Yqueue.

Arguments chunk_t : clear implicits.
Arguments yqueue_t : clear implicits.

(** ** A queue behind its operations *)

Section Operations.
Context {T : Type} (N : Z).

Inductive operation := Push | SetBack (v : T) | Front | Back | Pop | Unpush.

(** What an operation returns: nothing, or the content of a cell. *)
Inductive answer := Done | Cell (v : option T).

Definition perform (o : operation) (q : yqueue_t T) : outcome (answer * yqueue_t T) :=
  match o with
  | Push => let! q := push N q in Ok (Done, q)
  | SetBack v => let! q := set_back v q in Ok (Done, q)
  | Front => let! v := front q in Ok (Cell v, q)
  | Back => let! v := back q in Ok (Cell v, q)
  | Pop => let! q := pop N q in Ok (Done, q)
  | Unpush => let! q := unpush N q in Ok (Done, q)
  end.

Fixpoint perform_all (os : list operation) (q : yqueue_t T) : outcome (list answer * yqueue_t T) :=
  match os with
  | [] => Ok ([], q)
  | o :: os' =>
      let! (a, q) := perform o q in
      let! (answers, q) := perform_all os' q in
      Ok (a :: answers, q)
  end.

(** The rules of the caller: only [push] is allowed on an empty queue. *)
Fixpoint legal (n : nat) (os : list operation) : bool :=
  match os with
  | [] => true
  | Push :: os' => legal (S n) os'
  | (Pop | Unpush) :: os' => match n with O => false | S n' => legal n' os' end
  | (SetBack _ | Front | Back) :: os' => match n with O => false | S _ => legal n os' end
  end.

(** What the queue promises: a list of cells, each with its address; a new cell
    is at an address not in use and holds anything. *)
Inductive fifo_step : operation -> list (option Z * Z * option T) -> answer
  -> list (option Z * Z * option T) -> Prop :=
| fifo_push l x : x.1 ∉ map fst l -> fifo_step Push l Done (l ++ [x])
| fifo_set_back l x v : fifo_step (SetBack v) (l ++ [x]) Done (l ++ [(x.1, Some v)])
| fifo_front x l : fifo_step Front (x :: l) (Cell x.2) (x :: l)
| fifo_back l x : fifo_step Back (l ++ [x]) (Cell x.2) (l ++ [x])
| fifo_pop x l : fifo_step Pop (x :: l) Done l
| fifo_unpush l x : fifo_step Unpush (l ++ [x]) Done l.

Inductive fifo_steps : list operation -> list (option Z * Z * option T) -> list answer
  -> list (option Z * Z * option T) -> Prop :=
| fifo_nil l : fifo_steps [] l [] l
| fifo_cons o os l a l' answers l'' :
    fifo_step o l a l' -> fifo_steps os l' answers l'' -> fifo_steps (o :: os) l (a :: answers) l''.

End Operations.

Arguments operation : clear implicits.
Arguments answer : clear implicits.

(** ** The interface of a queue of cells

    What [ypipe_t] needs of its queue. *)

Class FifoOps (T A Q : Type) := {
  fifo_new : Q;
  fifo_front_address : Q -> A;
  fifo_back_address : Q -> A;
  fifo_fetch_front : Q -> outcome (option T);
  fifo_fetch_back : Q -> outcome (option T);
  fifo_write_back : T -> Q -> outcome Q;
  fifo_append : Q -> outcome Q;
  fifo_retract : Q -> outcome Q;
  fifo_remove : Q -> outcome Q
}.

Class FifoLaws (T A Q : Type) `{FifoOps T A Q} := {
  fifo_holds : Q -> list (A * option T) -> Prop;
  fifo_new_holds : fifo_holds fifo_new [];
  fifo_nodup q l : fifo_holds q l -> NoDup (map fst l);
  fifo_front_ok q x l : fifo_holds q (x :: l) ->
    fifo_front_address q = x.1 /\ fifo_fetch_front q = Ok x.2;
  fifo_back_ok q l x : fifo_holds q (l ++ [x]) ->
    fifo_back_address q = x.1 /\ fifo_fetch_back q = Ok x.2;
  fifo_write_ok q l x v : fifo_holds q (l ++ [x]) ->
    exists q', fifo_write_back v q = Ok q' /\ fifo_holds q' (l ++ [(x.1, Some v)]);
  fifo_append_ok q l : fifo_holds q l ->
    exists q' x, fifo_append q = Ok q' /\ fifo_holds q' (l ++ [x]);
  fifo_retract_ok q l x : fifo_holds q (l ++ [x]) ->
    exists q', fifo_retract q = Ok q' /\ fifo_holds q' l;
  fifo_remove_ok q x l : fifo_holds q (x :: l) ->
    exists q', fifo_remove q = Ok q' /\ fifo_holds q' l
}.
