(* ===== verification/YqueueTheorems.v ===== *)
(** * The queue of chunks is a first-in first-out list

    The cells between the front and the end, in order, with their addresses, are
    the abstract state of a [yqueue_t].  No operation touches a chunk that is
    not allocated, and the destructor frees every chunk once. *)

From stdpp Require Import tactics gmap.
From S2P Require Import Prelude Yqueue.

Section Cells.
Context {T : Type} (N : Z).
Implicit Types (h : gmap Z (chunk_t T)) (cs : list Z) (q : yqueue_t T).

Abbreviation cell := (option Z * Z * option T)%type.

(** ** The cells of a list of chunks *)

Definition row h (a : Z) : list cell :=
  match h !! a with
  | Some c => imap (fun j v => (Some a, Z.of_nat j, v)) (values c)
  | None => []
  end.

Definition cells h cs : list cell := concat (map (row h) cs).

Definition next_of h (a : Z) : option Z := h !! a ≫= next.
Definition prev_of h (a : Z) : option Z := h !! a ≫= prev.

Definition linked h cs : Prop :=
  forall u a b w, cs = u ++ a :: b :: w -> next_of h a = Some b /\ prev_of h b = Some a.

Definition opt_list (p : option Z) : list Z := match p with Some a => [a] | None => [] end.

(** The chunks of the heap: those of the list [cs], and the spare one. *)
Record heap_ok h cs (spare : option Z) : Prop := {
  ok_nodup : NoDup (cs ++ opt_list spare);
  ok_dom a : is_Some (h !! a) <-> a ∈ cs ++ opt_list spare;
  ok_length a c : h !! a = Some c -> Z.of_nat (length (values c)) = N
}.

(** The queue holds the cells [l]. *)
Definition holds q (l : list cell) : Prop :=
  exists cs pre post, heap_ok (chunks q) cs (spare_chunk q) /\ linked (chunks q) cs
    /\ head cs = begin_chunk q /\ last cs = end_chunk q /\ cs <> []
    /\ cells (chunks q) cs = pre ++ l ++ post
    /\ Z.of_nat (length pre) = begin_pos q /\ Z.of_nat (length post) = N - end_pos q
    /\ 0 <= begin_pos q < N /\ 0 <= end_pos q < N
    /\ (forall x, last l = Some x -> x.1 = back_address q).

(** ** Rows *)

Lemma row_length h cs spare a : heap_ok h cs spare -> a ∈ cs -> Z.of_nat (length (row h a)) = N.
Proof.
  intros H Ha. destruct (proj2 (ok_dom _ _ _ H a)) as [c Hc]; [by apply elem_of_app; left|].
  unfold row. rewrite Hc, length_imap. by apply (ok_length _ _ _ H a).
Qed.

Lemma cells_app h cs cs' : cells h (cs ++ cs') = cells h cs ++ cells h cs'.
Proof. unfold cells. by rewrite map_app, concat_app. Qed.

Lemma cells_cons h a cs : cells h (a :: cs) = row h a ++ cells h cs.
Proof. done. Qed.

Lemma cells_one h a : cells h [a] = row h a.
Proof. unfold cells. cbn. by rewrite app_nil_r. Qed.

Lemma cells_ext h h' cs : (forall a, a ∈ cs -> values <$> h !! a = values <$> h' !! a) -> cells h cs = cells h' cs.
Proof.
  induction cs as [|a cs IH]; intros H; [done|]. rewrite !cells_cons. f_equal.
  - specialize (H a ltac:(by left)). unfold row. destruct (h !! a), (h' !! a); try done. cbn in H. by injection H as ->.
  - apply IH. intros b Hb. apply H. by right.
Qed.

Lemma row_lookup h a i x : row h a !! i = Some x ->
  exists c v, h !! a = Some c /\ values c !! i = Some v /\ x = (Some a, Z.of_nat i, v).
Proof.
  unfold row. destruct (h !! a) as [c|] eqn:E; [|done]. rewrite list_lookup_imap. intros Hx.
  destruct (values c !! i) as [v|] eqn:Ev; [|done]. injection Hx as <-. by exists c, v.
Qed.

Lemma cells_chunk h cs x : x ∈ cells h cs -> exists a i c, a ∈ cs /\ h !! a = Some c /\ values c !! i = Some x.2
  /\ x.1 = (Some a, Z.of_nat i).
Proof.
  unfold cells. intros Hx. apply list_elem_of_In, in_concat in Hx as (r & Hr & Hx).
  apply in_map_iff in Hr as (a & <- & Ha). apply list_elem_of_In in Ha, Hx.
  apply list_elem_of_lookup in Hx as [i Hi]. apply row_lookup in Hi as (c & v & Hc & Hv & ->). by exists a, i, c.
Qed.

(** Different cells have different addresses. *)
Lemma cells_nodup h cs : NoDup cs -> NoDup (map fst (cells h cs)).
Proof.
  induction 1 as [|a cs Ha Hnd IH]; [constructor|]. rewrite cells_cons, map_app. apply NoDup_app. split_and!; [| |done].
  - apply NoDup_alt. intros i j x Hi Hj. change (map fst (row h a)) with (fst <$> row h a) in Hi, Hj.
    rewrite list_lookup_fmap in Hi, Hj.
    destruct (row h a !! i) as [y|] eqn:Ei; [|done]. destruct (row h a !! j) as [z|] eqn:Ej; [|done].
    apply row_lookup in Ei as (? & ? & _ & _ & ->), Ej as (? & ? & _ & _ & ->).
    cbn in Hi, Hj. injection Hi as <-. injection Hj as Hj. lia.
  - intros x Hx Hx'. change (map fst (row h a)) with (fst <$> row h a) in Hx.
    change (map fst (cells h cs)) with (fst <$> cells h cs) in Hx'.
    apply list_elem_of_fmap in Hx as (y & -> & Hy). apply list_elem_of_lookup in Hy as [i Hi].
    apply row_lookup in Hi as (c & v & _ & _ & ->). apply list_elem_of_fmap in Hx' as (z & E & Hz).
    apply cells_chunk in Hz as (b & j & c' & Hb & _ & _ & E'). cbn in E. rewrite <- E in E'. injection E' as -> _. done.
Qed.

Lemma linked_tail h a cs : linked h (a :: cs) -> linked h cs.
Proof. intros H u x y w ->. by apply (H (a :: u) x y w). Qed.

Lemma linked_snoc h cs a b : linked h (cs ++ [a]) -> next_of h a = Some b -> prev_of h b = Some a ->
  linked h (cs ++ [a] ++ [b]).
Proof.
  intros H Hn Hp u x y w E. destruct w as [|z w _] using rev_ind.
  - rewrite app_assoc in E. change (x :: [y]) with ([x] ++ [y]) in E. rewrite app_assoc in E.
    apply app_inj_tail in E as [E ->]. apply app_inj_tail in E as [_ ->]. done.
  - rewrite app_assoc in E. change (u ++ x :: y :: w ++ [z]) with (u ++ (x :: y :: w) ++ [z]) in E.
    rewrite app_assoc in E. apply app_inj_tail in E as [E _]. by apply (H u x y w).
Qed.

Lemma linked_init h cs b : linked h (cs ++ [b]) -> linked h cs.
Proof. intros H u x y w ->. apply (H u x y (w ++ [b])). by rewrite <- app_assoc. Qed.

Lemma linked_ext h h' cs : (forall a, a ∈ cs -> next_of h a = next_of h' a /\ prev_of h a = prev_of h' a) ->
  linked h cs -> linked h' cs.
Proof.
  intros He H u x y w E. destruct (H u x y w E) as [Hn Hp].
  destruct (He x) as [Hx _]; [rewrite E; set_solver|]. destruct (He y) as [_ Hy]; [rewrite E; set_solver|].
  by rewrite <- Hx, <- Hy.
Qed.

(** The first of two neighbours is not the last chunk, the second not the first. *)
Lemma before_last cs u (x y : Z) w e : NoDup cs -> cs = u ++ x :: y :: w -> last cs = Some e -> x <> e.
Proof.
  intros Hnd E Hl ->. rewrite E, last_app_cons in Hl. rewrite E in Hnd. apply NoDup_app in Hnd as (_ & _ & Hnd).
  apply NoDup_cons in Hnd as [Hn _]. apply Hn. change (last (e :: y :: w)) with (last (y :: w)) in Hl.
  by apply last_Some_elem_of.
Qed.

Lemma after_head cs u (x y : Z) w b : NoDup cs -> cs = u ++ x :: y :: w -> head cs = Some b -> y <> b.
Proof.
  intros Hnd E Hh ->. rewrite E in Hnd, Hh. destruct u as [|z u]; cbn in Hh, Hnd; injection Hh as ->;
    apply NoDup_cons in Hnd as [Hn _]; apply Hn; set_solver.
Qed.

(** The address of a cell follows from that of the next one. *)
Lemma cells_adjacent h cs k x y : 0 < N -> linked h cs ->
  (forall a, a ∈ cs -> Z.of_nat (length (row h a)) = N) ->
  cells h cs !! k = Some x -> cells h cs !! S k = Some y ->
  exists b, y.1.1 = Some b /\ is_Some (h !! b) /\
    ((y.1.2 <> 0 /\ x.1 = (Some b, y.1.2 - 1)) \/ (y.1.2 = 0 /\ x.1 = (prev_of h b, N - 1))).
Proof.
  intros HN. revert k. induction cs as [|a cs IH]; intros k Hlk Hrow Hx Hy; [done|].
  rewrite cells_cons in Hx, Hy. pose proof (Hrow a ltac:(by left)) as Hra.
  destruct (Nat.lt_ge_cases k (length (row h a))) as [Hk|Hk].
  - rewrite lookup_app_l in Hx by done. apply row_lookup in Hx as (c & v & Hc & Hv & ->). cbn [fst].
    destruct (Nat.lt_ge_cases (S k) (length (row h a))) as [Hk'|Hk'].
    + rewrite lookup_app_l in Hy by done. apply row_lookup in Hy as (c' & v' & Hc' & _ & ->). cbn [fst snd].
      exists a. split; [done|]. split; [by exists c|]. left. split; [lia|]. f_equal. lia.
    + rewrite lookup_app_r in Hy by done. replace (S k - length (row h a))%nat with 0%nat in Hy by lia.
      destruct cs as [|b cs]; [done|]. pose proof (Hrow b ltac:(by right; left)) as Hrb.
      rewrite cells_cons, lookup_app_l in Hy by lia. apply row_lookup in Hy as (c' & v' & Hc' & _ & ->). cbn [fst snd].
      exists b. split; [done|]. split; [by exists c'|]. right. split; [done|].
      destruct (Hlk [] a b cs eq_refl) as [_ ->]. f_equal. lia.
  - rewrite lookup_app_r in Hx, Hy by lia. apply (IH (k - length (row h a))%nat).
    + by eapply linked_tail.
    + intros b Hb. apply Hrow. by right.
    + done.
    + rewrite <- Hy. f_equal. lia.
Qed.

(** ** The heap *)

Lemma load_ok (h : gmap Z (chunk_t T)) a c : h !! a = Some c -> load (Some a) h = Ok c.
Proof. intros H. unfold load. cbn. by rewrite H. Qed.

Lemma store_ok (h : gmap Z (chunk_t T)) a c f : h !! a = Some c -> store (Some a) f h = Ok (<[a := f c]> h).
Proof. intros H. unfold store. by rewrite (load_ok _ _ _ H). Qed.

Lemma free_ok (h : gmap Z (chunk_t T)) a : is_Some (h !! a) -> free (Some a) h = Ok (delete a h).
Proof. intros [c H]. unfold free. by rewrite (load_ok _ _ _ H). Qed.

Lemma heap_nodup h cs spare : heap_ok h cs spare -> NoDup cs.
Proof. intros H. by pose proof (ok_nodup _ _ _ H) as (Hn & _)%NoDup_app. Qed.

Lemma chunk_in h cs spare a : heap_ok h cs spare -> a ∈ cs -> is_Some (h !! a).
Proof. intros H Ha. apply (ok_dom _ _ _ H), elem_of_app. by left. Qed.

Lemma heap_ok_insert h cs spare a c c' : heap_ok h cs spare -> h !! a = Some c ->
  length (values c') = length (values c) -> heap_ok (<[a := c']> h) cs spare.
Proof.
  intros H Ha Hl. constructor; [apply H| |].
  - intros b. rewrite lookup_insert_is_Some'. rewrite <- (ok_dom _ _ _ H b). split; [|tauto].
    intros [<-|]; [by exists c|done].
  - intros b d Hb. destruct (decide (b = a)) as [->|Hne].
    + rewrite lookup_insert_eq in Hb. injection Hb as <-. rewrite Hl. by apply (ok_length _ _ _ H a).
    + rewrite lookup_insert_ne in Hb by done. by apply (ok_length _ _ _ H b).
Qed.

Lemma next_of_insert h a b c : next_of (<[a := c]> h) b = if decide (b = a) then next c else next_of h b.
Proof. unfold next_of. case_decide as E; [rewrite E, lookup_insert_eq|rewrite lookup_insert_ne]; done. Qed.

Lemma prev_of_insert h a b c : prev_of (<[a := c]> h) b = if decide (b = a) then prev c else prev_of h b.
Proof. unfold prev_of. case_decide as E; [rewrite E, lookup_insert_eq|rewrite lookup_insert_ne]; done. Qed.

(** Changing the links of a chunk leaves the cells. *)
Lemma cells_relink h cs a c c' : h !! a = Some c -> values c' = values c -> cells (<[a := c']> h) cs = cells h cs.
Proof.
  intros Ha Hv. apply cells_ext. intros b _. destruct (decide (b = a)) as [->|Hne].
  - rewrite lookup_insert_eq, Ha. cbn. by rewrite Hv.
  - by rewrite lookup_insert_ne.
Qed.

Lemma rows_length h cs spare a : heap_ok h cs spare -> a ∈ cs -> Z.of_nat (length (row h a)) = N.
Proof. apply row_length. Qed.

Lemma cells_length h cs spare : heap_ok h cs spare -> Z.of_nat (length (cells h cs)) = N * Z.of_nat (length cs).
Proof.
  intros H. assert (Hsub : forall a, a ∈ cs -> Z.of_nat (length (row h a)) = N) by (intros a; by apply (row_length h cs spare)).
  clear H. induction cs as [|a cs IH]; [cbn; lia|]. rewrite cells_cons, length_app, Nat2Z.inj_add, (Hsub a) by (by left).
  rewrite IH by (intros b Hb; apply Hsub; by right). cbn [length]. lia.
Qed.

(** Appending a chunk at the end. *)
Lemma link_chunk h cs e sc : heap_ok h cs (Some sc) -> linked h cs -> last cs = Some e ->
  exists h1 h2, store (Some e) (set_next (Some sc)) h = Ok h1 /\ store (Some sc) (set_prev (Some e)) h1 = Ok h2
    /\ heap_ok h2 (cs ++ [sc]) None /\ linked h2 (cs ++ [sc]) /\ cells h2 (cs ++ [sc]) = cells h cs ++ row h2 sc.
Proof.
  intros H Hlk Hlast. assert (He : e ∈ cs) by (by apply last_Some_elem_of).
  destruct (chunk_in _ _ _ _ H He) as [ce Hce].
  assert (Hsc : is_Some (h !! sc)) by (apply (ok_dom _ _ _ H), elem_of_app; right; by left).
  assert (Hne : sc <> e).
  { intros ->. pose proof (ok_nodup _ _ _ H) as Hnd. apply NoDup_app in Hnd as (_ & Hd & _). apply (Hd e He). by left. }
  destruct Hsc as [cc Hcc]. set (h1 := <[e := set_next (Some sc) ce]> h).
  assert (Hcc1 : h1 !! sc = Some cc) by (unfold h1; by rewrite lookup_insert_ne).
  set (h2 := <[sc := set_prev (Some e) cc]> h1). exists h1, h2.
  rewrite (store_ok _ _ _ _ Hce), (store_ok _ _ _ _ Hcc1). split_and!; [done|done| | |].
  - assert (H2 : heap_ok h2 cs (Some sc)).
    { eapply heap_ok_insert; [eapply heap_ok_insert| |]; done. }
    constructor; [rewrite app_nil_r; apply H2| |apply H2]. intros a. rewrite app_nil_r. apply (ok_dom _ _ _ H2).
  - pose proof (ok_nodup _ _ _ H) as Hnd. apply NoDup_app in Hnd as (Hnd & Hd & _). pose proof Hlast as Hl'.
    apply last_Some in Hl' as [cs0 E0]. rewrite E0, <- app_assoc. apply linked_snoc; [rewrite <- E0|..].
    + intros u x y w E. destruct (Hlk u x y w E) as [Hx Hy]. unfold h2, h1.
      rewrite !next_of_insert, !prev_of_insert.
      assert (x <> sc) by (intros ->; apply (Hd sc); [rewrite E; set_solver|by left]).
      assert (y <> sc) by (intros ->; apply (Hd sc); [rewrite E; set_solver|by left]).
      assert (x <> e) by (by eapply before_last).
      rewrite !decide_False by done. split; [done|]. case_decide as Ey; [|done].
      subst y. unfold prev_of in Hy. rewrite Hce in Hy. exact Hy.
    + unfold h2, h1. rewrite !next_of_insert. rewrite decide_False, decide_True by done. done.
    + unfold h2. rewrite prev_of_insert. by rewrite decide_True.
  - rewrite cells_app, cells_one. f_equal. unfold h2. rewrite (cells_relink h1 cs sc cc) by done. unfold h1. by apply (cells_relink h cs e ce).
Qed.

(** ** Reading and writing *)

Lemma fetch_cell q cs spare x : heap_ok (chunks q) cs spare -> x ∈ cells (chunks q) cs -> fetch x.1 q = Ok x.2.
Proof.
  intros H (a & i & c & Ha & Hc & Hv & ->)%cells_chunk. unfold fetch. cbn [fst snd].
  rewrite (load_ok _ _ _ Hc). cbn [obind]. rewrite Nat2Z.id, Hv. by rewrite (proj2 (Z.leb_le _ _)) by lia.
Qed.

(** The cell at a position of the first chunk. *)
Lemma first_row h b cs k x : (k < length (row h b))%nat -> cells h (b :: cs) !! k = Some x -> x.1 = (Some b, Z.of_nat k).
Proof.
  intros Hk Hx. rewrite cells_cons, lookup_app_l in Hx by done.
  apply row_lookup in Hx as (c & v & _ & _ & ->). done.
Qed.

Lemma front_spec q x l : holds q (x :: l) -> front_address q = x.1 /\ front q = Ok x.2.
Proof.
  intros (cs & pre & post & H & Hlk & Hh & Hl & Hne & Hc & Hpre & Hpost & Hb & He & Hlast).
  destruct cs as [|b cs]; [done|]. cbn in Hh. assert (front_address q = x.1) as E.
  { unfold front_address. rewrite <- Hh, <- Hpre. symmetry. eapply (first_row (chunks q) b cs).
    - pose proof (row_length _ _ _ b H ltac:(by left)). lia.
    - rewrite Hc. by apply list_lookup_middle. }
  split; [done|]. unfold front. rewrite E. apply (fetch_cell q (b :: cs) (spare_chunk q)); [done|]. rewrite Hc. set_solver.
Qed.

Lemma holds_back q l x : holds q (l ++ [x]) -> back_address q = x.1 /\ back q = Ok x.2.
Proof.
  intros (cs & pre & post & H & Hlk & Hh & Hl & Hne & Hc & Hpre & Hpost & Hb & He & Hlast).
  assert (back_address q = x.1) as E by (symmetry; apply Hlast, last_snoc).
  split; [done|]. unfold back. rewrite E. apply (fetch_cell q cs (spare_chunk q)); [done|]. rewrite Hc. set_solver.
Qed.

(** The addresses of the cells of a queue are distinct. *)
Lemma holds_nodup q l : holds q l -> NoDup (map fst l).
Proof.
  intros (cs & pre & post & H & _ & _ & _ & _ & Hc & _). pose proof (ok_nodup _ _ _ H) as Hnd.
  apply NoDup_app in Hnd as (Hnd & _). apply (cells_nodup (chunks q)) in Hnd. rewrite Hc, !map_app in Hnd.
  by apply NoDup_app in Hnd as (_ & _ & (Hnd & _)%NoDup_app).
Qed.

(** Writing a cell. *)
Lemma row_write h a b c i v : h !! a = Some c -> (i < length (values c))%nat ->
  row (<[a := set_values (<[i := Some v]> (values c)) c]> h) b
  = (if decide (b = a) then <[i := (Some a, Z.of_nat i, Some v)]> (row h b) else row h b).
Proof.
  intros Hc Hi. unfold row. case_decide as E; [|by rewrite lookup_insert_ne].
  rewrite E, lookup_insert_eq, Hc. cbn. apply list_eq. intros j. rewrite list_lookup_imap.
  destruct (decide (j = i)) as [->|Hne].
  - rewrite !list_lookup_insert_eq by (rewrite ?length_imap; done). done.
  - rewrite !list_lookup_insert_ne by done. by rewrite list_lookup_imap.
Qed.

Lemma cells_write h cs a c i v k : NoDup cs -> h !! a = Some c -> (i < length (values c))%nat ->
  (exists w, cells h cs !! k = Some (Some a, Z.of_nat i, w)) ->
  cells (<[a := set_values (<[i := Some v]> (values c)) c]> h) cs = <[k := (Some a, Z.of_nat i, Some v)]> (cells h cs).
Proof.
  intros Hnd Hc Hi. revert k. induction cs as [|b cs IH]; intros k [w Hk]; [done|]. rewrite !cells_cons in *.
  apply NoDup_cons in Hnd as [Hb Hnd]. rewrite (row_write h a b c i v Hc Hi).
  destruct (Nat.lt_ge_cases k (length (row h b))) as [Hlt|Hge].
  - rewrite lookup_app_l in Hk by done. apply row_lookup in Hk as (c' & v' & _ & _ & E). injection E as -> E _.
    assert (k = i) as -> by lia. rewrite decide_True by done. rewrite insert_app_l by done. f_equal.
    apply cells_ext. intros a' Ha'. rewrite lookup_insert_ne; [done|]. by intros ->.
  - rewrite lookup_app_r in Hk by done. rewrite insert_app_r_alt by done. rewrite (IH Hnd (k - length (row h b))%nat) by (by exists w). f_equal.
    case_decide as E; [|done]. subst b. exfalso. apply Hb. apply list_elem_of_lookup_2, cells_chunk in Hk as (a' & j & c' & Ha' & _ & _ & E).
    cbn in E. by injection E as ->.
Qed.

Lemma set_back_spec q l x v : holds q (l ++ [x]) ->
  exists q', set_back v q = Ok q' /\ holds q' (l ++ [(x.1, Some v)]) /\ front_address q' = front_address q
    /\ back_address q' = back_address q.
Proof.
  intros HQ. destruct (holds_back q l x HQ) as [Ha Hbk].
  destruct HQ as (cs & pre & post & H & Hlk & Hh & Hl & Hne & Hc & Hpre & Hpost & Hb & He & Hlast).
  unfold set_back. rewrite Hbk. cbn [obind].
  assert (Hx : x ∈ cells (chunks q) cs) by (rewrite Hc; set_solver).
  apply cells_chunk in Hx as (a & i & c & Hain & Hca & Hv & Ex). rewrite Ex in Ha. injection Ha as Ha Hi.
  rewrite Ha, Hi, Nat2Z.id. pose proof (lookup_lt_Some _ _ _ Hv) as Hlt.
  rewrite (store_ok _ _ _ _ Hca). cbn [obind]. eexists. split; [reflexivity|].
  split; [|by unfold back_address, front_address; cbn; rewrite Ha].
  exists cs, pre, post. cbn. split_and!; try (done || lia).
  - by apply (heap_ok_insert _ _ _ a c); [done|done|cbn; rewrite length_insert].
  - eapply linked_ext; [|exact Hlk]. intros b _. rewrite next_of_insert, prev_of_insert.
    case_decide as Eb; [|done]. subst b. unfold next_of, prev_of. by rewrite Hca.
  - rewrite (cells_write _ _ _ _ _ _ (length (pre ++ l))); [|by apply (heap_nodup _ _ _ H)|done|done|].
    + rewrite Hc, <- (app_assoc l), app_assoc, (insert_app_r_alt (pre ++ l)) by lia. rewrite Nat.sub_diag. cbn.
      by rewrite <- !app_assoc, Ex.
    + exists x.2. rewrite Hc, <- (app_assoc l), app_assoc.
      cbn [app]. rewrite list_lookup_middle by done. rewrite <- Ex. by destruct x.
  - intros y. rewrite last_snoc. intros [= <-]. cbn. unfold back_address. cbn. by rewrite Ex, Ha, Hi.
Qed.

(** ** Pushing *)

(** The cell after the last one is at the end position. *)
Lemma end_cell h cs spare u y post e : heap_ok h cs spare -> last cs = Some e -> cells h cs = u ++ y :: post ->
  Z.of_nat (length (y :: post)) <= N -> y.1 = (Some e, N - Z.of_nat (length (y :: post))).
Proof.
  intros H Hl Hc Hlen. apply last_Some in Hl as [cs0 ->]. rewrite cells_app, cells_one in Hc.
  pose proof (row_length h _ spare e H ltac:(set_solver)) as Hr.
  assert (Hk : (cells h cs0 ++ row h e) !! length u = Some y) by (rewrite Hc; by apply list_lookup_middle).
  pose proof (f_equal length Hc) as HL. rewrite !length_app in HL.
  rewrite lookup_app_r in Hk by lia. apply row_lookup in Hk as (c & v & _ & _ & ->). cbn [fst]. f_equal. lia.
Qed.

(** The chunk that [push] appends: the spare one or a new one. *)
Lemma spare_or_malloc q cs : heap_ok (chunks q) cs (spare_chunk q) -> linked (chunks q) cs -> 0 < N ->
  exists h0 sc, (match spare_chunk q with
                 | Some _ => (spare_chunk q, chunks q)
                 | None => let (a, h) := malloc N (chunks q) in (Some a, h)
                 end) = (Some sc, h0)
    /\ heap_ok h0 cs (Some sc) /\ linked h0 cs /\ cells h0 cs = cells (chunks q) cs.
Proof.
  intros H Hlk HN. destruct (spare_chunk q) as [sc|] eqn:Es; [by exists (chunks q), sc|].
  unfold malloc. set (a := fresh (dom (chunks q))). eexists _, a. split; [reflexivity|].
  assert (Ha : chunks q !! a = None) by (apply not_elem_of_dom, is_fresh).
  assert (Hac : a ∉ cs) by (intros Hin; apply (chunk_in _ _ _ _ H) in Hin; rewrite Ha in Hin; by destruct Hin).
  split_and!.
  - constructor.
    + cbn. apply NoDup_app. split_and!; [by eapply heap_nodup| |apply NoDup_singleton].
      intros b Hb' ->%list_elem_of_singleton. done.
    + intros b. rewrite lookup_insert_is_Some'. cbn. rewrite elem_of_app, list_elem_of_singleton.
      rewrite (ok_dom _ _ _ H b). cbn. rewrite app_nil_r. naive_solver.
    + intros b c Hbc. destruct (decide (b = a)) as [->|Hba].
      * rewrite lookup_insert_eq in Hbc. injection Hbc as <-. cbn. rewrite length_replicate. lia.
      * rewrite lookup_insert_ne in Hbc by done. by apply (ok_length _ _ _ H b).
  - eapply linked_ext; [|exact Hlk]. intros b Hb'. unfold next_of, prev_of. by rewrite lookup_insert_ne by congruence.
  - apply cells_ext. intros b Hb'. by rewrite lookup_insert_ne by congruence.
Qed.

(** [push] makes the cell at the end position the last one. *)
Lemma push_spec q l : holds q l -> exists q' x, push N q = Ok q' /\ holds q' (l ++ [x])
  /\ front_address q' = front_address q.
Proof.
  intros (cs & pre & post & H & Hlk & Hh & Hl & Hne & Hc & Hpre & Hpost & Hb & He & Hlast).
  destruct post as [|x post]; [cbn in Hpost; lia|].
  destruct (last_is_Some cs) as [_ Hls]. destruct (Hls Hne) as [e Hle]. clear Hls. rewrite Hle in Hl.
  assert (Hx : x.1 = (end_chunk q, end_pos q)).
  { rewrite app_assoc in Hc. rewrite (end_cell _ _ _ _ _ _ _ H Hle Hc) by lia. rewrite Hl. f_equal. lia. }
  unfold push. destruct (Z.eqb_spec (end_pos q + 1) N) as [HN|HN]; cbn [negb].
  - assert (post = []) as -> by (destruct post; [done|cbn in Hpost; lia]).
    assert (Hfin : forall h2 sc, heap_ok h2 (cs ++ [sc]) None -> linked h2 (cs ++ [sc]) ->
      cells h2 (cs ++ [sc]) = cells (chunks q) cs ++ row h2 sc ->
      holds (mkYqueue h2 (begin_chunk q) (begin_pos q) (end_chunk q) (end_pos q) (Some sc) 0 None) (l ++ [x])).
    { intros h2 sc H2 Hlk2 Hc2. exists (cs ++ [sc]), pre, (row h2 sc). cbn.
      split_and!; try (done || lia); [by rewrite head_app, <- Hh; destruct cs|by rewrite last_snoc|by destruct cs| |..].
      - rewrite Hc2, Hc. by rewrite <- !app_assoc.
      - rewrite (row_length h2 (cs ++ [sc]) None) by (done || set_solver). lia.
      - intros y. rewrite last_snoc. by intros [= <-]. }
    destruct (spare_or_malloc q cs H Hlk ltac:(lia)) as (h0 & sc & Eg & H0 & Hlk0 & Hc0).
    destruct (link_chunk h0 cs e sc H0 Hlk0 Hle) as (h1 & h2 & E1 & E2 & H2 & Hlk2 & Hc2). rewrite <- Hl in *.
    eexists _, x. split; [|split; [apply (Hfin h2 sc); [done|done|by rewrite Hc2, Hc0]|done]].
    destruct (spare_chunk q) as [s|].
    + injection Eg as -> ->. rewrite E1. cbn [obind]. rewrite E2. done.
    + destruct (malloc N (chunks q)) as [a h']. injection Eg as -> ->. rewrite E1. cbn [obind]. rewrite E2. done.
  - eexists _, x. split; [reflexivity|]. split; [|done]. exists cs, pre, post. cbn in *.
    split_and!; try (done || lia).
    + congruence.
    + rewrite Hc. by rewrite <- app_assoc.
    + intros y. rewrite last_snoc. by intros [= <-].
Qed.

(** ** Popping *)

Lemma heap_ok_free_spare h cs s : heap_ok h cs (Some s) -> heap_ok (delete s h) cs None.
Proof.
  intros H. pose proof (ok_nodup _ _ _ H) as Hnd. apply NoDup_app in Hnd as (Hnd & Hd & _). constructor.
  - by rewrite app_nil_r.
  - intros a. cbn. rewrite app_nil_r, lookup_delete_is_Some, (ok_dom _ _ _ H a). cbn.
    rewrite elem_of_app, list_elem_of_singleton. split; [naive_solver|]. intros Ha. split; [|by left].
    intros ->. apply (Hd a Ha). by left.
  - intros a c Ha. apply lookup_delete_Some in Ha as [_ Ha]. by apply (ok_length _ _ _ H a).
Qed.

Lemma heap_ok_rotate h b cs : heap_ok h (b :: cs) None -> heap_ok h cs (Some b).
Proof.
  intros H. constructor; [|intros a|apply H].
  - pose proof (ok_nodup _ _ _ H) as Hnd. cbn in *. rewrite app_nil_r in Hnd. by rewrite (Permutation_app_comm cs).
  - rewrite (ok_dom _ _ _ H a). cbn. rewrite app_nil_r, elem_of_app, elem_of_cons, list_elem_of_singleton. tauto.
Qed.

(** The first chunk becomes the spare one. *)
Lemma retire_chunk h b b2 cs spare : heap_ok h (b :: b2 :: cs) spare -> linked h (b :: b2 :: cs) ->
  exists c h1 h2, load (Some b) h = Ok c /\ next c = Some b2 /\ store (Some b2) (set_prev None) h = Ok h1
    /\ (match spare with Some _ => free spare h1 | None => Ok h1 end) = Ok h2
    /\ heap_ok h2 (b2 :: cs) (Some b) /\ linked h2 (b2 :: cs) /\ cells h2 (b2 :: cs) = cells h (b2 :: cs).
Proof.
  intros H Hlk. destruct (chunk_in _ _ _ b H) as [c Hc]; [by left|]. destruct (chunk_in _ _ _ b2 H) as [c2 Hc2]; [by right; left|].
  destruct (Hlk [] b b2 cs eq_refl) as [Hn _]. unfold next_of in Hn. rewrite Hc in Hn. cbn in Hn.
  set (h1 := <[b2 := set_prev None c2]> h). set (h2 := match spare with Some s => delete s h1 | None => h1 end).
  assert (H1 : heap_ok h1 (b :: b2 :: cs) spare) by (by apply (heap_ok_insert _ _ _ _ c2)).
  assert (H2 : heap_ok h2 (b :: b2 :: cs) None) by (unfold h2; destruct spare; [by apply heap_ok_free_spare|done]).
  assert (Hsp : forall a, a ∈ b :: b2 :: cs -> h2 !! a = h1 !! a).
  { intros a Ha. unfold h2. destruct spare as [s|]; [|done]. rewrite lookup_delete_ne; [done|]. intros ->.
    pose proof (ok_nodup _ _ _ H) as Hnd. apply NoDup_app in Hnd as (_ & Hd & _). apply (Hd a Ha). by left. }
  exists c, h1, h2. split_and!; [by apply load_ok|done|by apply store_ok| |by apply heap_ok_rotate| |].
  - unfold h2. destruct spare as [s|]; [|done]. apply free_ok. apply (ok_dom _ _ _ H1), elem_of_app. right. by left.
  - pose proof (heap_nodup _ _ _ H) as Hnd. apply NoDup_cons in Hnd as [_ Hnd].
    intros u x y w E. destruct (Hlk (b :: u) x y w) as [Hx Hy]; [by rewrite E|].
    assert (Hyb : y <> b2) by (by eapply after_head).
    assert (Hin : x ∈ b :: b2 :: cs /\ y ∈ b :: b2 :: cs) by (rewrite E; split; set_solver).
    unfold next_of, prev_of. rewrite !Hsp by apply Hin. change (h1 !! x ≫= next) with (next_of h1 x).
    change (h1 !! y ≫= prev) with (prev_of h1 y). unfold h1. rewrite next_of_insert, prev_of_insert, (decide_False (P := y = b2)) by done.
    split; [|done]. case_decide as Ex; [|done]. subst x. unfold next_of in Hx. by rewrite Hc2 in Hx.
  - transitivity (cells h1 (b2 :: cs)); [|by apply (cells_relink _ _ _ c2)].
    apply cells_ext. intros a Ha. by rewrite Hsp by (by right).
Qed.

(** [pop] removes the front cell. *)
Lemma pop_spec q x l : holds q (x :: l) ->
  exists q', pop N q = Ok q' /\ holds q' l /\ back_address q' = back_address q.
Proof.
  intros (cs & pre & post & H & Hlk & Hh & Hl & Hne & Hc & Hpre & Hpost & Hb & He & Hlast).
  assert (Hlast' : forall y, last l = Some y -> y.1 = back_address q).
  { intros y Hy. apply Hlast. destruct l; [done|exact Hy]. }
  unfold pop. destruct (Z.eqb_spec (begin_pos q + 1) N) as [HN|HN].
  - destruct cs as [|b cs]; [done|]. pose proof (row_length _ _ _ b H ltac:(by left)) as Hrb.
    assert (Hsplit : row (chunks q) b = pre ++ [x] /\ cells (chunks q) cs = l ++ post).
    { apply app_inj_1; [rewrite length_app; cbn; lia|]. rewrite <- app_assoc. exact Hc. }
    destruct Hsplit as [_ Hc']. destruct cs as [|b2 cs].
    { exfalso. cbn in Hc'. destruct l; [|done]. destruct post; [cbn in Hpost; lia|done]. }
    destruct (retire_chunk _ _ _ _ _ H Hlk) as (c & h1 & h2 & E1 & E2 & E3 & E4 & H2 & Hlk2 & Hc2).
    cbn in Hh. rewrite <- Hh, E1. cbn [obind]. rewrite E2, E3. cbn [obind]. rewrite E4. cbn [obind].
    eexists. split; [reflexivity|]. split; [|done]. exists (b2 :: cs), [], post. cbn [chunks spare_chunk begin_chunk begin_pos end_chunk end_pos].
    split_and!; try (done || lia). by rewrite Hc2, Hc'.
  - eexists. split; [reflexivity|]. split; [|done]. exists cs, (pre ++ [x]), post.
    cbn [chunks spare_chunk begin_chunk begin_pos end_chunk end_pos].
    split_and!; try (done || lia); [by rewrite <- app_assoc|rewrite length_app; cbn; lia].
Qed.

(** ** Taking a push back *)

(** The last chunk is freed. *)
Lemma drop_chunk h cs d e spare : heap_ok h (cs ++ [d] ++ [e]) spare -> linked h (cs ++ [d] ++ [e]) ->
  exists ce cd h1 h2, load (Some e) h = Ok ce /\ prev ce = Some d /\ load (Some d) h = Ok cd /\ next cd = Some e
    /\ free (Some e) h = Ok h1 /\ store (Some d) (set_next None) h1 = Ok h2
    /\ heap_ok h2 (cs ++ [d]) spare /\ linked h2 (cs ++ [d]) /\ cells h2 (cs ++ [d]) = cells h (cs ++ [d]).
Proof.
  intros H Hlk. destruct (chunk_in _ _ _ e H) as [ce Hce]; [set_solver|].
  destruct (chunk_in _ _ _ d H) as [cd Hcd]; [set_solver|].
  destruct (Hlk cs d e [] eq_refl) as [Hn Hp]. unfold next_of in Hn. unfold prev_of in Hp. rewrite Hcd in Hn. rewrite Hce in Hp.
  pose proof (heap_nodup _ _ _ H) as Hnd. rewrite app_assoc in Hnd.
  assert (He : e ∉ cs ++ [d]) by (intros Hin; apply NoDup_app in Hnd as (_ & Hd & _); apply (Hd e Hin); by left).
  assert (Hde : d <> e) by (intros ->; apply He; set_solver).
  set (h1 := delete e h). assert (Hcd1 : h1 !! d = Some cd) by (unfold h1; by rewrite lookup_delete_ne).
  set (h2 := <[d := set_next None cd]> h1).
  exists ce, cd, h1, h2. split_and!; [by apply load_ok|done|by apply load_ok|done|by apply free_ok|by apply store_ok| | |].
  - apply (heap_ok_insert _ _ _ _ cd); [|done|done]. pose proof (ok_nodup _ _ _ H) as HN. constructor.
    + apply (sublist_NoDup _ ((cs ++ [d] ++ [e]) ++ opt_list spare)); [done|].
      apply sublist_app; [|done]. rewrite app_assoc. by apply sublist_inserts_r.
    + intros a. unfold h1. rewrite lookup_delete_is_Some, (ok_dom _ _ _ H a).
      assert (Hsp : e ∉ opt_list spare).
      { intros Hin. apply NoDup_app in HN as (_ & Hd & _). apply (Hd e); [set_solver|done]. }
      rewrite !elem_of_app, !list_elem_of_singleton. split; [naive_solver|]. intros Ha. split; [|naive_solver].
      intros ->. apply He. rewrite elem_of_app, list_elem_of_singleton. naive_solver.
    + intros a c Ha. apply lookup_delete_Some in Ha as [_ Ha]. by apply (ok_length _ _ _ H a).
  - apply NoDup_app in Hnd as (Hnd & _). intros u x y w E. destruct (Hlk u x y (w ++ [e])) as [Hx Hy].
    { rewrite app_assoc, E. by rewrite <- app_assoc. }
    assert (Hxd : x <> d) by (eapply before_last; [exact Hnd|exact E|apply last_snoc]).
    assert (Hin : x <> e /\ y <> e) by (split; intros ->; apply He; rewrite E; set_solver).
    unfold h2. rewrite next_of_insert, prev_of_insert, (decide_False (P := x = d)) by done. unfold next_of, prev_of, h1.
    rewrite !lookup_delete_ne by (intros ->; by destruct Hin). split; [done|]. case_decide as Ey; [|done].
    subst y. cbn. unfold prev_of in Hy. by rewrite Hcd in Hy.
  - transitivity (cells h1 (cs ++ [d])); [by apply (cells_relink _ _ _ cd)|].
    apply cells_ext. intros a Ha. unfold h1. by rewrite lookup_delete_ne by congruence.
Qed.

(** The position before that of the last cell. *)
Lemma back_before q cs u x y w : 0 < N -> heap_ok (chunks q) cs (spare_chunk q) -> linked (chunks q) cs ->
  cells (chunks q) cs = u ++ x :: y :: w -> back_address q = y.1 ->
  (if negb (back_pos q =? 0) then Ok (back_chunk q, back_pos q - 1)
   else let! c := load (back_chunk q) (chunks q) in Ok (prev c, N - 1)) = Ok x.1.
Proof.
  intros HN H Hlk Hc Hy. destruct (cells_adjacent (chunks q) cs (length u) x y HN Hlk) as (b & Hb & [c Hcb] & Hx).
  - intros a. by apply (row_length _ _ _ a H).
  - rewrite Hc. by apply list_lookup_middle.
  - rewrite Hc, cons_middle, app_assoc. apply list_lookup_middle. rewrite length_app. cbn. lia.
  - unfold back_address in Hy. rewrite (surjective_pairing y.1), Hb in Hy. injection Hy as Hbc Hbp. rewrite Hbc, Hbp.
    destruct Hx as [[Hne ->]|[-> ->]].
    + by rewrite (proj2 (Z.eqb_neq _ 0)).
    + cbn [Z.eqb negb]. rewrite (load_ok _ _ _ Hcb). cbn [obind]. unfold prev_of. by rewrite Hcb.
Qed.

(** [unpush] removes the last cell. *)
Lemma unpush_spec q l x : holds q (l ++ [x]) ->
  exists q', unpush N q = Ok q' /\ holds q' l /\ front_address q' = front_address q.
Proof.
  intros HQ. destruct (holds_back q l x HQ) as [Hba _].
  destruct HQ as (cs & pre & post & H & Hlk & Hh & Hl & Hne & Hc & Hpre & Hpost & Hb & He & Hlast).
  unfold unpush.
  assert (Hback : exists bc bp, (if negb (back_pos q =? 0) then Ok (back_chunk q, back_pos q - 1)
     else let! c := load (back_chunk q) (chunks q) in Ok (prev c, N - 1)) = Ok (bc, bp)
     /\ forall y, last l = Some y -> y.1 = (bc, bp)).
  { destruct l as [|y l _] using rev_ind.
    - assert (Hx : x ∈ cells (chunks q) cs) by (rewrite Hc; set_solver).
      apply cells_chunk in Hx as (a & i & c & _ & Hca & _ & Ex). rewrite Ex in Hba. injection Hba as -> ->.
      rewrite (load_ok _ _ _ Hca). cbn [obind]. destruct (negb _); by eexists _, _.
    - exists y.1.1, y.1.2. rewrite <- surjective_pairing. split.
      + apply (back_before q cs (pre ++ l) y x post); [lia|done|done| |done]. rewrite Hc. by rewrite <- !app_assoc.
      + intros z. rewrite last_snoc. by intros [= <-]. }
  destruct Hback as (bc & bp & -> & Hbl). cbn [obind].
  destruct (Z.eqb_spec (end_pos q) 0) as [E0|E0]; cbn [negb].
  - assert (exists cs0 d e, cs = cs0 ++ [d] ++ [e]) as (cs0 & d & e & ->).
    { destruct cs as [|e cs _] using rev_ind; [done|]. destruct cs as [|d cs _] using rev_ind; [|exists cs, d, e; by rewrite <- app_assoc].
      exfalso. pose proof (cells_length _ _ _ H) as HL. rewrite Hc, !length_app in HL. cbn [app length] in HL. lia. }
    assert (Hsplit : cells (chunks q) (cs0 ++ [d]) = pre ++ l ++ [x] /\ row (chunks q) e = post).
    { rewrite app_assoc, cells_app, cells_one in Hc. apply app_inj_2; [|rewrite Hc; by rewrite <- !app_assoc].
      pose proof (row_length _ _ _ e H ltac:(set_solver)). lia. }
    destruct Hsplit as [Hc' _].
    destruct (drop_chunk _ _ _ _ _ H Hlk) as (ce & cd & h1 & h2 & E1 & E2 & E3 & E4 & E5 & E6 & H2 & Hlk2 & Hc2).
    rewrite app_assoc, last_snoc in Hl. rewrite <- Hl, E1. cbn [obind]. rewrite E2, E3. cbn [obind]. rewrite E4, E5. cbn [obind].
    rewrite E6. cbn [obind]. eexists. split; [reflexivity|]. split; [|done].
    exists (cs0 ++ [d]), pre, [x]. cbn [chunks spare_chunk begin_chunk begin_pos end_chunk end_pos length].
    split_and!; try (done || lia); first [by rewrite <- Hh; destruct cs0|by rewrite last_snoc|by destruct cs0|by rewrite Hc2].
  - cbn [obind]. eexists. split; [reflexivity|]. split; [|done]. exists cs, pre, (x :: post).
    cbn [chunks spare_chunk begin_chunk begin_pos end_chunk end_pos length].
    split_and!; try (done || lia). rewrite Hc. by rewrite <- app_assoc.
Qed.

(** ** Construction and destruction *)

Lemma new_yqueue_spec : 0 < N -> holds (new_yqueue N) [].
Proof.
  intros HN. unfold new_yqueue, malloc. set (a := fresh _). cbn beta iota.
  exists [a], [], (row (<[a := mkChunk (replicate (Z.to_nat N) None) None None]> ∅) a).
  assert (H : heap_ok (<[a := mkChunk (replicate (Z.to_nat N) None) None None]> ∅) [a] None).
  { constructor.
    - apply NoDup_singleton.
    - intros b. rewrite lookup_insert_is_Some', lookup_empty. cbn. rewrite list_elem_of_singleton. split; [|by left].
      intros [->|[? [=]]]. done.
    - intros b c. rewrite lookup_insert_Some. intros [[_ <-]|[_ E]]; [cbn; rewrite length_replicate; lia|by rewrite lookup_empty in E]. }
  cbn [chunks spare_chunk begin_chunk begin_pos end_chunk end_pos length].
  split_and!; try (done || lia).
  - intros u x y w E. by destruct u as [|? [|? ?]].
  - by rewrite cells_one.
  - rewrite (row_length _ [a] None); [lia|done|by left].
Qed.

Lemma heap_ok_free h b cs spare : heap_ok h (b :: cs) spare -> heap_ok (delete b h) cs spare.
Proof.
  intros H. pose proof (ok_nodup _ _ _ H) as HN. cbn in HN. apply NoDup_cons in HN as [Hb HN]. constructor; [done| |].
  - intros a. rewrite lookup_delete_is_Some, (ok_dom _ _ _ H a). cbn. rewrite elem_of_cons. split; [naive_solver|].
    intros Ha. split; [by intros ->|by right].
  - intros a c Ha. apply lookup_delete_Some in Ha as [_ Ha]. by apply (ok_length _ _ _ H a).
Qed.

Lemma free_chunks_spec h cs spare b e fuel : heap_ok h cs spare -> linked h cs -> head cs = Some b -> last cs = Some e ->
  (length cs <= fuel)%nat -> exists h', free_chunks fuel (Some b) (Some e) h = Ok h' /\ heap_ok h' [] spare.
Proof.
  revert h b fuel. induction cs as [|b' cs IH]; intros h b fuel H Hlk Hh Hl Hf; [done|].
  cbn in Hh. injection Hh as ->. destruct fuel as [|fuel]; [cbn in Hf; lia|]. cbn [free_chunks].
  destruct (chunk_in _ _ _ b H) as [c Hc]; [by left|]. pose proof (heap_nodup _ _ _ H) as Hnd.
  rewrite free_ok by done. destruct cs as [|b2 cs].
  - cbn in Hl. injection Hl as ->. rewrite decide_True by done. eexists. split; [done|by apply heap_ok_free].
  - rewrite decide_False.
    2: { intros [= ->]. apply NoDup_cons in Hnd as [Hn _]. apply Hn. change (last (e :: b2 :: cs)) with (last (b2 :: cs)) in Hl.
         by apply last_Some_elem_of. }
    rewrite (load_ok _ _ _ Hc). cbn [obind]. destruct (Hlk [] b b2 cs eq_refl) as [Hn _].
    unfold next_of in Hn. rewrite Hc in Hn. cbn in Hn. rewrite Hn.
    apply IH; [by apply heap_ok_free| |done|exact Hl|cbn in *; lia].
    apply linked_tail in Hlk. eapply linked_ext; [|exact Hlk]. intros a Ha. unfold next_of, prev_of.
    rewrite lookup_delete_ne; [done|]. intros ->. by apply NoDup_cons in Hnd as [? _].
Qed.

(** The destructor frees every chunk, and each of them once. *)
Lemma yqueue_destroy_spec q l : holds q l -> destroy q = Ok ∅.
Proof.
  intros (cs & pre & post & H & Hlk & Hh & Hl & Hne & _). unfold destroy.
  destruct cs as [|b cs]; [done|]. destruct (last (b :: cs)) as [e|] eqn:El; [|by apply last_None in El].
  cbn in Hh. rewrite <- Hh, <- Hl.
  assert (Hsize : (length (b :: cs) <= size (chunks q))%nat).
  { rewrite <- size_dom, <- (size_list_to_set (C := gset Z) (b :: cs)) by (by eapply heap_nodup).
    apply subseteq_size. intros a Ha. apply elem_of_list_to_set in Ha. apply elem_of_dom. by eapply chunk_in. }
  destruct (free_chunks_spec _ _ _ b e _ H Hlk eq_refl El Hsize) as (h' & -> & H'). cbn [obind].
  assert (Hemp : forall h : gmap Z (chunk_t T), heap_ok h [] None -> h = ∅).
  { intros h H0. apply map_eq. intros a. rewrite lookup_empty. apply eq_None_not_Some. intros Ha.
    apply (ok_dom _ _ _ H0 a) in Ha. by apply elem_of_nil in Ha. }
  destruct (spare_chunk q) as [s|].
  - rewrite free_ok by (apply (ok_dom _ _ _ H'); by left). f_equal. by apply Hemp, heap_ok_free_spare.
  - f_equal. by apply Hemp.
Qed.

(** ** The refinement *)

Lemma perform_spec o q l os : holds q l -> legal (length l) (o :: os) = true ->
  exists a q' l', perform N o q = Ok (a, q') /\ fifo_step o l a l' /\ holds q' l' /\ legal (length l') os = true.
Proof.
  intros HQ Hl. destruct o as [|v| | | |]; cbn [perform legal] in *.
  - destruct (push_spec q l HQ) as (q' & x & -> & HQ' & _). exists Done, q', (l ++ [x]). split_and!; [done| |done|].
    + constructor. pose proof (holds_nodup _ _ HQ') as Hnd. rewrite map_app in Hnd. cbn in Hnd.
      apply NoDup_app in Hnd as (_ & Hd & _). intros Hin. apply (Hd _ Hin). by left.
    + rewrite length_app, Nat.add_comm. exact Hl.
  - destruct l as [|x l _] using rev_ind; [done|]. destruct (set_back_spec q l x v HQ) as (q' & -> & HQ' & _).
    exists Done, q', (l ++ [(x.1, Some v)]). split_and!; [done|constructor|done|].
    rewrite length_app in Hl |- *. cbn in *. by rewrite Nat.add_comm in Hl |- *.
  - destruct l as [|x l]; [done|]. destruct (front_spec q x l HQ) as [_ ->]. exists (Cell x.2), q, (x :: l).
    split_and!; [done|constructor|done|exact Hl].
  - destruct l as [|x l _] using rev_ind; [done|]. destruct (holds_back q l x HQ) as [_ ->].
    exists (Cell x.2), q, (l ++ [x]). split_and!; [done|constructor|done|].
    rewrite length_app in Hl |- *. cbn in *. by rewrite Nat.add_comm in Hl |- *.
  - destruct l as [|x l]; [done|]. destruct (pop_spec q x l HQ) as (q' & -> & HQ' & _). exists Done, q', l.
    split_and!; [done|constructor|done|exact Hl].
  - destruct l as [|x l _] using rev_ind; [done|]. destruct (unpush_spec q l x HQ) as (q' & -> & HQ' & _).
    exists Done, q', l. split_and!; [done|constructor|done|].
    rewrite length_app in Hl. cbn in Hl. by rewrite Nat.add_comm in Hl.
Qed.

Lemma perform_all_spec os q l : holds q l -> legal (length l) os = true ->
  exists answers q' l', perform_all N os q = Ok (answers, q') /\ fifo_steps os l answers l' /\ holds q' l'.
Proof.
  revert q l. induction os as [|o os IH]; intros q l HQ Hl; [exists [], q, l; split_and!; [done|constructor|done]|].
  destruct (perform_spec o q l os HQ Hl) as (a & q1 & l1 & E & Hs & HQ1 & Hl1). cbn [perform_all]. rewrite E. cbn [obind].
  destruct (IH q1 l1 HQ1 Hl1) as (answers & q2 & l2 & -> & Hs2 & HQ2).
  exists (a :: answers), q2, l2. split_and!; [done|by econstructor|done].
Qed.

End Cells.

(** The queue of chunks refines a first-in first-out list of cells, for every
    chunk size and every sequence of operations that takes nothing from an
    empty queue.  No operation reads, writes or frees a chunk that is not
    allocated; the answers are those of the list; a cell keeps its address, and
    cells in use have different addresses, although freed chunks come back; and
    the destructor frees every chunk exactly once. *)
Theorem yqueue_refines_fifo {T} N (os : list (operation T)) : 0 < N -> legal 0 os = true ->
  exists answers q l, perform_all N os (new_yqueue N) = Ok (answers, q) /\ fifo_steps os [] answers l
    /\ NoDup (map fst l) /\ destroy q = Ok ∅.
Proof.
  intros HN Hl. destruct (perform_all_spec N os (new_yqueue N) []) as (answers & q & l & E & Hs & HQ);
    [by apply new_yqueue_spec|done|].
  exists answers, q, l. split_and!; [done|done|by eapply holds_nodup|by eapply yqueue_destroy_spec].
Qed.

(** Chunks of two: the queue grows to a second and a third chunk, gives one back
    with [unpush], and uses the spare one. *)
Definition yqueue_session : list (operation nat) :=
  [Push; SetBack 1%nat; Push; SetBack 2%nat; Push; SetBack 3%nat; Pop; Pop; Unpush; Push; SetBack 4%nat; Push; Back; Front; Pop].

Lemma yqueue_refines_fifo_witness :
  legal 0 yqueue_session = true
  /\ exists answers q l, perform_all 2 yqueue_session (new_yqueue 2) = Ok (answers, q) /\ fifo_steps yqueue_session [] answers l
    /\ NoDup (map fst l) /\ destroy q = Ok ∅.
Proof. split; [reflexivity|]. apply (yqueue_refines_fifo 2 yqueue_session); [lia|reflexivity]. Defined.

(** ** The interface of [ypipe_t] *)

(** The granularity of a message pipe ([config.hpp]). *)
Definition message_pipe_granularity : Z := 256.

#[export] Instance yqueue_ops (T : Type) : FifoOps T (option Z * Z) (yqueue_t T) := {|
  fifo_new := new_yqueue message_pipe_granularity;
  fifo_front_address := front_address;
  fifo_back_address := back_address;
  fifo_fetch_front := front;
  fifo_fetch_back := back;
  fifo_write_back := set_back;
  fifo_append := push message_pipe_granularity;
  fifo_retract := unpush message_pipe_granularity;
  fifo_remove := pop message_pipe_granularity
|}.

#[export] Instance yqueue_laws (T : Type) : FifoLaws T (option Z * Z) (yqueue_t T).
Proof.
  refine {| fifo_holds := holds message_pipe_granularity |}.
  - by apply new_yqueue_spec.
  - intros q l. apply holds_nodup.
  - intros q x l. apply front_spec.
  - intros q l x. apply holds_back.
  - intros q l x v H. destruct (set_back_spec _ q l x v H) as (q' & E & H' & _). by exists q'.
  - intros q l H. destruct (push_spec _ q l H) as (q' & x & E & H' & _). by exists q', x.
  - intros q l x H. destruct (unpush_spec _ q l x H) as (q' & E & H' & _). by exists q'.
  - intros q x l H. destruct (pop_spec _ q x l H) as (q' & E & H' & _). by exists q'.
Defined.
