(* ===== verification/Ypipe.v ===== *)
(** * The lock-free pipe ([lib/zeromq/ypipe.hpp])

    One thread writes and one thread reads.  [w], [f] belong to the writer, [r]
    to the reader, and [c] is the only shared pointer: it points past the last
    flushed item, and is null while the reader sleeps.  [check_read] and [flush]
    change [c] by compare-and-swap; a [flush] that finds the reader asleep takes
    a second step to set it.  Threads interleave at these steps; the queue is
    the one of the interface [FifoOps], its writer's end and its reader's end
    being different cells. *)

From stdpp Require Import tactics.
From S2P Require Import Prelude Yqueue.

Section Ypipe.
Context {T A Q : Type} `{EqDecision A} `{FifoOps T A Q}.

(** ** The pipe *)

Record ypipe_t := mkYpipe { queue : Q; w : option A; r : option A; f : option A; c : option A }.

Definition new_ypipe : outcome ypipe_t :=
  let! q := fifo_append fifo_new in
  let a := Some (fifo_back_address q) in
  Ok (mkYpipe q a a a a).

Definition write (value_ : T) (incomplete_ : bool) (p : ypipe_t) : outcome ypipe_t :=
  let! q := fifo_write_back value_ (queue p) in
  let! q := fifo_append q in
  Ok (mkYpipe q (w p) (r p) (if incomplete_ then f p else Some (fifo_back_address q)) (c p)).

(** The item, or nothing when the last one is complete. *)
Definition unwrite (p : ypipe_t) : outcome (option (option T) * ypipe_t) :=
  if decide (f p = Some (fifo_back_address (queue p))) then Ok (None, p)
  else
    let! q := fifo_retract (queue p) in
    let! v := fifo_fetch_back q in
    Ok (Some v, mkYpipe q (w p) (r p) (f p) (c p)).

(** Up to the compare-and-swap: the answer, or nothing when [c] is to be set. *)
Definition flush_try (p : ypipe_t) : option bool * ypipe_t :=
  if decide (w p = f p) then (Some true, p)
  else if decide (c p = w p) then (Some true, mkYpipe (queue p) (f p) (r p) (f p) (f p))
  else (None, p).

Definition flush_wake (p : ypipe_t) : bool * ypipe_t := (false, mkYpipe (queue p) (f p) (r p) (f p) (f p)).

Definition flush (p : ypipe_t) : bool * ypipe_t :=
  match flush_try p with
  | (Some b, p) => (b, p)
  | (None, p) => flush_wake p
  end.

Definition check_read (p : ypipe_t) : bool * ypipe_t :=
  let front := Some (fifo_front_address (queue p)) in
  if bool_decide (front <> r p) && bool_decide (r p <> None) then (true, p)
  else
    let p := mkYpipe (queue p) (w p) (c p) (f p) (if decide (c p = front) then None else c p) in
    (negb (bool_decide (front = r p) || bool_decide (r p = None)), p).

Definition read (p : ypipe_t) : outcome (option (option T) * ypipe_t) :=
  let (b, p) := check_read p in
  if b then
    let! v := fifo_fetch_front (queue p) in
    let! q := fifo_remove (queue p) in
    Ok (Some v, mkYpipe q (w p) (r p) (f p) (c p))
  else Ok (None, p).

Definition probe (fn : option T -> bool) (p : ypipe_t) : outcome (bool * ypipe_t) :=
  let (rc, p) := check_read p in
  let! _ := assertion rc "rc" in
  let! v := fifo_fetch_front (queue p) in
  Ok (fn v, p).

(** ** Two threads

    [waking] is the writer between the two steps of a [flush]. *)

Inductive action :=
| Write (value_ : T) (incomplete_ : bool) | Unwrite | FlushTry | FlushWake | CheckRead | Read.

Inductive result := Nothing | Said (b : bool) | Item (v : option T) | NoItem | Pending.

Record threads := mkThreads { pipe : ypipe_t; waking : bool }.

Definition new_threads : outcome threads := let! p := new_ypipe in Ok (mkThreads p false).

(** A writer that is waking the reader does nothing else. *)
Definition allowed (waking : bool) (a : action) : bool :=
  match a with
  | Write _ _ | Unwrite | FlushTry => negb waking
  | FlushWake => waking
  | CheckRead | Read => true
  end.

Definition act (a : action) (s : threads) : outcome (result * threads) :=
  match a with
  | Write v i => let! p := write v i (pipe s) in Ok (Nothing, mkThreads p (waking s))
  | Unwrite =>
      let! (o, p) := unwrite (pipe s) in
      Ok (match o with Some v => Item v | None => NoItem end, mkThreads p (waking s))
  | FlushTry =>
      let (o, p) := flush_try (pipe s) in
      Ok (match o with
          | Some b => (Said b, mkThreads p (waking s))
          | None => (Pending, mkThreads p true)
          end)
  | FlushWake => let (b, p) := flush_wake (pipe s) in Ok (Said b, mkThreads p false)
  | CheckRead => let (b, p) := check_read (pipe s) in Ok (Said b, mkThreads p (waking s))
  | Read =>
      let! (o, p) := read (pipe s) in
      Ok (match o with Some v => Item v | None => NoItem end, mkThreads p (waking s))
  end.

(** The runs of the two threads, with what every step returned. *)
Inductive run : threads -> list (action * result) -> threads -> Prop :=
| run_nil s : run s [] s
| run_cons s a x s' trace s'' :
    allowed (waking s) a = true -> act a s = Ok (x, s') -> run s' trace s'' -> run s ((a, x) :: trace) s''.

(** ** What the pipe promises

    Items wait in four stages: fetched by the reader, flushed, complete, and
    incomplete.  The reader sleeps after it found nothing flushed. *)

Record channel := mkChannel {
  fetched : list T; flushed : list T; complete : list T; incomplete : list T;
  asleep : bool; awaking : bool
}.

Definition new_channel : channel := mkChannel [] [] [] [] false false.

(** [check_read] fetches everything that is flushed. *)
Definition fetch_all (s : channel) : bool * channel :=
  match fetched s, flushed s with
  | _ :: _, _ => (true, s)
  | [], [] => (false, mkChannel [] [] (complete s) (incomplete s) true (awaking s))
  | [], l => (true, mkChannel l [] (complete s) (incomplete s) (asleep s) (awaking s))
  end.

Definition promised (a : action) (s : channel) : result * channel :=
  match a with
  | Write v true =>
      (Nothing, mkChannel (fetched s) (flushed s) (complete s) (incomplete s ++ [v]) (asleep s) (awaking s))
  | Write v false =>
      (Nothing, mkChannel (fetched s) (flushed s) (complete s ++ incomplete s ++ [v]) [] (asleep s) (awaking s))
  | Unwrite =>
      match last (incomplete s) with
      | Some v => (Item (Some v), mkChannel (fetched s) (flushed s) (complete s) (removelast (incomplete s)) (asleep s) (awaking s))
      | None => (NoItem, s)
      end
  | FlushTry =>
      match complete s with
      | [] => (Said true, s)
      | l =>
          if asleep s then (Pending, mkChannel (fetched s) (flushed s) l (incomplete s) true true)
          else (Said true, mkChannel (fetched s) (flushed s ++ l) [] (incomplete s) false (awaking s))
      end
  | FlushWake => (Said false, mkChannel (fetched s) (flushed s ++ complete s) [] (incomplete s) false false)
  | CheckRead => let (b, s) := fetch_all s in (Said b, s)
  | Read =>
      let (b, s) := fetch_all s in
      match fetched s with
      | v :: l => (Item (Some v), mkChannel l (flushed s) (complete s) (incomplete s) (asleep s) (awaking s))
      | [] => (NoItem, s)
      end
  end.

End Ypipe.

Arguments ypipe_t : clear implicits.
Arguments threads : clear implicits.
Arguments action : clear implicits.
Arguments result : clear implicits.
Arguments channel : clear implicits.
