(* ===== verification/YpipeTheorems.v ===== *)
(** * The lock-free pipe refines a channel

    Every step of the writer and of the reader returns what the channel of
    [promised] returns, in every interleaving; so the reader gets exactly the
    items that were completed and flushed, in order, and no wake-up is lost. *)

From stdpp Require Import tactics.
From S2P Require Import Prelude Yqueue Ypipe YqueueTheorems.

Section Refinement.
Context {T A Q : Type} `{EqDecision A} `{FifoLaws T A Q}.
Implicit Types (l : list (A * option T)) (p : ypipe_t A Q) (k : channel T).

(** ** The channel of a pipe *)

Definition items k : list T := fetched k ++ flushed k ++ complete k ++ incomplete k.

(** The positions of [r], [w] and [f]. *)
Definition at_r k : nat := length (fetched k).
Definition at_w k : nat := (at_r k + length (flushed k))%nat.
Definition at_f k : nat := (at_w k + length (complete k))%nat.

Definition address_at l (i : nat) : option A := map fst l !! i.

Local Arguments items : simpl never.
Local Arguments at_r : simpl never.
Local Arguments at_w : simpl never.
Local Arguments at_f : simpl never.
Local Arguments address_at : simpl never.

Record represents (s : threads A Q) k (l : list (A * option T)) : Prop := {
  rep_holds : fifo_holds (queue (pipe s)) l;
  rep_items : exists x, map snd l = map Some (items k) ++ [x];
  rep_r : r (pipe s) = address_at l (at_r k) \/ (at_r k = 0%nat /\ r (pipe s) = None);
  rep_w : w (pipe s) = address_at l (at_w k);
  rep_f : f (pipe s) = address_at l (at_f k);
  rep_c : c (pipe s) = if asleep k then None else w (pipe s);
  rep_asleep : asleep k = true -> fetched k = [] /\ flushed k = [];
  rep_waking : awaking k = waking s;
  rep_awaking : awaking k = true -> asleep k = true /\ complete k <> []
}.

Lemma items_length k : length (items k) = (at_f k + length (incomplete k))%nat.
Proof. unfold items, at_f, at_w, at_r. rewrite !length_app. lia. Qed.

Lemma rep_length s k l : represents s k l -> length l = S (length (items k)).
Proof.
  intros H'. destruct (rep_items _ _ _ H') as [x E]. apply (f_equal length) in E.
  rewrite length_map, length_app, length_map in E. cbn in E. lia.
Qed.

(** Addresses tell the positions apart. *)
Lemma address_inj l q i j : fifo_holds q l -> (i < length l)%nat -> (j < length l)%nat ->
  address_at l i = address_at l j <-> i = j.
Proof.
  intros Hq Hi Hj. split; [|by intros ->]. intros E. apply fifo_nodup in Hq.
  destruct (lookup_lt_is_Some_2 (map fst l) i) as [a Ha]; [by rewrite length_map|].
  unfold address_at in E. rewrite Ha in E. by apply (NoDup_lookup (map fst l) i j a).
Qed.

Lemma address_some l i : (i < length l)%nat -> address_at l i <> None.
Proof. intros Hi E. apply lookup_ge_None in E. rewrite length_map in E. lia. Qed.

(** The front and the back of the queue. *)
Lemma front_at q l : fifo_holds q l -> l <> [] -> Some (fifo_front_address q) = address_at l 0.
Proof. destruct l as [|x l]; intros Hq Hne; [done|]. by destruct (fifo_front_ok q x l Hq) as [-> _]. Qed.

Lemma back_at q l n : fifo_holds q l -> length l = S n -> Some (fifo_back_address q) = address_at l n.
Proof.
  intros Hq Hn. destruct l as [|x l _] using rev_ind; [done|]. destruct (fifo_back_ok q l x Hq) as [-> _].
  rewrite length_app in Hn. cbn in Hn. unfold address_at. rewrite map_app, lookup_app_r by (rewrite length_map; lia).
  by replace (n - length (map fst l))%nat with 0%nat by (rewrite length_map; lia).
Qed.

Lemma address_app l l' i : (i < length l)%nat -> address_at (l ++ l') i = address_at l i.
Proof. intros Hi. unfold address_at. rewrite map_app, lookup_app_l by (by rewrite length_map). done. Qed.

(** ** The steps *)

Lemma new_threads_spec : exists s l, new_threads = Ok s /\ represents s new_channel l.
Proof.
  unfold new_threads, new_ypipe. destruct (fifo_append_ok _ _ fifo_new_holds) as (q & x & -> & Hq).
  cbn [obind]. eexists _, [x]. split; [reflexivity|]. destruct (fifo_back_ok q [] x Hq) as [Hb _].
  split; cbn; try done; [by exists x.2|left|..]; by rewrite Hb.
Qed.

Lemma write_spec v i s k l : represents s k l ->
  exists s' l', act (Write v i) s = Ok (Nothing, s') /\ represents s' (promised (Write v i) k).2 l'.
Proof.
  intros HR. pose proof (rep_length _ _ _ HR) as Hlen. destruct HR as [Hq [x Hi] Hr Hw Hf Hc Ha Hwk Haw].
  destruct l as [|y l _] using rev_ind; [done|]. rewrite length_app in Hlen. cbn in Hlen.
  assert (Hl : length l = length (items k)) by lia. pose proof (items_length k) as Hit.
  cbn [act]. unfold write. destruct (fifo_write_ok _ l y v Hq) as (q1 & -> & Hq1). cbn [obind].
  destruct (fifo_append_ok q1 _ Hq1) as (q2 & z & -> & Hq2). cbn [obind].
  set (l2 := (l ++ [(y.1, Some v)]) ++ [z]) in *.
  assert (Hsame : forall j, (j < length (l ++ [y]))%nat -> address_at (l ++ [y]) j = address_at l2 j).
  { intros j Hj. unfold l2. rewrite length_app in Hj. cbn in Hj.
    rewrite (address_app (l ++ [(y.1, Some v)]) [z]) by (rewrite length_app; cbn; lia).
    unfold address_at. by rewrite !map_app. }
  assert (Hlen1 : length (l ++ [y]) = S (length (items k))) by (rewrite length_app; cbn; lia).
  assert (Hsnd : map snd l2 = map Some (items k ++ [v]) ++ [z.2]).
  { unfold l2. rewrite !map_app in *. cbn in *. apply app_inj_2 in Hi; [|done]. destruct Hi as [-> _]. done. }
  assert (Hend : Some (fifo_back_address q2) = address_at l2 (length (items k ++ [v]))).
  { apply back_at; [done|]. unfold l2. rewrite !length_app. cbn. lia. }
  unfold at_f, at_w, at_r in *. eexists _, l2. split; [reflexivity|].
  destruct i; cbn [promised snd]; (split; cbn [pipe queue r w f c waking fetched flushed complete incomplete asleep awaking];
    unfold at_f, at_w, at_r; cbn [fetched flushed complete incomplete]; rewrite <- ?Hsame by lia; try done).
  - exists z.2. rewrite Hsnd. do 2 f_equal. unfold items. cbn. by rewrite <- !app_assoc.
  - exists z.2. rewrite Hsnd. do 2 f_equal. unfold items. cbn. by rewrite app_nil_r, <- !app_assoc.
  - rewrite Hend. f_equal. unfold items. rewrite !length_app. cbn. lia.
  - intros Haw'. destruct (Haw Haw') as [? _]. split; [done|]. by destruct (complete k), (incomplete k).
Qed.

(** The pointers are those of positions of the queue. *)
Lemma rep_positions s k l : represents s k l ->
  (at_r k < length l /\ at_w k < length l /\ at_f k < length l)%nat.
Proof. intros HR. rewrite (rep_length _ _ _ HR), items_length. unfold at_f, at_w. lia. Qed.

Lemma unwrite_spec s k l : represents s k l ->
  exists s' l', act Unwrite s = Ok ((promised Unwrite k).1, s') /\ represents s' (promised Unwrite k).2 l'.
Proof.
  intros HR. pose proof (rep_length _ _ _ HR) as Hlen. pose proof (rep_positions _ _ _ HR) as (Hpr & Hpw & Hpf).
  pose proof HR as [Hq [x Hi] Hr Hw Hf Hc Ha Hwk Haw]. pose proof (items_length k) as Hit.
  cbn [act promised]. unfold unwrite. rewrite Hf, (back_at _ _ _ Hq Hlen).
  destruct k as [fet fl com inc asl awk]. cbn [fetched flushed complete incomplete asleep awaking] in *.
  destruct inc as [|v inc _] using rev_ind.
  - cbn [length] in Hit. rewrite decide_True by (f_equal; lia). cbn. eexists s, l. split; [by destruct s|done].
  - rewrite length_app in Hit. cbn [length] in Hit. rewrite decide_False by (rewrite (address_inj l _ _ _ Hq); lia).
    rewrite last_snoc, removelast_last. cbn [fst snd].
    destruct l as [|y l _] using rev_ind; [done|]. destruct (fifo_retract_ok _ _ _ Hq) as (q1 & -> & Hq1). cbn [obind].
    assert (Hsnd : map snd l = map Some (items (mkChannel fet fl com inc asl awk)) ++ [Some v]).
    { rewrite map_app in Hi. apply app_inj_tail in Hi as [-> _]. unfold items. cbn. by rewrite !map_app, <- !app_assoc. }
    destruct l as [|z l _] using rev_ind; [by destruct (map Some _) in Hsnd|].
    destruct (fifo_back_ok _ _ _ Hq1) as [_ ->]. cbn [obind]. rewrite map_app in Hsnd.
    apply app_inj_tail in Hsnd as [Hsnd Hz]. cbn in Hz. rewrite Hz. eexists _, (l ++ [z]). split; [reflexivity|].
    rewrite length_app in Hlen. cbn [length] in Hlen. clear Hpr Hpw Hpf. rewrite <- Hf.
    set (k0 := mkChannel fet fl com (inc ++ [v]) asl awk) in *.
    assert (Hle : (at_r k0 <= at_w k0 /\ at_w k0 <= at_f k0)%nat) by (unfold at_f, at_w; lia).
    rewrite address_app in Hr, Hw, Hf by lia. unfold k0 in *. split; cbn; try done. exists (Some v). rewrite map_app, Hsnd. cbn. by rewrite Hz.
Qed.

Lemma flush_try_spec s k l : represents s k l -> waking s = false ->
  exists s', act FlushTry s = Ok ((promised FlushTry k).1, s') /\ represents s' (promised FlushTry k).2 l.
Proof.
  intros HR Hnw. pose proof (rep_positions _ _ _ HR) as (Hpr & Hpw & Hpf).
  pose proof HR as [Hq Hi Hr Hw Hf Hc Ha Hwk Haw].
  cbn [act promised]. unfold flush_try. destruct (decide (w (pipe s) = f (pipe s))) as [E|E].
  - rewrite Hw, Hf, (address_inj l _ _ _ Hq) in E by done. unfold at_f in E.
    destruct (complete k) as [|v compl] eqn:Ec; [|cbn in E; lia]. exists s. split; [by destruct s|done].
  - destruct (complete k) as [|v compl] eqn:Ec.
    { destruct E. rewrite Hw, Hf. f_equal. unfold at_f. rewrite Ec. cbn. lia. }
    destruct (asleep k) eqn:Eas; rewrite Hc.
    + rewrite decide_False by (rewrite Hw; intros E'; by apply (address_some l (at_w k))). eexists. split; [reflexivity|].
      split; cbn; try done; unfold at_f, at_w, at_r, items in *; cbn [fetched flushed complete incomplete]; rewrite ?Ec in *; done.
    + rewrite decide_True by done. eexists. split; [reflexivity|].
      assert (Eit : items (mkChannel (fetched k) (flushed k ++ v :: compl) [] (incomplete k) false (awaking k)) = items k).
      { unfold items. cbn. rewrite Ec. by rewrite <- app_assoc. }
      split; cbn; try done; [destruct Hi as [x Hi]; exists x; rewrite Hi; do 2 f_equal; symmetry; exact Eit| | |by intros [? ?]%Haw].
      * rewrite Hf. f_equal. unfold at_f, at_w, at_r. cbn. rewrite Ec, length_app. cbn. lia.
      * rewrite Hf. f_equal. unfold at_f, at_w, at_r. cbn. rewrite Ec, length_app. cbn. lia.
Qed.

Lemma flush_wake_spec s k l : represents s k l -> waking s = true ->
  exists s', act FlushWake s = Ok ((promised FlushWake k).1, s') /\ represents s' (promised FlushWake k).2 l.
Proof.
  intros HR Hw1. pose proof HR as [Hq Hi Hr Hw Hf Hc Ha Hwk Haw].
  eexists. split; [reflexivity|].
  split; cbn; try done.
  - destruct Hi as [x Hi]. exists x. rewrite Hi. do 2 f_equal. unfold items. cbn. by rewrite <- app_assoc.
  - rewrite Hf. f_equal. unfold at_f, at_w, at_r. cbn. rewrite length_app. lia.
  - rewrite Hf. f_equal. unfold at_f, at_w, at_r. cbn. rewrite length_app. cbn. lia.
Qed.

(** [check_read] is true exactly when an item is fetched afterwards. *)
Lemma check_read_spec p k l b : represents (mkThreads p b) k l ->
  (check_read p).1 = (fetch_all k).1 /\ represents (mkThreads (check_read p).2 b) (fetch_all k).2 l
  /\ queue (check_read p).2 = queue p /\ ((fetch_all k).1 = true <-> fetched (fetch_all k).2 <> []).
Proof.
  intros HR. pose proof (rep_positions _ _ _ HR) as (Hpr & Hpw & Hpf).
  pose proof HR as [Hq Hi Hr Hw Hf Hc Ha Hwk Haw]. cbn [pipe] in *.
  assert (Hfront : Some (fifo_front_address (queue p)) = address_at l 0).
  { apply front_at; [done|]. intros ->. cbn in Hpr. lia. }
  pose proof (address_some l 0 ltac:(lia)) as Hn0.
  unfold check_read, fetch_all. rewrite Hfront. destruct k as [fet fl com inc asl awk].
  cbn [fetched flushed complete incomplete asleep awaking] in *. destruct fet as [|v fet].
  - assert (Hrd : r p = address_at l 0 \/ r p = None) by (destruct Hr as [Hr|[_ Hr]]; [by left|by right]).
    rewrite (proj2 (andb_false_iff _ _)).
    2: { destruct Hrd as [->| ->]; [left|right]; apply bool_decide_eq_false; tauto. }
    cbn [fst snd r w f c queue]. rewrite Hc. destruct asl; [|destruct fl as [|u fl]].
    + destruct (Ha eq_refl) as [_ ->]. rewrite decide_False by congruence.
      rewrite (bool_decide_true (None = None)) by done. rewrite orb_true_r. cbn [negb].
      split; [done|split; [|split; done]]. split; cbn; try done. by right.
    + assert (Ew : w p = address_at l 0) by done. rewrite Ew, decide_True by done.
      rewrite bool_decide_true by done. split; [done|split; [|split; done]].
      split; cbn; rewrite ?Ew; try done; [by left|]. intros Hb. by destruct (Haw Hb).
    + assert (Hne : w p <> address_at l 0) by (by rewrite Hw, (address_inj l _ _ _ Hq) by lia).
      rewrite decide_False by done. rewrite !bool_decide_false; [|by rewrite Hw; apply address_some|congruence].
      split; [done|split; [|split; done]]. split; cbn [pipe queue r w f c waking asleep awaking]; try done; [by left| |].
      * rewrite Hw. unfold at_w, at_r. cbn. f_equal. lia.
      * rewrite Hf. unfold at_f, at_w, at_r. cbn. f_equal. lia.
  - assert (Hr0 : r p = address_at l (S (length fet))) by (by destruct Hr as [|[? _]]).
    rewrite (bool_decide_true (address_at l 0 <> r p)), (bool_decide_true (r p <> None));
      [|by rewrite Hr0; apply address_some|rewrite Hr0, (address_inj l _ _ _ Hq) by (lia || done); done].
    cbn. split; [done|split; [done|split; done]].
Qed.

Lemma read_spec s k l : represents s k l ->
  exists s' l', act Read s = Ok ((promised Read k).1, s') /\ represents s' (promised Read k).2 l'.
Proof.
  intros HR. destruct s as [p b]. destruct (check_read_spec p k l b HR) as (Eb & HR' & _ & Hfet).
  cbn [act promised]. unfold read. cbn [pipe waking]. destruct (check_read p) as [rc p']. destruct (fetch_all k) as [rc' k'].
  cbn [fst snd pipe waking] in *. subst rc'. destruct rc.
  - destruct (fetched k') as [|v fet] eqn:Ef; [by destruct (proj1 Hfet eq_refl)|]. clear Hfet.
    destruct HR' as [Hq [x Hi] Hr Hw Hf Hc Ha Hwk Haw]. destruct k' as [? fl com inc asl awk]. cbn in *. subst.
    destruct l as [|y l]; [done|]. cbn in Hi. injection Hi as Hy Hi.
    destruct (fifo_front_ok _ _ _ Hq) as [_ ->]. destruct (fifo_remove_ok _ _ _ Hq) as (q1 & -> & Hq1). cbn [obind]. rewrite Hy.
    eexists _, l. split; [reflexivity|]. split; cbn; try done; [by exists x|by destruct Hr as [Hr|[? _]]; [left|]|..].
    by intros [? ?]%Ha.
  - destruct (fetched k') as [|v fet] eqn:Ef; [|by assert (false = true) by (by apply Hfet)].
    exists (mkThreads p' b), l. split; [done|]. done.
Qed.

(** ** The simulation *)

Lemma act_spec a s k l : represents s k l -> allowed (waking s) a = true ->
  exists s' l', act a s = Ok ((promised a k).1, s') /\ represents s' (promised a k).2 l'.
Proof.
  intros HR Hal. destruct a as [v i| | | | |].
  - destruct (write_spec v i s k l HR) as (s' & l' & E & HR'). exists s', l'. split; [rewrite E; by destruct i|done].
  - by apply (unwrite_spec s k l).
  - destruct (flush_try_spec s k l HR) as (s' & E & HR'); [by destruct (waking s)|]. by exists s', l.
  - destruct (flush_wake_spec s k l HR) as (s' & E & HR'); [done|]. by exists s', l.
  - destruct s as [p b]. destruct (check_read_spec p k l b HR) as (Eb & HR' & _). cbn [act promised pipe waking].
    destruct (check_read p) as [rc p']. destruct (fetch_all k) as [rc' k']. cbn in *. subst rc'.
    by exists (mkThreads p' b), l.
  - by apply (read_spec s k l).
Qed.

(** The channel after a run, and what it answers. *)
Fixpoint promised_all (as_ : list (action T)) k : list (result T) * channel T :=
  match as_ with
  | [] => ([], k)
  | a :: as' =>
      let (x, k) := promised a k in
      let (xs, k) := promised_all as' k in
      (x :: xs, k)
  end.

Lemma run_spec s trace s' : run s trace s' -> forall k l, represents s k l ->
  exists l', represents s' (promised_all (map fst trace) k).2 l' /\ map snd trace = (promised_all (map fst trace) k).1.
Proof.
  induction 1 as [s|s a x s1 trace s2 Hal E Hrun IH]; intros k l HR; [by exists l|].
  destruct (act_spec a s k l HR Hal) as (s1' & l1 & E' & HR1). rewrite E in E'. injection E' as Ex <-.
  destruct (IH _ _ HR1) as (l2 & HR2 & Exs). exists l2. cbn [map fst snd promised_all].
  destruct (promised a k) as [x' k1]. cbn in *. destruct (promised_all (map fst trace) k1) as [xs k2]. cbn in *.
  split; [done|]. by rewrite Ex, Exs.
Qed.

Lemma promised_all_app as1 as2 k : (promised_all (as1 ++ as2) k).2 = (promised_all as2 (promised_all as1 k).2).2.
Proof.
  revert k. induction as1 as [|a as1 IH]; intros k; [done|]. cbn [promised_all app].
  destruct (promised a k) as [x k1]. specialize (IH k1). destruct (promised_all (as1 ++ as2) k1), (promised_all as1 k1). exact IH.
Qed.

(** Every schedule that respects the writer's steps runs to its end. *)
Fixpoint legal (as_ : list (action T)) k : bool :=
  match as_ with
  | [] => true
  | a :: as' => allowed (awaking k) a && legal as' (promised a k).2
  end.

Lemma schedule_runs as_ k s l : represents s k l -> legal as_ k = true ->
  exists trace s', run s trace s' /\ map fst trace = as_ /\ map snd trace = (promised_all as_ k).1.
Proof.
  revert k s l. induction as_ as [|a as_ IH]; intros k s l HR Hl; [exists [], s; split_and!; [constructor|done|done]|].
  cbn [legal] in Hl. apply andb_true_iff in Hl as [Ha Hl]. rewrite (rep_waking _ _ _ HR) in Ha.
  destruct (act_spec a s k l HR Ha) as (s1 & l1 & E & HR1). destruct (IH _ s1 l1 HR1 Hl) as (trace & s2 & Hrun & Ht & Hx).
  exists ((a, (promised a k).1) :: trace), s2. split; [by econstructor|]. cbn. rewrite Ht, Hx. split; [done|].
  destruct (promised a k) as [x k1]. cbn. by destruct (promised_all as_ k1).
Qed.

End Refinement.

(** ** What was written and read *)

Section Log.
Context {T : Type}.

(** The items read, the items handed over by finished flushes, the complete
    items, and those of the incomplete message. *)
Record log := mkLog { received : list T; handed : list T; completed : list T; pending : list T }.

Definition note (e : action T * result T) (g : log) : log :=
  match e with
  | (Write v true, _) => mkLog (received g) (handed g) (completed g) (pending g ++ [v])
  | (Write v false, _) => mkLog (received g) (handed g) (completed g ++ pending g ++ [v]) []
  | (Unwrite, Item _) => mkLog (received g) (handed g) (completed g) (removelast (pending g))
  | (FlushTry, Said _) | (FlushWake, _) => mkLog (received g) (completed g) (completed g) (pending g)
  | (Read, Item (Some v)) => mkLog (received g ++ [v]) (handed g) (completed g) (pending g)
  | _ => g
  end.

Definition log_of (trace : list (action T * result T)) : log := fold_left (fun g e => note e g) trace (mkLog [] [] [] []).

(** The log of a channel. *)
Definition logged (g : log) (k : channel T) : Prop :=
  handed g = received g ++ fetched k ++ flushed k /\ completed g = handed g ++ complete k /\ pending g = incomplete k.

Lemma note_spec a g k : logged g k -> (awaking k = true -> asleep k = true) -> (asleep k = true -> fetched k = [] /\ flushed k = []) ->
  allowed (awaking k) a = true -> logged (note (a, (promised a k).1) g) (promised a k).2.
Proof.
  destruct g as [rc hd cp pd], k as [fet fl com inc asl awk]. unfold logged.
  cbn [received handed completed pending fetched flushed complete incomplete asleep awaking].
  intros (-> & -> & ->) Haw Ha Hal. destruct a as [v [|]| | | | |]; cbn.
  all: unfold fetch_all; cbn [fst snd fetched flushed complete incomplete asleep awaking].
  1, 2: by rewrite <- !app_assoc.
  - destruct inc as [|v inc _] using rev_ind; [done|]. by rewrite last_snoc.
  - destruct com as [|v com]; [|destruct asl]; cbn; rewrite ?app_nil_r, <- ?app_assoc; done.
  - rewrite <- !app_assoc. by rewrite !app_nil_r.
  - destruct fet; [destruct fl|]; cbn; rewrite ?app_nil_r; done.
  - destruct fet as [|u fet]; [destruct fl as [|u fl]|]; cbn; rewrite ?app_nil_r, <- ?app_assoc; done.
Qed.

End Log.

(** ** The pipe of [pipe_t] *)

Section Ypipe.
Context {T : Type}.

Abbreviation yqueue := (yqueue_t T).
Abbreviation addr := (option Z * Z)%type.
Abbreviation pipe_threads := (threads addr yqueue).

(** A state that the two threads can reach, with the trace that leads to it. *)
Definition reaches (trace : list (action T * result T)) (s : pipe_threads) : Prop :=
  exists s0, new_threads = Ok s0 /\ run s0 trace s.

Lemma run_logged (s s' : pipe_threads) trace : run s trace s' -> forall g k l, represents s k l -> logged g k ->
  exists l', represents s' (promised_all (map fst trace) k).2 l'
    /\ logged (fold_left (fun g e => note e g) trace g) (promised_all (map fst trace) k).2.
Proof.
  induction 1 as [s|s a x s1 trace s2 Hal E Hrun IH]; intros g k l HR HL; [by exists l|].
  destruct (act_spec a s k l HR Hal) as (s1' & l1 & E' & HR1). rewrite E in E'. injection E' as -> <-.
  rewrite <- (rep_waking _ _ _ HR) in Hal.
  assert (HL1 : logged (note (a, (promised a k).1) g) (promised a k).2).
  { apply note_spec; [done|intros Hb; by apply (rep_awaking _ _ _ HR)|apply (rep_asleep _ _ _ HR)|done]. }
  specialize (IH _ _ _ HR1 HL1). cbn [map fst snd promised_all fold_left].
  destruct (promised a k) as [x k1]. cbn [fst snd] in *. by destruct (promised_all (map fst trace) k1).
Qed.

Lemma reaches_represents trace s : reaches trace s ->
  exists k l, represents s k l /\ logged (log_of trace) k.
Proof.
  intros (s0 & E0 & Hrun). destruct (new_threads_spec (T := T) (A := addr) (Q := yqueue)) as (s0' & l0 & E0' & HR0).
  rewrite E0 in E0'. injection E0' as <-.
  destruct (run_logged s0 s trace Hrun (mkLog [] [] [] []) new_channel l0) as (l & HR & HL); [done|done|].
  by eexists _, l.
Qed.

(** The trace of a schedule. *)
Lemma reaches_schedule (as_ : list (action T)) : legal as_ new_channel = true ->
  exists s, reaches (zip as_ (promised_all as_ new_channel).1) s.
Proof.
  intros Hl. destruct (new_threads_spec (T := T) (A := addr) (Q := yqueue)) as (s0 & l0 & E0 & HR0).
  destruct (schedule_runs as_ new_channel s0 l0 HR0 Hl) as (trace & s & Hrun & Ht & Hx).
  exists s, s0. split; [done|]. rewrite <- Hx, <- Ht. by rewrite zip_fst_snd.
Qed.

Lemma act_waking a (s s' : pipe_threads) x : act a s = Ok (x, s') ->
  match a with FlushTry | FlushWake => True | _ => waking s' = waking s end.
Proof.
  destruct a; cbn [act]; intros E; try done;
    repeat match type of E with
    | obind ?m _ = _ => destruct m; cbn [obind] in E; try done
    | (let (_, _) := ?e in _) = _ => destruct e
    end; by injection E as _ <-.
Qed.

(** C5: the lock-free pipe refines the channel of four stages: every interleaving
    of the writer's and the reader's steps that [flush] allows runs to its end
    without a failure of the queue, and every step returns what the channel
    returns. *)
Theorem ypipe_refines_channel (as_ : list (action T)) : legal as_ new_channel = true ->
  exists trace (s : pipe_threads), reaches trace s /\ map fst trace = as_
    /\ map snd trace = (promised_all as_ new_channel).1.
Proof.
  intros Hl. destruct (new_threads_spec (T := T) (A := addr) (Q := yqueue)) as (s0 & l0 & E0 & HR0).
  destruct (schedule_runs as_ new_channel s0 l0 HR0 Hl) as (trace & s & Hrun & Ht & Hx).
  exists trace, s. split_and!; [by exists s0|done|done].
Qed.

(** In every interleaving the items read so far are a prefix of the items
    that finished flushes handed over, and those are a prefix of the items that
    were completed: nothing is lost, duplicated or reordered, and an item of an
    incomplete message is never read. *)
Theorem ypipe_reads_flushed_prefix trace s : reaches trace s ->
  received (log_of trace) `prefix_of` handed (log_of trace)
  /\ handed (log_of trace) `prefix_of` completed (log_of trace).
Proof.
  intros (k & l & _ & H1 & H2 & _)%reaches_represents. rewrite H1. split; [by eexists|]. rewrite H2, H1. by eexists.
Qed.

(** Reading [n] times. *)
Fixpoint drain (n : nat) (s : pipe_threads) : outcome (list (result T) * pipe_threads) :=
  match n with
  | O => Ok ([], s)
  | S n' =>
      let! (x, s) := act Read s in
      let! (xs, s) := drain n' s in
      Ok (x :: xs, s)
  end.

Lemma drain_spec n s k l : represents s k l -> n = length (fetched k ++ flushed k) ->
  exists s' k' l', drain n s = Ok (map (fun v => Item (Some v)) (fetched k ++ flushed k), s') /\ represents s' k' l'
    /\ fetched k' = [] /\ flushed k' = [].
Proof.
  revert s k l. induction n as [|n IH]; intros s k l HR Hn.
  - destruct (fetched k) eqn:E1, (flushed k) eqn:E2; try done. by exists s, k, l.
  - destruct (read_spec s k l HR) as (s1 & l1 & E & HR1). cbn [drain]. rewrite E. cbn [obind].
    destruct k as [fet fl com inc asl awk]. cbn [promised] in HR1 |- *. unfold fetch_all in *.
    cbn [fetched flushed] in *. destruct fet as [|v fet]; [destruct fl as [|v fl]; [done|]|]; cbn [fetched fst snd] in HR1 |- *.
    + destruct (IH _ _ _ HR1) as (s2 & k2 & l2 & -> & HR2 & Hf); [cbn in *; rewrite app_nil_r; lia|].
      exists s2, k2, l2. cbn. by rewrite app_nil_r.
    + destruct (IH _ _ _ HR1) as (s2 & k2 & l2 & -> & HR2 & Hf); [cbn in *; lia|]. by exists s2, k2, l2.
Qed.

(** A reader that keeps reading gets everything that finished flushes handed
    over: in every reachable state, as many reads as there are such items not
    yet read return exactly these items, in order, whatever the writer has
    pending; the next read returns nothing. *)
Theorem ypipe_reader_gets_all trace s : reaches trace s ->
  exists rest s', handed (log_of trace) = received (log_of trace) ++ rest
    /\ drain (length rest) s = Ok (map (fun v => Item (Some v)) rest, s')
    /\ exists s'', act Read s' = Ok (NoItem, s'').
Proof.
  intros (k & l & HR & H1 & _)%reaches_represents.
  destruct (drain_spec _ s k l HR eq_refl) as (s' & k' & l' & E & HR' & Ef & Ef').
  exists (fetched k ++ flushed k), s'. split_and!; [done|done|].
  destruct (read_spec s' k' l' HR') as (s'' & l'' & E' & _). exists s''. rewrite E'. cbn [promised]. unfold fetch_all.
  by rewrite Ef, Ef'.
Qed.

(** What the writer does before its next flush. *)
Definition writes (e : action T * result T) : bool :=
  match e with (Write _ _, _) | (Unwrite, _) => true | _ => false end.

Lemma asleep_writes (trace : list (action T * result T)) k : forallb writes trace = true -> asleep k = true ->
  asleep (promised_all (map fst trace) k).2 = true.
Proof.
  revert k. induction trace as [|[a x] trace IH]; intros k Hf Has; [done|]. cbn [forallb map fst promised_all] in *.
  apply andb_true_iff in Hf as [Ha Hf]. specialize (IH (promised a k).2 Hf).
  destruct (promised a k) as [x' k1] eqn:E. cbn [snd] in IH. destruct (promised_all (map fst trace) k1) as [xs k2]. apply IH.
  destruct a as [v [|]| | | | |]; try done; cbn in E; [by injection E as _ <-|by injection E as _ <-|].
  destruct (last (incomplete k)); by injection E as _ <-.
Qed.

(** No wake-up is lost.  After a read that found nothing, whatever the writer
    does before its next flush, that flush does nothing when no item was
    completed since the last one; otherwise it answers false, so that the writer
    wakes the reader, and the next read returns an item. *)
Theorem ypipe_no_lost_wakeup trace (s s1 s2 : pipe_threads) trace' :
  reaches trace s -> act Read s = Ok (NoItem, s1) -> run s1 trace' s2 -> forallb writes trace' = true -> waking s2 = false ->
  let g := log_of (trace ++ (Read, NoItem) :: trace') in
  if decide (length (completed g) = length (handed g)) then exists s3, act FlushTry s2 = Ok (Said true, s3)
  else exists s3 s4 s5 v, act FlushTry s2 = Ok (Pending, s3) /\ act FlushWake s3 = Ok (Said false, s4)
    /\ act Read s4 = Ok (Item (Some v), s5).
Proof.
  intros Hreach HE Hrun Hw Hwk g. destruct (reaches_represents _ _ Hreach) as (k & l & HR & HL).
  destruct (read_spec s k l HR) as (s1' & l1 & E & HR1). rewrite HE in E. injection E as Ek <-.
  assert (Has1 : asleep (promised Read k).2 = true).
  { clear -Ek. revert Ek. cbn [promised]. unfold fetch_all.
    destruct (fetched k) as [|v fet] eqn:Ef; [destruct (flushed k)|]; cbn; rewrite ?Ef; done. }
  assert (HL1 : logged (note (Read, NoItem) (log_of trace)) (promised Read k).2).
  { change (NoItem = (promised Read k).1) in Ek. rewrite Ek.
    apply note_spec; [done|intros Hb; by apply (rep_awaking _ _ _ HR)|apply (rep_asleep _ _ _ HR)|done]. }
  destruct (run_logged s1 s2 trace' Hrun _ _ _ HR1 HL1) as (l2 & HR2 & HL2).
  pose proof (asleep_writes trace' _ Hw Has1) as Has2. revert HR2 HL2 Has2.
  generalize (promised_all (map fst trace') (promised Read k).2).2. intros k2 HR2 (_ & HC & _) Has2.
  replace (fold_left _ trace' _) with g in HC by (unfold g, log_of; by rewrite fold_left_app).
  destruct (flush_try_spec s2 k2 l2 HR2 Hwk) as (s3 & E3 & HR3). cbn [promised] in E3, HR3. rewrite Has2 in E3, HR3.
  rewrite HC, length_app. destruct (complete k2) as [|v com] eqn:Ec.
  - rewrite decide_True by (cbn; lia). by exists s3.
  - rewrite decide_False by (cbn; lia). cbn [fst snd] in *.
    destruct (flush_wake_spec s3 _ _ HR3) as (s4 & E4 & HR4); [symmetry; exact (rep_waking _ _ _ HR3)|].
    destruct (read_spec s4 _ _ HR4) as (s5 & l5 & E5 & _). exists s3, s4, s5, v. split_and!; [done|done|].
    rewrite E5. destruct (rep_asleep _ _ _ HR2 Has2) as [-> ->]. done.
Qed.

End Ypipe.

(** ** Runs of the two threads *)

(** The writer flushes one message of two parts, and has begun another; the
    reader has read the first part. *)
Definition pipe_schedule : list (action nat) :=
  [Write 1%nat true; Write 2%nat false; FlushTry; Write 3%nat true; Read].

Lemma ypipe_refines_channel_witness :
  legal pipe_schedule new_channel = true
  /\ exists trace (s : threads (option Z * Z) (yqueue_t nat)), reaches trace s /\ map fst trace = pipe_schedule
    /\ map snd trace = (promised_all pipe_schedule new_channel).1.
Proof. split; [reflexivity|]. by apply (ypipe_refines_channel pipe_schedule). Defined.

Lemma ypipe_reads_flushed_prefix_witness :
  exists s, let trace := zip pipe_schedule (promised_all pipe_schedule new_channel).1 in
    reaches trace s /\ log_of trace = mkLog [1%nat] [1%nat; 2%nat] [1%nat; 2%nat] [3%nat]
    /\ received (log_of trace) `prefix_of` handed (log_of trace)
    /\ handed (log_of trace) `prefix_of` completed (log_of trace).
Proof.
  destruct (reaches_schedule pipe_schedule) as [s Hs]; [reflexivity|]. exists s. split; [exact Hs|]. split; [reflexivity|].
  exact (ypipe_reads_flushed_prefix _ s Hs).
Defined.

Lemma ypipe_reader_gets_all_witness :
  exists s, let trace := zip pipe_schedule (promised_all pipe_schedule new_channel).1 in
    reaches trace s /\ exists rest s', handed (log_of trace) = received (log_of trace) ++ rest
    /\ drain (length rest) s = Ok (map (fun v => Item (Some v)) rest, s')
    /\ exists s'', act Read s' = Ok (NoItem, s'').
Proof.
  destruct (reaches_schedule pipe_schedule) as [s Hs]; [reflexivity|]. exists s. split; [exact Hs|].
  exact (ypipe_reader_gets_all _ s Hs).
Defined.

(** The reader finds nothing; the writer then completes an item. *)
Lemma ypipe_no_lost_wakeup_witness :
  exists (s0 s1 s2 : threads (option Z * Z) (yqueue_t nat)),
    reaches [] s0 /\ act Read s0 = Ok (NoItem, s1) /\ run s1 [(Write 1%nat false, Nothing)] s2 /\ waking s2 = false
    /\ exists s3 s4 s5 v, act FlushTry s2 = Ok (Pending, s3) /\ act FlushWake s3 = Ok (Said false, s4)
      /\ act Read s4 = Ok (Item (Some v), s5).
Proof.
  destruct (reaches_schedule [Read; Write 1%nat false]) as [s2 (s0 & E0 & Hr)]; [reflexivity|].
  cbn in Hr. inversion Hr as [|? ? ? s1 ? ? _ E1 Hr1]; subst. inversion Hr1 as [|? ? ? s2' ? ? _ E2 Hr2]; subst.
  assert (Hw : waking s2 = false).
  { inversion Hr2; subst. apply act_waking in E1, E2. cbn in E1, E2. rewrite E2, E1.
    unfold new_threads in E0. destruct new_ypipe; cbn in E0; inv_ok; done. }
  exists s0, s1, s2. split; [exists s0; split; [exact E0|constructor]|].
  split; [exact E1|]. split; [exact Hr1|]. split; [exact Hw|].
  exact (ypipe_no_lost_wakeup [] s0 s1 s2 _ (ex_intro _ s0 (conj E0 (run_nil s0))) E1 Hr1 eq_refl Hw).
Defined.
