(* ===== verification/Wire.v ===== *)
(** * Integers in network byte order ([lib/zeromq/wire.hpp])

    The functions write and read the bytes of unsigned integers, the most
    significant one first.  A buffer that is too short is an abort. *)

From stdpp Require Import tactics.
From S2P Require Import Prelude.

(** ** The functions *)

Definition byte_at (buffer_ : bytes) (i : nat) : outcome Z :=
  match buffer_ !! i with Some c => Ok (ord c) | None => Aborted "buffer" end.

(** [(value >> shift) & 0xff]. *)
Definition octet (value shift : Z) : ascii := chr (Z.land (Z.shiftr value shift) 255).

Definition put_uint8 (value : Z) : bytes := [chr value].

Definition get_uint8 (buffer_ : bytes) : outcome Z := byte_at buffer_ 0.

Definition put_uint16 (value : Z) : bytes := [octet value 8; chr (Z.land value 255)].

Definition get_uint16 (buffer_ : bytes) : outcome Z :=
  let! b0 := byte_at buffer_ 0 in
  let! b1 := byte_at buffer_ 1 in
  Ok (to_uint16 (Z.lor (Z.shiftl b0 8) b1)).

Definition put_uint32 (value : Z) : bytes :=
  [octet value 24; octet value 16; octet value 8; chr (Z.land value 255)].

Definition get_uint32 (buffer_ : bytes) : outcome Z :=
  let! b0 := byte_at buffer_ 0 in
  let! b1 := byte_at buffer_ 1 in
  let! b2 := byte_at buffer_ 2 in
  let! b3 := byte_at buffer_ 3 in
  Ok (Z.lor (Z.lor (Z.lor (to_uint32 (Z.shiftl b0 24)) (to_uint32 (Z.shiftl b1 16))) (to_uint32 (Z.shiftl b2 8))) b3).

Definition put_uint64 (value : Z) : bytes :=
  [octet value 56; octet value 48; octet value 40; octet value 32;
   octet value 24; octet value 16; octet value 8; chr (Z.land value 255)].

Definition get_uint64 (buffer_ : bytes) : outcome Z :=
  let! b0 := byte_at buffer_ 0 in
  let! b1 := byte_at buffer_ 1 in
  let! b2 := byte_at buffer_ 2 in
  let! b3 := byte_at buffer_ 3 in
  let! b4 := byte_at buffer_ 4 in
  let! b5 := byte_at buffer_ 5 in
  let! b6 := byte_at buffer_ 6 in
  let! b7 := byte_at buffer_ 7 in
  Ok (Z.lor (Z.lor (Z.lor (Z.lor (Z.lor (Z.lor (Z.lor
    (to_uint64 (Z.shiftl b0 56)) (to_uint64 (Z.shiftl b1 48))) (to_uint64 (Z.shiftl b2 40)))
    (to_uint64 (Z.shiftl b3 32))) (to_uint64 (Z.shiftl b4 24))) (to_uint64 (Z.shiftl b5 16)))
    (to_uint64 (Z.shiftl b6 8))) b7).

(** ** The value of a list of bytes *)

Fixpoint be_value (b : bytes) : Z :=
  match b with [] => 0 | c :: b' => ord c * 256 ^ Z.of_nat (length b') + be_value b' end.

Fixpoint be_bytes (n : nat) (v : Z) : bytes :=
  match n with O => [] | S n' => chr (v / 256 ^ Z.of_nat n' mod 256) :: be_bytes n' v end.

Lemma be_value_range b : 0 <= be_value b < 256 ^ Z.of_nat (length b).
Proof.
  induction b as [|c b IH]; [cbn; lia|]. cbn [be_value length]. rewrite Nat2Z.inj_succ, Z.pow_succ_r by lia.
  pose proof (ord_range c). nia.
Qed.

Lemma length_be_bytes n v : length (be_bytes n v) = n.
Proof. induction n as [|n IH]; cbn; [done|by rewrite IH]. Qed.

Lemma be_value_bytes n v : be_value (be_bytes n v) = v mod 256 ^ Z.of_nat n.
Proof.
  induction n as [|n IH]; [cbn; by rewrite Z.mod_1_r|]. cbn [be_bytes be_value]. rewrite length_be_bytes, IH.
  rewrite ord_chr by (apply Z.mod_pos_bound; lia). rewrite Nat2Z.inj_succ, Z.pow_succ_r, Z.mul_comm by lia.
  rewrite (Z.mul_comm 256), Z.rem_mul_r by lia. lia.
Qed.

Lemma be_bytes_value b : be_bytes (length b) (be_value b) = b.
Proof.
  assert (H : forall n v w, 0 <= v < 256 ^ Z.of_nat n -> be_bytes n (w * 256 ^ Z.of_nat n + v) = be_bytes n v).
  { induction n as [|n IH]; intros v w Hv; [done|]. cbn [be_bytes]. rewrite Nat2Z.inj_succ, Z.pow_succ_r in * by lia.
    pose proof (Z.pow_pos_nonneg 256 (Z.of_nat n) ltac:(lia) ltac:(lia)) as Hp. f_equal.
    - f_equal. replace (w * (256 * 256 ^ Z.of_nat n) + v) with (v + (w * 256) * 256 ^ Z.of_nat n) by lia.
      rewrite Z.div_add by lia. by rewrite Z_mod_plus_full.
    - rewrite (Z.div_mod v (256 ^ Z.of_nat n)) by lia. pose proof (Z.mod_pos_bound v _ Hp).
      replace (w * (256 * 256 ^ Z.of_nat n) + (256 ^ Z.of_nat n * (v / 256 ^ Z.of_nat n) + v mod 256 ^ Z.of_nat n))
        with ((w * 256 + v / 256 ^ Z.of_nat n) * 256 ^ Z.of_nat n + v mod 256 ^ Z.of_nat n) by lia.
      rewrite IH by done. rewrite Z.mul_comm. by rewrite IH by done. }
  induction b as [|c b IH]; [done|]. cbn [length be_bytes be_value]. pose proof (be_value_range b).
  rewrite H by done. rewrite IH. f_equal. rewrite Z.div_add_l by lia. rewrite (Z.div_small (be_value b)) by done.
  rewrite Z.add_0_r, Z.mod_small by apply ord_range. apply chr_ord.
Qed.

(** ** The functions are these *)

Lemma octet_spec v s n : s = 8 * Z.of_nat n -> octet v s = chr (v / 256 ^ Z.of_nat n mod 256).
Proof.
  intros ->. unfold octet. change 255 with (Z.ones 8). rewrite Z.land_ones, Z.shiftr_div_pow2 by lia.
  rewrite Z.pow_mul_r by lia. done.
Qed.

Lemma last_octet_spec v : chr (Z.land v 255) = chr (v / 256 ^ Z.of_nat 0 mod 256).
Proof. rewrite <- (octet_spec v 0 0) by done. unfold octet. by rewrite Z.shiftr_0_r. Qed.

Lemma put_uint16_spec v : put_uint16 v = be_bytes 2 v.
Proof. unfold put_uint16. rewrite last_octet_spec, (octet_spec v 8 1) by done. done. Qed.

Lemma put_uint32_spec v : put_uint32 v = be_bytes 4 v.
Proof. unfold put_uint32. rewrite last_octet_spec, (octet_spec v 24 3), (octet_spec v 16 2), (octet_spec v 8 1) by done. done. Qed.

Lemma put_uint64_spec v : put_uint64 v = be_bytes 8 v.
Proof.
  unfold put_uint64. rewrite last_octet_spec, (octet_spec v 56 7), (octet_spec v 48 6), (octet_spec v 40 5), (octet_spec v 32 4),
    (octet_spec v 24 3), (octet_spec v 16 2), (octet_spec v 8 1) by done. done.
Qed.

(** The next byte of a value. *)
Lemma lor_byte q c k : 0 <= k -> Z.lor (q * 2 ^ (k + 8)) (ord c * 2 ^ k) = (q * 256 + ord c) * 2 ^ k.
Proof.
  intros Hk. pose proof (ord_range c). pose proof (Z.pow_pos_nonneg 2 k).
  rewrite (lor_disjoint _ (k + 8)); [rewrite Z.pow_add_r by lia; change (2 ^ 8) with 256; lia|lia|apply Z_mod_mult|].
  rewrite Z.pow_add_r by lia. change (2 ^ 8) with 256. nia.
Qed.

Lemma lor_last_byte q c : Z.lor (q * 2 ^ 8) (ord c) = q * 256 + ord c.
Proof. pose proof (lor_byte q c 0 ltac:(lia)) as H. change (2 ^ 0) with 1 in H. by rewrite !Z.mul_1_r in H. Qed.

Ltac open_bytes :=
  cbn [byte_at lookup list_lookup obind be_value length];
  repeat match goal with c : ascii |- _ => lazymatch goal with
    | _ : 0 <= ord c < 256 |- _ => fail | _ => pose proof (ord_range c) end end;
  rewrite !Z.shiftl_mul_pow2 by lia.

Lemma get_uint16_spec b0 b1 b : get_uint16 (b0 :: b1 :: b) = Ok (be_value [b0; b1]).
Proof.
  unfold get_uint16. open_bytes. rewrite lor_last_byte, to_uint16_id by lia. f_equal. cbn. lia.
Qed.

Lemma get_uint32_spec b0 b1 b2 b3 b : get_uint32 (b0 :: b1 :: b2 :: b3 :: b) = Ok (be_value [b0; b1; b2; b3]).
Proof.
  unfold get_uint32. open_bytes. rewrite !to_uint32_id by (unfold is_uint32, UINT_MAX; lia).
  rewrite (lor_byte _ _ 16), (lor_byte _ _ 8), lor_last_byte by lia. f_equal. cbn. lia.
Qed.

Lemma get_uint64_spec b0 b1 b2 b3 b4 b5 b6 b7 b :
  get_uint64 (b0 :: b1 :: b2 :: b3 :: b4 :: b5 :: b6 :: b7 :: b) = Ok (be_value [b0; b1; b2; b3; b4; b5; b6; b7]).
Proof.
  unfold get_uint64. open_bytes. rewrite !to_uint64_id by lia.
  rewrite (lor_byte _ _ 48), (lor_byte _ _ 40), (lor_byte _ _ 32), (lor_byte _ _ 24), (lor_byte _ _ 16),
    (lor_byte _ _ 8), lor_last_byte by lia. f_equal. cbn. lia.
Qed.

(** What is written is read back, and the other way round. *)
Lemma get_put_uint64 v b : 0 <= v < 2 ^ 64 -> get_uint64 (put_uint64 v ++ b) = Ok v.
Proof.
  intros Hv. rewrite put_uint64_spec. pose proof (be_value_bytes 8 v) as H.
  destruct (be_bytes 8 v) as [|b0 [|b1 [|b2 [|b3 [|b4 [|b5 [|b6 [|b7 [|]]]]]]]]] eqn:E; try (by apply (f_equal length) in E; rewrite length_be_bytes in E).
  cbn [app]. rewrite get_uint64_spec, H. f_equal. apply Z.mod_small. exact Hv.
Qed.
