(* ===== verification/Msg.v ===== *)
(** * Messages and their references ([lib/zeromq/msg.hpp], [msg.cpp])

    A message is small enough to be kept in the structure itself ([Vsm]), or it
    is a pointer to a content on the heap ([Lmsg]) that several messages share.
    The flag [shared] says that the content counts its references; a content
    without it has one.  A message that is copied as plain data takes a reference
    that [add_refs] counted before.

    The heap maps addresses to contents; what is freed is gone, and touching it is
    an abort.  [free_calls] are the calls of the functions that free the buffers
    of the user.  Lengths are [size_t]s of 64 bits, and a [content_t] has 40
    bytes. *)

From stdpp Require Import tactics gmap.
From S2P Require Import Prelude.

(** ** Data *)

(** Flags. *)
Definition more : Z := 1.
Definition identity : Z := 64.
Definition shared : Z := 128.

Definition max_vsm_size : Z := 29.
Definition sizeof_content : Z := 40.

(** [data] is the block behind the content, or the buffer of the user, with the
    function and the hint that free it. *)
Record content_t := mkContent { content_data : bytes; ffn : option (Z * Z); refcnt : Z }.

(** The union, by the field [type]: 101, 102, 103, or an invalid one. *)
Inductive payload := Vsm (d : bytes) | Lmsg (content : Z) | Delimiter | Invalid.

Record msg_t := mkMsgT { u : payload; msg_flags_ : Z }.

Record memory := mkMemory { contents : gmap Z content_t; free_calls : list (bytes * (Z * Z)) }.

Definition flags_of (m : msg_t) : Z := msg_flags_ m.
Definition has_flag (f : Z) (m : msg_t) : bool := negb (Z.land (flags_of m) f =? 0).
Definition set_flags (f : Z) (m : msg_t) : msg_t := mkMsgT (u m) (Z.lor (flags_of m) f).
Definition reset_flags (f : Z) (m : msg_t) : msg_t := mkMsgT (u m) (Z.land (flags_of m) (Z.land (Z.lnot f) 255)).
Definition is_identity (m : msg_t) : bool := Z.land (flags_of m) identity =? identity.
Definition is_delimiter (m : msg_t) : bool := match u m with Delimiter => true | _ => false end.
Definition is_vsm (m : msg_t) : bool := match u m with Vsm _ => true | _ => false end.
Definition check (m : msg_t) : bool := match u m with Invalid => false | _ => true end.

(** [content->...]. *)
Definition content_at (a : Z) (h : memory) : outcome content_t :=
  match contents h !! a with Some c => Ok c | None => Aborted "content" end.

Definition set_refcnt (a : Z) (n : Z) (c : content_t) (h : memory) : memory :=
  mkMemory (<[a := mkContent (content_data c) (ffn c) (to_uint32 n)]> (contents h)) (free_calls h).

Definition set_content (a : Z) (c : content_t) (h : memory) : memory := mkMemory (<[a := c]> (contents h)) (free_calls h).

(** The destructor of the counter, the function of the user, [free]. *)
Definition release (a : Z) (c : content_t) (h : memory) : memory :=
  mkMemory (delete a (contents h)) (match ffn c with Some f => free_calls h ++ [(content_data c, f)] | None => free_calls h end).

Definition data (m : msg_t) (h : memory) : outcome bytes :=
  let! _ := assertion (check m) "check ()" in
  match u m with
  | Vsm d => Ok d
  | Lmsg a => let! c := content_at a h in Ok (content_data c)
  | _ => Aborted "false"
  end.

Definition size (m : msg_t) (h : memory) : outcome Z := let! d := data m h in Ok (Z.of_nat (length d)).

(** ** Construction *)

Definition init : msg_t := mkMsgT (Vsm []) 0.

Definition init_delimiter : msg_t := mkMsgT Delimiter 0.

(** The memory of a content with [size_] bytes behind it: whether there is any.
    The sum wraps around, and a block that is smaller than the content is written
    out of bounds. *)
Definition malloc_content (available : Z -> bool) (size_ : Z) : outcome bool :=
  let n := to_uint64 (sizeof_content + size_) in
  if negb (available n) then Ok false
  else let! _ := assertion (sizeof_content <=? n) "heap overflow" in Ok true.

(** Some address that is free. *)
Definition fresh_address (h : memory) : Z := fresh (dom (contents h) : gset Z).

(** The message is not written when there is no memory: [None].  What is in the
    new block is a parameter. *)
Definition init_size (available : Z -> bool) (garbage : Z -> bytes) (size_ : Z) (h : memory) : outcome (option (msg_t * memory)) :=
  if size_ <=? max_vsm_size then Ok (Some (mkMsgT (Vsm (garbage size_)) 0, h))
  else
    let! ok := malloc_content available size_ in
    if ok then
      let a := fresh_address h in
      Ok (Some (mkMsgT (Lmsg a) 0, set_content a (mkContent (garbage size_) None 0) h))
    else Ok None.

Definition init_data (available : Z -> bool) (data_ : bytes) (ffn_ : option (Z * Z)) (h : memory) : option (msg_t * memory) :=
  if available sizeof_content then
    let a := fresh_address h in
    Some (mkMsgT (Lmsg a) 0, set_content a (mkContent data_ ffn_ 0) h)
  else None.

(** ** References *)

(** [refcnt.sub]: whether references are left. *)
Definition counter_sub (a : Z) (n : Z) (h : memory) : outcome (bool * memory) :=
  let! c := content_at a h in
  Ok (negb (to_uint32 (refcnt c - n) =? 0), set_refcnt a (refcnt c - n) c h).

Definition counter_add (a : Z) (n : Z) (h : memory) : outcome memory :=
  let! c := content_at a h in Ok (set_refcnt a (refcnt c + n) c h).

Definition counter_set (a : Z) (n : Z) (h : memory) : outcome memory :=
  let! c := content_at a h in Ok (set_refcnt a n c h).

Definition free_content (a : Z) (h : memory) : outcome memory :=
  let! c := content_at a h in Ok (release a c h).

(** -1 for a message that is not valid. *)
Definition close (m : msg_t) (h : memory) : outcome (Z * msg_t * memory) :=
  if negb (check m) then Ok (-1, m, h)
  else
    let! h :=
      match u m with
      | Lmsg a =>
          if negb (has_flag shared m) then free_content a h
          else
            let! (remain, h) := counter_sub a 1 h in
            if remain then Ok h else free_content a h
      | _ => Ok h
      end in
    Ok (0, mkMsgT Invalid (flags_of m), h).

(** The result, the message and the source; the two are different objects. *)
Definition move (m src_ : msg_t) (h : memory) : outcome (Z * msg_t * msg_t * memory) :=
  if negb (check src_) then Ok (-1, m, src_, h)
  else
    let! (rc, m, h) := close m h in
    if rc <? 0 then Ok (rc, m, src_, h) else Ok (0, src_, init, h).

Definition copy (m src_ : msg_t) (h : memory) : outcome (Z * msg_t * msg_t * memory) :=
  if negb (check src_) then Ok (-1, m, src_, h)
  else
    let! (rc, m, h) := close m h in
    if rc <? 0 then Ok (rc, m, src_, h)
    else
      let! (src_, h) :=
        match u src_ with
        | Lmsg a =>
            if has_flag shared src_ then let! h := counter_add a 1 h in Ok (src_, h)
            else let! h := counter_set a 2 h in Ok (set_flags shared src_, h)
        | _ => Ok (src_, h)
        end in
      Ok (0, src_, src_, h).

Definition add_refs (refs_ : Z) (m : msg_t) (h : memory) : outcome (msg_t * memory) :=
  let! _ := assertion (0 <=? refs_) "refs_ >= 0" in
  if refs_ =? 0 then Ok (m, h)
  else
    match u m with
    | Lmsg a =>
        if has_flag shared m then let! h := counter_add a refs_ h in Ok (m, h)
        else let! h := counter_set a (refs_ + 1) h in Ok (set_flags shared m, h)
    | _ => Ok (m, h)
    end.

Definition rm_refs (refs_ : Z) (m : msg_t) (h : memory) : outcome (bool * msg_t * memory) :=
  let! _ := assertion (0 <=? refs_) "refs_ >= 0" in
  if refs_ =? 0 then Ok (true, m, h)
  else
    match u m with
    | Lmsg a =>
        if has_flag shared m then
          let! (remain, h) := counter_sub a refs_ h in
          if remain then Ok (true, m, h) else let! h := free_content a h in Ok (false, m, h)
        else let! (_, m, h) := close m h in Ok (false, m, h)
    | _ => let! (_, m, h) := close m h in Ok (false, m, h)
    end.
