(* ===== verification/MsgTheorems.v ===== *)
(** * References to message contents are counted exactly

    The messages of the program, wherever they are, are the owners of the
    contents they point to.  The invariant [balanced] relates them to the heap;
    it does not depend on the order of the messages, and a reference that was
    counted but not copied yet is one more message. *)

From stdpp Require Import tactics gmap.
From S2P Require Import Prelude Msg.

Implicit Types (hs : list msg_t) (m : msg_t) (h : memory) (a : Z).

(** ** The invariant *)

(** The [shared] flags of the messages that point to [a]. *)
Definition owner a m : list bool := match u m with Lmsg b => if decide (a = b) then [has_flag shared m] else [] | _ => [] end.
Definition owners a hs : list bool := concat (map (owner a) hs).

Definition counted (o : option content_t) (l : list bool) : Prop :=
  match o with
  | None => l = []
  | Some c => l = [false] \/ (l <> [] /\ Forall (eq true) l /\ refcnt c = Z.of_nat (length l))
  end.

Definition balanced hs h : Prop := forall a, counted (contents h !! a) (owners a hs).

Lemma counted_perm o l l' : l ≡ₚ l' -> counted o l -> counted o l'.
Proof.
  intros Hl. destruct o as [c|]; cbn.
  - intros [->|(Hne & Hall & Hn)].
    + left. by apply Permutation_singleton_l in Hl.
    + right. split; [intros ->; by apply Permutation_nil_r in Hl|]. split; [by rewrite <- Hl|by rewrite <- (Permutation_length Hl)].
  - intros ->. by apply Permutation_nil_l in Hl.
Qed.

#[export] Instance owners_proper a : Proper ((≡ₚ) ==> (≡ₚ)) (owners a).
Proof.
  intros hs hs' H. unfold owners. induction H; cbn; [done| | |by etrans].
  - by f_equiv.
  - rewrite !app_assoc. f_equiv. apply Permutation_app_comm.
Qed.

#[export] Instance balanced_proper : Proper ((≡ₚ) ==> (=) ==> iff) balanced.
Proof.
  intros hs hs' H h _ <-. split; intros Hb a; (eapply counted_perm; [|apply Hb]); by rewrite H.
Qed.

Lemma owners_cons a m hs : owners a (m :: hs) = owner a m ++ owners a hs.
Proof. done. Qed.

Lemma owners_app a hs hs' : owners a (hs ++ hs') = owners a hs ++ owners a hs'.
Proof. unfold owners. by rewrite map_app, concat_app. Qed.

(** A message that owns nothing. *)
Definition owns_nothing m : Prop := forall a, u m <> Lmsg a.

Lemma owner_nothing a m : owns_nothing m -> owner a m = [].
Proof. unfold owner, owns_nothing. intros Hm. destruct (u m); try done. by destruct (Hm content). Qed.

Lemma balanced_nothing m hs h : owns_nothing m -> balanced (m :: hs) h <-> balanced hs h.
Proof. intros Hm. unfold balanced. split; intros H a; specialize (H a); rewrite owners_cons, owner_nothing in *; done. Qed.

Lemma owner_self a m : u m = Lmsg a -> owner a m = [has_flag shared m].
Proof. unfold owner. intros ->. by rewrite decide_True. Qed.

Lemma owner_other a b m : u m = Lmsg a -> b <> a -> owner b m = [].
Proof. unfold owner. intros -> ?. by rewrite decide_False. Qed.

(** Only the content of [m] changes: what is left to show. *)
Lemma balanced_at m hs hs' h h' a : u m = Lmsg a ->
  (forall b, b <> a -> contents h' !! b = contents h !! b /\ owners b hs' = owners b hs) ->
  counted (contents h' !! a) (owners a hs') -> balanced hs h -> balanced hs' h'.
Proof. intros Hm Hother Ha Hb b. destruct (decide (b = a)) as [->|Hne]; [done|]. destruct (Hother b Hne) as [-> ->]. apply Hb. Qed.

(** ** The buffers of the user *)

(** Those that were freed and those that are still there. *)
Definition buffers h : list (bytes * (Z * Z)) :=
  free_calls h ++ omap (fun ac => pair (content_data ac.2) <$> ffn ac.2) (map_to_list (contents h)).

Lemma omap_perm {A B} (f : A -> option B) l l' : l ≡ₚ l' -> omap f l ≡ₚ omap f l'.
Proof. intros H. by rewrite H. Qed.

Definition buffer_of (c : content_t) : list (bytes * (Z * Z)) := match ffn c with Some f => [(content_data c, f)] | None => [] end.

Lemma buffers_insert h a c : contents h !! a = None -> buffers (set_content a c h) ≡ₚ buffer_of c ++ buffers h.
Proof.
  intros Ha. unfold buffers, set_content. cbn [contents free_calls]. rewrite (omap_perm _ _ _ (map_to_list_insert _ a c Ha)). cbn.
  unfold buffer_of. destruct (ffn c); cbn; [|done]. by rewrite <- Permutation_middle.
Qed.

Lemma buffers_delete h a c : contents h !! a = Some c ->
  buffers h ≡ₚ buffer_of c ++ buffers (mkMemory (delete a (contents h)) (free_calls h)).
Proof.
  intros Ha. unfold buffers. cbn [contents free_calls]. rewrite <- (omap_perm _ _ _ (map_to_list_delete _ a c Ha)). cbn.
  unfold buffer_of. destruct (ffn c); cbn; [|done]. by rewrite <- Permutation_middle.
Qed.

Lemma buffers_release h a c : contents h !! a = Some c -> buffers (release a c h) ≡ₚ buffers h.
Proof.
  intros Ha. rewrite (buffers_delete h a c Ha). unfold release, buffers, buffer_of. cbn [contents free_calls].
  destruct (ffn c); cbn; [|done]. rewrite <- app_assoc. cbn. by rewrite <- Permutation_middle.
Qed.

Lemma buffers_set_refcnt h a c n : contents h !! a = Some c -> buffers (set_refcnt a n c h) ≡ₚ buffers h.
Proof.
  intros Ha. rewrite (buffers_delete h a c Ha).
  set (c' := mkContent (content_data c) (ffn c) (to_uint32 n)).
  set (h' := mkMemory (delete a (contents h)) (free_calls h)).
  assert (E : set_refcnt a n c h = set_content a c' h') by (unfold set_refcnt, set_content; cbn; by rewrite insert_delete_eq).
  rewrite E, (buffers_insert h' a c'); [done|]. apply lookup_delete_eq.
Qed.

(** ** Lookups after the changes of one content *)

Lemma owners_length a hs : (length (owners a hs) <= length hs)%nat.
Proof.
  induction hs as [|m hs IH]; [done|]. rewrite owners_cons, length_app. unfold owner.
  destruct (u m) as [| b | |]; try case_decide; cbn; lia.
Qed.

(** The content of an owner is there; it is alone, or its references are counted. *)
Lemma owner_content m hs h a : balanced (m :: hs) h -> u m = Lmsg a ->
  exists c, contents h !! a = Some c
    /\ (has_flag shared m = false /\ owners a hs = []
        \/ has_flag shared m = true /\ Forall (eq true) (owners a hs) /\ refcnt c = 1 + Z.of_nat (length (owners a hs))).
Proof.
  intros Hb Hm. specialize (Hb a). rewrite owners_cons, (owner_self a m Hm) in Hb. destruct (contents h !! a) as [c|]; [|done].
  exists c. split; [done|]. destruct Hb as [Hb|(_ & Hall & Hn)].
  - left. by injection Hb as -> ->.
  - right. cbn in Hall, Hn. apply Forall_cons in Hall as [<- Hall]. split; [done|]. split; [done|lia].
Qed.

Lemma content_at_some a h c : contents h !! a = Some c -> content_at a h = Ok c.
Proof. unfold content_at. by intros ->. Qed.

Ltac lookups := cbn [contents set_refcnt set_content release];
  repeat first [rewrite lookup_insert_eq | rewrite lookup_delete_eq | rewrite lookup_insert_ne by done | rewrite lookup_delete_ne by done].

(** ** [close] *)

Definition few (hs : list msg_t) : Prop := Z.of_nat (length hs) < 2 ^ 32.

Lemma few_owners a m hs : few (m :: hs) -> 0 <= 1 + Z.of_nat (length (owners a hs)) < 2 ^ 32.
Proof. unfold few. pose proof (owners_length a hs). cbn [length]. lia. Qed.

Lemma free_content_ok a c h : contents h !! a = Some c -> free_content a h = Ok (release a c h).
Proof. intros Ha. unfold free_content. by rewrite (content_at_some a h c Ha). Qed.

(** The last references leave. *)
Lemma released m hs hs' h a c : u m = Lmsg a -> contents h !! a = Some c -> balanced hs' h -> owners a hs = [] ->
  (forall b, b <> a -> owners b hs = owners b hs') -> balanced hs (release a c h).
Proof.
  intros Hm Ha Hb Hno Hother. apply (balanced_at m hs' hs h _ a Hm); [|lookups; by rewrite Hno|done].
  intros b Hne. lookups. split; [done|by apply Hother].
Qed.

Lemma close_ok m hs h : balanced (m :: hs) h -> few (m :: hs) -> check m = true ->
  exists h', close m h = Ok (0, mkMsgT Invalid (flags_of m), h') /\ balanced hs h' /\ buffers h' ≡ₚ buffers h.
Proof.
  intros Hb Hfew Hc. unfold close. rewrite Hc. cbn [negb]. destruct (u m) as [d|a| |] eqn:Hm;
    try (exists h; split_and!; [done| |done]; rewrite <- (balanced_nothing m hs h); [done|by intros b; rewrite Hm]).
  destruct (owner_content m hs h a Hb Hm) as (c & Ha & Hcase). pose proof (few_owners a m hs Hfew) as Hlen.
  assert (Hother : forall b, b <> a -> owners b hs = owners b (m :: hs)).
  { intros b Hne. by rewrite owners_cons, (owner_other a b m Hm Hne). }
  destruct Hcase as [[-> Hno]|(-> & Hall & Hn)]; cbn [negb].
  - rewrite (free_content_ok a c h Ha). cbn [obind]. eexists. split; [reflexivity|].
    split; [by apply (released m hs (m :: hs))|by apply buffers_release].
  - unfold counter_sub. rewrite (content_at_some a h c Ha). cbn [obind]. rewrite Hn.
    replace (1 + _ - 1) with (Z.of_nat (length (owners a hs))) by lia.
    rewrite to_uint32_id by (unfold is_uint32, UINT_MAX; lia).
    destruct (Z.eqb_spec (Z.of_nat (length (owners a hs))) 0) as [E|E]; cbn [negb].
    + assert (Hno : owners a hs = []) by (apply nil_length_inv; lia).
      set (h1 := set_refcnt a _ c h). assert (Ha1 : exists c1, contents h1 !! a = Some c1) by (eexists; unfold h1; by lookups).
      destruct Ha1 as [c1 Ha1]. rewrite (free_content_ok a c1 h1 Ha1). cbn [obind]. eexists. split; [reflexivity|]. split.
      * apply (balanced_at m (m :: hs) hs h _ a Hm); [|lookups; by rewrite Hno|done].
        intros b Hne. unfold h1. lookups. split; [done|by apply Hother].
      * etrans; [by apply buffers_release|by apply buffers_set_refcnt].
    + eexists. split; [reflexivity|]. split; [|by apply buffers_set_refcnt].
      apply (balanced_at m (m :: hs) hs h _ a Hm); [intros b Hne; lookups; split; [done|by apply Hother]| |done].
      lookups. cbn. right. rewrite to_uint32_id by (unfold is_uint32, UINT_MAX; lia). split; [|done]. intros Eo. by rewrite Eo in E.
Qed.

(** The content of the messages that are left is what it was. *)
Lemma close_contents m hs h rc m' h' b : balanced (m :: hs) h -> few (m :: hs) -> close m h = Ok (rc, m', h') -> owners b hs <> [] ->
  content_data <$> contents h' !! b = content_data <$> contents h !! b.
Proof.
  intros Hb Hfew. unfold close. destruct (negb (check m)); [by intros [= _ _ <-]|]. destruct (u m) as [d|a| |] eqn:Hm; cbn [obind]; try by intros [= _ _ <-].
  destruct (owner_content m hs h a Hb Hm) as (c & Ha & Hcase). pose proof (few_owners a m hs Hfew) as Hlen. intros E Hne.
  destruct (decide (b = a)) as [->|Hba].
  - destruct Hcase as [[_ Hno]|(Hs & _ & Hn)]; [done|]. rewrite Hs in E. cbn [negb] in E. unfold counter_sub in E. rewrite (content_at_some a h c Ha) in E. cbn [obind] in E.
    rewrite Hn, to_uint32_id in E by (unfold is_uint32, UINT_MAX; lia). destruct (Z.eqb_spec (1 + Z.of_nat (length (owners a hs)) - 1) 0) as [Ez|_].
    + destruct (owners a hs); [done|]. cbn [length] in Ez. lia.
    + cbn [negb obind] in E. injection E as _ _ <-. lookups. by rewrite Ha.
  - destruct (negb (has_flag shared m)); [rewrite (free_content_ok a c h Ha) in E; cbn [obind] in E; injection E as _ _ <-; by lookups|].
    unfold counter_sub in E. rewrite (content_at_some a h c Ha) in E. cbn [obind] in E. destruct (negb _); cbn [obind] in E; [injection E as _ _ <-; by lookups|].
    set (h1 := set_refcnt a _ c h) in E. assert (Ha1 : exists c1, contents h1 !! a = Some c1) by (eexists; unfold h1; by lookups).
    destruct Ha1 as [c1 Ha1]. rewrite (free_content_ok a c1 h1 Ha1) in E. cbn [obind] in E. injection E as _ _ <-. unfold h1. by lookups.
Qed.

Lemma owners_elem a m hs : m ∈ hs -> u m = Lmsg a -> owners a hs <> [].
Proof.
  intros Hin Hm. apply list_elem_of_split in Hin as (l1 & l2 & ->). rewrite owners_app, owners_cons, (owner_self a m Hm). by intros []%app_eq_nil.
Qed.

(** Closing a message leaves the data of the others. *)
Lemma close_data m hs h rc m' h' x d : balanced (m :: hs) h -> few (m :: hs) -> close m h = Ok (rc, m', h') -> x ∈ hs ->
  data x h = Ok d -> data x h' = Ok d.
Proof.
  intros Hb Hfew E Hx. unfold data. destruct (check x); cbn [assertion obind]; [|done]. destruct (u x) as [e|a| |] eqn:Ex; [done| |done|done].
  pose proof (close_contents m hs h rc m' h' a Hb Hfew E (owners_elem a x hs Hx Ex)) as Hc. unfold content_at.
  destruct (contents h !! a) as [c|], (contents h' !! a) as [c'|]; try done. cbn. injection Hc as ->. done.
Qed.

(** ** [add_refs], [copy] *)

Lemma has_set_shared m : has_flag shared (set_flags shared m) = true.
Proof.
  unfold has_flag, flags_of, set_flags, flags_of. cbn. replace (Z.land (Z.lor (msg_flags_ m) shared) shared) with shared; [done|].
  apply Z.bits_inj'. intros n _. rewrite Z.land_spec, Z.lor_spec. by destruct (Z.testbit (msg_flags_ m) n), (Z.testbit shared n).
Qed.

(** The copies of a part are parts like it. *)
Lemma part_of_same m m' : m' = m \/ m' = set_flags shared m -> has_flag more m' = has_flag more m.
Proof.
  intros [->| ->]; [done|]. unfold has_flag, set_flags, flags_of. cbn [msg_flags_]. rewrite Z.land_lor_distr_l.
  change (Z.land shared more) with 0. by rewrite Z.lor_0_r.
Qed.

Lemma owners_replicate a m k : u m = Lmsg a -> owners a (replicate k m) = replicate k (has_flag shared m).
Proof. intros Hm. induction k as [|k IH]; [done|]. cbn [replicate]. by rewrite owners_cons, IH, (owner_self a m Hm). Qed.

Lemma owners_replicate_other a b m k : u m = Lmsg a -> b <> a -> owners b (replicate k m) = [].
Proof. intros Hm Hne. induction k as [|k IH]; [done|]. cbn [replicate]. by rewrite owners_cons, IH, (owner_other a b m Hm Hne). Qed.

Lemma balanced_replicate k m hs h : owns_nothing m -> balanced (replicate k m ++ hs) h <-> balanced hs h.
Proof. intros Hm. induction k as [|k IH]; [done|]. cbn [replicate app]. by rewrite balanced_nothing. Qed.

Lemma Forall_true_replicate k : Forall (eq true) (replicate k true).
Proof. by apply Forall_replicate. Qed.

(** The counter is raised to the number of owners. *)
Lemma raised a c n k m hs h : u m = Lmsg a -> has_flag shared m = true -> contents h !! a = Some c ->
  (forall b, b <> a -> counted (contents h !! b) (owners b hs)) ->
  Forall (eq true) (owners a hs) -> n = Z.of_nat (Datatypes.S k + length (owners a hs)) -> n < 2 ^ 32 ->
  balanced (replicate k m ++ m :: hs) (set_refcnt a n c h).
Proof.
  intros Hm Hs Ha Hother Hall Hn Hlt b. rewrite owners_app, owners_cons. destruct (decide (b = a)) as [->|Hne].
  - lookups. rewrite (owners_replicate a m k Hm), (owner_self a m Hm), Hs. right.
    split; [by destruct k|]. split; [apply Forall_app; split; [apply Forall_true_replicate|by constructor]|].
    cbn [refcnt]. rewrite to_uint32_id by (unfold is_uint32, UINT_MAX; lia). rewrite !length_app, length_replicate. cbn. lia.
  - lookups. rewrite (owners_replicate_other a b m k Hm Hne), (owner_other a b m Hm Hne). by apply Hother.
Qed.

Definition more_refs (k : nat) m m' hs h h' : Prop :=
  u m' = u m /\ (m' = m \/ m' = set_flags shared m) /\ balanced (replicate k m' ++ m' :: hs) h' /\ buffers h' ≡ₚ buffers h.

Lemma add_refs_ok k m hs h : balanced (m :: hs) h -> few (replicate k m ++ m :: hs) ->
  exists m' h', add_refs (Z.of_nat k) m h = Ok (m', h') /\ more_refs k m m' hs h h'.
Proof.
  intros Hb Hfew. unfold add_refs, assertion, more_refs. destruct (Z.leb_spec 0 (Z.of_nat k)); [|lia]. cbn [obind].
  destruct (Z.eqb_spec (Z.of_nat k) 0) as [E|E]; [assert (k = O) as -> by lia; exists m, h; split_and!; auto|].
  destruct (u m) as [d|a| |] eqn:Hm;
    try (exists m, h; split_and!; auto; apply (balanced_replicate k m (m :: hs) h); [by intros b; rewrite Hm|done]).
  destruct (owner_content m hs h a Hb Hm) as (c & Ha & Hcase). unfold few in Hfew. rewrite length_app, length_replicate in Hfew. cbn [length] in Hfew.
  pose proof (owners_length a hs) as Hlen.
  assert (Hother : forall b, b <> a -> counted (contents h !! b) (owners b hs)).
  { intros b Hne. specialize (Hb b). by rewrite owners_cons, (owner_other a b m Hm Hne) in Hb. }
  destruct Hcase as [[-> Hno]|(Hs & Hall & Hn)]; [|rewrite Hs].
  - unfold counter_set. rewrite (content_at_some a h c Ha). cbn [obind]. eexists _, _. split; [reflexivity|]. split; [done|].
    split; [by right|]. split; [|by apply buffers_set_refcnt].
    apply raised; try done; [apply has_set_shared|by rewrite Hno|rewrite Hno; cbn; lia|lia].
  - unfold counter_add. rewrite (content_at_some a h c Ha). cbn [obind]. eexists _, _. split; [reflexivity|]. split; [done|].
    split; [by left|]. split; [|by apply buffers_set_refcnt]. apply raised; try done; lia.
Qed.

(** [copy] counts one reference, as [add_refs] does. *)
Lemma copy_ok m s hs h : balanced (m :: s :: hs) h -> few (m :: s :: hs) -> check m = true -> check s = true ->
  exists s' h', copy m s h = Ok (0, s', s', h') /\ (s' = s \/ s' = set_flags shared s)
    /\ balanced (s' :: s' :: hs) h' /\ buffers h' ≡ₚ buffers h.
Proof.
  intros Hb Hfew Hm Hs. destruct (close_ok m (s :: hs) h Hb Hfew Hm) as (h1 & E1 & Hb1 & Hbuf1).
  destruct (add_refs_ok 1 s hs h1 Hb1 Hfew) as (s' & h' & E2 & Hu & Hflag & Hb' & Hbuf').
  exists s', h'. unfold copy. rewrite Hs, E1. cbn [negb obind]. change (0 <? 0) with false. cbv iota.
  change (Z.of_nat 1) with 1 in E2. unfold add_refs, assertion in E2. change (0 <=? 1) with true in E2. change (1 =? 0) with false in E2.
  cbn [obind] in E2.
  split; [|split_and!; [done|done|by etrans]]. destruct (u s); try (by injection E2 as -> ->).
  destruct (has_flag shared s).
  - destruct (counter_add _ _ _); cbn [obind] in *; by simplify_eq.
  - change (1 + 1) with 2 in E2. destruct (counter_set _ _ _); cbn [obind] in *; by simplify_eq.
Qed.

Lemma move_ok m s hs h : balanced (m :: s :: hs) h -> few (m :: s :: hs) -> check m = true -> check s = true ->
  exists h', move m s h = Ok (0, s, init, h') /\ balanced (s :: init :: hs) h' /\ buffers h' ≡ₚ buffers h.
Proof.
  intros Hb Hfew Hm Hs. destruct (close_ok m (s :: hs) h Hb Hfew Hm) as (h1 & E1 & Hb1 & Hbuf1).
  exists h1. unfold move. rewrite Hs, E1. cbn [negb obind]. split; [done|]. split; [|done].
  rewrite (Permutation_swap init s hs). by apply balanced_nothing.
Qed.

(** ** [rm_refs] *)

Lemma lowered a c n hs h : contents h !! a = Some c -> (forall b, b <> a -> counted (contents h !! b) (owners b hs)) ->
  Forall (eq true) (owners a hs) -> n = Z.of_nat (length (owners a hs)) -> 0 < n < 2 ^ 32 ->
  balanced hs (set_refcnt a n c h).
Proof.
  intros Ha Hother Hall Hn Hlt b. destruct (decide (b = a)) as [->|Hne]; lookups; [|by apply Hother].
  right. split; [intros Eo; rewrite Eo in Hn; cbn in Hn; lia|]. split; [done|]. cbn [refcnt].
  by rewrite to_uint32_id by (unfold is_uint32, UINT_MAX; lia).
Qed.

Lemma rm_refs_ok k m hs h : balanced (replicate k m ++ hs) h -> few (replicate k m ++ hs) -> (k <> 0)%nat ->
  exists b m' h', rm_refs (Z.of_nat k) m h = Ok (b, m', h') /\ balanced hs h' /\ buffers h' ≡ₚ buffers h.
Proof.
  intros Hb Hfew Hk. unfold rm_refs, assertion. destruct (Z.leb_spec 0 (Z.of_nat k)); [|lia]. cbn [obind].
  destruct (Z.eqb_spec (Z.of_nat k) 0); [lia|].
  assert (Hno : owns_nothing m -> exists m', close m h = Ok (if check m then 0 else -1, m', h)).
  { intros Hm. unfold close. destruct (check m) eqn:Ec; cbn [negb]; [|by exists m]. eexists. unfold owns_nothing in Hm.
    destruct (u m) eqn:Eu; try reflexivity. by destruct (Hm content). }
  destruct (u m) as [d|a| |] eqn:Hm;
    try (assert (Hn : owns_nothing m) by (intros b; by rewrite Hm); destruct (Hno Hn) as [m' ->]; cbn [obind]; eexists _, m', h;
         split; [reflexivity|]; split; [by apply balanced_replicate in Hb|done]).
  destruct k as [|k]; [done|]. cbn [replicate app] in Hb.
  destruct (owner_content m _ h a Hb Hm) as (c & Ha & Hcase). unfold few in Hfew. rewrite length_app, length_replicate in Hfew.
  pose proof (owners_length a hs) as Hlen. rewrite owners_app, (owners_replicate a m k Hm) in Hcase.
  assert (Hother : forall b, b <> a -> counted (contents h !! b) (owners b hs)).
  { intros b Hne. specialize (Hb b). by rewrite owners_cons, owners_app, (owners_replicate_other a b m k Hm Hne), (owner_other a b m Hm Hne) in Hb. }
  destruct Hcase as [[Hs Hnone]|(Hs & Hall & Hn)]; rewrite Hs.
  - apply app_eq_nil in Hnone as [Ek Hnone]. destruct k; [|done]. cbn [replicate app] in Hb.
    destruct (close_ok m hs h Hb) as (h' & -> & Hb' & Hbuf); [unfold few; cbn [length]; lia|by unfold check; rewrite Hm|].
    cbn [obind]. eexists _, _, h'. done.
  - apply Forall_app in Hall as [_ Hall]. rewrite length_app, length_replicate in Hn.
    unfold counter_sub. rewrite (content_at_some a h c Ha). cbn [obind]. rewrite Hn.
    replace (1 + _ - _) with (Z.of_nat (length (owners a hs))) by lia. rewrite to_uint32_id by (unfold is_uint32, UINT_MAX; lia).
    destruct (Z.eqb_spec (Z.of_nat (length (owners a hs))) 0) as [E|E]; cbn [negb].
    + set (h1 := set_refcnt a _ c h). assert (Ha1 : exists c1, contents h1 !! a = Some c1) by (eexists; unfold h1; by lookups).
      destruct Ha1 as [c1 Ha1]. rewrite (free_content_ok a c1 h1 Ha1). cbn [obind]. eexists _, m, _. split; [reflexivity|]. split.
      * intros b. unfold h1. destruct (decide (b = a)) as [->|Hne]; lookups; [apply nil_length_inv; lia|by apply Hother].
      * etrans; [by apply buffers_release|by apply buffers_set_refcnt].
    + eexists _, m, _. split; [reflexivity|]. split; [|by apply buffers_set_refcnt]. apply (lowered a); (done || lia).
Qed.

(** ** Construction *)

Lemma fresh_content h : contents h !! fresh_address h = None.
Proof. pose proof (is_fresh (dom (contents h) : gset Z)) as Hf. by apply not_elem_of_dom in Hf. Qed.

Lemma fresh_owned d f hs h : balanced hs h ->
  balanced (mkMsgT (Lmsg (fresh_address h)) 0 :: hs) (set_content (fresh_address h) (mkContent d f 0) h).
Proof.
  intros Hb b. rewrite owners_cons. destruct (decide (b = fresh_address h)) as [->|Hne]; lookups.
  - pose proof (Hb (fresh_address h)) as Hf. rewrite fresh_content in Hf. rewrite Hf, (owner_self (fresh_address h)) by done. by left.
  - rewrite (owner_other (fresh_address h)) by done. apply Hb.
Qed.

(** ** Where the messages are *)

Lemma delete_slot hs i m : delete i (<[i := m]> hs) = delete i hs.
Proof. revert i. induction hs as [|x hs IH]; intros [|i]; cbn; [done..|by f_equal]. Qed.

Lemma slot_perm hs i x m : hs !! i = Some x -> hs ≡ₚ x :: delete i hs /\ <[i := m]> hs ≡ₚ m :: delete i hs.
Proof.
  intros Hi. split; [by apply delete_Permutation|]. rewrite <- (delete_slot hs i m). apply delete_Permutation.
  apply list_lookup_insert_eq. by eapply lookup_lt_Some.
Qed.

Lemma two_slots hs : forall i j x y, hs !! i = Some x -> hs !! j = Some y -> i <> j ->
  exists rest, hs ≡ₚ x :: y :: rest /\ forall x' y', <[j := y']> (<[i := x']> hs) ≡ₚ x' :: y' :: rest.
Proof.
  induction hs as [|z hs IH]; intros [|i] [|j] x y Hi Hj Hij; try done; cbn in *.
  - injection Hi as ->. exists (delete j hs). split; [|intros x' y'; cbn]; f_equiv; by eapply slot_perm.
  - injection Hj as ->. exists (delete i hs). split; [|intros x' y'; cbn]; (etrans; [|apply Permutation_swap]); f_equiv; by eapply slot_perm.
  - destruct (IH i j x y Hi Hj) as (rest & Hp & Hq); [congruence|]. exists (z :: rest). split.
    + rewrite Hp. by rewrite (Permutation_swap x z), (Permutation_swap y z).
    + intros x' y'. cbn. rewrite Hq. by rewrite (Permutation_swap x' z), (Permutation_swap y' z).
Qed.

Lemma balanced_slot hs i x m h : hs !! i = Some x -> balanced hs h -> balanced (x :: delete i hs) h.
Proof. intros Hi Hb. by rewrite <- (proj1 (slot_perm hs i x m Hi)). Qed.

(** ** The life of messages *)

(** [Init] and the other constructors take a slot that owns nothing.  [FanOut]
    counts references of a message, copies it as plain data to the slots [js],
    gives [k] references back and starts the message afresh: the way a message
    is distributed. *)
Inductive op :=
| Init (i : nat) | InitDelimiter (i : nat) | InitSize (i : nat) (n : Z) | InitData (i : nat) (d : bytes) (f : Z * Z)
| Close (i : nat) | Move (i j : nat) | Copy (i j : nat) | FanOut (i : nat) (js : list nat) (k : nat).

Section Life.
Context (available : Z -> bool) (garbage : Z -> bytes).

Definition slot (i : nat) hs : outcome msg_t := match hs !! i with Some m => Ok m | None => Aborted "slot" end.

Definition put_all (js : list nat) m hs : list msg_t := foldr (fun j hs => <[j := m]> hs) hs js.

Definition run_op (o : op) (st : list msg_t * memory) : outcome (list msg_t * memory) :=
  let (hs, h) := st in
  match o with
  | Init i => Ok (<[i := init]> hs, h)
  | InitDelimiter i => Ok (<[i := init_delimiter]> hs, h)
  | InitSize i n =>
      let! r := init_size available garbage n h in
      Ok (match r with Some (m, h) => (<[i := m]> hs, h) | None => (hs, h) end)
  | InitData i d f => Ok (match init_data available d (Some f) h with Some (m, h) => (<[i := m]> hs, h) | None => (hs, h) end)
  | Close i => let! m := slot i hs in let! (_, m, h) := close m h in Ok (<[i := m]> hs, h)
  | Move i j =>
      let! m := slot i hs in let! s := slot j hs in
      let! (_, m, s, h) := move m s h in Ok (<[j := s]> (<[i := m]> hs), h)
  | Copy i j =>
      let! m := slot i hs in let! s := slot j hs in
      let! (_, m, s, h) := copy m s h in Ok (<[j := s]> (<[i := m]> hs), h)
  | FanOut i js k =>
      let! m := slot i hs in
      let! (m, h) := add_refs (Z.of_nat (length js + k) - 1) m h in
      let hs := put_all js m hs in
      let! (_, _, h) := rm_refs (Z.of_nat k) m h in
      Ok (<[i := init]> hs, h)
  end.

Definition free_slot (i : nat) hs : Prop := exists m, hs !! i = Some m /\ owns_nothing m.
Definition valid_slot (i : nat) hs : Prop := exists m, hs !! i = Some m /\ check m = true.

Definition legal (o : op) hs : Prop :=
  match o with
  | Init i | InitDelimiter i | InitData i _ _ => free_slot i hs
  | InitSize i n => free_slot i hs /\ 0 <= n < 2 ^ 64 - sizeof_content
  | Close i => valid_slot i hs
  | Move i j | Copy i j => valid_slot i hs /\ valid_slot j hs /\ i <> j
  | FanOut i js k => valid_slot i hs /\ NoDup (i :: js) /\ Forall (fun j => free_slot j hs) js /\ (1 <= length js + k)%nat
      /\ Z.of_nat (length hs) + Z.of_nat (length js + k) < 2 ^ 32
  end.

(** The buffers that messages took over. *)
Definition taken (o : op) : list (bytes * (Z * Z)) :=
  match o with InitData _ d f => if available sizeof_content then [(d, f)] else [] | _ => [] end.

Definition life_ok (st : list msg_t * memory) (given : list (bytes * (Z * Z))) : Prop :=
  few st.1 /\ balanced st.1 st.2 /\ buffers st.2 ≡ₚ given.

(** A slot gets a message instead of one that owned nothing. *)
Lemma replace_free i x m hs h h' g g' : hs !! i = Some x -> owns_nothing x ->
  (balanced hs h -> balanced (m :: hs) h') -> (buffers h ≡ₚ g -> buffers h' ≡ₚ g') ->
  life_ok (hs, h) g -> life_ok (<[i := m]> hs, h') g'.
Proof.
  intros Hi Hx Hm Hg (Hfew & Hb & Hbuf). split_and!; cbn [fst snd] in *; [unfold few in *; by rewrite length_insert| |by apply Hg].
  destruct (slot_perm hs i x m Hi) as [Hp Hq]. rewrite Hq. specialize (Hm Hb). rewrite Hp, (Permutation_swap x m) in Hm.
  by rewrite balanced_nothing in Hm.
Qed.

Lemma owners_insert_free a i m hs : free_slot i hs -> owners a (<[i := m]> hs) ≡ₚ owner a m ++ owners a hs.
Proof.
  intros (x & Hi & Hx). destruct (slot_perm hs i x m Hi) as [Hp Hq].
  apply (owners_proper a) in Hp, Hq. rewrite owners_cons in Hp, Hq. by rewrite Hq, Hp, (owner_nothing a x Hx).
Qed.

Lemma put_all_other js m hs j : j ∉ js -> put_all js m hs !! j = hs !! j.
Proof.
  induction js as [|i js IH]; intros Hj; [done|]. apply not_elem_of_cons in Hj as [Hne Hj]. cbn [put_all foldr].
  rewrite list_lookup_insert_ne by done. by apply IH.
Qed.

Lemma put_all_length js m hs : length (put_all js m hs) = length hs.
Proof. induction js as [|i js IH]; [done|]. cbn [put_all foldr]. by rewrite length_insert. Qed.

Lemma put_all_owners a js m hs : NoDup js -> Forall (fun j => free_slot j hs) js ->
  owners a (put_all js m hs) ≡ₚ owners a (replicate (length js) m ++ hs).
Proof.
  intros Hnd Hf. induction Hf as [|j js Hj Hf IH]; [done|]. apply NoDup_cons in Hnd as [Hjn Hnd]. cbn [put_all foldr length replicate app].
  fold (put_all js m hs). rewrite owners_insert_free, owners_cons, (IH Hnd); [done|].
  destruct Hj as (x & Hj & Hx). exists x. by rewrite put_all_other.
Qed.

Lemma balanced_perm hs hs' h : (forall a, owners a hs ≡ₚ owners a hs') -> balanced hs h -> balanced hs' h.
Proof. intros H Hb a. eapply counted_perm; [apply H|apply Hb]. Qed.

Lemma init_size_spec n h hs : 0 <= n < 2 ^ 64 - sizeof_content -> balanced hs h -> exists r, init_size available garbage n h = Ok r
  /\ match r with Some (m, h') => balanced (m :: hs) h' /\ buffers h' ≡ₚ buffers h | None => True end.
Proof.
  unfold sizeof_content. intros Hn Hb. unfold init_size. destruct (n <=? max_vsm_size); [eexists; split; [done|]; by split; [apply balanced_nothing|]|].
  unfold malloc_content, sizeof_content. rewrite to_uint64_id by lia. destruct (available _); cbn [negb obind]; [|by eexists].
  unfold assertion. destruct (Z.leb_spec 40 (40 + n)); [|lia]. cbn [obind]. eexists. split; [done|]. split; [by apply fresh_owned|].
  by rewrite (buffers_insert h _ _ (fresh_content h)).
Qed.

Lemma few_slot hs i m : hs !! i = Some m -> few hs -> few (m :: delete i hs).
Proof. intros Hi. unfold few. by rewrite (Permutation_length (proj1 (slot_perm hs i m m Hi))). Qed.

Lemma fan_out_ok i js k hs h g : life_ok (hs, h) g -> legal (FanOut i js k) hs ->
  exists st, run_op (FanOut i js k) (hs, h) = Ok st /\ life_ok st g.
Proof.
  intros (Hfew & Hb & Hbuf) ((m & Hi & Hm) & Hnd & Hfree & Hn & Hsmall). cbn [fst snd] in *.
  apply NoDup_cons in Hnd as [Hij Hnd]. cbn [run_op]. unfold slot. rewrite Hi. cbn [obind].
  destruct (slot_perm hs i m m Hi) as [Hp _]. set (rest := delete i hs) in *. rewrite Hp in Hb.
  assert (Hrest : Z.of_nat (length rest) + 1 = Z.of_nat (length hs)) by (rewrite (Permutation_length Hp); cbn; lia).
  replace (Z.of_nat (length js + k) - 1) with (Z.of_nat (length js + k - 1)) by lia.
  destruct (add_refs_ok (length js + k - 1) m rest h Hb) as (m' & h1 & -> & Hu & _ & Hb1 & Hbuf1);
    [unfold few; rewrite length_app, length_replicate; cbn; lia|]. cbn [obind].
  set (hs1 := put_all js m' hs).
  assert (Hi1 : hs1 !! i = Some m) by (unfold hs1; by rewrite put_all_other).
  assert (Hfinal : forall a, owners a (<[i := init]> hs1) ≡ₚ owners a (replicate (length js) m' ++ rest)).
  { intros a. destruct (slot_perm hs1 i m init Hi1) as [Hp1 Hq1]. apply (owners_proper a) in Hp1, Hq1. rewrite Hq1, owners_cons.
    cbn [app]. unfold hs1 in Hp1 at 1. rewrite (put_all_owners a js m' hs Hnd Hfree), owners_app, Hp, !owners_cons in Hp1.
    rewrite owners_app. apply (Permutation_app_inv_l (owner a m)). cbn [owner init u app]. rewrite <- Hp1.
    rewrite !app_assoc. f_equiv. apply Permutation_app_comm. }
  assert (Hlen : few (<[i := init]> hs1)) by (unfold few; unfold hs1; by rewrite length_insert, put_all_length).
  assert (Hb2 : balanced (replicate k m' ++ replicate (length js) m' ++ rest) h1).
  { rewrite app_assoc, <- replicate_add. replace (k + length js)%nat with (Datatypes.S (length js + k - 1)) by lia.
    cbn [replicate app]. by rewrite Permutation_middle. }
  destruct (decide (k = 0)%nat) as [->|Hk].
  - cbn [rm_refs Z.of_nat]. unfold rm_refs, assertion. cbn. eexists. split; [reflexivity|].
    split_and!; [done| |by etrans]. eapply balanced_perm; [intros a; symmetry; apply Hfinal|done].
  - destruct (rm_refs_ok k m' _ h1 Hb2) as (b & m2 & h2 & -> & Hb3 & Hbuf2);
      [unfold few; rewrite !length_app, !length_replicate; lia|done|]. cbn [obind]. eexists. split; [reflexivity|].
    split_and!; [done| |cbn [snd]; by rewrite Hbuf2, Hbuf1]. eapply balanced_perm; [intros a; symmetry; apply Hfinal|done].
Qed.

(** The slots of two messages and the rest. *)
Lemma life_two hs i j m s h g : hs !! i = Some m -> hs !! j = Some s -> i <> j -> life_ok (hs, h) g ->
  exists rest, balanced (m :: s :: rest) h /\ few (m :: s :: rest)
    /\ forall m' s' h', balanced (m' :: s' :: rest) h' -> buffers h' ≡ₚ buffers h -> life_ok (<[j := s']> (<[i := m']> hs), h') g.
Proof.
  intros Hi Hj Hij (Hfew & Hb & Hbuf). cbn [fst snd] in *. destruct (two_slots hs i j m s Hi Hj Hij) as (rest & Hp & Hq).
  exists rest. split; [by rewrite <- Hp|]. split; [unfold few; by rewrite <- (Permutation_length Hp)|].
  intros m' s' h' Hb' Hbuf'. split_and!; cbn [fst snd]; [unfold few; by rewrite !length_insert|by rewrite Hq|by etrans].
Qed.

Lemma run_op_ok o st g : life_ok st g -> legal o st.1 -> exists st', run_op o st = Ok st' /\ life_ok st' (taken o ++ g).
Proof.
  destruct st as [hs h]. intros Hst Hl. pose proof Hst as (Hfew & Hb & Hbuf). cbn [fst snd] in *.
  destruct o as [i|i|i n|i d f|i|i j|i j|i js k]; cbn [taken app] in *; [| | | | | | |by apply fan_out_ok].
  - destruct Hl as (x & Hi & Hx). eexists. split; [reflexivity|]. by eapply replace_free.
  - destruct Hl as (x & Hi & Hx). eexists. split; [reflexivity|]. by eapply replace_free.
  - destruct Hl as [(x & Hi & Hx) Hn]. cbn [run_op]. destruct (init_size_spec n h hs Hn Hb) as (r & -> & Hr). cbn [obind].
    eexists. split; [reflexivity|]. destruct r as [[m h']|]; [|done]. destruct Hr as [Hbr Hbufr].
    apply (replace_free i x m hs h h' g g); try done. intros _. by etrans.
  - destruct Hl as (x & Hi & Hx). cbn [run_op]. unfold init_data. destruct (available sizeof_content); [|by eexists].
    eexists. split; [reflexivity|]. apply (replace_free i x _ hs h _ g _ Hi Hx); [by apply fresh_owned| |done].
    intros Hg. rewrite (buffers_insert h _ _ (fresh_content h)). by rewrite Hg.
  - destruct Hl as (m & Hi & Hm). cbn [run_op]. unfold slot. rewrite Hi. cbn [obind].
    destruct (close_ok m (delete i hs) h) as (h' & -> & Hb' & Hbuf'); [by eapply balanced_slot|by apply few_slot|done|].
    cbn [obind]. eexists. split; [reflexivity|]. split_and!; cbn [fst snd]; [unfold few; by rewrite length_insert| |by etrans].
    rewrite (proj2 (slot_perm hs i m _ Hi)). by apply balanced_nothing.
  - destruct Hl as ((m & Hi & Hm) & (s & Hj & Hs) & Hij). cbn [run_op]. unfold slot. rewrite Hi, Hj. cbn [obind].
    destruct (life_two hs i j m s h g Hi Hj Hij Hst) as (rest & Hb2 & Hfew2 & Hdone).
    destruct (move_ok m s rest h Hb2 Hfew2 Hm Hs) as (h' & -> & Hb' & Hbuf'). cbn [obind]. eexists. split; [reflexivity|]. by apply Hdone.
  - destruct Hl as ((m & Hi & Hm) & (s & Hj & Hs) & Hij). cbn [run_op]. unfold slot. rewrite Hi, Hj. cbn [obind].
    destruct (life_two hs i j m s h g Hi Hj Hij Hst) as (rest & Hb2 & Hfew2 & Hdone).
    destruct (copy_ok m s rest h Hb2 Hfew2 Hm Hs) as (s' & h' & -> & _ & Hb' & Hbuf'). cbn [obind]. eexists. split; [reflexivity|]. by apply Hdone.
Qed.

Fixpoint run_ops (os : list op) (st : list msg_t * memory) : outcome (list msg_t * memory) :=
  match os with [] => Ok st | o :: os' => let! st := run_op o st in run_ops os' st end.

Fixpoint legal_ops (os : list op) (st : list msg_t * memory) : Prop :=
  match os with [] => True | o :: os' => legal o st.1 /\ match run_op o st with Ok st => legal_ops os' st | _ => True end end.

Lemma run_ops_ok os : forall st g, life_ok st g -> legal_ops os st ->
  exists st', run_ops os st = Ok st' /\ life_ok st' (concat (map taken os) ++ g).
Proof.
  induction os as [|o os IH]; intros st g Hst Hl; [by exists st|]. destruct Hl as [Ho Hl].
  destruct (run_op_ok o st g Hst Ho) as (st1 & E & Hst1). rewrite E in Hl. cbn [run_ops]. rewrite E. cbn [obind].
  destruct (IH st1 _ Hst1 Hl) as (st2 & -> & (Hfew & Hb & Hbuf)). exists st2. split; [done|]. split_and!; [done|done|].
  rewrite Hbuf. cbn [map concat]. rewrite app_assoc. f_equiv. apply Permutation_app_comm.
Qed.
End Life.

(** Whether a program is legal can be computed. *)
#[export] Instance owns_nothing_dec m : Decision (owns_nothing m).
Proof. destruct m as [[] f]; [left|right|left|left]; try done. intros H. by apply (H content). Defined.

#[export] Instance some_slot_dec (P : msg_t -> Prop) `{forall m, Decision (P m)} i hs : Decision (exists m, hs !! i = Some m /\ P m).
Proof.
  destruct (hs !! i) as [m|] eqn:E; [|right; by intros (? & ? & _)].
  destruct (decide (P m)); [left; by exists m|right; intros (m' & Hm & HP); by injection Hm as <-].
Defined.

#[export] Instance legal_dec o hs : Decision (legal o hs).
Proof. destruct o; unfold legal, free_slot, valid_slot; apply _. Defined.

#[export] Instance legal_ops_dec available garbage os st : Decision (legal_ops available garbage os st).
Proof.
  revert st. induction os as [|o os IH]; intros st; [left; exact I|]. cbn [legal_ops].
  destruct (decide (legal o st.1)); [|right; by intros []].
  destruct (run_op available garbage o st) as [st'| |]; [destruct (IH st'); [by left|right; by intros []]|by left|by left].
Defined.


Definition life_example : list op :=
  [InitData 0 (bs "the content of a long message") (7, 1); FanOut 0 [1; 2]%nat 1; Copy 3 1; Close 1; Close 2; Move 0 3; Close 0].

