(* ===== verification/Encoders.v ===== *)
(** * The encoders ([lib/zeromq/encoder.hpp], [encoder.cpp], [v1_encoder.cpp])

    An encoder is a state machine: each step says which bytes are written next.
    [get_data] fills a buffer by running the machine and copying; a large piece
    may be handed out without copying.  The two versions of the framing differ
    in what precedes the body of a message.

    Messages come from a source that is asked one message at a time; it is the
    list of the messages it will give, and answers [EAGAIN] when it is empty.
    Lengths are [size_t]s of 64 bits. *)

From stdpp Require Import tactics.
From S2P Require Import Prelude Wire Msg.

(** ** Messages

    Of a message an engine sees the flags and the bytes. *)

Record msg := mkMsg { flags : Z; body : bytes }.

Definition size (m : msg) : Z := Z.of_nat (length (body m)).
Definition has_more (m : msg) : bool := negb (Z.land (flags m) more =? 0).
Definition empty_msg : msg := mkMsg 0 [].

(** [v1_protocol_t]. *)
Definition more_flag : Z := 1.
Definition large_flag : Z := 2.

(** ** The state machine *)

Inductive version := V0 | V1.

Inductive step_t := size_ready | message_ready.

(** [write_pos] and [to_write] are the bytes still to be written. *)
Record encoder := mkEncoder {
  to_write : bytes; next : step_t; beginning : bool; in_progress : msg; source : option (list msg)
}.

Definition next_step (data : bytes) (next : step_t) (beginning : bool) (m : msg) (src : option (list msg)) : encoder :=
  mkEncoder data next beginning m src.

(** The constructor, with its source. *)
Definition new_encoder (src : option (list msg)) : encoder := next_step [] message_ready true empty_msg src.

Definition set_msg_source (src : option (list msg)) (e : encoder) : encoder :=
  mkEncoder (to_write e) (next e) (beginning e) (in_progress e) src.

(** What precedes the body of a message: [tmpbuf]. *)
Definition header (v : version) (m : msg) : bytes :=
  match v with
  | V0 =>
      let size := to_uint64 (size m + 1) in
      if size <? 255 then [chr size; chr (Z.land (flags m) more)]
      else chr 0xff :: put_uint64 size ++ [chr (Z.land (flags m) more)]
  | V1 =>
      let protocol_flags := 0 in
      let protocol_flags := if has_more m then Z.lor protocol_flags more_flag else protocol_flags in
      let protocol_flags := if 255 <? size m then Z.lor protocol_flags large_flag else protocol_flags in
      if 255 <? size m then chr protocol_flags :: put_uint64 (size m)
      else [chr protocol_flags; chr (size m)]
  end.

Definition run_size_ready (e : encoder) : bool * encoder :=
  (true, next_step (body (in_progress e)) message_ready (negb (has_more (in_progress e))) (in_progress e) (source e)).

Definition run_message_ready (v : version) (e : encoder) : bool * encoder :=
  match source e with
  | None | Some [] => (false, mkEncoder (to_write e) (next e) (beginning e) empty_msg (source e))
  | Some (m :: rest) => (true, next_step (header v m) size_ready false m (Some rest))
  end.

(** [(this->*next) ()]. *)
Definition run_next (v : version) (e : encoder) : bool * encoder :=
  match next e with size_ready => run_size_ready e | message_ready => run_message_ready v e end.

(** ** [get_data] *)

Definition with_to_write (data : bytes) (e : encoder) : encoder :=
  mkEncoder data (next e) (beginning e) (in_progress e) (source e).

(** The loop: [own] when the caller supplied no buffer; [out] is what is in the
    buffer, [offset] the position of the first message. *)
Fixpoint get_data_loop (fuel : nat) (v : version) (own : bool) (buffersize : Z) (out : bytes) (offset : Z) (e : encoder)
  : outcome (bytes * Z * encoder) :=
  let pos := Z.of_nat (length out) in
  if negb (pos <? buffersize) then Ok (out, offset, e)
  else
    match fuel with
    | O => OutOfFuel
    | S fuel' =>
        let run :=
          match to_write e with
          | [] =>
              let offset := if beginning e && (offset =? -1) then pos else offset in
              let (b, e) := run_next v e in (b, offset, e)
          | _ => (true, offset, e)
          end in
        let '(go, offset, e) := run in
        if negb go then Ok (out, offset, e)
        else if (pos =? 0) && own && (buffersize <=? Z.of_nat (length (to_write e))) then
          Ok (to_write e, offset, with_to_write [] e)
        else
          let to_copy := Nat.min (length (to_write e)) (Z.to_nat (buffersize - pos)) in
          get_data_loop fuel' v own buffersize (out ++ take to_copy (to_write e)) offset
            (with_to_write (drop to_copy (to_write e)) e)
    end.

(** Enough steps: every second one writes a byte. *)
Definition get_data_fuel (buffersize : Z) : nat := 2 * Z.to_nat buffersize + 2.

Definition get_data (v : version) (own : bool) (buffersize : Z) (e : encoder) : outcome (bytes * Z * encoder) :=
  get_data_loop (get_data_fuel buffersize) v own buffersize [] (-1) e.

Definition has_data (e : encoder) : bool := match to_write e with [] => false | _ => true end.

(** A session: one call after the other, with the buffer each of them fills. *)
Fixpoint get_all (v : version) (calls : list (bool * Z)) (e : encoder) : outcome (list bytes * encoder) :=
  match calls with
  | [] => Ok ([], e)
  | (own, buffersize) :: calls' =>
      let! (chunk, _, e) := get_data v own buffersize e in
      let! (chunks, e) := get_all v calls' e in
      Ok (chunk :: chunks, e)
  end.
