(* ===== verification/Decoders.v ===== *)
(** * The decoders ([lib/zeromq/decoder.hpp], [decoder.cpp], [v1_decoder.cpp])

    A decoder is a state machine: it reads a known number of bytes into the
    header buffer or into the body of the message in progress, and then runs a
    step.  [process_buffer] copies what was received and runs the machine; it
    stops early when the receiver refuses a message for now.

    The receiver is the interface [i_msg_sink]: a state and what [push_msg]
    answers and does.  [malloc] is a parameter too, as far as it may fail.
    Lengths are [size_t]s of 64 bits. *)

From stdpp Require Import tactics gmap.
From S2P Require Import Prelude Wire Msg Encoders.

(** ** The receiver *)

(** 0, [EAGAIN], or another error. *)
Inductive push_answer := Pushed | Again | Refused.

Class MsgSink (S : Type) := push_msg : S -> msg -> push_answer * S.

(** ** Memory of a message *)

(** Whether [init_size] succeeds. *)
Definition allocates (available : Z -> bool) (size_ : Z) : outcome bool :=
  let! r := Msg.init_size available (fun _ => []) size_ (mkMemory ∅ []) in
  Ok (match r with Some _ => true | None => false end).

Section Decoder.
Context {S : Type} `{MsgSink S} (available : Z -> bool).

(** ** The state machine *)

Inductive dstep := one_byte_size_ready | eight_byte_size_ready | flags_ready | body_ready.

(** [got] are the bytes that were read since [next_step]; [next] is null after a
    decoding error. *)
Record decoder := mkDecoder {
  dnext : option dstep; got : bytes; to_read : Z;
  ip_flags : Z; ip_size : Z; msg_flags : Z; sink : S; maxmsgsize : Z
}.

Definition read_next (n : Z) (next : dstep) (d : decoder) : decoder :=
  mkDecoder (Some next) [] n (ip_flags d) (ip_size d) (msg_flags d) (sink d) (maxmsgsize d).

Definition decoding_error (d : decoder) : decoder :=
  mkDecoder None (got d) (to_read d) (ip_flags d) (ip_size d) (msg_flags d) (sink d) (maxmsgsize d).

Definition with_in_progress (flags size : Z) (d : decoder) : decoder :=
  mkDecoder (dnext d) (got d) (to_read d) flags size (msg_flags d) (sink d) (maxmsgsize d).

Definition with_msg_flags (f : Z) (d : decoder) : decoder :=
  mkDecoder (dnext d) (got d) (to_read d) (ip_flags d) (ip_size d) f (sink d) (maxmsgsize d).

Definition with_sink (s : S) (d : decoder) : decoder :=
  mkDecoder (dnext d) (got d) (to_read d) (ip_flags d) (ip_size d) (msg_flags d) s (maxmsgsize d).

Definition new_decoder (v : version) (maxmsgsize : Z) (s : S) : decoder :=
  mkDecoder (Some (match v with V0 => one_byte_size_ready | V1 => flags_ready end)) [] 1 0 0 0 s maxmsgsize.

(** The common end of the steps that know the size: a failed allocation is a
    decoding error. *)
Definition allocate (size : Z) (d : decoder) (k : decoder -> decoder) : outcome (bool * decoder) :=
  let! ok := allocates available size in
  if ok then Ok (true, k (with_in_progress 0 size d))
  else Ok (false, decoding_error (with_in_progress 0 0 d)).

Definition v0_one_byte_size_ready (d : decoder) : outcome (bool * decoder) :=
  let! b := byte_at (got d) 0 in
  if b =? 0xff then Ok (true, read_next 8 eight_byte_size_ready d)
  else if b =? 0 then Ok (false, decoding_error d)
  else if (0 <=? maxmsgsize d) && (maxmsgsize d <? b - 1) then
    Ok (false, decoding_error (with_in_progress 0 0 d))
  else allocate (b - 1) d (read_next 1 flags_ready).

Definition v0_eight_byte_size_ready (d : decoder) : outcome (bool * decoder) :=
  let! payload_length := get_uint64 (got d) in
  if payload_length =? 0 then Ok (false, decoding_error d)
  else if (0 <=? maxmsgsize d) && (maxmsgsize d <? payload_length - 1) then Ok (false, decoding_error d)
  else allocate (payload_length - 1) d (read_next 1 flags_ready).

Definition v0_flags_ready (d : decoder) : outcome (bool * decoder) :=
  let! b := byte_at (got d) 0 in
  let d := with_in_progress (Z.lor (ip_flags d) (Z.land b more)) (ip_size d) d in
  Ok (true, read_next (ip_size d) body_ready d).

Definition v1_flags_ready (d : decoder) : outcome (bool * decoder) :=
  let! b := byte_at (got d) 0 in
  let d := with_msg_flags (if negb (Z.land b more_flag =? 0) then Z.lor 0 more else 0) d in
  if negb (Z.land b large_flag =? 0) then Ok (true, read_next 8 eight_byte_size_ready d)
  else Ok (true, read_next 1 one_byte_size_ready d).

(** [set_flags] and the step to the body. *)
Definition v1_read_body (d : decoder) : decoder :=
  let d := with_in_progress (Z.lor (ip_flags d) (msg_flags d)) (ip_size d) d in
  read_next (ip_size d) body_ready d.

Definition v1_one_byte_size_ready (d : decoder) : outcome (bool * decoder) :=
  let! b := byte_at (got d) 0 in
  if (0 <=? maxmsgsize d) && (maxmsgsize d <? b) then Ok (false, decoding_error d)
  else allocate b d v1_read_body.

Definition v1_eight_byte_size_ready (d : decoder) : outcome (bool * decoder) :=
  let! msg_size := get_uint64 (got d) in
  if (0 <=? maxmsgsize d) && (maxmsgsize d <? msg_size) then Ok (false, decoding_error d)
  else allocate msg_size d v1_read_body.

(** [message_ready] of both versions. *)
Definition run_body_ready (v : version) (d : decoder) : outcome (bool * decoder) :=
  let (a, s) := push_msg (sink d) (mkMsg (ip_flags d) (got d)) in
  match a with
  | Pushed =>
      let d := with_in_progress 0 0 (with_sink s d) in
      Ok (true, match v with V0 => read_next 1 one_byte_size_ready d | V1 => read_next 1 flags_ready d end)
  | Again => Ok (false, with_sink s d)
  | Refused => Ok (false, decoding_error (with_sink s d))
  end.

(** [(this->*next) ()]. *)
Definition run_dnext (v : version) (d : decoder) : outcome (bool * decoder) :=
  match v, dnext d with
  | _, None => Aborted "next"
  | V0, Some one_byte_size_ready => v0_one_byte_size_ready d
  | V0, Some eight_byte_size_ready => v0_eight_byte_size_ready d
  | V0, Some flags_ready => v0_flags_ready d
  | V1, Some flags_ready => v1_flags_ready d
  | V1, Some one_byte_size_ready => v1_one_byte_size_ready d
  | V1, Some eight_byte_size_ready => v1_eight_byte_size_ready d
  | _, Some body_ready => run_body_ready v d
  end.

(** ** [process_buffer] *)

(** [while (!to_read) ...]: whether to go on.  A step that asks for no bytes is
    the one before an empty body, so that three turns are enough. *)
Fixpoint settle (fuel : nat) (v : version) (d : decoder) : outcome (bool * decoder) :=
  if negb (to_read d =? 0) then Ok (true, d)
  else
    match fuel with
    | O => OutOfFuel
    | Datatypes.S fuel' =>
        let! (b, d) := run_dnext v d in
        if b then settle fuel' v d else Ok (false, d)
    end.

Definition settle_fuel : nat := 3.

(** What is returned when the machine stops: the bytes processed, or -1. *)
Definition stopped (n : Z) (d : decoder) : Z := match dnext d with None => -1 | Some _ => n end.

Definition copy_in (data : bytes) (d : decoder) : decoder :=
  mkDecoder (dnext d) (got d ++ data) (to_read d - Z.of_nat (length data)) (ip_flags d) (ip_size d) (msg_flags d)
    (sink d) (maxmsgsize d).

(** The loop; [pos] bytes were processed, [data] are left. *)
Fixpoint process_loop (fuel : nat) (v : version) (pos : Z) (data : bytes) (d : decoder) : outcome (Z * decoder) :=
  match fuel with
  | O => OutOfFuel
  | Datatypes.S fuel' =>
      let! (go, d) := settle settle_fuel v d in
      if negb go then Ok (stopped pos d, d)
      else
        match data with
        | [] => Ok (pos, d)
        | _ =>
            let to_copy := Nat.min (Z.to_nat (to_read d)) (length data) in
            process_loop fuel' v (pos + Z.of_nat to_copy) (drop to_copy data) (copy_in (take to_copy data) d)
        end
  end.

(** [in_place] when the caller filled the body of the message itself
    ([data_ == read_pos]); it fills at most what is to be read. *)
Definition process_buffer (v : version) (in_place : bool) (data : bytes) (d : decoder) : outcome (Z * decoder) :=
  match dnext d with
  | None => Ok (-1, d)
  | Some _ =>
      if in_place then
        let! _ := assertion (Z.of_nat (length data) <=? to_read d) "buffer" in
        let d := copy_in data d in
        let! (go, d) := settle settle_fuel v d in
        if negb go then Ok (stopped (Z.of_nat (length data)) d, d) else Ok (Z.of_nat (length data), d)
      else process_loop (Datatypes.S (length data)) v 0 data d
  end.

(** [get_buffer]: whether the caller is to fill the body itself, and how much. *)
Definition get_buffer (bufsize : Z) (d : decoder) : bool * Z :=
  if bufsize <=? to_read d then (true, to_read d) else (false, bufsize).

(** [stalled]. *)
Definition stalled (v : version) (d : decoder) : outcome (bool * decoder) :=
  match dnext d with
  | None => Ok (false, d)
  | Some _ =>
      let! (go, d) := settle settle_fuel v d in
      if go then Ok (false, d) else Ok (match dnext d with None => false | Some _ => true end, d)
  end.

(** Chunk after chunk, as an engine that never has to wait feeds them; it stops
    at an error or when the receiver refuses. *)
Fixpoint process_all (v : version) (chunks : list bytes) (d : decoder) : outcome (bool * decoder) :=
  match chunks with
  | [] => Ok (true, d)
  | data :: chunks' =>
      let! (n, d) := process_buffer v false data d in
      if n =? Z.of_nat (length data) then process_all v chunks' d else Ok (false, d)
  end.

End Decoder.

Arguments decoder : clear implicits.
