(* ===== verification/EncoderTheorems.v ===== *)
(** * The encoders write the stream of the messages

    What is still to be written, [pending], is a list of bytes; [get_data] takes a
    chunk off its front and fills the buffer as long as there is something. *)

From stdpp Require Import tactics.
From S2P Require Import Prelude Wire Msg Encoders.

(** ** The stream *)

(** One message on the wire. *)
Definition wire (v : version) (m : msg) : bytes := header v m ++ body m.

Definition queued (e : encoder) : list msg := default [] (source e).

Definition pending (v : version) (e : encoder) : bytes :=
  to_write e ++ match next e with size_ready => body (in_progress e) | message_ready => [] end
    ++ concat (map (wire v) (queued e)).

Lemma header_not_nil v m : header v m <> [].
Proof. destruct v; cbn; by repeat case_match. Qed.

(** ** The steps *)

(** A step that finds nothing is the end of the stream. *)
Lemma run_next_false v e e' : run_next v e = (false, e') -> to_write e = [] ->
  pending v e = [] /\ pending v e' = [] /\ to_write e' = [].
Proof.
  destruct e as [w n b m src]. unfold run_next, run_message_ready, pending, queued. cbn.
  destruct n; cbn; [done|]. destruct src as [[|m' src]|]; cbn; intros [= <-] ->; done.
Qed.

(** Every other step keeps the stream; when it gives no bytes, the next one does. *)
Lemma run_next_true v e e' : run_next v e = (true, e') -> to_write e = [] ->
  pending v e' = pending v e /\ (to_write e' = [] -> next e = size_ready /\ next e' = message_ready).
Proof.
  destruct e as [w n b m src]. unfold run_next, run_message_ready, pending, queued. cbn.
  destruct n; cbn; [by intros [= <-] ->|].
  destruct src as [[|m' src]|]; cbn; intros [= <-] ->; try done. cbn. split; [|intros H; by apply header_not_nil in H].
  unfold wire. by rewrite <- app_assoc.
Qed.

Lemma pending_drop v e k : take k (to_write e) ++ pending v (with_to_write (drop k (to_write e)) e) = pending v e.
Proof. unfold pending. cbn. by rewrite app_assoc, take_drop. Qed.

(** ** The loop *)

(** Turns that write nothing come before one that does. *)
Definition turns (buffersize : Z) (out : bytes) (e : encoder) : nat :=
  2 * Z.to_nat (buffersize - Z.of_nat (length out))
    + match to_write e, next e with [], size_ready => 1 | _, _ => 0 end.

(** A chunk [w] was taken off the stream. *)
Definition took (v : version) (own : bool) (buffersize : Z) (out : bytes) (e : encoder) (r : outcome (bytes * Z * encoder)) : Prop :=
  exists w offset e', r = Ok (out ++ w, offset, e') /\ w ++ pending v e' = pending v e
    /\ (buffersize <= Z.of_nat (length (out ++ w)) \/ pending v e' = [])
    /\ (own = false -> Z.of_nat (length (out ++ w)) <= buffersize).

Lemma took_nothing v own n out e offset e' : pending v e' = pending v e -> Z.of_nat (length out) <= n ->
  n <= Z.of_nat (length out) \/ pending v e' = [] -> took v own n out e (Ok (out, offset, e')).
Proof. intros H Hn Hs. exists [], offset, e'. rewrite app_nil_r. done. Qed.

Lemma took_more v own n out w e e' r : w ++ pending v e' = pending v e ->
  took v own n (out ++ w) e' r -> took v own n out e r.
Proof.
  intros H (w' & offset & e2 & -> & Hw & Hs & Hn). exists (w ++ w'), offset, e2. rewrite !app_assoc, <- H, <- Hw.
  split_and!; try done. by rewrite app_assoc.
Qed.

(** One copy, after the state machine was run. *)
Lemma copy_step fuel v own n out e offset :
  (forall out' offset' e', (turns n out' e' <= fuel)%nat -> Z.of_nat (length out') <= n ->
     took v own n out' e' (get_data_loop fuel v own n out' offset' e')) ->
  Z.of_nat (length out) < n -> (2 * Z.to_nat (n - Z.of_nat (length out)) <= S fuel)%nat ->
  (to_write e = [] -> next e = message_ready /\ 2 * Z.to_nat (n - Z.of_nat (length out)) <= fuel)%nat ->
  took v own n out e
    (if (Z.of_nat (length out) =? 0) && own && (n <=? Z.of_nat (length (to_write e))) then
       Ok (to_write e, offset, with_to_write [] e)
     else
       let to_copy := Nat.min (length (to_write e)) (Z.to_nat (n - Z.of_nat (length out))) in
       get_data_loop fuel v own n (out ++ take to_copy (to_write e)) offset
         (with_to_write (drop to_copy (to_write e)) e)).
Proof.
  intros IH Hlt Hfuel Hempty. destruct (_ && _) eqn:E.
  - apply andb_true_iff in E as [E E2]. apply andb_true_iff in E as [E1 ->]. apply Z.eqb_eq in E1. apply Z.leb_le in E2.
    destruct out as [|]; [|by cbn in E1]. exists (to_write e), offset, (with_to_write [] e). split_and!; [done|done|by left|done].
  - cbn zeta. set (k := Nat.min _ _). apply (took_more v own n out (take k (to_write e)) e _ _ (pending_drop v e k)).
    assert (Hk : (k = Nat.min (length (to_write e)) (Z.to_nat (n - Z.of_nat (length out))))%nat) by done. clearbody k.
    apply IH; [|rewrite length_app, length_take; lia].
    unfold turns. rewrite length_app, length_take. cbn [to_write next with_to_write].
    destruct (to_write e) as [|c w] eqn:Ew.
    + destruct (Hempty eq_refl) as [-> H']. cbn in Hk. subst k. cbn. lia.
    + cbn [length] in *. rewrite Nat.min_l by lia. destruct (drop k _), (next e); lia.
Qed.

Lemma get_data_loop_took v own n fuel : forall out offset e,
  (turns n out e <= fuel)%nat -> Z.of_nat (length out) <= n ->
  took v own n out e (get_data_loop fuel v own n out offset e).
Proof.
  induction fuel as [|fuel IH]; intros out offset e Hfuel Hn; unfold turns in Hfuel; cbn [get_data_loop]; cbn zeta;
    destruct (Z.ltb_spec (Z.of_nat (length out)) n) as [Hlt|Hge]; cbn [negb]; try (apply took_nothing; [done|lia|left; lia]); [lia|].
  destruct (to_write e) as [|c w] eqn:Ew; [|apply copy_step; [done|done|lia|by rewrite Ew]].
  destruct (run_next v e) as [go e1] eqn:Er. destruct go; cbn [negb].
  - destruct (run_next_true v e e1 Er Ew) as [Hp Hnext]. destruct (next e) eqn:En.
    + eapply (took_more v own n out [] e e1); [exact Hp|]. rewrite app_nil_r. apply copy_step; [done|done|lia|].
      intros H. split; [by apply Hnext|lia].
    + eapply (took_more v own n out [] e e1); [exact Hp|]. rewrite app_nil_r. apply copy_step; [done|done|lia|].
      intros H. by destruct (Hnext H).
  - destruct (run_next_false v e e1 Er Ew) as (Hp & Hp1 & _). apply took_nothing; [congruence|done|by right].
Qed.

(** [get_data] returns; it takes a chunk off the stream. *)
Lemma get_data_took v own n e : 0 <= n -> took v own n [] e (get_data v own n e).
Proof.
  intros Hn. apply get_data_loop_took; [|cbn; lia]. unfold turns, get_data_fuel. cbn [length].
  destruct (to_write e), (next e); lia.
Qed.

(** ** A session *)

(** The calls take chunks off the stream until it ends. *)
Definition streamed (v : version) (calls : list (bool * Z)) (stream : bytes) (chunks : list bytes) (e : encoder) : Prop :=
  concat chunks ++ pending v e = stream
  /\ Forall2 (fun c chunk => (c.1 = false -> Z.of_nat (length chunk) <= c.2)
       /\ (c.2 <= Z.of_nat (length chunk) \/ pending v e = [])) calls chunks
  /\ (length stream <= length calls -> pending v e = [])%nat.

Lemma get_all_streamed v calls : forall e, Forall (fun c => 1 <= c.2) calls ->
  exists chunks e', get_all v calls e = Ok (chunks, e') /\ streamed v calls (pending v e) chunks e'.
Proof.
  induction calls as [|[own n] calls IH]; intros e Hcalls.
  { exists [], e. split; [done|]. split_and!; [done|constructor|]. cbn. intros H. apply nil_length_inv. lia. }
  apply Forall_cons in Hcalls as [Hn Hcalls]. cbn in Hn. cbn [get_all].
  destruct (get_data_took v own n e ltac:(lia)) as (w & offset & e1 & -> & Hw & Hfull & Hover).
  destruct (IH e1 Hcalls) as (chunks & e2 & E2 & Hp & Hall & Hdone). cbn [obind app] in *. rewrite E2. cbn [obind].
  assert (Hend : pending v e1 = [] -> pending v e2 = []).
  { intros H. rewrite H in Hp. by apply app_eq_nil in Hp as [_ ->]. }
  exists (w :: chunks), e2. split; [done|]. split_and!.
  - cbn. by rewrite <- app_assoc, Hp.
  - constructor; [|done]. cbn. split; [done|]. destruct Hfull; [by left|right; auto].
  - cbn [length]. intros H. rewrite <- Hw, length_app in H. destruct Hfull as [Hf|Hf]; [apply Hdone; lia|auto].
Qed.

(** For any sequence of calls of [get_data] with buffers of at least one byte,
    the caller's or the encoder's own: every call returns; the chunks are, in order,
    the bytes of the messages of the source, each framed by its header, without a
    gap, and what they do not hold yet is still pending; a supplied buffer is never
    overrun; every chunk fills its buffer or everything was written; and as many
    calls as there are bytes write all of them. *)
Theorem encoder_writes_the_messages v ms calls : Forall (fun c => 1 <= c.2) calls ->
  exists chunks e, get_all v calls (new_encoder (Some ms)) = Ok (chunks, e)
    /\ streamed v calls (concat (map (wire v) ms)) chunks e.
Proof. apply (get_all_streamed v calls (new_encoder (Some ms))). Qed.

Lemma encoder_writes_the_messages_witness :
  exists chunks e, get_all V1 [(true, 3); (false, 2); (true, 8)] (new_encoder (Some [mkMsg 1 (bs "abcd"); mkMsg 0 (bs "x")])) = Ok (chunks, e)
    /\ streamed V1 [(true, 3); (false, 2); (true, 8)] (concat (map (wire V1) [mkMsg 1 (bs "abcd"); mkMsg 0 (bs "x")])) chunks e.
Proof. apply (encoder_writes_the_messages V1). repeat constructor; done. Defined.

(** The documentation of [get_data] says that the offset is -1 when no message
    begins in the batch: it is 0 when there is no message at all. *)
Lemma offset_without_message v own n : 1 <= n ->
  get_data v own n (new_encoder (Some [])) = Ok ([], 0, new_encoder (Some [])).
Proof.
  intros Hn. unfold get_data, get_data_fuel. destruct (Z.to_nat n) eqn:E; [lia|]. cbn [Nat.mul Nat.add get_data_loop].
  cbn zeta. change (Z.of_nat (length [])) with 0. destruct (Z.ltb_spec 0 n); [done|lia].
Qed.
