(* ===== verification/DecoderTheorems.v ===== *)
(** * The decoders: one byte at a time, within bounds

    [process_buffer] is compared with a machine that takes one byte at a time;
    its invariant keeps every read inside the header buffer or the body. *)

From stdpp Require Import tactics.
From S2P Require Import Prelude Wire Msg Encoders Decoders.

Definition is_flag (f : Z) : Prop := f = 0 \/ f = 1.

Lemma is_flag_land b : is_flag (Z.land b more).
Proof.
  unfold is_flag, more. rewrite Z.land_comm, (land_ones_mod 1 b 1) by done. change (2 ^ 1) with 2.
  pose proof (Z.mod_pos_bound b 2). lia.
Qed.

Lemma is_flag_lor a b : is_flag a -> is_flag b -> is_flag (Z.lor a b).
Proof. intros [->| ->] [->| ->]; unfold is_flag; auto. Qed.

Lemma byte_at_in b i : (i < length b)%nat -> exists c, byte_at b i = Ok (ord c).
Proof. intros H. destruct (lookup_lt_is_Some_2 b i H) as [c Hc]. exists c. unfold byte_at. by rewrite Hc. Qed.

Lemma get_uint64_in b : (8 <= length b)%nat -> exists n, get_uint64 b = Ok n /\ 0 <= n < 2 ^ 64.
Proof.
  intros Hb. destruct b as [|b0 [|b1 [|b2 [|b3 [|b4 [|b5 [|b6 [|b7 b]]]]]]]]; try (cbn in Hb; lia).
  exists (be_value [b0; b1; b2; b3; b4; b5; b6; b7]). split; [apply get_uint64_spec|].
  apply (be_value_range [b0; b1; b2; b3; b4; b5; b6; b7]).
Qed.

Lemma allocates_malloc available n : allocates available n = if n <=? max_vsm_size then Ok true else malloc_content available n.
Proof.
  unfold allocates, Msg.init_size. destruct (n <=? max_vsm_size); [done|]. by destruct (malloc_content available n) as [[]| |].
Qed.

Section Decoder.
Context {S : Type} `{MsgSink S} (available : Z -> bool).
(** A limit, and what is kept by every message that respects it. *)
Context (limit : Z) (P : S -> Prop).
Implicit Types (d : decoder S).

Definition respected (m : msg) : Prop := (0 <= limit -> size m <= limit) /\ is_flag (flags m).

Hypothesis limit_int64 : limit < 2 ^ 63.
Hypothesis P_push : forall s m, P s -> respected m -> P (push_msg s m).2.

(** ** The invariant *)

(** The bytes a step needs. *)
Definition expected (s : dstep) d : Z :=
  match s with one_byte_size_ready | flags_ready => 1 | eight_byte_size_ready => 8 | body_ready => ip_size d end.

Record sound d : Prop := {
  sound_limit : maxmsgsize d = limit;
  sound_sink : P (sink d);
  sound_step s : dnext d = Some s -> 0 <= to_read d /\ Z.of_nat (length (got d)) + to_read d = expected s d;
  sound_size : 0 <= ip_size d < 2 ^ 64 /\ (0 <= limit -> ip_size d <= limit);
  sound_flags : is_flag (ip_flags d) /\ is_flag (msg_flags d)
}.

(** The machine waits for bytes; or it has them all but cannot go on. *)
Definition waits d : Prop := is_Some (dnext d) /\ 0 < to_read d.
Definition stuck d : Prop := dnext d = None \/ (dnext d = Some body_ready /\ to_read d = 0).

Lemma stuck_not_waits d : stuck d -> ~ waits d.
Proof. intros [Hd|[_ Hd]] [[s Hs] Hr]; [congruence|lia]. Qed.

(** The result of a step [s]. *)
Definition fine (s : dstep) (r : outcome (bool * decoder S)) : Prop :=
  match r with
  | Ok (true, d') => sound d' /\ is_Some (dnext d') /\ (0 < to_read d' \/ s <> body_ready /\ dnext d' = Some body_ready)
  | Ok (false, d') => sound d' /\ stuck d'
  | OutOfFuel => False
  | Aborted w => w = "heap overflow"%string /\ limit < 0
  end.

Lemma sound_new v s : P s -> sound (new_decoder v limit s) /\ waits (new_decoder v limit s).
Proof.
  intros Hs. split; [|split; [eexists; done|cbn; lia]].
  split; cbn; try done; [intros s'; destruct v; intros [= <-]; cbn; lia|by split; left].
Qed.

(** ** The building blocks of the steps *)

Lemma sound_read_next n s d : 0 <= n -> n = expected s d -> sound d -> sound (read_next n s d).
Proof. intros Hn He []. split; cbn; try done. intros s' [= <-]. rewrite He. destruct s; cbn in *; lia. Qed.

Lemma sound_error d : sound d -> sound (decoding_error d).
Proof. intros []. by split. Qed.

Lemma sound_no_progress d : sound d -> sound (decoding_error (with_in_progress 0 0 d)).
Proof. intros [Hm HP Hstep Hsize [Hf Hg]]. split; cbn; try done. by split; [left|]. Qed.

Lemma error_fine s d : sound d -> fine s (Ok (false, decoding_error d)).
Proof. intros Hd. split; [by apply sound_error|by left]. Qed.

Lemma read_fine s n s' d : 0 < n -> n = expected s' d -> sound d -> fine s (Ok (true, read_next n s' d)).
Proof. intros Hn He Hd. split; [apply sound_read_next; (done || lia)|]. split; [by eexists|by left]. Qed.

(** A step to the body. *)
Lemma body_fine s d : s <> body_ready -> sound d -> fine s (Ok (true, read_next (ip_size d) body_ready d)).
Proof.
  intros Hs Hd. split; [apply sound_read_next; [apply Hd|done|done]|]. split; [by eexists|by right].
Qed.

Lemma allocates_cases n : 0 <= n < 2 ^ 64 -> match allocates available n with
  | Ok _ => True | OutOfFuel => False | Aborted w => w = "heap overflow"%string /\ 2 ^ 64 - sizeof_content <= n end.
Proof.
  intros Hn. rewrite allocates_malloc. unfold max_vsm_size, malloc_content. destruct (Z.leb_spec n 29); [done|].
  destruct (available _); cbn [negb]; [|done]. unfold assertion. destruct (Z.leb_spec sizeof_content (to_uint64 (sizeof_content + n))) as [|Hlt]; cbn; [done|].
  split; [done|]. destruct (Z.lt_ge_cases (sizeof_content + n) (2 ^ 64)) as [Hs|Hs]; [|lia].
  rewrite to_uint64_id in Hlt; unfold sizeof_content in *; lia.
Qed.

Lemma sound_allocated s n d : dnext d = Some s -> s <> body_ready -> sound d ->
  0 <= n < 2 ^ 64 -> (0 <= limit -> n <= limit) -> sound (with_in_progress 0 n d).
Proof.
  intros Hs Hb [Hm HP Hstep Hsize [Hf Hg]] Hn Hl. split; cbn; try done; [|by split; [left|]].
  intros s' Hs'. replace s' with s in * by congruence. destruct (Hstep s Hs). by destruct s.
Qed.

Lemma allocate_fine s n d k : dnext d = Some s -> s <> body_ready -> sound d ->
  0 <= n < 2 ^ 64 -> (0 <= limit -> n <= limit) ->
  (forall d', sound d' -> dnext d' = Some s -> fine s (Ok (true, k d'))) ->
  fine s (allocate available n d k).
Proof.
  intros Hs Hb Hd Hn Hl Hk. unfold allocate. pose proof (allocates_cases n Hn) as Hi.
  destruct (allocates available n) as [[]| |w]; cbn [obind]; [|split; [by apply sound_no_progress|by left]|done|].
  - apply Hk; [by apply (sound_allocated s)|done].
  - destruct Hi as [-> Hi]. split; [done|]. unfold sizeof_content in Hi. lia.
Qed.

(** ** Every step *)

Ltac have_byte d := let Hlen := fresh "Hlen" in let c := fresh "c" in let Hc := fresh "Hc" in
  assert (0 < length (got d))%nat as Hlen by lia; destruct (byte_at_in (got d) 0 Hlen) as [c Hc]; rewrite Hc; cbn [obind]; pose proof (ord_range c).

Ltac have_size d := let Hlen := fresh "Hlen" in let n := fresh "n" in let Hn := fresh "Hn" in let E := fresh "E" in
  assert (8 <= length (got d))%nat as Hlen by lia; destruct (get_uint64_in (got d) Hlen) as (n & E & Hn); rewrite E; cbn [obind].

(** The check of the limit. *)
Lemma limit_check n d : sound d -> (0 <=? maxmsgsize d) && (maxmsgsize d <? n) = false -> 0 <= limit -> n <= limit.
Proof. intros Hd E Hl. rewrite (sound_limit d Hd) in E. rewrite (proj2 (Z.leb_le 0 limit) Hl) in E. cbn in E. by apply Z.ltb_ge in E. Qed.

Lemma sound_v0_flags d b : sound d -> dnext d = Some flags_ready ->
  sound (with_in_progress (Z.lor (ip_flags d) (Z.land b more)) (ip_size d) d).
Proof.
  intros [Hm HP Hstep Hsize [Hf Hg]] Hs. split; cbn; try done.
  split; [|done]. apply is_flag_lor; [done|apply is_flag_land].
Qed.

Lemma sound_v1_flags d b : sound d -> dnext d = Some flags_ready -> sound (with_msg_flags (if negb (Z.land b more_flag =? 0) then Z.lor 0 more else 0) d).
Proof.
  intros [Hm HP Hstep Hsize [Hf Hg]] Hs. split; cbn; try done. split; [done|]. destruct (negb _); [by right|by left].
Qed.

Lemma v1_read_body_fine s d : s <> body_ready -> dnext d = Some s -> sound d -> fine s (Ok (true, v1_read_body d)).
Proof.
  intros Hb Hs [Hm HP Hstep Hsize [Hf Hg]]. apply body_fine; [done|]. split; cbn; try done.
  split; [by apply is_flag_lor|done].
Qed.

Lemma run_body_ready_fine v d : sound d -> dnext d = Some body_ready -> to_read d = 0 -> fine body_ready (run_body_ready v d).
Proof.
  intros Hd Hs Hr. pose proof Hd as [Hm HP Hstep Hsize Hflags]. destruct (Hstep body_ready Hs) as [_ He]. cbn in He.
  unfold run_body_ready. pose proof (P_push (sink d) (mkMsg (ip_flags d) (got d)) HP) as HP'.
  destruct (push_msg _ _) as [[] s'] eqn:E; cbn in HP'.
  all: assert (Hd' : sound (with_sink s' d)) by (split; cbn; try done; apply HP'; split; [cbn; unfold size; cbn; intros; lia|apply Hflags]).
  - assert (Hd2 : forall n x, 0 <= n -> n = expected x (with_in_progress 0 0 (with_sink s' d)) -> sound (read_next n x (with_in_progress 0 0 (with_sink s' d)))).
    { intros n x Hn Hx. destruct Hd' as [? ? ? ? [? ?]]. split; cbn; try done; [|by split; [left|]]. intros y [= <-]. subst n. destruct x; cbn in *; lia. }
    destruct v; (split; [by apply Hd2|split; [by eexists|by left]]).
  - split; [done|]. right. cbn. done.
  - by apply error_fine.
Qed.

Lemma run_dnext_fine v d s : sound d -> dnext d = Some s -> to_read d = 0 -> fine s (run_dnext available v d).
Proof.
  intros Hd Hs Hr. destruct (sound_step d Hd s Hs) as [_ Hlen]. rewrite Hr, Z.add_0_r in Hlen.
  unfold run_dnext. rewrite Hs. destruct s; cbn [expected] in Hlen; [| | |by destruct v; apply run_body_ready_fine];
    destruct v.
  - unfold v0_one_byte_size_ready. have_byte d. destruct (Z.eqb_spec (ord c) 255); [apply read_fine; done|].
    destruct (Z.eqb_spec (ord c) 0); [by apply error_fine|].
    destruct ((0 <=? _) && _) eqn:El; [split; [by apply sound_no_progress|by left]|].
    apply allocate_fine; try done; [lia|by apply (limit_check _ d)|]. intros d' Hd' _. by apply read_fine.
  - unfold v1_one_byte_size_ready. have_byte d. destruct ((0 <=? _) && _) eqn:El; [by apply error_fine|].
    apply allocate_fine; try done; [lia|by apply (limit_check _ d)|]. intros d' Hd' Hs'. by apply (v1_read_body_fine one_byte_size_ready).
  - unfold v0_eight_byte_size_ready. have_size d. destruct (Z.eqb_spec n 0); [by apply error_fine|].
    destruct ((0 <=? _) && _) eqn:El; [by apply error_fine|].
    apply allocate_fine; try done; [lia|by apply (limit_check _ d)|]. intros d' Hd' _. by apply read_fine.
  - unfold v1_eight_byte_size_ready. have_size d. destruct ((0 <=? _) && _) eqn:El; [by apply error_fine|].
    apply allocate_fine; try done; [by apply (limit_check _ d)|]. intros d' Hd' Hs'. by apply (v1_read_body_fine eight_byte_size_ready).
  - unfold v0_flags_ready. have_byte d. apply body_fine; [done|by apply sound_v0_flags].
  - unfold v1_flags_ready. have_byte d. pose proof (sound_v1_flags d (ord c) Hd Hs) as Hd'.
    destruct (negb (Z.land (ord c) large_flag =? 0)); by apply read_fine.
Qed.

(** ** [settle] *)

Lemma settle_reading f v d : to_read d <> 0 -> settle available f v d = Ok (true, d).
Proof. intros Hd. destruct f; cbn [settle]; by rewrite (proj2 (Z.eqb_neq _ _) Hd). Qed.

Definition settled (r : outcome (bool * decoder S)) : Prop :=
  match r with
  | Ok (true, d') => sound d' /\ waits d'
  | Ok (false, d') => sound d' /\ stuck d'
  | OutOfFuel => False
  | Aborted w => w = "heap overflow"%string /\ limit < 0
  end.

Lemma settle_settled v d : sound d -> is_Some (dnext d) -> settled (settle available settle_fuel v d).
Proof.
  (* after a step, a read of no bytes only before a body *)
  assert (Hstep : forall f d s, sound d -> dnext d = Some s ->
    (forall d', sound d' -> is_Some (dnext d') -> 0 < to_read d' \/ s <> body_ready /\ dnext d' = Some body_ready ->
      settled (settle available f v d')) -> settled (settle available (Datatypes.S f) v d)).
  { intros f d0 s Hd Hs Hf. destruct (sound_step d0 Hd s Hs) as [Hr _]. cbn [settle].
    destruct (Z.eqb_spec (to_read d0) 0) as [E|E]; cbn [negb]; [|split; [done|split; [by eexists|lia]]].
    pose proof (run_dnext_fine v d0 s Hd Hs E) as Hfine. destruct (run_dnext available v d0) as [[[] d']| |]; cbn; try done.
    by apply Hf; apply Hfine. }
  assert (Hwaits : forall f d, sound d -> is_Some (dnext d) -> 0 < to_read d -> settled (settle available f v d)).
  { intros f d0 Hd Hs Hr. rewrite settle_reading by lia. done. }
  intros Hd [s Hs]. apply (Hstep 2%nat d s Hd Hs). intros d1 Hd1 H1 [Hr1|[_ Hs1]]; [by apply Hwaits|].
  apply (Hstep 1%nat d1 body_ready Hd1 Hs1). intros d2 Hd2 H2 [Hr2|[Hne _]]; [by apply Hwaits|done].
Qed.

(** ** One byte at a time *)

Fixpoint by_bytes (v : version) (n : Z) (data : bytes) (d : decoder S) : outcome (Z * decoder S) :=
  match data with
  | [] => Ok (n, d)
  | c :: data' =>
      let! (go, d) := settle available settle_fuel v (copy_in [c] d) in
      if go then by_bytes v (n + 1) data' d else Ok (stopped (n + 1) d, d)
  end.

Definition byte_machine (v : version) (data : bytes) (d : decoder S) : outcome (Z * decoder S) :=
  match dnext d with
  | None => Ok (-1, d)
  | Some _ =>
      let! (go, d) := settle available settle_fuel v d in
      if go then by_bytes v 0 data d else Ok (stopped 0 d, d)
  end.

Lemma sound_copy_in data d : sound d -> Z.of_nat (length data) <= to_read d -> sound (copy_in data d).
Proof.
  intros [Hm HP Hstep Hsize Hflags] Hle. split; cbn; try done. intros s Hs. destruct (Hstep s Hs) as [? He].
  rewrite length_app. split; [lia|]. replace (expected s (copy_in data d)) with (expected s d) by (by destruct s). lia.
Qed.

Lemma copy_in_app a b d : copy_in b (copy_in a d) = copy_in (a ++ b) d.
Proof. unfold copy_in. cbn. rewrite app_assoc, length_app. f_equal. lia. Qed.

Lemma copy_in_nil d : copy_in [] d = d.
Proof. destruct d. unfold copy_in. cbn. by rewrite app_nil_r, Z.sub_0_r. Qed.

Lemma settle_waits v d : waits d -> settle available settle_fuel v d = Ok (true, d).
Proof. intros [_ Hr]. apply settle_reading. lia. Qed.

(** A block that fits is taken byte by byte without a turn of the machine before its end. *)
Lemma by_bytes_block v n block rest d : waits d -> block <> [] -> Z.of_nat (length block) <= to_read d ->
  by_bytes v n (block ++ rest) d =
    let! (go, d') := settle available settle_fuel v (copy_in block d) in
    let n' := n + Z.of_nat (length block) in
    if go then by_bytes v n' rest d' else Ok (stopped n' d', d').
Proof.
  revert n d. induction block as [|c block IH]; intros n d Hw Hne Hle; [done|].
  cbn [app by_bytes length]. destruct block as [|c' block]; [done|].
  assert (Hw' : waits (copy_in [c] d)) by (split; [apply Hw|cbn in *; lia]).
  rewrite (settle_waits v _ Hw'). cbn [obind]. rewrite IH; [|done|done|cbn in *; lia].
  rewrite copy_in_app. cbn [app]. destruct (settle _ _ _ _) as [[[] d']| |]; cbn [obind]; try done; cbn zeta;
    by replace (n + 1 + Z.of_nat (length (c' :: block))) with (n + Z.of_nat (Datatypes.S (length (c' :: block)))) by lia.
Qed.

Lemma process_loop_by_bytes v fuel n data d : sound d -> waits d -> (length data < fuel)%nat ->
  process_loop available fuel v n data d = by_bytes v n data d.
Proof.
  revert n data d. induction fuel as [|fuel IH]; intros n data d Hd Hw Hf; [lia|].
  cbn [process_loop]. rewrite (settle_waits v d Hw). cbn [obind negb].
  destruct data as [|c data]; [done|]. set (k := Nat.min _ _).
  assert (Hk : (0 < k <= length (c :: data))%nat /\ Z.of_nat k <= to_read d) by (destruct Hw as [_ Hr]; unfold k; cbn [length]; lia).
  destruct Hk as [Hk Hkr]. clearbody k. set (block := take k (c :: data)). set (rest := drop k (c :: data)).
  assert (Hb : length block = k) by (unfold block; rewrite length_take; lia).
  assert (Hd' : sound (copy_in block d)) by (apply sound_copy_in; [done|lia]).
  replace (by_bytes v n (c :: data) d) with (by_bytes v n (block ++ rest) d) by (unfold block, rest; by rewrite take_drop).
  rewrite by_bytes_block; [|done|intros E; rewrite E in Hb; cbn in Hb; lia|lia].
  rewrite Hb. destruct fuel as [|fuel]; [cbn [length] in Hf; lia|].
  pose proof (settle_settled v (copy_in block d) Hd' (proj1 Hw)) as Hs.
  destruct (settle _ _ _ (copy_in block d)) as [[[] d']| |] eqn:Es; cbn [obind]; cbn zeta.
  - destruct Hs as [Hs Hs']. assert (Hrest : (length rest < Datatypes.S fuel)%nat) by (unfold rest; rewrite length_drop; lia).
    rewrite <- (IH _ rest d' Hs Hs' Hrest). cbn [process_loop]. by rewrite Es, (settle_waits v d' Hs').
  - cbn [process_loop]. by rewrite Es.
  - done.
  - cbn [process_loop]. by rewrite Es.
Qed.

(** A buffer that the caller filled in place is not treated differently. *)
Lemma process_in_place v data d : sound d -> waits d -> Z.of_nat (length data) <= to_read d ->
  process_buffer available v true data d = by_bytes v 0 data d.
Proof.
  intros Hd Hw Hle. unfold process_buffer. destruct Hw as [[s Hs] Hr]. rewrite Hs. unfold assertion.
  rewrite (proj2 (Z.leb_le _ _) Hle). cbn [obind].
  assert (Hw : waits d) by (split; [by eexists|done]).
  destruct data as [|c data]; [rewrite copy_in_nil, (settle_waits v d Hw); done|].
  replace (by_bytes v 0 (c :: data) d) with (by_bytes v 0 ((c :: data) ++ []) d) by (by rewrite app_nil_r).
  rewrite by_bytes_block by done.
  destruct (settle _ _ _ _) as [[[] d']| |]; done.
Qed.

Lemma process_copied v data d : sound d -> process_buffer available v false data d = byte_machine v data d.
Proof.
  intros Hd. unfold process_buffer, byte_machine. destruct (dnext d) as [s|] eqn:Hs; [|done].
  pose proof (settle_settled v d Hd (ltac:(by eexists))) as Hst. destruct (settle _ _ _ d) as [[[] d']| |] eqn:Es; cbn [obind process_loop].
  - rewrite Es. cbn [obind negb]. destruct Hst as [Hd' Hw'].
    rewrite <- (process_loop_by_bytes v (Datatypes.S (length data)) 0 data d' Hd' Hw') by lia.
    cbn [process_loop]. by rewrite (settle_waits v d' Hw').
  - by rewrite Es.
  - by rewrite Es.
  - by rewrite Es.
Qed.

(** ** What one call does *)

(** [k] of [n] bytes were processed; or an error is reported. *)
Definition processed (n : Z) (r : outcome (Z * decoder S)) : Prop :=
  match r with
  | Ok (k, d') => sound d' /\ (k = n /\ waits d' \/ stuck d' /\ (k = -1 <-> dnext d' = None) /\ (k = -1 \/ 0 <= k <= n))
  | OutOfFuel => False
  | Aborted w => w = "heap overflow"%string /\ limit < 0
  end.

Lemma stopped_processed k n d : sound d -> stuck d -> 0 <= k <= n -> processed n (Ok (stopped k d, d)).
Proof.
  intros Hd Hs Hk. split; [done|]. right. unfold stopped. split; [done|].
  destruct (dnext d); (split; [split; (done || lia)|by (right + left)]).
Qed.

Lemma by_bytes_processed v data : forall n d, sound d -> waits d -> 0 <= n ->
  processed (n + Z.of_nat (length data)) (by_bytes v n data d).
Proof.
  induction data as [|c data IH]; intros n d Hd Hw Hn; cbn [by_bytes length].
  { split; [done|]. left. split; [lia|done]. }
  pose proof (sound_copy_in [c] d Hd (ltac:(destruct Hw; cbn; lia))) as Hd1.
  pose proof (settle_settled v _ Hd1 (proj1 Hw)) as Hs.
  destruct (settle _ _ _ _) as [[[] d']| |]; cbn [obind]; try done; destruct Hs as [Hd' Hs].
  - replace (n + Z.of_nat (Datatypes.S (length data))) with (n + 1 + Z.of_nat (length data)) by lia. apply IH; (done || lia).
  - apply stopped_processed; (done || lia).
Qed.

Lemma byte_machine_processed v data d : sound d -> processed (Z.of_nat (length data)) (byte_machine v data d).
Proof.
  intros Hd. unfold byte_machine. destruct (dnext d) as [s|] eqn:E.
  - pose proof (settle_settled v d Hd (ltac:(by eexists))) as Hs.
    destruct (settle _ _ _ d) as [[[] d']| |]; cbn [obind]; try done; destruct Hs as [Hd' Hs].
    + by apply (by_bytes_processed v data 0).
    + apply stopped_processed; (done || lia).
  - split; [done|]. right. split; [by left|]. split; [done|by left].
Qed.

(** ** An engine reads into the buffer it was given *)

Fixpoint engine (v : version) (bufsize : Z) (reads : list bytes) (d : decoder S) : outcome (list Z * decoder S) :=
  match reads with
  | [] => Ok ([], d)
  | data :: reads' =>
      let (in_place, n) := get_buffer bufsize d in
      let! (k, d) := process_buffer available v in_place (take (Z.to_nat n) data) d in
      let! (ks, d) := engine v bufsize reads' d in
      Ok (k :: ks, d)
  end.

Lemma process_processed v bufsize data d : 1 <= bufsize -> sound d ->
  let (in_place, n) := get_buffer bufsize d in
  processed (Z.of_nat (length (take (Z.to_nat n) data))) (process_buffer available v in_place (take (Z.to_nat n) data) d).
Proof.
  intros Hb Hd. unfold get_buffer. destruct (Z.leb_spec bufsize (to_read d)) as [Hle|Hlt].
  - destruct (dnext d) as [s|] eqn:Hs.
    + assert (Hw : waits d) by (split; [by eexists|lia]). rewrite (process_in_place v _ d Hd Hw); [|rewrite length_take; lia].
      by apply (by_bytes_processed v _ 0).
    + unfold process_buffer. rewrite Hs. split; [done|]. right. split; [by left|]. split; [done|by left].
  - rewrite (process_copied v _ d Hd). by apply byte_machine_processed.
Qed.

Definition read_ok (data : bytes) (k : Z) : Prop := k = -1 \/ 0 <= k <= Z.of_nat (length data).

Lemma engine_processed v bufsize reads : forall d, 1 <= bufsize -> sound d ->
  match engine v bufsize reads d with
  | Ok (ks, d') => sound d' /\ Forall2 read_ok reads ks
  | OutOfFuel => False
  | Aborted w => w = "heap overflow"%string /\ limit < 0
  end.
Proof.
  induction reads as [|data reads IH]; intros d Hb Hd; cbn [engine]; [by split|].
  pose proof (process_processed v bufsize data d Hb Hd) as Hp. destruct (get_buffer bufsize d) as [in_place n].
  destruct (process_buffer _ _ _ _ _) as [[k d1]| |]; cbn [obind]; try done. destruct Hp as [Hd1 Hk].
  specialize (IH d1 Hb Hd1). destruct (engine _ _ _ d1) as [[ks d2]| |]; cbn [obind]; try done. destruct IH as [Hd2 IH].
  split; [done|]. constructor; [|done]. unfold read_ok. rewrite length_take in Hk.
  destruct Hk as [[-> _]|(_ & _ & [->|Hk])]; [right; lia|by left|right; lia].
Qed.
End Decoder.

(** ** The properties *)

(** A receiver that keeps the messages in order. *)
Definition keep_all : MsgSink (list msg) := fun ms m => (Pushed, ms ++ [m]).



(** C27: In every state that an engine can bring a decoder to, whatever the limit,
    [process_buffer] does what the machine does that takes one byte at a time; so
    does it with a buffer that was filled in place. *)
Theorem process_buffer_is_byte_machine {S} `{MsgSink S} available v limit (s : S) bufsize reads ks d data :
  limit < 2 ^ 63 -> 1 <= bufsize -> engine available v bufsize reads (new_decoder v limit s) = Ok (ks, d) ->
  process_buffer available v false data d = byte_machine available v data d
  /\ (is_Some (dnext d) -> 0 < to_read d -> Z.of_nat (length data) <= to_read d ->
      process_buffer available v true data d = byte_machine available v data d).
Proof.
  intros Hl Hb He. set (P := fun _ : S => True). assert (HP : forall s m, P s -> respected limit m -> P (push_msg s m).2) by done.
  pose proof (engine_processed available limit P Hl HP v bufsize reads _ Hb (proj1 (sound_new limit P v s I))) as Hd.
  rewrite He in Hd. destruct Hd as [Hd _]. split; [by apply (process_copied available limit P)|].
  intros Hs Hr Hle. rewrite (process_in_place available limit P) by done. unfold byte_machine.
  rewrite (settle_waits available v d (conj Hs Hr)). destruct Hs as [x ->]. done.
Qed.

Lemma process_buffer_is_byte_machine_witness :
  let d := mkDecoder (Some body_ready) [] 6 0 6 0 [mkMsg 0 (bs "a")] (-1) in
  engine (H := keep_all) (fun _ => true) V1 8 [[chr 0; chr 1; "a"%char]; [chr 0; chr 6]] (new_decoder V1 (-1) []) = Ok ([3; 2], d)
  /\ process_buffer (H := keep_all) (fun _ => true) V1 false (bs "bcdefg") d
    = byte_machine (H := keep_all) (fun _ => true) V1 (bs "bcdefg") d
  /\ (is_Some (dnext d) -> 0 < to_read d -> Z.of_nat (length (bs "bcdefg")) <= to_read d ->
      process_buffer (H := keep_all) (fun _ => true) V1 true (bs "bcdefg") d
      = byte_machine (H := keep_all) (fun _ => true) V1 (bs "bcdefg") d).
Proof.
  intros d. assert (E : engine (H := keep_all) (fun _ => true) V1 8 [[chr 0; chr 1; "a"%char]; [chr 0; chr 6]] (new_decoder V1 (-1) []) = Ok ([3; 2], d)) by reflexivity.
  split; [exact E|]. apply (@process_buffer_is_byte_machine (list msg) keep_all (fun _ => true) V1 (-1) [] 8 _ [3; 2] d _ ltac:(lia) ltac:(lia) E).
Defined.

(** The header of a large message. *)
Definition announce (v : version) (n : Z) : bytes :=
  match v with V0 => chr 0xff :: put_uint64 (n + 1) | V1 => chr large_flag :: put_uint64 n end.

Definition at_large_size {S} (v : version) (limit : Z) (s : S) : decoder S :=
  mkDecoder (Some eight_byte_size_ready) [] 8 0 0 0 s limit.

Lemma settle_large {S} `{MsgSink S} available v limit (s : S) c : c = head (announce v 0) ->
  settle available settle_fuel v (copy_in (option_list c) (new_decoder v limit s)) = Ok (true, at_large_size v limit s).
Proof. intros ->. destruct v; done. Qed.

Lemma allocates_wraps available n : 2 ^ 64 - sizeof_content <= n < 2 ^ 64 ->
  (forall k, 0 <= k < sizeof_content -> available k = true) -> allocates available n = Aborted "heap overflow".
Proof.
  unfold sizeof_content. intros Hn Ha. rewrite allocates_malloc. unfold max_vsm_size, malloc_content, sizeof_content, to_uint64.
  replace (40 + n) with (40 + n - 2 ^ 64 + 1 * 18446744073709551616) by lia. rewrite Z_mod_plus_full, Z.mod_small by lia.
  destruct (Z.leb_spec n 29); [lia|]. rewrite Ha by lia. cbn [negb]. unfold assertion.
  destruct (Z.leb_spec 40 (40 + n - 2 ^ 64)); [lia|done].
Qed.

(** Without a limit, as by default, a peer that announces a message of 2^64 - 40
    bytes or more makes [init_size] allocate a block whose size wrapped around: the
    header of the content is written past its end. *)
Theorem announced_size_wraps {S} `{MsgSink S} available v limit (s : S) n :
  limit < 0 -> 2 ^ 64 - sizeof_content <= n < 2 ^ 64 - 1 -> (forall k, 0 <= k < sizeof_content -> available k = true) ->
  process_buffer available v false (announce v n) (new_decoder v limit s) = Aborted "heap overflow".
Proof.
  intros Hl Hn Ha.
  rewrite (process_copied available limit (fun _ => True)); [|lia|done|by apply sound_new].
  unfold byte_machine. cbn [new_decoder dnext]. rewrite settle_reading by done. cbn [obind].
  pose proof (settle_large available v limit s (head (announce v 0)) eq_refl) as H1.
  assert (Hinit := allocates_wraps available n ltac:(lia) Ha).
  set (m := match v with V0 => n + 1 | V1 => n end).
  replace (announce v n) with (option_list (head (announce v 0)) ++ put_uint64 m ++ []) by (rewrite app_nil_r; by destruct v).
  rewrite by_bytes_block; [|by split; [eexists|]|by destruct v|by destruct v]. rewrite H1. cbn [obind]. cbn zeta.
  rewrite by_bytes_block; [|by split; [eexists|]|done|done].
  cbn [settle settle_fuel copy_in at_large_size to_read]. change (8 - _ =? 0) with true. cbn [negb].
  unfold run_dnext. cbn [copy_in at_large_size dnext].
  assert (Hsize : get_uint64 (got (copy_in (put_uint64 m) (at_large_size v limit s))) = Ok m).
  { pose proof (get_put_uint64 m [] ltac:(unfold m; unfold sizeof_content in *; destruct v; lia)) as E. by rewrite app_nil_r in E. }
  assert (Hlimit : 0 <=? maxmsgsize (copy_in (put_uint64 m) (at_large_size v limit s)) = false) by (cbn; lia).
  generalize dependent (copy_in (put_uint64 m) (at_large_size v limit s)). intros d Hsize Hlimit.
  unfold m in *; destruct v; unfold v0_eight_byte_size_ready, v1_eight_byte_size_ready, allocate; rewrite Hsize; cbn [obind];
    rewrite Hlimit; cbn [andb].
  - unfold sizeof_content in *. destruct (Z.eqb_spec (n + 1) 0); [lia|]. replace (n + 1 - 1) with n by lia. by rewrite Hinit.
  - by rewrite Hinit.
Qed.

Lemma announced_size_wraps_witness :
  process_buffer (H := keep_all) (fun _ => true) V1 false (announce V1 (2 ^ 64 - 2)) (new_decoder V1 (-1) []) = Aborted "heap overflow".
Proof. apply (@announced_size_wraps (list msg) keep_all); [lia|unfold sizeof_content; lia|done]. Defined.
