(* ===== verification/CodecTheorems.v ===== *)
(** * What the encoders write, the decoders read

    A message on the wire brings the decoder back to its first state and its
    receiver the message; how the bytes were cut into pieces does not matter. *)

From stdpp Require Import tactics.
From S2P Require Import Prelude Wire Msg Encoders Decoders EncoderTheorems DecoderTheorems.

(** What arrives of a message: of its flags only [more]. *)
Definition arrived (m : msg) : msg := mkMsg (Z.land (flags m) more) (body m).

Lemma has_more_flag m : (if has_more m then 1 else 0) = Z.land (flags m) more.
Proof.
  unfold has_more. destruct (is_flag_land (flags m)) as [->| ->]; done.
Qed.

Section Codec.
Context {S : Type} `{MsgSink S} (available : Z -> bool) (limit : Z).
Implicit Types (d : decoder S) (s : S).

Hypothesis limit_int64 : limit < 2 ^ 63.
Hypothesis accepting : forall s m, (push_msg s m).1 = Pushed.

Definition received s (ms : list msg) : S := fold_left (fun s m => (push_msg s m).2) ms s.

(** The message is within the limit and there is memory for it. *)
Definition fits (m : msg) : Prop :=
  sizeof_content + size m < 2 ^ 64 /\ (0 <= limit -> size m <= limit) /\ available (sizeof_content + size m) = true.

(** ** One field after the other *)

Definition settle_then (f : nat) (v : version) (n : Z) (data : bytes) (d : decoder S) : outcome (Z * decoder S) :=
  let! (go, d') := settle available f v d in
  if go then by_bytes available v n data d' else Ok (stopped n d', d').

Lemma settle_then_step f v n data d d1 : to_read d = 0 -> run_dnext available v d = Ok (true, d1) ->
  settle_then (Datatypes.S f) v n data d = settle_then f v n data d1.
Proof. intros Hr E. unfold settle_then. cbn [settle]. rewrite Hr. cbn [Z.eqb negb]. by rewrite E. Qed.

Lemma settle_then_waits f v n data d : waits d -> settle_then f v n data d = by_bytes available v n data d.
Proof. intros [_ Hr]. unfold settle_then. by rewrite settle_reading by lia. Qed.

(** A field that is completed by its bytes, and the step after it. *)
Lemma field v n block rest d d1 : waits d -> Z.of_nat (length block) = to_read d ->
  run_dnext available v (copy_in block d) = Ok (true, d1) ->
  by_bytes available v n (block ++ rest) d = settle_then 2 v (n + Z.of_nat (length block)) rest d1.
Proof.
  intros Hw Hl E. rewrite by_bytes_block; [|done|intros ->; destruct Hw; cbn in *; lia|lia].
  rewrite <- (settle_then_step 2 v _ rest (copy_in block d) d1); [done|cbn; lia|done].
Qed.

Lemma field1 v n c rest d d1 : waits d -> to_read d = 1 -> run_dnext available v (copy_in [c] d) = Ok (true, d1) ->
  by_bytes available v n (c :: rest) d = settle_then 2 v (n + 1) rest d1.
Proof. intros Hw Hr. by apply (field v n [c] rest d d1). Qed.

(** Between two messages. *)
Definition at_start (v : version) (mf : Z) s : decoder S :=
  mkDecoder (Some (match v with V0 => one_byte_size_ready | V1 => flags_ready end)) [] 1 0 0 mf s limit.

Lemma at_start_waits v mf s : waits (at_start v mf s).
Proof. split; [by eexists|done]. Qed.

Lemma allocates_fits m : fits m -> allocates available (size m) = Ok true.
Proof.
  intros (Hs & _ & Ha). rewrite allocates_malloc. unfold malloc_content. destruct (size m <=? max_vsm_size); [done|].
  assert (0 <= size m) by (unfold size; lia). unfold sizeof_content in *.
  rewrite to_uint64_id, Ha by lia. cbn [negb]. unfold assertion. destruct (Z.leb_spec 40 (40 + size m)); [done|lia].
Qed.

Lemma limit_fits m : fits m -> (0 <=? limit) && (limit <? size m) = false.
Proof. intros (_ & Hl & _). destruct (Z.leb_spec 0 limit); cbn; [|done]. apply Z.ltb_ge. auto. Qed.

(** ** The body *)

Definition at_body mf s m : decoder S :=
  mkDecoder (Some body_ready) [] (size m) (Z.land (flags m) more) (size m) mf s limit.

Lemma body_decoded f v n mf s m rest :
  settle_then (Datatypes.S f) v n (body m ++ rest) (at_body mf s m)
  = by_bytes available v (n + size m) rest (at_start v mf (push_msg s (arrived m)).2).
Proof.
  assert (Hrun : run_dnext available v (copy_in (body m) (at_body mf s m)) = Ok (true, at_start v mf (push_msg s (arrived m)).2)).
  { transitivity (run_body_ready v (copy_in (body m) (at_body mf s m))); [by destruct v|].
    unfold run_body_ready. change (push_msg _ _) with (push_msg s (arrived m)). pose proof (accepting s (arrived m)) as Ha.
    destruct (push_msg s (arrived m)) as [a s']. cbn in Ha. subst a. by destruct v. }
  destruct (body m) as [|c b] eqn:Eb.
  - assert (size m = 0) as Es by (unfold size; by rewrite Eb). rewrite copy_in_nil in Hrun.
    cbn [app]. rewrite (settle_then_step f v n rest (at_body mf s m) _ Es Hrun), settle_then_waits by apply at_start_waits. by rewrite Es, Z.add_0_r.
  - assert (Z.of_nat (length (c :: b)) = size m) as Es by (unfold size; by rewrite Eb).
    assert (Hw : waits (at_body mf s m)) by (split; [by eexists|cbn [at_body to_read length] in *; lia]).
    rewrite settle_then_waits by done. rewrite (field v n (c :: b) rest (at_body mf s m) _ Hw Es Hrun).
    rewrite settle_then_waits by apply at_start_waits. by rewrite Es.
Qed.

(** ** The header *)

Lemma allocate_fits m d k : fits m -> allocate available (size m) d k = Ok (true, k (with_in_progress 0 (size m) d)).
Proof. intros Hm. unfold allocate. by rewrite allocates_fits. Qed.

Lemma flag_byte m : ord (chr (Z.land (flags m) more)) = Z.land (flags m) more.
Proof. apply ord_chr. destruct (is_flag_land (flags m)) as [->| ->]; lia. Qed.

Lemma get_size b n : b = put_uint64 n -> 0 <= n < 2 ^ 64 -> get_uint64 b = Ok n.
Proof. intros -> Hn. rewrite <- (app_nil_r (put_uint64 n)). by apply get_put_uint64. Qed.

Definition waiting x n fl sz mf s : decoder S := mkDecoder (Some x) [] n fl sz mf s limit.

Lemma waiting_waits x n fl sz mf s : 0 < n -> waits (waiting x n fl sz mf s).
Proof. split; [by eexists|done]. Qed.

Ltac first_byte c := change (byte_at _ 0) with (Ok (ord c)); cbn [obind].

(** The fields of the old framing: the flags, after the size. *)
Lemma v0_flags_decoded n mf s m rest :
  by_bytes available V0 n (chr (Z.land (flags m) more) :: body m ++ rest) (waiting flags_ready 1 0 (size m) mf s)
  = by_bytes available V0 (n + 1 + size m) rest (at_start V0 mf (push_msg s (arrived m)).2).
Proof.
  rewrite (field1 V0 n _ (body m ++ rest) _ (at_body mf s m)); [by apply body_decoded|by apply waiting_waits|done|].
  change (run_dnext _ _ _) with (v0_flags_ready (copy_in [chr (Z.land (flags m) more)] (waiting flags_ready 1 0 (size m) mf s))).
  unfold v0_flags_ready. first_byte (chr (Z.land (flags m) more)).
  rewrite flag_byte. unfold at_body. cbn [ip_flags copy_in waiting Z.lor]. rewrite <- Z.land_assoc. done.
Qed.

Lemma wire_length v m : Z.of_nat (length (wire v m)) = Z.of_nat (length (header v m)) + size m.
Proof. unfold wire, size. rewrite length_app. lia. Qed.

Lemma v0_decoded n mf s m rest : fits m ->
  by_bytes available V0 n (wire V0 m ++ rest) (at_start V0 mf s)
  = by_bytes available V0 (n + Z.of_nat (length (wire V0 m))) rest (at_start V0 mf (push_msg s (arrived m)).2).
Proof.
  intros Hm. pose proof Hm as (Hs & _ & _). assert (Hs0 : 0 <= size m) by (unfold size; lia). unfold sizeof_content in Hs.
  rewrite wire_length. unfold wire. rewrite <- app_assoc. cbn [header]. cbn zeta. rewrite to_uint64_id by lia.
  destruct (Z.ltb_spec (size m + 1) 255) as [Hlt|Hge].
  - cbn [app length].
    rewrite (field1 V0 n _ _ _ (waiting flags_ready 1 0 (size m) mf s)); [|apply at_start_waits|done|].
    + rewrite settle_then_waits by by apply waiting_waits. rewrite v0_flags_decoded. f_equal. lia.
    + change (run_dnext _ _ _) with (v0_one_byte_size_ready available (copy_in [chr (size m + 1)] (at_start V0 mf s))).
      unfold v0_one_byte_size_ready. first_byte (chr (size m + 1)). rewrite ord_chr by lia.
      destruct (Z.eqb_spec (size m + 1) 255); [lia|]. destruct (Z.eqb_spec (size m + 1) 0); [lia|].
      replace (size m + 1 - 1) with (size m) by lia. change (maxmsgsize _) with limit. rewrite limit_fits by done.
      by rewrite allocate_fits.
  - change ((chr 255 :: put_uint64 (size m + 1) ++ [chr (Z.land (flags m) more)]) ++ body m ++ rest)
      with (chr 255 :: put_uint64 (size m + 1) ++ chr (Z.land (flags m) more) :: body m ++ rest).
    rewrite (field1 V0 n (chr 255) _ _ (waiting eight_byte_size_ready 8 0 0 mf s)); [|apply at_start_waits|done|done].
    rewrite settle_then_waits by by apply waiting_waits.
    rewrite (field V0 _ (put_uint64 (size m + 1)) _ _ (waiting flags_ready 1 0 (size m) mf s)); [|by apply waiting_waits|done|].
    + rewrite settle_then_waits by by apply waiting_waits. rewrite v0_flags_decoded. f_equal. cbn [length app put_uint64]. lia.
    + change (run_dnext _ _ _) with (v0_eight_byte_size_ready available (copy_in (put_uint64 (size m + 1)) (waiting eight_byte_size_ready 8 0 0 mf s))).
      unfold v0_eight_byte_size_ready. rewrite (get_size _ (size m + 1)) by (done || lia). cbn [obind].
      destruct (Z.eqb_spec (size m + 1) 0); [lia|].
      replace (size m + 1 - 1) with (size m) by lia. change (maxmsgsize _) with limit. rewrite limit_fits by done.
      by rewrite allocate_fits.
Qed.

(** The byte of flags of the new framing. *)
Lemma v1_flag_bits (a b : bool) : let f := (if b then Z.lor (if a then Z.lor 0 more_flag else 0) large_flag else if a then Z.lor 0 more_flag else 0) in
  0 <= f < 256 /\ (if negb (Z.land f more_flag =? 0) then Z.lor 0 more else 0) = (if a then 1 else 0) /\ negb (Z.land f large_flag =? 0) = b.
Proof. destruct a, b; vm_compute; split_and!; congruence. Qed.

Lemma v1_decoded n mf s m rest : fits m ->
  by_bytes available V1 n (wire V1 m ++ rest) (at_start V1 mf s)
  = by_bytes available V1 (n + Z.of_nat (length (wire V1 m))) rest (at_start V1 (Z.land (flags m) more) (push_msg s (arrived m)).2).
Proof.
  intros Hm. pose proof Hm as (Hs & _ & _). assert (Hs0 : 0 <= size m) by (unfold size; lia). unfold sizeof_content in Hs.
  rewrite wire_length. unfold wire. rewrite <- app_assoc. cbn [header]. cbn zeta.
  destruct (v1_flag_bits (has_more m) (255 <? size m)) as (Hf & Hmore & Hlarge). cbn zeta in *.
  set (f := if 255 <? size m then _ else _) in *. clearbody f. rewrite has_more_flag in Hmore.
  set (x := if 255 <? size m then eight_byte_size_ready else one_byte_size_ready).
  set (k := if 255 <? size m then 8 else 1).
  assert (H1 : forall data, by_bytes available V1 n (chr f :: data) (at_start V1 mf s)
    = by_bytes available V1 (n + 1) data (waiting x k 0 0 (Z.land (flags m) more) s)).
  { intros data. rewrite (field1 V1 n (chr f) data _ (waiting x k 0 0 (Z.land (flags m) more) s)).
    - rewrite settle_then_waits; [done|]. apply waiting_waits. unfold k. destruct (255 <? size m); lia.
    - apply at_start_waits.
    - done.
    - change (run_dnext _ _ _) with (v1_flags_ready (copy_in [chr f] (at_start V1 mf s))).
      unfold v1_flags_ready. first_byte (chr f). rewrite ord_chr, Hmore, Hlarge by done. unfold x, k. by destruct (255 <? size m). }
  unfold x, k in H1. destruct (Z.ltb_spec 255 (size m)) as [Hlt|Hge].
  - change ((chr f :: put_uint64 (size m)) ++ body m ++ rest) with (chr f :: put_uint64 (size m) ++ body m ++ rest). rewrite H1.
    rewrite (field V1 _ (put_uint64 (size m)) _ _ (at_body (Z.land (flags m) more) s m)); [|by apply waiting_waits|done|].
    + rewrite body_decoded. f_equal. cbn [length app put_uint64]. lia.
    + change (run_dnext _ _ _) with (v1_eight_byte_size_ready available (copy_in (put_uint64 (size m)) (waiting eight_byte_size_ready 8 0 0 (Z.land (flags m) more) s))).
      unfold v1_eight_byte_size_ready. rewrite (get_size _ (size m)) by (done || lia). cbn [obind].
      change (maxmsgsize _) with limit. rewrite limit_fits by done. by rewrite allocate_fits.
  - change ([chr f; chr (size m)] ++ body m ++ rest) with (chr f :: chr (size m) :: body m ++ rest). rewrite H1.
    rewrite (field1 V1 _ (chr (size m)) _ _ (at_body (Z.land (flags m) more) s m)); [|by apply waiting_waits|done|].
    + rewrite body_decoded. f_equal. cbn [length]. lia.
    + change (run_dnext _ _ _) with (v1_one_byte_size_ready available (copy_in [chr (size m)] (waiting one_byte_size_ready 1 0 0 (Z.land (flags m) more) s))).
      unfold v1_one_byte_size_ready. first_byte (chr (size m)). rewrite ord_chr by lia.
      change (maxmsgsize _) with limit. rewrite limit_fits by done. by rewrite allocate_fits.
Qed.

(** ** The stream *)

Lemma stream_decoded v ms : Forall fits ms -> forall n mf s rest, exists mf',
  by_bytes available v n (concat (map (wire v) ms) ++ rest) (at_start v mf s)
  = by_bytes available v (n + Z.of_nat (length (concat (map (wire v) ms)))) rest (at_start v mf' (received s (map arrived ms))).
Proof.
  induction 1 as [|m ms Hm _ IH]; intros n mf s rest; [exists mf; cbn; by rewrite Z.add_0_r|].
  cbn [map concat]. rewrite <- app_assoc, length_app, Nat2Z.inj_add, Z.add_assoc.
  destruct v; [rewrite v0_decoded by done|rewrite v1_decoded by done]; apply IH.
Qed.

(** The pieces of a stream: where it does not stop, no piece does. *)
Abbreviation sound' := (sound limit (fun _ : S => True)).

Lemma by_bytes_pieces v a b : forall n d k d2, sound' d -> waits d ->
  by_bytes available v n (a ++ b) d = Ok (k, d2) -> waits d2 ->
  exists d1, sound' d1 /\ waits d1 /\ (forall i, by_bytes available v i a d = Ok (i + Z.of_nat (length a), d1))
    /\ by_bytes available v (n + Z.of_nat (length a)) b d1 = Ok (k, d2).
Proof.
  induction a as [|c a IH]; intros n d k d2 Hd Hw E Hw2.
  { exists d. cbn. rewrite Z.add_0_r. split_and!; try done. intros i. by rewrite Z.add_0_r. }
  cbn [app by_bytes length] in *.
  assert (Hd' : sound' (copy_in [c] d)) by (apply sound_copy_in; [done|destruct Hw; cbn; lia]).
  pose proof (settle_settled available limit (fun _ => True) limit_int64 (fun _ _ _ _ => I) v _ Hd' (proj1 Hw)) as Hs.
  destruct (settle _ _ _ _) as [[[] d']| |]; cbn [obind] in *; try done; destruct Hs as [Hs Hs'].
  - destruct (IH _ d' k d2 Hs Hs' E Hw2) as (d1 & Hd1 & Hw1 & Ha & Hb). exists d1. split_and!; try done.
    + intros i. rewrite Ha. do 2 f_equal. lia.
    + rewrite <- Hb. f_equal. lia.
  - apply Ok_inj, pair_inj in E as [_ ->]. by apply stuck_not_waits in Hs'.
Qed.

Lemma process_all_pieces v chunks : forall n d k d2, sound' d -> waits d ->
  by_bytes available v n (concat chunks) d = Ok (k, d2) -> waits d2 -> process_all available v chunks d = Ok (true, d2).
Proof.
  induction chunks as [|data chunks IH]; intros n d k d2 Hd Hw E Hw2; cbn [concat process_all] in *.
  { cbn in E. apply Ok_inj, pair_inj in E as [_ ->]. done. }
  destruct (by_bytes_pieces v data (concat chunks) n d k d2 Hd Hw E Hw2) as (d1 & Hd1 & Hw1 & Ha & Hb).
  rewrite (process_copied available limit (fun _ => True)) by done. unfold byte_machine.
  rewrite settle_waits by done. destruct Hw as [[x Hx] _]. rewrite Hx. cbn [obind]. rewrite Ha. cbn [obind].
  rewrite Z.add_0_l, Z.eqb_refl. by apply (IH (n + Z.of_nat (length data)) d1 k).
Qed.
End Codec.

(** C10: Both framings are read back. The messages of a source, written with buffers
    of any sizes and received in pieces cut anywhere, arrive at the receiver in
    order, each once, with their bodies and their [more] flags; then the decoder is
    where it was at the beginning. The messages respect the limit, there is memory
    for them, and the receiver takes what it is given. *)
Theorem codec_roundtrip {S} `{MsgSink S} available v limit s ms calls :
  limit < 2 ^ 63 -> (forall s m, (push_msg s m).1 = Pushed) -> Forall (fits available limit) ms ->
  Forall (fun c => 1 <= c.2) calls -> (length (concat (map (wire v) ms)) <= length calls)%nat ->
  exists written e, get_all v calls (new_encoder (Some ms)) = Ok (written, e)
    /\ forall pieces, concat pieces = concat written ->
       exists d, process_all available v pieces (new_decoder v limit s) = Ok (true, d)
         /\ sink d = received s (map arrived ms)
         /\ dnext d = dnext (new_decoder v limit s) /\ got d = [] /\ to_read d = 1.
Proof.
  intros Hl Ha Hfits Hcalls Hlen.
  destruct (get_all_streamed v calls (new_encoder (Some ms)) Hcalls) as (written & e & E & Hw & _ & Hend).
  exists written, e. split; [done|]. intros pieces Hp. rewrite Hend in Hw by done. rewrite app_nil_r in Hw.
  change (pending v (new_encoder (Some ms))) with (concat (map (wire v) ms)) in Hw.
  destruct (stream_decoded available limit Ha v ms Hfits 0 0 s []) as [mf Hd]. rewrite app_nil_r, <- Hw, <- Hp in Hd.
  exists (at_start limit v mf (received s (map arrived ms))). split; [|done].
  destruct (sound_new limit (fun _ => True) v s I) as [Hsound Hwaits].
  by eapply (process_all_pieces available limit Hl v pieces 0); [done..|exact Hd|apply at_start_waits].
Qed.

Lemma codec_roundtrip_witness :
  exists written e, get_all V0 (repeat (true, 3) 20) (new_encoder (Some [mkMsg 1 (bs "abcd"); mkMsg 0 []])) = Ok (written, e)
    /\ forall pieces, concat pieces = concat written ->
       exists d, process_all (H := keep_all) (fun _ => true) V0 pieces (new_decoder V0 100 []) = Ok (true, d)
         /\ sink d = received (H := keep_all) [] (map arrived [mkMsg 1 (bs "abcd"); mkMsg 0 []])
         /\ dnext d = dnext (new_decoder V0 100 ([] : list msg)) /\ got d = [] /\ to_read d = 1.
Proof.
  apply (@codec_roundtrip (list msg) keep_all (fun _ => true) V0 100 []); [lia|done|repeat apply Forall_cons_2; try apply Forall_nil_2; (split; [done|split; [intros _; vm_compute; congruence|done]])
    |apply Forall_forall; intros x Hx; apply list_elem_of_In, repeat_spec in Hx; subst; cbn; lia|vm_compute; lia].
Defined.
