(* ===== verification/Array.v ===== *)
(** * Arrays of items that know their index ([lib/zeromq/array.hpp])

    [array_t] is a vector of pointers; every item holds its index in the array,
    so that it is found and removed in constant time.  The indices are a map from
    items to [int]s next to the vector.  Accesses out of the range of the vector
    are aborts.  The arrays of the program hold pipes, never a null pointer. *)

From stdpp Require Import tactics gmap.
From S2P Require Import Prelude.

(** An item is its address. *)
Abbreviation item := Z (only parsing).

Record array_t := mkArray { items : list item; array_index : gmap item Z }.

Definition new_array : array_t := mkArray [] ∅.

(** Of an item that is in no array: -1. *)
Definition get_array_index (a : array_t) (p : item) : Z := default (-1) (array_index a !! p).

Definition set_array_index (p : item) (index_ : Z) (a : array_t) : array_t :=
  mkArray (items a) (<[p := to_int32 index_]> (array_index a)).

Definition size (a : array_t) : Z := Z.of_nat (length (items a)).

Definition empty (a : array_t) : bool := match items a with [] => true | _ => false end.

(** [items [index_]]. *)
Definition at_index (index_ : Z) (a : array_t) : outcome item :=
  if index_ <? 0 then Aborted "range"
  else match items a !! Z.to_nat index_ with Some p => Ok p | None => Aborted "range" end.

Definition set_item (index_ : Z) (p : item) (a : array_t) : array_t :=
  mkArray (<[Z.to_nat index_ := p]> (items a)) (array_index a).

Definition back (a : array_t) : outcome item :=
  match last (items a) with Some p => Ok p | None => Aborted "range" end.

Definition pop_back (a : array_t) : array_t := mkArray (removelast (items a)) (array_index a).

Definition push_back (p : item) (a : array_t) : array_t :=
  let a := set_array_index p (size a) a in
  mkArray (items a ++ [p]) (array_index a).

Definition erase_index (index_ : Z) (a : array_t) : outcome array_t :=
  let! b := back a in
  let a := set_array_index b index_ a in
  let! _ := at_index index_ a in
  Ok (pop_back (set_item index_ b a)).

(** [size_type] is unsigned. *)
Definition erase (p : item) (a : array_t) : outcome array_t := erase_index (to_uint64 (get_array_index a p)) a.

Definition swap (index1_ index2_ : Z) (a : array_t) : outcome array_t :=
  let! p1 := at_index index1_ a in
  let a := set_array_index p1 index2_ a in
  let! p2 := at_index index2_ a in
  let a := set_array_index p2 index1_ a in
  Ok (set_item index2_ p1 (set_item index1_ p2 a)).

Definition clear (a : array_t) : array_t := mkArray [] (array_index a).

Definition index (a : array_t) (p : item) : Z := to_uint64 (get_array_index a p).

(** ** The stored indices are the positions *)

Record array_ok (a : array_t) : Prop := {
  ok_index i p : items a !! i = Some p -> array_index a !! p = Some (Z.of_nat i);
  ok_size : size a <= INT_MAX
}.

(** [p] is the item at position [i]. *)
Definition holds (a : array_t) (i : Z) (p : item) : Prop := 0 <= i /\ items a !! Z.to_nat i = Some p.

Lemma new_array_ok : array_ok new_array.
Proof. split; [done|]. unfold size, INT_MAX. cbn. lia. Qed.

Lemma holds_range a i p : holds a i p -> 0 <= i < size a.
Proof. intros [Hi Hp]. apply lookup_lt_Some in Hp. unfold size. lia. Qed.

Lemma holds_at a i : 0 <= i < size a -> exists p, holds a i p.
Proof. unfold size, holds. intros Hi. destruct (lookup_lt_is_Some_2 (items a) (Z.to_nat i)) as [p Hp]; [lia|]. exists p. split; [lia|done]. Qed.

Lemma holds_index a i p : array_ok a -> holds a i p -> index a p = i.
Proof.
  intros Ha Hp. pose proof (holds_range _ _ _ Hp) as Hr. pose proof (ok_size a Ha). unfold INT_MAX in *.
  destruct Hp as [Hi Hp]. unfold index, get_array_index. rewrite (ok_index a Ha _ _ Hp). cbn.
  rewrite Z2Nat.id, to_uint64_id by lia. done.
Qed.

Lemma holds_inj a i j p : array_ok a -> holds a i p -> holds a j p -> i = j.
Proof. intros Ha Hi Hj. by rewrite <- (holds_index a i p Ha Hi), (holds_index a j p Ha Hj). Qed.

Lemma holds_fun a i p q : holds a i p -> holds a i q -> p = q.
Proof. intros [_ Hp] [_ Hq]. congruence. Qed.

Lemma at_index_holds a i p : holds a i p -> at_index i a = Ok p.
Proof. intros [Hi Hp]. unfold at_index. destruct (Z.ltb_spec i 0); [lia|]. by rewrite Hp. Qed.

(** The membership in an array. *)
Definition member (a : array_t) (p : item) : Prop := p ∈ items a.

Lemma member_holds a p : array_ok a -> member a p <-> holds a (index a p) p.
Proof.
  intros Ha. split.
  - intros Hp. apply list_elem_of_lookup in Hp as [i Hp].
    assert (Hh : holds a (Z.of_nat i) p) by (split; [lia|by rewrite Nat2Z.id]). by rewrite (holds_index _ _ _ Ha Hh).
  - intros [_ Hp]. apply list_elem_of_lookup. eauto.
Qed.

Lemma holds_member a i p : holds a i p -> member a p.
Proof. intros [_ Hp]. apply list_elem_of_lookup. eauto. Qed.

Lemma size_nonneg a : 0 <= size a.
Proof. unfold size. lia. Qed.

(** ** The operations move items *)

Lemma to_int32_index a i : array_ok a -> 0 <= i <= size a -> size a < INT_MAX \/ i < size a -> to_int32 i = i.
Proof. intros Ha Hi Hs. pose proof (ok_size a Ha). apply to_int32_id. unfold is_int32, INT_MIN. lia. Qed.

Lemma push_back_ok a p : array_ok a -> ~ member a p -> size a < INT_MAX ->
  array_ok (push_back p a) /\ size (push_back p a) = size a + 1
  /\ (forall i q, holds (push_back p a) i q <-> holds a i q \/ (i = size a /\ q = p)).
Proof.
  intros Ha Hp Hs. pose proof (size_nonneg a). unfold push_back.
  assert (Hlen : size (mkArray (items (set_array_index p (size a) a) ++ [p]) (array_index (set_array_index p (size a) a))) = size a + 1).
  { unfold size. cbn. rewrite length_app. cbn. lia. }
  split_and!; [split; [|by rewrite Hlen; lia]|done|].
  - cbn. intros i q Hq. apply lookup_app_Some in Hq as [Hq|[Hge Hq]].
    + rewrite lookup_insert_ne; [by apply (ok_index a Ha)|]. intros ->. apply Hp, list_elem_of_lookup. eauto.
    + apply list_lookup_singleton_Some in Hq as [Hi <-]. rewrite lookup_insert_eq, (to_int32_index a) by (done || lia).
      f_equal. unfold size. lia.
  - intros i q. unfold holds. cbn. rewrite lookup_app_Some, list_lookup_singleton_Some. unfold size. split.
    + intros [Hi [Hq|(Hge & Hq & <-)]]; [by left|right]. split; [lia|done].
    + intros [[Hi Hq]|[-> ->]]; [split; [done|by left]|]. split; [lia|]. right. split; [lia|]. split; [lia|done].
Qed.

(** The item at [i] and the item at [j] change places. *)
Lemma swap_ok a i j p q : array_ok a -> holds a i p -> holds a j q ->
  exists a', swap i j a = Ok a' /\ array_ok a' /\ size a' = size a
    /\ forall k r, holds a' k r <-> (k = i /\ r = q) \/ (k = j /\ r = p) \/ (k <> i /\ k <> j /\ holds a k r).
Proof.
  intros Ha Hp Hq. pose proof (holds_range _ _ _ Hp) as Hi. pose proof (holds_range _ _ _ Hq) as Hj.
  unfold swap. rewrite (at_index_holds a i p Hp). cbn [obind].
  rewrite (at_index_holds (set_array_index p j a) j q Hq). cbn [obind]. eexists. split; [reflexivity|].
  set (a' := set_item _ _ _).
  assert (Hitems : items a' = <[Z.to_nat j := p]> (<[Z.to_nat i := q]> (items a))) by done.
  assert (Hlen : size a' = size a) by (unfold size; by rewrite Hitems, !length_insert).
  assert (Hholds : forall k r, holds a' k r <-> (k = i /\ r = q) \/ (k = j /\ r = p) \/ (k <> i /\ k <> j /\ holds a k r)).
  { intros k r. unfold holds. rewrite Hitems. unfold size in *.
    destruct (decide (k = j)) as [->|Hkj].
    - rewrite list_lookup_insert_eq by (rewrite length_insert; lia). split.
      + intros [_ [= ->]]. auto.
      + intros [[-> ->]|[[_ ->]|H]]; [|by split; [lia|]|lia]. split; [lia|]. by rewrite (holds_fun a i p q).
    - destruct (decide (k = i)) as [->|Hki].
      + rewrite list_lookup_insert_ne, list_lookup_insert_eq by lia. split; [intros [_ [= ->]]; auto|].
        intros [[_ ->]|[[? _]|H]]; [by split; [lia|]|done|lia].
      + split; [intros [Hk H]|intros [[? _]|[[? _]|(_ & _ & Hk & H)]]; [done|done|]].
        * rewrite !list_lookup_insert_ne in H by lia. right. right. done.
        * rewrite !list_lookup_insert_ne by lia. done. }
  split_and!; [|done|done]. split; [|by rewrite Hlen; apply (ok_size a Ha)].
  intros k r Hr. assert (Hk : holds a' (Z.of_nat k) r) by (split; [lia|by rewrite Nat2Z.id]). clear Hr.
  apply Hholds in Hk. unfold a', set_item, set_array_index. cbn [array_index].
  rewrite (to_int32_index a i), (to_int32_index a j) by (done || lia).
  destruct (decide (r = q)) as [->|Hrq].
  - rewrite lookup_insert_eq. f_equal. destruct Hk as [[-> _]|[[-> ->]|(Hki & Hkj & Hk)]]; [done| |].
    + by apply (holds_inj a i j p).
    + by apply (holds_inj a _ _ q Ha Hk) in Hq.
  - rewrite lookup_insert_ne by done. destruct (decide (r = p)) as [->|Hrp].
    + rewrite lookup_insert_eq. f_equal. destruct Hk as [[_ ->]|[[-> _]|(Hki & Hkj & Hk)]]; [done|done|].
      by apply (holds_inj a _ _ p Ha Hk) in Hp.
    + rewrite lookup_insert_ne by done. destruct Hk as [[_ ->]|[[_ ->]|(Hki & Hkj & Hk)]]; [done|done|].
      destruct Hk as [_ Hk]. rewrite Nat2Z.id in Hk. by apply (ok_index a Ha).
Qed.

Lemma back_holds a : 0 < size a -> exists b, back a = Ok b /\ holds a (size a - 1) b.
Proof.
  unfold size, back, holds. destruct (items a) as [|b l _] using rev_ind; cbn; [lia|]. intros _. exists b.
  rewrite last_snoc, length_app. cbn. split; [done|]. split; [lia|].
  rewrite lookup_app_r by lia. by replace (Z.to_nat _ - length l)%nat with 0%nat by lia.
Qed.

Lemma lookup_removelast {A} (l : list A) i : removelast l !! i = if decide (i < length l - 1)%nat then l !! i else None.
Proof.
  rewrite removelast_firstn_len. replace (Nat.pred (length l)) with (length l - 1)%nat by lia. case_decide.
  - by rewrite lookup_take_lt.
  - by rewrite lookup_take_ge by lia.
Qed.

(** The last item takes the place of the one that leaves. *)
Lemma erase_ok a i p b : array_ok a -> holds a i p -> holds a (size a - 1) b ->
  exists a', erase p a = Ok a' /\ array_ok a' /\ size a' = size a - 1
    /\ forall k r, holds a' k r <-> k < size a - 1 /\ ((k = i /\ r = b) \/ (k <> i /\ holds a k r)).
Proof.
  intros Ha Hp Hb. pose proof (holds_range _ _ _ Hp) as Hi. unfold erase. fold (index a p). rewrite (holds_index a i p Ha Hp).
  unfold erase_index. destruct (back_holds a ltac:(lia)) as (b' & -> & Hb'). assert (b' = b) as -> by (by apply (holds_fun a (size a - 1))).
  cbn [obind]. rewrite (at_index_holds (set_array_index b i a) i p Hp). cbn [obind].
  eexists. split; [reflexivity|]. set (a' := pop_back _).
  assert (Hitems : items a' = removelast (<[Z.to_nat i := b]> (items a))) by done.
  assert (Hlen : size a' = size a - 1) by (unfold size in *; rewrite Hitems, removelast_firstn_len, length_firstn, length_insert; lia).
  assert (Hholds : forall k r, holds a' k r <-> k < size a - 1 /\ ((k = i /\ r = b) \/ (k <> i /\ holds a k r))).
  { intros k r. unfold holds. rewrite Hitems, lookup_removelast, length_insert. unfold size in *. split.
    - intros [Hk H]. case_decide; [|done]. split; [lia|]. destruct (decide (k = i)) as [->|Hki].
      + rewrite list_lookup_insert_eq in H by lia. injection H as ->. by left.
      + rewrite list_lookup_insert_ne in H by lia. by right.
    - intros [Hk [[-> ->]|(Hki & Hk0 & H)]]; (split; [lia|]); rewrite decide_True by lia.
      + by rewrite list_lookup_insert_eq by lia.
      + by rewrite list_lookup_insert_ne by lia. }
  split_and!; [|done|done]. split; [|rewrite Hlen; pose proof (ok_size a Ha); lia].
  intros k r Hr. assert (Hk : holds a' (Z.of_nat k) r) by (split; [lia|by rewrite Nat2Z.id]). clear Hr.
  apply Hholds in Hk as [Hk Hr]. unfold a', pop_back, set_item, set_array_index. cbn [array_index].
  rewrite (to_int32_index a i) by (done || lia). destruct Hr as [[-> ->]|[Hki [_ Hr]]]; [by rewrite lookup_insert_eq|].
  rewrite Nat2Z.id in Hr. pose proof (ok_index a Ha _ _ Hr) as Hrk. destruct (decide (r = b)) as [->|]; [|by rewrite lookup_insert_ne].
  assert (Hrb : holds a (Z.of_nat k) b) by (split; [lia|by rewrite Nat2Z.id]). pose proof (holds_inj a _ _ b Ha Hrb Hb). lia.
Qed.

(** The positions after an operation, from those before. *)
Lemma index_holds a p : array_ok a -> member a p -> holds a (index a p) p.
Proof. intros Ha. by apply member_holds. Qed.

(** ** Positions *)

Definition transpose (i j k : Z) : Z := if k =? i then j else if k =? j then i else k.

(** Every position has the item of the transposed one. *)
Lemma swap_transposes a i j : array_ok a -> 0 <= i < size a -> 0 <= j < size a ->
  exists a', swap i j a = Ok a' /\ array_ok a' /\ size a' = size a
    /\ (forall k q, holds a' k q <-> holds a (transpose i j k) q) /\ (forall q, member a' q <-> member a q).
Proof.
  intros Ha Hi Hj. destruct (holds_at a i Hi) as [x Hx]. destruct (holds_at a j Hj) as [y Hy].
  destruct (swap_ok a i j x y Ha Hx Hy) as (a' & E & Ha' & Hs & Hh). exists a'.
  assert (Ht : forall k q, holds a' k q <-> holds a (transpose i j k) q).
  { intros k q. rewrite Hh. unfold transpose. destruct (Z.eqb_spec k i) as [->|Hki].
    - split; [intros [[_ ->]|[[-> ->]|(? & _)]]; [done|done|done]|]. intros Hq. left. split; [done|]. by apply (holds_fun a j).
    - destruct (Z.eqb_spec k j) as [->|Hkj].
      + split; [intros [[? _]|[[_ ->]|(_ & ? & _)]]; done|]. intros Hq. right. left. split; [done|]. by apply (holds_fun a i).
      + split; [intros [[? _]|[[? _]|(_ & _ & ?)]]; done|]. intros Hq. right. by right. }
  split_and!; try done. intros q. split; intros Hq.
  - apply (member_holds a' q Ha') in Hq. apply Ht in Hq. by eapply holds_member.
  - apply (member_holds a q Ha) in Hq. set (k := index a q) in *.
    assert (Hk : holds a' (transpose i j k) q).
    { apply Ht. unfold transpose in *. destruct (Z.eqb_spec k i), (Z.eqb_spec k j); subst;
        repeat match goal with |- context [?x =? ?y] => destruct (Z.eqb_spec x y) end; subst; done. }
    by eapply holds_member.
Qed.

Lemma erase_positions a i p : array_ok a -> holds a i p ->
  exists a', erase p a = Ok a' /\ array_ok a' /\ size a' = size a - 1
    /\ (forall k q, holds a' k q <-> k < size a - 1 /\ holds a (if k =? i then size a - 1 else k) q)
    /\ (forall q, member a' q <-> member a q /\ q <> p).
Proof.
  intros Ha Hp. pose proof (holds_range _ _ _ Hp) as Hi. destruct (holds_at a (size a - 1)) as [b Hb]; [lia|].
  destruct (erase_ok a i p b Ha Hp Hb) as (a' & E & Ha' & Hs & Hh). exists a'.
  assert (Ht : forall k q, holds a' k q <-> k < size a - 1 /\ holds a (if k =? i then size a - 1 else k) q).
  { intros k q. rewrite Hh. destruct (Z.eqb_spec k i) as [->|Hki].
    - split; intros [Hk H]; (split; [done|]); [destruct H as [[_ ->]|[? _]]; done|]. left. split; [done|]. by apply (holds_fun a (size a - 1)).
    - split; intros [Hk H]; (split; [done|]); [destruct H as [[? _]|[_ H]]; done|]. by right. }
  split_and!; try done. intros q. split.
  - intros Hq. apply (member_holds a' q Ha') in Hq. apply Ht in Hq as [Hk Hq]. split; [by eapply holds_member|]. intros ->.
    destruct (Z.eqb_spec (index a' p) i) as [Ei|Ei].
    + pose proof (holds_inj a _ _ p Ha Hq Hp). lia.
    + pose proof (holds_inj a _ _ p Ha Hq Hp). lia.
  - intros [Hq Hne]. apply (member_holds a q Ha) in Hq. pose proof (holds_range _ _ _ Hq) as Hr.
    destruct (decide (index a q = size a - 1)) as [Ek|Ek].
    + apply (holds_member a' i q), Ht. destruct (Z.eqb_spec i i); [|done]. rewrite <- Ek. split; [|done].
      destruct (decide (i = size a - 1)) as [Ei|]; [|lia]. rewrite Ek, <- Ei in Hq. by destruct Hne; apply (holds_fun a i).
    + apply (holds_member a' (index a q) q), Ht. split; [lia|]. destruct (Z.eqb_spec (index a q) i) as [Ei|]; [|done].
      rewrite Ei in Hq. by destruct Hne; apply (holds_fun a i).
Qed.

Lemma push_back_member a p q : member (push_back p a) q <-> member a q \/ q = p.
Proof. unfold member, push_back. cbn. rewrite elem_of_app, list_elem_of_singleton. done. Qed.

Lemma items_nodup a : array_ok a -> NoDup (items a).
Proof.
  intros Ha. apply NoDup_alt. intros i j p Hi Hj. pose proof (ok_index a Ha i p Hi) as H1. pose proof (ok_index a Ha j p Hj) as H2.
  rewrite H1 in H2. injection H2 as H2. lia.
Qed.
