(* ===== verification/Pipes.v ===== *)
(** * What sockets expect of pipes

    The distributor, the fair queue and the load balancer read and write pipes
    through the interface [PipeOps]: the state of all pipes, and the methods of
    [pipe_t] that they call, by the address of the pipe.  [PipeLaws] is what they
    rely on: an operation of a pipe changes what waits in this pipe, and only
    that. *)

From stdpp Require Import tactics.
From S2P Require Import Prelude Msg.

Class PipeOps (W : Type) := {
  pipe_check_read : Z -> W -> outcome (bool * W);
  pipe_read : Z -> W -> outcome (option msg_t * W);
  pipe_check_write : Z -> W -> outcome (bool * W);
  pipe_write : Z -> msg_t -> W -> outcome (bool * W);
  pipe_flush : Z -> W -> outcome W
}.

(** [attached w p]: [p] is a pipe of the socket; [outbox w p] what was written to
    it and not read by the peer; [inbox w p] what a reader can read now;
    [taking w p]: the next message that is written to it is taken. *)
Class PipeLaws (W : Type) `{PipeOps W} := {
  pipes_ok : W -> Prop;
  attached : W -> Z -> Prop;
  outbox : W -> Z -> list msg_t;
  inbox : W -> Z -> list msg_t;
  taking : W -> Z -> bool;

  pipe_write_ok w p m : pipes_ok w -> attached w p -> exists b w', pipe_write p m w = Ok (b, w') /\ pipes_ok w'
    /\ (forall q, attached w' q <-> attached w q)
    /\ (forall q, attached w q -> inbox w' q = inbox w q)
    /\ (forall q, attached w q -> outbox w' q = if b && bool_decide (p = q) then outbox w q ++ [m] else outbox w q)
    (* the rest of a message is taken *)
    /\ b = taking w p /\ (b = true -> has_flag more m = true -> taking w' p = true) /\ (forall q, q <> p -> taking w' q = taking w q);

  pipe_check_write_ok w p : pipes_ok w -> attached w p -> exists b w', pipe_check_write p w = Ok (b, w') /\ pipes_ok w'
    /\ (forall q, attached w' q <-> attached w q)
    /\ (forall q, attached w q -> inbox w' q = inbox w q /\ outbox w' q = outbox w q);

  pipe_flush_ok w p : pipes_ok w -> attached w p -> exists w', pipe_flush p w = Ok w' /\ pipes_ok w'
    /\ (forall q, attached w' q <-> attached w q)
    /\ (forall q, attached w q -> inbox w' q = inbox w q /\ outbox w' q = outbox w q)
    /\ (forall q, taking w' q = taking w q);

  pipe_read_ok w p : pipes_ok w -> attached w p -> exists o w', pipe_read p w = Ok (o, w') /\ pipes_ok w'
    /\ (forall q, attached w' q <-> attached w q)
    /\ o = head (inbox w p)
    /\ (forall q, attached w q -> inbox w' q = if bool_decide (p = q) then tail (inbox w q) else inbox w q);

  pipe_check_read_ok w p : pipes_ok w -> attached w p -> exists w', pipe_check_read p w = Ok (match inbox w p with [] => false | _ => true end, w')
    /\ pipes_ok w' /\ (forall q, attached w' q <-> attached w q)
    /\ (forall q, attached w q -> inbox w' q = inbox w q)
}.

(** Behind a part of a message that was taken, the next part is taken. *)
Lemma pipe_write_again {W} `{PipeLaws W} w p m w' m' : pipes_ok w -> attached w p -> has_flag more m = true -> pipe_write p m w = Ok (true, w') ->
  exists w'', pipe_write p m' w' = Ok (true, w'').
Proof.
  intros Hw Hp Hm E. destruct (pipe_write_ok w p m Hw Hp) as (b & w1 & E1 & Hw1 & Hatt1 & _ & _ & _ & Hb & _).
  rewrite E in E1. injection E1 as <- <-. destruct (pipe_write_ok w' p m' Hw1 ltac:(by apply Hatt1)) as (b' & w2 & E2 & _ & _ & _ & _ & -> & _).
  exists w2. by rewrite E2, Hb.
Qed.

(** The results of the calls of a socket: 0, or -1 with the error. *)
Inductive result := Done | EAGAIN | EFSM | EFAULT | EHOSTUNREACH.

#[export] Instance result_eq_dec : EqDecision result.
Proof. solve_decision. Defined.
