(* ===== verification/Dist.v ===== *)
(** * The distributor ([lib/zeromq/dist.hpp], [dist.cpp])

    [dist_t] sends a message to many pipes.  Its array of pipes is divided by
    three numbers: first the pipes that match the current message, then the other
    ones that take part in it, then those that will take part in the next one, and
    at the end the passive ones, which are full.  Pipes change their class by
    being swapped over the borders.  The numbers are of an unsigned type; the
    index below zero is out of range either way. *)

From stdpp Require Import tactics gmap.
From S2P Require Import Prelude Msg Array Pipes.

Record dist_t := mkDist { pipes : array_t; matching : Z; active : Z; eligible : Z; more_parts : bool }.

Definition new_dist : dist_t := mkDist new_array 0 0 0 false.

(** The destructor's assertion. *)
Definition destroy (d : dist_t) : outcome unit := assertion (empty (pipes d)) "pipes.empty ()".

Definition attach (pipe_ : Z) (d : dist_t) : outcome dist_t :=
  let a := push_back pipe_ (pipes d) in
  if more_parts d then
    let! a := swap (eligible d) (Array.size a - 1) a in
    Ok (mkDist a (matching d) (active d) (eligible d + 1) (more_parts d))
  else
    let! a := swap (active d) (Array.size a - 1) a in
    Ok (mkDist a (matching d) (active d + 1) (eligible d + 1) (more_parts d)).

Definition match_pipe (pipe_ : Z) (d : dist_t) : outcome dist_t :=
  if index (pipes d) pipe_ <? matching d then Ok d
  else if eligible d <=? index (pipes d) pipe_ then Ok d
  else
    let! a := swap (index (pipes d) pipe_) (matching d) (pipes d) in
    Ok (mkDist a (matching d + 1) (active d) (eligible d) (more_parts d)).

Definition unmatch (d : dist_t) : dist_t := mkDist (pipes d) 0 (active d) (eligible d) (more_parts d).

Definition terminated (pipe_ : Z) (d : dist_t) : outcome dist_t :=
  let i := index (pipes d) pipe_ in
  let matching' := if i <? matching d then matching d - 1 else matching d in
  let active' := if i <? active d then active d - 1 else active d in
  let eligible' := if i <? eligible d then eligible d - 1 else eligible d in
  let! a := erase pipe_ (pipes d) in
  Ok (mkDist a matching' active' eligible' (more_parts d)).

Definition activated (pipe_ : Z) (d : dist_t) : outcome dist_t :=
  let! a := swap (index (pipes d) pipe_) (eligible d) (pipes d) in
  let eligible' := eligible d + 1 in
  if more_parts d then Ok (mkDist a (matching d) (active d) eligible' (more_parts d))
  else
    let! a := swap (eligible' - 1) (active d) a in
    Ok (mkDist a (matching d) (active d + 1) eligible' (more_parts d)).

Section Sending.
Context {W : Type} `{PipeOps W}.

(** A pipe that is full becomes passive. *)
Definition deactivate (pipe_ : Z) (d : dist_t) : outcome dist_t :=
  let! a := swap (index (pipes d) pipe_) (matching d - 1) (pipes d) in
  let matching' := matching d - 1 in
  let! a := swap (index a pipe_) (active d - 1) a in
  let active' := active d - 1 in
  let! a := swap active' (eligible d - 1) a in
  let eligible' := eligible d - 1 in
  Ok (mkDist a matching' active' eligible' (more_parts d)).

Definition write (pipe_ : Z) (msg_ : msg_t) (d : dist_t) (w : W) : outcome (bool * dist_t * W) :=
  let! (b, w) := pipe_write pipe_ msg_ w in
  if negb b then let! d := deactivate pipe_ d in Ok (false, d, w)
  else if negb (has_flag more msg_) then let! w := pipe_flush pipe_ w in Ok (true, d, w)
  else Ok (true, d, w).

(** The loops of [distribute], from the pipe at [i] on: how many writes failed. *)
Fixpoint distribute_loop (fuel : nat) (i failed : Z) (msg_ : msg_t) (d : dist_t) (w : W) : outcome (Z * dist_t * W) :=
  if negb (i <? matching d) then Ok (failed, d, w)
  else
    match fuel with
    | O => OutOfFuel
    | S fuel' =>
        let! p := at_index i (pipes d) in
        let! (b, d, w) := write p msg_ d w in
        if b then distribute_loop fuel' (i + 1) failed msg_ d w
        else distribute_loop fuel' i (failed + 1) msg_ d w
    end.

(** Every turn writes to one of the matching pipes. *)
Definition distribute_fuel (d : dist_t) : nat := Z.to_nat (matching d).

(** [msg_->close ()] with its assertion, and [msg_->init ()]. *)
Definition close_init (msg_ : msg_t) (h : memory) : outcome (msg_t * memory) :=
  let! (rc, _, h) := close msg_ h in
  let! _ := assertion (rc =? 0) "rc == 0" in
  Ok (init, h).

Definition distribute (msg_ : msg_t) (d : dist_t) (w : W) (h : memory) : outcome (msg_t * dist_t * W * memory) :=
  if matching d =? 0 then let! (m, h) := close_init msg_ h in Ok (m, d, w, h)
  else if is_vsm msg_ then
    let! (_, d, w) := distribute_loop (distribute_fuel d) 0 0 msg_ d w in
    let! (m, h) := close_init msg_ h in
    Ok (m, d, w, h)
  else
    let! (m, h) := add_refs (to_int32 (matching d) - 1) msg_ h in
    let! (failed, d, w) := distribute_loop (distribute_fuel d) 0 0 m d w in
    let! (m, h) := (if failed =? 0 then Ok (m, h) else let! (_, m, h) := rm_refs failed m h in Ok (m, h)) in
    Ok (init, d, w, h).

Definition send_to_matching (msg_ : msg_t) (d : dist_t) (w : W) (h : memory) : outcome (msg_t * dist_t * W * memory) :=
  let msg_more := has_flag more msg_ in
  let! (m, d, w, h) := distribute msg_ d w h in
  let active' := if msg_more then active d else eligible d in
  Ok (m, mkDist (pipes d) (matching d) active' (eligible d) msg_more, w, h).

Definition send_to_all (msg_ : msg_t) (d : dist_t) (w : W) (h : memory) : outcome (msg_t * dist_t * W * memory) :=
  send_to_matching msg_ (mkDist (pipes d) (active d) (active d) (eligible d) (more_parts d)) w h.

Definition has_out (d : dist_t) : bool := true.

End Sending.
