(* ===== verification/DistTheorems.v ===== *)
(** * The distributor keeps its pipes in four classes

    The class of a pipe is its position relative to the three borders.  Every
    operation moves the pipe it is called for into the class it is meant to have
    and leaves the others where they are, except [terminated]. *)

From stdpp Require Import tactics gmap.
From S2P Require Import Prelude Msg MsgTheorems Array Pipes Dist.

(** ** Classes *)

Inductive class := Matching | Active | Eligible | Passive.

#[export] Instance class_eq_dec : EqDecision class.
Proof. solve_decision. Defined.

Definition class_at (d : dist_t) (i : Z) : class :=
  if i <? matching d then Matching else if i <? active d then Active
  else if i <? eligible d then Eligible else Passive.

Record dist_ok (d : dist_t) : Prop := {
  dist_array : array_ok (pipes d);
  dist_borders : 0 <= matching d <= active d /\ active d <= eligible d <= Array.size (pipes d);
  dist_idle : more_parts d = false -> active d = eligible d
}.

(** The class of every pipe. *)
Definition classes (d : dist_t) (f : gmap Z class) : Prop :=
  (forall q, is_Some (f !! q) <-> member (pipes d) q) /\ (forall k q, holds (pipes d) k q -> f !! q = Some (class_at d k)).

Ltac by_position := unfold class_at, transpose in *; cbn [matching active eligible pipes more_parts] in *;
  repeat match goal with
  | |- context [?x <? ?y] => destruct (Z.ltb_spec x y)
  | |- context [?x =? ?y] => destruct (Z.eqb_spec x y)
  | H : context [?x <? ?y] |- _ => destruct (Z.ltb_spec x y)
  | H : context [?x =? ?y] |- _ => destruct (Z.eqb_spec x y)
  end; try lia; try done.

Lemma classes_lookup d f q : array_ok (pipes d) -> classes d f -> is_Some (f !! q) ->
  holds (pipes d) (index (pipes d) q) q /\ f !! q = Some (class_at d (index (pipes d) q)).
Proof. intros Ha [Hdom Hf] Hq. apply Hdom, member_holds in Hq; [|done]. split; [done|by apply Hf]. Qed.

(** A pipe got a new class; its old position is [i], and [s] says where the
    others were. *)
Lemma classes_moved d d' f p c i (s : Z -> Z) : array_ok (pipes d) -> classes d f -> holds (pipes d) i p ->
  (forall q, member (pipes d') q <-> member (pipes d) q) ->
  (forall k q, holds (pipes d') k q -> holds (pipes d) (s k) q /\ 0 <= k < Array.size (pipes d')) ->
  (forall k, 0 <= k < Array.size (pipes d') -> s k = i -> class_at d' k = c) ->
  (forall k, 0 <= k < Array.size (pipes d') -> s k <> i -> class_at d' k = class_at d (s k)) ->
  classes d' (<[p := c]> f).
Proof.
  intros Ha [Hdom Hf] Hp Hmem Hpos Hi Hother. split.
  - intros q. rewrite Hmem, <- Hdom. destruct (decide (q = p)) as [->|].
    + rewrite lookup_insert_eq. split; [|by eexists]. intros _. apply Hdom. by eapply holds_member.
    + by rewrite lookup_insert_ne.
  - intros k q Hq. destruct (Hpos k q Hq) as [Hs Hk]. destruct (decide (s k = i)) as [E|E].
    + rewrite E in Hs. rewrite (holds_fun _ _ _ _ Hs Hp), lookup_insert_eq. by rewrite (Hi k Hk E).
    + rewrite lookup_insert_ne; [rewrite (Hother k Hk E); by apply Hf|].
      intros ->. by apply E, (holds_inj (pipes d) _ _ q).
Qed.

Lemma classes_same d d' f (s : Z -> Z) : array_ok (pipes d) -> classes d f ->
  (forall q, member (pipes d') q <-> member (pipes d) q) ->
  (forall k q, holds (pipes d') k q -> holds (pipes d) (s k) q /\ 0 <= k < Array.size (pipes d')) ->
  (forall k, 0 <= k < Array.size (pipes d') -> class_at d' k = class_at d (s k)) -> classes d' f.
Proof.
  intros Ha [Hdom Hf] Hmem Hpos Hother. split; [intros q; by rewrite Hmem|].
  intros k q Hq. destruct (Hpos k q Hq) as [Hs Hk]. rewrite (Hother k Hk). by apply Hf.
Qed.

Lemma classes_added d d' f p c (s : Z -> Z) : classes d f -> ~ member (pipes d) p ->
  (forall q, member (pipes d') q <-> member (pipes d) q \/ q = p) ->
  (forall k q, holds (pipes d') k q -> 0 <= k < Array.size (pipes d') /\ (holds (pipes d) (s k) q \/ s k = Array.size (pipes d) /\ q = p)) ->
  (forall k, 0 <= k < Array.size (pipes d') -> s k = Array.size (pipes d) -> class_at d' k = c) ->
  (forall k, 0 <= k < Array.size (pipes d') -> s k < Array.size (pipes d) -> class_at d' k = class_at d (s k)) ->
  classes d' (<[p := c]> f).
Proof.
  intros [Hdom Hf] Hnew Hmem Hpos Hi Hother. split.
  - intros q. rewrite Hmem, <- (Hdom q). destruct (decide (q = p)) as [->|].
    + rewrite lookup_insert_eq. split; [by right|by eexists].
    + rewrite lookup_insert_ne by done. split; [by left|by intros [|]].
  - intros k q Hq. destruct (Hpos k q Hq) as [Hk [Hs|[Hs ->]]].
    + rewrite lookup_insert_ne by (intros <-; by apply Hnew; eapply holds_member).
      pose proof (holds_range _ _ _ Hs). rewrite Hother by lia. by apply Hf.
    + rewrite lookup_insert_eq. by rewrite (Hi k Hk Hs).
Qed.

(** ** The operations *)

Lemma attach_ok p d f : dist_ok d -> classes d f -> f !! p = None -> Array.size (pipes d) < INT_MAX ->
  exists d', attach p d = Ok d' /\ dist_ok d' /\ more_parts d' = more_parts d
    /\ classes d' (<[p := if more_parts d then Eligible else Active]> f).
Proof.
  intros [Ha Hb Hidle] Hf Hp Hs. assert (Hnew : ~ member (pipes d) p).
  { intros Hm. apply Hf in Hm as [c Hc]. congruence. }
  destruct (push_back_ok (pipes d) p Ha Hnew Hs) as (Ha1 & Hs1 & Hh1). pose proof (push_back_member (pipes d) p) as Hm1.
  unfold attach. set (a := push_back p (pipes d)) in *. clearbody a. pose proof (size_nonneg (pipes d)) as Hn.
  assert (Hlast : 0 <= Array.size a - 1 < Array.size a) by lia.
  destruct (more_parts d) eqn:Eo;
    [destruct (swap_transposes a (eligible d) _ Ha1 ltac:(lia) Hlast) as (a2 & E2 & Ha2 & Hs2 & Ht2 & Hm2)
    |pose proof (Hidle eq_refl); destruct (swap_transposes a (active d) _ Ha1 ltac:(lia) Hlast) as (a2 & E2 & Ha2 & Hs2 & Ht2 & Hm2)];
    rewrite E2; cbn [obind]; (eexists; split; [reflexivity|]);
    (split; [split; cbn; [done|lia|done || lia]|split; [done|]]).
  - apply (classes_added d _ f p _ (transpose (eligible d) (Array.size a - 1))); try done; cbn.
    + intros q. by rewrite Hm2, Hm1.
    + intros k q Hq. split; [by eapply holds_range|]. apply Ht2, Hh1 in Hq. done.
    + intros k Hk Hk'. by_position.
    + intros k Hk Hk'. by_position.
  - apply (classes_added d _ f p _ (transpose (active d) (Array.size a - 1))); try done; cbn.
    + intros q. by rewrite Hm2, Hm1.
    + intros k q Hq. split; [by eapply holds_range|]. apply Ht2, Hh1 in Hq. done.
    + intros k Hk Hk'. by_position.
    + intros k Hk Hk'. by_position.
Qed.

Lemma match_ok p d f c : dist_ok d -> classes d f -> f !! p = Some c -> c <> Eligible ->
  exists d', match_pipe p d = Ok d' /\ dist_ok d' /\ more_parts d' = more_parts d
    /\ classes d' (if decide (c = Active) then <[p := Matching]> f else f).
Proof.
  intros [Ha Hb Hidle] Hf Hp Hne. destruct (classes_lookup d f p Ha Hf ltac:(by eexists)) as [Hi Hc].
  set (i := index (pipes d) p) in *. rewrite Hp in Hc. injection Hc as Hc. pose proof (holds_range _ _ _ Hi) as Hr.
  unfold match_pipe. fold i. destruct (Z.ltb_spec i (matching d)) as [Hlt|Hge].
  { rewrite decide_False by (rewrite Hc; by_position). by exists d. }
  destruct (Z.leb_spec (eligible d) i) as [Hle|Hlt].
  { rewrite decide_False by (rewrite Hc; by_position). by exists d. }
  rewrite decide_True by (subst c; by_position). assert (Hia : i < active d) by (subst c; by_position).
  destruct (swap_transposes (pipes d) i (matching d) Ha Hr ltac:(lia)) as (a2 & E2 & Ha2 & Hs2 & Ht2 & Hm2).
  rewrite E2. cbn [obind]. eexists. split; [reflexivity|]. split; [split; cbn; [done|lia|done]|]. split; [done|].
  apply (classes_moved d _ f p Matching i (transpose i (matching d))); try done; cbn.
  - intros k q Hq. split; [by apply Ht2|by eapply holds_range].
  - intros k Hk Hk'. by_position.
  - intros k Hk Hk'. by_position.
Qed.

Definition unmatched (c : class) : class := match c with Matching => Active | _ => c end.

Lemma classes_fmap d d' f (g : class -> class) : classes d f -> pipes d' = pipes d ->
  (forall k, 0 <= k < Array.size (pipes d) -> class_at d' k = g (class_at d k)) -> classes d' (g <$> f).
Proof.
  intros [Hdom Hf] Ep Hg. split; rewrite Ep.
  - intros q. by rewrite lookup_fmap, fmap_is_Some.
  - intros k q Hq. rewrite lookup_fmap, (Hf k q Hq). cbn. rewrite Hg; [done|]. by eapply holds_range.
Qed.

Lemma unmatch_ok d f : dist_ok d -> classes d f ->
  dist_ok (unmatch d) /\ classes (unmatch d) (unmatched <$> f).
Proof.
  intros [Ha Hb Hidle] Hf. split; [split; cbn; [done|lia|done]|].
  apply (classes_fmap d); try done. intros k Hk. unfold unmatch, unmatched. by_position.
Qed.

Lemma activated_ok p d f : dist_ok d -> classes d f -> f !! p = Some Passive ->
  exists d', activated p d = Ok d' /\ dist_ok d' /\ more_parts d' = more_parts d
    /\ classes d' (<[p := if more_parts d then Eligible else Active]> f).
Proof.
  intros [Ha Hb Hidle] Hf Hp. destruct (classes_lookup d f p Ha Hf ltac:(by eexists)) as [Hi Hc].
  unfold activated. set (i := index (pipes d) p) in *. rewrite Hp in Hc. injection Hc as Hc. pose proof (holds_range _ _ _ Hi) as Hr.
  assert (Hie : eligible d <= i) by by_position.
  destruct (swap_transposes (pipes d) i (eligible d) Ha Hr ltac:(lia)) as (a1 & E1 & Ha1 & Hs1 & Ht1 & Hm1). rewrite E1. cbn [obind].
  destruct (more_parts d) eqn:Eo.
  - eexists. split; [reflexivity|]. split; [split; cbn; [done|lia|done]|]. split; [done|].
    apply (classes_moved d _ f p Eligible i (transpose i (eligible d))); try done; cbn.
    + intros k q Hq. split; [by apply Ht1|by eapply holds_range].
    + intros k Hk Hk'. by_position.
    + intros k Hk Hk'. by_position.
  - pose proof (Hidle eq_refl) as Hae. replace (eligible d + 1 - 1) with (eligible d) by lia.
    destruct (swap_transposes a1 (eligible d) (active d) Ha1 ltac:(lia) ltac:(lia)) as (a2 & E2 & Ha2 & Hs2 & Ht2 & Hm2). rewrite E2. cbn [obind].
    eexists. split; [reflexivity|]. split; [split; cbn; [done|lia|lia]|]. split; [done|].
    apply (classes_moved d _ f p Active i (fun k => transpose i (eligible d) (transpose (eligible d) (active d) k))); try done; cbn.
    + intros q. by rewrite Hm2.
    + intros k q Hq. split; [by apply Ht1, Ht2|by eapply holds_range].
    + intros k Hk Hk'. by_position.
    + intros k Hk Hk'. by_position.
Qed.

(** ** A pipe that is full *)

Lemma transpose_right i j : transpose i j j = i.
Proof. by_position. Qed.

Lemma deactivate_ok p d f i : dist_ok d -> classes d f -> holds (pipes d) i p -> i < matching d ->
  exists d', deactivate p d = Ok d' /\ dist_ok d' /\ more_parts d' = more_parts d /\ matching d' = matching d - 1
    /\ classes d' (<[p := Passive]> f)
    /\ (forall k q, k < i -> holds (pipes d') k q <-> holds (pipes d) k q)
    /\ (forall q, (exists k, i <= k < matching d - 1 /\ holds (pipes d') k q) <-> (exists k, i <= k < matching d /\ holds (pipes d) k q) /\ q <> p).
Proof.
  intros [Ha Hb Hidle] Hf Hi Hlt. pose proof (holds_range _ _ _ Hi) as Hr. unfold deactivate. rewrite (holds_index _ i p Ha Hi).
  set (m := matching d) in *. set (ac := active d) in *. set (e := eligible d) in *.
  destruct (swap_transposes (pipes d) i (m - 1) Ha Hr ltac:(lia)) as (a1 & E1 & Ha1 & Hs1 & Ht1 & Hm1). rewrite E1. cbn [obind].
  assert (Hp1 : holds a1 (m - 1) p) by (apply Ht1; by rewrite transpose_right). rewrite (holds_index a1 _ p Ha1 Hp1).
  destruct (swap_transposes a1 (m - 1) (ac - 1) Ha1 ltac:(lia) ltac:(lia)) as (a2 & E2 & Ha2 & Hs2 & Ht2 & Hm2). rewrite E2. cbn [obind].
  destruct (swap_transposes a2 (ac - 1) (e - 1) Ha2 ltac:(lia) ltac:(lia)) as (a3 & E3 & Ha3 & Hs3 & Ht3 & Hm3). rewrite E3. cbn [obind].
  set (s := fun k => transpose i (m - 1) (transpose (m - 1) (ac - 1) (transpose (ac - 1) (e - 1) k))).
  assert (Hpos : forall k q, holds a3 k q <-> holds (pipes d) (s k) q) by (intros k q; unfold s; by rewrite Ht3, Ht2, Ht1).
  eexists. split; [reflexivity|]. split; [split; cbn; [done|lia|intros Eo; specialize (Hidle Eo); lia]|].
  split; [done|]. split; [done|]. split; [|split]; cbn.
  - apply (classes_moved d _ f p Passive i s); try done; cbn.
    + intros q. by rewrite Hm3, Hm2, Hm1.
    + intros k q Hq. split; [by apply Hpos|by eapply holds_range].
    + unfold s. intros k Hk Hk'. by_position.
    + unfold s. intros k Hk Hk'. by_position.
  - intros k q Hk. rewrite Hpos. replace (s k) with k; [done|]. unfold s. by_position.
  - intros q. split.
    + intros (k & Hk & Hq). apply Hpos in Hq. split.
      * exists (s k). split; [|done]. unfold s. by_position.
      * intros ->. assert (s k = i) by (by apply (holds_inj (pipes d) _ _ p)). unfold s in *. by_position.
    + intros [(k & Hk & Hq) Hne]. assert (k <> i) by (intros ->; by apply Hne, (holds_fun (pipes d) i)).
      destruct (decide (k = m - 1)) as [->|].
      * exists i. split; [lia|]. apply Hpos. replace (s i) with (m - 1); [done|]. unfold s. by_position.
      * exists k. split; [lia|]. apply Hpos. replace (s k) with k; [done|]. unfold s. by_position.
Qed.

(** ** A pipe that leaves *)

Lemma terminated_positions p d f i : dist_ok d -> classes d f -> holds (pipes d) i p ->
  exists d', terminated p d = Ok d' /\ dist_ok d' /\ more_parts d' = more_parts d
    /\ (forall k q, holds (pipes d') k q <-> k < Array.size (pipes d) - 1 /\ holds (pipes d) (if k =? i then Array.size (pipes d) - 1 else k) q)
    /\ (forall q, member (pipes d') q <-> member (pipes d) q /\ q <> p)
    /\ matching d' = (if i <? matching d then matching d - 1 else matching d)
    /\ active d' = (if i <? active d then active d - 1 else active d)
    /\ eligible d' = (if i <? eligible d then eligible d - 1 else eligible d)
    /\ Array.size (pipes d') = Array.size (pipes d) - 1.
Proof.
  intros [Ha Hb Hidle] Hf Hi. pose proof (holds_range _ _ _ Hi) as Hr. unfold terminated. rewrite (holds_index _ i p Ha Hi).
  destruct (erase_positions (pipes d) i p Ha Hi) as (a' & -> & Ha' & Hs & Ht & Hm). cbn [obind].
  eexists. split; [reflexivity|]. split_and!; cbn; try done.
  - split; cbn; [done| |intros Eo; specialize (Hidle Eo); by_position]. by_position.
Qed.

Definition rank (c : class) : Z := match c with Matching => 0 | Active => 1 | Eligible => 2 | Passive => 3 end.

(** No pipe has a class farther back. *)
Definition hindmost (c : class) (f : gmap Z class) : Prop := forall q c', f !! q = Some c' -> rank c' <= rank c.

Lemma terminated_ok p d f c : dist_ok d -> classes d f -> f !! p = Some c -> hindmost c f ->
  exists d', terminated p d = Ok d' /\ dist_ok d' /\ more_parts d' = more_parts d /\ classes d' (delete p f).
Proof.
  intros Hd Hf Hp Hlast. pose proof Hd as [Ha Hb Hidle]. destruct (classes_lookup d f p Ha Hf ltac:(by eexists)) as [Hi Hc].
  set (i := index (pipes d) p) in *. rewrite Hp in Hc. injection Hc as Hc. pose proof (holds_range _ _ _ Hi) as Hr.
  destruct (terminated_positions p d f i Hd Hf Hi) as (d' & E & Hd' & Hmore & Ht & Hm & Em & Ea & Ee & Es).
  exists d'. split_and!; try done.
  destruct (holds_at (pipes d) (Array.size (pipes d) - 1)) as [z Hz]; [lia|].
  pose proof (Hlast z _ (proj2 Hf _ _ Hz)) as Hrank. split.
  - intros q. rewrite Hm, <- (proj1 Hf q). destruct (decide (q = p)) as [->|].
    + rewrite lookup_delete_eq. split; [by intros []|by intros []].
    + rewrite lookup_delete_ne by done. by split; [|intros []].
  - intros k q Hq. pose proof (holds_range _ _ _ Hq) as Hk. pose proof (holds_member _ _ _ Hq) as Hqm. apply Hm in Hqm as [_ Hne].
    rewrite lookup_delete_ne by done. apply Ht in Hq as [Hk' Hq]. rewrite (proj2 Hf _ _ Hq). f_equal.
    unfold class_at, rank in *. rewrite Em, Ea, Ee. subst c. by_position.
Qed.

(** ** Distribution *)

Section Sending.
Context {W : Type} `{PipeLaws W}.

(** The pipes of the distributor are pipes of the world. *)
Definition world_ok (d : dist_t) (w : W) : Prop := pipes_ok w /\ forall q, member (pipes d) q -> attached w q.

Definition passive_all (R : list Z) (f : gmap Z class) : gmap Z class := foldr (fun q f => <[q := Passive]> f) f R.

Lemma dist_write_ok m p d w f i : dist_ok d -> classes d f -> world_ok d w -> holds (pipes d) i p -> i < matching d ->
  exists b d' w', write p m d w = Ok (b, d', w') /\ dist_ok d' /\ world_ok d' w' /\ more_parts d' = more_parts d
    /\ (forall q, member (pipes d') q <-> member (pipes d) q)
    /\ (forall q, member (pipes d) q -> inbox w' q = inbox w q /\ outbox w' q = if b && bool_decide (p = q) then outbox w q ++ [m] else outbox w q)
    /\ (if b then d' = d else deactivate p d = Ok d')
    /\ b = taking w p /\ (b = true -> has_flag more m = true -> taking w' p = true) /\ (forall q, q <> p -> taking w' q = taking w q).
Proof.
  intros Hd Hf [Hw Hatt] Hi Hlt. unfold write. pose proof (holds_member _ _ _ Hi) as Hp.
  destruct (pipe_write_ok w p m Hw (Hatt p Hp)) as (b & w1 & -> & Hw1 & Hatt1 & Hin1 & Hout1 & Hb & Hgo & Hoth). cbn [obind].
  destruct b; cbn [negb].
  - assert (Hsame : forall q, member (pipes d) q -> inbox w1 q = inbox w q /\ outbox w1 q = if true && bool_decide (p = q) then outbox w q ++ [m] else outbox w q).
    { intros q Hq. split; [by apply Hin1, Hatt|by apply Hout1, Hatt]. }
    destruct (negb (has_flag more m)).
    + destruct (pipe_flush_ok w1 p Hw1 ltac:(by apply Hatt1, Hatt)) as (w2 & -> & Hw2 & Hatt2 & Hio2 & Htk2). cbn [obind].
      exists true, d, w2. split_and!; try done.
      * split; [done|]. intros q Hq. by apply Hatt2, Hatt1, Hatt.
      * intros q Hq. destruct (Hio2 q ltac:(by apply Hatt1, Hatt)) as [-> ->]. by apply Hsame.
      * intros _ Hm. rewrite Htk2. by apply Hgo.
      * intros q Hq. rewrite Htk2. by apply Hoth.
    + exists true, d, w1. split_and!; try done. split; [done|]. intros q Hq. by apply Hatt1, Hatt.
  - destruct (deactivate_ok p d f i Hd Hf Hi Hlt) as (d' & E & Hd' & Hmore & _ & Hc & _ & _). rewrite E. cbn [obind].
    assert (Hmem : forall q, member (pipes d') q <-> member (pipes d) q).
    { intros q. rewrite <- (proj1 Hc q), <- (proj1 Hf q). destruct (decide (q = p)) as [->|].
      - rewrite lookup_insert_eq. split; intros _; [by apply Hf|by eexists].
      - by rewrite lookup_insert_ne. }
    exists false, d', w1. split_and!; try done.
    + split; [done|]. intros q Hq. by apply Hatt1, Hatt, Hmem.
    + intros q Hq. split; [by apply Hin1, Hatt|by apply Hout1, Hatt].
Qed.

(** The pipes that were not tried yet. *)
Definition untried (d : dist_t) (i : Z) (q : Z) : Prop := exists k, i <= k < matching d /\ holds (pipes d) k q.

Lemma distribute_loop_ok m fuel : forall i failed d w f, dist_ok d -> classes d f -> world_ok d w -> 0 <= i <= matching d ->
  matching d - i <= Z.of_nat fuel ->
  exists R d' w', distribute_loop fuel i failed m d w = Ok (failed + Z.of_nat (length R), d', w')
    /\ dist_ok d' /\ world_ok d' w' /\ more_parts d' = more_parts d /\ matching d' = matching d - Z.of_nat (length R)
    /\ NoDup R /\ (forall q, q ∈ R -> untried d i q) /\ classes d' (passive_all R f)
    /\ (forall q, member (pipes d) q -> inbox w' q = inbox w q)
    /\ (forall q, untried d i q -> q ∉ R -> outbox w' q = outbox w q ++ [m])
    /\ (forall q, member (pipes d) q -> ~ untried d i q \/ q ∈ R -> outbox w' q = outbox w q)
    /\ (forall q, untried d i q -> q ∈ R <-> taking w q = false)
    /\ (forall q, ~ untried d i q -> taking w' q = taking w q)
    /\ (forall q, untried d i q -> q ∉ R -> has_flag more m = true -> taking w' q = true).
Proof.
  induction fuel as [|fuel IH]; intros i failed d w f Hd Hf Hw Hi Hfuel; cbn [distribute_loop];
    destruct (Z.ltb_spec i (matching d)) as [Hlt|Hge]; cbn [negb]; try lia.
  1,3: exists [], d, w; cbn; rewrite Z.add_0_r, Z.sub_0_r; split_and!; try done; [by constructor|by intros q Hq; apply elem_of_nil in Hq|..];
    intros q (k & Hk & _); lia.
  pose proof (dist_borders d Hd) as Hb. destruct (holds_at (pipes d) i) as [p Hp]; [lia|].
  rewrite (at_index_holds _ i p Hp). cbn [obind].
  destruct (dist_write_ok m p d w f i Hd Hf Hw Hp Hlt) as (b & d1 & w1 & -> & Hd1 & Hw1 & Hmore1 & Hmem1 & Hio1 & Hb1 & Htk & Hgo & Hoth). cbn [obind].
  destruct b.
  - subst d1. destruct (IH (i + 1) failed d w1 f Hd Hf Hw1 ltac:(lia) ltac:(lia)) as
      (R & d' & w' & -> & Hd' & Hw' & Hmore & Hm & Hnd & HR & Hc & Hin & Hyes & Hno & Href & Hsame & Hnext).
    assert (Hsplit : forall q, untried d i q <-> q = p \/ untried d (i + 1) q).
    { intros q. split.
      - intros (k & Hk & Hq). destruct (decide (k = i)) as [->|]; [left; by apply (holds_fun (pipes d) i)|right; exists k; split; [lia|done]].
      - intros [->|(k & Hk & Hq)]; [by exists i; split; [lia|]|exists k; split; [lia|done]]. }
    assert (Hpn : ~ untried d (i + 1) p).
    { intros (k & Hk & Hq). pose proof (holds_inj _ _ _ p (dist_array d Hd) Hq Hp). lia. }
    exists R, d', w'. split_and!; try done.
    + intros q Hq. apply Hsplit. right. by apply HR.
    + intros q Hq. rewrite (Hin q Hq). by apply Hio1.
    + intros q Hq HqR. apply Hsplit in Hq as [->|Hq].
      * rewrite (Hno p (holds_member _ _ _ Hp) ltac:(by left)), (proj2 (Hio1 p (holds_member _ _ _ Hp))). by rewrite bool_decide_eq_true_2.
      * rewrite (Hyes q Hq HqR). destruct Hq as (k & Hk & Hq). rewrite (proj2 (Hio1 q (holds_member _ _ _ Hq))).
        rewrite bool_decide_eq_false_2; [done|]. intros <-. apply Hpn. by exists k.
    + intros q Hq Hcase. assert (Hne : p <> q).
      { intros <-. destruct Hcase as [Hc1|HqR]; [apply Hc1, Hsplit; by left|by apply Hpn, HR]. }
      rewrite (Hno q Hq); [rewrite (proj2 (Hio1 q Hq)); by rewrite bool_decide_eq_false_2|].
      destruct Hcase as [Hc1|HqR]; [left; intros Hu; apply Hc1, Hsplit; by right|by right].
    + intros q Hq. destruct (decide (q = p)) as [->|Hne]; [rewrite <- Htk; split; [by intros Hq'%HR|done]|].
      apply Hsplit in Hq as [->|Hq]; [done|]. by rewrite (Href q Hq), Hoth.
    + intros q Hq. assert (Hne : q <> p) by (intros ->; apply Hq, Hsplit; by left). rewrite Hsame, Hoth; [done..|]. intros Hu. apply Hq, Hsplit. by right.
    + intros q Hq HqR Hm'. apply Hsplit in Hq as [->|Hq]; [rewrite Hsame by done; by apply Hgo|by apply Hnext].
  - destruct (deactivate_ok p d f i Hd Hf Hp Hlt) as (d1' & E & _ & _ & Hm1 & Hc1 & Hbefore & Hrest). rewrite Hb1 in E. injection E as <-.
    assert (Hsplit : forall q, untried d1 i q <-> untried d i q /\ q <> p) by (intros q; unfold untried; rewrite Hm1; apply Hrest).
    destruct (IH i (failed + 1) d1 w1 _ Hd1 Hc1 Hw1 ltac:(lia) ltac:(lia)) as
      (R & d' & w' & -> & Hd' & Hw' & Hmore & Hm & Hnd & HR & Hc & Hin & Hyes & Hno & Href & Hsame & Hnext).
    assert (HpR : p ∉ R) by (intros HpR; by apply HR, Hsplit in HpR as [_ ?]).
    exists (R ++ [p]), d', w'. rewrite length_app. cbn [length]. split_and!; try done.
    + do 3 f_equal. lia.
    + by rewrite Hmore.
    + lia.
    + apply NoDup_app. split_and!; [done| |apply NoDup_singleton]. intros q Hq Hq'. apply list_elem_of_singleton in Hq' as ->. done.
    + intros q Hq. apply elem_of_app in Hq as [Hq|Hq]; [by apply Hsplit, HR|]. apply list_elem_of_singleton in Hq as ->. exists i. split; [lia|done].
    + unfold passive_all. by rewrite foldr_app.
    + intros q Hq. rewrite (Hin q) by by apply Hmem1. by apply Hio1.
    + intros q Hq HqR. apply not_elem_of_app in HqR as [HqR Hqp]. apply not_elem_of_cons in Hqp as [Hqp _].
      rewrite (Hyes q); [|by apply Hsplit|done]. destruct Hq as (k & Hk & Hq). by rewrite (proj2 (Hio1 q (holds_member _ _ _ Hq))).
    + intros q Hq Hcase. rewrite (Hno q); [by rewrite (proj2 (Hio1 q Hq))|by apply Hmem1|].
      destruct Hcase as [Hu|HqR]; [left; intros Hu'; by apply Hsplit in Hu' as [? _]|].
      apply elem_of_app in HqR as [HqR|HqR]; [by right|]. apply list_elem_of_singleton in HqR as ->. left. intros Hu. by apply Hsplit in Hu as [_ ?].
    + intros q Hq. rewrite elem_of_app, list_elem_of_singleton. destruct (decide (q = p)) as [->|Hne]; [by rewrite <- Htk; split; [|right]|].
      rewrite <- (Hoth q Hne), <- (Href q) by by apply Hsplit. split; [by intros [|]|by left].
    + intros q Hq. assert (Hne : q <> p) by (intros ->; apply Hq; exists i; split; [lia|done]). rewrite Hsame, Hoth; [done..|]. intros Hu. by apply Hq, Hsplit.
    + intros q Hq HqR Hm'. apply not_elem_of_app in HqR as [HqR Hqp]. apply not_elem_of_cons in Hqp as [Hqp _]. apply Hnext; [by apply Hsplit|done..].
Qed.

(** ** Sending a message *)

(** The classes after a part of a message was sent: at the end of the message the
    pipes that waited for it join the active ones. *)
Definition joined (c : class) : class := match c with Eligible => Active | _ => c end.
Definition after_part (parts_follow : bool) (f : gmap Z class) : gmap Z class := if parts_follow then f else joined <$> f.

Lemma untried_matching d f q : dist_ok d -> classes d f -> untried d 0 q <-> f !! q = Some Matching.
Proof.
  intros Hd Hf. pose proof (dist_borders d Hd) as Hb. split.
  - intros (k & Hk & Hq). rewrite (proj2 Hf _ _ Hq). f_equal. by_position.
  - intros Hq. destruct (classes_lookup d f q (dist_array d Hd) Hf ltac:(by eexists)) as [Hi Hc]. rewrite Hq in Hc. injection Hc as Hc.
    pose proof (holds_range _ _ _ Hi). exists (index (pipes d) q). split; [|done]. by_position.
Qed.

(** What a message finds when it is sent. *)
Record sendable (m : msg_t) (hs : list msg_t) (d : dist_t) (h : memory) : Prop := {
  sendable_valid : check m = true;
  sendable_balanced : balanced (m :: hs) h;
  sendable_few : Z.of_nat (length hs) + 1 + matching d < 2 ^ 32
}.

(** [m'] was delivered to the matching pipes except [R], and the classes are [f']. *)
Record delivered (m m' : msg_t) (hs : list msg_t) (R : list Z) (d : dist_t) (w : W) (h : memory) (f f' : gmap Z class)
  (d' : dist_t) (w' : W) (h' : memory) : Prop := {
  delivered_ok : dist_ok d' /\ world_ok d' w' /\ classes d' f';
  delivered_refused : NoDup R /\ forall q, q ∈ R <-> f !! q = Some Matching /\ taking w q = false;
  delivered_to q : f !! q = Some Matching -> q ∉ R -> outbox w' q = outbox w q ++ [m'];
  delivered_not q : is_Some (f !! q) -> f !! q <> Some Matching \/ q ∈ R -> outbox w' q = outbox w q;
  delivered_inbox q : is_Some (f !! q) -> inbox w' q = inbox w q;
  delivered_taking q : (f !! q <> Some Matching -> taking w' q = taking w q) /\ (f !! q = Some Matching -> q ∉ R -> has_flag more m = true -> taking w' q = true);
  delivered_same : u m' = u m /\ (m' = m \/ m' = set_flags shared m);
  delivered_refs : balanced (replicate (Z.to_nat (matching d) - length R) m' ++ hs) h' /\ buffers h' ≡ₚ buffers h
}.

Lemma close_init_ok m hs h : check m = true -> balanced (m :: hs) h -> few (m :: hs) ->
  exists h', close_init m h = Ok (init, h') /\ balanced hs h' /\ buffers h' ≡ₚ buffers h.
Proof.
  intros Hm Hb Hfew. destruct (close_ok m hs h Hb Hfew Hm) as (h' & E & Hb' & Hbuf). exists h'. unfold close_init. by rewrite E.
Qed.

Lemma distribute_ok m hs d w h f : dist_ok d -> classes d f -> world_ok d w -> sendable m hs d h ->
  exists m' R d' w' h', distribute m d w h = Ok (init, d', w', h') /\ more_parts d' = more_parts d
    /\ delivered m m' hs R d w h f (passive_all R f) d' w' h'.
Proof.
  intros Hd Hf Hw [Hm Hb Hfew]. pose proof (dist_borders d Hd) as Hbd. pose proof (ok_size _ (dist_array d Hd)) as Hsize.
  assert (Hfew1 : few (m :: hs)) by (unfold few; cbn [length]; lia). unfold distribute.
  destruct (Z.eqb_spec (matching d) 0) as [E0|E0].
  { destruct (close_init_ok m hs h Hm Hb Hfew1) as (h' & -> & Hb' & Hbuf). cbn [obind].
    assert (Hnone : forall q, f !! q = Some Matching -> False).
    { intros q Hq. apply (untried_matching d f q Hd Hf) in Hq as (k & Hk & _). lia. }
    exists m, [], d, w, h'. split_and!; try done. split; try done; [|intros q Hq; by apply Hnone in Hq| |by split; [|left]|].
    - split; [by constructor|]. intros q. split; [intros Hq; by apply elem_of_nil in Hq|by intros [Hq%Hnone _]].
    - intros q. by split; [|intros Hq%Hnone].
    - rewrite E0. done. }
  assert (Hloop : forall m1, exists R d' w', distribute_loop (distribute_fuel d) 0 0 m1 d w = Ok (Z.of_nat (length R), d', w')
    /\ dist_ok d' /\ world_ok d' w' /\ more_parts d' = more_parts d /\ matching d' = matching d - Z.of_nat (length R)
    /\ (NoDup R /\ forall q, q ∈ R <-> f !! q = Some Matching /\ taking w q = false) /\ classes d' (passive_all R f)
    /\ (forall q, is_Some (f !! q) -> inbox w' q = inbox w q)
    /\ (forall q, f !! q = Some Matching -> q ∉ R -> outbox w' q = outbox w q ++ [m1])
    /\ (forall q, is_Some (f !! q) -> f !! q <> Some Matching \/ q ∈ R -> outbox w' q = outbox w q)
    /\ (forall q, (f !! q <> Some Matching -> taking w' q = taking w q) /\ (f !! q = Some Matching -> q ∉ R -> has_flag more m1 = true -> taking w' q = true))).
  { intros m1. destruct (distribute_loop_ok m1 (distribute_fuel d) 0 0 d w f Hd Hf Hw ltac:(lia)) as
      (R & d' & w' & E & Hd' & Hw' & Hmore & Hmm & Hnd & HR & Hc & Hin & Hyes & Hno & Href & Hsame & Hnext); [unfold distribute_fuel; lia|].
    exists R, d', w'. split_and!; try done.
    - intros q. rewrite <- (untried_matching d f q Hd Hf). split; [intros Hq; split; [by apply HR|by apply Href; [apply HR|]]|by intros [Hu Hq]; apply Href].
    - intros q Hq. by apply Hin, Hf.
    - intros q Hq. apply Hyes. by apply (untried_matching d f q Hd Hf).
    - intros q Hq Hcase. apply Hno; [by apply Hf|]. destruct Hcase as [Hn|]; [left|by right]. intros Hu. by apply Hn, (untried_matching d f q Hd Hf).
    - intros q. rewrite <- (untried_matching d f q Hd Hf). split; [apply Hsame|apply Hnext]. }
  destruct (is_vsm m) eqn:Ev.
  - destruct (Hloop m) as (R & d' & w' & -> & Hd' & Hw' & Hmore & Hmm & HR & Hc & Hin & Hyes & Hno & Hnext). cbn [obind].
    destruct (close_init_ok m hs h Hm Hb Hfew1) as (h' & -> & Hb' & Hbuf). cbn [obind].
    exists m, R, d', w', h'. split; [done|]. split; [done|]. split; try done; [by split; [|left]|]. split; [|done].
    apply balanced_replicate; [|done]. intros a Ea. unfold is_vsm in Ev. by rewrite Ea in Ev.
  - assert (Hmi : to_int32 (matching d) = matching d) by (apply to_int32_id; unfold is_int32, INT_MIN; lia). rewrite Hmi.
    replace (matching d - 1) with (Z.of_nat (Z.to_nat (matching d) - 1)) by lia.
    destruct (add_refs_ok (Z.to_nat (matching d) - 1) m hs h Hb) as (m' & h1 & -> & Hu & Hflags & Hb1 & Hbuf1);
      [unfold few; rewrite length_app, length_replicate; cbn [length]; lia|]. cbn [obind].
    destruct (Hloop m') as (R & d' & w' & -> & Hd' & Hw' & Hmore & Hmm & HR & Hc & Hin & Hyes & Hno & Hnext). cbn [obind].
    pose proof (dist_borders d' Hd') as Hbd'. assert (Hlen : (length R <= Z.to_nat (matching d))%nat) by lia.
    assert (Hb2 : balanced (replicate (length R) m' ++ replicate (Z.to_nat (matching d) - length R) m' ++ hs) h1).
    { rewrite app_assoc, <- replicate_add.
      replace (length R + (Z.to_nat (matching d) - length R))%nat with (Datatypes.S (Z.to_nat (matching d) - 1)) by lia.
      cbn [replicate app]. by rewrite Permutation_middle. }
    destruct (Z.eqb_spec (Z.of_nat (length R)) 0) as [ER|ER].
    + cbn [obind]. exists m', R, d', w', h1. split; [done|]. split; [done|]. split; try done; [by rewrite <- (part_of_same m m')|].
      split; [|done]. by replace (length R) with 0%nat in Hb2 |- * by lia.
    + destruct (rm_refs_ok (length R) m' _ h1 Hb2) as (b & m2 & h2 & -> & Hb3 & Hbuf3);
        [unfold few; rewrite !length_app, !length_replicate; lia|lia|]. cbn [obind].
      exists m', R, d', w', h2. split; [done|]. split; [done|]. split; try done; [by rewrite <- (part_of_same m m')|]. split; [done|]. by rewrite Hbuf3.
Qed.

Lemma send_to_matching_ok m hs d w h f : dist_ok d -> classes d f -> world_ok d w -> sendable m hs d h ->
  exists m' R d' w' h', send_to_matching m d w h = Ok (init, d', w', h') /\ more_parts d' = has_flag more m
    /\ delivered m m' hs R d w h f (after_part (has_flag more m) (passive_all R f)) d' w' h'.
Proof.
  intros Hd Hf Hw Hs. unfold send_to_matching.
  destruct (distribute_ok m hs d w h f Hd Hf Hw Hs) as (m' & R & d1 & w' & h' & -> & Hmore & [[Hd1 [Hw1 Hc1]] HR Hyes Hno Hin Hsame Hrefs]).
  cbn [obind]. eexists m', R, _, w', h'. split; [reflexivity|]. split; [done|]. split; try done. pose proof Hd1 as [Ha Hb Hidle].
  split; [|split; [done|]].
  - split; cbn; [done|destruct (has_flag more m); lia|by intros ->].
  - unfold after_part. destruct (has_flag more m); [done|]. apply (classes_fmap d1); [done|done|].
    intros k Hk. unfold joined. by_position.
Qed.

Definition all_match (c : class) : class := match c with Active => Matching | _ => c end.

Lemma all_match_ok d f : dist_ok d -> classes d f ->
  dist_ok (mkDist (pipes d) (active d) (active d) (eligible d) (more_parts d))
  /\ classes (mkDist (pipes d) (active d) (active d) (eligible d) (more_parts d)) (all_match <$> f).
Proof.
  intros [Ha Hb Hidle] Hf. split; [split; cbn; [done|lia|done]|]. apply (classes_fmap d); [done|done|].
  intros k Hk. unfold all_match. by_position.
Qed.

(** ** Sessions *)

(** Between the calls the other threads change the pipes and the heap. *)
Inductive dist_op :=
| Attach (p : Z) | MatchPipe (p : Z) | Unmatch | Terminated (p : Z) | Activated (p : Z)
| SendToMatching (m : msg_t) | SendToAll (m : msg_t) | Others (w : W) (h : memory).

Abbreviation dist_state := (dist_t * W * memory)%type.

Definition run_dist (o : dist_op) (s : dist_state) : outcome dist_state :=
  let '(d, w, h) := s in
  match o with
  | Attach p => let! d := attach p d in Ok (d, w, h)
  | MatchPipe p => let! d := match_pipe p d in Ok (d, w, h)
  | Unmatch => Ok (unmatch d, w, h)
  | Terminated p => let! d := terminated p d in Ok (d, w, h)
  | Activated p => let! d := activated p d in Ok (d, w, h)
  | SendToMatching m => let! (_, d, w, h) := send_to_matching m d w h in Ok (d, w, h)
  | SendToAll m => let! (_, d, w, h) := send_to_all m d w h in Ok (d, w, h)
  | Others w h => Ok (d, w, h)
  end.

(** The distributor as a map from pipes to classes, and whether it is in the middle
    of a message.  [legal_call] is how its owners call it; a pipe that leaves must
    be in the hindmost class. *)
Definition class_state : Type := gmap Z class * bool.

Inductive class_step : class_state -> dist_op -> class_state -> Prop :=
| step_attach f b p : f !! p = None -> class_step (f, b) (Attach p) (<[p := if b then Eligible else Active]> f, b)
| step_match f b p : f !! p = Some Active -> class_step (f, b) (MatchPipe p) (<[p := Matching]> f, b)
| step_match_not f b p c : f !! p = Some c -> c = Matching \/ c = Passive -> class_step (f, b) (MatchPipe p) (f, b)
| step_unmatch f b : class_step (f, b) Unmatch (unmatched <$> f, b)
| step_terminated f b p : class_step (f, b) (Terminated p) (delete p f, b)
| step_activated f b p : f !! p = Some Passive -> class_step (f, b) (Activated p) (<[p := if b then Eligible else Active]> f, b)
| step_matching f b m R : (forall q, q ∈ R -> f !! q = Some Matching) ->
    class_step (f, b) (SendToMatching m) (after_part (has_flag more m) (passive_all R f), has_flag more m)
| step_all f b m R : (forall q, q ∈ R -> f !! q = Some Matching \/ f !! q = Some Active) ->
    class_step (f, b) (SendToAll m) (after_part (has_flag more m) (passive_all R (all_match <$> f)), has_flag more m)
| step_others f b w h : class_step (f, b) (Others w h) (f, b).

Inductive class_run : class_state -> list dist_op -> class_state -> Prop :=
| class_nil s : class_run s [] s
| class_cons s o s' os s'' : class_step s o s' -> class_run s' os s'' -> class_run s (o :: os) s''.

Definition legal_call (o : dist_op) (f : gmap Z class) (s : dist_state) : Prop :=
  let '(d, w, h) := s in
  match o with
  | Attach p => f !! p = None /\ attached w p /\ Array.size (pipes d) < INT_MAX
  | MatchPipe p => is_Some (f !! p) /\ f !! p <> Some Eligible
  | Unmatch => True
  | Terminated p => exists c, f !! p = Some c /\ hindmost c f
  | Activated p => f !! p = Some Passive
  | SendToMatching m => exists hs, sendable m hs d h
  | SendToAll m => exists hs, sendable m hs (mkDist (pipes d) (active d) (active d) (eligible d) (more_parts d)) h
  | Others w' h' => pipes_ok w' /\ forall q, is_Some (f !! q) -> attached w' q
  end.

Definition dist_related (s : dist_state) (f : gmap Z class) : Prop := dist_ok s.1.1 /\ classes s.1.1 f /\ world_ok s.1.1 s.1.2.

Lemma world_kept d d' w f f' : classes d f -> classes d' f' -> (forall q, is_Some (f' !! q) -> is_Some (f !! q)) -> world_ok d w -> world_ok d' w.
Proof. intros Hf Hf' Hsub [Hw Hatt]. split; [done|]. intros q Hq. by apply Hatt, Hf, Hsub, Hf'. Qed.

Lemma insert_dom (f : gmap Z class) p c q : is_Some (f !! p) -> is_Some (<[p := c]> f !! q) -> is_Some (f !! q).
Proof. intros Hp. destruct (decide (q = p)) as [->|]; [done|]. by rewrite lookup_insert_ne. Qed.

Lemma run_dist_ok o s f : dist_related s f -> legal_call o f s ->
  exists s' f', run_dist o s = Ok s' /\ dist_related s' f' /\ class_step (f, more_parts s.1.1) o (f', more_parts s'.1.1).
Proof.
  destruct s as [[d w] h]. intros (Hd & Hf & Hw) Hl. cbn [fst snd] in *. destruct o as [p|p| |p|p|m|m|w' h']; cbn [run_dist legal_call] in *.
  - destruct Hl as (Hp & Hatt & Hs). destruct (attach_ok p d f Hd Hf Hp Hs) as (d' & -> & Hd' & Hmore & Hf').
    eexists (d', w, h), _. split; [reflexivity|]. split; [|cbn; rewrite Hmore; by constructor].
    split; [done|]. split; [exact Hf'|]. split; [apply Hw|]. intros q Hq. apply Hf' in Hq. cbn in *.
    destruct (decide (q = p)) as [->|]; [done|]. rewrite lookup_insert_ne in Hq by done. by apply Hw, Hf.
  - destruct Hl as [[c Hp] Hne]. destruct (match_ok p d f c Hd Hf Hp) as (d' & -> & Hd' & Hmore & Hf'); [congruence|].
    eexists (d', w, h), _. split; [reflexivity|]. split; [split; [done|split; [exact Hf'|]]|]; cbn.
    + apply (world_kept d d' w f _ Hf Hf'); [|done]. intros q. case_decide; [|done]. by apply insert_dom.
    + rewrite Hmore. case_decide as Ec; [subst; by constructor|]. apply (step_match_not _ _ _ c); [done|].
      destruct c; [by left|done|by destruct Hne|by right].
  - destruct (unmatch_ok d f Hd Hf) as [Hd' Hf']. eexists (unmatch d, w, h), _. split; [reflexivity|]. split; [|by constructor].
    split; [done|]. split; [exact Hf'|]. apply (world_kept d _ w f _ Hf Hf'); [|done]. intros q. by rewrite lookup_fmap, fmap_is_Some.
  - destruct Hl as (c & Hp & Hc). destruct (terminated_ok p d f c Hd Hf Hp Hc) as (d' & -> & Hd' & Hmore & Hf').
    eexists (d', w, h), _. split; [reflexivity|]. split; [|cbn; rewrite Hmore; constructor]. split; [done|]. split; [exact Hf'|].
    apply (world_kept d _ w f _ Hf Hf'); [|done]. intros q. rewrite lookup_delete_is_Some. by intros [].
  - destruct (activated_ok p d f Hd Hf Hl) as (d' & -> & Hd' & Hmore & Hf').
    eexists (d', w, h), _. split; [reflexivity|]. split; [|cbn; rewrite Hmore; by constructor]. split; [done|]. split; [exact Hf'|].
    apply (world_kept d _ w f _ Hf Hf'); [|done]. intros q. apply insert_dom. by eexists.
  - destruct Hl as [hs Hs]. destruct (send_to_matching_ok m hs d w h f Hd Hf Hw Hs) as (m' & R & d' & w' & h' & -> & Hmore & [(Hd' & Hw' & Hf') HR _ _ _ _ _ _]).
    eexists (d', w', h'), _. split; [reflexivity|]. split; [split; [done|split; [exact Hf'|done]]|]. cbn. rewrite Hmore. constructor. intros q Hq. by apply HR in Hq as [? _].
  - destruct Hl as [hs Hs]. destruct (all_match_ok d f Hd Hf) as [Hd1 Hf1].
    assert (Hw1 : world_ok (mkDist (pipes d) (active d) (active d) (eligible d) (more_parts d)) w) by done.
    unfold send_to_all. destruct (send_to_matching_ok m hs _ w h _ Hd1 Hf1 Hw1 Hs) as (m' & R & d' & w' & h' & -> & Hmore & [(Hd' & Hw' & Hf') HR _ _ _ _ _ _]).
    eexists (d', w', h'), _. split; [reflexivity|]. split; [split; [done|split; [exact Hf'|done]]|]. cbn. rewrite Hmore. constructor.
    intros q Hq. apply HR in Hq as [Hq _]. rewrite lookup_fmap in Hq. destruct (f !! q) as [[]|]; cbn in Hq; auto; done.
  - eexists (d, w', h'), f. split; [reflexivity|]. split; [|by constructor]. split; [done|]. split; [done|]. split; [apply Hl|].
    intros q Hq. by apply Hl, Hf.
Qed.

Fixpoint run_dists (os : list dist_op) (s : dist_state) : outcome dist_state :=
  match os with [] => Ok s | o :: os' => let! s := run_dist o s in run_dists os' s end.

(** Every call is legal for the classes that the distributor has then. *)
Fixpoint legal_calls (os : list dist_op) (s : dist_state) : Prop :=
  match os with
  | [] => True
  | o :: os' => (forall f, classes s.1.1 f -> legal_call o f s) /\ match run_dist o s with Ok s' => legal_calls os' s' | _ => True end
  end.

Lemma run_dists_ok os : forall s f, dist_related s f -> legal_calls os s ->
  exists s' f', run_dists os s = Ok s' /\ dist_related s' f' /\ class_run (f, more_parts s.1.1) os (f', more_parts s'.1.1).
Proof.
  induction os as [|o os IH]; intros s f Hs Hl; [exists s, f; split_and!; try done; constructor|].
  destruct Hl as [Ho Hl]. destruct (run_dist_ok o s f Hs (Ho f (proj1 (proj2 Hs)))) as (s1 & f1 & E & Hs1 & Hstep).
  rewrite E in Hl. cbn [run_dists]. rewrite E. cbn [obind]. destruct (IH s1 f1 Hs1 Hl) as (s2 & f2 & -> & Hs2 & Hrun).
  exists s2, f2. split_and!; [done|done|]. by econstructor.
Qed.
End Sending.

Lemma new_dist_ok : dist_ok new_dist /\ classes new_dist ∅.
Proof.
  split; [split; [apply new_array_ok|cbn; unfold Array.size; cbn; lia|done]|]. split.
  - intros q. rewrite lookup_empty. split; [by intros []|]. intros Hq. by apply elem_of_nil in Hq.
  - intros k q [_ Hq]. done.
Qed.
