(* ===== verification/Pipe.v ===== *)
(** * Pipes ([lib/zeromq/pipe.hpp], [pipe.cpp])

    A [pipe_t] is one end of a connection between two threads: it reads messages
    from one [ypipe_t] and writes to another one, and sends commands to its peer.
    A [ypipe_t] is the [channel] that it was shown to be, a [flush] being both of
    its steps.

    An operation sees the end it is called for and the heap of ypipes; it adds to
    the commands for the peer, to the events of its user ([i_pipe_events]) and to
    the messages that it closed.  A null or dangling pointer to a ypipe is an
    abort. *)

From stdpp Require Import tactics gmap.
From S2P Require Import Prelude Msg Yqueue Ypipe.

(** ** The ypipe *)

Abbreviation upipe_t := (channel msg_t).

Definition up_write (m : msg_t) (incomplete_ : bool) (c : upipe_t) : upipe_t := (promised (Write m incomplete_) c).2.

Definition up_unwrite (c : upipe_t) : option msg_t * upipe_t :=
  match promised Unwrite c with (Item (Some m), c) => (Some m, c) | (_, c) => (None, c) end.

Definition up_flush (c : upipe_t) : bool * upipe_t :=
  match promised FlushTry c with
  | (Said b, c) => (b, c)
  | (_, c) => (false, (promised FlushWake c).2)
  end.

Definition up_check_read (c : upipe_t) : bool * upipe_t := fetch_all c.

Definition up_read (c : upipe_t) : option msg_t * upipe_t :=
  match promised Read c with (Item (Some m), c) => (Some m, c) | (_, c) => (None, c) end.

Definition up_probe (fn : msg_t -> bool) (c : upipe_t) : outcome (bool * upipe_t) :=
  let (rc, c) := up_check_read c in
  let! _ := assertion rc "rc" in
  match fetched c with m :: _ => Ok (fn m, c) | [] => Aborted "front" end.

(** ** The end of a connection *)

Inductive state_t := StActive | StDelimited | StPending | StTerminating | StTerminated | StDoubleTerminated.

#[export] Instance state_t_eq_dec : EqDecision state_t.
Proof. solve_decision. Defined.

Record pipe_t := mkPipe {
  inpipe : option Z; outpipe : option Z; in_active : bool; out_active : bool; hwm : Z; lwm : Z;
  msgs_read : Z; msgs_written : Z; peers_msgs_read : Z; has_sink : bool; state : state_t; delay : bool; identity_ : bytes
}.

(** The commands to the peer ([object_t::send_...]). *)
Inductive command := activate_read | activate_write (msgs_read : Z) | hiccup_ (pipe : Z) | pipe_term | pipe_term_ack.

(** The methods of the user's [i_pipe_events]. *)
Inductive event := read_activated | write_activated | hiccuped | terminated.

Record view := mkView { me : pipe_t; upipes : gmap Z upipe_t; commands : list command; events : list event; closed : list msg_t }.

Definition set_me (p : pipe_t) (v : view) : view := mkView p (upipes v) (commands v) (events v) (closed v).
Definition set_upipe (a : Z) (c : upipe_t) (v : view) : view := mkView (me v) (<[a := c]> (upipes v)) (commands v) (events v) (closed v).
Definition delete_upipe (a : Z) (v : view) : view := mkView (me v) (delete a (upipes v)) (commands v) (events v) (closed v).
Definition send (c : command) (v : view) : view := mkView (me v) (upipes v) (commands v ++ [c]) (events v) (closed v).

(** A call of the user's object, which must be set. *)
Definition raise (e : event) (v : view) : outcome view :=
  let! _ := assertion (has_sink (me v)) "sink" in
  Ok (mkView (me v) (upipes v) (commands v) (events v ++ [e]) (closed v)).

(** [msg.close ()] with its assertion. *)
Definition close_msg (m : msg_t) (v : view) : outcome view :=
  let! _ := assertion (check m) "rc == 0" in
  Ok (mkView (me v) (upipes v) (commands v) (events v) (closed v ++ [m])).

Definition with_state (s : state_t) (p : pipe_t) : pipe_t :=
  mkPipe (inpipe p) (outpipe p) (in_active p) (out_active p) (hwm p) (lwm p) (msgs_read p) (msgs_written p) (peers_msgs_read p) (has_sink p) s (delay p) (identity_ p).
Definition with_outpipe (o : option Z) (p : pipe_t) : pipe_t :=
  mkPipe (inpipe p) o (in_active p) (out_active p) (hwm p) (lwm p) (msgs_read p) (msgs_written p) (peers_msgs_read p) (has_sink p) (state p) (delay p) (identity_ p).
Definition with_inpipe (i : option Z) (p : pipe_t) : pipe_t :=
  mkPipe i (outpipe p) (in_active p) (out_active p) (hwm p) (lwm p) (msgs_read p) (msgs_written p) (peers_msgs_read p) (has_sink p) (state p) (delay p) (identity_ p).
Definition with_in_active (b : bool) (p : pipe_t) : pipe_t :=
  mkPipe (inpipe p) (outpipe p) b (out_active p) (hwm p) (lwm p) (msgs_read p) (msgs_written p) (peers_msgs_read p) (has_sink p) (state p) (delay p) (identity_ p).
Definition with_out_active (b : bool) (p : pipe_t) : pipe_t :=
  mkPipe (inpipe p) (outpipe p) (in_active p) b (hwm p) (lwm p) (msgs_read p) (msgs_written p) (peers_msgs_read p) (has_sink p) (state p) (delay p) (identity_ p).
Definition with_msgs_read (n : Z) (p : pipe_t) : pipe_t :=
  mkPipe (inpipe p) (outpipe p) (in_active p) (out_active p) (hwm p) (lwm p) n (msgs_written p) (peers_msgs_read p) (has_sink p) (state p) (delay p) (identity_ p).
Definition with_msgs_written (n : Z) (p : pipe_t) : pipe_t :=
  mkPipe (inpipe p) (outpipe p) (in_active p) (out_active p) (hwm p) (lwm p) (msgs_read p) n (peers_msgs_read p) (has_sink p) (state p) (delay p) (identity_ p).
Definition with_peers_msgs_read (n : Z) (p : pipe_t) : pipe_t :=
  mkPipe (inpipe p) (outpipe p) (in_active p) (out_active p) (hwm p) (lwm p) (msgs_read p) (msgs_written p) n (has_sink p) (state p) (delay p) (identity_ p).
Definition with_delay (b : bool) (p : pipe_t) : pipe_t :=
  mkPipe (inpipe p) (outpipe p) (in_active p) (out_active p) (hwm p) (lwm p) (msgs_read p) (msgs_written p) (peers_msgs_read p) (has_sink p) (state p) b (identity_ p).

Definition set_event_sink (p : pipe_t) : outcome pipe_t :=
  let! _ := assertion (negb (has_sink p)) "!sink" in
  Ok (mkPipe (inpipe p) (outpipe p) (in_active p) (out_active p) (hwm p) (lwm p) (msgs_read p) (msgs_written p) (peers_msgs_read p) true (state p) (delay p) (identity_ p)).

Definition set_identity (i : bytes) (p : pipe_t) : pipe_t :=
  mkPipe (inpipe p) (outpipe p) (in_active p) (out_active p) (hwm p) (lwm p) (msgs_read p) (msgs_written p) (peers_msgs_read p) (has_sink p) (state p) (delay p) i.

Definition get_identity (p : pipe_t) : bytes := identity_ p.

(** [inpipe->...], [outpipe->...]. *)
Definition deref (a : option Z) (v : view) : outcome (Z * upipe_t) :=
  match a with
  | Some a => match upipes v !! a with Some c => Ok (a, c) | None => Aborted "freed ypipe" end
  | None => Aborted "null ypipe"
  end.

(** ** Construction *)

Definition max_wm_delta : Z := 1024.

Definition compute_lwm (hwm_ : Z) : Z :=
  if max_wm_delta * 2 <? hwm_ then hwm_ - max_wm_delta else Z.quot (hwm_ + 1) 2.

Definition new_pipe (inpipe_ outpipe_ : Z) (inhwm_ outhwm_ : Z) (delay_ : bool) : pipe_t :=
  mkPipe (Some inpipe_) (Some outpipe_) true true outhwm_ (compute_lwm inhwm_) 0 0 0 false StActive delay_ [].

(** [pipepair], with its two ypipes at [upipe1] and [upipe2]. *)
Definition pipepair (upipe1 upipe2 : Z) (hwms_ : Z * Z) (delays_ : bool * bool) : pipe_t * pipe_t * gmap Z upipe_t :=
  (new_pipe upipe1 upipe2 hwms_.2 hwms_.1 delays_.1, new_pipe upipe2 upipe1 hwms_.1 hwms_.2 delays_.2,
   {[upipe1 := new_channel; upipe2 := new_channel]}).

(** ** Reading *)

Definition is_state (s : state_t) (v : view) : bool := bool_decide (state (me v) = s).

Definition readable (v : view) : bool := in_active (me v) && (is_state StActive v || is_state StPending v).

(** The delimiter was read. *)
Definition delimit (v : view) : outcome view :=
  match state (me v) with
  | StActive => Ok (set_me (with_state StDelimited (me v)) v)
  | StPending => Ok (set_me (with_state StTerminating (with_outpipe None (me v))) (send pipe_term_ack v))
  | _ => Aborted "false"
  end.

Definition check_read (v : view) : outcome (bool * view) :=
  if negb (readable v) then Ok (false, v)
  else
    let! (a, c) := deref (inpipe (me v)) v in
    let (b, c) := up_check_read c in
    let v := set_upipe a c v in
    if negb b then Ok (false, set_me (with_in_active false (me v)) v)
    else
      let! (d, c) := up_probe is_delimiter c in
      let v := set_upipe a c v in
      if d then
        let (ok, c) := up_read c in
        let! _ := assertion (match ok with Some _ => true | None => false end) "ok" in
        let v := set_upipe a c v in
        let! v := delimit v in
        Ok (false, v)
      else Ok (true, v).

Definition read (v : view) : outcome (option msg_t * view) :=
  if negb (readable v) then Ok (None, v)
  else
    let! (a, c) := deref (inpipe (me v)) v in
    let (o, c) := up_read c in
    let v := set_upipe a c v in
    match o with
    | None => Ok (None, set_me (with_in_active false (me v)) v)
    | Some m =>
        if is_delimiter m then let! v := delimit v in Ok (None, v)
        else
          let v := if negb (has_flag more m) then set_me (with_msgs_read (to_uint64 (msgs_read (me v) + 1)) (me v)) v else v in
          let v := if (0 <? lwm (me v)) && (msgs_read (me v) mod lwm (me v) =? 0) then send (activate_write (msgs_read (me v))) v else v in
          Ok (Some m, v)
    end.

(** ** Writing *)

Definition check_write (v : view) : bool * view :=
  if negb (out_active (me v)) || negb (is_state StActive v) then (false, v)
  else
    let full := (0 <? hwm (me v)) && (to_uint64 (msgs_written (me v) - peers_msgs_read (me v)) =? to_uint64 (hwm (me v))) in
    if full then (false, set_me (with_out_active false (me v)) v) else (true, v).

Definition write (m : msg_t) (v : view) : outcome (bool * view) :=
  let (b, v) := check_write v in
  if negb b then Ok (false, v)
  else
    let more_ := has_flag more m in
    let! (a, c) := deref (outpipe (me v)) v in
    let v := set_upipe a (up_write m more_ c) v in
    let v := if negb more_ then set_me (with_msgs_written (to_uint64 (msgs_written (me v) + 1)) (me v)) v else v in
    Ok (true, v).

(** [while (outpipe->unwrite (&msg))] with the assertion on the flag, and the
    closing of every part. *)
Fixpoint unwrite_all (fuel : nat) (a : Z) (v : view) : outcome view :=
  let! (_, c) := deref (Some a) v in
  let (o, c) := up_unwrite c in
  match o with
  | None => Ok v
  | Some m =>
      match fuel with
      | O => OutOfFuel
      | S fuel' =>
          let! _ := assertion (has_flag more m) "msg.flags () & msg_t::more" in
          let! v := close_msg m (set_upipe a c v) in
          unwrite_all fuel' a v
      end
  end.

(** As many turns as there are incomplete parts. *)
Definition rollback (v : view) : outcome view :=
  match outpipe (me v) with
  | None => Ok v
  | Some a => let! (_, c) := deref (Some a) v in unwrite_all (length (incomplete c)) a v
  end.

Definition flush (v : view) : outcome view :=
  if is_state StTerminating v then Ok v
  else
    match outpipe (me v) with
    | None => Ok v
    | Some _ =>
        let! (a, c) := deref (outpipe (me v)) v in
        let (b, c) := up_flush c in
        let v := set_upipe a c v in
        Ok (if negb b then send activate_read v else v)
    end.

(** ** Commands *)

Definition process_activate_read (v : view) : outcome view :=
  if negb (in_active (me v)) && (is_state StActive v || is_state StPending v) then
    raise read_activated (set_me (with_in_active true (me v)) v)
  else Ok v.

Definition process_activate_write (msgs_read_ : Z) (v : view) : outcome view :=
  let v := set_me (with_peers_msgs_read msgs_read_ (me v)) v in
  if negb (out_active (me v)) && is_state StActive v then
    raise write_activated (set_me (with_out_active true (me v)) v)
  else Ok v.

(** [while (pipe->read (&msg))], closing every message. *)
Fixpoint drain (fuel : nat) (a : Z) (v : view) : outcome view :=
  let! (_, c) := deref (Some a) v in
  let (o, c) := up_read c in
  let v := set_upipe a c v in
  match o with
  | None => Ok v
  | Some m =>
      match fuel with
      | O => OutOfFuel
      | S fuel' => let! v := close_msg m v in drain fuel' a v
      end
  end.

Definition drain_fuel (c : upipe_t) : nat := length (fetched c ++ flushed c).

Definition process_hiccup (pipe_ : Z) (v : view) : outcome view :=
  let! (a, c) := deref (outpipe (me v)) v in
  let (_, c) := up_flush c in
  let! v := drain (drain_fuel c) a (set_upipe a c v) in
  let v := delete_upipe a v in
  let v := set_me (with_out_active true (with_outpipe (Some pipe_) (me v))) v in
  if is_state StActive v then raise hiccuped v else Ok v.

Definition process_pipe_term (v : view) : outcome view :=
  match state (me v) with
  | StActive =>
      if negb (delay (me v)) then
        Ok (send pipe_term_ack (set_me (with_outpipe None (with_state StTerminating (me v))) v))
      else Ok (set_me (with_state StPending (me v)) v)
  | StDelimited => Ok (send pipe_term_ack (set_me (with_outpipe None (with_state StTerminating (me v))) v))
  | StTerminated => Ok (send pipe_term_ack (set_me (with_outpipe None (with_state StDoubleTerminated (me v))) v))
  | _ => Aborted "false"
  end.

(** The object deletes itself; what is left is the rest of the view. *)
Definition process_pipe_term_ack (v : view) : outcome view :=
  let! v := raise terminated v in
  let! v :=
    match state (me v) with
    | StTerminated => Ok (send pipe_term_ack (set_me (with_outpipe None (me v)) v))
    | StTerminating | StDoubleTerminated => Ok v
    | _ => Aborted "state == terminating || state == double_terminated"
    end in
  let! (a, c) := deref (inpipe (me v)) v in
  let! v := drain (drain_fuel c) a v in
  Ok (delete_upipe a v).

(** ** Termination *)

Definition terminate (delay_ : bool) (v : view) : outcome view :=
  let v := set_me (with_delay delay_ (me v)) v in
  match state (me v) with
  | StTerminated | StDoubleTerminated | StTerminating => Ok v
  | s =>
      let v :=
        match s with
        | StPending =>
            if negb (delay (me v)) then
              set_me (with_state StTerminating (with_outpipe None (me v))) (send pipe_term_ack v)
            else v
        | _ => set_me (with_state StTerminated (me v)) (send pipe_term v)
        end in
      let v := set_me (with_out_active false (me v)) v in
      match outpipe (me v) with
      | None => Ok v
      | Some a =>
          let! v := rollback v in
          let! (a, c) := deref (Some a) v in
          flush (set_upipe a (up_write init_delimiter false c) v)
      end
  end.

(** [new] puts the ypipe at some free address. *)
Definition hiccup (v : view) : view :=
  if negb (is_state StActive v) then v
  else
    let v := set_me (with_inpipe None (me v)) v in
    let a := fresh (dom (upipes v) : gset Z) in
    let v := set_upipe a new_channel v in
    let v := set_me (with_in_active true (with_inpipe (Some a) (me v))) v in
    send (hiccup_ a) v.

(** [object_t::process_command]; a pipe that was terminated is gone. *)
Definition process_command (c : command) (v : view) : outcome (bool * view) :=
  match c with
  | activate_read => let! v := process_activate_read v in Ok (true, v)
  | activate_write n => let! v := process_activate_write n v in Ok (true, v)
  | hiccup_ a => let! v := process_hiccup a v in Ok (true, v)
  | pipe_term => let! v := process_pipe_term v in Ok (true, v)
  | pipe_term_ack => let! v := process_pipe_term_ack v in Ok (false, v)
  end.
