(* ===== verification/PipeProtocol.v ===== *)
(** * Two ends of a connection never touch what is gone

    Two pipes with their mailboxes and their heap of ypipes, under any
    interleaving of the calls of their users and of the delivery of commands.  The
    invariant says which commands are on their way in every pair of states, and
    which ypipes exist: for each direction the one that is written to, the ones
    that hiccups announced, the last of which is read. *)

From stdpp Require Import tactics gmap.
From S2P Require Import Prelude Msg Yqueue Ypipe Pipe.

(** ** Channels *)

Definition items_of (c : upipe_t) : list msg_t := fetched c ++ flushed c ++ complete c ++ incomplete c.

Definition chan_ok (c : upipe_t) : Prop :=
  Forall (fun m => check m = true) (items_of c) /\ Forall (fun m => has_flag more m = true) (incomplete c).

Ltac split_items := unfold chan_ok, items_of in *; cbn [fetched flushed complete incomplete] in *;
  repeat match goal with H : _ /\ _ |- _ => destruct H end; rewrite ?Forall_app in *;
  repeat match goal with H : _ /\ _ |- _ => destruct H end.

Lemma new_channel_ok : chan_ok new_channel.
Proof. by split; constructor. Qed.

Lemma up_write_ok m b c : check m = true -> (b = true -> has_flag more m = true) -> chan_ok c -> chan_ok (up_write m b c).
Proof.
  intros Hm Hb Hc. unfold up_write. destruct b; cbn [promised snd]; split_items; rewrite ?Forall_app; split_and!; auto.
Qed.

Lemma up_flush_ok c : chan_ok c -> chan_ok (up_flush c).2.
Proof.
  intros Hc. unfold up_flush. cbn [promised]. destruct (complete c) eqn:E; [done|].
  destruct (asleep c); cbn [snd promised complete fetched flushed incomplete]; rewrite ?E; split_items;
    rewrite E in *; rewrite ?Forall_app; split_and!; auto.
Qed.

Lemma fetch_all_ok c : chan_ok c -> chan_ok (fetch_all c).2.
Proof.
  intros Hc. unfold fetch_all. destruct (fetched c) eqn:E1; [|done]. destruct (flushed c) eqn:E2; cbn [snd]; split_items;
    rewrite ?E1, ?E2 in *; rewrite ?Forall_app; split_and!; auto.
Qed.

(** Reading takes the first item that is fetched or flushed. *)
Lemma up_read_cases c : match up_read c with
  | (Some m, c') => fetched c ++ flushed c = m :: fetched c' ++ flushed c' /\ complete c' = complete c /\ incomplete c' = incomplete c
  | (None, c') => fetched c = [] /\ flushed c = [] /\ fetched c' = [] /\ flushed c' = [] /\ complete c' = complete c /\ incomplete c' = incomplete c
  end.
Proof.
  unfold up_read. cbn [promised]. unfold fetch_all. destruct (fetched c) as [|m l] eqn:E1.
  - destruct (flushed c) as [|m l] eqn:E2; cbn [fetched]; [done|]. cbn. by rewrite app_nil_r.
  - rewrite E1. cbn. done.
Qed.

Lemma up_read_ok c : chan_ok c -> chan_ok (up_read c).2 /\ (forall m, (up_read c).1 = Some m -> check m = true).
Proof.
  intros Hc. pose proof (up_read_cases c) as H. destruct (up_read c) as [[m|] c']; cbn [fst snd].
  - destruct H as (H & Ec & Ei). assert (Hi : items_of c = m :: items_of c') by (unfold items_of; by rewrite !app_assoc, H, Ec, Ei).
    destruct Hc as [Hall Hinc]. rewrite Hi in Hall. apply Forall_cons in Hall as [Hm Hall]. rewrite <- Ei in Hinc.
    split; [done|]. by intros m' [= <-].
  - destruct H as (E1 & E2 & E3 & E4 & Ec & Ei). split; [|done]. unfold chan_ok, items_of in *. rewrite E1, E2 in Hc. by rewrite E3, E4, Ec, Ei.
Qed.

Lemma up_unwrite_cases c : match up_unwrite c with
  | (Some m, c') => incomplete c = incomplete c' ++ [m] /\ fetched c' = fetched c /\ flushed c' = flushed c /\ complete c' = complete c
  | (None, c') => c' = c /\ incomplete c = []
  end.
Proof.
  unfold up_unwrite. cbn [promised]. destruct (incomplete c) as [|m l _] using rev_ind; cbn; [done|].
  rewrite last_snoc. cbn. by rewrite removelast_last.
Qed.

(** ** Views *)

Record view_ok (v : view) : Prop := {
  ok_chans a c : upipes v !! a = Some c -> chan_ok c;
  ok_in : exists a, inpipe (me v) = Some a /\ is_Some (upipes v !! a);
  ok_out a : outpipe (me v) = Some a -> is_Some (upipes v !! a);
  ok_out_state : outpipe (me v) = None <-> state (me v) = StTerminating \/ state (me v) = StDoubleTerminated;
  ok_sink : has_sink (me v) = true
}.

Definition is_activate (c : command) : bool := match c with activate_read | activate_write _ => true | _ => false end.

(** What the invariant sees of a list of commands. *)
Definition ctl (cs : list command) : list command := filter (fun c => is_activate c = false) cs.

Lemma ctl_app cs cs' : ctl (cs ++ cs') = ctl cs ++ ctl cs'.
Proof. apply filter_app. Qed.

(** The ypipes, the pointers and the sink stay; [cs] was sent. *)
Record kept (v v' : view) (cs : list command) : Prop := {
  kept_chans : forall a c, upipes v' !! a = Some c -> chan_ok c;
  kept_dom : dom (upipes v') =@{gset Z} dom (upipes v);
  kept_in : inpipe (me v') = inpipe (me v);
  kept_sink : has_sink (me v') = has_sink (me v);
  kept_commands : commands v' = commands v ++ cs
}.

(** Nothing that the protocol is about has changed; an end that writes no more
    sends nothing. *)
Definition quiet (v v' : view) : Prop := exists cs, kept v v' cs /\ (ctl cs = [] /\ (outpipe (me v) = None -> cs = [])) /\ outpipe (me v') = outpipe (me v)
  /\ (state (me v') = state (me v) \/ state (me v) = StActive /\ state (me v') = StDelimited).

(** The end acknowledges, and writes no more. *)
Definition acked (v v' : view) : Prop := exists cs, kept v v' (cs ++ [pipe_term_ack]) /\ ctl cs = [] /\ outpipe (me v') = None
  /\ state (me v') = StTerminating.

Lemma quiet_refl v : view_ok v -> quiet v v.
Proof. intros Hv. exists []. split; [|by split_and!; auto]. split; try done; [apply Hv|by rewrite app_nil_r]. Qed.

Lemma set_upipe_dom a c v : is_Some (upipes v !! a) -> dom (upipes (set_upipe a c v)) =@{gset Z} dom (upipes v).
Proof. intros Ha. cbn. by apply dom_insert_lookup_L. Qed.

Lemma set_upipe_chans a c v : (forall b d, upipes v !! b = Some d -> chan_ok d) -> chan_ok c ->
  forall b d, upipes (set_upipe a c v) !! b = Some d -> chan_ok d.
Proof.
  intros Hv Hc b d. cbn. destruct (decide (b = a)) as [->|]; [rewrite lookup_insert_eq; by intros [= <-]|].
  rewrite lookup_insert_ne by done. apply Hv.
Qed.

Lemma deref_some a v : is_Some (upipes v !! a) -> exists c, upipes v !! a = Some c /\ deref (Some a) v = Ok (a, c).
Proof. intros [c Hc]. exists c. unfold deref. by rewrite Hc. Qed.

Lemma quiet_trans v1 v2 v3 : quiet v1 v2 -> quiet v2 v3 -> quiet v1 v3.
Proof.
  intros (cs & [Hc1 Hd1 Hi1 Hs1 Hm1] & [Hctl1 Hn1] & Ho1 & Hst1) (cs' & [Hc2 Hd2 Hi2 Hs2 Hm2] & [Hctl2 Hn2] & Ho2 & Hst2).
  exists (cs ++ cs'). split; [split; [done|congruence..|by rewrite Hm2, Hm1, app_assoc]|].
  split; [split; [by rewrite ctl_app, Hctl1, Hctl2|intros E; by rewrite Hn1, Hn2 by congruence]|]. split; [congruence|]. destruct Hst1 as [E1|[E1 E1']], Hst2 as [E2|[E2 E2']].
  - left. congruence.
  - right. split; congruence.
  - right. split; congruence.
  - congruence.
Qed.

Lemma acked_after v1 v2 v3 : quiet v1 v2 -> acked v2 v3 -> acked v1 v3.
Proof.
  intros (cs & [Hc1 Hd1 Hi1 Hs1 Hm1] & [Hctl1 Hn1] & Ho1 & Hst1) (cs' & [Hc2 Hd2 Hi2 Hs2 Hm2] & Hctl2 & Ho2 & Hst2).
  exists (cs ++ cs'). split; [split; [done|congruence..|by rewrite Hm2, Hm1, !app_assoc]|].
  split; [by rewrite ctl_app, Hctl1, Hctl2|done].
Qed.

Lemma dom_some {A} (m m' : gmap Z A) a : dom m' =@{gset Z} dom m -> is_Some (m !! a) -> is_Some (m' !! a).
Proof. intros E. rewrite <- !elem_of_dom, E. done. Qed.

Lemma quiet_ok v v' : quiet v v' -> view_ok v -> view_ok v'.
Proof.
  intros (cs & [Hc Hd Hi Hs Hm] & _ & Ho & Hst) [Hvc [a [Hvi Ha]] Hvo Hvs Hvk]. split.
  - done.
  - exists a. split; [congruence|by apply (dom_some _ _ a Hd)].
  - intros b Hb. rewrite Ho in Hb. by apply (dom_some _ _ b Hd), Hvo.
  - rewrite Ho, Hvs. destruct Hst as [->|[-> ->]]; [done|]. split; intros [?|?]; done.
  - congruence.
Qed.

Lemma quiet_upipe a c v : view_ok v -> is_Some (upipes v !! a) -> chan_ok c -> quiet v (set_upipe a c v).
Proof.
  intros Hv Ha Hc. exists []. split; [|by split_and!; auto].
  split; try done; [by apply set_upipe_chans; [apply Hv|]|by apply set_upipe_dom|by rewrite app_nil_r].
Qed.

Lemma quiet_send c v : view_ok v -> outpipe (me v) <> None -> is_activate c = true -> quiet v (send c v).
Proof.
  intros Hv Ho Hc. exists [c]. split; [split; try done; apply Hv|]. split_and!; auto; [|done]. unfold ctl. rewrite filter_cons_False; [done|by rewrite Hc].
Qed.

Lemma quiet_me p v : view_ok v -> inpipe p = inpipe (me v) -> outpipe p = outpipe (me v) -> has_sink p = has_sink (me v) ->
  state p = state (me v) \/ state (me v) = StActive /\ state p = StDelimited -> quiet v (set_me p v).
Proof. intros Hv Hi Ho Hs Hst. exists []. split; [|done]. split; try done; [apply Hv|by rewrite app_nil_r]. Qed.

Lemma raise_quiet e v : view_ok v -> exists v', raise e v = Ok v' /\ quiet v v'.
Proof.
  intros Hv. unfold raise. rewrite (ok_sink v Hv). cbn. eexists. split; [reflexivity|]. exists []. split; [|by split_and!; auto].
  split; try done; [apply Hv|by rewrite app_nil_r].
Qed.

Lemma close_quiet m v : view_ok v -> check m = true -> exists v', close_msg m v = Ok v' /\ quiet v v' /\ me v' = me v /\ upipes v' = upipes v.
Proof.
  intros Hv Hm. unfold close_msg. rewrite Hm. cbn. eexists. split; [reflexivity|]. split; [|done]. exists []. split; [|by split_and!; auto].
  split; try done; [apply Hv|by rewrite app_nil_r].
Qed.

Lemma quiet_channel v v' a : quiet v v' -> is_Some (upipes v !! a) -> is_Some (upipes v' !! a).
Proof. intros (cs & H & _). by apply (dom_some _ _ a (kept_dom _ _ _ H)). Qed.

(** One more quiet step. *)
Ltac quietly H := match type of H with
  | quiet ?v ?v1 => match goal with |- quiet v _ => apply (quiet_trans v v1 _ H) | |- acked v _ => apply (acked_after v v1 _ H) end end.

(** ** The operations of the user *)

Lemma delimit_ok v : view_ok v -> state (me v) = StActive \/ state (me v) = StPending ->
  exists v', delimit v = Ok v' /\ (quiet v v' \/ state (me v) = StPending /\ acked v v').
Proof.
  intros Hv [E|E]; unfold delimit; rewrite E; eexists; (split; [reflexivity|]); [left|right].
  - apply quiet_me; auto.
  - split; [done|]. exists []. split; [|done]. split; try done. apply Hv.
Qed.

Lemma readable_state v : readable v = true -> state (me v) = StActive \/ state (me v) = StPending.
Proof. unfold readable, is_state. intros H. apply andb_true_iff in H as [_ H]. apply orb_true_iff in H as [H|H]; apply bool_decide_eq_true in H; auto. Qed.

Definition reading_done (v v' : view) : Prop := quiet v v' \/ state (me v) = StPending /\ acked v v'.

Lemma reading_after v v1 v2 : quiet v v1 -> state (me v1) = state (me v) -> reading_done v1 v2 -> reading_done v v2.
Proof. intros H E [H2|[E2 H2]]; [left; by apply (quiet_trans v v1)|right; split; [congruence|by apply (acked_after v v1)]]. Qed.

Lemma read_ok v : view_ok v -> exists o v', read v = Ok (o, v') /\ reading_done v v' /\ (forall m, o = Some m -> check m = true).
Proof.
  intros Hv. unfold read. destruct (readable v) eqn:Er; cbn [negb]; [|exists None, v; split_and!; [done|left; by apply quiet_refl|done]].
  destruct (ok_in v Hv) as (a & Ea & Ha). destruct (deref_some a v Ha) as (c & Hc & Hd). rewrite Ea, Hd. cbn [obind].
  pose proof (up_read_ok c (ok_chans v Hv a c Hc)) as [Hc' Hm]. destruct (up_read c) as [o c']. cbn [fst snd] in *.
  pose proof (quiet_upipe a c' v Hv Ha Hc') as H1. set (v1 := set_upipe a c' v) in *. pose proof (quiet_ok v v1 H1 Hv) as Hv1.
  destruct o as [m|].
  - destruct (is_delimiter m).
    + destruct (delimit_ok v1 Hv1 (readable_state v Er)) as (v2 & -> & H2). cbn [obind].
      exists None, v2. split_and!; [done| |done]. by apply (reading_after v v1).
    + assert (Eo : outpipe (me v) <> None) by (intros Eo; apply (ok_out_state v Hv) in Eo; destruct (readable_state v Er), Eo; congruence).
      set (v2 := if negb (has_flag more m) then _ else v1). assert (Eo2 : outpipe (me v2) = outpipe (me v)) by (unfold v2; by destruct (negb _)).
      assert (H2 : quiet v v2) by (unfold v2; destruct (negb _); [quietly H1; apply quiet_me; auto|done]).
      set (v3 := if (0 <? lwm (me v2)) && _ then _ else v2).
      assert (H3 : quiet v v3) by (unfold v3; destruct (_ && _); [quietly H2; apply quiet_send; [by apply (quiet_ok v)|by rewrite Eo2|done]|done]).
      exists (Some m), v3. split_and!; [done|by left|]. intros m' [= <-]. by apply Hm.
  - exists None, (set_me (with_in_active false (me v1)) v1). split_and!; [done| |done]. left. quietly H1. apply quiet_me; auto.
Qed.

Lemma fetch_all_nonempty (c : upipe_t) : (fetch_all c).1 = true -> exists m l, fetched (fetch_all c).2 = m :: l.
Proof. unfold fetch_all. destruct (fetched c) eqn:E1; [|intros _; cbn; rewrite E1; eauto]. destruct (flushed c); cbn; [done|eauto]. Qed.

Lemma fetch_all_again (c : upipe_t) m l : fetched c = m :: l -> fetch_all c = (true, c).
Proof. unfold fetch_all. by intros ->. Qed.

Lemma check_read_ok v : view_ok v -> exists b v', check_read v = Ok (b, v') /\ reading_done v v'.
Proof.
  intros Hv. unfold check_read. destruct (readable v) eqn:Er; cbn [negb]; [|exists false, v; split; [done|left; by apply quiet_refl]].
  destruct (ok_in v Hv) as (a & Ea & Ha). destruct (deref_some a v Ha) as (c & Hc & Hd). rewrite Ea, Hd. cbn [obind].
  unfold up_check_read. pose proof (fetch_all_ok c (ok_chans v Hv a c Hc)) as Hc1. pose proof (fetch_all_nonempty c) as Hne.
  destruct (fetch_all c) as [b c1]. cbn [fst snd] in *.
  pose proof (quiet_upipe a c1 v Hv Ha Hc1) as H1. set (v1 := set_upipe a c1 v) in *. pose proof (quiet_ok v v1 H1 Hv) as Hv1.
  destruct b; cbn [negb]; [|eexists false, _; split; [reflexivity|]; left; quietly H1; apply quiet_me; auto].
  destruct (Hne eq_refl) as (m & l & Em). unfold up_probe, up_check_read. rewrite (fetch_all_again c1 m l Em). cbn [assertion obind]. rewrite Em.
  assert (Ha1 : is_Some (upipes v1 !! a)) by (by apply (quiet_channel v v1)).
  pose proof (quiet_upipe a c1 v1 Hv1 Ha1 Hc1) as H2. set (v2 := set_upipe a c1 v1) in *. pose proof (quiet_ok v1 v2 H2 Hv1) as Hv2.
  pose proof (quiet_trans v v1 v2 H1 H2) as H12.
  cbn [obind]. destruct (is_delimiter m); [|exists true, v2; split; [done|by left]].
  pose proof (up_read_ok c1 Hc1) as [Hc2 _]. pose proof (up_read_cases c1) as Hr. destruct (up_read c1) as [[m'|] c2]; [|destruct Hr as [Hr _]; congruence].
  cbn [assertion obind fst snd] in *. assert (Ha2 : is_Some (upipes v2 !! a)) by (by apply (quiet_channel v v2)).
  pose proof (quiet_upipe a c2 v2 Hv2 Ha2 Hc2) as H3. set (v3 := set_upipe a c2 v2) in *. pose proof (quiet_ok v2 v3 H3 Hv2) as Hv3.
  change (delimit _) with (delimit v3). destruct (delimit_ok v3 Hv3 (readable_state v Er)) as (v4 & -> & H4). cbn [obind].
  exists false, v4. split; [done|]. by apply (reading_after v v3); [apply (quiet_trans v v2)| |].
Qed.

Lemma check_write_quiet v : view_ok v -> quiet v (check_write v).2 /\ ((check_write v).1 = true -> (check_write v).2 = v /\ state (me v) = StActive).
Proof.
  intros Hv. unfold check_write. destruct (negb (out_active (me v)) || negb (is_state StActive v)) eqn:E; [split; [by apply quiet_refl|done]|].
  apply orb_false_iff in E as [_ E]. apply negb_false_iff, bool_decide_eq_true in E. cbn zeta.
  destruct (_ && _); cbn [fst snd]; [split; [apply quiet_me; auto|done]|split; [by apply quiet_refl|done]].
Qed.

Lemma write_ok m v : view_ok v -> check m = true -> exists b v', write m v = Ok (b, v') /\ quiet v v'.
Proof.
  intros Hv Hm. unfold write. pose proof (check_write_quiet v Hv) as [Hq Hw]. destruct (check_write v) as [b v1]. cbn [fst snd] in *.
  destruct b; cbn [negb]; [|by exists false, v1]. destruct (Hw eq_refl) as [-> Es].
  destruct (outpipe (me v)) as [a|] eqn:Eo; [|apply (ok_out_state v Hv) in Eo as [?|?]; congruence].
  pose proof (ok_out v Hv a Eo) as Ha. destruct (deref_some a v Ha) as (c & Hc & ->). cbn [obind].
  assert (H1 : quiet v (set_upipe a (up_write m (has_flag more m) c) v)).
  { apply quiet_upipe; [done|done|]. apply up_write_ok; [done|by intros ->|by apply (ok_chans v Hv a)]. }
  eexists true, _. split; [reflexivity|]. destruct (negb _); [|done]. quietly H1. apply quiet_me; auto. by apply (quiet_ok v).
Qed.

Lemma flush_ok v : view_ok v -> exists v', flush v = Ok v' /\ quiet v v'.
Proof.
  intros Hv. unfold flush. destruct (is_state StTerminating v); [exists v; split; [done|by apply quiet_refl]|].
  destruct (outpipe (me v)) as [a|] eqn:Eo; [|exists v; split; [done|by apply quiet_refl]].
  pose proof (ok_out v Hv a Eo) as Ha. destruct (deref_some a v Ha) as (c & Hc & ->). cbn [obind].
  pose proof (up_flush_ok c (ok_chans v Hv a c Hc)) as Hc1. destruct (up_flush c) as [b c1]. cbn [snd] in Hc1.
  pose proof (quiet_upipe a c1 v Hv Ha Hc1) as H1. eexists. split; [reflexivity|]. destruct b; cbn [negb]; [done|].
  quietly H1. apply quiet_send; [by apply (quiet_ok v)|cbn; by rewrite Eo|done].
Qed.

Lemma unwrite_all_ok a fuel : forall v c, view_ok v -> upipes v !! a = Some c -> length (incomplete c) = fuel ->
  exists v', unwrite_all fuel a v = Ok v' /\ quiet v v' /\ me v' = me v.
Proof.
  induction fuel as [|fuel IH]; intros v c Hv Hc Hf; cbn [unwrite_all];
    destruct (deref_some a v ltac:(by eexists)) as (c' & Hc' & ->); replace c' with c in * by congruence; cbn [obind];
    pose proof (up_unwrite_cases c) as Hu; destruct (up_unwrite c) as [[m|] c1].
  - destruct Hu as [Hu _]. rewrite Hu, length_app in Hf. cbn in Hf. lia.
  - exists v. split_and!; [done|by apply quiet_refl|done].
  - destruct Hu as (Hu & E1 & E2 & E3). pose proof (ok_chans v Hv a c Hc) as [Hall Hinc]. rewrite Hu in Hinc. apply Forall_app in Hinc as [Hinc Hmore].
    apply Forall_cons in Hmore as [-> _]. cbn [assertion obind].
    assert (Hitems : items_of c = items_of c1 ++ [m]) by (unfold items_of; by rewrite E1, E2, E3, Hu, <- !app_assoc).
    rewrite Hitems in Hall. apply Forall_app in Hall as [Hall Hm]. apply Forall_cons in Hm as [Hm _].
    assert (Ha : is_Some (upipes v !! a)) by (by eexists). assert (Hc1 : chan_ok c1) by done.
    pose proof (quiet_upipe a c1 v Hv Ha Hc1) as H1. pose proof (quiet_ok v _ H1 Hv) as Hv1.
    destruct (close_quiet m _ Hv1 Hm) as (v2 & -> & H2 & Eme & Eup). cbn [obind]. pose proof (quiet_ok _ v2 H2 Hv1) as Hv2.
    destruct (IH v2 c1 Hv2) as (v3 & -> & H3 & Eme3); [rewrite Eup; cbn; by rewrite lookup_insert_eq|rewrite Hu, length_app in Hf; cbn in Hf; lia|].
    exists v3. split; [done|]. split; [by apply (quiet_trans v _ v3 H1), (quiet_trans _ v2 v3 H2)|]. rewrite Eme3, Eme. done.
  - destruct Hu as [_ Hu]. rewrite Hu in Hf. done.
Qed.

Lemma rollback_ok v : view_ok v -> exists v', rollback v = Ok v' /\ quiet v v' /\ me v' = me v.
Proof.
  intros Hv. unfold rollback. destruct (outpipe (me v)) as [a|] eqn:Eo; [|exists v; split_and!; [done|by apply quiet_refl|done]].
  pose proof (ok_out v Hv a Eo) as Ha. destruct (deref_some a v Ha) as (c & Hc & ->). cbn [obind]. by apply (unwrite_all_ok a _ v c).
Qed.

Definition termed (v v' : view) : Prop := exists cs, kept v v' cs /\ ctl cs = [pipe_term] /\ outpipe (me v') = outpipe (me v) /\ state (me v') = StTerminated.

(** The end of [terminate]: the delimiter. *)
Definition finish (v : view) : outcome view :=
  match outpipe (me v) with
  | None => Ok v
  | Some a =>
      let! v := rollback v in
      let! (a, c) := deref (Some a) v in
      flush (set_upipe a (up_write init_delimiter false c) v)
  end.

Lemma finish_ok v : view_ok v -> exists v', finish v = Ok v' /\ quiet v v'.
Proof.
  intros Hv. unfold finish. destruct (outpipe (me v)) as [a|] eqn:Eo; [|exists v; split; [done|by apply quiet_refl]].
  destruct (rollback_ok v Hv) as (v1 & -> & H1 & Eme). cbn [obind]. pose proof (quiet_ok v v1 H1 Hv) as Hv1.
  assert (Ha : is_Some (upipes v1 !! a)) by (apply (ok_out v1 Hv1); by rewrite Eme).
  destruct (deref_some a v1 Ha) as (c & Hc & ->). cbn [obind].
  assert (H2 : quiet v1 (set_upipe a (up_write init_delimiter false c) v1)).
  { apply quiet_upipe; [done|done|]. apply up_write_ok; [done|done|by apply (ok_chans v1 Hv1 a)]. }
  destruct (flush_ok _ (quiet_ok v1 _ H2 Hv1)) as (v2 & -> & H3). exists v2. split; [done|].
  by apply (quiet_trans v v1 v2 H1), (quiet_trans v1 _ v2 H2).
Qed.

Lemma terminate_ok b v : view_ok v -> exists v', terminate b v = Ok v'
  /\ (quiet v v' /\ (b = false -> state (me v) = StTerminated \/ state (me v) = StTerminating \/ state (me v) = StDoubleTerminated)
    \/ (state (me v) = StActive \/ state (me v) = StDelimited) /\ termed v v' \/ state (me v) = StPending /\ acked v v').
Proof.
  intros Hv. unfold terminate. set (v0 := set_me (with_delay b (me v)) v).
  assert (H0 : quiet v v0) by (apply quiet_me; auto). pose proof (quiet_ok v v0 H0 Hv) as Hv0.
  change (state (me v0)) with (state (me v)). cbn zeta.
  assert (Hout : forall w, view_ok w -> exists v', finish (set_me (with_out_active false (me w)) w) = Ok v' /\ quiet w v').
  { intros w Hw. assert (H1 : quiet w (set_me (with_out_active false (me w)) w)) by (apply quiet_me; auto).
    destruct (finish_ok _ (quiet_ok w _ H1 Hw)) as (v' & E & H2). exists v'. split; [done|]. by eapply (quiet_trans w); [|done]. }
  assert (Hterm : state (me v) = StActive \/ state (me v) = StDelimited ->
    exists v', finish (set_me (with_out_active false (me (set_me (with_state StTerminated (me v0)) (send pipe_term v0)))) (set_me (with_state StTerminated (me v0)) (send pipe_term v0))) = Ok v' /\ termed v v').
  { intros Es. set (w := set_me (with_state StTerminated (me v0)) (send pipe_term v0)).
    assert (Ho : outpipe (me v) <> None) by (intros Eo; apply (ok_out_state v Hv) in Eo as [?|?]; destruct Es; congruence).
    assert (Hw : view_ok w).
    { destruct Hv0 as [Hc Hi Hout0 Hst Hs]. split; try done. cbn. split; [intros E; by destruct Ho|by intros []]. }
    destruct (Hout w Hw) as (v' & E & (cs & [Kc Kd Ki Ks Km] & [Hctl _] & Eo & Est)). exists v'. split; [done|].
    exists (pipe_term :: cs). split; [split; try done; by rewrite Km; cbn; rewrite <- app_assoc|].
    split; [unfold ctl in *; rewrite filter_cons_True by done; by rewrite Hctl|]. split; [done|].
    destruct Est as [->|[? _]]; done. }
  destruct (state (me v)) eqn:Es.
  - destruct (Hterm ltac:(by left)) as (v' & E & Ht). exists v'. split; [exact E|]. right. left. auto.
  - destruct (Hterm ltac:(by right)) as (v' & E & Ht). exists v'. split; [exact E|]. right. left. auto.
  - change (delay (me v0)) with b. destruct b; cbn [negb].
    + destruct (Hout v0 Hv0) as (v' & E & H1). exists v'. split; [exact E|]. left. split; [by apply (quiet_trans v v0)|done].
    + cbn [outpipe me set_me with_out_active with_state send with_outpipe]. eexists. split; [reflexivity|]. right. right. split; [done|]. exists [].
      split; [|done]. split; try done. apply Hv.
  - exists v0. auto 10.
  - exists v0. auto 10.
  - exists v0. auto 10.
Qed.

(** A new ypipe, announced to the writer. *)
Definition hicced (v v' : view) : Prop := exists a, upipes v !! a = None /\ upipes v' = <[a := new_channel]> (upipes v)
  /\ inpipe (me v') = Some a /\ outpipe (me v') = outpipe (me v) /\ state (me v') = state (me v) /\ has_sink (me v') = has_sink (me v)
  /\ commands v' = commands v ++ [hiccup_ a].

Lemma hiccup_ok v : view_ok v -> quiet v (hiccup v) \/ state (me v) = StActive /\ hicced v (hiccup v).
Proof.
  intros Hv. unfold hiccup, is_state. destruct (bool_decide_reflect (state (me v) = StActive)) as [Es|]; cbn [negb]; [right|left; by apply quiet_refl].
  split; [done|]. set (a := fresh _). exists a. split_and!; try done.
  pose proof (is_fresh (dom (upipes v) : gset Z)) as Hf. by apply not_elem_of_dom in Hf.
Qed.

(** ** The commands *)

Lemma activate_read_ok v : view_ok v -> exists v', process_activate_read v = Ok v' /\ quiet v v'.
Proof.
  intros Hv. unfold process_activate_read. destruct (_ && _); [|exists v; split; [done|by apply quiet_refl]].
  assert (H1 : quiet v (set_me (with_in_active true (me v)) v)) by (apply quiet_me; auto).
  destruct (raise_quiet read_activated _ (quiet_ok v _ H1 Hv)) as (v' & -> & H2). exists v'. split; [done|]. by eapply (quiet_trans v); [|done].
Qed.

Lemma activate_write_ok n v : view_ok v -> exists v', process_activate_write n v = Ok v' /\ quiet v v'.
Proof.
  intros Hv. unfold process_activate_write. set (v0 := set_me (with_peers_msgs_read n (me v)) v).
  assert (H0 : quiet v v0) by (apply quiet_me; auto). pose proof (quiet_ok v v0 H0 Hv) as Hv0.
  destruct (_ && _); [|by exists v0].
  assert (H1 : quiet v0 (set_me (with_out_active true (me v0)) v0)) by (apply quiet_me; auto).
  destruct (raise_quiet write_activated _ (quiet_ok v0 _ H1 Hv0)) as (v' & -> & H2). exists v'. split; [done|].
  by eapply (quiet_trans v v0); [|eapply (quiet_trans v0)].
Qed.

Lemma drain_kept a fuel : forall v c, (forall x d, upipes v !! x = Some d -> chan_ok d) -> upipes v !! a = Some c -> drain_fuel c = fuel ->
  exists v', drain fuel a v = Ok v' /\ me v' = me v /\ kept v v' [].
Proof.
  induction fuel as [|fuel IH]; intros v c Hk Hc Hf; cbn [drain];
    destruct (deref_some a v ltac:(by eexists)) as (c' & Hc' & ->); replace c' with c in * by congruence; cbn [obind];
    assert (Ha : is_Some (upipes v !! a)) by (by eexists);
    pose proof (up_read_ok c (Hk a c Hc)) as [Hc1 Hm]; pose proof (up_read_cases c) as Hu;
    destruct (up_read c) as [[m|] c1]; cbn [fst snd] in *; pose proof (set_upipe_chans a c1 v Hk Hc1) as Hk1;
    pose proof (set_upipe_dom a c1 v Ha) as Hd1.
  - destruct Hu as [Hu _]. unfold drain_fuel in Hf. rewrite Hu in Hf. done.
  - eexists. split; [reflexivity|]. split; [done|]. split; try done. by rewrite app_nil_r.
  - destruct Hu as [Hu _]. unfold drain_fuel in Hf. rewrite Hu in Hf. injection Hf as Hf.
    unfold close_msg. rewrite (Hm m eq_refl). cbn [assertion obind]. set (v2 := mkView _ _ _ _ _).
    destruct (IH v2 c1 Hk1) as (v3 & -> & Eme & [K1 K2 K3 K4 K5]); [cbn; by rewrite lookup_insert_eq|done|].
    exists v3. split; [done|]. split; [done|]. split; try done. by rewrite K2.
  - destruct Hu as (E1 & E2 & _). unfold drain_fuel in Hf. by rewrite E1, E2 in Hf.
Qed.

Lemma kept_quiet v v' : me v' = me v -> kept v v' [] -> quiet v v'.
Proof. intros Eme Hk. exists []. split; [done|]. rewrite Eme. by split_and!; auto. Qed.

(** The old ypipe is gone, the new one is written to. *)
Definition replugged (a : Z) (v v' : view) : Prop := exists b, outpipe (me v) = Some b /\ dom (upipes v') =@{gset Z} dom (upipes v) ∖ {[b]}
  /\ (forall x c, upipes v' !! x = Some c -> chan_ok c) /\ inpipe (me v') = inpipe (me v) /\ outpipe (me v') = Some a
  /\ state (me v') = state (me v) /\ has_sink (me v') = has_sink (me v) /\ commands v' = commands v.

Lemma process_hiccup_ok a v : view_ok v -> outpipe (me v) <> None -> exists v', process_hiccup a v = Ok v' /\ replugged a v v'.
Proof.
  intros Hv Ho. unfold process_hiccup. destruct (outpipe (me v)) as [b|] eqn:Eo; [|done].
  pose proof (ok_out v Hv b Eo) as Hb. destruct (deref_some b v Hb) as (c & Hc & ->). cbn [obind].
  pose proof (up_flush_ok c (ok_chans v Hv b c Hc)) as Hc1. destruct (up_flush c) as [x c1]. cbn [snd] in Hc1.
  pose proof (quiet_upipe b c1 v Hv Hb Hc1) as H1. pose proof (quiet_ok v _ H1 Hv) as Hv1.
  destruct (drain_kept b (drain_fuel c1) _ c1 (ok_chans _ Hv1)) as (v2 & -> & Eme & Hk2); [cbn; by rewrite lookup_insert_eq|done|]. cbn [obind].
  pose proof (kept_quiet _ v2 Eme Hk2) as H2. assert (Ecmd : commands v2 = commands v) by (rewrite (kept_commands _ _ _ Hk2); by rewrite app_nil_r).
  pose proof (quiet_ok _ v2 H2 Hv1) as Hv2. destruct (quiet_trans v _ v2 H1 H2) as (cs & [Kc Kd Ki Ks Km] & _ & Kout & _).
  set (v3 := set_me _ _).
  assert (H3 : replugged a v v3).
  { exists b. split; [done|]. split; [cbn; rewrite dom_delete_L; by f_equal|]. split.
    { intros y d. cbn. destruct (decide (y = b)) as [->|]; [by rewrite lookup_delete_eq|]. rewrite lookup_delete_ne by done. apply Kc. }
    split_and!; try done; cbn; by rewrite Eme. }
  destruct (is_state StActive v3); [|by exists v3]. unfold raise. replace (has_sink (me v3)) with true; [|by destruct H3 as (? & _ & _ & _ & _ & _ & _ & -> & _); rewrite (ok_sink v Hv)].
  cbn [assertion obind]. eexists. split; [reflexivity|]. destruct H3 as (b' & ?). exists b'. done.
Qed.

Definition pended (v v' : view) : Prop := exists cs, kept v v' cs /\ ctl cs = [] /\ outpipe (me v') = outpipe (me v) /\ state (me v') = StPending.

Definition doubled (v v' : view) : Prop := kept v v' [pipe_term_ack] /\ outpipe (me v') = None /\ state (me v') = StDoubleTerminated.

Lemma process_pipe_term_ok v : view_ok v ->
  match state (me v) with
  | StActive => exists v', process_pipe_term v = Ok v' /\ (acked v v' \/ pended v v')
  | StDelimited => exists v', process_pipe_term v = Ok v' /\ acked v v'
  | StTerminated => exists v', process_pipe_term v = Ok v' /\ doubled v v'
  | _ => True
  end.
Proof.
  intros Hv. unfold process_pipe_term. destruct (state (me v)) eqn:Es; try done.
  - destruct (delay (me v)); cbn [negb]; eexists; (split; [reflexivity|]); [right|left]; exists []; (split; [|done]); (split; try done; [apply Hv|by rewrite app_nil_r]) || (split; try done; apply Hv).
  - eexists. split; [reflexivity|]. exists []. split; [|done]. split; try done. apply Hv.
  - eexists. split; [reflexivity|]. split; [|done]. split; try done. apply Hv.
Qed.

(** The end is gone, with the ypipe it read; [cs] was sent at last. *)
Definition gone_with (v v' : view) (cs : list command) : Prop := exists a, inpipe (me v) = Some a /\ dom (upipes v') =@{gset Z} dom (upipes v) ∖ {[a]}
  /\ (forall x c, upipes v' !! x = Some c -> chan_ok c) /\ commands v' = commands v ++ cs.

Lemma process_pipe_term_ack_ok v : view_ok v -> state (me v) = StTerminated \/ state (me v) = StTerminating \/ state (me v) = StDoubleTerminated ->
  exists v', process_pipe_term_ack v = Ok v' /\ gone_with v v' (if bool_decide (state (me v) = StTerminated) then [pipe_term_ack] else []).
Proof.
  intros Hv Hst. unfold process_pipe_term_ack, raise. rewrite (ok_sink v Hv). cbn [assertion obind].
  set (v1 := mkView _ _ _ _ _). assert (H1 : quiet v v1).
  { exists []. split; [split; try done; [apply Hv|by rewrite app_nil_r]|by split_and!; auto]. }
  set (cs := if bool_decide _ then _ else _).
  assert (H2 : exists v2, match state (me v1) with
      | StTerminated => Ok (send pipe_term_ack (set_me (with_outpipe None (me v1)) v1))
      | StTerminating | StDoubleTerminated => Ok v1
      | _ => Aborted "state == terminating || state == double_terminated" end = Ok v2
    /\ upipes v2 = upipes v /\ inpipe (me v2) = inpipe (me v) /\ commands v2 = commands v ++ cs).
  { unfold cs. change (state (me v1)) with (state (me v)). destruct Hst as [->|[->| ->]]; (eexists; split; [reflexivity|]); try done; by rewrite app_nil_r. }
  destruct H2 as (v2 & -> & Eup & Ein & Ecmd). cbn [obind]. rewrite Ein. destruct (ok_in v Hv) as (a & Ea & Ha). rewrite Ea.
  assert (Ha2 : is_Some (upipes v2 !! a)) by (by rewrite Eup). destruct (deref_some a v2 Ha2) as (c & Hc & ->). cbn [obind].
  assert (Hchans : forall x d, upipes v2 !! x = Some d -> chan_ok d) by (rewrite Eup; apply Hv).
  destruct (drain_kept a _ v2 c Hchans Hc eq_refl) as (v3 & -> & _ & [Hk Hd _ _ Hcmd]). rewrite app_nil_r in Hcmd. cbn [obind]. eexists. split; [reflexivity|]. exists a. split; [done|].
  split; [cbn; rewrite dom_delete_L; f_equal; by rewrite Hd, Eup|]. split; [|cbn; by rewrite Hcmd].
  intros x d. cbn. destruct (decide (x = a)) as [->|]; [by rewrite lookup_delete_eq|]. rewrite lookup_delete_ne by done. apply Hk.
Qed.
