(* ===== verification/PipeSafety.v ===== *)
(** * The two ends of a connection and their mailboxes

    The protocol of the commands of two pipes, as an invariant of every run. *)

From stdpp Require Import tactics gmap.
From S2P Require Import Prelude Msg Yqueue Ypipe Pipe PipeProtocol.

(** ** Runs *)

(** An end of the connection, until it is deleted, and the commands on their way
    to it. *)
Record endpoint := mkEnd { pipe : option pipe_t; mail : list command }.

Record net := mkNet { left : endpoint; right : endpoint; heap : gmap Z upipe_t }.

Definition flip (n : net) : net := mkNet (right n) (left n) (heap n).

Inductive user_op := CheckRead | Read | CheckWrite | Write (m : msg_t) | Rollback | Flush | Terminate (delay : bool) | Hiccup.

Definition call (o : user_op) (v : view) : outcome view :=
  match o with
  | CheckRead => let! (_, v) := check_read v in Ok v
  | Read => let! (_, v) := read v in Ok v
  | CheckWrite => Ok (check_write v).2
  | Write m => let! (_, v) := write m v in Ok v
  | Rollback => rollback v
  | Flush => flush v
  | Terminate d => terminate d v
  | Hiccup => Ok (hiccup v)
  end.

(** [Deliver]: the thread of the end takes its next command. *)
Inductive action := User (o : user_op) | Deliver.

(** Commands are sent to an object, which must exist. *)
Definition post (cs : list command) (e : endpoint) : outcome endpoint :=
  match cs, pipe e with
  | _ :: _, None => Aborted "freed pipe"
  | _, _ => Ok (mkEnd (pipe e) (mail e ++ cs))
  end.

Definition act_left (a : action) (n : net) : outcome net :=
  match pipe (left n) with
  | None => Aborted "freed pipe"
  | Some p =>
      let v := mkView p (heap n) [] [] [] in
      match a with
      | User o =>
          let! v := call o v in
          let! r := post (commands v) (right n) in
          Ok (mkNet (mkEnd (Some (me v)) (mail (left n))) r (upipes v))
      | Deliver =>
          match mail (left n) with
          | [] => Ok n
          | c :: rest =>
              let! (alive, v) := process_command c v in
              let! r := post (commands v) (right n) in
              Ok (mkNet (mkEnd (if alive then Some (me v) else None) rest) r (upipes v))
          end
      end
  end.

Definition act (side : bool) (a : action) (n : net) : outcome net :=
  if side then act_left a n else ofmap flip (act_left a (flip n)).

(** The user of an end lets it alone when it is gone; messages are valid. *)
Definition allowed (side : bool) (a : action) (n : net) : Prop :=
  is_Some (pipe (if side then left n else right n)) /\ match a with User (Write m) => check m = true | _ => True end.

(** ** The protocol *)

Definition st (e : endpoint) : option state_t := state <$> pipe e.

Definition opened (s : state_t) : Prop := s = StActive \/ s = StDelimited.

(** The states of the ends and the terminating commands on their way to them. *)
Inductive protocol_ : option state_t -> option state_t -> list command -> list command -> Prop :=
| p_open s s' : opened s -> opened s' -> protocol_ (Some s) (Some s') [] []
| p_asked s : opened s -> protocol_ (Some StTerminated) (Some s) [] [pipe_term]
| p_pending : protocol_ (Some StTerminated) (Some StPending) [] []
| p_acked : protocol_ (Some StTerminated) (Some StTerminating) [pipe_term_ack] []
| p_both : protocol_ (Some StTerminated) (Some StTerminated) [pipe_term] [pipe_term]
| p_one_doubled : protocol_ (Some StDoubleTerminated) (Some StTerminated) [] [pipe_term; pipe_term_ack]
| p_doubled : protocol_ (Some StDoubleTerminated) (Some StDoubleTerminated) [pipe_term_ack] [pipe_term_ack]
| p_last s : s = StTerminating \/ s = StDoubleTerminated -> protocol_ None (Some s) [] [pipe_term_ack]
| p_gone : protocol_ None None [] [].

Definition protocol (sx sy : option state_t) (tx ty : list command) : Prop := protocol_ sx sy tx ty \/ protocol_ sy sx ty tx.

Definition hics (cs : list command) : list Z := omap (fun c => match c with hiccup_ a => Some a | _ => None end) cs.

Record mail_ok (e : endpoint) (tail : list command) : Prop := {
  mail_shape : ctl (mail e) = map hiccup_ (hics (mail e)) ++ tail;
  mail_last l l' : mail e = l ++ pipe_term_ack :: l' -> l' = [];
  mail_hics p : pipe e = Some p -> hics (mail e) <> [] -> opened (state p) \/ state p = StTerminated;
  mail_gone : pipe e = None -> mail e = []
}.

Definition out_of (e : endpoint) : option Z := pipe e ≫= outpipe.
Definition in_of (e : endpoint) : option Z := pipe e ≫= inpipe.

(** The ypipes from [w] to [r]. *)
Definition chain (w r : endpoint) : list Z :=
  match out_of w with Some a => a :: hics (mail w) | None => option_list (in_of r) end.

Record end_ok (e : endpoint) : Prop := {
  end_in p : pipe e = Some p -> is_Some (inpipe p);
  end_out p : pipe e = Some p -> outpipe p = None <-> state p = StTerminating \/ state p = StDoubleTerminated;
  end_sink p : pipe e = Some p -> has_sink p = true
}.

Record net_ok (n : net) : Prop := {
  net_ends : end_ok (left n) /\ end_ok (right n);
  net_protocol : exists tl tr, protocol (st (left n)) (st (right n)) tl tr /\ mail_ok (left n) tl /\ mail_ok (right n) tr;
  net_chains : last (chain (left n) (right n)) = in_of (right n) /\ last (chain (right n) (left n)) = in_of (left n);
  net_nodup : NoDup (chain (left n) (right n) ++ chain (right n) (left n));
  net_heap a : is_Some (heap n !! a) <-> a ∈ chain (left n) (right n) ++ chain (right n) (left n);
  net_items a c : heap n !! a = Some c -> chan_ok c
}.

Lemma protocol_flip sx sy tx ty : protocol sx sy tx ty -> protocol sy sx ty tx.
Proof. intros [H|H]; [by right|by left]. Qed.

Lemma net_ok_flip n : net_ok n -> net_ok (flip n).
Proof.
  intros [[Hl Hr] (tl & tr & Hp & Ml & Mr) [C1 C2] Hn Hh Hi]. split; cbn; try done.
  - exists tr, tl. split; [by apply protocol_flip|done].
  - by rewrite (Permutation_app_comm (chain (right n) (left n))).
  - intros a. rewrite Hh, !elem_of_app. tauto.
Qed.

(** ** Mailboxes *)

Lemma hics_ctl cs : hics (ctl cs) = hics cs.
Proof. induction cs as [|c cs IH]; [done|]. destruct c; try exact IH. exact (f_equal (cons _) IH). Qed.

Lemma hics_app cs cs' : hics (cs ++ cs') = hics cs ++ hics cs'.
Proof. apply omap_app. Qed.

Lemma ctl_in c cs : is_activate c = false -> c ∈ cs <-> c ∈ ctl cs.
Proof. intros Hc. unfold ctl. rewrite list_elem_of_filter. naive_solver. Qed.

(** The acknowledgement is the last command. *)
Definition ack_last (cs : list command) : Prop := forall l l', cs = l ++ pipe_term_ack :: l' -> l' = [].

Lemma ack_last_none cs : pipe_term_ack ∉ cs -> ack_last cs.
Proof. intros H l l' ->. destruct H. apply elem_of_app. right. by left. Qed.

Lemma ack_last_app cs cs' : pipe_term_ack ∉ cs -> ack_last cs' -> ack_last (cs ++ cs').
Proof.
  intros Hn Hl. induction cs as [|c cs IH]; [done|]. apply not_elem_of_cons in Hn as [Hc Hn].
  intros [|c' l] l' E; cbn in E; [injection E as E1 E2; congruence|]. injection E as <- E. by apply (IH Hn l).
Qed.

(** Commands that are no hiccups arrive. *)
Lemma mail_append e tail cs tcs : mail_ok e tail -> pipe_term_ack ∉ tail -> is_Some (pipe e) ->
  ctl cs = tcs -> hics tcs = [] -> ack_last cs -> mail_ok (mkEnd (pipe e) (mail e ++ cs)) (tail ++ tcs).
Proof.
  intros [Hs Hl Hh Hg] Hk [p Hp] Hcs Ht Ha. assert (Hc : hics cs = []) by (by rewrite <- hics_ctl, Hcs).
  split; cbn [pipe mail].
  - by rewrite ctl_app, hics_app, Hc, app_nil_r, Hs, Hcs, app_assoc.
  - apply (ack_last_app (mail e) cs); [|done]. rewrite (ctl_in pipe_term_ack), Hs, elem_of_app by done. intros [H|H]; [|done].
    apply list_elem_of_fmap in H as (? & ? & _). done.
  - rewrite hics_app, Hc, app_nil_r. done.
  - congruence.
Qed.

Lemma mail_append_nil e tail : mail_ok e tail -> mail_ok (mkEnd (pipe e) (mail e ++ [])) tail.
Proof. rewrite app_nil_r. by destruct e. Qed.

(** The end changes, its mail stays. *)
Lemma mail_end e tail p p' : mail_ok e tail -> pipe e = Some p ->
  (hics (mail e) <> [] -> opened (state p) \/ state p = StTerminated -> opened (state p') \/ state p' = StTerminated) ->
  mail_ok (mkEnd (Some p') (mail e)) tail.
Proof.
  intros [Hs Hl Hh Hg] Hp Hst. split; cbn [pipe mail]; try done. intros q [= <-] Hne. by apply Hst, (Hh p).
Qed.

(** The head of the mail is taken. *)
Lemma mail_head_activate e tail c rest : mail_ok e tail -> mail e = c :: rest -> is_activate c = true ->
  mail_ok (mkEnd (pipe e) rest) tail /\ hics rest = hics (mail e).
Proof.
  intros [Hs Hl Hh Hg] E Hc. rewrite E in *. assert (Ec : ctl (c :: rest) = ctl rest) by (unfold ctl; rewrite filter_cons_False; [done|by rewrite Hc]).
  assert (Eh : hics (c :: rest) = hics rest) by (by destruct c). rewrite Ec, Eh in *. split; [|done]. split; cbn [pipe mail]; try done.
  - intros l l' E'. apply (Hl (c :: l) l'). by rewrite E'.
  - intros Hp. specialize (Hg Hp). done.
Qed.

Lemma mail_head_control e tail c rest : mail_ok e tail -> mail e = c :: rest -> c = pipe_term \/ c = pipe_term_ack ->
  exists tail', tail = c :: tail' /\ hics (mail e) = [] /\ hics rest = [] /\ ctl rest = tail'
    /\ (c = pipe_term_ack -> rest = []) /\ ack_last rest.
Proof.
  intros [Hs Hl Hh Hg] E Hc. rewrite E in *. assert (Ec : ctl (c :: rest) = c :: ctl rest) by (unfold ctl; rewrite filter_cons_True; [done|by destruct Hc as [->| ->]]).
  assert (Eh : hics (c :: rest) = hics rest) by (by destruct Hc as [->| ->]). rewrite Ec, Eh in *.
  destruct (hics rest) as [|a l]; [|destruct Hc as [->| ->]; done]. exists (ctl rest). split_and!; try done.
  - intros ->. by apply (Hl [] rest).
  - intros l l' E'. apply (Hl (c :: l) l'). by rewrite E'.
Qed.

Lemma mail_head_hiccup e tail a rest : mail_ok e tail -> mail e = hiccup_ a :: rest ->
  mail_ok (mkEnd (pipe e) rest) tail /\ hics (mail e) = a :: hics rest.
Proof.
  intros [Hs Hl Hh Hg] E. rewrite E in *. split; [|done]. split; cbn [pipe mail].
  - cbn [hics omap list_omap map app] in Hs. unfold ctl in *. rewrite filter_cons_True in Hs by done. by injection Hs as Hs.
  - intros l l' E'. apply (Hl (hiccup_ a :: l) l'). by rewrite E'.
  - intros p Hp _. by apply (Hh p Hp).
  - intros Hp. specialize (Hg Hp). done.
Qed.

Create HintDb protocol.
#[local] Hint Constructors protocol_ : protocol.

(** ** The protocol from the left *)

Lemma protocol_opened s s' sy tx ty : opened s -> opened s' -> protocol (Some s) sy tx ty -> protocol (Some s') sy tx ty.
Proof.
  intros Hs Hs' [Hp|Hp]; inversion Hp; subst; unfold protocol; auto with protocol; exfalso; unfold opened in *; intuition congruence.
Qed.

Lemma protocol_acks s sy tx ty : protocol (Some s) sy tx ty -> pipe_term_ack ∈ ty -> s = StTerminating \/ s = StDoubleTerminated.
Proof.
  intros [H|H] Hk; inversion H; subst; auto; try (by apply elem_of_nil in Hk); try (by apply list_elem_of_singleton in Hk); done.
Qed.

Lemma last_in {A} (l : list A) x : last l = Some x -> x ∈ l.
Proof. intros H. apply last_Some_elem_of. done. Qed.

Lemma left_view n p : net_ok n -> pipe (left n) = Some p -> view_ok (mkView p (heap n) [] [] []).
Proof.
  intros [[Hl Hr] _ [C1 C2] Hn Hh Hi] Hp. split; cbn [me upipes]; [done| | |by apply Hl|by apply Hl].
  - destruct (end_in _ Hl p Hp) as [a Ha]. exists a. split; [done|]. apply Hh, elem_of_app. right. apply last_in. rewrite C2. unfold in_of. by rewrite Hp.
  - intros a Ha. apply Hh, elem_of_app. left. unfold chain, out_of. rewrite Hp. cbn. rewrite Ha. by left.
Qed.

(** An end that writes has a peer. *)
Lemma right_alive n p : net_ok n -> pipe (left n) = Some p -> outpipe p <> None -> is_Some (pipe (right n)).
Proof.
  intros Hn Hp Ho. destruct (pipe (right n)) eqn:Er; [by eexists|]. pose proof (proj1 (net_chains n Hn)) as C.
  unfold chain, out_of, in_of in C. rewrite Hp, Er in C. cbn in C. destruct (outpipe p); [|done]. by apply last_None in C.
Qed.

Lemma post_ok cs e : cs = [] \/ is_Some (pipe e) -> post cs e = Ok (mkEnd (pipe e) (mail e ++ cs)).
Proof. intros [->|[p Hp]]; unfold post; [done|]. rewrite Hp. by destruct cs. Qed.

Lemma mail_send n p tl tr cs tcs : protocol (st (left n)) (st (right n)) tl tr -> mail_ok (right n) tr -> pipe (left n) = Some p ->
  outpipe p <> None -> end_ok (left n) -> is_Some (pipe (right n)) -> ctl cs = tcs -> hics tcs = [] -> ack_last cs ->
  mail_ok (mkEnd (pipe (right n)) (mail (right n) ++ cs)) (tr ++ tcs).
Proof.
  intros Hpr Hm Hp Ho He Ha Hcs Ht Hk. apply mail_append; try done. intros Hin. unfold st in Hpr. rewrite Hp in Hpr. cbn in Hpr.
  apply protocol_acks in Hpr; [|done]. by apply Ho, (end_out _ He p Hp).
Qed.

Lemma ctl_nil_no_ack cs : ctl cs = [] -> ack_last cs.
Proof. intros H. apply ack_last_none. rewrite (ctl_in pipe_term_ack), H by done. apply not_elem_of_nil. Qed.

Lemma end_ok_new p' mail' v' : view_ok v' -> me v' = p' -> end_ok (mkEnd (Some p') mail').
Proof. intros Hv <-. split; cbn; intros q [= <-]; [|apply Hv|apply Hv]. destruct (ok_in v' Hv) as (a & -> & _). by eexists. Qed.

(** ** Steps of the left end *)

Local Arguments hics : simpl never.
Local Arguments ctl : simpl never.

Section Left.
Variables (n : net) (p : pipe_t) (v' : view) (mail' : list command).
Hypothesis Hn : net_ok n.
Hypothesis Hp : pipe (left n) = Some p.
Abbreviation v0 := (mkView p (heap n) [] [] []).

(** The new state of the net. *)
Definition after_left (alive : bool) : net :=
  mkNet (mkEnd (if alive then Some (me v') else None) mail') (mkEnd (pipe (right n)) (mail (right n) ++ commands v')) (upipes v').

Lemma heap_domain (h : gmap Z upipe_t) (l : list Z) : (forall a, is_Some (h !! a) <-> a ∈ l) <-> dom h =@{gset Z} list_to_set l.
Proof.
  split.
  - intros H. apply set_eq. intros a. by rewrite elem_of_dom, H, elem_of_list_to_set.
  - intros H a. by rewrite <- elem_of_dom, H, elem_of_list_to_set.
Qed.

(** The mail is the old one, or its head was a notification. *)
Definition same_mail : Prop := mail' = mail (left n) \/ exists c, is_activate c = true /\ mail (left n) = c :: mail'.

Lemma same_mail_ok tl : mail_ok (left n) tl -> same_mail -> mail_ok (mkEnd (Some p) mail') tl /\ hics mail' = hics (mail (left n)).
Proof.
  intros Hm [->|(c & Hc & E)].
  - split; [|done]. rewrite <- Hp. by destruct (left n).
  - rewrite <- Hp. by apply (mail_head_activate (left n) tl c).
Qed.

Lemma quiet_net : quiet v0 v' -> same_mail -> post (commands v') (right n) = Ok (right (after_left true)) /\ net_ok (after_left true).
Proof.
  intros Hq Hmail. pose proof (left_view n p Hn Hp) as Hv. pose proof (quiet_ok _ _ Hq Hv) as Hv'.
  destruct Hq as (cs & [Kc Kd Ki Ks Km] & [Hctl Hcs] & Ho & Hst). cbn [me upipes commands app] in *. subst cs.
  pose proof Hn as [[El Er] (tl & tr & Hpr & Ml & Mr) [C1 C2] Hnd Hh Hi].
  assert (Halive : commands v' = [] \/ is_Some (pipe (right n))).
  { destruct (outpipe p) as [a|] eqn:Eo; [right|left; auto]. apply (right_alive n p Hn Hp). congruence. }
  split; [by apply post_ok|]. destruct (same_mail_ok tl Ml Hmail) as [Ml' Ehics].
  assert (Hlr : chain (left (after_left true)) (right (after_left true)) = chain (left n) (right n)).
  { unfold chain, out_of, in_of, after_left. cbn. rewrite Hp. cbn. rewrite Ho. by rewrite Ehics. }
  assert (Hrl : chain (right (after_left true)) (left (after_left true)) = chain (right n) (left n)).
  { unfold chain, out_of, in_of, after_left. cbn. rewrite Hp. cbn. rewrite Ki, hics_app.
    assert (Eh : hics (commands v') = []) by (by rewrite <- hics_ctl, Hctl). by rewrite Eh, app_nil_r. }
  split.
  - split; [by apply (end_ok_new _ _ v')|]. destruct Er. by split.
  - exists tl, tr. split_and!.
    + unfold st, after_left in *. cbn. rewrite Hp in Hpr. cbn in Hpr. destruct Hst as [->|[E ->]]; [done|].
      eapply protocol_opened; [..|exact Hpr]; [left|right]; done.
    + eapply (mail_end (mkEnd (Some p) mail')); [done|done|]. intros _ Hs. destruct Hst as [->|[E ->]]; [done|left; by right].
    + unfold after_left. cbn [right]. destruct (outpipe p) as [a|] eqn:Eo; [|rewrite (Hcs eq_refl); by apply mail_append_nil].
      rewrite <- (app_nil_r tr). eapply (mail_send n p tl tr); try done; [congruence| |by apply ctl_nil_no_ack].
      apply (right_alive n p Hn Hp). congruence.
  - rewrite Hlr, Hrl. unfold in_of in *. cbn. rewrite Ki. rewrite Hp in C2. done.
  - by rewrite Hlr, Hrl.
  - intros a. rewrite Hlr, Hrl, <- Hh. cbn. by rewrite <- !elem_of_dom, Kd.
  - cbn. apply Kc.
Qed.

Lemma view_after : outpipe (me v') = outpipe p -> inpipe (me v') = inpipe p -> has_sink (me v') = has_sink p ->
  (outpipe (me v') = None <-> state (me v') = StTerminating \/ state (me v') = StDoubleTerminated) -> end_ok (mkEnd (Some (me v')) mail').
Proof.
  intros Ho Hi Hs Hst. destruct (net_ends n Hn) as [El _]. split; cbn; intros q [= <-]; [|done|rewrite Hs; by apply (end_sink _ El)].
  rewrite Hi. by apply (end_in _ El).
Qed.

(** The end goes on writing, in another state. *)
Lemma go_net cs tl tr tl' tcs : kept v0 v' cs -> outpipe (me v') = outpipe p -> outpipe p <> None ->
  state (me v') <> StTerminating -> state (me v') <> StDoubleTerminated ->
  protocol (st (left n)) (st (right n)) tl tr -> mail_ok (right n) tr ->
  protocol (Some (state (me v'))) (st (right n)) tl' (tr ++ tcs) -> mail_ok (mkEnd (Some (me v')) mail') tl' ->
  hics mail' = hics (mail (left n)) -> ctl cs = tcs -> hics tcs = [] -> ack_last cs ->
  post (commands v') (right n) = Ok (right (after_left true)) /\ net_ok (after_left true).
Proof.
  intros [Kc Kd Ki Ks Km] Ho Hne Hs1 Hs2 Hpr Mr Hpr' Ml' Ehics Hctl Htcs Hack. cbn [me upipes commands app] in *. subst cs.
  pose proof Hn as [[El Er] _ [C1 C2] Hnd Hh Hi].
  pose proof (right_alive n p Hn Hp Hne) as Halive. split; [by apply post_ok; right|].
  assert (Hlr : chain (left (after_left true)) (right (after_left true)) = chain (left n) (right n)).
  { unfold chain, out_of, in_of, after_left. cbn. rewrite Hp. cbn. rewrite Ho. by rewrite Ehics. }
  assert (Hrl : chain (right (after_left true)) (left (after_left true)) = chain (right n) (left n)).
  { unfold chain, out_of, in_of, after_left. cbn. rewrite Hp. cbn. rewrite Ki, hics_app.
    assert (Eh : hics (commands v') = []) by (by rewrite <- hics_ctl, Hctl). by rewrite Eh, app_nil_r. }
  split.
  - split; [apply view_after; try done|destruct Er; by split]. rewrite Ho. split; [by intros ?|by intros [?|?]].
  - exists tl', (tr ++ tcs). split_and!; [done|done|]. unfold after_left. cbn [right]. by eapply (mail_send n p tl tr).
  - rewrite Hlr, Hrl. unfold in_of in *. cbn. rewrite Ki. rewrite Hp in C2. done.
  - by rewrite Hlr, Hrl.
  - intros a. rewrite Hlr, Hrl, <- Hh. cbn. by rewrite <- !elem_of_dom, Kd.
  - cbn. apply Kc.
Qed.

(** The end stops writing and acknowledges; no hiccup is on its way to it. *)
Lemma shut_net cs tl tr tl' : kept v0 v' (cs ++ [pipe_term_ack]) -> outpipe (me v') = None -> outpipe p <> None ->
  state (me v') = StTerminating \/ state (me v') = StDoubleTerminated ->
  protocol (st (left n)) (st (right n)) tl tr -> mail_ok (right n) tr ->
  protocol (Some (state (me v'))) (st (right n)) tl' (tr ++ [pipe_term_ack]) ->
  ctl mail' = tl' -> ack_last mail' -> hics (mail (left n)) = [] -> hics mail' = [] -> ctl cs = [] ->
  post (commands v') (right n) = Ok (right (after_left true)) /\ net_ok (after_left true).
Proof.
  intros [Kc Kd Ki Ks Km] Ho Hne Hst Hpr Mr Hpr' Hml Hmk Ehl Ehm Hctl. cbn [me upipes commands app] in *.
  pose proof Hn as [[El Er] _ [C1 C2] Hnd Hh Hi].
  pose proof (right_alive n p Hn Hp Hne) as Halive. split; [by apply post_ok; right|].
  assert (Hcc : ctl (commands v') = [pipe_term_ack]) by (rewrite Km, ctl_app, Hctl; done).
  assert (Hlr : chain (left (after_left true)) (right (after_left true)) = chain (left n) (right n)).
  { destruct Halive as [q Hq]. unfold chain, out_of, in_of, after_left in *. cbn. rewrite Hp, Hq in *. cbn in *. rewrite Ho.
    destruct (outpipe p) as [u|]; [|done]. rewrite Ehl in *. cbn in C1. by rewrite <- C1. }
  assert (Hrl : chain (right (after_left true)) (left (after_left true)) = chain (right n) (left n)).
  { unfold chain, out_of, in_of, after_left. cbn. rewrite Hp. cbn. rewrite Ki, hics_app.
    assert (Eh : hics (commands v') = []) by (by rewrite <- hics_ctl, Hcc). by rewrite Eh, app_nil_r. }
  split.
  - split; [|destruct Er; by split]. split; cbn; intros q [= <-]; [rewrite Ki; by apply (end_in _ El)|by rewrite Ho|rewrite Ks; by apply (end_sink _ El)].
  - exists tl', (tr ++ [pipe_term_ack]). split_and!; [done| |].
    + split; cbn; [by rewrite Ehm, Hml|done|by rewrite Ehm|done].
    + unfold after_left. cbn [right]. eapply (mail_send n p tl tr); try done.
      rewrite Km. apply ack_last_app; [|by intros [|? [|]] ? [=]]. rewrite (ctl_in pipe_term_ack), Hctl by done. apply not_elem_of_nil.
  - rewrite Hlr, Hrl. unfold in_of in *. cbn. rewrite Ki. rewrite Hp in C2. done.
  - by rewrite Hlr, Hrl.
  - intros a. rewrite Hlr, Hrl, <- Hh. cbn. by rewrite <- !elem_of_dom, Kd.
  - cbn. apply Kc.
Qed.

(** ** The steps with their place in the protocol *)

Lemma opened_writes s : opened s \/ s = StPending \/ s = StTerminated -> s <> StTerminating /\ s <> StDoubleTerminated.
Proof. unfold opened. intuition congruence. Qed.

Lemma writes_out s : state p = s -> s <> StTerminating /\ s <> StDoubleTerminated -> outpipe p <> None.
Proof. intros <- [H1 H2] E. apply (end_out _ (proj1 (net_ends n Hn)) p Hp) in E as [?|?]; congruence. Qed.

Lemma termed_net : opened (state p) -> termed v0 v' -> mail' = mail (left n) ->
  post (commands v') (right n) = Ok (right (after_left true)) /\ net_ok (after_left true).
Proof.
  intros Hs (cs & Hk & Hctl & Ho & Est) Em. pose proof (net_protocol n Hn) as (tl & tr & Hpr & Ml & Mr).
  pose proof Hpr as Hpr0. unfold st in Hpr0 at 1. rewrite Hp in Hpr0. cbn in Hpr0.
  assert (Hne : outpipe p <> None) by (apply (writes_out (state p)); [done|apply opened_writes; by left]).
  apply (go_net cs tl tr tl [pipe_term]); try done; try (rewrite Est; done); rewrite ?Em; try done.
  - rewrite Est. unfold protocol in *. destruct Hpr0 as [Q|Q]; inversion Q; subst; auto with protocol;
      try (exfalso; unfold opened in *; intuition congruence).
  - eapply (mail_end (left n)); [done|done|]. intros _ _. right. done.
  - apply ack_last_none. rewrite (ctl_in pipe_term_ack), Hctl by done. intros H%list_elem_of_singleton. done.
Qed.

Lemma asked_left tl tr : protocol (Some (state p)) (st (right n)) (pipe_term :: tl) tr -> opened (state p) ->
  tl = [] /\ tr = [] /\ st (right n) = Some StTerminated.
Proof. intros [Q|Q] Hs; inversion Q; subst; try done; exfalso; unfold opened in *; intuition congruence. Qed.

Lemma acked_net : acked v0 v' -> state p = StPending /\ mail' = mail (left n) \/ opened (state p) /\ mail (left n) = pipe_term :: mail' ->
  post (commands v') (right n) = Ok (right (after_left true)) /\ net_ok (after_left true).
Proof.
  intros (cs & Hk & Hctl & Ho & Est) Hcase. pose proof (net_protocol n Hn) as (tl & tr & Hpr & Ml & Mr).
  pose proof Hpr as Hpr0. unfold st in Hpr0 at 1. rewrite Hp in Hpr0. cbn in Hpr0. destruct Hcase as [[Es Em]|[Es Em]].
  - assert (Hne : outpipe p <> None) by (apply (writes_out (state p)); [done|apply opened_writes; auto]).
    assert (Eh : hics (mail (left n)) = []).
    { destruct (hics (mail (left n))) eqn:E; [done|]. destruct (mail_hics _ _ Ml p Hp ltac:(by rewrite E)) as [[?|?]|?]; congruence. }
    assert (Hrow : tl = [] /\ tr = [] /\ st (right n) = Some StTerminated).
    { rewrite Es in Hpr0. destruct Hpr0 as [Q|Q]; inversion Q; subst; try done; unfold opened in *; intuition congruence. }
    destruct Hrow as (-> & -> & Er). apply (shut_net cs [] [] []); try done; rewrite ?Em; try done; [by left| | |].
    + rewrite Est, Er. right. apply p_acked.
    + pose proof (mail_shape _ _ Ml) as Hsh. by rewrite Eh in Hsh.
    + intros l l'. apply (mail_last _ _ Ml).
  - destruct (mail_head_control (left n) tl pipe_term mail' Ml Em) as (tl' & -> & Eh & Eh' & Ec & _ & Hack); [by left|].
    destruct (asked_left tl' tr Hpr0 Es) as (-> & -> & Er).
    assert (Hne : outpipe p <> None) by (apply (writes_out (state p)); [done|apply opened_writes; auto]).
    apply (shut_net cs [pipe_term] [] []); try done; [by left|]. rewrite Est, Er. right. apply p_acked.
Qed.

Lemma pended_net : pended v0 v' -> opened (state p) -> mail (left n) = pipe_term :: mail' ->
  post (commands v') (right n) = Ok (right (after_left true)) /\ net_ok (after_left true).
Proof.
  intros (cs & Hk & Hctl & Ho & Est) Hs Em. pose proof (net_protocol n Hn) as (tl & tr & Hpr & Ml & Mr).
  pose proof Hpr as Hpr0. unfold st in Hpr0 at 1. rewrite Hp in Hpr0. cbn in Hpr0.
  destruct (mail_head_control (left n) tl pipe_term mail' Ml Em) as (tl' & -> & Eh & Eh' & Ec & _ & Hack); [by left|].
  destruct (asked_left tl' tr Hpr0 Hs) as (-> & -> & Er).
  assert (Hne : outpipe p <> None) by (apply (writes_out (state p)); [done|apply opened_writes; auto]).
  apply (go_net cs [pipe_term] [] [] []); try done; try (rewrite Est; done).
  - rewrite Est, Er. right. apply p_pending.
  - split; cbn; [by rewrite Eh', Ec|done|by rewrite Eh'|done].
  - by rewrite Eh, Eh'.
  - by apply ctl_nil_no_ack.
Qed.

Lemma doubled_net : doubled v0 v' -> state p = StTerminated -> mail (left n) = pipe_term :: mail' ->
  post (commands v') (right n) = Ok (right (after_left true)) /\ net_ok (after_left true).
Proof.
  intros (Hk & Ho & Est) Hs Em. pose proof (net_protocol n Hn) as (tl & tr & Hpr & Ml & Mr).
  pose proof Hpr as Hpr0. unfold st in Hpr0 at 1. rewrite Hp in Hpr0. cbn in Hpr0. rewrite Hs in Hpr0.
  destruct (mail_head_control (left n) tl pipe_term mail' Ml Em) as (tl' & -> & Eh & Eh' & Ec & _ & Hack); [by left|].
  assert (Hne : outpipe p <> None) by (apply (writes_out (state p)); [done|rewrite Hs; apply opened_writes; auto]).
  apply (shut_net [] (pipe_term :: tl') tr tl'); try done; [by right|]. rewrite Est.
  destruct Hpr0 as [Q|Q]; inversion Q; subst; unfold protocol; cbn [app]; auto with protocol;
    exfalso; unfold opened in *; intuition congruence.
Qed.

Lemma hicced_net : hicced v0 v' -> state p = StActive -> mail' = mail (left n) ->
  post (commands v') (right n) = Ok (right (after_left true)) /\ net_ok (after_left true).
Proof.
  intros (a & Ha & Eup & Ein & Eout & Est & Esk & Km) Hs Em. cbn [me upipes commands app] in *.
  pose proof Hn as [[El Er] (tl & tr & Hpr & Ml & Mr) [C1 C2] Hnd Hh Hi].
  pose proof Hpr as Hpr0. unfold st in Hpr0 at 1. rewrite Hp in Hpr0. cbn in Hpr0. rewrite Hs in Hpr0.
  assert (Hrow : tr = [] /\ exists s, st (right n) = Some s /\ (opened s \/ s = StTerminated)).
  { destruct Hpr0 as [Q|Q]; inversion Q; subst; eauto; exfalso; unfold opened in *; intuition congruence. }
  destruct Hrow as (-> & s & Er' & Hsr). destruct (pipe (right n)) as [q|] eqn:Hq; [|unfold st in Er'; by rewrite Hq in Er'].
  assert (Esq : state q = s) by (unfold st in Er'; rewrite Hq in Er'; by injection Er').
  assert (Hoq : outpipe q <> None).
  { intros E. apply (end_out _ Er q Hq) in E. rewrite Esq in E. unfold opened in *. intuition congruence. }
  split; [apply post_ok; right; rewrite Hq; by eexists|].
  assert (Hlr : chain (left (after_left true)) (right (after_left true)) = chain (left n) (right n)).
  { unfold chain, out_of, in_of, after_left. cbn. rewrite Hp. cbn. by rewrite Eout, Em. }
  assert (Hrl : chain (right (after_left true)) (left (after_left true)) = chain (right n) (left n) ++ [a]).
  { unfold chain, out_of, in_of, after_left. cbn. rewrite Hq. cbn. destruct (outpipe q) as [u|]; [|done]. by rewrite Km, hics_app. }
  assert (Hnew : a ∉ chain (left n) (right n) ++ chain (right n) (left n)).
  { intros Hin. apply Hh in Hin as [c Hc]. congruence. }
  split.
  - split; [|destruct Er; by split]. split; cbn; intros q' [= <-]; [by rewrite Ein; eexists| |rewrite Esk; by apply (end_sink _ El)].
    rewrite Eout, Est. by apply (end_out _ El).
  - exists tl, []. split_and!.
    + unfold st, after_left in *. cbn. rewrite Est, Hs, Er'. rewrite Er' in Hpr0. done.
    + unfold after_left. rewrite Em. eapply (mail_end (left n)); [done|done|]. intros _ _. left. left. by rewrite Est.
    + unfold after_left. cbn [right]. destruct Mr as [M1 M2 M3 M4]. rewrite app_nil_r in M1. split; cbn [pipe mail]; rewrite Km.
      * rewrite ctl_app, hics_app, M1, app_nil_r. change (hics [hiccup_ a]) with [a]. change (ctl [hiccup_ a]) with [hiccup_ a]. by rewrite map_app.
      * apply ack_last_app; [|by intros [|? [|]] ? [=]]. rewrite (ctl_in pipe_term_ack), M1 by done.
        intros (? & ? & _)%list_elem_of_fmap. done.
      * intros q' Hq' _. replace q' with q by congruence. by rewrite Esq.
      * congruence.
  - rewrite Hlr, Hrl. unfold in_of in *. cbn. rewrite Ein, last_snoc. done.
  - rewrite Hlr, Hrl, app_assoc. apply NoDup_app. split_and!; [done| |apply NoDup_singleton].
    intros x Hx ->%list_elem_of_singleton. done.
  - intros x. rewrite Hlr, Hrl, app_assoc, elem_of_app, list_elem_of_singleton, <- Hh. cbn. rewrite Eup.
    destruct (decide (x = a)) as [->|]; [rewrite lookup_insert_eq|rewrite lookup_insert_ne by done]; split; eauto; by intros [|].
  - cbn. intros x c. rewrite Eup. destruct (decide (x = a)) as [->|]; [rewrite lookup_insert_eq; intros [= <-]; apply new_channel_ok|].
    rewrite lookup_insert_ne by done. apply Hi.
Qed.

Lemma replugged_net a : replugged a v0 v' -> mail (left n) = hiccup_ a :: mail' ->
  post (commands v') (right n) = Ok (right (after_left true)) /\ net_ok (after_left true).
Proof.
  intros (b & Eo & Kd & Kc & Ki & Ko & Est & Esk & Km) Em. cbn [me upipes commands app] in *.
  pose proof Hn as [[El Er] (tl & tr & Hpr & Ml & Mr) [C1 C2] Hnd Hh Hi].
  destruct (mail_head_hiccup (left n) tl a mail' Ml Em) as [Ml' Eh]. split; [apply post_ok; by left|].
  assert (Hlr0 : chain (left n) (right n) = b :: a :: hics mail') by (unfold chain, out_of; rewrite Hp; cbn; by rewrite Eo, Eh).
  assert (Hlr : chain (left (after_left true)) (right (after_left true)) = a :: hics mail').
  { unfold chain, out_of, after_left. cbn. by rewrite Ko. }
  assert (Hrl : chain (right (after_left true)) (left (after_left true)) = chain (right n) (left n)).
  { unfold chain, out_of, in_of, after_left. cbn. rewrite Hp. cbn. by rewrite Ki, Km, app_nil_r. }
  rewrite Hlr0 in *. cbn [app] in Hnd. apply NoDup_cons in Hnd as [Hb Hnd]. split.
  - split; [|destruct Er; by split]. split; cbn; intros q [= <-]; [rewrite Ki; by apply (end_in _ El)| |rewrite Esk; by apply (end_sink _ El)].
    rewrite Ko, Est. split; [done|]. intros Hst. apply (end_out _ El p Hp) in Hst. congruence.
  - exists tl, tr. split_and!.
    + unfold st, after_left in *. cbn. rewrite Est. by rewrite Hp in Hpr.
    + rewrite Hp in Ml'. eapply (mail_end (mkEnd (Some p) mail')); [done|done|]. intros _ Hs. by rewrite Est.
    + unfold after_left. cbn [right]. rewrite Km. by apply mail_append_nil.
  - rewrite Hlr, Hrl. unfold in_of in *. cbn. rewrite Ki. rewrite Hp in C2. done.
  - by rewrite Hlr, Hrl.
  - intros x. rewrite Hlr, Hrl. cbn. rewrite <- elem_of_dom, Kd, elem_of_difference, elem_of_dom, Hh, elem_of_singleton. cbn [app].
    rewrite (elem_of_cons _ x b). split; [by intros [[?|?] ?]|]. intros Hx. split; [by right|]. by intros ->.
  - cbn. apply Kc.
Qed.

Lemma gone_net : gone_with v0 v' (if bool_decide (state p = StTerminated) then [pipe_term_ack] else []) -> mail (left n) = pipe_term_ack :: mail' ->
  post (commands v') (right n) = Ok (right (after_left false)) /\ net_ok (after_left false).
Proof.
  intros (a & Ein & Kd & Kc & Km) Em. cbn [me upipes commands app] in *.
  pose proof Hn as [[El Er] (tl & tr & Hpr & Ml & Mr) [C1 C2] Hnd Hh Hi].
  pose proof Hpr as Hpr0. unfold st in Hpr0 at 1. rewrite Hp in Hpr0. cbn in Hpr0.
  destruct (mail_head_control (left n) tl pipe_term_ack mail' Ml Em) as (tl' & -> & Eh & _ & Ec & Hnil & _); [by right|].
  specialize (Hnil eq_refl). rewrite Hnil in Ec. cbn in Ec. subst tl'.
  (* the row of the protocol, the row after it, and the ypipe that is left *)
  assert (Hrow : (commands v' = [] \/ is_Some (pipe (right n))) /\ out_of (right n) = None
    /\ chain (left n) (right n) = option_list (in_of (right n))
    /\ exists tr', protocol None (st (right n)) [] tr' /\ mail_ok (mkEnd (pipe (right n)) (mail (right n) ++ commands v')) tr').
  { assert (Hout : forall q, pipe (right n) = Some q -> state q = StTerminating \/ state q = StDoubleTerminated -> out_of (right n) = None).
    { intros q Hq Hs. unfold out_of. rewrite Hq. cbn. by apply (end_out _ Er q Hq). }
    assert (Hchain : is_Some (pipe (right n)) -> chain (left n) (right n) = option_list (in_of (right n))).
    { intros [q Hq]. unfold chain, out_of, in_of in *. rewrite Hp, Hq in *. cbn in *. destruct (outpipe p) as [u|]; [|done].
      rewrite Eh in *. cbn in C1. by rewrite <- C1. }
    unfold st in Hpr0 |- *. destruct (pipe (right n)) as [q|] eqn:Hq; cbn [fmap option_fmap option_map] in *.
    - assert (Hrow : (state p = StTerminated /\ tr = [] /\ state q = StTerminating) \/ (state p = StDoubleTerminated /\ tr = [pipe_term_ack] /\ state q = StDoubleTerminated)).
      { destruct Hpr0 as [Q|Q]; inversion Q; subst; auto; exfalso; unfold opened in *; intuition congruence. }
      split; [right; by eexists|]. split; [apply (Hout q eq_refl); destruct Hrow as [(_ & _ & ?)|(_ & _ & ?)]; auto|].
      split; [apply Hchain; by eexists|]. exists [pipe_term_ack]. split.
      + left. destruct Hrow as [(_ & _ & ->)|(_ & _ & ->)]; constructor; auto.
      + rewrite Km. rewrite <- Hq. destruct Hrow as [(-> & -> & _)|(Es & -> & _)].
        * rewrite bool_decide_eq_true_2 by done. apply (mail_append (right n) []); [done|apply not_elem_of_nil|rewrite Hq; by eexists|done|done|].
          by intros [|? [|]] ? [=].
        * rewrite bool_decide_eq_false_2 by (rewrite Es; done). by apply mail_append_nil.
    - assert (Hrow : (state p = StTerminating \/ state p = StDoubleTerminated) /\ tr = []).
      { destruct Hpr0 as [Q|Q]; inversion Q; subst; auto. }
      destruct Hrow as [Hs ->]. assert (Ecmd : commands v' = []).
      { rewrite Km, bool_decide_eq_false_2; [done|]. intros E. rewrite E in Hs. by destruct Hs. }
      split; [by left|]. split; [unfold out_of; by rewrite Hq|]. split.
      + unfold chain, out_of, in_of in *. rewrite Hp, Hq in *. cbn in *. by rewrite (proj2 (end_out _ El p Hp) Hs).
      + exists []. split; [left; constructor|]. rewrite Ecmd, <- Hq. by apply mail_append_nil. }
  destruct Hrow as (Hpost & Hout & Hlr0 & tr' & Hpr' & Mr'). split; [by apply post_ok|].
  assert (Hrl0 : chain (right n) (left n) = [a]).
  { unfold chain. rewrite Hout. unfold in_of. rewrite Hp. cbn. by rewrite Ein. }
  assert (Hlr : chain (left (after_left false)) (right (after_left false)) = chain (left n) (right n)) by (rewrite Hlr0; done).
  assert (Hrl : chain (right (after_left false)) (left (after_left false)) = []).
  { unfold chain. change (out_of (right (after_left false))) with (out_of (right n)). by rewrite Hout. }
  rewrite Hrl0 in *. split.
  - split; [by split|destruct Er; by split].
  - exists [], tr'. split; [done|]. split; [|done]. unfold after_left. cbn [left]. rewrite Hnil. split; cbn; try done. by intros [|? ?] ?.
  - rewrite Hlr, Hrl. done.
  - rewrite Hlr, Hrl, app_nil_r. by apply NoDup_app in Hnd as [? _].
  - intros x. rewrite Hlr, Hrl, app_nil_r. cbn. rewrite <- elem_of_dom, Kd, elem_of_difference, elem_of_dom, Hh, elem_of_app, list_elem_of_singleton, elem_of_singleton.
    apply NoDup_app in Hnd as (_ & Hdis & _). split; [by intros [[?|?] ?]|]. intros Hx. split; [by left|]. intros ->. apply (Hdis a Hx). by left.
  - cbn. apply Kc.
Qed.
End Left.

(** ** Every step *)

Lemma reading_net n p v : net_ok n -> pipe (left n) = Some p -> reading_done (mkView p (heap n) [] [] []) v ->
  post (commands v) (right n) = Ok (right (after_left n v (mail (left n)) true)) /\ net_ok (after_left n v (mail (left n)) true).
Proof.
  intros Hn Hp [Hq|[Hs Ha]]; [apply (quiet_net n p v); auto; by left|apply (acked_net n p v); auto].
Qed.

Lemma call_net o n p : net_ok n -> pipe (left n) = Some p -> match o with Write m => check m = true | _ => True end ->
  exists v, call o (mkView p (heap n) [] [] []) = Ok v
    /\ post (commands v) (right n) = Ok (right (after_left n v (mail (left n)) true)) /\ net_ok (after_left n v (mail (left n)) true).
Proof.
  intros Hn Hp Ho. pose proof (left_view n p Hn Hp) as Hv. set (v0 := mkView p (heap n) [] [] []) in *.
  assert (Hquiet : forall v, quiet v0 v -> post (commands v) (right n) = Ok (right (after_left n v (mail (left n)) true)) /\ net_ok (after_left n v (mail (left n)) true)).
  { intros v Hq. apply (quiet_net n p v); auto. by left. }
  destruct o as [| | |m| | |d|]; cbn [call].
  - destruct (check_read_ok v0 Hv) as (b & v & -> & H). exists v. split; [done|]. by apply (reading_net n p).
  - destruct (read_ok v0 Hv) as (o & v & -> & H & _). exists v. split; [done|]. by apply (reading_net n p).
  - eexists. split; [reflexivity|]. apply Hquiet. by apply check_write_quiet.
  - destruct (write_ok m v0 Hv Ho) as (b & v & -> & H). exists v. split; [done|]. by apply Hquiet.
  - destruct (rollback_ok v0 Hv) as (v & -> & H & _). exists v. split; [done|]. by apply Hquiet.
  - destruct (flush_ok v0 Hv) as (v & -> & H). exists v. split; [done|]. by apply Hquiet.
  - destruct (terminate_ok d v0 Hv) as (v & -> & [[H _]|[[Hs H]|[Hs H]]]); exists v; (split; [done|]); [by apply Hquiet| |].
    + by apply (termed_net n p v).
    + apply (acked_net n p v); auto.
  - eexists. split; [reflexivity|]. destruct (hiccup_ok v0 Hv) as [H|[Hs H]]; [by apply Hquiet|by apply (hicced_net n p)].
Qed.

(** The states in which the commands that end the connection arrive. *)
Lemma asked_states n p tl tr : protocol (Some (state p)) (st (right n)) (pipe_term :: tl) tr -> opened (state p) \/ state p = StTerminated.
Proof. intros [Q|Q]; inversion Q; subst; auto. Qed.

Lemma acked_states n p tl tr : protocol (Some (state p)) (st (right n)) (pipe_term_ack :: tl) tr ->
  state p = StTerminated \/ state p = StTerminating \/ state p = StDoubleTerminated.
Proof. intros [Q|Q]; inversion Q; subst; auto; unfold opened in *; intuition congruence. Qed.

Lemma deliver_net n p c rest : net_ok n -> pipe (left n) = Some p -> mail (left n) = c :: rest ->
  exists alive v, process_command c (mkView p (heap n) [] [] []) = Ok (alive, v)
    /\ post (commands v) (right n) = Ok (right (after_left n v rest alive)) /\ net_ok (after_left n v rest alive).
Proof.
  intros Hn Hp Em. pose proof (left_view n p Hn Hp) as Hv. set (v0 := mkView p (heap n) [] [] []) in *.
  pose proof (net_protocol n Hn) as (tl & tr & Hpr & Ml & Mr). unfold st in Hpr at 1. rewrite Hp in Hpr. cbn in Hpr.
  destruct c as [|k|a| |]; cbn [process_command].
  - destruct (activate_read_ok v0 Hv) as (v & -> & H). exists true, v. split; [done|]. apply (quiet_net n p v); auto. right. by exists activate_read.
  - destruct (activate_write_ok k v0 Hv) as (v & -> & H). exists true, v. split; [done|]. apply (quiet_net n p v); auto. right. by exists (activate_write k).
  - destruct (mail_head_hiccup _ _ _ _ Ml Em) as [_ Eh].
    assert (Ho : outpipe p <> None).
    { apply (writes_out n p Hn Hp (state p) eq_refl), opened_writes. destruct (mail_hics _ _ Ml p Hp); [by rewrite Eh|auto|auto]. }
    destruct (process_hiccup_ok a v0 Hv Ho) as (v & -> & H). exists true, v. split; [done|]. by apply (replugged_net n p v rest Hn Hp a).
  - destruct (mail_head_control _ _ _ _ Ml Em) as (tl' & -> & _); [by left|].
    pose proof (process_pipe_term_ok v0 Hv) as Ht. change (state (me v0)) with (state p) in Ht.
    destruct (asked_states n p tl' tr Hpr) as [[Hs|Hs]|Hs]; rewrite Hs in Ht; destruct Ht as (v & -> & H); exists true, v; (split; [done|]).
    + destruct H as [H|H]; [apply (acked_net n p v); auto; right|apply (pended_net n p v); auto]; try split; try done; by left.
    + apply (acked_net n p v); auto. right. split; [by right|done].
    + by apply (doubled_net n p v).
  - destruct (mail_head_control _ _ _ _ Ml Em) as (tl' & -> & _); [by right|].
    destruct (process_pipe_term_ack_ok v0 Hv (acked_states n p tl' tr Hpr)) as (v & -> & H). exists false, v. split; [done|].
    by apply (gone_net n p v).
Qed.

Lemma act_left_ok a n : net_ok n -> allowed true a n -> exists n', act_left a n = Ok n' /\ net_ok n'.
Proof.
  intros Hn [[p Hp] Hm]. unfold act_left. rewrite Hp. destruct a as [o|].
  - destruct (call_net o n p Hn Hp) as (v & -> & Hpost & Hok); [by destruct o|]. cbn [obind]. rewrite Hpost. cbn [obind]. by eexists.
  - destruct (mail (left n)) as [|c rest] eqn:Em; [by exists n|].
    destruct (deliver_net n p c rest Hn Hp Em) as (alive & v & -> & Hpost & Hok). cbn [obind]. rewrite Hpost. cbn [obind]. by eexists.
Qed.

Lemma act_ok side a n : net_ok n -> allowed side a n -> exists n', act side a n = Ok n' /\ net_ok n'.
Proof.
  destruct side; intros Hn Ha; [by apply act_left_ok|]. unfold act.
  destruct (act_left_ok a (flip n) (net_ok_flip n Hn) Ha) as (n' & -> & Hn'). exists (flip n'). split; [done|]. by apply net_ok_flip.
Qed.

(** ** Sessions *)

Fixpoint run_net (acts : list (bool * action)) (n : net) : outcome net :=
  match acts with [] => Ok n | (side, a) :: acts' => let! n := act side a n in run_net acts' n end.

Fixpoint allowed_all (acts : list (bool * action)) (n : net) : Prop :=
  match acts with
  | [] => True
  | (side, a) :: acts' => allowed side a n /\ match act side a n with Ok n => allowed_all acts' n | _ => True end
  end.

Lemma run_net_ok acts : forall n, net_ok n -> allowed_all acts n -> exists n', run_net acts n = Ok n' /\ net_ok n'.
Proof.
  induction acts as [|[side a] acts IH]; intros n Hn Ha; [by exists n|]. destruct Ha as [Ha Hrest].
  destruct (act_ok side a n Hn Ha) as (n1 & E & Hn1). cbn [run_net]. rewrite E in *. by apply IH.
Qed.

(** A new pair, with the objects of its users. *)
Definition new_net (upipe1 upipe2 : Z) (hwms : Z * Z) (delays : bool * bool) : outcome net :=
  let '(p1, p2, h) := pipepair upipe1 upipe2 hwms delays in
  let! p1 := set_event_sink p1 in
  let! p2 := set_event_sink p2 in
  Ok (mkNet (mkEnd (Some p1) []) (mkEnd (Some p2) []) h).

Lemma new_net_ok u1 u2 hwms delays : u1 <> u2 -> exists n, new_net u1 u2 hwms delays = Ok n /\ net_ok n.
Proof.
  intros Hne. eexists. split; [reflexivity|]. split; cbn.
  - split; split; cbn; intros q [= <-]; try done; try (by eexists); (split; [done|]; by intros [?|?]).
  - exists [], []. split; [left; by constructor; left|]. split; split; cbn; try done; by intros [|? ?] ?.
  - done.
  - repeat constructor; rewrite ?not_elem_of_cons; set_solver.
  - intros a. rewrite <- elem_of_dom. set_solver.
  - intros a c Hc. apply lookup_insert_Some in Hc as [[_ <-]|[_ Hc]]; [apply new_channel_ok|].
    apply lookup_singleton_Some in Hc as [_ <-]. apply new_channel_ok.
Qed.
