(* ===== verification/PipeTheorems.v ===== *)
(** * What the commands of a connection guarantee

    The properties of a pair of pipes: no run touches a pipe or a ypipe that is
    gone, and two ends that were terminated are deleted with all that they
    allocated, in whatever order their commands are delivered. *)

From stdpp Require Import tactics relations gmap.
From S2P Require Import Prelude Msg Yqueue Ypipe Pipe PipeProtocol PipeSafety.

(** ** Runs of new pairs *)

(** The nets that the users of a new pair can reach. *)
Definition reached (u1 u2 : Z) (hwms : Z * Z) (delays : bool * bool) (acts : list (bool * action)) (n : net) : Prop :=
  exists n0, new_net u1 u2 hwms delays = Ok n0 /\ allowed_all acts n0 /\ run_net acts n0 = Ok n.

Lemma reached_ok u1 u2 hwms delays acts n : u1 <> u2 -> reached u1 u2 hwms delays acts n -> net_ok n.
Proof.
  intros Hu (n0 & E0 & Ha & Er). destruct (new_net_ok u1 u2 hwms delays Hu) as (n1 & E1 & Hn1). replace n1 with n0 in * by congruence.
  destruct (run_net_ok acts n0 Hn1 Ha) as (n2 & E2 & Hn2). congruence.
Qed.

(** What a live end points to is there. *)
Definition intact (n : net) (e : endpoint) : Prop := forall p, pipe e = Some p ->
  (exists a, inpipe p = Some a /\ is_Some (heap n !! a)) /\ (forall a, outpipe p = Some a -> is_Some (heap n !! a)).

Definition freed (n : net) : Prop := pipe (left n) = None /\ pipe (right n) = None /\ mail (left n) = [] /\ mail (right n) = [] /\ heap n = ∅.

Lemma intact_left n : net_ok n -> intact n (left n).
Proof. intros Hn p Hp. pose proof (left_view n p Hn Hp) as Hv. split; [apply (ok_in _ Hv)|apply (ok_out _ Hv)]. Qed.

Lemma freed_when_gone n : net_ok n -> pipe (left n) = None -> pipe (right n) = None -> freed n.
Proof.
  intros [_ (tl & tr & _ & Ml & Mr) _ _ Hh _] El Er. split_and!; try done; [by apply (mail_gone _ _ Ml)|by apply (mail_gone _ _ Mr)|].
  apply map_eq. intros a. rewrite lookup_empty. apply eq_None_not_Some. intros Ha%Hh.
  unfold chain, out_of, in_of in Ha. rewrite El, Er in Ha. by apply elem_of_nil in Ha.
Qed.

(** ** Ends that were terminated *)

Definition closing (e : endpoint) : Prop := forall p, pipe e = Some p -> state p = StTerminated \/ state p = StTerminating \/ state p = StDoubleTerminated.

(** The thread of an end takes a command that is there. *)
Definition delivers (n n' : net) : Prop := exists side, mail (if side : bool then left n else right n) <> [] /\ act side Deliver n = Ok n'.

(** Both users terminate the ends that they still have, without delay. *)
Definition close_end (side : bool) (n : net) : outcome net :=
  match pipe (if side then left n else right n) with None => Ok n | Some _ => act side (User (Terminate false)) n end.

Definition close_both (n : net) : outcome net := let! n := close_end true n in close_end false n.

(** Deliveries that are left: one for each command, and one for the command that
    an end in [StTerminated] sends. *)
Definition left_over (e : endpoint) : nat :=
  (length (mail e) + match pipe e with Some p => if bool_decide (state p = StTerminated) then 1 else 0 | None => 0 end)%nat.

Definition deliveries (n : net) : nat := (left_over (left n) + left_over (right n))%nat.

Lemma activate_read_silent v v' : process_activate_read v = Ok v' -> commands v' = commands v /\ state (me v') = state (me v).
Proof. unfold process_activate_read, raise. destruct (_ && _); [destruct (has_sink _)|]; cbn; by intros [= <-]. Qed.

Lemma activate_write_silent k v v' : process_activate_write k v = Ok v' -> commands v' = commands v /\ state (me v') = state (me v).
Proof. unfold process_activate_write, raise. destruct (_ && _); [destruct (has_sink _)|]; cbn; by intros [= <-]. Qed.

Definition cost (alive : bool) (v : view) : nat := if alive then if bool_decide (state (me v) = StTerminated) then 1 else 0 else 0.

(** One delivery, seen from the end that takes the command. *)
Lemma delivery_cost n p c rest alive v : net_ok n -> pipe (left n) = Some p -> closing (left n) -> mail (left n) = c :: rest ->
  process_command c (mkView p (heap n) [] [] []) = Ok (alive, v) ->
  (length (commands v) + cost alive v <= cost true (mkView p (heap n) [] [] []))%nat /\
  (alive = true -> state (me v) = StTerminated \/ state (me v) = StTerminating \/ state (me v) = StDoubleTerminated).
Proof.
  intros Hn Hp Hc Em E. pose proof (left_view n p Hn Hp) as Hv. set (v0 := mkView p (heap n) [] [] []) in *. specialize (Hc p Hp).
  change (state p) with (state (me v0)) in Hc. assert (E0 : commands v0 = []) by done. clearbody v0.
  assert (Hsame : commands v = commands v0 -> state (me v) = state (me v0) -> (length (commands v) + cost alive v <= cost true v0)%nat).
  { intros E1 E2. rewrite E1, E0. unfold cost. rewrite E2. destruct alive; cbn [length]; lia. }
  destruct c as [|k|a| |]; cbn [process_command] in E.
  - destruct (process_activate_read v0) as [v1|?|] eqn:E1; try discriminate. injection E as <- <-.
    apply activate_read_silent in E1 as [Ec Es]. split; [by apply Hsame|by rewrite Es].
  - destruct (process_activate_write k v0) as [v1|?|] eqn:E1; try discriminate. injection E as <- <-.
    apply activate_write_silent in E1 as [Ec Es]. split; [by apply Hsame|by rewrite Es].
  - pose proof (net_protocol n Hn) as (tl & tr & Hpr & Ml & Mr). destruct (mail_head_hiccup _ _ _ _ Ml Em) as [_ Eh].
    destruct (outpipe (me v0)) as [o|] eqn:Eo.
    + destruct (process_hiccup_ok a v0 Hv ltac:(by rewrite Eo)) as (v1 & E1 & (b & _ & _ & _ & _ & _ & Es & _ & Ec)).
      rewrite E1 in E. injection E as <- <-. split; [by apply Hsame|by rewrite Es].
    + unfold process_hiccup in E. rewrite Eo in E. done.
  - pose proof (process_pipe_term_ok v0 Hv) as H. destruct Hc as [Hs|[Hs|Hs]]; [|by unfold process_pipe_term in E; rewrite Hs in E..].
    rewrite Hs in H. destruct H as (v1 & E1 & Hk & Ho & Hst). rewrite E1 in E. injection E as <- <-.
    rewrite (kept_commands _ _ _ Hk), E0. unfold cost. rewrite Hst, Hs. split; [vm_compute; lia|auto].
  - destruct (process_pipe_term_ack_ok v0 Hv Hc) as (v1 & E1 & (b & _ & _ & _ & Ek)). rewrite E1 in E. injection E as <- <-.
    rewrite Ek, E0. unfold cost. split; [|done]. destruct (bool_decide _); cbn [length app]; lia.
Qed.

(** The left end of a net that closes. *)
Lemma delivery_left n n' : net_ok n -> closing (left n) -> closing (right n) -> mail (left n) <> [] -> act_left Deliver n = Ok n' ->
  net_ok n' /\ closing (left n') /\ closing (right n') /\ (deliveries n' < deliveries n)%nat.
Proof.
  intros Hn Hl Hr Hm E. destruct (pipe (left n)) as [p|] eqn:Hp.
  2:{ pose proof (net_protocol n Hn) as (tl & tr & _ & Ml & _). by rewrite (mail_gone _ _ Ml Hp) in Hm. }
  destruct (mail (left n)) as [|c rest] eqn:Em; [done|]. destruct (deliver_net n p c rest Hn Hp Em) as (alive & v & Ec & Hpost & Hok).
  destruct (delivery_cost n p c rest alive v Hn Hp Hl Em Ec) as [Hcost Hst].
  unfold act_left in E. rewrite Hp, Em, Ec in E. cbn [obind] in E. rewrite Hpost in E. cbn [obind] in E. injection E as <-.
  split; [done|]. split; [intros q Hq; cbn in Hq; destruct alive; [injection Hq as <-; auto|done]|]. split; [done|].
  unfold deliveries, left_over. cbn [left right pipe mail after_left]. rewrite length_app, Hp, Em. unfold cost in Hcost. cbn [me state length] in *.
  destruct alive; lia.
Qed.

Lemma deliveries_flip n : deliveries (flip n) = deliveries n.
Proof. unfold deliveries, flip. cbn. lia. Qed.

Lemma delivery n n' : net_ok n -> closing (left n) -> closing (right n) -> delivers n n' ->
  net_ok n' /\ closing (left n') /\ closing (right n') /\ (deliveries n' < deliveries n)%nat.
Proof.
  intros Hn Hl Hr ([|] & Hm & E); [by apply delivery_left|]. unfold act in E. destruct (act_left Deliver (flip n)) as [n1|?|] eqn:E1; try discriminate.
  injection E as <-. destruct (delivery_left (flip n) n1 (net_ok_flip n Hn) Hr Hl Hm E1) as (H1 & H2 & H3 & H4).
  rewrite deliveries_flip in *. split; [by apply net_ok_flip|done].
Qed.

(** Where nothing is on its way, both ends are gone. *)
Lemma silent_gone n : net_ok n -> closing (left n) -> closing (right n) -> mail (left n) = [] -> mail (right n) = [] -> freed n.
Proof.
  intros Hn Hl Hr El Er. pose proof (net_protocol n Hn) as (tl & tr & Hpr & Ml & Mr).
  pose proof (mail_shape _ _ Ml) as Sl. pose proof (mail_shape _ _ Mr) as Sr. rewrite El in Sl. rewrite Er in Sr. cbn in Sl, Sr. subst tl tr.
  assert (Hno : forall e, closing e -> st e <> Some StPending /\ (forall s, opened s -> st e <> Some s)).
  { intros e He. unfold st. destruct (pipe e) as [p|] eqn:Ep; [|split; done]. cbn. specialize (He p Ep). unfold opened.
    split; [intros [= E]|intros s Hs [= E]]; intuition congruence. }
  destruct (Hno _ Hl) as [Hl1 Hl2], (Hno _ Hr) as [Hr1 Hr2].
  assert (Hst : st (left n) = None /\ st (right n) = None).
  { destruct Hpr as [Q|Q]; inversion Q; subst; auto; exfalso; (by eapply Hl2) || (by eapply Hr2) || congruence. }
  apply freed_when_gone; [done|..]; destruct Hst as [H1 H2]; unfold st in *; by eapply fmap_None.
Qed.

Lemma no_delivery n : net_ok n -> nf delivers n -> mail (left n) = [] /\ mail (right n) = [].
Proof.
  intros Hn Hnf. assert (H : forall side, mail (if side : bool then left n else right n) = []).
  { intros side. destruct (mail _) as [|c rest] eqn:Em; [done|]. exfalso. apply Hnf.
    assert (Ha : allowed side Deliver n).
    { split; [|done]. pose proof (net_protocol n Hn) as (tl & tr & _ & Ml & Mr).
      destruct side; [destruct (pipe (left n)) eqn:E|destruct (pipe (right n)) eqn:E]; try (by eexists); exfalso.
      - by rewrite (mail_gone _ _ Ml E) in Em.
      - by rewrite (mail_gone _ _ Mr E) in Em. }
    destruct (act_ok side Deliver n Hn Ha) as (n' & E & _). exists n', side. split; [by rewrite Em|done]. }
  split; [apply (H true)|apply (H false)].
Qed.

Lemma closing_ends n : net_ok n -> closing (left n) -> closing (right n) ->
  sn delivers n /\ (forall n', rtc delivers n n' -> nf delivers n' -> freed n').
Proof.
  intros Hn Hl Hr. split.
  - remember (deliveries n) as k eqn:Ek. revert n Ek Hn Hl Hr. induction (lt_wf k) as [k _ IH]. intros n -> Hn Hl Hr.
    constructor. intros n' Hd. destruct (delivery n n' Hn Hl Hr Hd) as (H1 & H2 & H3 & H4). by eapply IH.
  - intros n' Hs Hnf. assert (H : net_ok n' /\ closing (left n') /\ closing (right n')).
    { clear Hnf. induction Hs as [n|n n1 n' Hd _ IH]; [done|]. destruct (delivery n n1 Hn Hl Hr Hd) as (? & ? & ? & _). by apply IH. }
    destruct H as (Hn' & Hl' & Hr'). destruct (no_delivery n' Hn' Hnf). by apply silent_gone.
Qed.

(** ** Terminating *)

Lemma terminate_closes v v' : view_ok v -> terminate false v = Ok v' ->
  state (me v') = StTerminated \/ state (me v') = StTerminating \/ state (me v') = StDoubleTerminated.
Proof.
  intros Hv E. destruct (terminate_ok false v Hv) as (v1 & E1 & H). replace v1 with v' in * by congruence.
  destruct H as [[(cs & _ & _ & _ & Hs) Hc]|[[_ (cs & _ & _ & _ & Hs)]|[_ (cs & _ & _ & _ & Hs)]]]; rewrite ?Hs; auto.
  specialize (Hc eq_refl). destruct Hs as [->|[Hs _]]; [done|]. intuition congruence.
Qed.

(** What [close_end] does to the end, and leaves at the other one. *)
Lemma close_left n : net_ok n -> exists n', close_end true n = Ok n' /\ net_ok n' /\ closing (left n') /\ pipe (right n') = pipe (right n).
Proof.
  intros Hn. unfold close_end. destruct (pipe (left n)) as [p|] eqn:Hp; [|exists n; split_and!; try done; intros q; by rewrite Hp].
  cbn [act]. unfold act_left. rewrite Hp. destruct (call_net (Terminate false) n p Hn Hp I) as (v & E & Hpost & Hok).
  rewrite E. cbn [obind]. rewrite Hpost. cbn [obind]. eexists. split; [reflexivity|]. split; [done|]. split; [|done].
  intros q [= <-]. by apply (terminate_closes (mkView p (heap n) [] [] [])); [apply left_view|].
Qed.

Lemma close_both_ok n : net_ok n -> exists n', close_both n = Ok n' /\ net_ok n' /\ closing (left n') /\ closing (right n').
Proof.
  intros Hn. unfold close_both. destruct (close_left n Hn) as (n1 & -> & Hn1 & Hl & _). cbn [obind].
  destruct (close_left (flip n1) (net_ok_flip n1 Hn1)) as (n2 & E & Hn2 & Hr & Ep). exists (flip n2). split; [|split; [by apply net_ok_flip|]].
  - unfold close_end in *. cbn [left right flip] in *. destruct (pipe (right n1)); [|by injection E as <-; destruct n1].
    cbn [act] in *. rewrite E. done.
  - split; [|done]. intros p Hp. cbn in Hp, Ep. rewrite Ep in Hp. by apply Hl.
Qed.

(** ** The properties *)

(** C1: whatever the users of a new pair of pipes do with the ends that they
    still have (read, write, roll back, flush, terminate, hiccup), and in whatever
    order the threads take the commands on their way, the run does not fail: no
    assertion of a pipe fails, no command is sent to a deleted end, no ypipe is
    used after it was freed.  After it, the ypipes that a live end points to
    exist; and when both ends are gone, no ypipe is left. *)
Theorem pipes_never_touch_what_is_gone u1 u2 hwms delays acts n0 :
  u1 <> u2 -> new_net u1 u2 hwms delays = Ok n0 -> allowed_all acts n0 ->
  exists n, run_net acts n0 = Ok n /\ intact n (left n) /\ intact n (right n)
    /\ (pipe (left n) = None -> pipe (right n) = None -> freed n).
Proof.
  intros Hu E0 Ha. destruct (new_net_ok u1 u2 hwms delays Hu) as (n1 & E1 & Hn1). replace n1 with n0 in * by congruence.
  destruct (run_net_ok acts n0 Hn1 Ha) as (n & -> & Hn). exists n. split; [done|]. split; [by apply intact_left|].
  split; [exact (intact_left (flip n) (net_ok_flip n Hn))|by apply freed_when_gone].
Qed.

(** C2: from every state that the users of a pair of pipes can reach, once both
    terminate the ends they have without delay, every schedule of the deliveries
    of the commands on their way ends, and where nothing is left to deliver, both
    ends and both ypipes are freed. *)
Theorem terminated_pipes_are_freed u1 u2 hwms delays acts n0 n :
  u1 <> u2 -> new_net u1 u2 hwms delays = Ok n0 -> allowed_all acts n0 -> run_net acts n0 = Ok n ->
  exists n1, close_both n = Ok n1 /\ sn delivers n1 /\ (forall n2, rtc delivers n1 n2 -> nf delivers n2 -> freed n2).
Proof.
  intros Hu E0 Ha Er. pose proof (reached_ok u1 u2 hwms delays acts n Hu) as Hn. destruct (close_both_ok n) as (n1 & -> & Hn1 & Hl & Hr).
  - apply Hn. by exists n0.
  - exists n1. split; [done|]. by apply closing_ends.
Qed.

(** ** Concrete runs *)

Definition a_message : msg_t := mkMsgT (Vsm ["a"%char]) 0.

(** A message on its way, a hiccup of its reader, and the writer terminates. *)
Definition a_session : list (bool * action) :=
  [(true, User (Write a_message)); (true, User Flush); (false, User Hiccup); (true, User (Terminate true));
   (true, Deliver); (false, Deliver); (false, User Read)].

Lemma pipes_never_touch_what_is_gone_witness : exists n,
  (let! n0 := new_net 1 2 (10, 10) (true, true) in run_net a_session n0) = Ok n /\ intact n (left n) /\ intact n (right n)
    /\ (pipe (left n) = None -> pipe (right n) = None -> freed n).
Proof.
  apply (pipes_never_touch_what_is_gone 1 2 (10, 10) (true, true) a_session); [done|reflexivity|].
  vm_compute. repeat split; by eexists.
Defined.

Definition new_pair : net := match new_net 1 2 (10, 10) (true, true) with Ok n => n | _ => mkNet (mkEnd None []) (mkEnd None []) ∅ end.

Definition after_session : net := match run_net a_session new_pair with Ok n => n | _ => new_pair end.

Lemma terminated_pipes_are_freed_witness :
  exists n1, close_both after_session = Ok n1 /\ sn delivers n1 /\ (forall n2, rtc delivers n1 n2 -> nf delivers n2 -> freed n2).
Proof.
  apply (terminated_pipes_are_freed 1 2 (10, 10) (true, true) a_session new_pair after_session); [done|reflexivity| |vm_compute; reflexivity].
  vm_compute. repeat split; by eexists.
Defined.

(** Deliveries, the left end first. *)
Fixpoint deliver_all (fuel : nat) (n : net) : outcome net :=
  match fuel with
  | O => Ok n
  | S fuel' =>
      match mail (left n), mail (right n) with
      | _ :: _, _ => let! n := act true Deliver n in deliver_all fuel' n
      | _, _ :: _ => let! n := act false Deliver n in deliver_all fuel' n
      | _, _ => Ok n
      end
  end.

Example a_session_is_freed :
  (let! n := close_both after_session in let! n := deliver_all (deliveries n) n in
   Ok (bool_decide (pipe (left n) = None), bool_decide (pipe (right n) = None), length (mail (left n)), length (mail (right n)), map_to_list (heap n)))
  = Ok (true, true, O, O, []).
Proof. vm_compute. reflexivity. Qed.
