(* ===== verification/SocketPipes.v ===== *)
(** * The pipes of one socket

    The ends that a socket owns, with their ypipes, implement what [Pipes] asks
    for: [check_read], [read], [check_write], [write] and [flush] of [Pipe.v]
    change what waits in their pipe as the interface promises. *)

From stdpp Require Import tactics gmap.
From S2P Require Import Prelude Msg Yqueue Ypipe Pipe PipeProtocol Pipes.

(** The ends by their addresses, the heap of ypipes, and the commands that were
    sent to the peers, in their order. *)
Record socket_pipes := mkPipes { ends : gmap Z pipe_t; ypipes : gmap Z upipe_t; sent : list (Z * command) }.

(** [pipe->f (...)]. *)
Definition on_pipe {A} (p : Z) (f : view -> outcome (A * view)) (w : socket_pipes) : outcome (A * socket_pipes) :=
  match ends w !! p with
  | None => Aborted "freed pipe"
  | Some q =>
      let! (a, v) := f (mkView q (ypipes w) [] [] []) in
      Ok (a, mkPipes (<[p := me v]> (ends w)) (upipes v) (sent w ++ map (pair p) (commands v)))
  end.

#[export] Instance socket_pipe_ops : PipeOps socket_pipes := {
  pipe_check_read p := on_pipe p check_read;
  pipe_read p := on_pipe p read;
  pipe_check_write p := on_pipe p (fun v => Ok (check_write v));
  pipe_write p m := on_pipe p (write m);
  pipe_flush p w := let! (_, w) := on_pipe p (fun v => let! v := flush v in Ok (tt, v)) w in Ok w
}.

(** ** What waits in the pipes *)

Definition channel_at (w : socket_pipes) (a : option Z) : option upipe_t := a ≫= fun a => ypipes w !! a.

Fixpoint before_delimiter (l : list msg_t) : list msg_t :=
  match l with [] => [] | m :: l' => if is_delimiter m then [] else m :: before_delimiter l' end.

Definition reads (q : pipe_t) : bool := in_active q && (bool_decide (state q = StActive) || bool_decide (state q = StPending)).

Definition readable_items (q : pipe_t) (c : option upipe_t) : list msg_t :=
  if reads q then match c with Some c => before_delimiter (fetched c ++ flushed c) | None => [] end else [].

Definition inbox_of (w : socket_pipes) (p : Z) : list msg_t :=
  match ends w !! p with Some q => readable_items q (channel_at w (inpipe q)) | None => [] end.

Definition outbox_of (w : socket_pipes) (p : Z) : list msg_t :=
  match ends w !! p with Some q => match channel_at w (outpipe q) with Some c => items_of c | None => [] end | None => [] end.

(** [check_write] depends on the end only. *)
Definition takes (q : pipe_t) : bool := (check_write (mkView q ∅ [] [] [])).1.

Definition taking_at (w : socket_pipes) (p : Z) : bool := match ends w !! p with Some q => takes q | None => false end.

(** The ypipes of an end, and the ends that own a ypipe. *)
Definition owns (q : pipe_t) (a : Z) : Prop := inpipe q = Some a \/ outpipe q = Some a.

Record socket_ok (w : socket_pipes) : Prop := {
  sp_in p q : ends w !! p = Some q -> is_Some (inpipe q);
  sp_out p q : ends w !! p = Some q -> outpipe q = None -> state q <> StActive;
  sp_apart p q : ends w !! p = Some q -> inpipe q <> outpipe q;
  sp_there p q a : ends w !! p = Some q -> owns q a -> is_Some (ypipes w !! a);
  sp_own p p' q q' a : ends w !! p = Some q -> ends w !! p' = Some q' -> owns q a -> owns q' a -> p = p'
}.

(** An operation of an end that changes at most the ypipe at [x]. *)
Record effect (q q' : pipe_t) (h h' : gmap Z upipe_t) (x : Z) : Prop := {
  ef_own : owns q x;
  ef_in : inpipe q' = inpipe q;
  ef_out : outpipe q' = outpipe q /\ (state q' = StActive -> state q = StActive) \/ outpipe q' = None /\ state q' <> StActive;
  ef_rest y : y <> x -> h' !! y = h !! y;
  ef_there : is_Some (h !! x) -> is_Some (h' !! x)
}.

Lemma effect_owns q q' h h' x a : effect q q' h h' x -> owns q' a -> owns q a.
Proof. intros [_ Hi Ho _ _] [H|H]; [left; congruence|right]. destruct Ho as [[Ho _]|[Ho _]]; congruence. Qed.

Lemma effect_ok w p q q' h' x s : socket_ok w -> ends w !! p = Some q -> effect q q' (ypipes w) h' x ->
  let w' := mkPipes (<[p := q']> (ends w)) h' s in
  socket_ok w' /\ (forall r, is_Some (ends w' !! r) <-> is_Some (ends w !! r))
  /\ (forall r, r <> p -> inbox_of w' r = inbox_of w r /\ outbox_of w' r = outbox_of w r).
Proof.
  intros Hw Hq He. cbn zeta. set (w' := mkPipes _ _ _). pose proof He as [Hown Hi Ho Hrest Hthere].
  assert (Hother : forall r qr, r <> p -> ends w' !! r = Some qr -> ends w !! r = Some qr) by (intros r qr Hr; cbn; by rewrite lookup_insert_ne).
  assert (Hself : ends w' !! p = Some q') by (cbn; by rewrite lookup_insert_eq).
  assert (Hback : forall r qr, ends w' !! r = Some qr -> exists qr', ends w !! r = Some qr' /\ (forall a, owns qr a -> owns qr' a)).
  { intros r qr Hr. destruct (decide (r = p)) as [->|Hrp]; [|exists qr; auto]. replace qr with q' by congruence. exists q. split; [done|].
    intros a. by apply (effect_owns q q' (ypipes w) h' x). }
  assert (Hframe : forall r qr a, r <> p -> ends w !! r = Some qr -> owns qr a -> h' !! a = ypipes w !! a).
  { intros r qr a Hr Hqr Ha. apply Hrest. intros ->. apply Hr. by apply (sp_own w Hw r p qr q x). }
  split; [|split].
  - split.
    + intros r qr Hr. destruct (decide (r = p)) as [->|Hrp]; [|by apply (sp_in w Hw r), Hother].
      replace qr with q' by congruence. rewrite Hi. by apply (sp_in w Hw p).
    + intros r qr Hr. destruct (decide (r = p)) as [->|Hrp]; [|by apply (sp_out w Hw r), Hother].
      replace qr with q' by congruence. destruct Ho as [[-> Hs]|[_ Hs]]; [|done]. intros Hn Ha. by apply (sp_out w Hw p q Hq Hn), Hs.
    + intros r qr Hr. destruct (decide (r = p)) as [->|Hrp]; [|by apply (sp_apart w Hw r), Hother].
      replace qr with q' by congruence. rewrite Hi. destruct Ho as [[-> _]|[-> _]]; [by apply (sp_apart w Hw p)|].
      destruct (sp_in w Hw p q Hq) as [a ->]. done.
    + intros r qr a Hr Ha. destruct (Hback r qr Hr) as (qr' & Hr' & Hb). pose proof (sp_there w Hw r qr' a Hr' (Hb a Ha)) as H.
      cbn. destruct (decide (a = x)) as [->|Hax]; [by apply Hthere|by rewrite Hrest].
    + intros r r' qr qr' a Hr Hr' Ha Ha'. destruct (Hback r qr Hr) as (b & Hb & Hbo), (Hback r' qr' Hr') as (b' & Hb' & Hbo').
      apply (sp_own w Hw r r' b b' a); auto.
  - intros r. cbn. destruct (decide (r = p)) as [->|Hrp]; [rewrite lookup_insert_eq; by split; intros _; eexists|by rewrite lookup_insert_ne].
  - intros r Hrp. unfold inbox_of, outbox_of. cbn [ends w']. rewrite lookup_insert_ne by done.
    destruct (ends w !! r) as [qr|] eqn:Hqr; [|done]. unfold channel_at. cbn [ypipes w'].
    assert (Hc : forall o, (forall a, o = Some a -> owns qr a) -> (o ≫= fun a => h' !! a) = (o ≫= fun a => ypipes w !! a)).
    { intros [a|] Hoa; [|done]. cbn. apply (Hframe r qr a); auto. }
    rewrite !Hc; [done|intros a ?; by right|intros a ?; by left].
Qed.

(** ** The operations on a view *)

Section Views.
Variables (q : pipe_t) (h : gmap Z upipe_t).
Abbreviation v0 := (mkView q h [] [] []).

Lemma reads_readable : readable v0 = reads q.
Proof. done. Qed.

(** Nothing changed. *)
Lemma effect_refl a : owns q a -> effect q q h h a.
Proof. intros Ha. split; try done. by left. Qed.

(** A ypipe of the end was changed, and fields that are of no account. *)
Lemma effect_set q' a c : owns q a -> inpipe q' = inpipe q -> outpipe q' = outpipe q -> state q' = state q -> effect q q' h (<[a := c]> h) a.
Proof.
  intros Ha Hi Ho Hs. split; try done; [left; by rewrite Hs|intros y Hy; by rewrite lookup_insert_ne|].
  intros _. rewrite lookup_insert_eq. by eexists.
Qed.

Lemma effect_again q' h' a c : effect q q' h h' a -> effect q q' h (<[a := c]> h') a.
Proof.
  intros [H1 H2 H3 H4 H5]. split; try done; [intros y Hy; rewrite lookup_insert_ne by done; by apply H4|].
  intros _. rewrite lookup_insert_eq. by eexists.
Qed.

(** The delimiter is read: the end reads no more. *)
Lemma delimit_effect h1 q1 a : effect q q1 h h1 a -> state q1 = state q -> outpipe q1 = outpipe q -> reads q = true ->
  exists v', delimit (mkView q1 h1 [] [] []) = Ok v' /\ effect q (me v') h (upipes v') a /\ upipes v' = h1 /\ reads (me v') = false.
Proof.
  intros [H1 H2 H3 H4 H5] Hs Ho Hr. unfold reads in Hr. apply andb_prop in Hr as [_ Hr]. unfold delimit. cbn [me]. rewrite Hs.
  destruct (state q) eqn:Es; try done; eexists; (split; [reflexivity|]); (split; [split; try done; try (by left); by right|]);
    (split; [done|]); unfold reads; cbn; by destruct (in_active q1).
Qed.

Lemma fetch_all_items (c : upipe_t) : fetched (fetch_all c).2 ++ flushed (fetch_all c).2 = fetched c ++ flushed c
  /\ ((fetch_all c).1 = match fetched c ++ flushed c with [] => false | _ => true end)
  /\ (fetched (fetch_all c).2 = [] -> fetched c ++ flushed c = []).
Proof. unfold fetch_all. destruct (fetched c) as [|m l] eqn:E1; [destruct (flushed c) eqn:E2|]; cbn; rewrite ?app_nil_r, ?E1; done. Qed.

Lemma read_effect a c : inpipe q = Some a -> h !! a = Some c ->
  exists o v' c', read v0 = Ok (o, v') /\ effect q (me v') h (upipes v') a /\ upipes v' !! a = Some c'
    /\ o = head (readable_items q (Some c)) /\ readable_items (me v') (Some c') = tail (readable_items q (Some c)).
Proof.
  intros Ha Hc. assert (Hown : owns q a) by by left. unfold read. rewrite reads_readable. unfold readable_items at 1 3.
  destruct (reads q) eqn:Hr; cbn [negb]; [|exists None, v0, c; split_and!; try done; [by apply effect_refl|unfold readable_items; cbn [me]; by rewrite Hr]].
  unfold deref. cbn [me upipes]. rewrite Ha, Hc. cbn [obind]. pose proof (up_read_cases c) as Hu. destruct (up_read c) as [[m|] c1].
  - destruct Hu as (-> & _ & _). cbn [before_delimiter]. destruct (is_delimiter m) eqn:Hd.
    + destruct (delimit_effect (<[a := c1]> h) q a) as (v' & E & He & Eu & Hn); [by apply effect_set|done|done|done|].
      unfold set_upipe. cbn [me upipes commands events closed]. rewrite E. cbn [obind]. exists None, v', c1. split_and!; try done.
      * by rewrite Eu, lookup_insert_eq.
      * unfold readable_items. by rewrite Hn.
    + cbn [head tail]. set (v1 := if negb (has_flag more m) then _ else _).
      assert (Hv1 : upipes v1 = <[a := c1]> h /\ inpipe (me v1) = inpipe q /\ outpipe (me v1) = outpipe q /\ state (me v1) = state q /\ reads (me v1) = true)
        by (unfold v1; by destruct (negb (has_flag more m))).
      set (v2 := if (0 <? lwm (me v1)) && _ then _ else v1).
      assert (Hv2 : upipes v2 = upipes v1 /\ me v2 = me v1) by (unfold v2; by destruct (_ && _)).
      destruct Hv1 as (U1 & I1 & O1 & S1 & R1), Hv2 as [U2 M2]. exists (Some m), v2, c1. rewrite U2, M2, U1. split_and!; try done.
      * by apply effect_set.
      * by rewrite lookup_insert_eq.
      * unfold readable_items. by rewrite R1.
  - destruct Hu as (E1 & E2 & _). rewrite E1, E2. eexists None, _, c1. split; [reflexivity|]. cbn [me upipes set_me set_upipe]. split_and!; try done.
    + by apply effect_set.
    + by rewrite lookup_insert_eq.
Qed.

Lemma check_read_effect a c : inpipe q = Some a -> h !! a = Some c ->
  exists b v' c', check_read v0 = Ok (b, v') /\ effect q (me v') h (upipes v') a /\ upipes v' !! a = Some c'
    /\ b = match readable_items q (Some c) with [] => false | _ => true end /\ readable_items (me v') (Some c') = readable_items q (Some c).
Proof.
  intros Ha Hc. assert (Hown : owns q a) by by left. unfold check_read. rewrite reads_readable. unfold readable_items at 1 3.
  destruct (reads q) eqn:Hr; cbn [negb]; [|exists false, v0, c; split_and!; try done; [by apply effect_refl|unfold readable_items; cbn [me]; by rewrite Hr]].
  unfold deref. cbn [me upipes]. rewrite Ha, Hc. cbn [obind]. unfold up_check_read.
  destruct (fetch_all_items c) as (Hi & Hb & Hf). destruct (fetch_all c) as [b c1] eqn:Ec. cbn [fst snd] in *. rewrite <- Hi. rewrite <- Hi in Hb, Hf.
  destruct (fetched c1) as [|m l] eqn:E1.
  - rewrite (Hf eq_refl) in *. subst b. cbn [negb]. eexists false, _, c1. split; [reflexivity|]. cbn [me upipes set_me set_upipe].
    split_and!; try done; [by apply effect_set|by rewrite lookup_insert_eq].
  - cbn [app] in *. subst b. cbn [negb]. unfold up_probe, up_check_read. rewrite (fetch_all_again c1 m l E1). cbn [assertion obind]. rewrite E1. cbn [obind].
    cbn [before_delimiter]. destruct (is_delimiter m) eqn:Hd.
    + pose proof (up_read_cases c1) as Hu. rewrite E1 in Hu. destruct (up_read c1) as [[m'|] c2]; [|by destruct Hu].
      cbn [assertion obind]. unfold set_upipe. cbn [me upipes commands events closed].
      destruct (delimit_effect (<[a := c2]> (<[a := c1]> (<[a := c1]> h))) q a) as (v' & E & He & Eu & Hn); [by apply effect_again, effect_again, effect_set|done|done|done|].
      rewrite E. cbn [obind]. exists false, v', c2. split_and!; try done.
      * by rewrite Eu, lookup_insert_eq.
      * unfold readable_items. by rewrite Hn.
    + eexists true, _, c1. split; [reflexivity|]. cbn [me upipes set_upipe]. split_and!; try done.
      * by apply effect_again, effect_set.
      * by rewrite lookup_insert_eq.
      * unfold readable_items. rewrite Hr, E1. cbn [app before_delimiter]. by rewrite Hd.
Qed.

(** Writing is refused, or the message is behind the others. *)
Lemma check_write_effect a : owns q a -> let v' := (check_write v0).2 in
  effect q (me v') h (upipes v') a /\ upipes v' = h /\ inpipe (me v') = inpipe q /\ outpipe (me v') = outpipe q /\ reads (me v') = reads q
  /\ state (me v') = state q /\ ((check_write v0).1 = true -> state q = StActive).
Proof.
  intros Ha. cbn zeta. unfold check_write. destruct (_ || _) eqn:Eo; cbn [fst snd]; [split_and!; try done; by apply effect_refl|].
  apply orb_false_elim in Eo as [_ Es%negb_false_iff]. apply bool_decide_eq_true in Es.
  destruct (_ && _); cbn [fst snd]; (split; [|done]); [|by apply effect_refl]. split; try done. by left.
Qed.

Lemma write_effect a m : owns q a -> (state q = StActive -> exists b c, outpipe q = Some b /\ h !! b = Some c) ->
  exists b v', write m v0 = Ok (b, v') /\ inpipe (me v') = inpipe q /\ outpipe (me v') = outpipe q /\ reads (me v') = reads q
    /\ if b then exists x c c', outpipe q = Some x /\ h !! x = Some c /\ items_of c' = items_of c ++ [m] /\ upipes v' = <[x := c']> h /\ effect q (me v') h (upipes v') x
       else upipes v' = h /\ effect q (me v') h (upipes v') a.
Proof.
  intros Ha Hout. unfold write. destruct (check_write_effect a Ha) as (He & Eu & Ei & Eo & Er & Es & Hb). destruct (check_write v0) as [b v1]. cbn [fst snd] in *.
  destruct b; cbn [negb]; [|exists false, v1; split_and!; done]. destruct (Hout (Hb eq_refl)) as (x & c & Hx & Hc).
  unfold deref. rewrite Eo, Eu, Hx, Hc. cbn [obind]. set (c' := up_write m _ c). set (v2 := set_upipe x c' v1). set (v3 := if negb _ then _ else _).
  assert (Hv3 : upipes v3 = <[x := c']> h /\ inpipe (me v3) = inpipe q /\ outpipe (me v3) = outpipe q /\ state (me v3) = state q /\ reads (me v3) = reads q).
  { unfold v3, v2. destruct (negb _); cbn; rewrite Eu; split_and!; try done; by congruence. }
  destruct Hv3 as (U3 & I3 & O3 & S3 & R3). exists true, v3. rewrite U3. split_and!; try done; [congruence|]. exists x, c, c'. split_and!; try done.
  - unfold c', up_write, items_of. destruct (has_flag more m); cbn; by rewrite ?app_nil_r, !app_assoc.
  - by apply effect_set; [right|..].
Qed.

Lemma check_write_takes v : (check_write v).1 = takes (me v).
Proof. unfold takes, check_write, is_state. cbn [me]. destruct (_ || _); [done|]. by destruct (_ && _). Qed.

(** A write is taken when [check_write] says so, and in the middle of a message
    the end stays writable. *)
Lemma write_takes m b v : write m v0 = Ok (b, v) -> b = takes q /\ (b = true -> has_flag more m = true -> takes (me v) = true).
Proof.
  pose proof (check_write_takes v0) as Et. cbn [me] in Et. unfold write. destruct (check_write v0) as [[] v1] eqn:Ec; cbn [negb fst] in *; [|by intros [= <- _]].
  assert (Hv1 : v1 = v0) by (revert Ec; unfold check_write; destruct (_ || _); [done|]; destruct (_ && _); [done|]; by intros [= <-]).
  subst v1. destruct (deref _ _) as [[a c]|?|]; try discriminate. cbn [obind]. intros [= <- <-]. split; [done|]. intros _ ->. by cbn [negb me set_upipe].
Qed.

Lemma flush_effect a : owns q a -> (forall b, outpipe q = Some b -> is_Some (h !! b)) ->
  exists v', flush v0 = Ok v' /\ me v' = q /\ (upipes v' = h \/ exists b c, outpipe q = Some b /\ h !! b = Some c /\ upipes v' = <[b := (up_flush c).2]> h).
Proof.
  intros Ha Hout. unfold flush. destruct (is_state StTerminating v0); [exists v0; auto|]. cbn [me]. destruct (outpipe q) as [b|] eqn:Eo; [|exists v0; auto].
  destruct (Hout b eq_refl) as [c Hc]. unfold deref. cbn [upipes]. rewrite Hc. cbn [obind]. destruct (up_flush c) as [ok c1] eqn:Ef.
  exists (if negb ok then send activate_read (set_upipe b c1 v0) else set_upipe b c1 v0). split; [done|].
  destruct ok; cbn; (split; [done|]); right; exists b, c; by rewrite Ef.
Qed.

Lemma up_flush_items (c : upipe_t) : items_of (up_flush c).2 = items_of c.
Proof.
  unfold up_flush, items_of. cbn [promised]. destruct (complete c) eqn:E; [cbn; by rewrite E|].
  destruct (asleep c); cbn; rewrite ?E; cbn; by rewrite <- ?app_assoc.
Qed.
End Views.

(** ** The interface *)

Section Laws.
Variables (w : socket_pipes) (p : Z) (q : pipe_t).
Hypothesis Hw : socket_ok w.
Hypothesis Hq : ends w !! p = Some q.

Lemma own_in : exists a c, inpipe q = Some a /\ ypipes w !! a = Some c.
Proof. destruct (sp_in w Hw p q Hq) as [a Ha]. destruct (sp_there w Hw p q a Hq) as [c Hc]; [by left|]. by exists a, c. Qed.

Lemma own_out b : outpipe q = Some b -> is_Some (ypipes w !! b).
Proof. intros Hb. apply (sp_there w Hw p q b Hq). by right. Qed.

Lemma own_out_apart a b : inpipe q = Some a -> outpipe q = Some b -> a <> b.
Proof. intros Ha Hb ->. apply (sp_apart w Hw p q Hq). congruence. Qed.

Lemma on_pipe_run {A} (f : view -> outcome (A * view)) a v : f (mkView q (ypipes w) [] [] []) = Ok (a, v) ->
  on_pipe p f w = Ok (a, mkPipes (<[p := me v]> (ends w)) (upipes v) (sent w ++ map (pair p) (commands v))).
Proof. intros E. unfold on_pipe. rewrite Hq, E. done. Qed.

Lemma inbox_self q' h' s : inbox_of (mkPipes (<[p := q']> (ends w)) h' s) p = readable_items q' (inpipe q' ≫= fun a => h' !! a).
Proof. unfold inbox_of. cbn. by rewrite lookup_insert_eq. Qed.

Lemma outbox_self q' h' s : outbox_of (mkPipes (<[p := q']> (ends w)) h' s) p = match outpipe q' ≫= fun a => h' !! a with Some c => items_of c | None => [] end.
Proof. unfold outbox_of. cbn. by rewrite lookup_insert_eq. Qed.

Lemma inbox_here : inbox_of w p = readable_items q (channel_at w (inpipe q)).
Proof. unfold inbox_of. by rewrite Hq. Qed.

Lemma outbox_here : outbox_of w p = match channel_at w (outpipe q) with Some c => items_of c | None => [] end.
Proof. unfold outbox_of. by rewrite Hq. Qed.

(** The end reads what it read before. *)
Lemma inbox_kept q' h' s : inpipe q' = inpipe q -> reads q' = reads q -> (forall a, inpipe q = Some a -> h' !! a = ypipes w !! a) ->
  inbox_of (mkPipes (<[p := q']> (ends w)) h' s) p = inbox_of w p.
Proof.
  intros Hi Hr Hh. rewrite inbox_self, inbox_here, Hi. unfold readable_items. rewrite Hr. unfold channel_at.
  destruct (inpipe q) as [a|]; [|done]. cbn. by rewrite (Hh a).
Qed.
End Laws.

#[export] Program Instance socket_pipe_laws : PipeLaws socket_pipes := {
  pipes_ok := socket_ok;
  attached w p := is_Some (ends w !! p);
  outbox := outbox_of;
  inbox := inbox_of;
  taking := taking_at
}.
Next Obligation.
  intros w p m Hw [q Hq]. destruct (own_in w p q Hw Hq) as (a & c & Ha & Hc).
  destruct (write_effect q (ypipes w) a m) as (b & v' & E & Ei & Eo & Er & Hb); [by left| |].
  { intros Hs. destruct (outpipe q) as [x|] eqn:Ex; [|by destruct (sp_out w Hw p q Hq Ex)]. destruct (own_out w p q Hw Hq x Ex) as [d Hd]. by exists x, d. }
  cbn [pipe_write socket_pipe_ops]. rewrite (on_pipe_run w p q Hq _ _ _ E). eexists b, _. split; [reflexivity|].
  destruct (write_takes q (ypipes w) m b v' E) as [Hb1 Hb2].
  match goal with |- ?A /\ ?B /\ ?C /\ ?D /\ _ => enough (H : A /\ B /\ C /\ D) end.
  { destruct H as (H1 & H2 & H3 & H4). split_and!; try done; unfold taking_at; cbn; [by rewrite Hq|intros Ht Hm; rewrite lookup_insert_eq; by apply Hb2|].
    intros r Hr. by rewrite lookup_insert_ne. }
  destruct b; cbn [andb].
  - destruct Hb as (x & d & d' & Hx & Hd & Hi & Hu & He). destruct (effect_ok w p q _ _ x (sent w ++ map (pair p) (commands v')) Hw Hq He) as (Hw' & Hatt & Hoth).
    split; [done|]. split; [done|]. split; intros r _; (destruct (decide (p = r)) as [<-|Hr]; [|rewrite ?bool_decide_eq_false_2 by done; by apply Hoth]).
    + apply (inbox_kept w p q); try done. intros y Hy. rewrite Hu, lookup_insert_ne; [done|]. intros E'. by apply (own_out_apart w p q Hw Hq y x).
    + rewrite bool_decide_eq_true_2 by done. rewrite outbox_self, (outbox_here w p q) by done. unfold channel_at. rewrite Eo, Hx. cbn.
      by rewrite Hu, lookup_insert_eq, Hd.
  - destruct Hb as [Hu He]. destruct (effect_ok w p q _ _ a (sent w ++ map (pair p) (commands v')) Hw Hq He) as (Hw' & Hatt & Hoth).
    split; [done|]. split; [done|]. split; intros r _; (destruct (decide (p = r)) as [<-|Hr]; [|by apply Hoth]).
    + apply (inbox_kept w p q); try done. intros y Hy. by rewrite Hu.
    + rewrite outbox_self, (outbox_here w p q), Hu, Eo by done. done.
Qed.
Next Obligation.
  intros w p Hw [q Hq]. destruct (own_in w p q Hw Hq) as (a & c & Ha & Hc).
  destruct (check_write_effect q (ypipes w) a) as (He & Hu & Ei & Eo & Er & _); [by left|].
  cbn [pipe_check_write socket_pipe_ops]. destruct (check_write _) as [b v'] eqn:E. cbn [fst snd] in *.
  rewrite (on_pipe_run w p q Hq (fun v => Ok (check_write v)) b v') by (by rewrite E). eexists b, _. split; [reflexivity|].
  destruct (effect_ok w p q _ _ a (sent w ++ map (pair p) (commands v')) Hw Hq He) as (Hw' & Hatt & Hoth). split; [done|]. split; [done|].
  intros r _. destruct (decide (p = r)) as [<-|Hr]; [|by apply Hoth]. split.
  - apply (inbox_kept w p q); try done. intros y Hy. by rewrite Hu.
  - rewrite outbox_self, (outbox_here w p q), Hu, Eo by done. done.
Qed.
Next Obligation.
  intros w p Hw [q Hq]. destruct (own_in w p q Hw Hq) as (a & c & Ha & Hc).
  destruct (flush_effect q (ypipes w) a) as (v' & E & Em & Hu); [by left|by apply (own_out w p q)|].
  cbn [pipe_flush socket_pipe_ops]. rewrite (on_pipe_run w p q Hq (fun v => let! v := flush v in Ok (tt, v)) tt v') by (by rewrite E). cbn [obind].
  eexists. split; [reflexivity|]. rewrite Em. match goal with |- ?A /\ ?B /\ ?C /\ _ => enough (H : A /\ B /\ C) end.
  { destruct H as (H1 & H2 & H3). split_and!; try done. intros r. unfold taking_at. cbn. destruct (decide (r = p)) as [->|Hr]; [|by rewrite lookup_insert_ne].
    by rewrite lookup_insert_eq, Hq. }
  destruct Hu as [Hu|(b & d & Hb & Hd & Hu)].
  - destruct (effect_ok w p q q (upipes v') a (sent w ++ map (pair p) (commands v')) Hw Hq) as (Hw' & Hatt & Hoth); [rewrite Hu; apply effect_refl; by left|].
    split; [done|]. split; [done|]. intros r _. destruct (decide (p = r)) as [<-|Hr]; [|by apply Hoth]. split.
    + apply (inbox_kept w p q); try done. intros y Hy. by rewrite Hu.
    + rewrite outbox_self, (outbox_here w p q), Hu by done. done.
  - destruct (effect_ok w p q q (upipes v') b (sent w ++ map (pair p) (commands v')) Hw Hq) as (Hw' & Hatt & Hoth); [rewrite Hu; apply effect_set; try done; by right|].
    split; [done|]. split; [done|]. intros r _. destruct (decide (p = r)) as [<-|Hr]; [|by apply Hoth]. split.
    + apply (inbox_kept w p q); try done. intros y Hy. rewrite Hu, lookup_insert_ne; [done|]. intros E'. by apply (own_out_apart w p q Hw Hq y b).
    + rewrite outbox_self, (outbox_here w p q) by done. unfold channel_at. rewrite Hb. cbn. by rewrite Hu, lookup_insert_eq, Hd, up_flush_items.
Qed.
Next Obligation.
  intros w p Hw [q Hq]. destruct (own_in w p q Hw Hq) as (a & c & Ha & Hc).
  destruct (read_effect q (ypipes w) a c Ha Hc) as (o & v' & c' & E & He & Hc' & -> & Hi). cbn [pipe_read socket_pipe_ops].
  rewrite (on_pipe_run w p q Hq read _ v' E). destruct (effect_ok w p q _ _ a (sent w ++ map (pair p) (commands v')) Hw Hq He) as (Hw' & Hatt & Hoth).
  assert (Eb : inbox_of w p = readable_items q (Some c)) by (rewrite (inbox_here w p q Hq); unfold channel_at; rewrite Ha; cbn; by rewrite Hc).
  eexists _, _. split; [reflexivity|]. split; [done|]. split; [done|]. split; [by rewrite Eb|].
  intros r _. destruct (decide (p = r)) as [<-|Hr]; [|rewrite bool_decide_eq_false_2 by done; by apply Hoth].
  rewrite bool_decide_eq_true_2, Eb, inbox_self, (ef_in _ _ _ _ _ He), Ha by done. cbn. by rewrite Hc'.
Qed.
Next Obligation.
  intros w p Hw [q Hq]. destruct (own_in w p q Hw Hq) as (a & c & Ha & Hc).
  destruct (check_read_effect q (ypipes w) a c Ha Hc) as (b & v' & c' & E & He & Hc' & -> & Hi). cbn [pipe_check_read socket_pipe_ops].
  rewrite (on_pipe_run w p q Hq check_read _ v' E). destruct (effect_ok w p q _ _ a (sent w ++ map (pair p) (commands v')) Hw Hq He) as (Hw' & Hatt & Hoth).
  assert (Eb : inbox_of w p = readable_items q (Some c)) by (rewrite (inbox_here w p q Hq); unfold channel_at; rewrite Ha; cbn; by rewrite Hc).
  rewrite Eb. eexists. split; [reflexivity|]. split; [done|]. split; [done|].
  intros r _. destruct (decide (p = r)) as [<-|Hr]; [|by apply Hoth]. rewrite Eb, inbox_self, (ef_in _ _ _ _ _ He), Ha. cbn. by rewrite Hc'.
Qed.

(** ** A socket gets its pipes *)

Definition no_pipes : socket_pipes := mkPipes ∅ ∅ [].

(** A new end at [p] that reads from [u1] and writes to [u2]. *)
Definition plug (p u1 u2 : Z) (hwm_ : Z) (w : socket_pipes) : socket_pipes :=
  mkPipes (<[p := new_pipe u1 u2 hwm_ hwm_ true]> (ends w)) (<[u1 := new_channel]> (<[u2 := new_channel]> (ypipes w))) (sent w).

Lemma no_pipes_ok : socket_ok no_pipes.
Proof. split; try done; intros p q; cbn; by rewrite lookup_empty. Qed.

Lemma plug_ok p u1 u2 hwm_ w : socket_ok w -> ends w !! p = None -> ypipes w !! u1 = None -> ypipes w !! u2 = None -> u1 <> u2 ->
  socket_ok (plug p u1 u2 hwm_ w).
Proof.
  intros Hw Hp H1 H2 Hne. assert (Hnew : forall a, owns (new_pipe u1 u2 hwm_ hwm_ true) a -> a = u1 \/ a = u2) by (intros a [[= <-]|[= <-]]; auto).
  assert (Hold : forall r q a, ends w !! r = Some q -> owns q a -> a <> u1 /\ a <> u2).
  { intros r q a Hr Ha. destruct (sp_there w Hw r q a Hr Ha) as [c Hc]. split; intros ->; congruence. }
  assert (Hcase : forall r q, ends (plug p u1 u2 hwm_ w) !! r = Some q -> r = p /\ q = new_pipe u1 u2 hwm_ hwm_ true \/ r <> p /\ ends w !! r = Some q).
  { intros r q. cbn. destruct (decide (r = p)) as [->|]; [rewrite lookup_insert_eq; intros [= <-]; by left|rewrite lookup_insert_ne by done; by right]. }
  split.
  - intros r q Hr. apply Hcase in Hr as [[-> ->]|[_ Hr]]; [by eexists|by apply (sp_in w Hw r)].
  - intros r q Hr. apply Hcase in Hr as [[-> ->]|[_ Hr]]; [done|by apply (sp_out w Hw r)].
  - intros r q Hr. apply Hcase in Hr as [[-> ->]|[_ Hr]]; [by intros [= E]|by apply (sp_apart w Hw r)].
  - intros r q a Hr Ha. cbn. apply Hcase in Hr as [[-> ->]|[_ Hr]].
    + apply Hnew in Ha as [->| ->]; [by rewrite lookup_insert_eq; eexists|]. rewrite lookup_insert_ne, lookup_insert_eq by done. by eexists.
    + destruct (Hold r q a Hr Ha). rewrite !lookup_insert_ne by done. by apply (sp_there w Hw r q).
  - intros r r' q q' a Hr Hr' Ha Ha'. apply Hcase in Hr as [[-> ->]|[_ Hr]]; apply Hcase in Hr' as [[-> ->]|[_ Hr']]; try done.
    + apply Hnew in Ha. destruct (Hold r' q' a Hr' Ha'). by destruct Ha.
    + apply Hnew in Ha'. destruct (Hold r q a Hr Ha). by destruct Ha'.
    + by apply (sp_own w Hw r r' q q' a).
Qed.

(** The peer writes a message and flushes it. *)
Definition arrive (u : Z) (m : msg_t) (w : socket_pipes) : socket_pipes :=
  mkPipes (ends w) (alter (fun c => (up_flush (up_write m (has_flag more m) c)).2) u (ypipes w)) (sent w).

Lemma arrive_ok u m w : socket_ok w -> socket_ok (arrive u m w).
Proof.
  intros Hw. split; cbn; try apply Hw. intros p q a Hq Ha. apply lookup_alter_is_Some. by apply (sp_there w Hw p q).
Qed.
