(* ===== verification/DistRefinement.v ===== *)
(** * What the distributor promises

    The distributor over any pipes that keep the promises of [Pipes], and runs of
    it over the pipes of a socket. *)

From stdpp Require Import tactics gmap.
From S2P Require Import Prelude Msg MsgTheorems Array Pipes Dist DistTheorems Pipe SocketPipes.

(** The distributor implements its specification, a map from its pipes to the
    classes matching, active, eligible and passive.  Every sequence of calls that
    its owners may make (attaching pipes, matching and unmatching, activating,
    sending to the matching pipes or to all, and removing a pipe of the hindmost
    class), between which the pipes may change in any way, runs without a failed
    assertion and without an access out of the range of the array; and the classes
    change call by call as the specification says: a pipe that refused a message
    is passive, and the pipes that waited for the end of a multipart message take
    part afterwards. *)
Theorem dist_refines_classes {W} `{PipeLaws W} (os : list (dist_op (W := W))) w h :
  pipes_ok w -> legal_calls os (new_dist, w, h) ->
  exists d' w' h' f', run_dists os (new_dist, w, h) = Ok (d', w', h') /\ classes d' f'
    /\ class_run (∅, false) os (f', more_parts d').
Proof.
  intros Hw Hl. destruct new_dist_ok as [Hd Hf].
  destruct (run_dists_ok os (new_dist, w, h) ∅) as ([[d' w'] h'] & f' & E & (_ & Hf' & _) & Hrun); [|done|by exists d', w', h', f'].
  split; [done|]. split; [done|]. split; [done|]. intros q Hq. by apply elem_of_nil in Hq.
Qed.

(** C23: [send_to_matching] gives the message to every matching pipe, once and
    behind what was written before, unless the pipe does not take it; the pipes
    that do not become passive and get nothing, and no other pipe gets anything.  The
    references to the content of the message are as many as the copies that were
    written and those that existed elsewhere; nothing else on the heap changes. *)
Theorem dist_delivers {W} `{PipeLaws W} m hs d w h f :
  dist_ok d -> classes d f -> world_ok d w -> sendable m hs d h ->
  exists m' R d' w' h', send_to_matching m d w h = Ok (init, d', w', h') /\ u m' = u m
    /\ (forall q, q ∈ R <-> f !! q = Some Matching /\ taking w q = false)
    /\ (forall q, f !! q = Some Matching -> q ∉ R -> outbox w' q = outbox w q ++ [m'])
    /\ (forall q, is_Some (f !! q) -> f !! q <> Some Matching \/ q ∈ R -> outbox w' q = outbox w q)
    /\ classes d' (after_part (has_flag more m) (passive_all R f))
    /\ balanced (replicate (Z.to_nat (matching d) - length R) m' ++ hs) h' /\ buffers h' ≡ₚ buffers h.
Proof.
  intros Hd Hf Hw Hs. destruct (send_to_matching_ok m hs d w h f Hd Hf Hw Hs) as (m' & R & d' & w' & h' & E & _ & [(_ & _ & Hc) [_ HR] Hyes Hno _ _ [Hu _] [Hb Hbuf]]).
  exists m', R, d', w', h'. by split_and!.
Qed.

(** ** A socket with three pipes *)

(** The pipe at 3 takes one message only. *)
Definition three_pipes : socket_pipes := plug 1 11 12 0 (plug 2 21 22 0 (plug 3 31 32 1 no_pipes)).

Lemma three_pipes_ok : socket_ok three_pipes.
Proof. repeat (apply plug_ok; [|done..]). apply no_pipes_ok. Qed.

Definition no_memory : memory := mkMemory ∅ [].

Definition short : msg_t := mkMsgT (Vsm ["a"%char]) 0.

Abbreviation sp_op := (dist_op (W := socket_pipes)).

Definition subscription : list sp_op := [Attach 1; Attach 2; MatchPipe 2; SendToMatching short; Unmatch].

Lemma class_of (d : dist_t) f i q : classes d f -> holds (pipes d) i q -> f !! q = Some (class_at d i).
Proof. intros [_ Hf]. apply Hf. Qed.

Lemma no_class (d : dist_t) f q : classes d f -> ~ member (pipes d) q -> f !! q = None.
Proof. intros [Hf _] Hq. apply eq_None_not_Some. by rewrite Hf. Qed.

Lemma short_sendable d : matching d < 100 -> sendable short [] d no_memory.
Proof. intros Hd. split; [done| |cbn; lia]. by apply balanced_nothing. Qed.

Lemma legal_cons (o : sp_op) os s s' : (forall f, classes s.1.1 f -> legal_call o f s) -> run_dist o s = Ok s' -> legal_calls os s' -> legal_calls (o :: os) s.
Proof. intros Ho E Hs. split; [done|]. by rewrite E. Qed.

Ltac legal_attach := intros ? Hf; split; [apply (no_class _ _ _ Hf); unfold member; apply (bool_decide_unpack _); by vm_compute|split; [by eexists|by vm_compute]].

Lemma subscription_legal : legal_calls subscription (new_dist, three_pipes, no_memory).
Proof.
  eapply legal_cons; [legal_attach|vm_compute; reflexivity|].
  eapply legal_cons; [legal_attach|vm_compute; reflexivity|].
  eapply legal_cons; [|vm_compute; reflexivity|].
  { intros f Hf. cbn [legal_call]. rewrite (class_of _ f 1 2 Hf) by done. split; [by eexists|done]. }
  eapply legal_cons; [|vm_compute; reflexivity|].
  { intros f Hf. exists []. by apply short_sendable. }
  eapply legal_cons; [by intros f Hf|vm_compute; reflexivity|done].
Qed.

Lemma dist_refines_classes_witness : exists d' w' h' f',
  run_dists subscription (new_dist, three_pipes, no_memory) = Ok (d', w', h') /\ classes d' f'
  /\ class_run (∅, false) subscription (f', more_parts d').
Proof. apply (dist_refines_classes (W := socket_pipes) subscription three_pipes no_memory); [apply three_pipes_ok|apply subscription_legal]. Defined.

(** The message waits in the second pipe only. *)
Example subscription_delivers : (let! (d, w, _) := run_dists subscription (new_dist, three_pipes, no_memory) in
  Ok (items (pipes d), outbox_of w 1, outbox_of w 2, map snd (sent w))) = Ok ([2; 1], [], [short], []).
Proof. vm_compute. reflexivity. Qed.

Definition two_matching : dist_t := mkDist (mkArray [2; 1] {[1 := 1; 2 := 0]}) 1 2 2 false.

Definition its_classes : gmap Z class := {[2 := Matching; 1 := Active]}.

Lemma two_matching_ok : dist_ok two_matching /\ classes two_matching its_classes /\ world_ok (W := socket_pipes) two_matching three_pipes.
Proof.
  assert (Hm : forall q, member (pipes two_matching) q <-> q = 2 \/ q = 1).
  { intros q. unfold member. cbn. rewrite !elem_of_cons, elem_of_nil. tauto. }
  split; [|split].
  - split; [split|cbn; unfold Array.size; cbn; lia|done].
    + by intros [|[|i]] q [= <-].
    + by vm_compute.
  - split.
    + intros q. rewrite Hm. split; [|by intros [->| ->]; eexists].
      unfold its_classes. intros [c [[-> _]|[_ [-> _]%lookup_singleton_Some]]%lookup_insert_Some]; auto.
    + intros k q [Hk Hq]. destruct (Z.to_nat k) as [|[|i]] eqn:E; [| |done]; injection Hq as <-; [replace k with 0 by lia|replace k with 1 by lia]; done.
  - split; [apply three_pipes_ok|]. intros q [->| ->]%Hm; by eexists.
Qed.

Lemma dist_delivers_witness : exists m' R d' w' h',
  send_to_matching short two_matching three_pipes no_memory = Ok (init, d', w', h') /\ u m' = u short
  /\ (forall q, q ∈ R <-> its_classes !! q = Some Matching /\ taking three_pipes q = false)
  /\ (forall q, its_classes !! q = Some Matching -> q ∉ R -> outbox w' q = outbox three_pipes q ++ [m'])
  /\ (forall q, is_Some (its_classes !! q) -> its_classes !! q <> Some Matching \/ q ∈ R -> outbox w' q = outbox three_pipes q)
  /\ classes d' (after_part (has_flag more short) (passive_all R its_classes))
  /\ balanced (replicate (Z.to_nat (matching two_matching) - length R) m' ++ []) h' /\ buffers h' ≡ₚ buffers no_memory.
Proof. apply (dist_delivers (W := socket_pipes) short []); [apply two_matching_ok..|by apply short_sendable]. Defined.

(** ** A pipe that leaves *)

(** The pipe 3 is full after one message, so that the second one makes it passive;
    then 1 leaves. *)
Definition leaving : list sp_op := [Attach 1; Attach 2; Attach 3; SendToAll short; SendToAll short; Terminated 1].

(** After it the passive pipe has the place of the one that left, and the pipe
    2, which can be written to, is passive.  A pipe that was never full is never
    activated again.  When 2 leaves too, the pipe 3 is among the active ones
    although it is full; as soon as it can be written to again, [activated] swaps
    it with a place behind the end of the array. *)
Theorem leaving_pipe_starves_another :
  (let! (d, w, _) := run_dists leaving (new_dist, three_pipes, no_memory) in
   Ok (items (pipes d), active d, eligible d, out_active <$> ends w !! 2, out_active <$> ends w !! 3))
  = Ok ([3; 2], 1, 1, Some true, Some false)
  /\ run_dists (leaving ++ [Terminated 2; Activated 3]) (new_dist, three_pipes, no_memory) = Aborted "range".
Proof. split; vm_compute; reflexivity. Qed.
