(* ===== verification/Rotation.v ===== *)
(** * Taking turns ([lib/zeromq/fq.cpp], [lb.cpp])

    The fair queue and the load balancer keep their pipes in the same way: an
    array whose first pipes are active, and the index [current] of the pipe whose
    turn it is.  A pipe that has nothing to read, or that is full, is swapped
    behind the active ones, and the last active pipe takes its place.  The code of
    the two files for this is the same.

    Its meaning is a pair of lists: the pipes that still have their turn, the
    current one first, and those that had it. *)

From stdpp Require Import tactics gmap.
From S2P Require Import Prelude Array.

Record rotation := mkRotation { pipes : array_t; active : Z; current : Z }.

Definition new_rotation : rotation := mkRotation new_array 0 0.

(** [pipes [current]]. *)
Definition current_pipe (r : rotation) : outcome Z := at_index (current r) (pipes r).

Definition activated (pipe_ : Z) (r : rotation) : outcome rotation :=
  let! a := swap (index (pipes r) pipe_) (active r) (pipes r) in
  Ok (mkRotation a (active r + 1) (current r)).

Definition terminated (pipe_ : Z) (r : rotation) : outcome rotation :=
  let i := index (pipes r) pipe_ in
  let! r := (if i <? active r then
      let active' := active r - 1 in
      let! a := swap i active' (pipes r) in
      Ok (mkRotation a active' (if current r =? active' then 0 else current r))
    else Ok r) in
  let! a := erase pipe_ (pipes r) in
  Ok (mkRotation a (active r) (current r)).

(** The current pipe leaves the active ones, in the loops. *)
Definition deactivate (r : rotation) : outcome rotation :=
  let active' := active r - 1 in
  let! a := swap (current r) active' (pipes r) in
  Ok (mkRotation a active' (if current r =? active' then 0 else current r)).

(** [current = (current + 1) % active]. *)
Definition advance (r : rotation) : rotation := mkRotation (pipes r) (active r) ((current r + 1) mod active r).

(** ** Lists of an array *)

Lemma insert_middle {A} (l k : list A) x y : <[length l := y]> (l ++ x :: k) = l ++ y :: k.
Proof. rewrite <- (Nat.add_0_r (length l)) at 1. by rewrite insert_app_r. Qed.

Lemma at_middle (a : array_t) l p k : items a = l ++ p :: k -> holds a (Z.of_nat (length l)) p.
Proof. intros E. split; [lia|]. by rewrite E, Nat2Z.id, list_lookup_middle. Qed.

Lemma swap_same a l p k : array_ok a -> items a = l ++ p :: k ->
  exists a', swap (Z.of_nat (length l)) (Z.of_nat (length l)) a = Ok a' /\ array_ok a' /\ items a' = items a.
Proof.
  intros Ha E. pose proof (at_middle a l p k E) as Hp. destruct (swap_ok a _ _ p p Ha Hp Hp) as (a' & Es & Ha' & _).
  exists a'. split; [done|]. split; [done|]. revert Es. unfold swap.
  rewrite (at_index_holds a _ p Hp). cbn [obind]. rewrite (at_index_holds (set_array_index p _ a) _ p Hp). cbn [obind]. intros [= <-].
  cbn. rewrite Nat2Z.id, E. by rewrite !insert_middle.
Qed.

Lemma swap_middle a l1 p l2 q l3 : array_ok a -> items a = l1 ++ p :: l2 ++ q :: l3 ->
  exists a', swap (Z.of_nat (length l1)) (Z.of_nat (length (l1 ++ p :: l2))) a = Ok a' /\ array_ok a' /\ items a' = l1 ++ q :: l2 ++ p :: l3.
Proof.
  intros Ha E. pose proof (at_middle a l1 p _ E) as Hp.
  assert (Hq : holds a (Z.of_nat (length (l1 ++ p :: l2))) q) by (apply (at_middle a _ q l3); by rewrite E, <- app_assoc).
  destruct (swap_ok a _ _ p q Ha Hp Hq) as (a' & Es & Ha' & _). exists a'. split; [done|]. split; [done|]. revert Es. unfold swap.
  rewrite (at_index_holds a _ p Hp). cbn [obind]. rewrite (at_index_holds (set_array_index p _ a) _ q Hq). cbn [obind]. intros [= <-].
  cbn. rewrite !Nat2Z.id, E, insert_middle.
  replace (length (l1 ++ p :: l2)) with (length (l1 ++ q :: l2)) by (by rewrite !length_app).
  rewrite (app_assoc l1 (q :: l2) _ : l1 ++ q :: l2 ++ q :: l3 = (l1 ++ q :: l2) ++ q :: l3). rewrite insert_middle. by rewrite <- app_assoc.
Qed.

(** The places of the other direction. *)
Lemma swap_middle_back a l1 p l2 q l3 : array_ok a -> items a = l1 ++ p :: l2 ++ q :: l3 ->
  exists a', swap (Z.of_nat (length (l1 ++ p :: l2))) (Z.of_nat (length l1)) a = Ok a' /\ array_ok a' /\ items a' = l1 ++ q :: l2 ++ p :: l3.
Proof.
  intros Ha E. pose proof (at_middle a l1 p _ E) as Hp.
  assert (Hq : holds a (Z.of_nat (length (l1 ++ p :: l2))) q) by (apply (at_middle a _ q l3); by rewrite E, <- app_assoc).
  destruct (swap_ok a _ _ q p Ha Hq Hp) as (a' & Es & Ha' & _). exists a'. split; [done|]. split; [done|]. revert Es. unfold swap.
  rewrite (at_index_holds a _ q Hq). cbn [obind]. rewrite (at_index_holds (set_array_index q _ a) _ p Hp). cbn [obind]. intros [= <-].
  cbn. rewrite !Nat2Z.id, E.
  rewrite (app_assoc l1 (p :: l2) _ : l1 ++ p :: l2 ++ q :: l3 = (l1 ++ p :: l2) ++ q :: l3), insert_middle, <- app_assoc.
  cbn [app]. by rewrite insert_middle.
Qed.

Lemma erase_middle a l p k : array_ok a -> items a = l ++ p :: k ->
  exists a' k', erase p a = Ok a' /\ array_ok a' /\ items a' = l ++ k' /\ k' ≡ₚ k.
Proof.
  intros Ha E. pose proof (at_middle a l p k E) as Hp. destruct (erase_positions a _ p Ha Hp) as (a' & Es & Ha' & _).
  revert Es. unfold erase. fold (index a p). rewrite (holds_index a _ p Ha Hp). unfold erase_index, back. rewrite E.
  destruct k as [|b k _] using rev_ind.
  - rewrite last_snoc. cbn [obind]. rewrite (at_index_holds (set_array_index p _ a) _ p Hp). cbn [obind]. intros [= Ea].
    exists a', []. rewrite Ea. split_and!; try done. rewrite <- Ea. cbn. by rewrite Nat2Z.id, E, insert_middle, removelast_last, app_nil_r.
  - replace (l ++ p :: k ++ [b]) with ((l ++ p :: k) ++ [b]) by (by rewrite <- app_assoc). rewrite last_snoc. cbn [obind].
    rewrite (at_index_holds (set_array_index b _ a) _ p Hp). cbn [obind]. intros [= Ea]. exists a', (b :: k). rewrite Ea. split_and!; try done.
    + rewrite <- Ea. cbn. rewrite Nat2Z.id, E, insert_middle.
      replace (l ++ b :: k ++ [b]) with ((l ++ b :: k) ++ [b]) by (by rewrite <- app_assoc). by rewrite removelast_last.
    + by rewrite <- Permutation_cons_append.
Qed.

Lemma push_items a p : array_ok a -> ~ member a p -> size a < INT_MAX -> array_ok (push_back p a) /\ items (push_back p a) = items a ++ [p].
Proof. intros Ha Hp Hs. by destruct (push_back_ok a p Ha Hp Hs) as [H _]. Qed.

Lemma index_middle a l p k : array_ok a -> items a = l ++ p :: k -> index a p = Z.of_nat (length l).
Proof. intros Ha E. apply holds_index; [done|]. by apply (at_middle a l p k). Qed.

(** ** Turns *)

(** [ahead]: the pipes that have their turn; [behind]: those that had it; [idle]:
    the others, in any order. *)
Record turn (r : rotation) (ahead behind idle : list Z) : Prop := {
  turn_array : array_ok (pipes r);
  turn_none : ahead = [] -> behind = [];
  turn_active : active r = Z.of_nat (length behind + length ahead);
  turn_current : current r = Z.of_nat (length behind);
  turn_items : exists P, items (pipes r) = behind ++ ahead ++ P /\ P ≡ₚ idle
}.

Abbreviation turns := (list Z * list Z)%type.

(** The current pipe leaves: the last of the ones ahead has its turn. *)
Definition skip_turn (t : turns) : turns :=
  match t with
  | ([], B) => ([], B)
  | (_ :: A, B) => match last A with None => (B, []) | Some z => (z :: removelast A, B) end
  end.

(** The current pipe had its turn. *)
Definition next_turn (t : turns) : turns :=
  match t with
  | ([], B) => ([], B)
  | ([a], B) => (B ++ [a], [])
  | (a :: A, B) => (A, B ++ [a])
  end.

(** A pipe leaves: the last of the ones ahead takes its place. *)
Definition leave_turn (p : Z) (t : turns) : turns :=
  let (A, B) := t in
  if decide (p ∈ A ++ B) then
    match last A with
    | None => t
    | Some z =>
        let take_place q := if decide (q = p) then z else q in
        match map take_place (removelast A) with
        | [] => (map take_place B, [])
        | A' => (A', map take_place B)
        end
    end
  else t.

Lemma new_rotation_turn : turn new_rotation [] [] [].
Proof. split; [apply new_array_ok|done..|by exists []]. Qed.

Lemma turn_perm r A B P P' : P ≡ₚ P' -> turn r A B P -> turn r A B P'.
Proof. intros HP [Ha Hn Hac Hc (Q & HQ & Hp)]. split; try done. exists Q. split; [done|]. by rewrite <- HP. Qed.

Lemma turn_member r A B P q : turn r A B P -> member (pipes r) q <-> q ∈ A \/ q ∈ B \/ q ∈ P.
Proof. intros [_ _ _ _ (Q & HQ & Hp)]. unfold member. rewrite HQ, <- Hp, !elem_of_app. tauto. Qed.

Lemma turn_nodup r A B P : turn r A B P -> NoDup (A ++ B ++ P).
Proof.
  intros [Ha _ _ _ (Q & HQ & Hp)]. apply items_nodup in Ha. rewrite HQ, app_assoc, (Permutation_app_comm B), <- app_assoc in Ha. by rewrite <- Hp.
Qed.

Lemma turn_current_pipe r q A B P : turn r (q :: A) B P -> current_pipe r = Ok q.
Proof. intros [_ _ _ Hc (Q & HQ & _)]. unfold current_pipe. rewrite Hc. by apply at_index_holds, (at_middle _ _ _ (A ++ Q)). Qed.

Lemma turn_idle r A B P : turn r A B P -> 0 < active r <-> A <> [].
Proof. intros [_ Hn -> _ _]. destruct A; [rewrite (Hn eq_refl)|]; cbn; (split; [|done || lia]); [lia|done]. Qed.

(** What the steps with the list [A ++ [z]] have in common. *)
Lemma snoc_cases (A : list Z) : A = [] \/ exists A' z, A = A' ++ [z].
Proof. destruct A as [|z A' _] using rev_ind; eauto. Qed.

Lemma deactivate_turn r q A B P : turn r (q :: A) B P ->
  exists r', deactivate r = Ok r' /\ turn r' (skip_turn (q :: A, B)).1 (skip_turn (q :: A, B)).2 (q :: P).
Proof.
  intros [Ha Hn Hac Hc (Q & HQ & Hp)]. unfold deactivate. rewrite Hac, Hc. cbn [skip_turn]. destruct (snoc_cases A) as [->|(A' & z & ->)].
  - replace (Z.of_nat (length B + length [q]) - 1) with (Z.of_nat (length B)) by (cbn; lia).
    destruct (swap_same (pipes r) B q Q Ha HQ) as (a & -> & Ha' & Hi). cbn [obind last fst snd]. rewrite Z.eqb_refl. eexists. split; [reflexivity|].
    split; cbn; try done. exists (q :: Q). split; [by rewrite Hi, HQ|by rewrite Hp].
  - assert (HQ' : items (pipes r) = B ++ q :: A' ++ z :: Q) by (rewrite HQ; cbn; by rewrite <- app_assoc).
    replace (Z.of_nat (length B + length (q :: A' ++ [z])) - 1) with (Z.of_nat (length (B ++ q :: A'))) by (rewrite !length_app; cbn; rewrite length_app; cbn; lia).
    destruct (swap_middle (pipes r) B q A' z Q Ha HQ') as (a & -> & Ha' & Hi). cbn [obind]. rewrite last_snoc, removelast_last. cbn [fst snd].
    destruct (Z.eqb_spec (Z.of_nat (length B)) (Z.of_nat (length (B ++ q :: A')))) as [E|_]; [rewrite length_app in E; cbn in E; lia|].
    eexists. split; [reflexivity|]. split; cbn; try done; [rewrite length_app; cbn; lia|]. exists (q :: Q). split; [by rewrite Hi|by rewrite Hp].
Qed.

Lemma advance_turn r q A B P : turn r (q :: A) B P -> turn (advance r) (next_turn (q :: A, B)).1 (next_turn (q :: A, B)).2 P.
Proof.
  intros [Ha Hn Hac Hc (Q & HQ & Hp)]. unfold advance. rewrite Hac, Hc. destruct A as [|a A]; cbn [next_turn fst snd].
  - replace (Z.of_nat (length B + length [q])) with (Z.of_nat (length B) + 1) by (cbn; lia). rewrite Z_mod_same_full.
    split; cbn; try done; [rewrite length_app; cbn; lia|].
    exists Q. split; [by rewrite HQ, <- app_assoc|done].
  - rewrite Z.mod_small by (cbn; lia). split; cbn; try done; [rewrite length_app; cbn; lia..|].
    exists Q. split; [rewrite HQ; by rewrite <- app_assoc|done].
Qed.

(** A pipe joins behind the others that are ahead. *)
Lemma joins r A B P a p Q : turn r A B P -> array_ok a -> items a = B ++ A ++ p :: Q -> turn (mkRotation a (active r + 1) (current r)) (A ++ [p]) B Q.
Proof.
  intros [Ha Hn Hac Hc _] Ha' Hi. split; cbn; try done.
  - intros E. by apply app_eq_nil in E as [_ ?].
  - rewrite Hac, length_app. cbn. lia.
  - exists Q. split; [by rewrite Hi, <- app_assoc|done].
Qed.

Lemma activated_turn r p A B P : turn r A B (p :: P) -> exists r', activated p r = Ok r' /\ turn r' (A ++ [p]) B P.
Proof.
  intros Ht. pose proof Ht as [Ha Hn Hac Hc (Q & HQ & Hp)]. unfold activated.
  assert (Hin : p ∈ Q) by (rewrite Hp; by left). apply list_elem_of_split in Hin as (l & k & ->).
  assert (Eac : active r = Z.of_nat (length (B ++ A))) by (rewrite Hac, length_app; lia).
  assert (HP : l ++ k ≡ₚ P) by (apply (Permutation_cons_inv (a := p)); by rewrite <- Hp, Permutation_middle).
  destruct l as [|x l].
  - assert (HQ' : items (pipes r) = (B ++ A) ++ p :: k) by (by rewrite HQ, <- app_assoc).
    rewrite (index_middle _ (B ++ A) p k Ha HQ'), Eac. destruct (swap_same _ _ _ _ Ha HQ') as (a & -> & Ha' & Hi). cbn [obind].
    eexists. split; [reflexivity|]. rewrite <- Eac. apply (turn_perm _ _ _ k); [done|]. apply (joins r A B (p :: P)); [done|done|]. by rewrite Hi.
  - assert (HQ' : items (pipes r) = (B ++ A) ++ x :: l ++ p :: k) by (by rewrite HQ, <- app_assoc).
    assert (HQ2 : items (pipes r) = ((B ++ A) ++ x :: l) ++ p :: k) by (by rewrite HQ', <- !app_assoc).
    rewrite (index_middle _ _ p k Ha HQ2), Eac. destruct (swap_middle_back _ _ _ _ _ _ Ha HQ') as (a & -> & Ha' & Hi). cbn [obind].
    eexists. split; [reflexivity|]. rewrite <- Eac. apply (turn_perm _ _ _ (l ++ x :: k)); [by rewrite <- HP, <- Permutation_middle|].
    apply (joins r A B (p :: P)); [done|done|]. by rewrite Hi, <- app_assoc.
Qed.

(** [pipes.push_back (pipe_)]. *)
Lemma pushed_turn r p A B P : turn r A B P -> ~ member (pipes r) p -> size (pipes r) < INT_MAX ->
  turn (mkRotation (push_back p (pipes r)) (active r) (current r)) A B (p :: P).
Proof.
  intros [Ha Hn Hac Hc (Q & HQ & Hp)] Hm Hs. destruct (push_items _ _ Ha Hm Hs) as [Ha' Hi]. split; cbn [pipes active current]; try done.
  exists (Q ++ [p]). split; [by rewrite Hi, HQ, <- !app_assoc|]. by rewrite <- Permutation_cons_append, Hp.
Qed.

Section Leaving.
Variables (p z : Z).
Definition take_place (q : Z) : Z := if decide (q = p) then z else q.

Lemma take_place_others l : p ∉ l -> map take_place l = l.
Proof.
  induction l as [|q l IH]; [done|]. intros [Hq Hl]%not_elem_of_cons. cbn. rewrite IH by done. unfold take_place. by rewrite decide_False by congruence.
Qed.

Lemma take_place_here l k : NoDup (l ++ p :: k) -> map take_place (l ++ p :: k) = l ++ z :: k.
Proof.
  intros (_ & Hd & Hk)%NoDup_app. apply NoDup_cons in Hk as [Hk _]. rewrite map_app. cbn.
  rewrite !take_place_others; [|done|intros Hl; apply (Hd p Hl); by left]. unfold take_place. by rewrite decide_True.
Qed.
End Leaving.

Lemma leave_turn_snoc p A z B : p ∈ (A ++ [z]) ++ B ->
  leave_turn p (A ++ [z], B) = match map (take_place p z) A with [] => (map (take_place p z) B, []) | A' => (A', map (take_place p z) B) end.
Proof. intros Hp. unfold leave_turn. rewrite decide_True by done. rewrite last_snoc, removelast_last. done. Qed.

(** Of the state behind the swap, [B'] and [A'] are ahead and behind, or the other
    way round. *)
Lemma left_behind (a : array_t) p A' B' P Q : array_ok a -> items a = B' ++ A' ++ p :: Q -> Q ≡ₚ P ->
  let t := match A' with [] => (B', []) | _ => (A', B') end in
  exists a', erase p a = Ok a'
    /\ turn (mkRotation a' (Z.of_nat (length B' + length A')) (if Z.of_nat (length B') =? Z.of_nat (length B' + length A') then 0 else Z.of_nat (length B'))) t.1 t.2 P.
Proof.
  intros Ha Hi HP. cbn zeta. assert (Hi' : items a = (B' ++ A') ++ p :: Q) by (by rewrite Hi, <- app_assoc).
  destruct (erase_middle a _ p Q Ha Hi') as (a' & k' & -> & Ha' & Hk & Hp). exists a'. split; [done|]. destruct A' as [|x A']; cbn [fst snd].
  - rewrite Nat.add_0_r, Z.eqb_refl. split; cbn; try done. exists k'. rewrite app_nil_r in Hk. split; [done|by rewrite Hp].
  - destruct (Z.eqb_spec (Z.of_nat (length B')) (Z.of_nat (length B' + length (x :: A')))) as [E|_]; [cbn in E; lia|].
    split; cbn [pipes active current]; try done. exists k'. split; [by rewrite Hk, <- app_assoc|by rewrite Hp].
Qed.

(** Only [p] is gone. *)
Lemma leave_turn_perm p A B : NoDup (A ++ B) -> p ∈ A ++ B -> A <> [] -> p :: (leave_turn p (A, B)).1 ++ (leave_turn p (A, B)).2 ≡ₚ A ++ B.
Proof.
  intros Hnd Hp Hne. destruct (snoc_cases A) as [->|(A0 & z & ->)]; [done|]. rewrite (leave_turn_snoc p A0 z B Hp).
  assert (E : forall t : turns, t = match map (take_place p z) A0 with [] => (map (take_place p z) B, []) | A' => (A', map (take_place p z) B) end -> t.1 ++ t.2 = map (take_place p z) (A0 ++ B)).
  { intros t ->. rewrite map_app. destruct (map (take_place p z) A0); cbn; [by rewrite app_nil_r|done]. }
  rewrite (E _ eq_refl). clear E. rewrite <- app_assoc in *. cbn [app] in *. rewrite <- Permutation_middle in Hnd, Hp |- *. apply NoDup_cons in Hnd as [Hz Hnd].
  apply elem_of_cons in Hp as [->|Hp]; [by rewrite (take_place_others z z (A0 ++ B) Hz)|].
  apply list_elem_of_split in Hp as (l & k & El). rewrite El in *. rewrite (take_place_here p z l k Hnd), <- !Permutation_middle. apply Permutation_swap.
Qed.

Lemma terminated_turn r p A B P : turn r A B P -> p ∈ A ++ B ->
  exists r', terminated p r = Ok r' /\ turn r' (leave_turn p (A, B)).1 (leave_turn p (A, B)).2 P.
Proof.
  intros Ht Hp. pose proof (turn_nodup r A B P Ht) as Hnd. pose proof Ht as [Ha Hn Hac Hc (Q & HQ & HP)].
  destruct (snoc_cases A) as [->|(A0 & z & ->)]; [rewrite (Hn eq_refl) in Hp; by apply elem_of_nil in Hp|].
  rewrite (leave_turn_snoc p A0 z B Hp). rewrite app_assoc in Hnd. apply NoDup_app in Hnd as [Hnd _].
  (* the items after the swap *)
  assert (Hswap : exists i a, index (pipes r) p = Z.of_nat i /\ (i < length B + length (A0 ++ [z]))%nat
    /\ swap (Z.of_nat i) (active r - 1) (pipes r) = Ok a /\ array_ok a
    /\ items a = map (take_place p z) B ++ map (take_place p z) A0 ++ p :: Q).
  { assert (Eac : active r - 1 = Z.of_nat (length (B ++ A0))) by (rewrite Hac, !length_app; cbn; lia). rewrite Eac.
    rewrite <- !app_assoc in HQ. cbn [app] in HQ.
    assert (HQz : items (pipes r) = (B ++ A0) ++ z :: Q) by (by rewrite HQ, <- app_assoc).
    apply elem_of_app in Hp as [[Hp|Hp%list_elem_of_singleton]%elem_of_app|Hp].
    - assert (HpB : p ∉ B). { intros HpB. apply NoDup_app in Hnd as (_ & Hd & _). apply (Hd p); [apply elem_of_app; by left|done]. }
      apply list_elem_of_split in Hp as (l & k & ->). rewrite <- !app_assoc in HQ. cbn [app] in HQ.
      assert (HQ1 : items (pipes r) = (B ++ l) ++ p :: k ++ z :: Q) by (by rewrite HQ, <- app_assoc).
      destruct (swap_middle _ _ _ _ _ _ Ha HQ1) as (a & Es & Ha' & Hi). exists (length (B ++ l)), a.
      split; [by apply (index_middle _ _ p (k ++ z :: Q))|]. split; [rewrite !length_app; cbn; rewrite ?length_app; cbn; lia|].
      rewrite app_assoc. split; [done|]. split; [done|].
      rewrite take_place_others, take_place_here; [by rewrite Hi, <- !app_assoc| |done].
      apply NoDup_app in Hnd as (Hnd & _). by apply NoDup_app in Hnd as (Hnd & _).
    - subst z. assert (HpB : p ∉ B /\ p ∉ A0).
      { apply NoDup_app in Hnd as (Hn1 & Hd & _). split; [intros HpB; apply (Hd p); [apply elem_of_app; right; by left|done]|].
        apply NoDup_app in Hn1 as (_ & Hd1 & _). intros HpA. apply (Hd1 p HpA). by left. }
      destruct (swap_same _ _ _ _ Ha HQz) as (a & Es & Ha' & Hi). exists (length (B ++ A0)), a.
      split; [by apply (index_middle _ _ p Q)|]. split; [rewrite !length_app; cbn; lia|]. split; [done|]. split; [done|].
      rewrite !take_place_others by apply HpB. by rewrite Hi, HQz, <- app_assoc.
    - assert (HpA : p ∉ A0). { intros HpA. apply NoDup_app in Hnd as (_ & Hd & _). apply (Hd p); [apply elem_of_app; by left|done]. }
      apply list_elem_of_split in Hp as (l & k & ->).
      assert (HQ1 : items (pipes r) = l ++ p :: (k ++ A0) ++ z :: Q) by (rewrite HQ; by rewrite <- !app_assoc).
      destruct (swap_middle _ _ _ _ _ _ Ha HQ1) as (a & Es & Ha' & Hi). exists (length l), a.
      split; [by apply (index_middle _ _ p ((k ++ A0) ++ z :: Q))|]. split; [rewrite !length_app; cbn; lia|].
      replace (length ((l ++ p :: k) ++ A0)) with (length (l ++ p :: k ++ A0)) by (by rewrite <- app_assoc). split; [done|]. split; [done|].
      rewrite (take_place_others p z A0 HpA), take_place_here; [by rewrite Hi, <- !app_assoc|].
      by apply NoDup_app in Hnd as (_ & _ & Hnd). }
  destruct Hswap as (i & a & Ei & Hlt & Es & Ha' & Hi). unfold terminated. rewrite Ei.
  destruct (Z.ltb_spec (Z.of_nat i) (active r)) as [_|Hge]; [|lia]. rewrite Es. cbn [obind pipes active current].
  destruct (left_behind a p _ _ P Q Ha' Hi HP) as (a' & -> & Ht'). cbn [obind]. eexists. split; [reflexivity|].
  rewrite !length_map in Ht'. replace (active r - 1) with (Z.of_nat (length B + length A0)) by (rewrite Hac, length_app; cbn; lia). rewrite Hc.
  destruct (map (take_place p z) A0); exact Ht'.
Qed.

(** A pipe that is not active leaves. *)
Lemma terminated_idle r p A B P : turn r A B (p :: P) -> exists r', terminated p r = Ok r' /\ turn r' A B P.
Proof.
  intros Ht. pose proof Ht as [Ha Hn Hac Hc (Q & HQ & Hp)]. assert (Hin : p ∈ Q) by (rewrite Hp; by left).
  apply list_elem_of_split in Hin as (l & k & ->). unfold terminated.
  assert (HQ' : items (pipes r) = (B ++ A ++ l) ++ p :: k) by (by rewrite HQ, <- !app_assoc).
  rewrite (index_middle _ _ p k Ha HQ'). destruct (Z.ltb_spec (Z.of_nat (length (B ++ A ++ l))) (active r)) as [Hlt|_]; [rewrite Hac, !length_app in Hlt; lia|].
  cbn [obind]. destruct (erase_middle _ _ p k Ha HQ') as (a' & k' & -> & Ha' & Hk & Hpk). cbn [obind]. eexists. split; [reflexivity|].
  split; cbn; try done. exists (l ++ k'). split; [by rewrite Hk, <- !app_assoc|].
  apply (Permutation_cons_inv (a := p)). rewrite <- Hp, Permutation_middle. by rewrite Hpk.
Qed.

(** ** Counting *)

Definition count (t : turns) : nat := (length t.1 + length t.2)%nat.

Lemma skip_turn_perm q A B : q :: (skip_turn (q :: A, B)).1 ++ (skip_turn (q :: A, B)).2 ≡ₚ q :: A ++ B.
Proof.
  cbn [skip_turn]. destruct (snoc_cases A) as [->|(A' & z & ->)]; [cbn; by rewrite app_nil_r|].
  rewrite last_snoc, removelast_last. cbn. by rewrite <- Permutation_cons_append.
Qed.

Lemma skip_turn_count q A B : (count (skip_turn (q :: A, B)) + 1)%nat = count (q :: A, B).
Proof.
  unfold count. pose proof (Permutation_length (skip_turn_perm q A B)) as H. cbn [length] in H. rewrite !length_app in H. cbn [fst snd length]. lia.
Qed.

Lemma same_members r r' A B P A' B' P' : turn r A B P -> turn r' A' B' P' -> A ++ B ++ P ≡ₚ A' ++ B' ++ P' ->
  forall q, member (pipes r') q <-> member (pipes r) q.
Proof.
  intros Ht Ht' Hp q. rewrite (turn_member _ _ _ _ q Ht), (turn_member _ _ _ _ q Ht').
  assert (Hq : q ∈ A ++ B ++ P <-> q ∈ A' ++ B' ++ P') by (by rewrite Hp). rewrite !elem_of_app in Hq. tauto.
Qed.

Lemma next_turn_perm t : (next_turn t).1 ++ (next_turn t).2 ≡ₚ t.1 ++ t.2.
Proof.
  destruct t as [[|a [|b A]] B]; cbn; [done|by rewrite app_nil_r, <- Permutation_cons_append|].
  rewrite (app_assoc A), <- Permutation_cons_append. apply perm_swap.
Qed.
