(* ===== verification/Fq.v ===== *)
(** * The fair queue ([lib/zeromq/fq.hpp], [fq.cpp])

    [fq_t] reads messages from many pipes, each in its turn.  A pipe without a
    message leaves the active ones until it is activated. *)

From stdpp Require Import tactics gmap.
From S2P Require Import Prelude Msg Array Pipes Rotation.

(** The array with [active] and [current] is the rotation. *)
Record fq_t := mkFq { rot : rotation; more_parts : bool }.

Definition new_fq : fq_t := mkFq new_rotation false.

(** The destructor's assertion. *)
Definition destroy (fq : fq_t) : outcome unit := assertion (empty (pipes (rot fq))) "pipes.empty ()".

Definition attach (pipe_ : Z) (fq : fq_t) : outcome fq_t :=
  let r := rot fq in
  let a := push_back pipe_ (pipes r) in
  let! a := swap (active r) (Array.size a - 1) a in
  Ok (mkFq (mkRotation a (active r + 1) (current r)) (more_parts fq)).

Definition terminated (pipe_ : Z) (fq : fq_t) : outcome fq_t :=
  let! r := Rotation.terminated pipe_ (rot fq) in Ok (mkFq r (more_parts fq)).

Definition activated (pipe_ : Z) (fq : fq_t) : outcome fq_t :=
  let! r := Rotation.activated pipe_ (rot fq) in Ok (mkFq r (more_parts fq)).

Section Receiving.
Context {W : Type} `{PipeOps W}.

(** The loop of [recvpipe]: the message and its pipe, or none. *)
Fixpoint recv_loop (fuel : nat) (fq : fq_t) (w : W) : outcome (option (msg_t * Z) * fq_t * W) :=
  let r := rot fq in
  if negb (0 <? active r) then Ok (None, fq, w)
  else
    match fuel with
    | O => OutOfFuel
    | S fuel' =>
        let! p := current_pipe r in
        let! (o, w) := pipe_read p w in
        match o with
        | Some m =>
            let more' := has_flag more m in
            Ok (Some (m, p), mkFq (if negb more' then advance r else r) more', w)
        | None =>
            let! _ := assertion (negb (more_parts fq)) "!more" in
            let! r := deactivate r in
            recv_loop fuel' (mkFq r (more_parts fq)) w
        end
    end.

(** Every turn of the loops takes a pipe out of the active ones. *)
Definition loop_fuel (r : rotation) : nat := Z.to_nat (active r).

(** 0, the message and the pipe that it came from; or -1 ([EAGAIN]) and an empty
    message. *)
Definition recvpipe (msg_ : msg_t) (fq : fq_t) (w : W) (h : memory) : outcome (Z * msg_t * option Z * fq_t * W * memory) :=
  let! (rc, _, h) := close msg_ h in
  let! _ := assertion (rc =? 0) "rc == 0" in
  let! (o, fq, w) := recv_loop (loop_fuel (rot fq)) fq w in
  match o with
  | Some (m, p) => Ok (0, m, Some p, fq, w, h)
  | None => Ok (-1, init, None, fq, w, h)
  end.

Definition recv (msg_ : msg_t) (fq : fq_t) (w : W) (h : memory) : outcome (Z * msg_t * fq_t * W * memory) :=
  let! (rc, m, _, fq, w, h) := recvpipe msg_ fq w h in Ok (rc, m, fq, w, h).

Fixpoint has_in_loop (fuel : nat) (r : rotation) (w : W) : outcome (bool * rotation * W) :=
  if negb (0 <? active r) then Ok (false, r, w)
  else
    match fuel with
    | O => OutOfFuel
    | S fuel' =>
        let! p := current_pipe r in
        let! (b, w) := pipe_check_read p w in
        if b then Ok (true, r, w) else let! r := deactivate r in has_in_loop fuel' r w
    end.

Definition has_in (fq : fq_t) (w : W) : outcome (bool * fq_t * W) :=
  if more_parts fq then Ok (true, fq, w)
  else let! (b, r, w) := has_in_loop (loop_fuel (rot fq)) (rot fq) w in Ok (b, mkFq r (more_parts fq), w).

End Receiving.
