(* ===== verification/Lb.v ===== *)
(** * The load balancer ([lib/zeromq/lb.hpp], [lb.cpp])

    [lb_t] writes every message to one of its pipes, in turn.  A pipe that is full
    leaves the active ones until it is activated.  The rest of a message whose
    pipe is gone is dropped. *)

From stdpp Require Import tactics gmap.
From S2P Require Import Prelude Msg Array Pipes Rotation.

(** The array with [active] and [current] is the rotation. *)
Record lb_t := mkLb { rot : rotation; more_parts : bool; dropping : bool }.

Definition new_lb : lb_t := mkLb new_rotation false false.

(** The destructor's assertion. *)
Definition destroy (lb : lb_t) : outcome unit := assertion (empty (pipes (rot lb))) "pipes.empty ()".

Definition activated (pipe_ : Z) (lb : lb_t) : outcome lb_t :=
  let! r := Rotation.activated pipe_ (rot lb) in Ok (mkLb r (more_parts lb) (dropping lb)).

Definition attach (pipe_ : Z) (lb : lb_t) : outcome lb_t :=
  let r := rot lb in
  activated pipe_ (mkLb (mkRotation (push_back pipe_ (pipes r)) (active r) (current r)) (more_parts lb) (dropping lb)).

Definition terminated (pipe_ : Z) (lb : lb_t) : outcome lb_t :=
  let dropping' := if (index (pipes (rot lb)) pipe_ =? current (rot lb)) && more_parts lb then true else dropping lb in
  let! r := Rotation.terminated pipe_ (rot lb) in Ok (mkLb r (more_parts lb) dropping').

Section Sending.
Context {W : Type} `{PipeOps W}.

(** The loop of [send], up to a pipe that took the message. *)
Fixpoint send_loop (fuel : nat) (msg_ : msg_t) (lb : lb_t) (w : W) : outcome (lb_t * W) :=
  let r := rot lb in
  if negb (0 <? active r) then Ok (lb, w)
  else
    match fuel with
    | O => OutOfFuel
    | S fuel' =>
        let! p := current_pipe r in
        let! (b, w) := pipe_write p msg_ w in
        if b then Ok (lb, w)
        else
          let! _ := assertion (negb (more_parts lb)) "!more" in
          let active' := active r - 1 in
          let! r :=
            (if current r <? active' then let! a := swap (current r) active' (pipes r) in Ok (mkRotation a active' (current r))
             else Ok (mkRotation (pipes r) active' 0)) in
          send_loop fuel' msg_ (mkLb r (more_parts lb) (dropping lb)) w
    end.

(** Every turn of the loops takes a pipe out of the active ones. *)
Definition loop_fuel (r : rotation) : nat := Z.to_nat (active r).

(** 0 and an empty message, or -1 ([EAGAIN]) and the message. *)
Definition send (msg_ : msg_t) (lb : lb_t) (w : W) (h : memory) : outcome (Z * msg_t * lb_t * W * memory) :=
  if dropping lb then
    let more' := has_flag more msg_ in
    let! (rc, _, h) := close msg_ h in
    let! _ := assertion (rc =? 0) "rc == 0" in
    Ok (0, init, mkLb (rot lb) more' more', w, h)
  else
    let! (lb, w) := send_loop (loop_fuel (rot lb)) msg_ lb w in
    if active (rot lb) =? 0 then Ok (-1, msg_, lb, w, h)
    else
      let more' := has_flag more msg_ in
      if negb more' then
        let! p := current_pipe (rot lb) in
        let! w := pipe_flush p w in
        Ok (0, init, mkLb (advance (rot lb)) more' (dropping lb), w, h)
      else Ok (0, init, mkLb (rot lb) more' (dropping lb), w, h).

Fixpoint has_out_loop (fuel : nat) (r : rotation) (w : W) : outcome (bool * rotation * W) :=
  if negb (0 <? active r) then Ok (false, r, w)
  else
    match fuel with
    | O => OutOfFuel
    | S fuel' =>
        let! p := current_pipe r in
        let! (b, w) := pipe_check_write p w in
        if b then Ok (true, r, w) else let! r := deactivate r in has_out_loop fuel' r w
    end.

Definition has_out (lb : lb_t) (w : W) : outcome (bool * lb_t * W) :=
  if more_parts lb then Ok (true, lb, w)
  else let! (b, r, w) := has_out_loop (loop_fuel (rot lb)) (rot lb) w in Ok (b, mkLb r (more_parts lb) (dropping lb), w).

End Sending.
