(* ===== verification/FqTheorems.v ===== *)
(** * The fair queue takes turns

    [recvpipe] serves the first pipe in the order of the turns that has a message;
    the order is that of [Rotation].  A pipe that waits is served after at most as
    many messages as there are pipes before it. *)

From stdpp Require Import tactics gmap.
From S2P Require Import Prelude Msg MsgTheorems Array Pipes Rotation Fq.

(** ** The order of the turns *)

(** Pipes that are not ready lose their turn, up to one that is. *)
Fixpoint settle (ready : Z -> bool) (fuel : nat) (t : turns) : turns :=
  match t.1 with
  | [] => t
  | q :: _ => if ready q then t else match fuel with O => t | S fuel' => settle ready fuel' (skip_turn t) end
  end.

(** The place of a pipe in the order. *)
Definition at_turn (p : Z) (k : nat) (t : turns) : Prop := (t.1 ++ t.2) !! k = Some p.

(** No pipe loses its place when others lose their turn. *)
Lemma skip_turn_place p k q A B : p <> q -> at_turn p k (q :: A, B) -> exists k', (k' <= k)%nat /\ at_turn p k' (skip_turn (q :: A, B)).
Proof.
  intros Hne. unfold at_turn. cbn [fst snd]. intros Hk.
  destruct k as [|k]; [cbn in Hk; congruence|]. change ((A ++ B) !! k = Some p) in Hk. destruct (snoc_cases A) as [->|(A' & z & ->)].
  - cbn in *. exists k. rewrite app_nil_r. split; [lia|done].
  - cbn [skip_turn]. rewrite last_snoc, removelast_last. cbn [fst snd]. destruct (decide (k = length A')) as [->|Hk'].
    + exists 0%nat. split; [lia|]. rewrite <- app_assoc, lookup_app_r, Nat.sub_diag in Hk by lia. done.
    + rewrite <- app_assoc in Hk. cbn [app] in *. destruct (decide (k < length A')%nat).
      * exists (Datatypes.S k). split; [done|]. change ((A' ++ B) !! k = Some p). by rewrite lookup_app_l in Hk |- * by lia.
      * exists k. split; [lia|]. rewrite lookup_app_r in Hk by lia. destruct (k - length A')%nat as [|j] eqn:Ej; [lia|]. change (B !! j = Some p) in Hk.
        destruct k as [|k]; [lia|]. change ((A' ++ B) !! k = Some p). rewrite lookup_app_r by lia. by replace (k - length A')%nat with j by lia.
Qed.

Lemma next_turn_place p k q A B : p <> q -> at_turn p k (q :: A, B) -> exists k', Datatypes.S k' = k /\ at_turn p k' (next_turn (q :: A, B)).
Proof.
  intros Hne. unfold at_turn. intros Hk.
  destruct k as [|k]; [cbn in Hk; congruence|]. change ((A ++ B) !! k = Some p) in Hk. exists k. split; [done|].
  destruct A as [|a A]; cbn [next_turn fst snd app] in *.
  - rewrite app_nil_r. by apply lookup_app_l_Some.
  - change (a :: A ++ B ++ [q]) with ((a :: A) ++ B ++ [q]). rewrite app_assoc. by apply lookup_app_l_Some.
Qed.

(** The pipe in front after [settle] is ready, and nothing that is ready is lost. *)
Lemma settle_front ready fuel : forall t q, head (settle ready fuel t).1 = Some q -> (count t <= fuel)%nat -> ready q = true.
Proof.
  induction fuel as [|fuel IH]; intros [[|a A] B] q; cbn [settle fst]; try done; destruct (ready a) eqn:Ha; try (intros [= <-]; done).
  - unfold count. cbn. lia.
  - intros Hq Hc. apply (IH _ q Hq). pose proof (skip_turn_count a A B). lia.
Qed.

Lemma settle_place ready p fuel : forall t k, ready p = true -> at_turn p k t -> exists k', (k' <= k)%nat /\ at_turn p k' (settle ready fuel t).
Proof.
  induction fuel as [|fuel IH]; intros [[|a A] B] k Hp Hk; cbn [settle fst]; try (by exists k); destruct (ready a) eqn:Ha; try (by exists k).
  destruct (skip_turn_place p k a A B) as (k1 & Hle & Hk1); [congruence|done|]. destruct (IH _ k1 Hp Hk1) as (k2 & Hle2 & Hk2).
  exists k2. split; [lia|done].
Qed.

Lemma settle_none ready fuel : forall t, (t.1 = [] -> t.2 = []) -> (settle ready fuel t).1 = [] -> (settle ready fuel t).2 = [].
Proof.
  induction fuel as [|fuel IH]; intros [[|a A] B] Ht; cbn [settle fst]; auto; destruct (ready a); auto; try done.
  apply IH. cbn [skip_turn]. destruct (last A); cbn; [done|]. by intros ->.
Qed.

(** ** Receiving *)

Section Receiving.
Context {W : Type} `{PipeLaws W}.

Definition waiting (w : W) (q : Z) : bool := match inbox w q with [] => false | _ => true end.

(** The pipes of the fair queue are pipes of the world. *)
Definition fq_world (r : rotation) (w : W) : Prop := pipes_ok w /\ forall q, member (pipes r) q -> attached w q.

(** In the middle of a message its rest waits. *)
Definition whole (fq : fq_t) (w : W) : Prop :=
  more_parts fq = true -> 0 < active (rot fq) /\ exists q, current_pipe (rot fq) = Ok q /\ waiting w q = true.

(** What a receive does when it finds the turns [t]. *)
Definition received (t : turns) (w : W) (o : option (msg_t * Z)) (fq' : fq_t) (w' : W) (P : list Z) : Prop :=
  match t.1 with
  | [] => o = None /\ more_parts fq' = false /\ turn (rot fq') [] [] P /\ (forall x, attached w x -> inbox w' x = inbox w x)
  | q :: _ => exists m l, inbox w q = m :: l /\ o = Some (m, q) /\ inbox w' q = l /\ (forall x, attached w x -> x <> q -> inbox w' x = inbox w x)
      /\ more_parts fq' = has_flag more m
      /\ let t' := if has_flag more m then t else next_turn t in turn (rot fq') t'.1 t'.2 P
  end.

Lemma settle_ext r1 r2 fuel : forall t, (forall q, q ∈ t.1 ++ t.2 -> r1 q = r2 q) -> settle r1 fuel t = settle r2 fuel t.
Proof.
  induction fuel as [|fuel IH]; intros [[|a A] B] Hr; cbn [settle fst]; try done; rewrite (Hr a) by (by left); [done|].
  rewrite IH; [done|]. intros q Hq. apply Hr. cbn [fst snd app]. rewrite <- (skip_turn_perm a A B). by right.
Qed.

Lemma fq_world_same r r' w : (forall q, member (pipes r') q <-> member (pipes r) q) -> fq_world r w -> fq_world r' w.
Proof. intros Hm [Hw Hatt]. split; [done|]. intros q Hq. by apply Hatt, Hm. Qed.

Lemma recv_loop_none fuel fq w B P : turn (rot fq) [] B P -> whole fq w ->
  recv_loop fuel fq w = Ok (None, fq, w) /\ more_parts fq = false /\ B = [].
Proof.
  intros Ht Hwh. pose proof (turn_idle _ _ _ _ Ht) as Hi. pose proof (turn_none _ _ _ _ Ht eq_refl) as ->.
  assert (Hno : ~ 0 < active (rot fq)) by (by intros Hlt%Hi).
  split; [destruct fuel; cbn [recv_loop]; by destruct (Z.ltb_spec 0 (active (rot fq)))|]. split; [|done].
  destruct (more_parts fq) eqn:E; [|done]. by destruct (Hwh E).
Qed.

Lemma recv_loop_ok fuel : forall fq w A B P, turn (rot fq) A B P -> fq_world (rot fq) w -> whole fq w -> (count (A, B) <= fuel)%nat ->
  exists o fq' w' P', recv_loop fuel fq w = Ok (o, fq', w') /\ received (settle (waiting w) fuel (A, B)) w o fq' w' P'
    /\ A ++ B ++ P ≡ₚ (settle (waiting w) fuel (A, B)).1 ++ (settle (waiting w) fuel (A, B)).2 ++ P'
    /\ pipes_ok w' /\ (forall q, attached w' q <-> attached w q).
Proof.
  induction fuel as [|fuel IH]; intros fq w [|a A] B P Ht Hfw Hwh Hc; try (unfold count in Hc; cbn in Hc; lia).
  1,2: destruct (recv_loop_none 0 fq w B P Ht Hwh) as (_ & Em & ->).
  - exists None, fq, w, P. split; [by apply (recv_loop_none _ fq w [] P)|]. by split; [|split_and!; try done; apply Hfw].
  - exists None, fq, w, P. split; [by apply (recv_loop_none _ fq w [] P)|]. by split; [|split_and!; try done; apply Hfw].
  - destruct Hfw as [Hw Hatt]. pose proof (turn_idle _ _ _ _ Ht) as Hi. pose proof (turn_current_pipe _ _ _ _ _ Ht) as Hcp.
    assert (Ha : attached w a) by (apply Hatt, (turn_member _ _ _ _ a Ht); left; by left).
    cbn [recv_loop]. destruct (Z.ltb_spec 0 (active (rot fq))) as [_|Hn]; [|exfalso; assert (0 < active (rot fq)) by (by apply Hi); lia].
    cbn [negb]. rewrite Hcp. cbn [obind]. destruct (pipe_read_ok w a Hw Ha) as (o & w1 & -> & Hw1 & Hatt1 & -> & Hin). cbn [obind].
    cbn [settle fst]. assert (Ewa : waiting w a = match inbox w a with [] => false | _ => true end) by done.
    destruct (inbox w a) as [|m l] eqn:Ea; rewrite Ewa; cbn [head].
    + assert (Em : more_parts fq = false).
      { destruct (more_parts fq) eqn:Em; [|done]. destruct (Hwh Em) as (_ & q & Eq & Hq). unfold waiting in Hq.
        replace q with a in Hq by congruence. by rewrite Ea in Hq. }
      rewrite Em. cbn [negb assertion obind]. destruct (deactivate_turn _ _ _ _ _ Ht) as (r' & -> & Ht'). cbn [obind].
      pose proof (skip_turn_count a A B) as Hcnt. pose proof (skip_turn_perm a A B) as Hperm.
      assert (Hin1 : forall x, attached w x -> inbox w1 x = inbox w x).
      { intros x Hx. rewrite (Hin x Hx). case_bool_decide; [by subst; rewrite Ea|done]. }
      assert (Hp1 : (a :: A) ++ B ++ P ≡ₚ (skip_turn (a :: A, B)).1 ++ (skip_turn (a :: A, B)).2 ++ a :: P).
      { rewrite !app_assoc, <- Permutation_middle, app_comm_cons, Hperm. done. }
      destruct (skip_turn (a :: A, B)) as [A1 B1]. cbn [fst snd] in *.
      pose proof (same_members _ _ _ _ _ _ _ _ Ht Ht' Hp1) as Hm.
      destruct (IH (mkFq r' (more_parts fq)) w1 A1 B1 (a :: P) Ht') as (o & fq' & w2 & P' & E & Hr & Hp2 & Hw2 & Hatt2).
      { split; [done|]. intros q Hq. by apply Hatt1, Hatt, Hm. }
      { cbn. intros Em'. cbn in Em'. congruence. }
      { lia. }
      assert (Hset : settle (waiting w1) fuel (A1, B1) = settle (waiting w) fuel (A1, B1)).
      { apply settle_ext. intros q Hq. unfold waiting. rewrite Hin1; [done|]. apply Hatt, Hm, (turn_member _ _ _ _ q Ht'). cbn in Hq. apply elem_of_app in Hq. tauto. }
      rewrite Hset in *. rewrite Em in E. exists o, fq', w2, P'. split; [done|]. split; [|split_and!; [by rewrite Hp1|done|intros q; by rewrite Hatt2]].
      clear E. unfold received in *. destruct (settle (waiting w) fuel (A1, B1)) as [[|q A2] B2]; cbn [fst snd] in *.
      * destruct Hr as (-> & Hmore & Htr & Hinb). split_and!; try done. intros x Hx. rewrite Hinb by (by apply Hatt1). by apply Hin1.
      * assert (Hqa : attached w q).
        { apply Hatt, Hm, (turn_member _ _ _ _ q Ht'). assert (Hq : q ∈ A1 ++ B1 ++ a :: P) by (rewrite Hp2; by left). rewrite !elem_of_app in Hq. tauto. }
        destruct Hr as (m & l & Eq & -> & El & Hoth & Hmore & Htr). exists m, l. rewrite <- (Hin1 q Hqa). split_and!; try done.
        intros x Hx Hne. rewrite Hoth by (by apply Hatt1 || done). by apply Hin1.
    + eexists _, _, w1, P. split; [reflexivity|]. cbn [fst snd]. split; [|by split_and!]. unfold received. cbn [fst]. exists m, l.
      rewrite (Hin a Ha), bool_decide_eq_true_2, Ea by done. split_and!; try done.
      * intros x Hx Hne. rewrite (Hin x Hx), bool_decide_eq_false_2 by congruence. done.
      * cbn zeta. destruct (has_flag more m); cbn [negb rot]; [done|by apply advance_turn].
Qed.
End Receiving.

Lemma loop_fuel_count r A B P : turn r A B P -> loop_fuel r = count (A, B).
Proof. intros [_ _ Hac _ _]. unfold loop_fuel, count. rewrite Hac. cbn. lia. Qed.

(** ** The properties *)

(** [recvpipe] serves the pipes in their turn.  Of the active pipes it takes
    the first one with a message, in the order in which a pipe without a message
    is replaced by the last pipe that still has its turn; the result is the first
    message of this pipe, which leaves the pipe, and no other pipe changes.
    Behind the last part of a message the next pipe has its turn, before it the
    same pipe.  Without any message the result is [EAGAIN] with an empty message,
    and no pipe is active any more.  The old message is closed in either case. *)
Theorem fq_serves_in_turn {W} `{PipeLaws W} msg hs fq w h A B P :
  turn (rot fq) A B P -> fq_world (rot fq) w -> whole fq w -> check msg = true -> balanced (msg :: hs) h -> few (msg :: hs) ->
  let t := settle (waiting w) (count (A, B)) (A, B) in
  exists rc m o fq' w' h' P', recvpipe msg fq w h = Ok (rc, m, o, fq', w', h') /\ balanced hs h'
    /\ match t.1 with
       | [] => rc = -1 /\ m = init /\ o = None /\ turn (rot fq') [] [] P' /\ (forall x, attached w x -> inbox w' x = inbox w x)
       | q :: _ => rc = 0 /\ o = Some q /\ inbox w q = m :: inbox w' q /\ (forall x, attached w x -> x <> q -> inbox w' x = inbox w x)
           /\ let t' := if has_flag more m then t else next_turn t in turn (rot fq') t'.1 t'.2 P'
       end.
Proof.
  intros Ht Hw Hwh Hm Hb Hfew. cbn zeta. unfold recvpipe. destruct (close_ok msg hs h Hb Hfew Hm) as (h' & -> & Hb' & _). cbn [obind assertion].
  rewrite Z.eqb_refl. cbn [obind assertion]. rewrite (loop_fuel_count _ _ _ _ Ht).
  destruct (recv_loop_ok (count (A, B)) fq w A B P Ht Hw Hwh) as (o & fq' & w' & P' & -> & Hr & _); [done|]. cbn [obind].
  unfold received in Hr. destruct (settle _ _ _) as [[|q A1] B1]; cbn [fst] in *.
  - destruct Hr as (-> & _ & Ht' & Hin). by exists (-1), init, None, fq', w', h', P'.
  - destruct Hr as (m & l & Eq & -> & El & Hoth & _ & Ht'). exists 0, m, (Some q), fq', w', h', P'. split; [done|]. split; [done|]. by rewrite El.
Qed.

Section Runs.
Context {W : Type} `{PipeLaws W}.

(** Receives, the pipes being changed in between. *)
Fixpoint receives (ws : list W) (fq : fq_t) (h : memory) : outcome (list (msg_t * option Z)) :=
  match ws with
  | [] => Ok []
  | w :: ws' =>
      let! (_, m, o, fq, _, h) := recvpipe init fq w h in
      let! l := receives ws' fq h in
      Ok ((m, o) :: l)
  end.

(** The rest of a message always waits. *)
Fixpoint whole_messages (ws : list W) (fq : fq_t) (h : memory) : Prop :=
  match ws with
  | [] => True
  | w :: ws' => whole fq w /\ match recvpipe init fq w h with Ok (_, _, _, fq, _, h) => whole_messages ws' fq h | _ => True end
  end.

(** The ends of messages among the results. *)
Definition finals (l : list (msg_t * option Z)) : nat := length (filter (fun x => has_flag more x.1 = false) l).

Lemma recvpipe_init fq w h : recvpipe init fq w h =
  let! (o, fq, w) := recv_loop (loop_fuel (rot fq)) fq w in
  match o with Some (m, p) => Ok (0, m, Some p, fq, w, h) | None => Ok (-1, init, None, fq, w, h) end.
Proof. done. Qed.

Lemma receives_fair p ws : forall fq h A B P k, turn (rot fq) A B P -> at_turn p k (A, B) ->
  Forall (fun w => pipes_ok w /\ (forall q, q ∈ A ++ B ++ P -> attached w q) /\ waiting w p = true) ws -> whole_messages ws fq h ->
  exists l, receives ws fq h = Ok l /\ length l = length ws /\ Forall (fun x => is_Some x.2) l
    /\ ((forall x, x ∈ l -> x.2 <> Some p) -> (finals l <= k)%nat).
Proof.
  induction ws as [|w ws IH]; intros fq h A B P k Ht Hk Hws Hwh; [exists []; split_and!; try done; cbn; lia|].
  apply Forall_cons in Hws as [(Hw & Hatt & Hp) Hws]. destruct Hwh as [Hwh Hrest]. cbn [receives]. rewrite recvpipe_init in *.
  rewrite (loop_fuel_count _ _ _ _ Ht) in *.
  destruct (recv_loop_ok (count (A, B)) fq w A B P Ht) as (o & fq' & w' & P' & E & Hr & Hperm & _); [split; [done|]|done|done|].
  { intros q Hq. apply Hatt. apply (turn_member _ _ _ _ q Ht) in Hq. rewrite !elem_of_app. tauto. }
  rewrite E in *. cbn [obind] in *. destruct (settle_place (waiting w) p (count (A, B)) (A, B) k Hp Hk) as (k1 & Hle & Hk1).
  unfold received in Hr. destruct (settle _ _ _) as [[|q A1] B1] eqn:Es; cbn [fst snd] in *.
  { assert (HB : B1 = []) by (pose proof (settle_none (waiting w) (count (A, B)) (A, B) (turn_none _ _ _ _ Ht)) as HB; rewrite Es in HB; by apply HB).
    subst B1. unfold at_turn in Hk1. by destruct k1. }
  destruct Hr as (m & l & Eq & -> & El & Hoth & Hmore & Ht'). cbn zeta in Ht'. set (t' := if has_flag more m then _ else _) in *.
  assert (Hp' : A ++ B ++ P ≡ₚ t'.1 ++ t'.2 ++ P').
  { unfold t'. destruct (has_flag more m); [done|]. rewrite Hperm, !app_assoc. by rewrite (next_turn_perm (q :: A1, B1)). }
  assert (Hplace : exists k2, at_turn p k2 t' /\ (q <> p -> (if has_flag more m then k2 else k2 + 1) <= k)%nat).
  { unfold t'. destruct (has_flag more m); [exists k1; split; [done|lia]|]. destruct (decide (p = q)) as [->|Hne].
    - assert (Hin : q ∈ (next_turn (q :: A1, B1)).1 ++ (next_turn (q :: A1, B1)).2) by (rewrite next_turn_perm; by left).
      apply list_elem_of_lookup in Hin as [k2 Hk2]. exists k2. split; [done|]. by intros [].
    - destruct (next_turn_place p k1 q A1 B1 Hne Hk1) as (k2 & <- & Hk2). exists k2. split; [done|lia]. }
  destruct Hplace as (k2 & Hk2 & Hle2). destruct t' as [A2 B2]. cbn [fst snd obind] in *.
  destruct (IH fq' h A2 B2 P' k2 Ht' Hk2) as (ls & -> & Hlen & Hsome & Hfair); [|done|].
  { eapply Forall_impl; [exact Hws|]. cbn. intros x (Hx & Hax & Hpx). split_and!; try done. intros y Hy. apply Hax. by rewrite Hp'. }
  cbn [obind]. exists ((m, Some q) :: ls). split; [done|]. split; [by cbn; rewrite Hlen|]. split; [constructor; [by eexists|done]|].
  intros Hno. assert (Hqp : q <> p) by (intros ->; by apply (Hno (m, Some p)); [left|]). specialize (Hle2 Hqp).
  assert (Hls : (finals ls <= k2)%nat) by (apply Hfair; intros x Hx; apply Hno; by right).
  unfold finals in *. rewrite filter_cons. cbn [fst]. destruct (has_flag more m); cbn; [rewrite decide_False by done|rewrite decide_True by done; cbn]; lia.
Qed.
End Runs.

(** C11: fairness.  A pipe that is active and has a message is served before [k + 1]
    whole messages of other pipes, where [k] is the number of pipes whose turn is
    before its own, whatever is written to the pipes in between and however often
    the others have messages: every receive returns a message, and as long as none
    came from this pipe, at most [k] messages were completed. *)
Theorem fq_is_fair {W} `{PipeLaws W} p k ws fq h A B P :
  turn (rot fq) A B P -> at_turn p k (A, B) ->
  Forall (fun w => pipes_ok w /\ (forall q, q ∈ A ++ B ++ P -> attached w q) /\ waiting w p = true) ws -> whole_messages ws fq h ->
  exists l, receives ws fq h = Ok l /\ length l = length ws /\ Forall (fun x => is_Some x.2) l
    /\ ((forall x, x ∈ l -> x.2 <> Some p) -> (finals l <= k)%nat).
Proof. apply receives_fair. Qed.

(** ** Sessions *)

Section Sessions.
Context {W : Type} `{PipeLaws W}.

Inductive fq_op := Attach (p : Z) | Activated (p : Z) | Terminated (p : Z) | Receive (w : W).

Definition run_fq (o : fq_op) (s : fq_t * memory) : outcome (fq_t * memory) :=
  let (fq, h) := s in
  match o with
  | Attach p => let! fq := attach p fq in Ok (fq, h)
  | Activated p => let! fq := activated p fq in Ok (fq, h)
  | Terminated p => let! fq := terminated p fq in Ok (fq, h)
  | Receive w => let! (_, _, _, fq, _, h) := recvpipe init fq w h in Ok (fq, h)
  end.

(** The specification: the turns and the idle pipes. *)
Inductive turn_step : turns * list Z -> fq_op -> turns * list Z -> Prop :=
| turn_attach A B P p : p ∉ A ++ B ++ P -> turn_step ((A, B), P) (Attach p) ((A ++ [p], B), P)
| turn_activated A B P P' p : P ≡ₚ p :: P' -> turn_step ((A, B), P) (Activated p) ((A ++ [p], B), P')
| turn_leaves A B P p : p ∈ A ++ B -> turn_step ((A, B), P) (Terminated p) (leave_turn p (A, B), P)
| turn_leaves_idle A B P P' p : P ≡ₚ p :: P' -> turn_step ((A, B), P) (Terminated p) ((A, B), P')
| turn_receive A B P P' w : let t := settle (waiting w) (count (A, B)) (A, B) in
    A ++ B ++ P ≡ₚ t.1 ++ t.2 ++ P' ->
    turn_step ((A, B), P) (Receive w)
      (match t.1 with q :: _ => match inbox w q with m :: _ => if has_flag more m then t else next_turn t | [] => t end | [] => t end, P').

Inductive turn_run : turns * list Z -> list fq_op -> turns * list Z -> Prop :=
| turn_nil s : turn_run s [] s
| turn_cons s o s' os s'' : turn_step s o s' -> turn_run s' os s'' -> turn_run s (o :: os) s''.

(** How the owner of the fair queue calls it. *)
Definition fq_legal (o : fq_op) (fq : fq_t) : Prop :=
  let a := pipes (rot fq) in
  match o with
  | Attach p => ~ member a p /\ Array.size a < INT_MAX
  | Activated p => member a p /\ active (rot fq) <= index a p
  | Terminated p => member a p
  | Receive w => fq_world (rot fq) w /\ whole fq w
  end.

Lemma attach_turn p fq A B P : turn (rot fq) A B P -> ~ member (pipes (rot fq)) p -> Array.size (pipes (rot fq)) < INT_MAX ->
  exists fq', attach p fq = Ok fq' /\ more_parts fq' = more_parts fq /\ turn (rot fq') (A ++ [p]) B P.
Proof.
  intros Ht Hm Hs. pose proof Ht as [Ha Hn Hac Hc (Q & HQ & HP)]. destruct (push_items _ _ Ha Hm Hs) as [Ha' Hi]. unfold attach.
  assert (Eac : active (rot fq) = Z.of_nat (length (B ++ A))) by (rewrite Hac, length_app; lia).
  assert (Esz : Array.size (push_back p (pipes (rot fq))) - 1 = Z.of_nat (length (items (pipes (rot fq))))) by (unfold Array.size; rewrite Hi, length_app; cbn; lia).
  rewrite Esz, Eac. destruct Q as [|x Q].
  - assert (Hi' : items (push_back p (pipes (rot fq))) = (B ++ A) ++ p :: []) by (rewrite Hi, HQ; by rewrite app_nil_r).
    rewrite HQ, app_nil_r. destruct (swap_same _ _ _ _ Ha' Hi') as (a & -> & Ha2 & Hi2). cbn [obind]. eexists. split; [reflexivity|]. split; [done|].
    cbn [rot]. rewrite <- Eac. apply (turn_perm _ _ _ []); [done|]. apply (joins _ A B P); [done|done|]. by rewrite Hi2, Hi', <- app_assoc.
  - assert (Hi' : items (push_back p (pipes (rot fq))) = (B ++ A) ++ x :: Q ++ p :: []) by (rewrite Hi, HQ; by rewrite <- !app_assoc).
    replace (length (items (pipes (rot fq)))) with (length ((B ++ A) ++ x :: Q)) by (by rewrite HQ, app_assoc).
    destruct (swap_middle _ _ _ _ _ _ Ha' Hi') as (a & -> & Ha2 & Hi2). cbn [obind]. eexists. split; [reflexivity|]. split; [done|].
    cbn [rot]. rewrite <- Eac. apply (turn_perm _ _ _ (Q ++ [x])); [by rewrite <- Permutation_cons_append|].
    apply (joins _ A B P); [done|done|]. by rewrite Hi2, <- app_assoc.
Qed.

(** A member beyond the active pipes is idle. *)
Lemma idle_member r A B P p : turn r A B P -> member (pipes r) p -> active r <= index (pipes r) p -> exists P', P ≡ₚ p :: P'.
Proof.
  intros Ht Hm Hi. pose proof Ht as [Ha Hn Hac Hc (Q & HQ & HP)]. apply (member_holds _ _ Ha) in Hm as [_ Hm].
  rewrite HQ, app_assoc, lookup_app_r in Hm by (rewrite length_app; lia). apply elem_of_Permutation. rewrite <- HP. by eapply list_elem_of_lookup_2.
Qed.

Lemma run_fq_ok o fq h A B P : turn (rot fq) A B P -> fq_legal o fq ->
  exists fq' h' t' P', run_fq o (fq, h) = Ok (fq', h') /\ turn (rot fq') t'.1 t'.2 P' /\ turn_step ((A, B), P) o (t', P').
Proof.
  intros Ht Hl. destruct o as [p|p|p|w]; cbn [run_fq fq_legal] in *.
  - destruct Hl as [Hm Hs]. destruct (attach_turn p fq A B P Ht Hm Hs) as (fq' & -> & _ & Ht'). exists fq', h, (A ++ [p], B), P. split_and!; try done.
    constructor. intros Hp. apply Hm, (turn_member _ _ _ _ p Ht). rewrite !elem_of_app in Hp. done.
  - destruct Hl as [Hm Hi]. destruct (idle_member _ _ _ _ p Ht Hm Hi) as [P' HP]. unfold activated.
    destruct (activated_turn (rot fq) p A B P' (turn_perm _ _ _ _ _ HP Ht)) as (r' & -> & Ht'). cbn [obind].
    exists (mkFq r' (more_parts fq)), h, (A ++ [p], B), P'. split_and!; try done. by constructor.
  - unfold terminated. apply (turn_member _ _ _ _ p Ht) in Hl. assert (Hcase : p ∈ A ++ B \/ p ∈ P) by (rewrite elem_of_app; tauto).
    destruct Hcase as [Hp|[P' HP]%elem_of_Permutation].
    + destruct (terminated_turn _ p _ _ _ Ht Hp) as (r' & -> & Ht'). cbn [obind]. exists (mkFq r' (more_parts fq)), h, (leave_turn p (A, B)), P.
      split_and!; try done. by constructor.
    + destruct (terminated_idle _ p A B P' (turn_perm _ _ _ _ _ HP Ht)) as (r' & -> & Ht'). cbn [obind].
      exists (mkFq r' (more_parts fq)), h, (A, B), P'. split_and!; try done. by constructor.
  - destruct Hl as [Hw Hwh]. rewrite recvpipe_init, (loop_fuel_count _ _ _ _ Ht).
    destruct (recv_loop_ok (count (A, B)) fq w A B P Ht Hw Hwh) as (o & fq' & w' & P' & -> & Hr & Hperm & _); [done|]. cbn [obind].
    exists fq', h. eexists _, P'. split; [|split; [|by apply turn_receive]].
    + unfold received in Hr. destruct (settle _ _ _) as [[|q A1] B1]; [by destruct Hr as (-> & _)|by destruct Hr as (m & l & _ & -> & _)].
    + unfold received in Hr. cbn zeta. pose proof (settle_none (waiting w) (count (A, B)) (A, B) (turn_none _ _ _ _ Ht)) as HB.
      destruct (settle _ _ _) as [[|q A1] B1]; cbn [fst snd] in *; [rewrite (HB eq_refl); by destruct Hr as (_ & _ & ? & _)|].
      destruct Hr as (m & l & -> & _ & _ & _ & _ & Ht'). done.
Qed.

Fixpoint run_fqs (os : list fq_op) (s : fq_t * memory) : outcome (fq_t * memory) :=
  match os with [] => Ok s | o :: os' => let! s := run_fq o s in run_fqs os' s end.

Fixpoint fq_legal_calls (os : list fq_op) (s : fq_t * memory) : Prop :=
  match os with
  | [] => True
  | o :: os' => fq_legal o s.1 /\ match run_fq o s with Ok s => fq_legal_calls os' s | _ => True end
  end.

Lemma run_fqs_ok os : forall fq h A B P, turn (rot fq) A B P -> fq_legal_calls os (fq, h) ->
  exists fq' h' t' P', run_fqs os (fq, h) = Ok (fq', h') /\ turn (rot fq') t'.1 t'.2 P' /\ turn_run ((A, B), P) os (t', P').
Proof.
  induction os as [|o os IH]; intros fq h A B P Ht Hl; [exists fq, h, (A, B), P; split_and!; try done; constructor|].
  destruct Hl as [Ho Hl]. destruct (run_fq_ok o fq h A B P Ht Ho) as (fq1 & h1 & [A1 B1] & P1 & E & Ht1 & Hs). rewrite E in Hl. cbn [run_fqs]. rewrite E. cbn [obind].
  destruct (IH fq1 h1 A1 B1 P1 Ht1 Hl) as (fq2 & h2 & t2 & P2 & -> & Ht2 & Hr). exists fq2, h2, t2, P2. split_and!; try done. by econstructor.
Qed.
End Sessions.

(** C12: the fair queue implements its specification, the turns of its pipes.  Every
    sequence of calls that its owner may make runs without a failed assertion and
    without an access out of the range of the array, the pipes being changed in
    any way between the calls; and call by call the turns change as specified: a
    pipe that is attached or activated has its turn after all the others that
    still have theirs, a pipe that leaves is replaced by the last of them, and a
    receive moves the turn as [fq_serves_in_turn] says. *)
Theorem fq_refines_turns {W} `{PipeLaws W} (os : list (fq_op (W := W))) h :
  fq_legal_calls os (new_fq, h) ->
  exists fq' h' t' P', run_fqs os (new_fq, h) = Ok (fq', h') /\ turn (rot fq') t'.1 t'.2 P' /\ turn_run (([], []), []) os (t', P').
Proof. intros Hl. apply run_fqs_ok; [apply new_rotation_turn|done]. Qed.
