(* ===== verification/LbTheorems.v ===== *)
(** * The load balancer gives a message to one pipe

    [send] writes to the first pipe in the order of the turns that takes the
    message, and the parts of one message go to the same pipe. *)

From stdpp Require Import tactics gmap.
From S2P Require Import Prelude Msg MsgTheorems Array Pipes Rotation Lb.

(** The pipes that lost their turn before a message was taken. *)
Definition skipped (k : nat) (t : turns) : turns := Nat.iter k skip_turn t.

(** The loop of [send] swaps only if there is something to swap. *)
Lemma refused_turn r q A B P : turn r (q :: A) B P ->
  exists r', (if current r <? active r - 1 then let! a := swap (current r) (active r - 1) (pipes r) in Ok (mkRotation a (active r - 1) (current r))
              else Ok (mkRotation (pipes r) (active r - 1) 0)) = Ok r'
    /\ turn r' (skip_turn (q :: A, B)).1 (skip_turn (q :: A, B)).2 (q :: P).
Proof.
  intros Ht. destruct (deactivate_turn r q A B P Ht) as (r' & E & Ht'). pose proof Ht as [Ha Hn Hac Hc (Q & HQ & HP)].
  destruct (Z.ltb_spec (current r) (active r - 1)) as [Hlt|Hge].
  - exists r'. split; [|done]. revert E. unfold deactivate. destruct (swap _ _ _) as [a|?|]; try discriminate. cbn [obind].
    destruct (Z.eqb_spec (current r) (active r - 1)); [lia|]. done.
  - assert (HA : A = []) by (destruct A; [done|cbn in Hac; lia]). subst A. cbn [skip_turn last fst snd]. eexists. split; [reflexivity|].
    split; cbn; try done; [rewrite Hac; cbn; lia|]. exists (q :: Q). split; [done|by rewrite HP].
Qed.

Section Sending.
Context {W : Type} `{PipeLaws W}.

(** The pipes of the load balancer are pipes of the world. *)
Definition lb_world (r : rotation) (w : W) : Prop := pipes_ok w /\ forall q, member (pipes r) q -> attached w q.

(** In the middle of a message the current pipe takes the next part. *)
Definition steady (lb : lb_t) (m : msg_t) (w : W) : Prop :=
  more_parts lb = true -> exists q w', current_pipe (rot lb) = Ok q /\ pipe_write q m w = Ok (true, w').

(** What [m] did to the pipes when the turns are [t] after it. *)
Definition taken (t : turns) (m : msg_t) (w w' : W) : Prop :=
  match t.1 with
  | [] => forall x, attached w x -> outbox w' x = outbox w x
  | q :: _ => forall x, attached w x -> outbox w' x = if bool_decide (q = x) then outbox w x ++ [m] else outbox w x
  end.

Lemma send_loop_ok m fuel : forall lb w A B P, turn (rot lb) A B P -> lb_world (rot lb) w -> steady lb m w -> (length A + length B <= fuel)%nat ->
  exists k lb' w' P', send_loop fuel m lb w = Ok (lb', w') /\ turn (rot lb') (skipped k (A, B)).1 (skipped k (A, B)).2 P'
    /\ A ++ B ++ P ≡ₚ (skipped k (A, B)).1 ++ (skipped k (A, B)).2 ++ P' /\ taken (skipped k (A, B)) m w w'
    /\ more_parts lb' = more_parts lb /\ dropping lb' = dropping lb /\ (more_parts lb = true -> k = 0%nat)
    /\ pipes_ok w' /\ (forall q, attached w' q <-> attached w q)
    /\ ((skipped k (A, B)).1 <> [] -> exists q w0, current_pipe (rot lb') = Ok q /\ pipes_ok w0 /\ attached w0 q /\ pipe_write q m w0 = Ok (true, w')).
Proof.
  induction fuel as [|fuel IH]; intros lb w [|q A] B P Ht [Hw Hatt] Hst Hf; try (cbn in Hf; lia).
  1,2: pose proof (turn_none _ _ _ _ Ht eq_refl) as ->; pose proof (turn_idle _ _ _ _ Ht) as Hi;
    assert (Hno : ~ 0 < active (rot lb)) by (by intros Hlt%Hi); exists 0%nat, lb, w, P;
    (split; [cbn [send_loop]; by destruct (Z.ltb_spec 0 (active (rot lb)))|]); by split_and!.
  pose proof (turn_idle _ _ _ _ Ht) as Hi. pose proof (turn_current_pipe _ _ _ _ _ Ht) as Hcp.
  assert (Hq : attached w q) by (apply Hatt, (turn_member _ _ _ _ q Ht); left; by left).
  cbn [send_loop]. destruct (Z.ltb_spec 0 (active (rot lb))) as [_|Hn]; [|exfalso; assert (0 < active (rot lb)) by (by apply Hi); lia].
  cbn [negb]. rewrite Hcp. cbn [obind]. destruct (pipe_write_ok w q m Hw Hq) as (b & w1 & E & Hw1 & Hatt1 & Hin & Hout & _). rewrite E. cbn [obind].
  destruct b; cbn [andb] in Hout.
  - exists 0%nat, lb, w1, P. split; [done|]. split_and!; try done. intros _. by exists q, w.
  - assert (Em : more_parts lb = false).
    { destruct (more_parts lb) eqn:Em; [|done]. destruct (Hst Em) as (q' & w' & Eq & E'). replace q' with q in * by congruence. congruence. }
    rewrite Em. cbn [negb assertion obind]. destruct (refused_turn _ _ _ _ _ Ht) as (r' & -> & Ht'). cbn [obind].
    assert (Hp1 : (q :: A) ++ B ++ P ≡ₚ (skip_turn (q :: A, B)).1 ++ (skip_turn (q :: A, B)).2 ++ q :: P).
    { rewrite !app_assoc, <- Permutation_middle, app_comm_cons, <- (skip_turn_perm q A B). done. }
    pose proof (skip_turn_count q A B) as Hcnt. unfold count in Hcnt. cbn [fst snd] in Hcnt.
    assert (Hsk : forall k, skipped (Datatypes.S k) (q :: A, B) = skipped k (skip_turn (q :: A, B))) by (intros k; apply Nat.iter_succ_r).
    destruct (skip_turn (q :: A, B)) as [A1 B1]. cbn [fst snd] in *.
    pose proof (same_members _ _ _ _ _ _ _ _ Ht Ht' Hp1) as Hm.
    destruct (IH (mkLb r' (more_parts lb) (dropping lb)) w1 A1 B1 (q :: P) Ht') as (k & lb' & w' & P' & E1 & Htk & Hpk & Htak & Hmo & Hdr & _ & Hw' & Hatt' & Hlast).
    { split; [done|]. intros x Hx. by apply Hatt1, Hatt, Hm. }
    { intros Em'. cbn in Em'. congruence. }
    { cbn [length] in Hcnt, Hf. lia. }
    rewrite Em in E1. exists (Datatypes.S k), lb', w', P'. rewrite Hsk. split_and!; try done.
    + by rewrite Hp1.
    + unfold taken in *. destruct (skipped k (A1, B1)) as [[|x A2] B2]; cbn [fst] in *.
      * intros y Hy. rewrite Htak by (by apply Hatt1). by rewrite Hout.
      * intros y Hy. rewrite Htak by (by apply Hatt1). by rewrite Hout.
    + exact (eq_trans Hmo Em).
    + intros x. by rewrite Hatt'.
Qed.

(** One call of [send] for a message that is not dropped. *)
Lemma send_ok m lb w h A B P : turn (rot lb) A B P -> lb_world (rot lb) w -> steady lb m w -> dropping lb = false ->
  exists k rc m' lb' w' P', send m lb w h = Ok (rc, m', lb', w', h) /\ taken (skipped k (A, B)) m w w' /\ (more_parts lb = true -> k = 0%nat)
    /\ pipes_ok w' /\ (forall q, attached w' q <-> attached w q)
    /\ match skipped k (A, B) with
       | ([], _) => rc = -1 /\ m' = m /\ more_parts lb' = more_parts lb /\ turn (rot lb') [] [] P' /\ A ++ B ++ P ≡ₚ P'
       | (q :: A', B') => rc = 0 /\ m' = init /\ more_parts lb' = has_flag more m /\ dropping lb' = false
           /\ (let t' := if has_flag more m then (q :: A', B') else next_turn (q :: A', B') in
               turn (rot lb') t'.1 t'.2 P' /\ A ++ B ++ P ≡ₚ t'.1 ++ t'.2 ++ P')
           /\ (has_flag more m = true -> current_pipe (rot lb') = Ok q /\ forall m2, exists w2, pipe_write q m2 w' = Ok (true, w2))
       end.
Proof.
  intros Ht Hw Hst Hd. unfold send. rewrite Hd. pose proof Ht as [_ _ Hac _ _].
  destruct (send_loop_ok m (loop_fuel (rot lb)) lb w A B P Ht Hw Hst) as (k & lb' & w' & P' & -> & Ht' & Hp & Htak & Hmo & Hdr & Hk & Hw' & Hatt' & Hlast);
    [unfold loop_fuel; lia|]. cbn [obind]. exists k. pose proof (turn_idle _ _ _ _ Ht') as Hi.
  destruct (skipped k (A, B)) as [[|q A'] B'] eqn:Es; cbn [fst snd] in *.
  - assert (Hz : active (rot lb') = 0).
    { pose proof Ht' as [_ Hn Hac' _ _]. rewrite (Hn eq_refl) in Hac'. done. }
    rewrite Hz. cbn. pose proof (turn_none _ _ _ _ Ht' eq_refl) as ->. exists (-1), m, lb', w', P'. by split_and!.
  - assert (Hpos : 0 < active (rot lb')) by (by apply Hi). destruct (Z.eqb_spec (active (rot lb')) 0) as [E|_]; [lia|].
    destruct (Hlast ltac:(done)) as (q' & w0 & Eq & Hw0 & Hatt0 & Ew). pose proof (turn_current_pipe _ _ _ _ _ Ht') as Hcp.
    replace q' with q in * by congruence. destruct (has_flag more m) eqn:Em; cbn [negb].
    + eexists 0, init, _, w', P'. split; [reflexivity|]. cbn [rot more_parts dropping fst snd]. split_and!; try done; [congruence|].
      intros _. split; [done|]. intros m2. by apply (pipe_write_again w0 q m w' m2).
    + rewrite Hcp. cbn [obind]. assert (Hq : attached w' q).
      { apply Hatt', Hw, (turn_member _ _ _ _ q Ht). assert (Hin : q ∈ A ++ B ++ P) by (rewrite Hp; by left). rewrite !elem_of_app in Hin. tauto. }
      destruct (pipe_flush_ok w' q Hw' Hq) as (w2 & -> & Hw2 & Hatt2 & Hio & _). cbn [obind]. eexists 0, init, _, w2, P'. split; [reflexivity|].
      cbn [rot more_parts dropping]. split; [|split_and!; try done].
      * intros x Hx. rewrite (proj2 (Hio x ltac:(by apply Hatt'))). by apply Htak.
      * intros x. by rewrite Hatt2.
      * congruence.
      * by apply advance_turn.
      * rewrite Hp, !app_assoc. by rewrite (next_turn_perm (q :: A', B')).
Qed.
End Sending.

(** ** Messages of several parts *)

Section Parts.
Context {W : Type} `{PipeLaws W}.

(** The parts of a message, as long as they are taken. *)
Fixpoint send_parts (ms : list msg_t) (lb : lb_t) (w : W) (h : memory) : outcome (Z * lb_t * W * memory) :=
  match ms with
  | [] => Ok (0, lb, w, h)
  | m :: ms' =>
      let! (rc, _, lb, w, h) := send m lb w h in
      if rc <? 0 then Ok (rc, lb, w, h) else send_parts ms' lb w h
  end.

(** [ms] arrived at [q] and nothing else anywhere. *)
Definition arrived_at (q : Z) (ms : list msg_t) (w w' : W) : Prop :=
  forall x, attached w x -> outbox w' x = if bool_decide (q = x) then outbox w x ++ ms else outbox w x.

Lemma world_members lb lb' w w' A B P A' B' P' : turn (rot lb) A B P -> turn (rot lb') A' B' P' -> A ++ B ++ P ≡ₚ A' ++ B' ++ P' ->
  lb_world (rot lb) w -> pipes_ok w' -> (forall q, attached w' q <-> attached w q) -> lb_world (rot lb') w'.
Proof.
  intros Ht Ht' Hp [_ Hatt] Hw' Hatt'. split; [done|]. intros x Hx. by apply Hatt', Hatt, (same_members _ _ _ _ _ _ _ _ Ht Ht' Hp).
Qed.

(** The rest of a message follows its first part. *)
Lemma send_rest last h parts : forall lb w q A B P, turn (rot lb) (q :: A) B P -> lb_world (rot lb) w -> more_parts lb = true -> dropping lb = false ->
  (forall m2, exists w2, pipe_write q m2 w = Ok (true, w2)) -> Forall (fun m => has_flag more m = true) parts -> has_flag more last = false ->
  exists lb' w', send_parts (parts ++ [last]) lb w h = Ok (0, lb', w', h) /\ more_parts lb' = false /\ arrived_at q (parts ++ [last]) w w'.
Proof.
  induction parts as [|m parts IH]; intros lb w q A B P Ht Hw Hmo Hdr Hgo Hall Hlast; cbn [app send_parts].
  - assert (Hst : steady lb last w) by (intros _; destruct (Hgo last) as [w2 E]; exists q, w2; by rewrite (turn_current_pipe _ _ _ _ _ Ht)).
    destruct (send_ok last lb w h _ _ _ Ht Hw Hst Hdr) as (k & rc & m' & lb' & w' & P' & -> & Htak & Hk & _ & _ & Hres). rewrite (Hk Hmo) in *.
    cbn [skipped Nat.iter obind] in *. destruct Hres as (-> & _ & Hm2 & _). cbn. exists lb', w'. split; [done|]. by rewrite Hm2.
  - apply Forall_cons in Hall as [Hm Hall].
    assert (Hst : steady lb m w) by (intros _; destruct (Hgo m) as [w2 E]; exists q, w2; by rewrite (turn_current_pipe _ _ _ _ _ Ht)).
    destruct (send_ok m lb w h _ _ _ Ht Hw Hst Hdr) as (k & rc & m' & lb' & w' & P' & -> & Htak & Hk & Hw' & Hatt' & Hres). rewrite (Hk Hmo) in *.
    cbn [skipped Nat.iter obind] in *. rewrite Hm in Hres. destruct Hres as (-> & _ & Hm2 & Hd2 & [Ht' Hp] & Hgo'). destruct (Hgo' eq_refl) as [_ Hgo2].
    change (0 <? 0) with false. cbn iota. destruct (IH lb' w' q A B P' Ht') as (lb2 & w2 & -> & Hmo2 & Harr); try done.
    { exact (world_members _ _ _ _ _ _ _ _ _ _ Ht Ht' Hp Hw Hw' Hatt'). }
    exists lb2, w2. split; [done|]. split; [done|]. intros x Hx. rewrite (Harr x) by (by apply Hatt'). unfold taken in Htak. cbn [fst] in Htak.
    rewrite (Htak x Hx). case_bool_decide; [by rewrite <- app_assoc|done].
Qed.
End Parts.

(** ** The properties *)

(** [send] writes a message to at most one pipe.  The pipes are tried in the
    order of the turns; the ones that refuse lose their turn and get nothing.  When
    one takes the message, exactly this pipe has it, behind what was written
    before, the result is 0 with an empty message, and behind the last part of a
    message the next pipe has its turn.  When none does, the result is -1
    ([EAGAIN]), the message is still the caller's, and no pipe is active. *)
Theorem lb_sends_once {W} `{PipeLaws W} m lb w h A B P :
  turn (rot lb) A B P -> lb_world (rot lb) w -> steady lb m w -> dropping lb = false ->
  exists k rc m' lb' w' P', send m lb w h = Ok (rc, m', lb', w', h) /\ taken (skipped k (A, B)) m w w' /\ (more_parts lb = true -> k = 0%nat)
    /\ match skipped k (A, B) with
       | ([], _) => rc = -1 /\ m' = m /\ turn (rot lb') [] [] P'
       | (q :: A', B') => rc = 0 /\ m' = init /\ more_parts lb' = has_flag more m
           /\ let t' := if has_flag more m then (q :: A', B') else next_turn (q :: A', B') in turn (rot lb') t'.1 t'.2 P'
       end.
Proof.
  intros Ht Hw Hst Hd. destruct (send_ok m lb w h A B P Ht Hw Hst Hd) as (k & rc & m' & lb' & w' & P' & E & Htak & Hk & _ & _ & Hres).
  exists k, rc, m', lb', w', P'. split; [done|]. split; [done|]. split; [done|].
  destruct (skipped k (A, B)) as [[|q A'] B']; [by destruct Hres as (? & ? & _ & ? & _)|by destruct Hres as (? & ? & ? & _ & [? _] & _)].
Qed.

(** C24: a message of several parts is not torn.  Sent part by part between the
    messages, it arrives at one pipe, all its parts in their order and nothing
    between them, and nothing arrives anywhere else; or the first part is refused
    with [EAGAIN] and nothing arrives at all. *)
Theorem lb_keeps_messages_whole {W} `{PipeLaws W} parts last lb w h A B P :
  turn (rot lb) A B P -> lb_world (rot lb) w -> more_parts lb = false -> dropping lb = false ->
  Forall (fun m => has_flag more m = true) parts -> has_flag more last = false ->
  exists rc lb' w', send_parts (parts ++ [last]) lb w h = Ok (rc, lb', w', h)
    /\ ((rc = -1 /\ forall x, attached w x -> outbox w' x = outbox w x)
        \/ (rc = 0 /\ more_parts lb' = false /\ exists q, member (pipes (rot lb)) q /\ arrived_at q (parts ++ [last]) w w')).
Proof.
  intros Ht Hw Hmo Hd Hall Hlast. assert (Hst : forall m, steady lb m w) by (intros m Hm; congruence).
  set (m := match parts with [] => last | m :: _ => m end).
  destruct (send_ok m lb w h A B P Ht Hw (Hst m) Hd) as (k & rc & m' & lb' & w' & P' & E & Htak & _ & Hw' & Hatt' & Hres).
  destruct (skipped k (A, B)) as [[|q A'] B'].
  - destruct Hres as (-> & _ & _ & _). exists (-1), lb', w'. split; [|by left]. destruct parts; cbn [app send_parts]; unfold m in E; by rewrite E.
  - destruct Hres as (-> & _ & Hm2 & Hd2 & [Ht' Hp] & Hgo).
    assert (Hq : member (pipes (rot lb)) q).
    { apply (turn_member _ _ _ _ q Ht). assert (Hin : q ∈ A ++ B ++ P).
      { rewrite Hp, app_assoc. apply elem_of_app. left. destruct (has_flag more m); [by left|]. rewrite (next_turn_perm (q :: A', B')). by left. }
      rewrite !elem_of_app in Hin. tauto. }
    unfold taken in Htak. cbn [fst] in Htak. destruct parts as [|m0 parts]; cbn [app send_parts]; unfold m in *; rewrite E; cbn [obind].
    + exists 0, lb', w'. split; [done|]. right. split; [done|]. split; [by rewrite Hm2|]. by exists q.
    + apply Forall_cons in Hall as [Hm0 Hall]. rewrite Hm0 in *. destruct (Hgo eq_refl) as [_ Hgo2]. cbn [fst snd] in *.
      change (0 <? 0) with false. cbn iota.
      destruct (send_rest last h parts lb' w' q A' B' P' Ht') as (lb2 & w2 & -> & Hmo2 & Harr); try done.
      { exact (world_members _ _ _ _ _ _ _ _ _ _ Ht Ht' Hp Hw Hw' Hatt'). }
      exists 0, lb2, w2. split; [done|]. right. split; [done|]. split; [done|]. exists q. split; [done|]. intros x Hx.
      rewrite (Harr x) by (by apply Hatt'). rewrite (Htak x Hx). case_bool_decide; [by rewrite <- app_assoc|done].
Qed.
