(* ===== verification/Xpub.v ===== *)
(** * Publishing sockets ([lib/zeromq/xpub.cpp], [pub.cpp])

    [xpub_t] keeps the subscriptions of its peers in a trie and sends a message to
    the pipes with a subscription that is a prefix of its first part.  [pub_t] is
    the same without the reading of subscriptions by the user.  Commands and
    options are those that [socket_base_t] passes on. *)

From stdpp Require Import tactics gmap.
From S2P Require Import Prelude Msg Array Pipes Dist Mtrie.

Definition ZMQ_PUB : Z := 1.
Definition ZMQ_XPUB : Z := 9.
Definition ZMQ_XPUB_VERBOSE : Z := 40.

(** [type_] is [options.type]. *)
Record xpub_t := mkXpub { type_ : Z; subscriptions : mtrie_t; dist : dist_t; verbose : bool; more_parts : bool; pending : list bytes }.

Definition new_xpub : xpub_t := mkXpub ZMQ_XPUB new_mtrie new_dist false false [].
Definition new_pub : xpub_t := mkXpub ZMQ_PUB new_mtrie new_dist false false [].

Definition with_subscriptions (t : mtrie_t) (x : xpub_t) : xpub_t := mkXpub (type_ x) t (dist x) (verbose x) (more_parts x) (pending x).
Definition with_dist (d : dist_t) (x : xpub_t) : xpub_t := mkXpub (type_ x) (subscriptions x) d (verbose x) (more_parts x) (pending x).
Definition with_pending (l : list bytes) (x : xpub_t) : xpub_t := mkXpub (type_ x) (subscriptions x) (dist x) (verbose x) (more_parts x) l.
Definition with_more (b : bool) (x : xpub_t) : xpub_t := mkXpub (type_ x) (subscriptions x) (dist x) (verbose x) b (pending x).

(** A subscription as it comes from the peer: one byte, 0 or 1, and the topic. *)
Definition subscribe_ (data_ : bytes) (pipe_ : Z) (x : xpub_t) : outcome xpub_t :=
  match data_ with
  | [] => Ok x
  | c :: topic =>
      if (ord c =? 0) || (ord c =? 1) then
        let! (unique, t) := (if ord c =? 0 then rm topic pipe_ (subscriptions x) else add topic pipe_ (subscriptions x)) in
        let x := with_subscriptions t x in
        Ok (if (type_ x =? ZMQ_XPUB) && (unique || (negb (ord c =? 0) && verbose x)) then with_pending (pending x ++ [data_]) x else x)
      else Ok x
  end.

Section Socket.
Context {W : Type} `{PipeOps W}.

(** [while (pipe_->read (&sub))].  The fuel is the number of messages that wait, and
    one. *)
Fixpoint xread_activated (fuel : nat) (pipe_ : Z) (x : xpub_t) (w : W) (h : memory) : outcome (xpub_t * W * memory) :=
  match fuel with
  | O => OutOfFuel
  | S fuel' =>
      let! (o, w) := pipe_read pipe_ w in
      match o with
      | None => Ok (x, w, h)
      | Some sub =>
          let! data_ := data sub h in
          let! x := subscribe_ data_ pipe_ x in
          let! (_, _, h) := close sub h in
          xread_activated fuel' pipe_ x w h
      end
  end.

Definition xattach_pipe (fuel : nat) (pipe_ : Z) (icanhasall_ : bool) (x : xpub_t) (w : W) (h : memory) : outcome (xpub_t * W * memory) :=
  let! d := attach pipe_ (dist x) in
  let x := with_dist d x in
  let! x := (if icanhasall_ then let! (_, t) := add [] pipe_ (subscriptions x) in Ok (with_subscriptions t x) else Ok x) in
  xread_activated fuel pipe_ x w h.

Definition xwrite_activated (pipe_ : Z) (x : xpub_t) : outcome xpub_t :=
  let! d := activated pipe_ (dist x) in Ok (with_dist d x).

(** [optval_] is the value of an option of [optvallen_] bytes; 0 or -1 ([EINVAL]). *)
Definition xsetsockopt (option_ optval_ optvallen_ : Z) (x : xpub_t) : Z * xpub_t :=
  if negb (option_ =? ZMQ_XPUB_VERBOSE) then (-1, x)
  else if negb (optvallen_ =? 4) || (optval_ <? 0) then (-1, x)
  else (0, mkXpub (type_ x) (subscriptions x) (dist x) (negb (optval_ =? 0)) (more_parts x) (pending x)).

Definition send_unsubscription (data_ : bytes) (x : xpub_t) : xpub_t :=
  if negb (type_ x =? ZMQ_PUB) then with_pending (pending x ++ [chr 0 :: data_]) x else x.

Definition xterminated (pipe_ : Z) (x : xpub_t) : outcome xpub_t :=
  let! (gone, t) := rm_pipe pipe_ (subscriptions x) in
  let x := with_subscriptions t (fold_left (fun x d => send_unsubscription d x) gone x) in
  let! d := terminated pipe_ (dist x) in
  Ok (with_dist d x).

Fixpoint mark_as_matching (pipes_ : list Z) (d : dist_t) : outcome dist_t :=
  match pipes_ with
  | [] => Ok d
  | p :: ps => let! d := match_pipe p d in mark_as_matching ps d
  end.

(** 0 and an empty message. *)
Definition xsend (msg_ : msg_t) (x : xpub_t) (w : W) (h : memory) : outcome (Z * msg_t * xpub_t * W * memory) :=
  let msg_more := has_flag more msg_ in
  let! d := (if more_parts x then Ok (dist x)
    else
      let! data_ := data msg_ h in
      let! ps := match_ data_ (subscriptions x) in
      mark_as_matching ps (dist x)) in
  let! (m, d, w, h) := send_to_matching msg_ d w h in
  let d := if negb msg_more then unmatch d else d in
  Ok (0, m, with_more msg_more (with_dist d x), w, h).

Definition xhas_out (x : xpub_t) : bool := has_out (dist x).

(** 0 and the subscription, or -1 ([EAGAIN]). *)
Definition xrecv (available : Z -> bool) (msg_ : msg_t) (x : xpub_t) (h : memory) : outcome (Z * msg_t * xpub_t * memory) :=
  match pending x with
  | [] => Ok (-1, msg_, x, h)
  | d :: rest =>
      let! (rc, _, h) := close msg_ h in
      let! _ := assertion (rc =? 0) "rc == 0" in
      let! o := init_size available (fun _ => d) (Z.of_nat (length d)) h in
      match o with
      | Some (m, h) => Ok (0, m, with_pending rest x, h)
      | None => Aborted "rc == 0"
      end
  end.

Definition xhas_in (x : xpub_t) : bool := match pending x with [] => false | _ => true end.

(** [pub_t::xrecv]: always -1 ([ENOTSUP]); [pub_t::xhas_in]. *)
Definition pub_xrecv (msg_ : msg_t) (x : xpub_t) (h : memory) : outcome (Z * msg_t * xpub_t * memory) := Ok (-1, msg_, x, h).
Definition pub_xhas_in (x : xpub_t) : bool := false.

End Socket.
