(* ===== verification/XpubTheorems.v ===== *)
(** * The publishing sockets keep their promise

    [xpub_t] is described by the map from topics to pipes, the classes of its
    pipes and the subscriptions that wait for the user; each of its operations
    implements a function on these.  Then: a message of any number of parts is
    delivered whole, to the pipes with a subscription that is a prefix of its first
    part. *)

From stdpp Require Import tactics sorting gmap.
From S2P Require Import Prelude ZmqTables Mtrie MtrieTheorems MtrieRefinement Msg MsgTheorems Array Pipes Dist DistTheorems Xpub.

(** ** What is promised *)

Record pub_state := mkPub { topics_of : topics; classes_of : gmap Z class; in_message : bool; pending_of : list bytes; verbosely : bool }.

Definition no_subscribers : pub_state := mkPub ∅ ∅ false [] false.

(** The pipes of the prefixes of [d]. *)
Definition subscribers (M : topics) (d : bytes) : gset Z :=
  list_to_set (concat (map (fun n => iterate (default ∅ (M !! take n d))) (seq 0 (S (length d))))).

Definition subscribed (M : topics) (d : bytes) (q : Z) : Prop := exists k X, k `prefix_of` d /\ M !! k = Some X /\ q ∈ X.

Lemma iterate_elem (X : pipes_t) q : q ∈ iterate X <-> q ∈ X.
Proof. unfold iterate. by rewrite merge_sort_Permutation, elem_of_elements. Qed.

Lemma subscribers_elem M d q : q ∈ subscribers M d <-> subscribed M d q.
Proof.
  unfold subscribers, subscribed. rewrite elem_of_list_to_set, list_elem_of_In, in_concat. split.
  - intros (l & (n & <- & _)%in_map_iff & Hq%list_elem_of_In%iterate_elem). destruct (M !! take n d) as [X|] eqn:E; [|by apply not_elem_of_empty in Hq].
    exists (take n d), X. split; [apply prefix_take|done].
  - intros (k & X & Hk & E & Hq). exists (iterate X). split; [|by apply list_elem_of_In, iterate_elem]. apply in_map_iff. exists (length k).
    pose proof Hk as [d' ->]. rewrite take_app_length, E. split; [done|]. apply in_seq. rewrite length_app. lia.
Qed.

(** The active pipes among [S] match. *)
Definition mark (S : gset Z) (q : Z) (c : class) : class := if decide (q ∈ S /\ c = Active) then Matching else c.
Definition marked (S : gset Z) (f : gmap Z class) : gmap Z class := map_imap (fun q c => Some (mark S q c)) f.

(** Of the matching pipes those that do not take a message are passive. *)
Definition refuse (takes : Z -> bool) (q : Z) (c : class) : class := if decide (c = Matching /\ takes q = false) then Passive else c.
Definition refused (takes : Z -> bool) (f : gmap Z class) : gmap Z class := map_imap (fun q c => Some (refuse takes q c)) f.

Lemma marked_lookup S f q : marked S f !! q = mark S q <$> f !! q.
Proof. unfold marked. rewrite map_lookup_imap. by destruct (f !! q). Qed.

Lemma refused_lookup t f q : refused t f !! q = refuse t q <$> f !! q.
Proof. unfold refused. rewrite map_lookup_imap. by destruct (f !! q). Qed.

Lemma passive_all_lookup R f q : passive_all R f !! q = if decide (q ∈ R) then Some Passive else f !! q.
Proof.
  unfold passive_all. induction R as [|p R IH]; [done|]. cbn [foldr]. destruct (decide (q = p)) as [->|Hne].
  - rewrite lookup_insert_eq, decide_True; [done|by left].
  - rewrite lookup_insert_ne, IH by done. destruct (decide (q ∈ R)), (decide (q ∈ p :: R)) as [Hin|Hout]; try done; [by destruct Hout; right|].
    by apply elem_of_cons in Hin as [|].
Qed.

Lemma passive_all_refused R t f : (forall q, q ∈ R <-> f !! q = Some Matching /\ t q = false) -> passive_all R f = refused t f.
Proof.
  intros HR. apply map_eq. intros q. rewrite passive_all_lookup, refused_lookup. unfold refuse. case_decide as Hq.
  - apply HR in Hq as [-> Ht]. cbn. by rewrite decide_True.
  - destruct (f !! q) as [c|] eqn:E; [|done]. cbn. rewrite decide_False; [done|]. intros [-> Ht]. by apply Hq, HR.
Qed.

(** A subscription of the pipe [p], for a socket of the type [ty]. *)
Definition promised_subscription (ty : Z) (d : bytes) (p : Z) (s : pub_state) : outcome pub_state :=
  match d with
  | [] => Ok s
  | c :: topic =>
      if (ord c =? 0) || (ord c =? 1) then
        match promised (if ord c =? 0 then Rm topic p else Add topic p) (topics_of s) with
        | Ok (a, M) =>
            let passed_on := (ty =? ZMQ_XPUB) && ((match a with Said unique => unique | _ => false end) || (negb (ord c =? 0) && verbosely s)) in
            Ok (mkPub M (classes_of s) (in_message s) (if passed_on then pending_of s ++ [d] else pending_of s) (verbosely s))
        | Aborted why => Aborted why
        | OutOfFuel => OutOfFuel
        end
      else Ok s
  end.

Fixpoint promised_subscriptions (ty : Z) (ds : list bytes) (p : Z) (s : pub_state) : outcome pub_state :=
  match ds with [] => Ok s | d :: ds' => let! s := promised_subscription ty d p s in promised_subscriptions ty ds' p s end.

(** A part of a message. *)
Definition matched (d : bytes) (s : pub_state) : gmap Z class := if in_message s then classes_of s else marked (subscribers (topics_of s) d) (classes_of s).

Definition promised_send (takes : Z -> bool) (d : bytes) (parts_follow : bool) (s : pub_state) : pub_state :=
  let f := after_part parts_follow (refused takes (matched d s)) in
  mkPub (topics_of s) (if parts_follow then f else unmatched <$> f) parts_follow (pending_of s) (verbosely s).

(** A pipe that leaves: its topics that nobody else has are unsubscribed. *)
Definition promised_leave (ty : Z) (p : Z) (s : pub_state) : pub_state :=
  let gone := merge_sort bytes_le (elements (filter (fun k => topics_of s !! k = Some {[ p ]}) (dom (topics_of s)))) in
  mkPub (without p (topics_of s)) (delete p (classes_of s)) (in_message s)
    (if ty =? ZMQ_PUB then pending_of s else pending_of s ++ map (cons (chr 0)) gone) (verbosely s).

Definition all_topics (p : Z) (s : pub_state) : pub_state :=
  mkPub (<[[] := {[ p ]} ∪ default ∅ (topics_of s !! [])]> (topics_of s)) (classes_of s) (in_message s) (pending_of s) (verbosely s).

Definition joining (p : Z) (s : pub_state) : pub_state :=
  mkPub (topics_of s) (<[p := if in_message s then Eligible else Active]> (classes_of s)) (in_message s) (pending_of s) (verbosely s).

Section Publishing.
Context {W : Type} `{PipeLaws W}.

(** The socket is as promised. *)
Record xpub_rel (x : xpub_t) (s : pub_state) (w : W) : Prop := {
  rel_dist : dist_ok (dist x);
  rel_classes : classes (dist x) (classes_of s);
  rel_world : world_ok (dist x) w;
  rel_topics : represents (subscriptions x) (topics_of s);
  rel_more : Xpub.more_parts x = in_message s /\ Dist.more_parts (dist x) = in_message s;
  rel_idle : in_message s = false -> matching (dist x) = 0;
  rel_known k X q : topics_of s !! k = Some X -> q ∈ X -> is_Some (classes_of s !! q);
  rel_pending : pending x = pending_of s;
  rel_verbose : verbose x = verbosely s
}.

Lemma classes_size d f : dist_ok d -> classes d f -> Array.size (pipes d) = Z.of_nat (base.size f).
Proof.
  intros [Ha _ _] [Hdom _]. unfold Array.size. f_equal. rewrite <- size_dom. replace (dom f) with (list_to_set (C := gset Z) (items (pipes d))).
  - by rewrite size_list_to_set by by apply items_nodup.
  - apply set_eq. intros q. by rewrite elem_of_list_to_set, elem_of_dom, Hdom.
Qed.

Lemma idle_no_eligible d f q c : dist_ok d -> classes d f -> Dist.more_parts d = false -> f !! q = Some c -> c <> Eligible.
Proof.
  intros Hd Hf Hm Hq. destruct (classes_lookup d f q (dist_array d Hd) Hf ltac:(by eexists)) as [_ Hc]. rewrite Hq in Hc. injection Hc as ->.
  pose proof (dist_idle d Hd Hm). by_position.
Qed.

Lemma idle_no_matching d f q : dist_ok d -> classes d f -> matching d = 0 -> f !! q <> Some Matching.
Proof. intros Hd Hf Hm Hq. apply (untried_matching d f q Hd Hf) in Hq as (k & Hk & _). lia. Qed.

Lemma mark_as_matching_ok ps : forall d f, dist_ok d -> classes d f -> Dist.more_parts d = false -> (forall q, q ∈ ps -> is_Some (f !! q)) ->
  exists d', mark_as_matching ps d = Ok d' /\ dist_ok d' /\ Dist.more_parts d' = false /\ classes d' (marked (list_to_set ps) f).
Proof.
  induction ps as [|p ps IH]; intros d f Hd Hf Hm Hps; cbn [mark_as_matching].
  - exists d. replace (marked _ f) with f; [done|]. apply map_eq. intros q. rewrite marked_lookup. unfold mark.
    destruct (f !! q) as [c|]; [|done]. cbn. rewrite decide_False; [done|]. intros [Hq _]. by apply not_elem_of_empty in Hq.
  - destruct (Hps p) as [c Hp]; [by left|]. destruct (match_ok p d f c Hd Hf Hp) as (d1 & -> & Hd1 & Hm1 & Hf1); [by apply (idle_no_eligible d f p)|].
    cbn [obind]. set (f1 := if decide (c = Active) then _ else f) in *.
    assert (Hf1q : forall q, f1 !! q = mark {[ p ]} q <$> f !! q).
    { intros q. unfold f1, mark. destruct (decide (q = p)) as [->|Hne].
      - rewrite Hp. cbn. case_decide as Ec; [rewrite lookup_insert_eq, decide_True; [done|by split; [apply elem_of_singleton|]]|].
        rewrite decide_False; [done|by intros []].
      - replace (f1 !! q) with (f !! q) by (unfold f1; case_decide; by rewrite ?lookup_insert_ne).
        destruct (f !! q); [|done]. cbn. rewrite decide_False; [done|]. intros [Hq _]. by apply elem_of_singleton in Hq. }
    destruct (IH d1 f1 Hd1 Hf1 ltac:(congruence)) as (d2 & -> & Hd2 & Hm2 & Hf2).
    { intros q Hq. rewrite Hf1q, fmap_is_Some. apply Hps. by right. }
    exists d2. split; [done|]. split; [done|]. split; [done|]. replace (marked _ f) with (marked (list_to_set ps) f1); [done|].
    apply map_eq. intros q. rewrite !marked_lookup, Hf1q. destruct (f !! q) as [c'|]; [|done]. cbn. f_equal. unfold mark.
    destruct (decide (q ∈ {[p]} /\ c' = Active)) as [[Hq ->]|Hq1].
    + rewrite decide_False by (by intros []). rewrite decide_True; [done|]. split; [by apply elem_of_union; left|done].
    + destruct (decide (q ∈ list_to_set (C := gset Z) ps /\ c' = Active)) as [[Hq ->]|Hq2].
      * rewrite decide_True; [done|]. split; [by apply elem_of_union; right|done].
      * rewrite decide_False; [done|]. intros [[Hq|Hq]%elem_of_union ->]; [by apply Hq1|by apply Hq2].
Qed.

(** ** Subscriptions *)

(** An outcome that was promised. *)
Definition as_promised {A} (promise : outcome pub_state) (R : A -> pub_state -> Prop) (run : outcome A) : Prop :=
  match promise with
  | Ok s => exists a, run = Ok a /\ R a s
  | Aborted why => run = Aborted why
  | OutOfFuel => False
  end.

Lemma known_kept (M M' : topics) (f : gmap Z class) : (forall k X q, M !! k = Some X -> q ∈ X -> is_Some (f !! q)) ->
  (forall k X q, M' !! k = Some X -> q ∈ X -> (exists X', M !! k = Some X' /\ q ∈ X') \/ is_Some (f !! q)) ->
  forall k X q, M' !! k = Some X -> q ∈ X -> is_Some (f !! q).
Proof. intros HM HM' k X q Hk Hq. destruct (HM' k X q Hk Hq) as [(X' & Hk' & Hq')|]; [by apply (HM k X')|done]. Qed.

Lemma promised_known o M a M' p : promised o M = Ok (a, M') -> (o = Rm (match o with Rm k _ => k | _ => [] end) p \/ exists k, o = Add k p) ->
  forall k X q, M' !! k = Some X -> q ∈ X -> (exists X', M !! k = Some X' /\ q ∈ X') \/ q = p.
Proof.
  intros E Ho k X q Hk Hq. destruct Ho as [Ho|[key ->]].
  - destruct o as [|key p'| |]; try done. injection Ho as ->. cbn in E. destruct (M !! key) as [Y|] eqn:EY; [|injection E as _ <-; left; by exists X].
    destruct (decide (p ∈ Y)); [|done]. injection E as _ <-. destruct (decide (k = key)) as [->|Hne].
    + rewrite lookup_partial_alter_eq in Hk. unfold erase_pipe in Hk. case_decide; [done|]. injection Hk as <-. left. exists Y. by apply elem_of_difference in Hq as [].
    + rewrite lookup_partial_alter_ne in Hk by done. left. by exists X.
  - cbn in E. injection E as _ <-. destruct (decide (k = key)) as [->|Hne].
    + rewrite lookup_insert_eq in Hk. injection Hk as <-. apply elem_of_union in Hq as [Hq|Hq]; [right; by apply elem_of_singleton in Hq|left].
      destruct (M !! key) as [Y|]; [by exists Y|by apply not_elem_of_empty in Hq].
    + rewrite lookup_insert_ne in Hk by done. left. by exists X.
Qed.

Lemma subscribe_ok d p x s w : xpub_rel x s w -> is_Some (classes_of s !! p) ->
  as_promised (promised_subscription (type_ x) d p s) (fun x' s' => xpub_rel x' s' w /\ type_ x' = type_ x /\ classes_of s' = classes_of s) (subscribe_ d p x).
Proof.
  intros [Hd Hf Hw Ht Hm Hi Hk Hp Hv] Hpf. unfold promised_subscription, subscribe_. destruct d as [|c topic]; [by exists x|].
  destruct ((ord c =? 0) || (ord c =? 1)); [|by exists x].
  set (o := if ord c =? 0 then Rm topic p else Add topic p).
  pose proof (mtrie_perform_promised o (subscriptions x) (topics_of s) Ht) as HP.
  assert (Erun : (if ord c =? 0 then rm topic p (subscriptions x) else add topic p (subscriptions x))
    = match perform o (subscriptions x) with Ok (Said b, t) => Ok (b, t) | Ok _ => OutOfFuel | Aborted why => Aborted why | OutOfFuel => OutOfFuel end).
  { unfold o. destruct (ord c =? 0); cbn [perform]; [destruct (rm _ _ _) as [[]| |]|destruct (add _ _ _) as [[]| |]]; done. }
  assert (Hsaid : forall a M, promised o (topics_of s) = Ok (a, M) -> exists b, a = Said b).
  { unfold o. intros a M. destruct (ord c =? 0); cbn [promised]; [|intros [= <- _]; by eexists].
    destruct (topics_of s !! topic); [destruct (decide _); [|done]|]; intros [= <- _]; by eexists. }
  rewrite Erun. destruct (promised o (topics_of s)) as [[a M]| |why] eqn:EP; cbn [keeps as_promised] in *; [|done|by rewrite HP].
  destruct HP as (t & -> & Ht'). destruct (Hsaid a M eq_refl) as [b ->]. cbn [obind]. eexists. split; [reflexivity|].
  assert (Hk' : forall k X q, M !! k = Some X -> q ∈ X -> is_Some (classes_of s !! q)).
  { apply (known_kept (topics_of s) M); [done|]. intros k X q HX Hq.
    destruct (promised_known o (topics_of s) (Said b) M p EP ltac:(unfold o; destruct (ord c =? 0); [by left|right; by eexists]) k X q HX Hq) as [?| ->]; auto. }
  unfold with_subscriptions, with_pending. cbn [type_ verbose pending]. rewrite Hv. destruct (_ && _); (split; [|done]); split; cbn; try done. by rewrite Hp.
Qed.

(** Messages with their data. *)
Definition hold (l : list msg_t) (h : memory) (ds : list bytes) : Prop := Forall2 (fun m d => data m h = Ok d) l ds.

Lemma hold_kept l h h' ds : (forall m d, m ∈ l -> data m h = Ok d -> data m h' = Ok d) -> hold l h ds -> hold l h' ds.
Proof.
  intros Hk Hl. induction Hl as [|m d l ds Hd Hl IH]; constructor; [by apply Hk; [left|]|]. apply IH. intros x e Hx. apply Hk. by right.
Qed.

Lemma data_check m h d : data m h = Ok d -> check m = true.
Proof. unfold data. by destruct (check m). Qed.

Lemma rel_same_members x s w w' : pipes_ok w' -> (forall q, attached w' q <-> attached w q) -> xpub_rel x s w -> xpub_rel x s w'.
Proof. intros Hw' Hatt [Hd Hf [Hw Hwa] Ht Hm Hi Hk Hp Hv]. split; try done. split; [done|]. intros q Hq. by apply Hatt, Hwa. Qed.

Lemma rel_attached x s w q : xpub_rel x s w -> is_Some (classes_of s !! q) -> attached w q.
Proof. intros Hr Hq. apply (rel_world x s w Hr). by apply (rel_classes x s w Hr). Qed.

Lemma xread_activated_ok p fuel : forall l ds hs x s w h, xpub_rel x s w -> is_Some (classes_of s !! p) -> inbox w p = l ->
  hold l h ds -> balanced (l ++ hs) h -> few (l ++ hs) -> (length l < fuel)%nat ->
  as_promised (promised_subscriptions (type_ x) ds p s)
    (fun r s' => let '(x', w', h') := r in xpub_rel x' s' w' /\ type_ x' = type_ x /\ classes_of s' = classes_of s /\ inbox w' p = [] /\ balanced hs h')
    (xread_activated fuel p x w h).
Proof.
  induction fuel as [|fuel IH]; intros l ds hs x s w h Hr Hp Hl Hds Hb Hfew Hf; [lia|]. cbn [xread_activated].
  destruct (pipe_read_ok w p) as (o & w1 & -> & Hw1 & Hatt1 & -> & Hin); [apply Hr|by eapply rel_attached|]. cbn [obind].
  assert (Hr1 : xpub_rel x s w1) by (by apply (rel_same_members x s w)). pose proof (Hin p ltac:(by eapply rel_attached)) as Hp1.
  rewrite bool_decide_eq_true_2 in Hp1 by done. rewrite Hl in *. destruct Hds as [|m d l ds Hd Hds]; cbn [head tail promised_subscriptions as_promised].
  { by exists (x, w1, h). }
  rewrite Hd. cbn [obind]. pose proof (subscribe_ok d p x s w1 Hr1 Hp) as Hs. destruct (promised_subscription (type_ x) d p s) as [s1| |why]; cbn [as_promised obind] in *; [|done|by rewrite Hs].
  destruct Hs as (x1 & -> & Hr2 & Ety & Ef). cbn [obind].
  destruct (close_ok m (l ++ hs) h Hb Hfew (data_check m h d Hd)) as (h1 & E & Hb1 & _). rewrite E. cbn [obind].
  rewrite <- Ety. rewrite <- Ef in Hp.
  assert (Hds1 : hold l h1 ds).
  { apply (hold_kept l h); [|done]. intros y e Hy. apply (close_data m (l ++ hs) h _ _ h1 y e Hb Hfew E), elem_of_app. by left. }
  specialize (IH l ds hs x1 s1 w1 h1 Hr2 Hp Hp1 Hds1 Hb1). destruct (promised_subscriptions (type_ x1) ds p s1) as [s2| |why]; cbn [as_promised] in *.
  - destruct IH as ([[x2 w2] h2] & -> & Hr3 & Ety3 & Ef3 & Hl3 & Hb3); [unfold few in *; cbn [length app] in Hfew; lia|cbn in Hf; lia|].
    eexists. split; [reflexivity|]. split_and!; try done; congruence.
  - apply IH; [unfold few in *; cbn [length app] in Hfew; lia|cbn in Hf; lia].
  - apply IH; [unfold few in *; cbn [length app] in Hfew; lia|cbn in Hf; lia].
Qed.

(** ** Sending *)

Lemma match_promised t M d : represents t M -> exists ps, match_ d t = Ok ps /\ list_to_set ps = subscribers M d.
Proof.
  intros Ht. pose proof (mtrie_perform_promised (Match d) t M Ht) as HP. cbn [perform promised keeps] in HP. destruct HP as (t' & E & _).
  destruct (match_ d t) as [ps| |]; try discriminate. cbn [obind] in E. injection E as -> _. by eexists.
Qed.

(** The distributor before a part is distributed. *)
Lemma prepared x s w d (m : msg_t) h : xpub_rel x s w -> (in_message s = false -> data m h = Ok d) ->
  exists d0, (if Xpub.more_parts x then Ok (dist x) else let! data_ := data m h in let! ps := match_ data_ (subscriptions x) in mark_as_matching ps (dist x)) = Ok d0
    /\ dist_ok d0 /\ classes d0 (matched d s) /\ world_ok d0 w.
Proof.
  intros Hr Hdata. pose proof Hr as [Hd Hf Hw Ht [Hm Hm'] Hi Hk _ _]. unfold matched. rewrite Hm. destruct (in_message s).
  - by exists (dist x).
  - rewrite (Hdata eq_refl). cbn [obind]. destruct (match_promised _ _ d Ht) as (ps & -> & Eps). cbn [obind].
    destruct (mark_as_matching_ok ps (dist x) (classes_of s) Hd Hf Hm') as (d0 & E & Hd0 & _ & Hf0).
    { intros q Hq. apply (elem_of_list_to_set (C := gset Z)) in Hq. rewrite Eps in Hq. apply subscribers_elem in Hq as (k & X & _ & HX & Hq). by apply (Hk k X). }
    exists d0. rewrite <- Eps. split_and!; try done. apply (world_kept (dist x) d0 w (classes_of s) _ Hf Hf0); [|done].
    intros q. by rewrite marked_lookup, fmap_is_Some.
Qed.

Lemma matched_is_Some d s q : is_Some (matched d s !! q) <-> is_Some (classes_of s !! q).
Proof. unfold matched. destruct (in_message s); [done|]. by rewrite marked_lookup, fmap_is_Some. Qed.

(** The parts are given to [n] pipes with the same payload. *)
Definition same_part (m m' : msg_t) : Prop := u m' = u m /\ (m' = m \/ m' = set_flags shared m).

(** What a part does to the pipes. *)
Record part_sent (m m' : msg_t) (f : gmap Z class) (w w' : W) : Prop := {
  part_same : same_part m m';
  part_boxes q : is_Some (f !! q) -> inbox w' q = inbox w q
    /\ outbox w' q = if bool_decide (f !! q = Some Matching) && taking w q then outbox w q ++ [m'] else outbox w q;
  part_taking q : f !! q = Some Matching -> taking w q = true -> has_flag more m = true -> taking w' q = true
}.

(** A part that may be sent. *)
Record part_ready (m : msg_t) (hs : list msg_t) (d : bytes) (s : pub_state) (h : memory) : Prop := {
  ready_valid : check m = true;
  ready_balanced : balanced (m :: hs) h;
  ready_few : Z.of_nat (length hs + base.size (classes_of s)) + 1 < 2 ^ 32;
  ready_data : in_message s = false -> data m h = Ok d
}.

Lemma xsend_ok m hs d s x w h : xpub_rel x s w -> part_ready m hs d s h ->
  exists m' n x' w' h', xsend m x w h = Ok (0, init, x', w', h') /\ xpub_rel x' (promised_send (taking w) d (has_flag more m) s) w' /\ type_ x' = type_ x
    /\ part_sent m m' (matched d s) w w' /\ (n <= base.size (classes_of s))%nat /\ balanced (replicate n m' ++ hs) h' /\ buffers h' ≡ₚ buffers h.
Proof.
  intros Hr [Hc Hb Hfew Hdata]. destruct (prepared x s w d m h Hr Hdata) as (d0 & E0 & Hd0 & Hf0 & Hw0).
  assert (Hsz : matching d0 <= Z.of_nat (base.size (classes_of s))).
  { pose proof (dist_borders d0 Hd0). pose proof (classes_size d0 _ Hd0 Hf0) as Hs. replace (base.size (matched d s)) with (base.size (classes_of s)) in Hs; [lia|].
    rewrite <- !size_dom. f_equal. apply set_eq. intros q. by rewrite !elem_of_dom, matched_is_Some. }
  destruct (send_to_matching_ok m hs d0 w h (matched d s) Hd0 Hf0 Hw0) as (m' & R & d1 & w' & h' & E & Hmore & [(Hd1 & Hw1 & Hf1) [Hnd HR] Hyes Hno Hin Htk Hsame [Hbal Hbuf]]);
    [split; [done|done|lia]|].
  rewrite (passive_all_refused R (taking w) _ HR) in Hf1. unfold xsend. rewrite E0. cbn [obind]. rewrite E. cbn [obind].
  eexists m', _, _, w', h'. split; [reflexivity|]. split; [|split; [done|split; [|split; [|done]]]]; [|split|lia].
  - destruct (unmatch_ok d1 _ Hd1 Hf1) as [Hd2 Hf2]. destruct Hr as [_ _ _ Ht _ _ Hk Hp Hv].
    split; unfold promised_send; cbn; try done; destruct (has_flag more m); cbn [negb]; try done; intros k X q HX Hq.
    all: pose proof (Hk k X q HX Hq) as Hs; apply (matched_is_Some d) in Hs.
    + unfold after_part. rewrite refused_lookup. by apply fmap_is_Some.
    + unfold after_part. rewrite !lookup_fmap, refused_lookup, !fmap_is_Some. done.
  - done.
  - intros q Hq. split; [by apply Hin|]. destruct (decide (matched d s !! q = Some Matching)) as [Em|Em]; [rewrite bool_decide_eq_true_2 by done|rewrite bool_decide_eq_false_2 by done].
    + cbn [andb]. destruct (taking w q) eqn:Et; [apply Hyes; [done|]; rewrite HR, Et; by intros []|]. apply Hno; [done|]. right. by apply HR.
    + cbn [andb]. apply Hno; [done|by left].
  - intros q Hq Ht Hm. apply (Htk q); [done| |done]. rewrite HR, Ht. by intros [].
Qed.

(** The parts of a message. *)
Fixpoint xsends (ms : list msg_t) (x : xpub_t) (w : W) (h : memory) : outcome (xpub_t * W * memory) :=
  match ms with
  | [] => Ok (x, w, h)
  | m :: ms' => let! (_, _, x, w, h) := xsend m x w h in xsends ms' x w h
  end.

Definition receives (takes : Z -> bool) (f : gmap Z class) (q : Z) : bool := bool_decide (f !! q = Some Matching) && takes q.

Lemma refused_again t t' f : (forall q, f !! q = Some Matching -> t q = true -> t' q = true) ->
  refused t' (refused t f) = refused t f /\ forall q, receives t' (refused t f) q = receives t f q.
Proof.
  intros Ht. assert (Hl : forall q, refused t f !! q = if decide (f !! q = Some Matching) then Some (if t q then Matching else Passive) else f !! q).
  { intros q. rewrite refused_lookup. unfold refuse. case_decide as Hq; [rewrite Hq; cbn; by destruct (t q)|].
    destruct (f !! q) as [c|]; [|done]. cbn. rewrite decide_False; [done|]. by intros [-> _]. }
  split.
  - apply map_eq. intros q. rewrite refused_lookup, Hl. case_decide as Hq.
    + destruct (t q) eqn:E; cbn; unfold refuse; [|by rewrite decide_False by (by intros [])]. rewrite (Ht q Hq E), decide_False; [done|by intros []].
    + destruct (f !! q) as [c|]; [|done]. cbn. unfold refuse. rewrite decide_False; [done|]. by intros [-> _].
  - intros q. unfold receives. rewrite Hl. case_decide as Hq.
    + rewrite Hq. destruct (t q) eqn:E; [by rewrite (Ht q Hq E)|]. by rewrite bool_decide_eq_false_2, andb_false_r.
    + by rewrite bool_decide_eq_false_2.
Qed.

Definition after_message (takes : Z -> bool) (f : gmap Z class) : gmap Z class := unmatched <$> (joined <$> refused takes f).

Lemma xsends_ok last parts : has_flag more last = false -> forall hs d s x w h, xpub_rel x s w ->
  Forall (fun m => has_flag more m = true) parts -> Forall (fun m => check m = true) (parts ++ [last]) -> balanced ((parts ++ [last]) ++ hs) h ->
  Z.of_nat (length (parts ++ [last]) * (1 + base.size (classes_of s)) + length hs) < 2 ^ 32 ->
  (in_message s = false -> forall m rest, parts ++ [last] = m :: rest -> data m h = Ok d) ->
  exists parts' x' s' w' h', xsends (parts ++ [last]) x w h = Ok (x', w', h') /\ xpub_rel x' s' w' /\ Forall2 same_part (parts ++ [last]) parts'
    /\ s' = mkPub (topics_of s) (after_message (taking w) (matched d s)) false (pending_of s) (verbosely s)
    /\ (forall q, is_Some (classes_of s !! q) -> inbox w' q = inbox w q
        /\ outbox w' q = if receives (taking w) (matched d s) q then outbox w q ++ parts' else outbox w q)
    /\ exists ns, balanced (concat (zip_with replicate ns parts') ++ hs) h'.
Proof.
  intros Hlast. induction parts as [|m parts IH]; intros hs d s x w h Hr Hall Hck Hb Hn Hd; cbn [app] in *.
  - apply Forall_cons in Hck as [Hc _]. cbn [length Nat.mul] in Hn.
    destruct (xsend_ok last hs d s x w h Hr) as (m' & n & x' & w' & h' & E & Hr' & _ & [Hsame Hbox _] & _ & Hbal & _);
      [split; [done|done|lia|]; intros Hi; by apply (Hd Hi last [])|].
    eexists [m'], x', _, w', h'. cbn [xsends]. rewrite E. cbn [obind]. split; [done|]. split; [exact Hr'|]. unfold promised_send, after_message, after_part. rewrite Hlast.
    split; [by constructor; [|constructor]|]. split; [done|]. split; [intros q Hq; apply Hbox; by apply matched_is_Some|]. exists [n]. cbn. by rewrite app_nil_r.
  - apply Forall_cons in Hall as [Hm Hall]. apply Forall_cons in Hck as [Hc Hck]. cbn [length] in Hn.
    assert (Hlen : (length (parts ++ [last]) = length parts + 1)%nat) by (by rewrite length_app). rewrite Hlen in Hn.
    destruct (xsend_ok m ((parts ++ [last]) ++ hs) d s x w h Hr) as (m' & n & x1 & w1 & h1 & E & Hr1 & _ & [Hsame Hbox Htk] & Hle & Hbal & _);
      [split; [done|done|rewrite length_app; lia|]; intros Hi; by eapply (Hd Hi)|].
    set (s1 := promised_send (taking w) d (has_flag more m) s) in *.
    assert (Hs1 : classes_of s1 = refused (taking w) (matched d s) /\ in_message s1 = true) by (unfold s1, promised_send, after_part; by rewrite Hm).
    destruct Hs1 as [Hc1 Hi1].
    assert (Hsz : base.size (classes_of s1) = base.size (classes_of s)).
    { rewrite <- !size_dom, Hc1. f_equal. apply set_eq. intros q. by rewrite !elem_of_dom, refused_lookup, fmap_is_Some, matched_is_Some. }
    destruct (IH (replicate n m' ++ hs) d s1 x1 w1 h1 Hr1 Hall Hck) as (parts' & x' & s' & w' & h' & E' & Hr' & Hsm & -> & Hbox' & ns & Hbal').
    { by rewrite Permutation_app_swap_app. }
    { rewrite Hsz, Hlen, length_app, length_replicate. lia. }
    { by rewrite Hi1. }
    assert (Ef : matched d s1 = refused (taking w) (matched d s)) by (unfold matched at 1; by rewrite Hi1).
    destruct (refused_again (taking w) (taking w1) (matched d s)) as [Hra Hrc]; [intros q Hq Ht; by apply Htk|].
    eexists (m' :: parts'), x', _, w', h'. cbn [xsends]. rewrite E. cbn [obind]. split; [done|]. split; [exact Hr'|]. split; [by constructor|].
    split; [unfold after_message; rewrite Ef, Hra; unfold s1, promised_send; by destruct s|]. split.
    + intros q Hq. destruct (Hbox q ltac:(by apply matched_is_Some)) as [Hi2 Ho2]. destruct (Hbox' q) as [-> ->].
      { by rewrite Hc1, refused_lookup, fmap_is_Some, matched_is_Some. }
      split; [done|]. rewrite Ef, Hrc. fold (receives (taking w) (matched d s) q) in Ho2. rewrite Ho2.
      destruct (receives _ _ _); [by rewrite <- app_assoc|done].
    + exists (n :: ns). cbn. rewrite <- app_assoc. by rewrite Permutation_app_swap_app.
Qed.

(** ** Sessions *)

(** The calls, with the pipes and the heap as they are then; a message comes with
    the data of its first part. *)
Inductive xpub_op :=
| Attach (p : Z) (icanhasall_ : bool) (w : W) (h : memory)
| ReadActivated (p : Z) (w : W) (h : memory)
| WriteActivated (p : Z)
| Terminated (p : Z)
| SetVerbose (v : Z)
| Send (m : msg_t) (w : W) (h : memory).

Definition read_fuel (w : W) (p : Z) : nat := S (length (inbox w p)).

Definition run_xpub (o : xpub_op) (x : xpub_t) : outcome xpub_t :=
  match o with
  | Attach p all w h => let! (x, _, _) := xattach_pipe (read_fuel w p) p all x w h in Ok x
  | ReadActivated p w h => let! (x, _, _) := xread_activated (read_fuel w p) p x w h in Ok x
  | WriteActivated p => xwrite_activated p x
  | Terminated p => xterminated p x
  | SetVerbose v => Ok (xsetsockopt ZMQ_XPUB_VERBOSE v 4 x).2
  | Send m w h => let! (_, _, x, _, _) := xsend m x w h in Ok x
  end.

Definition waiting_data (l : list msg_t) (h : memory) : list bytes := omap (fun m => match data m h with Ok d => Some d | _ => None end) l.

Definition promised_op (ty : Z) (o : xpub_op) (s : pub_state) : outcome pub_state :=
  match o with
  | Attach p all w h =>
      let s := joining p s in
      promised_subscriptions ty (waiting_data (inbox w p) h) p (if all then all_topics p s else s)
  | ReadActivated p w h => promised_subscriptions ty (waiting_data (inbox w p) h) p s
  | WriteActivated p => Ok (joining p s)
  | Terminated p => Ok (promised_leave ty p s)
  | SetVerbose v => Ok (mkPub (topics_of s) (classes_of s) (in_message s) (pending_of s) (negb (v =? 0)))
  | Send m w h => match data m h with Ok d => Ok (promised_send (taking w) d (has_flag more m) s) | _ => OutOfFuel end
  end.

(** The messages in the pipe [p] own their contents. *)
Definition subs_ready (w : W) (p : Z) (h : memory) : Prop :=
  exists hs ds, hold (inbox w p) h ds /\ balanced (inbox w p ++ hs) h /\ few (inbox w p ++ hs).

Definition world_of (w : W) (s : pub_state) : Prop := pipes_ok w /\ forall q, is_Some (classes_of s !! q) -> attached w q.

(** How [socket_base_t] calls the socket. *)
Definition xpub_legal (o : xpub_op) (s : pub_state) : Prop :=
  let f := classes_of s in
  match o with
  | Attach p all w h => f !! p = None /\ Z.of_nat (base.size f) < INT_MAX /\ world_of w s /\ attached w p /\ subs_ready w p h
  | ReadActivated p w h => is_Some (f !! p) /\ world_of w s /\ subs_ready w p h
  | WriteActivated p => f !! p = Some Passive
  | Terminated p => exists c, f !! p = Some c /\ hindmost c f
  | SetVerbose v => 0 <= v
  | Send m w h => world_of w s /\ exists hs d, part_ready m hs d s h /\ data m h = Ok d
  end.

Lemma hold_waiting l h ds : hold l h ds -> waiting_data l h = ds.
Proof. unfold waiting_data. intros Hl. induction Hl as [|m d l ds Hd Hl IH]; [done|]. cbn. rewrite Hd. by f_equal. Qed.

(** The socket as promised, whatever the pipes are. *)
Definition xpub_like (ty : Z) (x : xpub_t) (s : pub_state) : Prop :=
  type_ x = ty /\ (exists w, world_of w s) /\ forall w, world_of w s -> xpub_rel x s w.

Lemma rel_like x s w : xpub_rel x s w -> xpub_like (type_ x) x s.
Proof.
  intros [Hd Hf [Hw Hwa] Ht Hm Hi Hk Hp Hv]. split; [done|]. split; [exists w; split; [done|]; intros q Hq; by apply Hwa, Hf|].
  intros w' [Hw' Hatt]. split; try done. split; [done|]. intros q Hq. by apply Hatt, Hf.
Qed.

Lemma joined_rel x s w w' d p : xpub_rel x s w -> dist_ok d -> Dist.more_parts d = Dist.more_parts (dist x) -> matching d = matching (dist x) -> world_of w' (joining p s) ->
  classes d (<[p := if Dist.more_parts (dist x) then Eligible else Active]> (classes_of s)) -> xpub_rel (with_dist d x) (joining p s) w'.
Proof.
  intros [Hd Hf Hw Ht [Hm Hm'] Hi Hk Hp Hv] Hd' Hmore Hmat [Hw' Hatt] Hc. rewrite Hm' in *. split; try done.
  - split; [done|]. intros q Hq. by apply Hatt, Hc.
  - cbn. rewrite Hmat. done.
  - intros k X q HX Hq. cbn. destruct (decide (q = p)) as [->|]; [rewrite lookup_insert_eq; by eexists|]. rewrite lookup_insert_ne by done. by apply (Hk k X).
Qed.

Lemma all_topics_rel x s w p : xpub_rel x s w -> is_Some (classes_of s !! p) ->
  exists b t, add [] p (subscriptions x) = Ok (b, t) /\ xpub_rel (with_subscriptions t x) (all_topics p s) w.
Proof.
  intros [Hd Hf Hw Ht Hm Hi Hk Hpe Hv] Hp. pose proof (mtrie_perform_promised (Add [] p) _ _ Ht) as HP. cbn [perform promised keeps] in HP.
  destruct HP as (t & E & Ht'). destruct (add [] p (subscriptions x)) as [[b t1]| |]; try discriminate. cbn [obind] in E. injection E as _ ->.
  exists b, t. split; [done|]. split; try done. intros k X q HX Hq. apply (known_kept (topics_of s) (topics_of (all_topics p s)) _ Hk) with k X; [|done|done].
  clear k X q HX Hq. intros k X q HX Hq. destruct (promised_known (Add [] p) (topics_of s) _ _ p eq_refl ltac:(right; by eexists) k X q HX Hq) as [?| ->]; auto.
Qed.

Lemma attach_matching p d d' : Dist.attach p d = Ok d' -> matching d' = matching d.
Proof. unfold Dist.attach. destruct (Dist.more_parts d); (destruct (swap _ _ _); [|done..]); cbn [obind]; by intros [= <-]. Qed.

Lemma activated_matching p d d' : Dist.activated p d = Ok d' -> matching d' = matching d.
Proof.
  unfold Dist.activated. destruct (swap _ _ _); [|done..]. cbn [obind]. destruct (Dist.more_parts d); [by intros [= <-]|].
  destruct (swap _ _ _); [|done..]. cbn [obind]. by intros [= <-].
Qed.

Lemma terminated_matching p d d' : Dist.terminated p d = Ok d' -> matching d = 0 -> 0 <= index (pipes d) p -> matching d' = 0.
Proof.
  unfold Dist.terminated. intros E Hm Hi. revert E. rewrite Hm. destruct (Z.ltb_spec (index (pipes d) p) 0); [lia|].
  destruct (erase _ _); [|done..]. cbn [obind]. by intros [= <-].
Qed.

Lemma world_less w s s' : (forall q, is_Some (classes_of s !! q) -> is_Some (classes_of s' !! q)) -> world_of w s' -> world_of w s.
Proof. intros Hs [Hw Hatt]. split; [done|]. intros q Hq. by apply Hatt, Hs. Qed.

Lemma joining_more p s q : is_Some (classes_of s !! q) -> is_Some (classes_of (joining p s) !! q).
Proof. cbn. destruct (decide (q = p)) as [->|]; [rewrite lookup_insert_eq; by eexists|by rewrite lookup_insert_ne]. Qed.

Lemma joined_like ty x s d p : xpub_like ty x s -> dist_ok d -> Dist.more_parts d = Dist.more_parts (dist x) -> matching d = matching (dist x) ->
  (exists w, world_of w (joining p s)) -> classes d (<[p := if Dist.more_parts (dist x) then Eligible else Active]> (classes_of s)) -> xpub_like ty (with_dist d x) (joining p s).
Proof.
  intros (Hty & _ & Hx) Hd Hmore Hmat Hex Hc. split; [done|]. split; [done|]. intros w Hw. apply (joined_rel x s w w); try done. apply Hx. apply (world_less w s (joining p s)); [|done]. apply joining_more.
Qed.

Lemma run_reads ty p x s w h : xpub_like ty x s -> is_Some (classes_of s !! p) -> world_of w s -> subs_ready w p h ->
  as_promised (promised_subscriptions ty (waiting_data (inbox w p) h) p s) (xpub_like ty)
    (let! (x, _, _) := xread_activated (read_fuel w p) p x w h in Ok x).
Proof.
  intros (<- & _ & Hx) Hp Hw (hs & ds & Hds & Hb & Hfew). rewrite (hold_waiting _ _ _ Hds).
  pose proof (xread_activated_ok p (read_fuel w p) (inbox w p) ds hs x s w h (Hx w Hw) Hp eq_refl Hds Hb Hfew) as HR.
  destruct (promised_subscriptions (type_ x) ds p s) as [s'| |why]; cbn [as_promised] in *; [|by apply HR; unfold read_fuel; lia|by rewrite HR by (unfold read_fuel; lia)].
  destruct HR as ([[x' w'] h'] & -> & Hr & Ety & _); [unfold read_fuel; lia|]. cbn [obind]. exists x'. split; [done|]. rewrite <- Ety. by eapply rel_like.
Qed.

Lemma send_unsubscriptions ds : forall x, fold_left (fun x d => send_unsubscription d x) ds x
  = with_pending (if type_ x =? ZMQ_PUB then pending x else pending x ++ map (cons (chr 0)) ds) x.
Proof.
  assert (Hx : forall x l, l = pending x -> x = with_pending l x) by (by intros [] ? ->).
  induction ds as [|d ds IH]; intros x; cbn [fold_left map].
  - apply Hx. destruct (type_ x =? ZMQ_PUB); [done|by rewrite app_nil_r].
  - rewrite IH. unfold send_unsubscription. destruct (type_ x =? ZMQ_PUB) eqn:E; cbn [negb]; [by rewrite E|]. cbn. rewrite E. unfold with_pending. cbn.
    by rewrite <- app_assoc.
Qed.

Lemma without_known p M k X q : without p M !! k = Some X -> q ∈ X -> q <> p /\ exists X', M !! k = Some X' /\ q ∈ X'.
Proof.
  unfold without. rewrite lookup_omap. destruct (M !! k) as [Y|]; [|done]. cbn. unfold erase_pipe. case_decide; [done|]. intros [= <-] [Hq Hne]%elem_of_difference.
  split; [|by exists Y]. intros ->. by apply Hne, elem_of_singleton.
Qed.

Lemma run_terminated ty p x s : xpub_like ty x s -> (exists c, classes_of s !! p = Some c /\ hindmost c (classes_of s)) ->
  exists x', xterminated p x = Ok x' /\ xpub_like ty x' (promised_leave ty p s).
Proof.
  intros (<- & [w0 Hw0] & Hx) (c & Hp & Hc). pose proof (Hx w0 Hw0) as [Hd Hf _ Ht [Hm Hm'] Hi Hk Hpe Hv]. unfold xterminated.
  pose proof (mtrie_perform_promised (RmPipe p) _ _ Ht) as HP. cbn [perform promised keeps] in HP. destruct HP as (t & E & Ht').
  destruct (rm_pipe p (subscriptions x)) as [[gone t1]| |]; try discriminate. cbn [obind] in E. injection E as -> ->. cbn [obind].
  rewrite send_unsubscriptions. destruct (terminated_ok p (dist x) (classes_of s) c Hd Hf Hp Hc) as (d' & E & Hd' & Hmore & Hf'). cbn [dist with_subscriptions with_pending] in *.
  rewrite E. cbn [obind]. eexists. split; [reflexivity|]. split; [done|]. split.
  { exists w0. destruct Hw0 as [Hw0 Hatt]. split; [done|]. intros q Hq. cbn in Hq. apply lookup_delete_is_Some in Hq as [_ Hq]. by apply Hatt. }
  intros w [Hw Hatt]. split; try done.
  - split; [done|]. intros q Hq. by apply Hatt, Hf'.
  - split; [done|]. cbn. by rewrite Hmore.
  - cbn. intros Him. apply (terminated_matching p (dist x) d' E); [by apply Hi|]. destruct (classes_lookup _ _ p (dist_array _ Hd) Hf ltac:(by eexists)) as [Hh _].
    by apply holds_range in Hh as [? _].
  - intros k X q HX Hq. cbn in *. destruct (without_known p _ k X q HX Hq) as [Hne (X' & HX' & Hq')]. rewrite lookup_delete_ne by done. by apply (Hk k X').
  - cbn. by rewrite Hpe.
Qed.

Lemma run_xpub_ok ty o x s : xpub_like ty x s -> xpub_legal o s -> as_promised (promised_op ty o s) (xpub_like ty) (run_xpub o x).
Proof.
  intros Hx Hl. pose proof Hx as (Hty & [w0 Hw0] & Hall). pose proof (Hall w0 Hw0) as [Hd Hf _ _ [Hm Hm'] _ _ Hpe Hv].
  destruct o as [p all w h|p w h|p|p|v|m w h]; cbn [run_xpub promised_op xpub_legal] in *.
  - destruct Hl as (Hp & Hs & Hw & Hatt & Hsubs). unfold xattach_pipe.
    destruct (attach_ok p (dist x) (classes_of s) Hd Hf Hp) as (d' & E & Hd' & Hmore & Hc); [by rewrite (classes_size _ _ Hd Hf)|]. rewrite E. cbn [obind].
    assert (Hjoin : xpub_like ty (with_dist d' x) (joining p s)).
    { apply joined_like; try done; [by apply (attach_matching p)|]. exists w. split; [apply Hw|]. intros q Hq. destruct (decide (q = p)) as [->|Hne]; [done|].
      cbn in Hq. rewrite lookup_insert_ne in Hq by done. by apply Hw. }
    assert (Hpj : is_Some (classes_of (joining p s) !! p)) by (cbn; rewrite lookup_insert_eq; by eexists).
    assert (Hwj : world_of w (joining p s)).
    { split; [apply Hw|]. intros q Hq. destruct (decide (q = p)) as [->|Hne]; [done|]. cbn in Hq. rewrite lookup_insert_ne in Hq by done. by apply Hw. }
    destruct all; [|by apply run_reads]. destruct Hjoin as (Hty' & _ & Hj). destruct (all_topics_rel _ _ w p (Hj w Hwj) Hpj) as (b & t & Ea & Hr).
    cbn [subscriptions with_dist] in *. rewrite Ea. cbn [obind]. apply run_reads; [|done..]. destruct (rel_like _ _ w Hr) as [_ HL]. by split.
  - destruct Hl as (Hp & Hw & Hsubs). by apply run_reads.
  - unfold xwrite_activated. destruct (activated_ok p (dist x) (classes_of s) Hd Hf Hl) as (d' & E & Hd' & Hmore & Hc). rewrite E. cbn [obind].
    eexists. split; [reflexivity|]. apply joined_like; try done; [by apply (activated_matching p)|]. exists w0. destruct Hw0 as [Hw0 Hatt]. split; [done|].
    intros q Hq. apply Hatt. destruct (decide (q = p)) as [->|Hne]; [by eexists|]. cbn in Hq. by rewrite lookup_insert_ne in Hq.
  - by apply run_terminated.
  - eexists. split; [reflexivity|]. unfold xsetsockopt. rewrite Z.eqb_refl. cbn [negb orb]. destruct (Z.ltb_spec v 0); [lia|]. cbn [snd].
    split; [done|]. split; [by exists w0|]. intros w Hw. destruct (Hall w Hw) as [Hd1 Hf1 Hw1 Ht1 Hm1 Hi1 Hk1 Hp1 Hv1]. by split.
  - destruct Hl as (Hw & hs & d & Hr & Hdata). rewrite Hdata. destruct (xsend_ok m hs d s x w h (Hall w Hw) Hr) as (m' & n & x' & w' & h' & E & Hr' & Ety & _).
    rewrite E. cbn [obind as_promised]. exists x'. split; [done|]. rewrite <- Hty, <- Ety. by apply (rel_like _ _ w').
Qed.

Fixpoint run_xpubs (os : list xpub_op) (x : xpub_t) : outcome xpub_t :=
  match os with [] => Ok x | o :: os' => let! x := run_xpub o x in run_xpubs os' x end.

Fixpoint promised_ops (ty : Z) (os : list xpub_op) (s : pub_state) : outcome pub_state :=
  match os with [] => Ok s | o :: os' => let! s := promised_op ty o s in promised_ops ty os' s end.

Fixpoint xpub_legals (ty : Z) (os : list xpub_op) (s : pub_state) : Prop :=
  match os with [] => True | o :: os' => xpub_legal o s /\ match promised_op ty o s with Ok s => xpub_legals ty os' s | _ => True end end.

Lemma run_xpubs_ok ty os : forall x s, xpub_like ty x s -> xpub_legals ty os s -> as_promised (promised_ops ty os s) (xpub_like ty) (run_xpubs os x).
Proof.
  induction os as [|o os IH]; intros x s Hx Hl; [by exists x|]. destruct Hl as [Ho Hl]. cbn [run_xpubs promised_ops].
  pose proof (run_xpub_ok ty o x s Hx Ho) as HP. destruct (promised_op ty o s) as [s1| |why]; cbn [as_promised obind] in *; [|done|by rewrite HP].
  destruct HP as (x1 & -> & Hx1). cbn [obind]. by apply IH.
Qed.

Lemma new_like ty w : pipes_ok w -> xpub_like ty (mkXpub ty new_mtrie new_dist false false []) no_subscribers.
Proof.
  intros Hw. split; [done|]. split; [exists w; split; [done|]; intros q Hq; cbn in Hq; by apply lookup_empty_is_Some in Hq|].
  intros w' [Hw' _]. destruct new_dist_ok as [Hd Hf]. split; try done; [|apply mtrie_represents_new].
  split; [done|]. intros q Hq. by apply elem_of_nil in Hq.
Qed.
End Publishing.


(** C13: a message is published whole.  Between two messages, all parts of the
    next one, in their order and behind what was written before, are given to
    every active pipe that takes its first part and has a subscription that is a
    prefix of the data of the first part; no other pipe gets any part.  A pipe with
    a subscription that does not take the first part is passive afterwards, the
    others keep their class, and the socket is ready for the next message.  The
    references to the contents are as many as the copies. *)
Theorem xpub_delivers {W} `{PipeLaws W} parts last hs d s x w h :
  xpub_rel x s w -> in_message s = false -> Forall (fun m => has_flag more m = true) parts -> has_flag more last = false ->
  Forall (fun m => check m = true) (parts ++ [last]) -> balanced ((parts ++ [last]) ++ hs) h ->
  Z.of_nat (length (parts ++ [last]) * (1 + base.size (classes_of s)) + length hs) < 2 ^ 32 ->
  (forall m rest, parts ++ [last] = m :: rest -> data m h = Ok d) ->
  exists parts' x' s' w' h' ns, xsends (parts ++ [last]) x w h = Ok (x', w', h') /\ Forall2 same_part (parts ++ [last]) parts'
    /\ xpub_rel x' s' w' /\ in_message s' = false /\ topics_of s' = topics_of s
    /\ (forall q c, classes_of s !! q = Some c ->
        if decide (q ∈ subscribers (topics_of s) d /\ c = Active)
        then if taking w q then outbox w' q = outbox w q ++ parts' /\ classes_of s' !! q = Some Active
             else outbox w' q = outbox w q /\ classes_of s' !! q = Some Passive
        else outbox w' q = outbox w q /\ classes_of s' !! q = Some c)
    /\ balanced (concat (zip_with replicate ns parts') ++ hs) h'.
Proof.
  intros Hr Hi Hall Hlast Hck Hb Hn Hd.
  destruct (xsends_ok last parts Hlast hs d s x w h Hr Hall Hck Hb Hn ltac:(done)) as (parts' & x' & s' & w' & h' & E & Hr' & Hsm & -> & Hbox & ns & Hbal).
  eexists parts', x', _, w', h', ns. split; [done|]. split; [done|]. split; [exact Hr'|]. split; [done|]. split; [done|]. split; [|done].
  intros q c Hq. destruct (Hbox q ltac:(by eexists)) as [_ Ho]. pose proof Hr as [Hdo Hfo _ _ [_ Hm'] Hidle _ _ _]. rewrite Hi in Hm'.
  pose proof (idle_no_eligible _ _ q c Hdo Hfo Hm' Hq) as Hne. assert (Hnm : c <> Matching) by (intros ->; by apply (idle_no_matching _ _ q Hdo Hfo (Hidle Hi))).
  assert (Em : matched d s !! q = Some (mark (subscribers (topics_of s) d) q c)) by (unfold matched; rewrite Hi, marked_lookup, Hq; done).
  unfold receives in Ho. rewrite Em in Ho. cbn [classes_of]. unfold after_message. rewrite !lookup_fmap, refused_lookup, Em.
  generalize dependent (subscribers (topics_of s) d). intros S Ho Em. cbn [fmap option_fmap option_map]. unfold mark, refuse in *. clear Em.
  case_decide as Hc.
  - rewrite bool_decide_eq_true_2 in Ho by done. destruct Hc as [Hc ->].
    cbn [andb] in Ho. by destruct (taking w q).
  - rewrite bool_decide_eq_false_2 in Ho by congruence. rewrite decide_False by (by intros []). split; [done|]. by destruct c.
Qed.
