(* ===== verification/Listening.v ===== *)
(** * Receiving from pipes in turn

    What the receiving sockets share: the fair queue over the pipes of a socket,
    with the messages that wait in them.  [listening_recv] says what one message
    that is received changes. *)

From stdpp Require Import tactics gmap.
From S2P Require Import Prelude Msg MsgTheorems Array Pipes Rotation Fq FqTheorems.

(** ** Messages in a pipe *)

(** [m] and [rest] are the parts of one message, or its end. *)
Fixpoint parts_of (m : msg_t) (rest : list msg_t) : Prop :=
  match rest with
  | [] => has_flag more m = false
  | m' :: rest' => has_flag more m = true /\ parts_of m' rest'
  end.

(** What waits ends with the end of a message. *)
Definition ends_whole (l : list msg_t) : Prop := forall m, last l = Some m -> has_flag more m = false.

Lemma ends_whole_tail m l : ends_whole (m :: l) -> ends_whole l.
Proof. intros Hl x Hx. apply Hl. destruct l; [done|exact Hx]. Qed.

Lemma ends_whole_more m l : ends_whole (m :: l) -> has_flag more m = true -> l <> [].
Proof. intros Hl Hm ->. specialize (Hl m eq_refl). congruence. Qed.

Section Receiving.
Context {W : Type} `{PipeLaws W}.

Definition in_pipes (L : list Z) (w : W) : list msg_t := concat (map (inbox w) L).

Lemma in_pipes_elem L w q m : q ∈ L -> m ∈ inbox w q -> m ∈ in_pipes L w.
Proof.
  intros Hq Hm. unfold in_pipes. apply list_elem_of_In, in_concat. exists (inbox w q). split; [|by apply list_elem_of_In].
  apply in_map_iff. exists q. split; [done|by apply list_elem_of_In].
Qed.

#[export] Instance in_pipes_proper w : Proper ((≡ₚ) ==> (≡ₚ)) (fun L => in_pipes L w).
Proof. intros L L' HL. unfold in_pipes. induction HL; cbn; [done|by f_equiv| |by etrans]. rewrite !app_assoc. f_equiv. apply Permutation_app_comm. Qed.

(** The first messages of one pipe left. *)
Lemma in_pipes_drop L w w' q s : NoDup L -> q ∈ L -> inbox w q = s ++ inbox w' q -> (forall x, x ∈ L -> x <> q -> inbox w' x = inbox w x) ->
  in_pipes L w ≡ₚ s ++ in_pipes L w'.
Proof.
  intros Hnd Hq Hm Hoth. apply elem_of_Permutation in Hq as [L' HL]. pose proof Hnd as Hnd'. rewrite HL in Hnd'. apply NoDup_cons in Hnd' as [Hn _].
  rewrite (in_pipes_proper w _ _ HL), (in_pipes_proper w' _ _ HL). unfold in_pipes. cbn. rewrite Hm, <- app_assoc. f_equiv. f_equiv.
  replace (map (inbox w') L') with (map (inbox w) L'); [done|]. apply map_ext_in. intros x Hx. apply list_elem_of_In in Hx. symmetry. apply Hoth.
  - rewrite HL. by right.
  - by intros ->.
Qed.

Lemma in_pipes_read L w w' q m : NoDup L -> q ∈ L -> inbox w q = m :: inbox w' q -> (forall x, x ∈ L -> x <> q -> inbox w' x = inbox w x) ->
  in_pipes L w ≡ₚ m :: in_pipes L w'.
Proof. apply (in_pipes_drop L w w' q [m]). Qed.

Lemma inbox_length L w q : q ∈ L -> (length (inbox w q) <= length (in_pipes L w))%nat.
Proof.
  intros Hq. apply elem_of_Permutation in Hq as [L' HL]. pose proof (Permutation_length (in_pipes_proper w _ _ HL)) as Hl. cbn beta in Hl. rewrite Hl.
  unfold in_pipes. cbn. rewrite length_app. lia.
Qed.

Lemma in_pipes_same L w w' : (forall x, x ∈ L -> inbox w' x = inbox w x) -> in_pipes L w' = in_pipes L w.
Proof. intros HL. unfold in_pipes. f_equal. apply map_ext_in. intros x Hx. by apply HL, list_elem_of_In. Qed.

(** What the receiving loops rely on: the fair queue takes turns among the pipes
    [L]; the messages in them have data, end with the end of a message, and with
    [msg] and the messages [hs] elsewhere they are the owners of the contents. *)
Record sub_ready (msg : msg_t) (hs : list msg_t) (f : fq_t) (w : W) (h : memory) (L : list Z) : Prop := {
  sr_world : pipes_ok w /\ forall q, q ∈ L -> attached w q;
  sr_balanced : balanced (msg :: in_pipes L w ++ hs) h;
  sr_few : few (msg :: in_pipes L w ++ hs);
  sr_check : check msg = true;
  sr_data m : m ∈ in_pipes L w -> exists d, data m h = Ok d;
  sr_ends q : q ∈ L -> ends_whole (inbox w q);
  sr_whole : whole f w
}.

(** One message was received from [q]. *)
Record got (m : msg_t) (q : Z) (f f' : fq_t) (w w' : W) (L : list Z) : Prop := {
  got_in : q ∈ L;
  got_first : inbox w q = m :: inbox w' q;
  got_rest x : x ∈ L -> x <> q -> inbox w' x = inbox w x;
  got_from : Fq.more_parts f = true -> current_pipe (rot f) = Ok q;
  got_more : Fq.more_parts f' = has_flag more m;
  got_next : has_flag more m = true -> current_pipe (rot f') = Ok q
}.

(** The data in the pipes did not change. *)
Definition data_kept (L : list Z) (w : W) (h h' : memory) : Prop := forall m d, m ∈ in_pipes L w -> data m h = Ok d -> data m h' = Ok d.

Lemma settle_keeps t p k : waiting (W := W) t p = true -> forall A B, at_turn p k (A, B) ->
  p ∈ (settle (waiting t) (count (A, B)) (A, B)).1 ++ (settle (waiting t) (count (A, B)) (A, B)).2.
Proof. intros Hp A B Hk. destruct (settle_place (waiting t) p (count (A, B)) (A, B) k Hp Hk) as (k1 & _ & Hk1). by apply list_elem_of_lookup_2 in Hk1. Qed.

Lemma settle_subset ready fuel : forall t x, x ∈ (settle ready fuel t).1 ++ (settle ready fuel t).2 -> x ∈ t.1 ++ t.2.
Proof.
  induction fuel as [|fuel IH]; intros [[|a A] B] x; cbn [settle fst snd]; try done; destruct (ready a); try done.
  intros Hx%IH. cbn [app]. rewrite <- (skip_turn_perm a A B). by right.
Qed.

Lemma settle_ready ready fuel a A B : ready a = true -> settle ready fuel (a :: A, B) = (a :: A, B).
Proof. intros Ha. destruct fuel; cbn [settle fst]; by rewrite Ha. Qed.

Lemma recvpipe_ok msg hs f w h A B P : turn (rot f) A B P -> sub_ready msg hs f w h (A ++ B ++ P) ->
  exists rc m o f' w' h' A' B' P', recvpipe msg f w h = Ok (rc, m, o, f', w', h') /\ turn (rot f') A' B' P' /\ A ++ B ++ P ≡ₚ A' ++ B' ++ P'
    /\ sub_ready m hs f' w' h' (A ++ B ++ P) /\ data_kept (A ++ B ++ P) w h h'
    /\ (forall x, x ∈ A ++ B -> x ∈ A' ++ B' \/ inbox w x = [])
    /\ (rc = -1 /\ m = init /\ (forall x, x ∈ A ++ B ++ P -> inbox w' x = inbox w x) /\ (forall x, x ∈ A ++ B -> inbox w x = []) /\ Fq.more_parts f = false /\ Fq.more_parts f' = false
        \/ rc = 0 /\ exists q, o = Some q /\ q ∈ A ++ B /\ got m q f f' w w' (A ++ B ++ P)).
Proof.
  intros Ht [[Hw Hatt] Hb Hfew Hc Hdata Hends Hwh]. set (L := A ++ B ++ P) in *.
  destruct (close_ok msg _ h Hb Hfew Hc) as (h' & E & Hb' & _). unfold recvpipe. rewrite E. cbn [obind assertion]. rewrite Z.eqb_refl. cbn [obind assertion].
  rewrite (loop_fuel_count _ _ _ _ Ht).
  assert (Hfw : fq_world (rot f) w).
  { split; [done|]. intros q Hq. apply Hatt. apply (turn_member _ _ _ _ q Ht) in Hq. unfold L. rewrite !elem_of_app. tauto. }
  destruct (recv_loop_ok (count (A, B)) f w A B P Ht Hfw Hwh) as (o & f' & w' & P' & -> & Hr & Hperm & Hw' & Hatt'); [done|]. cbn [obind]. fold L in Hperm.
  assert (Hkept : data_kept L w h h') by (intros m d Hm; apply (close_data msg _ h _ _ h' m d Hb Hfew E), elem_of_app; by left).
  assert (Hact : forall x, x ∈ A ++ B -> x ∈ (settle (waiting w) (count (A, B)) (A, B)).1 ++ (settle (waiting w) (count (A, B)) (A, B)).2 \/ inbox w x = []).
  { intros x Hx. destruct (inbox w x) as [|y l] eqn:Ex; [by right|left]. apply list_elem_of_lookup in Hx as [k Hk].
    apply (settle_keeps w x k); [unfold waiting; by rewrite Ex|exact Hk]. }
  unfold received in Hr. pose proof (settle_none (waiting w) (count (A, B)) (A, B) (turn_none _ _ _ _ Ht)) as Hnone.
  assert (Hw2 : pipes_ok w' /\ forall q, q ∈ L -> attached w' q) by (split; [done|]; intros q Hq; by apply Hatt', Hatt).
  destruct (settle (waiting w) (count (A, B)) (A, B)) as [[|q A1] B1] eqn:Es; cbn [fst snd] in *.
  - rewrite (Hnone eq_refl) in *. destruct Hr as (-> & Hmore & Ht' & Hin). cbn [obind].
    assert (HinL : forall x, x ∈ L -> inbox w' x = inbox w x) by (intros x Hx; by apply Hin, Hatt).
    eexists (-1), init, None, f', w', h', [], [], P'. split; [reflexivity|]. split; [done|]. split; [done|]. split; [|split; [done|split; [done|left]]].
    + pose proof (in_pipes_same L w w' HinL) as Epi. split; rewrite ?Epi; try done.
      * intros m Hm. destruct (Hdata m Hm) as [d Hd]. exists d. by apply Hkept.
      * intros x Hx. rewrite HinL by done. by apply Hends.
      * intros E1. congruence.
    + split_and!; try done; [intros x Hx; destruct (Hact x Hx) as [Hx'|]; [by apply elem_of_nil in Hx'|done]|].
      destruct (Fq.more_parts f) eqn:Ef; [|done]. destruct (Hwh Ef) as (Hpos & y & Ey & Hy). exfalso.
      assert (HyA : y ∈ A ++ B).
      { apply (turn_idle _ _ _ _ Ht) in Hpos. destruct A as [|a A2]; [done|]. rewrite (turn_current_pipe _ _ _ _ _ Ht) in Ey. injection Ey as ->. by left. }
      destruct (Hact y HyA) as [Hy'|Hy']; [by apply elem_of_nil in Hy'|]. unfold waiting in Hy. by rewrite Hy' in Hy.
  - destruct Hr as (m & l & Eq & -> & El & Hoth & Hmore & Ht'). cbn [obind] in *. cbn zeta in Ht'.
    assert (HqL : q ∈ L) by (rewrite Hperm; by left).
    assert (Hrest : forall x, x ∈ L -> x <> q -> inbox w' x = inbox w x) by (intros x Hx Hne; apply Hoth; [by apply Hatt|done]).
    assert (HqAB : q ∈ A ++ B) by (apply (settle_subset (waiting w) (count (A, B)) (A, B)); rewrite Es; by left).
    assert (Hgot : got m q f f' w w' L).
    { split; try done; [by rewrite El| |].
      - intros Ef. destruct (Hwh Ef) as (Hpos & y & Ey & Hy). apply (turn_idle _ _ _ _ Ht) in Hpos. destruct A as [|a A2]; [done|].
        rewrite (turn_current_pipe _ _ _ _ _ Ht) in Ey |- *. injection Ey as ->. rewrite settle_ready in Es by done. congruence.
      - intros Hm. rewrite Hm in Ht'. by apply (turn_current_pipe _ _ A1 B1 P'). }
    set (t' := if has_flag more m then (q :: A1, B1) else next_turn (q :: A1, B1)) in *.
    assert (Hp' : (q :: A1) ++ B1 ≡ₚ t'.1 ++ t'.2) by (unfold t'; destruct (has_flag more m); [done|by rewrite (next_turn_perm (q :: A1, B1))]).
    eexists 0, m, (Some q), f', w', h', t'.1, t'.2, P'. split; [reflexivity|]. split; [done|].
    split; [by rewrite Hperm, app_assoc, Hp', <- app_assoc|]. split; [|split; [done|split; [intros x Hx; destruct (Hact x Hx) as [Hx'|]; [left; by rewrite <- Hp'|by right]|right; split; [done|exists q; split; [done|by split]]]]].
    assert (HL : NoDup L) by by eapply turn_nodup. pose proof (in_pipes_read L w w' q m HL HqL ltac:(by rewrite El) Hrest) as Hperm2.
    assert (Hsub : forall y, y ∈ in_pipes L w' -> y ∈ in_pipes L w) by (intros y Hy; rewrite Hperm2; by right).
    assert (Hm : m ∈ in_pipes L w) by (rewrite Hperm2; by left). split; try done.
    + by rewrite Hperm2 in Hb'.
    + unfold few in *. rewrite app_comm_cons, <- Hperm2. cbn [length] in Hfew. lia.
    + destruct (Hdata m Hm) as [d Hd]. unfold data in Hd. by destruct (check m).
    + intros y Hy. destruct (Hdata y (Hsub y Hy)) as [d Hd]. exists d. apply Hkept; [by apply Hsub|done].
    + intros x Hx. destruct (decide (x = q)) as [->|Hne]; [|rewrite Hrest by done; by apply Hends].
      rewrite El. apply (ends_whole_tail m). rewrite <- Eq. by apply Hends.
    + intros Hmf. rewrite Hmore in Hmf. split; [apply (turn_idle _ _ _ _ Ht'); unfold t'; by rewrite Hmf|]. exists q. split; [by apply Hgot|].
      unfold waiting. rewrite El. pose proof (ends_whole_more m l) as Hne. rewrite <- Eq in Hne. specialize (Hne (Hends q HqL) Hmf). by destruct l.
Qed.

Lemma sub_ready_perm msg hs f w h L L' : L ≡ₚ L' -> sub_ready msg hs f w h L -> sub_ready msg hs f w h L'.
Proof.
  intros HL [[Hw Hatt] Hb Hfew Hc Hdata Hends Hwh]. pose proof (in_pipes_proper w L L' HL) as Hp. cbn beta in Hp. split; try done.
  - split; [done|]. intros q. rewrite <- HL. apply Hatt.
  - by rewrite <- Hp.
  - unfold few in *. rewrite app_comm_cons in *. by rewrite <- Hp.
  - intros m. rewrite <- Hp. apply Hdata.
  - intros q. rewrite <- HL. apply Hends.
Qed.

(** The state of the loops: the turns of the pipes [L], and what is ready. *)
Definition listening (m : msg_t) (hs : list msg_t) (f : fq_t) (w : W) (h : memory) (t : turns) (L : list Z) : Prop :=
  (exists P, turn (rot f) t.1 t.2 P /\ t.1 ++ t.2 ++ P ≡ₚ L) /\ sub_ready m hs f w h L.

(** Pipes only lose messages, and what they keep has its data; a pipe stops being
    active only when it is empty. *)
Record heard (t t' : turns) (w w' : W) (h h' : memory) (L : list Z) : Prop := {
  heard_less m : m ∈ in_pipes L w' -> m ∈ in_pipes L w;
  heard_data m d : m ∈ in_pipes L w' -> data m h = Ok d -> data m h' = Ok d;
  heard_active x : x ∈ t.1 ++ t.2 -> x ∈ t'.1 ++ t'.2 \/ inbox w' x = [];
  heard_members x : x ∈ t.1 ++ t.2 -> x ∈ L
}.

Lemma heard_trans t t1 t2 w w1 w2 h h1 h2 L : heard t t1 w w1 h h1 L -> heard t1 t2 w1 w2 h1 h2 L ->
  (forall x, x ∈ L -> inbox w1 x = [] -> inbox w2 x = []) -> heard t t2 w w2 h h2 L.
Proof.
  intros [L1 D1 A1 M1] [L2 D2 A2 M2] He. split; [auto|auto| |done]. intros x Hx. destruct (A1 x Hx) as [Hx1|Hx1]; [by apply A2|right].
  apply He; [by apply M1|done].
Qed.

Lemma listening_recvpipe m hs f w h t L : listening m hs f w h t L ->
  exists rc m' o f' w' h' t', recvpipe m f w h = Ok (rc, m', o, f', w', h') /\ listening m' hs f' w' h' t' L /\ heard t t' w w' h h' L
    /\ (rc = -1 /\ m' = init /\ (forall x, x ∈ L -> inbox w' x = inbox w x) /\ (forall x, x ∈ t.1 ++ t.2 -> inbox w x = []) /\ Fq.more_parts f = false /\ Fq.more_parts f' = false
        \/ rc = 0 /\ exists q, o = Some q /\ q ∈ t.1 ++ t.2 /\ got m' q f f' w w' L /\ forall d, data m' h = Ok d -> data m' h' = Ok d).
Proof.
  destruct t as [A B]. intros [(P & Ht & HL) Hr]. cbn [fst snd] in *. pose proof (sub_ready_perm _ _ _ _ _ _ _ (symmetry HL) Hr) as Hr'.
  destruct (recvpipe_ok m hs f w h A B P Ht Hr') as (rc & m' & o & f' & w' & h' & A' & B' & P' & E & Ht' & Hp & Hs & Hk & Hact & Hcase).
  exists rc, m', o, f', w', h', (A', B'). split; [done|]. split; [split; [exists P'; split; [done|by rewrite <- Hp]|by apply (sub_ready_perm _ _ _ _ _ _ _ HL)]|].
  assert (Hpi : in_pipes (A ++ B ++ P) w ≡ₚ in_pipes L w) by (apply (in_pipes_proper w _ _ HL)).
  assert (HAB : forall x, x ∈ A ++ B -> x ∈ L) by (intros x Hx; rewrite <- HL, app_assoc; apply elem_of_app; by left).
  destruct Hcase as [(-> & -> & Hin & Hno & Hm & Hm')|(-> & q & Ho & Hq & Hg)].
  - assert (HinL : forall x, x ∈ L -> inbox w' x = inbox w x) by (intros x; rewrite <- HL; apply Hin). pose proof (in_pipes_same L w w' HinL) as Epi.
    split; [|left; by split_and!]. split; try done; cbn [fst snd].
    + by rewrite Epi.
    + intros y d. rewrite Epi, <- Hpi. apply Hk.
    + intros x Hx. right. rewrite HinL by by apply HAB. by apply Hno.
  - assert (Hg' : got m' q f f' w w' L).
    { destruct Hg as [G1 G2 G3 G4 G5 G6]. split; try done; [by rewrite <- HL|]. intros x. rewrite <- HL. apply G3. }
    assert (HLn : NoDup L) by (rewrite <- HL; by eapply turn_nodup).
    pose proof (in_pipes_read L w w' q m' HLn (got_in _ _ _ _ _ _ _ Hg') (got_first _ _ _ _ _ _ _ Hg') (got_rest _ _ _ _ _ _ _ Hg')) as Hperm.
    split; [|right; split; [done|]; exists q; split; [done|]; split; [done|]; split; [done|]; intros d Hd; apply Hk; [rewrite Hpi, Hperm; by left|done]]. split; cbn [fst snd].
    + intros y Hy. rewrite Hperm. by right.
    + intros y d Hy. apply Hk. rewrite Hpi, Hperm. by right.
    + intros x Hx. destruct (Hact x Hx) as [|He]; [by left|right]. destruct (decide (x = q)) as [->|Hne].
      * rewrite (got_first _ _ _ _ _ _ _ Hg') in He. done.
      * rewrite (got_rest _ _ _ _ _ _ _ Hg'); [done|by apply HAB|done].
    + done.
Qed.

Lemma listening_recv m hs f w h t L : listening m hs f w h t L ->
  exists rc m' f' w' h' t', recv m f w h = Ok (rc, m', f', w', h') /\ listening m' hs f' w' h' t' L /\ heard t t' w w' h h' L
    /\ (rc = -1 /\ m' = init /\ (forall x, x ∈ L -> inbox w' x = inbox w x) /\ (forall x, x ∈ t.1 ++ t.2 -> inbox w x = []) /\ Fq.more_parts f = false /\ Fq.more_parts f' = false
        \/ rc = 0 /\ exists q, q ∈ t.1 ++ t.2 /\ got m' q f f' w w' L /\ forall d, data m' h = Ok d -> data m' h' = Ok d).
Proof.
  intros Hl. destruct (listening_recvpipe m hs f w h t L Hl) as (rc & m' & o & f' & w' & h' & t' & E & Hl' & Hh & Hcase). exists rc, m', f', w', h', t'.
  unfold recv. rewrite E. split_and!; try done. destruct Hcase as [Hc|(-> & q & _ & Hq & Hg & Hd)]; [by left|]. right. split; [done|]. by exists q.
Qed.
End Receiving.
