(* ===== verification/Xsub.v ===== *)
(** * Subscribing sockets ([lib/zeromq/xsub.cpp], [sub.cpp])

    [xsub_t] counts its subscriptions in a trie, sends the new and the ended ones to
    its peers through a distributor, and receives through a fair queue; [sub_t] sets
    the filter, so that messages without a subscription are dropped, and turns its
    options into subscription messages. *)

From stdpp Require Import tactics gmap.
From S2P Require Import Prelude Trie Msg Array Pipes Rotation Fq Dist.

Definition ZMQ_SUBSCRIBE : Z := 6.
Definition ZMQ_UNSUBSCRIBE : Z := 7.

(** [filter] is [options.filter]; the distributor and the trie are named with their
    files. *)
Record xsub_t := mkXsub {
  fq : fq_t; dist : dist_t; subscriptions : trie_t;
  has_message : bool; message : msg_t; more_parts : bool; filter : bool
}.

Definition new_xsub : xsub_t := mkXsub new_fq new_dist new_trie false init false false.
Definition new_sub : xsub_t := mkXsub new_fq new_dist new_trie false init false true.

Definition with_fq (q : fq_t) (x : xsub_t) : xsub_t := mkXsub q (dist x) (subscriptions x) (has_message x) (message x) (more_parts x) (filter x).
Definition with_dist (d : dist_t) (x : xsub_t) : xsub_t := mkXsub (fq x) d (subscriptions x) (has_message x) (message x) (more_parts x) (filter x).
Definition with_subscriptions (t : trie_t) (x : xsub_t) : xsub_t := mkXsub (fq x) (dist x) t (has_message x) (message x) (more_parts x) (filter x).
Definition with_message (b : bool) (m : msg_t) (x : xsub_t) : xsub_t := mkXsub (fq x) (dist x) (subscriptions x) b m (more_parts x) (filter x).
Definition with_more (b : bool) (x : xsub_t) : xsub_t := mkXsub (fq x) (dist x) (subscriptions x) (has_message x) (message x) b (filter x).

(** The destructor closes [message]; those of the members follow in the reverse
    order of the members. *)
Definition destroy (x : xsub_t) (h : memory) : outcome memory :=
  let! (rc, _, h) := close (message x) h in
  let! _ := assertion (rc =? 0) "rc == 0" in
  let! _ := Trie.destroy (subscriptions x) in
  let! _ := Dist.destroy (dist x) in
  let! _ := Fq.destroy (fq x) in
  Ok h.

Definition xread_activated (pipe_ : Z) (x : xsub_t) : outcome xsub_t :=
  let! q := Fq.activated pipe_ (fq x) in Ok (with_fq q x).

Definition xwrite_activated (pipe_ : Z) (x : xsub_t) : outcome xsub_t :=
  let! d := Dist.activated pipe_ (dist x) in Ok (with_dist d x).

Definition xterminated (pipe_ : Z) (x : xsub_t) : outcome xsub_t :=
  let! q := Fq.terminated pipe_ (fq x) in
  let x := with_fq q x in
  let! d := Dist.terminated pipe_ (dist x) in
  Ok (with_dist d x).

(** [subscriptions.check (msg_->data (), msg_->size ())]. *)
Definition match_msg (msg_ : msg_t) (x : xsub_t) (h : memory) : outcome bool :=
  let! data_ := data msg_ h in Trie.check data_ (subscriptions x).

Section Socket.
Context {W : Type} `{PipeOps W}.
(** What [malloc] answers. *)
Variable available : Z -> bool.

(** A message with the data [d], which is written after [init_size]. *)
Definition make_msg (d : bytes) (h : memory) : outcome (msg_t * memory) :=
  let! o := init_size available (fun _ => d) (Z.of_nat (length d)) h in
  match o with Some r => Ok r | None => Aborted "rc == 0" end.

Definition send_subscription (data_ : bytes) (pipe : Z) (w : W) (h : memory) : outcome (W * memory) :=
  let! (msg, h) := make_msg (chr 1 :: data_) h in
  let! (sent, w) := pipe_write pipe msg w in
  if negb sent then let! (_, _, h) := close msg h in Ok (w, h) else Ok (w, h).

Fixpoint send_each (keys : list bytes) (pipe : Z) (w : W) (h : memory) : outcome (W * memory) :=
  match keys with
  | [] => Ok (w, h)
  | k :: keys' => let! (w, h) := send_subscription k pipe w h in send_each keys' pipe w h
  end.

(** [subscriptions.apply (send_subscription, pipe_)] and the flush. *)
Definition send_cached (pipe_ : Z) (x : xsub_t) (w : W) (h : memory) : outcome (W * memory) :=
  let! keys := Trie.apply (subscriptions x) in
  let! (w, h) := send_each keys pipe_ w h in
  let! w := pipe_flush pipe_ w in
  Ok (w, h).

Definition xattach_pipe (pipe_ : Z) (x : xsub_t) (w : W) (h : memory) : outcome (xsub_t * W * memory) :=
  let! q := Fq.attach pipe_ (fq x) in
  let! d := Dist.attach pipe_ (dist x) in
  let x := with_dist d (with_fq q x) in
  let! (w, h) := send_cached pipe_ x w h in
  Ok (x, w, h).

Definition xhiccuped (pipe_ : Z) (x : xsub_t) (w : W) (h : memory) : outcome (W * memory) := send_cached pipe_ x w h.

(** 0 and an empty message, or -1 ([EINVAL]) and the message as it is. *)
Definition xsend (msg_ : msg_t) (x : xsub_t) (w : W) (h : memory) : outcome (Z * msg_t * xsub_t * W * memory) :=
  let! data_ := data msg_ h in
  match data_ with
  | [] => Ok (-1, msg_, x, w, h)
  | c :: topic =>
      if negb (ord c =? 0) && negb (ord c =? 1) then Ok (-1, msg_, x, w, h)
      else
        let! (changed, t) := (if ord c =? 1 then Trie.add topic (subscriptions x) else Trie.rm topic (subscriptions x)) in
        let x := with_subscriptions t x in
        if changed then
          let! (m, d, w, h) := send_to_all msg_ (dist x) w h in
          Ok (0, m, with_dist d x, w, h)
        else
          let! (m, h) := close_init msg_ h in
          Ok (0, m, x, w, h)
  end.

Definition xhas_out (x : xsub_t) : bool := true.

(** ** Receiving *)

(** [while (msg_->flags () & msg_t::more) rc = fq.recv (msg_)]: the rest of a
    message is dropped. *)
Fixpoint drop_rest (fuel : nat) (msg_ : msg_t) (x : xsub_t) (w : W) (h : memory) : outcome (msg_t * xsub_t * W * memory) :=
  if negb (has_flag more msg_) then Ok (msg_, x, w, h)
  else
    match fuel with
    | O => OutOfFuel
    | S fuel' =>
        let! (rc, m, q, w, h) := Fq.recv msg_ (fq x) w h in
        let! _ := assertion (rc =? 0) "rc == 0" in
        drop_rest fuel' m (with_fq q x) w h
    end.

(** The loop of [xrecv]; the fuel is for both loops together. *)
Fixpoint xrecv_loop (fuel : nat) (msg_ : msg_t) (x : xsub_t) (w : W) (h : memory) : outcome (Z * msg_t * xsub_t * W * memory) :=
  match fuel with
  | O => OutOfFuel
  | S fuel' =>
      let! (rc, m, q, w, h) := Fq.recv msg_ (fq x) w h in
      let x := with_fq q x in
      if negb (rc =? 0) then Ok (-1, m, x, w, h)
      else
        let! pass := (if more_parts x then Ok true else if negb (filter x) then Ok true else match_msg m x h) in
        if pass then Ok (0, m, with_more (has_flag more m) x, w, h)
        else
          let! (m, x, w, h) := drop_rest fuel' m x w h in
          xrecv_loop fuel' m x w h
  end.

(** 0 and a message, or -1 ([EAGAIN]). *)
Definition xrecv (fuel : nat) (msg_ : msg_t) (x : xsub_t) (w : W) (h : memory) : outcome (Z * msg_t * xsub_t * W * memory) :=
  if has_message x then
    let! (rc, m, src, h) := move msg_ (message x) h in
    let! _ := assertion (rc =? 0) "rc == 0" in
    Ok (0, m, with_more (has_flag more m) (with_message false src x), w, h)
  else xrecv_loop fuel msg_ x w h.

(** The loop of [xhas_in]; the message is kept in [message]. *)
Fixpoint xhas_in_loop (fuel : nat) (x : xsub_t) (w : W) (h : memory) : outcome (bool * xsub_t * W * memory) :=
  match fuel with
  | O => OutOfFuel
  | S fuel' =>
      let! (rc, m, q, w, h) := Fq.recv (message x) (fq x) w h in
      let x := with_message (has_message x) m (with_fq q x) in
      if negb (rc =? 0) then Ok (false, x, w, h)
      else
        let! pass := (if negb (filter x) then Ok true else match_msg (message x) x h) in
        if pass then Ok (true, with_message true (message x) x, w, h)
        else
          let! (m, x, w, h) := drop_rest fuel' (message x) x w h in
          xhas_in_loop fuel' (with_message (has_message x) m x) w h
  end.

Definition xhas_in (fuel : nat) (x : xsub_t) (w : W) (h : memory) : outcome (bool * xsub_t * W * memory) :=
  if more_parts x then Ok (true, x, w, h)
  else if has_message x then Ok (true, x, w, h)
  else xhas_in_loop fuel x w h.

(** ** [sub_t] *)

(** The option's value is [optval_]; -1 is [EINVAL]. *)
Definition sub_xsetsockopt (option_ : Z) (optval_ : bytes) (x : xsub_t) (w : W) (h : memory) : outcome (Z * xsub_t * W * memory) :=
  if negb (option_ =? ZMQ_SUBSCRIBE) && negb (option_ =? ZMQ_UNSUBSCRIBE) then Ok (-1, x, w, h)
  else
    let! (msg, h) := make_msg ((if option_ =? ZMQ_SUBSCRIBE then chr 1 else chr 0) :: optval_) h in
    let! (rc, msg, x, w, h) := xsend msg x w h in
    let! (rc2, _, h) := close msg h in
    let! _ := assertion (rc2 =? 0) "rc2 == 0" in
    Ok (rc, x, w, h).

(** [sub_t::xsend]: always -1 ([ENOTSUP]). *)
Definition sub_xsend (msg_ : msg_t) (x : xsub_t) : Z * msg_t * xsub_t := (-1, msg_, x).
Definition sub_xhas_out (x : xsub_t) : bool := false.

End Socket.
