(* ===== verification/XsubTheorems.v ===== *)
(** * The subscribing sockets filter messages

    [xrecv] drops whole messages whose first part no subscription matches, and
    nothing else; [xhas_in] finds what the next [xrecv] returns. *)

From stdpp Require Import tactics gmap gmultiset.
From S2P Require Import Prelude ZmqTables Trie TrieTheorems Msg MsgTheorems Array Pipes Rotation Fq FqTheorems Listening Dist Xsub.

(** ** Dropped messages *)

(** Whole messages whose first part is unwanted. *)
Inductive dropped (unwanted : msg_t -> Prop) : list msg_t -> Prop :=
| dropped_none : dropped unwanted []
| dropped_message m rest l : unwanted m -> parts_of m rest -> dropped unwanted l -> dropped unwanted (m :: rest ++ l).

Lemma dropped_app U l l' : dropped U l -> dropped U l' -> dropped U (l ++ l').
Proof. intros Hl Hl'. induction Hl as [|m rest l Hm Hr Hl IH]; [done|]. cbn. rewrite <- app_assoc. by apply dropped_message. Qed.

Lemma dropped_impl (U U' : msg_t -> Prop) l : (forall m, m ∈ l -> U m -> U' m) -> dropped U l -> dropped U' l.
Proof.
  intros HU Hl. induction Hl as [|m rest l Hm Hr Hl IH]; [constructor|]. apply dropped_message; [apply HU; [by left|done]|done|].
  apply IH. intros y Hy. apply HU. right. apply elem_of_app. by right.
Qed.

(** No subscription matches the message. *)
Definition unwanted (M : gmultiset bytes) (h : memory) (m : msg_t) : Prop := exists d, data m h = Ok d /\ forall k, k ∈ M -> ~ k `prefix_of` d.

Section Receiving.
Context {W : Type} `{PipeLaws W}.

(** ** Dropping the rest of a message *)

Lemma drop_rest_ok hs L q : forall fuel m x w h t, listening m hs (fq x) w h t L -> q ∈ L -> Fq.more_parts (fq x) = has_flag more m ->
  (has_flag more m = true -> current_pipe (rot (fq x)) = Ok q) -> (length (inbox w q) <= fuel)%nat ->
  exists m' f' w' h' t' rest, drop_rest fuel m x w h = Ok (m', with_fq f' x, w', h') /\ listening m' hs f' w' h' t' L /\ heard t t' w w' h h' L
    /\ parts_of m rest /\ inbox w q = rest ++ inbox w' q /\ (forall y, y ∈ L -> y <> q -> inbox w' y = inbox w y) /\ Fq.more_parts f' = false.
Proof.
  induction fuel as [|fuel IH]; intros m x w h t Hl Hq Hmore Hcur Hf; cbn [drop_rest]; destruct (has_flag more m) eqn:Em; cbn [negb].
  1: { exfalso. destruct Hl as [_ Hr]. destruct (sr_whole _ _ _ _ _ _ Hr) as (_ & y & Ey & Hy); [done|]. rewrite (Hcur eq_refl) in Ey. injection Ey as <-.
    unfold waiting in Hy. destruct (inbox w q); [done|cbn in Hf; lia]. }
  1, 3: exists m, (fq x), w, h, t, []; (split; [by destruct x|]); (split; [done|]); (split; [|by split_and!]); (split; [done|done|by left|]);
    destruct t as [A B]; destruct Hl as [(P & _ & HL) _]; cbn [fst snd] in *; intros y Hy; rewrite <- HL, app_assoc; apply elem_of_app; by left.
  destruct (listening_recv m hs (fq x) w h t L Hl) as (rc & m1 & f1 & w1 & h1 & t1 & -> & Hl1 & Hh1 & Hcase). cbn [obind].
  destruct Hcase as [(_ & _ & _ & _ & Hno & _)|(-> & q1 & _ & Hg & _)]; [congruence|]. pose proof Hg as [G1 G2 G3 G4 G5 G6].
  rewrite (Hcur eq_refl) in G4. specialize (G4 Hmore). injection G4 as <-. change (0 =? 0) with true. cbn [assertion obind].
  destruct (IH m1 (with_fq f1 x) w1 h1 t1 Hl1 Hq G5 G6) as (m' & f' & w' & h' & t' & rest & -> & Hl' & Hh' & Hp & Hin & Hoth & Hm').
  { rewrite G2 in Hf. cbn in Hf. lia. }
  exists m', f', w', h', t', (m1 :: rest). split; [by destruct x|]. split; [done|]. split.
  - apply (heard_trans t t1 t' w w1 w' h h1 h' L Hh1 Hh'). intros y Hy Ey. destruct (decide (y = q)) as [->|Hne]; [|by rewrite Hoth].
    rewrite Ey in Hin. symmetry in Hin. by apply app_eq_nil in Hin as [_ ?].
  - split_and!; try done; [by rewrite G2, Hin|]. intros y Hy Hne. rewrite Hoth by done. by apply G3.
Qed.

(** ** The loop of [xrecv] *)

(** Unwanted messages were dropped from the pipe [y]. *)
Definition filtered (M : gmultiset bytes) (h : memory) (w w' : W) (y : Z) : Prop := exists s, inbox w y = s ++ inbox w' y /\ dropped (unwanted M h) s.

(** [m] came from the pipe [q], and before it unwanted messages were dropped. *)
Record passed (M : gmultiset bytes) (x : xsub_t) (m : msg_t) (q : Z) (h : memory) (w w' : W) (L : list Z) : Prop := {
  passed_from : q ∈ L;
  passed_first : exists s, inbox w q = s ++ m :: inbox w' q /\ dropped (unwanted M h) s;
  passed_others y : y ∈ L -> y <> q -> filtered M h w w' y;
  passed_wanted : more_parts x = true \/ filter x = false \/ exists d k, data m h = Ok d /\ k ∈ M /\ k `prefix_of` d;
  passed_rest : more_parts x = true -> current_pipe (rot (fq x)) = Ok q /\ inbox w q = m :: inbox w' q /\ forall y, y ∈ L -> y <> q -> inbox w' y = inbox w y
}.

Lemma data_before m hs f w h t t' w1 h1 L z d : listening m hs f w h t L -> heard t t' w w1 h h1 L -> z ∈ in_pipes L w1 -> data z h1 = Ok d -> data z h = Ok d.
Proof.
  intros [_ Hr] Hh Hz Hd. destruct (sr_data _ _ _ _ _ _ Hr z) as [d' Hd']; [by apply (heard_less _ _ _ _ _ _ _ Hh)|].
  pose proof (heard_data _ _ _ _ _ _ _ Hh z d' Hz Hd'). congruence.
Qed.

Lemma unwanted_before M m hs f w h t t' w1 h1 L y s : listening m hs f w h t L -> heard t t' w w1 h h1 L -> y ∈ L -> (forall z, z ∈ s -> z ∈ inbox w1 y) ->
  dropped (unwanted M h1) s -> dropped (unwanted M h) s.
Proof.
  intros Hl Hh Hy Hs. apply dropped_impl. intros z Hz (d & Hd & Hno). exists d. split; [|done].
  apply (data_before m hs f w h t t' w1 h1 L z d Hl Hh); [|done]. apply (in_pipes_elem L w1 y); auto.
Qed.

Lemma filtered_then M m hs f w h t t' w1 h1 w2 L y : listening m hs f w h t L -> heard t t' w w1 h h1 L -> y ∈ L ->
  filtered M h w w1 y -> filtered M h1 w1 w2 y -> filtered M h w w2 y.
Proof.
  intros Hl Hh Hy (s1 & E1 & H1) (s2 & E2 & H2). exists (s1 ++ s2). split; [by rewrite E1, E2, app_assoc|]. apply dropped_app; [done|].
  apply (unwanted_before M m hs f w h t t' w1 h1 L y s2 Hl Hh Hy); [|done]. intros z Hz. rewrite E2. apply elem_of_app. by left.
Qed.

Lemma match_msg_ok M m x h d : represents (subscriptions x) M -> data m h = Ok d ->
  exists b, match_msg m x h = Ok b /\ (b = true <-> exists k, k ∈ M /\ k `prefix_of` d).
Proof.
  intros Ht Hd. unfold match_msg. rewrite Hd. cbn [obind]. destruct (check_spec d _ (proj1 Ht)) as (b & -> & Hb). exists b. split; [done|]. rewrite Hb.
  split; intros (k & H1 & H2); exists k; by rewrite (represents_key _ M k Ht) in *.
Qed.

Lemma xrecv_loop_ok hs L M : forall fuel m x w h t, listening m hs (fq x) w h t L -> more_parts x = Fq.more_parts (fq x) -> represents (subscriptions x) M ->
  (length (in_pipes L w) < fuel)%nat ->
  exists rc m' f' b w' h' t', xrecv_loop fuel m x w h = Ok (rc, m', with_more b (with_fq f' x), w', h') /\ listening m' hs f' w' h' t' L /\ heard t t' w w' h h' L
    /\ b = Fq.more_parts f'
    /\ (rc = -1 /\ m' = init /\ more_parts x = false /\ b = false /\ (forall y, y ∈ L -> filtered M h w w' y) /\ (forall y, y ∈ t.1 ++ t.2 -> inbox w' y = [])
        \/ rc = 0 /\ b = has_flag more m' /\ exists q, passed M x m' q h w w' L).
Proof.
  induction fuel as [|fuel IH]; intros m x w h t Hl Hmp Ht Hf; [lia|]. cbn [xrecv_loop].
  destruct (listening_recv m hs (fq x) w h t L Hl) as (rc & m1 & f1 & w1 & h1 & t1 & -> & Hl1 & Hh1 & Hcase). cbn [obind].
  destruct Hcase as [(-> & -> & Hin & Hno & Hfm & Hfm')|(-> & q1 & _ & Hg & Hd1)]; cbn [Z.eqb negb].
  { exists (-1), init, f1, false, w1, h1, t1. split; [unfold with_more, with_fq; cbn; by rewrite Hmp, Hfm|]. split; [done|]. split; [done|].
    split; [done|]. left. split_and!; try done; [congruence|intros y Hy; exists []; split; [by rewrite Hin|constructor]|].
    intros y Hy. rewrite Hin; [by apply Hno|by apply (heard_members _ _ _ _ _ _ _ Hh1)]. }
  pose proof Hg as [G1 G2 G3 G4 G5 G6]. pose proof Hl as [Hturn Hr].
  destruct (sr_data _ _ _ _ _ _ Hr m1) as [d Hd]; [apply (in_pipes_elem L w q1); [done|]; rewrite G2; by left|].
  cbn [more_parts filter with_fq].
  assert (Hpass : (more_parts x = true \/ filter x = false \/ exists d k, data m1 h = Ok d /\ k ∈ M /\ k `prefix_of` d) -> passed M x m1 q1 h w w1 L).
  { intros Hwant. split; try done.
    - exists []. split; [done|constructor].
    - intros y Hy Hne. exists []. split; [by rewrite G3|constructor].
    - intros Hmx. split; [apply G4; congruence|]. by split. }
  assert (Hdone : (more_parts x = true \/ filter x = false \/ exists d k, data m1 h = Ok d /\ k ∈ M /\ k `prefix_of` d) ->
    exists rc m' f' b w' h' t', Ok (0, m1, with_more (has_flag more m1) (with_fq f1 x), w1, h1) = Ok (rc, m', with_more b (with_fq f' x), w', h') /\ listening m' hs f' w' h' t' L /\ heard t t' w w' h h' L
    /\ b = Fq.more_parts f'
    /\ (rc = -1 /\ m' = init /\ more_parts x = false /\ b = false /\ (forall y, y ∈ L -> filtered M h w w' y) /\ (forall y, y ∈ t.1 ++ t.2 -> inbox w' y = [])
        \/ rc = 0 /\ b = has_flag more m' /\ exists q, passed M x m' q h w w' L)).
  { intros Hwant. exists 0, m1, f1, (has_flag more m1), w1, h1, t1. split; [done|]. split; [done|]. split; [done|]. split; [done|]. right. split; [done|]. split; [done|].
    exists q1. by apply Hpass. }
  destruct (more_parts x) eqn:Emx; [cbn [obind]; apply Hdone; by left|]. destruct (filter x) eqn:Efx; cbn [negb]; [|cbn [obind]; apply Hdone; right; by left].
  destruct (match_msg_ok M m1 (with_fq f1 x) h1 d Ht (Hd1 d Hd)) as (b & -> & Hb). cbn [obind]. destruct b.
  { apply Hdone. right. right. destruct (proj1 Hb eq_refl) as (k & Hk & Hp). by exists d, k. }
  assert (Hunw : unwanted M h m1).
  { exists d. split; [done|]. intros k Hk Hp. assert (Hx : false = true) by (apply Hb; by exists k). done. }
  assert (HLn : NoDup L) by (destruct Hturn as (P & HtP & HP); rewrite <- HP; by eapply turn_nodup).
  pose proof (in_pipes_read L w w1 q1 m1 HLn G1 G2 G3) as Hperm.
  destruct (drop_rest_ok hs L q1 fuel m1 (with_fq f1 x) w1 h1 t1 Hl1 G1 G5 G6) as (m2 & f2 & w2 & h2 & t2 & rest & -> & Hl2 & Hh2 & Hparts & Hin2 & Hoth2 & Hm2).
  { pose proof (inbox_length L w1 q1 G1). rewrite (Permutation_length Hperm) in Hf. cbn [length] in Hf. lia. }
  cbn [obind]. pose proof (in_pipes_drop L w1 w2 q1 rest HLn G1 Hin2 Hoth2) as Hperm2.
  destruct (IH m2 (with_fq f2 x) w2 h2 t2 Hl2) as (rc & m' & f' & b & w' & h' & t' & E & Hl' & Hh' & Hbf & Hres); [by cbn; rewrite Emx, Hm2|done| |].
  { rewrite (Permutation_length Hperm) in Hf. cbn [length] in Hf. rewrite (Permutation_length Hperm2), length_app in Hf. lia. }
  assert (Hless : forall y, y ∈ L -> inbox w1 y = [] -> inbox w2 y = []).
  { intros y Hy Ey. destruct (decide (y = q1)) as [->|Hne]; [|by rewrite Hoth2]. rewrite Ey in Hin2. symmetry in Hin2. by apply app_eq_nil in Hin2 as [_ ?]. }
  pose proof (heard_trans t t1 t2 w w1 w2 h h1 h2 L Hh1 Hh2 Hless) as H02.
  assert (Hf02 : forall y, y ∈ L -> filtered M h w w2 y).
  { intros y Hy. destruct (decide (y = q1)) as [->|Hne].
    - exists (m1 :: rest). split; [by rewrite G2, Hin2|]. rewrite <- (app_nil_r rest). apply dropped_message; [done|done|constructor].
    - exists []. split; [by rewrite Hoth2, G3|constructor]. }
  assert (Hless2 : forall y, y ∈ L -> inbox w2 y = [] -> inbox w' y = []).
  { intros y Hy Ey. assert (Hs : exists s, inbox w2 y = s ++ inbox w' y).
    { destruct Hres as [(_ & _ & _ & _ & Hall & _)|(_ & _ & q & [_ (s & Hs & _) Hoth _ _])]; [destruct (Hall y Hy) as (s & Hs & _); by exists s|].
      destruct (decide (y = q)) as [->|Hne]; [exists (s ++ [m']); by rewrite Hs, <- app_assoc|destruct (Hoth y Hy Hne) as (s' & Hs' & _); by exists s']. }
    destruct Hs as [s Hs]. rewrite Ey in Hs. symmetry in Hs. by apply app_eq_nil in Hs as [_ ?]. }
  exists rc, m', f', b, w', h', t'. split; [exact E|]. split; [done|]. split; [by apply (heard_trans t t2 t' w w2 w' h h2 h' L)|]. split; [done|].
  destruct Hres as [(-> & -> & _ & -> & Hall & Hempty)|(-> & -> & q & [P1 (s & Ps & Pd) P3 P4 _])]; [left|right].
  - split_and!; try done; [intros y Hy; by apply (filtered_then M m hs (fq x) w h t t2 w2 h2 w' L y Hl H02 Hy); auto|].
    intros y Hy. destruct (heard_active _ _ _ _ _ _ _ H02 y Hy) as [Hy2|Hy2]; [by apply Hempty|]. apply Hless2; [by apply (heard_members _ _ _ _ _ _ _ H02)|done].
  - split; [done|]. split; [done|]. exists q. assert (Hm' : m' ∈ in_pipes L w2) by (apply (in_pipes_elem L w2 q); [done|]; rewrite Ps; apply elem_of_app; right; by left).
    split; [done| | | |congruence].
    + destruct (Hf02 q P1) as (s0 & Es0 & Hs0). exists (s0 ++ s). split; [by rewrite Es0, Ps, app_assoc|]. apply dropped_app; [done|].
      apply (unwanted_before M m hs (fq x) w h t t2 w2 h2 L q s Hl H02 P1); [|done]. intros z Hz. rewrite Ps. apply elem_of_app. by left.
    + intros y Hy Hne. apply (filtered_then M m hs (fq x) w h t t2 w2 h2 w' L y Hl H02 Hy); [by apply Hf02|by apply P3].
    + destruct P4 as [|[|(d' & k & Hd' & Hk)]]; cbn in *; [congruence|congruence|]. right. right. exists d', k. split; [|done].
      by apply (data_before m hs (fq x) w h t t2 w2 h2 L m' d' Hl H02).
Qed.


(** ** The loop of [xhas_in] *)

Lemma drop_rest_frame b mm fuel : forall m x w h, drop_rest fuel m (with_message b mm x) w h
  = let! (m', x', w', h') := drop_rest fuel m x w h in Ok (m', with_message b mm x', w', h').
Proof.
  induction fuel as [|fuel IH]; intros m x w h; cbn [drop_rest]; destruct (negb (has_flag more m)); try done.
  cbn [fq with_message]. destruct (recv m (fq x) w h) as [[[[[rc m1] f1] w1] h1]| |]; try done. cbn [obind]. destruct (assertion _ _); try done. cbn [obind].
  apply (IH m1 (with_fq f1 x)).
Qed.

Lemma drop_rest_more fuel : forall m x w h, match drop_rest fuel m x w h with Ok (_, x', _, _) => more_parts x' = more_parts x /\ filter x' = filter x /\ subscriptions x' = subscriptions x | _ => True end.
Proof.
  induction fuel as [|fuel IH]; intros m x w h; cbn [drop_rest]; destruct (negb (has_flag more m)); try done.
  destruct (recv m (fq x) w h) as [[[[[rc m1] f1] w1] h1]| |]; try done. cbn [obind]. destruct (assertion _ _); try done. cbn [obind].
  apply (IH m1 (with_fq f1 x)).
Qed.

Lemma xhas_in_loop_eq b fuel : forall m x w h, more_parts x = false -> xhas_in_loop fuel (with_message b m x) w h
  = let! (rc, m', x', w', h') := xrecv_loop fuel m x w h in Ok (rc =? 0, with_message (b || (rc =? 0)) m' (with_more false x'), w', h').
Proof.
  induction fuel as [|fuel IH]; intros m x w h Hm; [done|]. cbn [xhas_in_loop xrecv_loop message fq with_message].
  destruct (recv m (fq x) w h) as [[[[[rc m1] f1] w1] h1]| |]; try done. cbn [obind has_message with_message with_fq more_parts filter].
  destruct (Z.eqb_spec rc 0) as [->|Hrc]; cbn [negb].
  2: { cbn. rewrite orb_false_r. unfold with_message, with_more. cbn. by rewrite Hm. }
  rewrite Hm. change (match_msg m1 (with_message b m1 (with_fq f1 (with_message b m x))) h1) with (match_msg m1 (with_fq f1 x) h1).
  set (pass := if negb (filter x) then Ok true else match_msg m1 (with_fq f1 x) h1).
  change (if negb (filter x) then Ok true else match_msg m1 (with_fq f1 x) h1) with pass. destruct pass as [[]| |]; try done; cbn [obind].
  - rewrite Z.eqb_refl, orb_true_r. unfold with_message, with_more, with_fq. cbn. by rewrite Hm.
  - change (with_message b m1 (with_fq f1 (with_message b m x))) with (with_message b m1 (with_fq f1 x)). rewrite drop_rest_frame.
    pose proof (drop_rest_more fuel m1 (with_fq f1 x) w1 h1) as Hd. destruct (drop_rest fuel m1 (with_fq f1 x) w1 h1) as [[[[m2 x2] w2] h2]| |]; try done. cbn [obind].
    destruct Hd as (Hd & _). change (with_message _ m2 (with_message b m1 x2)) with (with_message b m2 x2). apply IH. by rewrite Hd.
Qed.
End Receiving.

(** C15: a subscribing socket filters messages.  With as much fuel as there are
    messages in its pipes and one, [xrecv] returns.  When it returns a message,
    this was in a pipe behind whole messages that are dropped; it is the next part
    of the message that is being received (and then nothing is dropped), or the
    first part of a message with a subscription that is a prefix of its data, or
    the socket does not filter.  From the other pipes, too, only whole messages are
    dropped whose first part no subscription matches.  When it returns [EAGAIN],
    only such messages were dropped, and no active pipe has a message.  The loop
    drops a message to its last part, also when it comes from a pipe between
    others, and reads nothing that was freed. *)
Theorem xsub_filters {W} `{PipeLaws W} msg hs x w h t L M :
  listening msg hs (fq x) w h t L -> has_message x = false -> more_parts x = Fq.more_parts (fq x) -> represents (subscriptions x) M ->
  exists rc m f' b w' h' t', xrecv (Datatypes.S (length (in_pipes L w))) msg x w h = Ok (rc, m, with_more b (with_fq f' x), w', h')
    /\ listening m hs f' w' h' t' L /\ b = Fq.more_parts f'
    /\ (rc = -1 /\ m = init /\ b = false /\ (forall q, q ∈ L -> filtered M h w w' q) /\ (forall q, q ∈ t.1 ++ t.2 -> inbox w' q = [])
        \/ rc = 0 /\ b = has_flag more m /\ exists q, passed M x m q h w w' L).
Proof.
  intros Hl Hh Hm Ht. unfold xrecv. rewrite Hh.
  destruct (xrecv_loop_ok hs L M (Datatypes.S (length (in_pipes L w))) msg x w h t Hl Hm Ht ltac:(lia)) as (rc & m & f' & b & w' & h' & t' & E & Hl' & _ & Hb & Hres).
  exists rc, m, f', b, w', h', t'. split; [done|]. split; [done|]. split; [done|].
  destruct Hres as [(-> & -> & _ & Hb' & Ha & He)|Hres]; [left; by split_and!|by right].
Qed.

(** [xhas_in] is [xrecv] that keeps the message: it runs as [xrecv] would and
    answers whether there is a message, and the next [xrecv] returns this message
    without reading a pipe, with the flag [more] as [xrecv] would have set it. *)
Theorem xhas_in_prefetches {W} `{PipeOps W} fuel msg x w h :
  has_message x = false -> more_parts x = false ->
  xhas_in fuel x w h = (let! (rc, m, x', w', h') := xrecv fuel (message x) x w h in
                        Ok (rc =? 0, with_message (rc =? 0) m (with_more false x'), w', h'))
  /\ (forall m x' w' h' h'' closed, xrecv fuel (message x) x w h = Ok (0, m, x', w', h') -> check m = true -> close msg h' = Ok (0, closed, h'') ->
      xrecv fuel msg (with_message true m (with_more false x')) w' h' = Ok (0, m, with_more (has_flag more m) (with_message false init x'), w', h'')).
Proof.
  intros Hh Hm. split.
  - unfold xhas_in, xrecv. rewrite Hm, Hh. rewrite <- (xhas_in_loop_eq false fuel (message x) x w h Hm). f_equal. destruct x; cbn in *; by subst.
  - intros m x' w' h' h'' closed _ Hc Ec. unfold xrecv. cbn [has_message with_message]. unfold move. cbn [message with_message]. by rewrite Hc, Ec.
Qed.
