(* ===== verification/Req.v ===== *)
(** * Dealer and request sockets ([lib/zeromq/dealer.cpp], [req.cpp])

    [dealer_t] sends through a load balancer and receives through a fair queue.
    [req_t] is a dealer that sends a request and receives a reply in turn; both
    begin with an empty part, the bottom of the stack of addresses. *)

From stdpp Require Import tactics gmap.
From S2P Require Import Prelude Msg Array Pipes Rotation Fq Lb.

(** A result of the fair queue or of the load balancer, whose only error is
    [EAGAIN]. *)
Definition result_of (rc : Z) : result := if rc =? 0 then Done else EAGAIN.

(** ** [dealer_t] *)

Record dealer_t := mkDealer { fq : fq_t; lb : lb_t; prefetched : bool; prefetched_msg : msg_t }.

Definition new_dealer : dealer_t := mkDealer new_fq new_lb false init.

Definition with_fq (q : fq_t) (d : dealer_t) : dealer_t := mkDealer q (lb d) (prefetched d) (prefetched_msg d).
Definition with_lb (l : lb_t) (d : dealer_t) : dealer_t := mkDealer (fq d) l (prefetched d) (prefetched_msg d).
Definition with_prefetched (b : bool) (m : msg_t) (d : dealer_t) : dealer_t := mkDealer (fq d) (lb d) b m.

(** The destructor, and those of the members. *)
Definition destroy (d : dealer_t) (h : memory) : outcome memory :=
  let! (_, _, h) := close (prefetched_msg d) h in
  let! _ := Lb.destroy (lb d) in
  let! _ := Fq.destroy (fq d) in
  Ok h.

Definition xattach_pipe (pipe_ : Z) (d : dealer_t) : outcome dealer_t :=
  let! q := Fq.attach pipe_ (fq d) in
  let! l := Lb.attach pipe_ (lb d) in
  Ok (with_lb l (with_fq q d)).

Definition xread_activated (pipe_ : Z) (d : dealer_t) : outcome dealer_t :=
  let! q := Fq.activated pipe_ (fq d) in Ok (with_fq q d).

Definition xwrite_activated (pipe_ : Z) (d : dealer_t) : outcome dealer_t :=
  let! l := Lb.activated pipe_ (lb d) in Ok (with_lb l d).

Definition xterminated (pipe_ : Z) (d : dealer_t) : outcome dealer_t :=
  let! q := Fq.terminated pipe_ (fq d) in
  let! l := Lb.terminated pipe_ (lb d) in
  Ok (with_lb l (with_fq q d)).

Section Dealer.
Context {W : Type} `{PipeOps W}.

Definition dealer_xsend (msg_ : msg_t) (d : dealer_t) (w : W) (h : memory) : outcome (result * msg_t * dealer_t * W * memory) :=
  let! (rc, m, l, w, h) := Lb.send msg_ (lb d) w h in Ok (result_of rc, m, with_lb l d, w, h).

(** The loop of [xrecv]: identities are dropped.  The fuel is the number of
    messages that wait, and one. *)
Fixpoint skip_identities (fuel : nat) (msg_ : msg_t) (d : dealer_t) (w : W) (h : memory) : outcome (result * msg_t * dealer_t * W * memory) :=
  match fuel with
  | O => OutOfFuel
  | S fuel' =>
      let! (rc, m, q, w, h) := Fq.recv msg_ (fq d) w h in
      let d := with_fq q d in
      if negb (rc =? 0) then Ok (result_of rc, m, d, w, h)
      else if negb (has_flag identity m) then Ok (Done, m, d, w, h)
      else skip_identities fuel' m d w h
  end.

Definition dealer_xrecv (fuel : nat) (msg_ : msg_t) (d : dealer_t) (w : W) (h : memory) : outcome (result * msg_t * dealer_t * W * memory) :=
  if prefetched d then
    let! (rc, m, src, h) := move msg_ (prefetched_msg d) h in
    let! _ := assertion (rc =? 0) "rc == 0" in
    Ok (Done, m, with_prefetched false src d, w, h)
  else skip_identities fuel msg_ d w h.

Definition dealer_xhas_in (fuel : nat) (d : dealer_t) (w : W) (h : memory) : outcome (bool * dealer_t * W * memory) :=
  if prefetched d then Ok (true, d, w, h)
  else
    let! (r, m, d, w, h) := dealer_xrecv fuel (prefetched_msg d) d w h in
    match r with
    | EAGAIN => Ok (false, with_prefetched (prefetched d) m d, w, h)
    | _ => let! _ := assertion (bool_decide (r = Done)) "rc == 0" in Ok (true, with_prefetched true m d, w, h)
    end.

Definition dealer_xhas_out (d : dealer_t) (w : W) : outcome (bool * dealer_t * W) :=
  let! (b, l, w) := Lb.has_out (lb d) w in Ok (b, with_lb l d, w).

(** ** [req_t] *)

Record req_t := mkReq { dealer : dealer_t; receiving_reply : bool; message_begins : bool }.

Definition new_req : req_t := mkReq new_dealer false true.

Definition with_dealer (d : dealer_t) (x : req_t) : req_t := mkReq d (receiving_reply x) (message_begins x).

(** The empty part with which a request begins. *)
Definition bottom_part : msg_t := set_flags more init.

Definition req_xsend (msg_ : msg_t) (x : req_t) (w : W) (h : memory) : outcome (result * msg_t * req_t * W * memory) :=
  if receiving_reply x then Ok (EFSM, msg_, x, w, h)
  else
    let! (r, x, w, h) :=
      (if message_begins x then
        let! (r, _, d, w, h) := dealer_xsend bottom_part (dealer x) w h in
        Ok (r, mkReq d (receiving_reply x) (if bool_decide (r = Done) then false else message_begins x), w, h)
       else Ok (Done, x, w, h)) in
    if bool_decide (r <> Done) then Ok (r, msg_, x, w, h)
    else
      let parts_follow := has_flag more msg_ in
      let! (r, m, d, w, h) := dealer_xsend msg_ (dealer x) w h in
      let x := with_dealer d x in
      if bool_decide (r <> Done) then Ok (r, m, x, w, h)
      else Ok (Done, m, if negb parts_follow then mkReq (dealer x) true true else x, w, h).

(** A malformed reply is read to its end. *)
Fixpoint skip_reply (fuel : nat) (msg_ : msg_t) (d : dealer_t) (w : W) (h : memory) : outcome (msg_t * dealer_t * W * memory) :=
  match fuel with
  | O => OutOfFuel
  | S fuel' =>
      let! (r, m, d, w, h) := dealer_xrecv fuel' msg_ d w h in
      let! _ := assertion (bool_decide (r = Done)) "rc == 0" in
      if negb (has_flag more m) then Ok (m, d, w, h) else skip_reply fuel' m d w h
  end.

Definition req_xrecv (fuel : nat) (msg_ : msg_t) (x : req_t) (w : W) (h : memory) : outcome (result * msg_t * req_t * W * memory) :=
  if negb (receiving_reply x) then Ok (EFSM, msg_, x, w, h)
  else
    let! (r, m, x, w, h) :=
      (if message_begins x then
        let! (r, m, d, w, h) := dealer_xrecv fuel msg_ (dealer x) w h in
        let x := with_dealer d x in
        if bool_decide (r <> Done) then Ok (r, m, x, w, h)
        else
          let! n := Msg.size m h in
          if negb (has_flag more m) || negb (n =? 0) then
            let! (m, d, w, h) := skip_reply fuel m (dealer x) w h in
            let! (_, _, h) := close m h in
            Ok (EAGAIN, init, with_dealer d x, w, h)
          else Ok (Done, m, mkReq (dealer x) (receiving_reply x) false, w, h)
       else Ok (Done, msg_, x, w, h)) in
    if bool_decide (r <> Done) then Ok (r, m, x, w, h)
    else
      let! (r, m, d, w, h) := dealer_xrecv fuel m (dealer x) w h in
      let x := with_dealer d x in
      if bool_decide (r <> Done) then Ok (r, m, x, w, h)
      else Ok (Done, m, if negb (has_flag more m) then mkReq (dealer x) false true else x, w, h).

Definition req_xhas_in (fuel : nat) (x : req_t) (w : W) (h : memory) : outcome (bool * req_t * W * memory) :=
  if negb (receiving_reply x) then Ok (false, x, w, h)
  else let! (b, d, w, h) := dealer_xhas_in fuel (dealer x) w h in Ok (b, with_dealer d x, w, h).

Definition req_xhas_out (x : req_t) (w : W) : outcome (bool * req_t * W) :=
  if receiving_reply x then Ok (false, x, w)
  else let! (b, d, w) := dealer_xhas_out (dealer x) w in Ok (b, with_dealer d x, w).

End Dealer.

(** ** [req_session_t] *)

(** What the session expects from the peer. *)
Inductive session_state := s_identity | s_bottom | s_body.

Section Session.
Context {T : Type}.
(** [dealer_session_t::push_msg] on its own state. *)
Variable push : msg_t -> T -> outcome (result * msg_t * T).

Definition session_push_msg (msg_ : msg_t) (size_ : Z) (s : session_state) (t : T) : outcome (result * msg_t * session_state * T) :=
  let refused := Ok (EFAULT, msg_, s, t) in
  let pass (s : session_state) := let! (r, m, t) := push msg_ t in Ok (r, m, s, t) in
  match s with
  | s_bottom => if (flags_of msg_ =? more) && (size_ =? 0) then pass s_body else refused
  | s_body => if flags_of msg_ =? more then pass s_body else if flags_of msg_ =? 0 then pass s_bottom else refused
  | s_identity => if flags_of msg_ =? 0 then pass s_bottom else refused
  end.

Definition session_reset (s : session_state) : session_state := s_identity.

End Session.
