(* ===== verification/ReqTheorems.v ===== *)
(** * Requests and replies in turn

    [req_t] alternates between whole requests and whole replies; a request goes to
    one pipe, with the empty part in front; a reply is read without it. *)

From stdpp Require Import tactics gmap.
From S2P Require Import Prelude Msg MsgTheorems Array Pipes Rotation Fq FqTheorems Lb LbTheorems Listening Req.

(** ** The order of the calls *)

Section Calls.
Context {W : Type} `{PipeOps W}.

(** A call, with the pipes and the heap as they are then. *)
Inductive call := Send (m : msg_t) (w : W) (h : memory) | Recv (fuel : nat) (m : msg_t) (w : W) (h : memory).

(** What the user sees: a part was sent or received, with the flag [more], or the
    call failed. *)
Inductive seen := Sent (parts_follow : bool) | Got (parts_follow : bool) | Send_failed (e : result) | Recv_failed (e : result).

Definition run_call (c : call) (x : req_t) : outcome (seen * req_t) :=
  match c with
  | Send m w h =>
      let! (r, _, x, _, _) := req_xsend m x w h in
      Ok (if bool_decide (r = Done) then Sent (has_flag more m) else Send_failed r, x)
  | Recv fuel m w h =>
      let! (r, m, x, _, _) := req_xrecv fuel m x w h in
      Ok (if bool_decide (r = Done) then Got (has_flag more m) else Recv_failed r, x)
  end.

Fixpoint run_calls (cs : list call) (x : req_t) : outcome (list seen * req_t) :=
  match cs with
  | [] => Ok ([], x)
  | c :: cs' =>
      let! (s, x) := run_call c x in
      let! (ss, x) := run_calls cs' x in
      Ok (s :: ss, x)
  end.
End Calls.

(** The phases of the protocol: a request is sent, or a reply is received. *)
Inductive phase := Requesting | Replying.

Inductive protocol : phase -> list seen -> phase -> Prop :=
| protocol_nil p : protocol p [] p
| request_part ss p : protocol Requesting ss p -> protocol Requesting (Sent true :: ss) p
| request_end ss p : protocol Replying ss p -> protocol Requesting (Sent false :: ss) p
| reply_part ss p : protocol Replying ss p -> protocol Replying (Got true :: ss) p
| reply_end ss p : protocol Requesting ss p -> protocol Replying (Got false :: ss) p
| send_too_early ss p : protocol Replying ss p -> protocol Replying (Send_failed EFSM :: ss) p
| recv_too_early ss p : protocol Requesting ss p -> protocol Requesting (Recv_failed EFSM :: ss) p
| send_again ss p : protocol Requesting ss p -> protocol Requesting (Send_failed EAGAIN :: ss) p
| recv_again ss p : protocol Replying ss p -> protocol Replying (Recv_failed EAGAIN :: ss) p.

Definition phase_of (x : req_t) : phase := if receiving_reply x then Replying else Requesting.

Section Alternation.
Context {W : Type} `{PipeOps W}.

Lemma result_of_cases rc : result_of rc = Done \/ result_of rc = EAGAIN.
Proof. unfold result_of. destruct (rc =? 0); auto. Qed.

Lemma dealer_send_result m d (w : W) h : match dealer_xsend m d w h with Ok (r, _, _, _, _) => r = Done \/ r = EAGAIN | _ => True end.
Proof. unfold dealer_xsend. destruct (Lb.send m (lb d) w h) as [[[[[rc m1] l] w1] h1]| |]; [apply result_of_cases|done..]. Qed.

Lemma skip_result fuel : forall m d (w : W) h, match skip_identities fuel m d w h with Ok (r, _, _, _, _) => r = Done \/ r = EAGAIN | _ => True end.
Proof.
  induction fuel as [|fuel IH]; intros m d w h; [done|]. cbn [skip_identities].
  destruct (recv m (fq d) w h) as [[[[[rc m1] q] w1] h1]| |]; try done. cbn [obind]. destruct (negb (rc =? 0)); [apply result_of_cases|].
  destruct (negb (has_flag identity m1)); [by left|apply IH].
Qed.

Lemma dealer_recv_result fuel m d (w : W) h : match dealer_xrecv fuel m d w h with Ok (r, _, _, _, _) => r = Done \/ r = EAGAIN | _ => True end.
Proof.
  unfold dealer_xrecv. destruct (prefetched d); [|apply skip_result]. destruct (move _ _ _) as [[[[rc m1] src] h1]| |]; try done. cbn [obind].
  destruct (assertion _ _); try done. by left.
Qed.

(** A send and a receive as steps of the protocol. *)
Lemma send_step m x (w : W) h : match run_call (Send m w h) x with
  | Ok (s, x') => forall ss p, protocol (phase_of x') ss p -> protocol (phase_of x) (s :: ss) p
  | _ => True end.
Proof.
  cbn [run_call]. unfold req_xsend, phase_of. destruct (receiving_reply x) eqn:Er; [cbn; rewrite Er; by constructor|].
  set (first := if message_begins x then _ else _).
  assert (Hf : match first with Ok (r, x1, _, _) => receiving_reply x1 = false /\ (r = Done \/ r = EAGAIN) | _ => True end).
  { unfold first. destruct (message_begins x); [|by split; [|left]]. pose proof (dealer_send_result bottom_part (dealer x) w h) as Hs.
    destruct (dealer_xsend bottom_part (dealer x) w h) as [[[[[r m1] d1] w1] h1]| |]; try done. }
  destruct first as [[[[r x1] w1] h1]| |]; try done. destruct Hf as [Hx1 Hr]. cbn [obind].
  destruct (bool_decide_reflect (r <> Done)) as [Hne|He]; cbn [obind].
  { rewrite bool_decide_eq_false_2 by done. destruct Hr as [?| ->]; [done|]. rewrite Hx1. by constructor. }
  pose proof (dealer_send_result m (dealer x1) w1 h1) as Hs. destruct (dealer_xsend m (dealer x1) w1 h1) as [[[[[r2 m2] d2] w2] h2]| |]; try done. cbn [obind].
  destruct (bool_decide_reflect (r2 <> Done)) as [Hne2|He2]; cbn [obind].
  - rewrite bool_decide_eq_false_2 by done. destruct Hs as [?| ->]; [done|]. cbn. rewrite Hx1. by constructor.
  - cbn. destruct (has_flag more m); cbn; [rewrite Hx1|]; by constructor.
Qed.

Lemma recv_step fuel m x (w : W) h : match run_call (Recv fuel m w h) x with
  | Ok (s, x') => forall ss p, protocol (phase_of x') ss p -> protocol (phase_of x) (s :: ss) p
  | _ => True end.
Proof.
  cbn [run_call]. unfold req_xrecv, phase_of. destruct (receiving_reply x) eqn:Er; cbn [negb]; [|cbn; rewrite Er; by constructor].
  set (first := if message_begins x then _ else _).
  assert (Hf : match first with Ok (r, _, x1, _, _) => receiving_reply x1 = true /\ (r = Done \/ r = EAGAIN) | _ => True end).
  { unfold first. destruct (message_begins x); [|by split; [|left]]. pose proof (dealer_recv_result fuel m (dealer x) w h) as Hs.
    destruct (dealer_xrecv fuel m (dealer x) w h) as [[[[[r m1] d1] w1] h1]| |]; try done. cbn [obind]. destruct (bool_decide (r <> Done)); [done|].
    destruct (Msg.size m1 h1) as [n| |]; try done. cbn [obind]. destruct (_ || _); [|by split; [|left]].
    destruct (skip_reply _ _ _ _ _) as [[[[m2 d2] w2] h2]| |]; try done. cbn [obind]. destruct (close m2 h2) as [[[rc m3] h3]| |]; try done. by split; [|right]. }
  destruct first as [[[[[r m1] x1] w1] h1]| |]; try done. destruct Hf as [Hx1 Hr]. cbn [obind].
  destruct (bool_decide_reflect (r <> Done)) as [Hne|He]; cbn [obind].
  { rewrite bool_decide_eq_false_2 by done. destruct Hr as [?| ->]; [done|]. rewrite Hx1. by constructor. }
  pose proof (dealer_recv_result fuel m1 (dealer x1) w1 h1) as Hs. destruct (dealer_xrecv fuel m1 (dealer x1) w1 h1) as [[[[[r2 m2] d2] w2] h2]| |]; try done. cbn [obind].
  destruct (bool_decide_reflect (r2 <> Done)) as [Hne2|He2]; cbn [obind].
  - rewrite bool_decide_eq_false_2 by done. destruct Hs as [?| ->]; [done|]. cbn. rewrite Hx1. by constructor.
  - cbn. destruct (has_flag more m2); cbn; [rewrite Hx1|]; by constructor.
Qed.

Lemma run_calls_protocol cs : forall x, match run_calls (W := W) cs x with Ok (ss, x') => protocol (phase_of x) ss (phase_of x') | _ => True end.
Proof.
  induction cs as [|c cs IH]; intros x; [constructor|]. cbn [run_calls].
  assert (Hc : match run_call c x with Ok (s, x') => forall ss p, protocol (phase_of x') ss p -> protocol (phase_of x) (s :: ss) p | _ => True end)
    by (destruct c; [apply send_step|apply recv_step]).
  destruct (run_call c x) as [[s x1]| |]; try done. cbn [obind]. specialize (IH x1). destruct (run_calls cs x1) as [[ss x2]| |]; try done. cbn [obind]. by apply Hc.
Qed.
End Alternation.

(** ** A request *)

Section Requests.
Context {W : Type} `{PipeLaws W}.

(** The parts of a request, as long as they are taken. *)
Fixpoint req_sends (ms : list msg_t) (x : req_t) (w : W) (h : memory) : outcome (result * req_t * W * memory) :=
  match ms with
  | [] => Ok (Done, x, w, h)
  | m :: ms' =>
      let! (r, _, x, w, h) := req_xsend m x w h in
      if bool_decide (r <> Done) then Ok (r, x, w, h) else req_sends ms' x w h
  end.

Lemma lb_send_rc m l (w : W) h : match Lb.send m l w h with Ok (rc, _, _, _, _) => rc = 0 \/ rc = -1 | _ => True end.
Proof.
  unfold Lb.send. destruct (dropping l).
  - destruct (close m h) as [[[rc m1] h1]| |]; try done. cbn [obind]. destruct (assertion _ _); try done. by left.
  - destruct (send_loop _ _ _ _) as [[l1 w1]| |]; try done. cbn [obind]. destruct (_ =? 0); [by right|]. destruct (negb _); [|by left].
    destruct (current_pipe _) as [p| |]; try done. cbn [obind]. destruct (pipe_flush _ _); try done. by left.
Qed.

(** Behind the first part, a request is what the load balancer sends. *)
Lemma req_sends_mid last ms : has_flag more last = false -> forall x w h l' w' h', receiving_reply x = false -> message_begins x = false ->
  Forall (fun m => has_flag more m = true) ms -> send_parts (ms ++ [last]) (lb (dealer x)) w h = Ok (0, l', w', h') ->
  req_sends (ms ++ [last]) x w h = Ok (Done, mkReq (with_lb l' (dealer x)) true true, w', h').
Proof.
  intros Hlast. induction ms as [|m ms IH]; intros x w h l' w' h' Hr Hb Hall E; cbn [app req_sends send_parts] in *; unfold req_xsend, dealer_xsend; rewrite Hr, Hb; cbn [obind];
    rewrite (bool_decide_eq_false_2 (Done <> Done)) by auto.
  - pose proof (lb_send_rc last (lb (dealer x)) w h) as Hrc. destruct (Lb.send last (lb (dealer x)) w h) as [[[[[rc m1] l1] w1] h1]| |]; try done. cbn [obind] in *.
    destruct Hrc as [->| ->]; [|done]. change (0 <? 0) with false in E. cbn in E. injection E as -> -> ->. cbn. by rewrite Hlast.
  - apply Forall_cons in Hall as [Hm Hall]. pose proof (lb_send_rc m (lb (dealer x)) w h) as Hrc.
    destruct (Lb.send m (lb (dealer x)) w h) as [[[[[rc m1] l1] w1] h1]| |]; try done. cbn [obind] in *. destruct Hrc as [->| ->]; [|done].
    change (0 <? 0) with false in E. cbn. rewrite Hm. cbn. apply (IH (with_dealer (with_lb l1 (dealer x)) x) w1 h1 l' w' h'); done.
Qed.

(** A socket that may send a request. *)
Definition may_request (x : req_t) (w : W) : Prop :=
  receiving_reply x = false /\ message_begins x = true /\ Lb.more_parts (lb (dealer x)) = false /\ dropping (lb (dealer x)) = false
  /\ exists A B P, turn (rot (lb (dealer x))) A B P /\ lb_world (rot (lb (dealer x))) w.

Lemma req_sends_ok parts last x w h : may_request x w -> Forall (fun m => has_flag more m = true) parts -> has_flag more last = false ->
  exists r l' w', req_sends (parts ++ [last]) x w h = Ok (r, mkReq (with_lb l' (dealer x)) (bool_decide (r = Done)) true, w', h)
    /\ (r = EAGAIN /\ (forall q, attached w q -> outbox w' q = outbox w q)
        \/ r = Done /\ exists q, member (pipes (rot (lb (dealer x)))) q /\ arrived_at q (bottom_part :: parts ++ [last]) w w').
Proof.
  intros (Hr & Hb & Hmo & Hd & A & B & P & Ht & Hw) Hall Hlast. assert (Hst : steady (lb (dealer x)) bottom_part w) by (intros Hm; congruence).
  destruct (send_ok bottom_part (lb (dealer x)) w h A B P Ht Hw Hst Hd) as (k & rc & m' & l1 & w1 & P1 & E & Htak & _ & Hw1 & Hatt1 & Hres).
  assert (Ef : forall m ms, req_sends (m :: ms) x w h = match result_of rc with
      | Done => req_sends (m :: ms) (mkReq (with_lb l1 (dealer x)) false false) w1 h
      | r => Ok (r, mkReq (with_lb l1 (dealer x)) false true, w1, h) end).
  { intros m ms. cbn [req_sends]. unfold req_xsend at 1. rewrite Hr, Hb. unfold dealer_xsend at 1. rewrite E. cbn [obind].
    unfold result_of. destruct (rc =? 0); cbn; [|done]. unfold req_xsend. cbn. done. }
  destruct (skipped k (A, B)) as [[|q A'] B'].
  - destruct Hres as (-> & _ & _). exists EAGAIN, l1, w1. split; [|by left]. destruct (parts ++ [last]) as [|m ms] eqn:Ep; [by apply app_eq_nil in Ep as [_ ?]|]. by rewrite Ef.
  - destruct Hres as (-> & _ & Hm2 & Hd2 & [Ht' Hp] & Hgo). change (has_flag more bottom_part) with true in *. cbn iota zeta in Ht', Hp. cbn [fst snd] in *.
    destruct (Hgo eq_refl) as [_ Hgo2].
    assert (Hw1' : lb_world (rot l1) w1) by (exact (world_members _ _ _ _ _ _ _ _ _ _ Ht Ht' Hp Hw Hw1 Hatt1)).
    destruct (send_rest last h parts l1 w1 q A' B' P1 Ht' Hw1' Hm2 Hd2 Hgo2 Hall Hlast) as (l2 & w2 & E2 & Hmo2 & Harr).
    pose proof (req_sends_mid last parts Hlast (mkReq (with_lb l1 (dealer x)) false false) w1 h l2 w2 h eq_refl eq_refl Hall E2) as E3.
    exists Done, l2, w2. split.
    + destruct (parts ++ [last]) as [|m ms] eqn:Ep; [by apply app_eq_nil in Ep as [_ ?]|]. rewrite Ef. exact E3.
    + right. split; [done|]. exists q. split.
      * apply (turn_member _ _ _ _ q Ht). assert (Hin : q ∈ A ++ B ++ P) by (rewrite Hp; by left). rewrite !elem_of_app in Hin. tauto.
      * intros y Hy. rewrite (Harr y) by (by apply Hatt1). unfold taken in Htak. cbn [fst] in Htak. rewrite (Htak y Hy). case_bool_decide; [by rewrite <- app_assoc|done].
Qed.
End Requests.

(** ** A reply *)

Section Replies.
Context {W : Type} `{PipeLaws W}.

(** The parts that the user receives with [n] calls, the message being used again. *)
Fixpoint req_recvs (fuel n : nat) (m : msg_t) (x : req_t) (w : W) (h : memory) : outcome (list (result * msg_t) * req_t * W * memory) :=
  match n with
  | O => Ok ([], x, w, h)
  | S n' =>
      let! (r, m, x, w, h) := req_xrecv fuel m x w h in
      let! (l, x, w, h) := req_recvs fuel n' m x w h in
      Ok ((r, m) :: l, x, w, h)
  end.

(** Only the pipe [q] has messages, and it is active. *)
Definition only_from (q : Z) (t : turns) (w : W) (L : list Z) : Prop := q ∈ L /\ q ∈ t.1 ++ t.2 /\ forall y, y ∈ L -> y <> q -> inbox w y = [].

Lemma recv_only q m hs f w h t L m1 l : listening m hs f w h t L -> only_from q t w L -> inbox w q = m1 :: l ->
  exists f' w' h' t', recv m f w h = Ok (0, m1, f', w', h') /\ listening m1 hs f' w' h' t' L /\ inbox w' q = l /\ (l <> [] -> only_from q t' w' L)
    /\ forall z d, z ∈ m1 :: l -> data z h = Ok d -> data z h' = Ok d.
Proof.
  intros Hl (Hq & Ha & Hno) Ew. destruct (listening_recv m hs f w h t L Hl) as (rc & m' & f' & w' & h' & t' & E & Hl' & Hh & Hcase).
  destruct Hcase as [(_ & _ & _ & Hall & _)|(-> & q' & Hq' & [G1 G2 G3 _ _ _] & Hd)]; [by rewrite (Hall q Ha) in Ew|].
  assert (q' = q) as ->. { destruct (decide (q' = q)) as [|Hne]; [done|]. by rewrite (Hno q' G1 Hne) in G2. }
  rewrite Ew in G2. injection G2 as <- El. exists f', w', h', t'. split; [done|]. split; [done|]. split; [done|]. split.
  - intros Hne. split; [done|]. split; [destruct (heard_active _ _ _ _ _ _ _ Hh q Ha); [done|congruence]|]. intros y Hy Hyq. rewrite G3 by done. by apply Hno.
  - intros z d [->|Hz]%elem_of_cons; [by apply Hd|]. apply (heard_data _ _ _ _ _ _ _ Hh). apply (in_pipes_elem L w' q); [done|by rewrite <- El].
Qed.

(** A message of one part with the peer's identity. *)
Definition is_id (m : msg_t) : Prop := has_flag identity m = true.

Lemma skip_ids_ok q hs L m1 l ids : Forall is_id ids -> has_flag identity m1 = false -> forall fuel m d w h t, listening m hs (fq d) w h t L -> only_from q t w L ->
  inbox w q = ids ++ m1 :: l -> (length ids < fuel)%nat ->
  exists f' w' h' t', skip_identities fuel m d w h = Ok (Done, m1, with_fq f' d, w', h') /\ listening m1 hs f' w' h' t' L /\ inbox w' q = l /\ (l <> [] -> only_from q t' w' L)
    /\ forall z e, z ∈ m1 :: l -> data z h = Ok e -> data z h' = Ok e.
Proof.
  intros Hids Hm1. induction Hids as [|i ids Hi Hids IH]; intros fuel m d w h t Hl Ho Ew Hf; (destruct fuel as [|fuel]; [cbn in Hf; lia|]); cbn [skip_identities app] in *.
  - destruct (recv_only q m hs (fq d) w h t L m1 l Hl Ho Ew) as (f' & w' & h' & t' & -> & Hl' & El & Ho' & Hd). cbn. rewrite Hm1. cbn. by exists f', w', h', t'.
  - destruct (recv_only q m hs (fq d) w h t L i (ids ++ m1 :: l) Hl Ho Ew) as (f1 & w1 & h1 & t1 & -> & Hl1 & El & Ho1 & Hd1). cbn. unfold is_id in Hi. rewrite Hi. cbn.
    destruct (IH fuel i (with_fq f1 d) w1 h1 t1 Hl1) as (f' & w' & h' & t' & E & Hl' & El' & Ho' & Hd); [apply Ho1; by intros []%app_eq_nil|done|cbn in Hf; lia|].
    exists f', w', h', t'. split; [exact E|]. split; [done|]. split; [done|]. split; [done|].
    intros z e Hz He. apply Hd; [done|]. apply Hd1; [|done]. right. apply elem_of_app. by right.
Qed.

(** A part for the user. *)
Definition body_part (m : msg_t) : Prop := has_flag more m = true /\ has_flag identity m = false.

Lemma dealer_part q hs L m1 l fuel m d w h t : prefetched d = false -> has_flag identity m1 = false -> listening m hs (fq d) w h t L -> only_from q t w L ->
  inbox w q = m1 :: l -> (0 < fuel)%nat ->
  exists f' w' h' t', dealer_xrecv fuel m d w h = Ok (Done, m1, with_fq f' d, w', h') /\ listening m1 hs f' w' h' t' L /\ inbox w' q = l /\ (l <> [] -> only_from q t' w' L)
    /\ forall z e, z ∈ m1 :: l -> data z h = Ok e -> data z h' = Ok e.
Proof. intros Hp Hm1 Hl Ho Ew Hf. unfold dealer_xrecv. rewrite Hp. by apply (skip_ids_ok q hs L m1 l [] (Forall_nil_2 _) Hm1 fuel m d w h t Hl Ho Ew). Qed.

(** The rest of a reply. *)
Lemma req_recvs_mid q hs L last rest fuel : has_flag more last = false -> has_flag identity last = false -> (0 < fuel)%nat -> forall parts m x w h t, Forall body_part parts ->
  receiving_reply x = true -> message_begins x = false -> prefetched (dealer x) = false -> listening m hs (fq (dealer x)) w h t L -> only_from q t w L ->
  inbox w q = (parts ++ [last]) ++ rest ->
  exists f' w' h' t', req_recvs fuel (length (parts ++ [last])) m x w h = Ok (map (pair Done) (parts ++ [last]), mkReq (with_fq f' (dealer x)) false true, w', h')
    /\ inbox w' q = rest /\ listening last hs f' w' h' t' L.
Proof.
  intros Hlast Hli Hf. induction parts as [|p parts IH]; intros m x w h t Hall Hr Hb Hp Hl Ho Ew; cbn [app length req_recvs map] in *; unfold req_xrecv; rewrite Hr, Hb; cbn [negb obind].
  - destruct (dealer_part q hs L last rest fuel m (dealer x) w h t Hp Hli Hl Ho Ew Hf) as (f' & w' & h' & t' & E & Hl' & El & _). cbn. rewrite E. cbn. rewrite Hlast. cbn.
    by exists f', w', h', t'.
  - apply Forall_cons in Hall as [[Hm Hi] Hall]. destruct (dealer_part q hs L p _ fuel m (dealer x) w h t Hp Hi Hl Ho Ew Hf) as (f1 & w1 & h1 & t1 & E & Hl1 & El & Ho1 & _).
    rewrite (bool_decide_eq_false_2 (Done <> Done)) by auto. rewrite E. cbn [obind]. rewrite (bool_decide_eq_false_2 (Done <> Done)) by auto. rewrite Hm. cbn [obind negb].
    destruct (IH p (with_dealer (with_fq f1 (dealer x)) x) w1 h1 t1 Hall Hr Hb Hp Hl1) as (f' & w' & h' & t' & E' & Er & Hl'); [apply Ho1; by destruct parts|done|].
    rewrite E'. cbn. by exists f', w', h', t'.
Qed.

Lemma req_recvs_ok q hs L ids bottom parts last rest fuel m x w h t :
  receiving_reply x = true -> message_begins x = true -> prefetched (dealer x) = false -> listening m hs (fq (dealer x)) w h t L -> only_from q t w L ->
  inbox w q = ids ++ bottom :: (parts ++ [last]) ++ rest -> Forall is_id ids -> body_part bottom -> data bottom h = Ok [] ->
  Forall body_part parts -> has_flag more last = false -> has_flag identity last = false -> (length ids < fuel)%nat ->
  exists f' w' h' t', req_recvs fuel (length (parts ++ [last])) m x w h = Ok (map (pair Done) (parts ++ [last]), mkReq (with_fq f' (dealer x)) false true, w', h')
    /\ inbox w' q = rest /\ listening last hs f' w' h' t' L.
Proof.
  intros Hr Hb Hp Hl Ho Ew Hids [Hbm Hbi] Hbd Hall Hlast Hli Hf.
  destruct (skip_ids_ok q hs L bottom ((parts ++ [last]) ++ rest) ids Hids Hbi fuel m (dealer x) w h t Hl Ho Ew Hf) as (f1 & w1 & h1 & t1 & E & Hl1 & El & Ho1 & Hd1).
  assert (Hne : (parts ++ [last]) ++ rest <> []) by (by destruct parts).
  destruct (req_recvs_mid q hs L last rest fuel Hlast Hli ltac:(lia) parts bottom (mkReq (with_fq f1 (dealer x)) true false) w1 h1 t1 Hall eq_refl eq_refl Hp Hl1 (Ho1 Hne) El)
    as (f' & w' & h' & t' & E2 & Er & Hl').
  exists f', w', h', t'. split; [|done]. change (with_fq f' _) with (with_fq f' (dealer x)) in E2. rewrite <- E2. destruct (parts ++ [last]) as [|p ps] eqn:Ep; [by apply app_eq_nil in Ep as [_ ?]|]. cbn [length req_recvs].
  assert (Ex : req_xrecv fuel m x w h = req_xrecv fuel bottom (mkReq (with_fq f1 (dealer x)) true false) w1 h1).
  { unfold req_xrecv at 1. rewrite Hr, Hb. unfold dealer_xrecv at 1. rewrite Hp. cbn [negb]. rewrite E. cbn [obind]. rewrite (bool_decide_eq_false_2 (Done <> Done)) by auto.
    unfold Msg.size. rewrite (Hd1 bottom []) by (by left || done). cbn [obind]. rewrite Hbm. cbn. by rewrite Hr. }
  by rewrite Ex.
Qed.
End Replies.

(** ** The properties *)


(** C17: a request arrives whole.  Sent part by part, either nothing is sent and
    the result is [EAGAIN], or the request arrives at one pipe, with an empty part
    in front, all its parts in order and nothing between them, nothing arrives
    anywhere else, and the socket waits for the reply. *)
Theorem req_sends_request {W} `{PipeLaws W} parts last x w h :
  may_request x w -> Forall (fun m => has_flag more m = true) parts -> has_flag more last = false ->
  exists r l' w', req_sends (parts ++ [last]) x w h = Ok (r, mkReq (with_lb l' (dealer x)) (bool_decide (r = Done)) true, w', h)
    /\ (r = EAGAIN /\ (forall q, attached w q -> outbox w' q = outbox w q)
        \/ r = Done /\ exists q, member (pipes (rot (lb (dealer x)))) q /\ arrived_at q (bottom_part :: parts ++ [last]) w w').
Proof. apply req_sends_ok. Qed.

