(* ===== verification/Routes.v ===== *)
(** * What routing sockets expect of pipes

    A socket that answers its peers one by one knows the pipes by their
    identities and takes back the beginning of a message.  [RouteOps] are these
    methods of [pipe_t], and [RouteLaws] says that the other operations keep
    identities, that [check_write] tells whether a message is taken, and that a
    message that is read leaves what was written alone. *)

From stdpp Require Import tactics gmap.
From S2P Require Import Prelude Msg Yqueue Ypipe Pipe PipeProtocol Pipes SocketPipes.

Class RouteOps (W : Type) := {
  pipe_get_identity : Z -> W -> outcome bytes;
  pipe_set_identity : Z -> bytes -> W -> outcome W;
  (** with the messages that it closes *)
  pipe_rollback : Z -> W -> outcome (list msg_t * W)
}.

Class RouteLaws (W : Type) `{PipeLaws W, RouteOps W} := {
  identity_of : W -> Z -> bytes;

  get_identity_ok w p : attached w p -> pipe_get_identity p w = Ok (identity_of w p);

  set_identity_ok w p i : pipes_ok w -> attached w p -> exists w', pipe_set_identity p i w = Ok w' /\ pipes_ok w'
    /\ (forall q, attached w' q <-> attached w q)
    /\ (forall q, inbox w' q = inbox w q /\ outbox w' q = outbox w q /\ taking w' q = taking w q)
    /\ (forall q, identity_of w' q = if bool_decide (p = q) then i else identity_of w q);

  read_quiet w p o w' : pipes_ok w -> pipe_read p w = Ok (o, w') -> attached w p
    /\ (forall q, identity_of w' q = identity_of w q)
    /\ (forall q, attached w q -> p <> q \/ is_Some o -> outbox w' q = outbox w q /\ taking w' q = taking w q);

  write_quiet w p m b w' : pipe_write p m w = Ok (b, w') -> forall q, identity_of w' q = identity_of w q;

  check_write_tells w p b w' : pipe_check_write p w = Ok (b, w') -> b = taking w p
    /\ (forall q, taking w' q = taking w q) /\ (forall q, identity_of w' q = identity_of w q);

  flush_quiet w p w' : pipe_flush p w = Ok w' -> forall q, identity_of w' q = identity_of w q
}.

(** ** The pipes of a socket *)

#[export] Instance socket_route_ops : RouteOps socket_pipes := {
  pipe_get_identity p w := match ends w !! p with Some q => Ok (get_identity q) | None => Aborted "freed pipe" end;
  pipe_set_identity p i w := let! (_, w) := on_pipe p (fun v => Ok (tt, set_me (set_identity i (me v)) v)) w in Ok w;
  pipe_rollback p w := on_pipe p (fun v => let! v := rollback v in Ok (closed v, v)) w
}.

Definition identity_at (w : socket_pipes) (p : Z) : bytes := match ends w !! p with Some q => identity_ q | None => [] end.

(** The end of an operation on a pipe. *)
Lemma on_pipe_inv {A} p (f : view -> outcome (A * view)) w a w' : on_pipe p f w = Ok (a, w') ->
  exists q v, ends w !! p = Some q /\ f (mkView q (ypipes w) [] [] []) = Ok (a, v) /\ w' = mkPipes (<[p := me v]> (ends w)) (upipes v) (sent w ++ map (pair p) (commands v)).
Proof.
  unfold on_pipe. destruct (ends w !! p) as [q|]; [|done]. destruct (f _) as [[a' v]| |] eqn:E; try done. cbn [obind]. intros [= -> <-]. by exists q, v.
Qed.

Lemma identity_kept {A} p f (w : socket_pipes) (a : A) w' : on_pipe p f w = Ok (a, w') -> (forall v a' v', f v = Ok (a', v') -> identity_ (me v') = identity_ (me v)) ->
  forall q, identity_at w' q = identity_at w q.
Proof.
  intros E Hf q. destruct (on_pipe_inv p f w a w' E) as (e & v & He & Ev & ->). unfold identity_at. cbn [ends]. destruct (decide (q = p)) as [->|Hq].
  - rewrite lookup_insert_eq, He. by apply (Hf _ a v) in Ev.
  - by rewrite lookup_insert_ne.
Qed.

Lemma taking_kept {A} p f (w : socket_pipes) (a : A) w' : on_pipe p f w = Ok (a, w') -> (forall v a' v', f v = Ok (a', v') -> takes (me v') = takes (me v)) ->
  forall q, taking_at w' q = taking_at w q.
Proof.
  intros E Hf q. destruct (on_pipe_inv p f w a w' E) as (e & v & He & Ev & ->). unfold taking_at. cbn [ends]. destruct (decide (q = p)) as [->|Hq].
  - rewrite lookup_insert_eq, He. by apply (Hf _ a v) in Ev.
  - by rewrite lookup_insert_ne.
Qed.

Lemma delimit_identity v v' : delimit v = Ok v' -> identity_ (me v') = identity_ (me v).
Proof. unfold delimit. destruct (state (me v)); intros [= <-]; done. Qed.

Lemma read_identity v o v' : read v = Ok (o, v') -> identity_ (me v') = identity_ (me v).
Proof.
  unfold read. destruct (negb (readable v)); [by intros [= <- <-]|]. destruct (deref _ v) as [[a c]| |]; try done. cbn [obind]. destruct (up_read c) as [[m|] c1]; [|by intros [= <- <-]].
  destruct (is_delimiter m).
  - destruct (delimit _) as [v1| |] eqn:Ed; try done. cbn [obind]. intros [= <- <-]. by rewrite (delimit_identity _ _ Ed).
  - intros [= <- <-]. destruct (negb (has_flag more m)); by destruct (_ && _).
Qed.

Lemma check_write_identity v : identity_ (me (check_write v).2) = identity_ (me v) /\ takes (me (check_write v).2) = takes (me v).
Proof.
  pose proof (check_write_takes v) as Ht. revert Ht. unfold check_write. destruct (_ || _) eqn:E1; [done|]. destruct (_ && _); [|done]. cbn [fst snd]. intros <-. done.
Qed.

Lemma write_identity m v b v' : write m v = Ok (b, v') -> identity_ (me v') = identity_ (me v).
Proof.
  unfold write. destruct (check_write_identity v) as [Hi _]. destruct (check_write v) as [b1 v1]. cbn [snd] in Hi. destruct b1; cbn [negb]; [|by intros [= <- <-]].
  destruct (deref _ v1) as [[a c]| |]; try done. cbn [obind]. intros [= <- <-]. by destruct (negb (has_flag more m)).
Qed.

Lemma flush_identity v v' : flush v = Ok v' -> identity_ (me v') = identity_ (me v).
Proof.
  unfold flush. destruct (is_state StTerminating v); [by intros [= <-]|]. destruct (outpipe (me v)); [|by intros [= <-]]. destruct (deref _ v) as [[a c]| |]; try done. cbn [obind].
  destruct (up_flush c) as [b c1]. intros [= <-]. by destruct (negb b).
Qed.

Lemma takes_spec q : takes q = out_active q && bool_decide (state q = StActive)
  && negb ((0 <? hwm q) && (to_uint64 (msgs_written q - peers_msgs_read q) =? to_uint64 (hwm q))).
Proof. unfold takes, check_write, is_state. cbn [me]. destruct (out_active q), (bool_decide _); cbn; try done. by destruct (_ && _). Qed.

(** A message that is read leaves the rest of the end alone. *)
Lemma read_some_takes v m v' : read v = Ok (Some m, v') -> takes (me v') = takes (me v) /\ outpipe (me v') = outpipe (me v)
  /\ exists a c, inpipe (me v) = Some a /\ upipes v' = <[a := c]> (upipes v).
Proof.
  unfold read. destruct (negb (readable v)); [done|]. destruct (deref (inpipe (me v)) v) as [[a c]| |] eqn:Ed; try done. cbn [obind].
  assert (Ea : inpipe (me v) = Some a) by (unfold deref in Ed; destruct (inpipe (me v)) as [b|]; [|done]; destruct (upipes v !! b); [|done]; by injection Ed as -> _).
  destruct (up_read c) as [[m'|] c1]; [|done]. destruct (is_delimiter m'); [by destruct (delimit _)|].
  intros [= -> <-]. set (v1 := if negb (has_flag more m) then _ else _). set (v2 := if (0 <? lwm (me v1)) && _ then _ else v1).
  assert (H2 : me v2 = me v1 /\ upipes v2 = upipes v1) by (unfold v2; by destruct (_ && _)). destruct H2 as [-> ->].
  assert (H1 : takes (me v1) = takes (me v) /\ outpipe (me v1) = outpipe (me v) /\ upipes v1 = <[a := c1]> (upipes v)) by (rewrite !takes_spec; unfold v1; by destruct (has_flag more m)).
  destruct H1 as (-> & -> & ->). split; [done|]. split; [done|]. by exists a, c1.
Qed.

#[export] Program Instance socket_route_laws : RouteLaws socket_pipes := { identity_of := identity_at }.
Next Obligation. intros w p [q Hq]. unfold identity_at. cbn. by rewrite Hq. Qed.
Next Obligation.
  intros w p i Hw [q Hq]. cbn [pipe_set_identity socket_route_ops]. rewrite (on_pipe_run w p q Hq _ tt (mkView (set_identity i q) (ypipes w) [] [] [])) by done. cbn [obind me upipes commands].
  eexists. split; [reflexivity|]. destruct (own_in w p q Hw Hq) as (a & c & Ha & Hc).
  assert (He : effect q (set_identity i q) (ypipes w) (ypipes w) a) by (split; try done; by left).
  destruct (effect_ok w p q _ _ a (sent w ++ map (pair p) []) Hw Hq He) as (Hw' & Hatt & Hoth). split; [done|]. split; [done|]. split.
  - intros r. destruct (decide (r = p)) as [->|Hr]; [|destruct (Hoth r Hr) as [H1 H2]; split; [exact H1|split; [exact H2|]]; unfold taking; cbn; unfold taking_at; cbn; by rewrite lookup_insert_ne].
    cbn. unfold inbox_of, outbox_of, taking_at, channel_at. cbn. rewrite lookup_insert_eq, Hq. split; [done|]. split; [done|]. by rewrite !takes_spec.
  - intros r. unfold identity_at. cbn [ends]. destruct (decide (p = r)) as [->|Hr]; [by rewrite lookup_insert_eq, bool_decide_eq_true_2|by rewrite lookup_insert_ne, bool_decide_eq_false_2].
Qed.
Next Obligation.
  intros w p o w' Hw E. pose proof E as E'. cbn [pipe_read socket_pipe_ops] in E'. destruct (on_pipe_inv p read w o w' E') as (e & v & He & Ev & ->).
  split; [by exists e|]. split; [by apply (identity_kept p read w o _ E'), read_identity|]. intros q Hqa [Hq|[m ->]].
  - assert (Hatt : attached w p) by by exists e. destruct (pipe_read_ok w p Hw Hatt) as (o2 & w2 & E2 & _). rewrite E in E2. injection E2 as <- <-.
    destruct (own_in w p e Hw He) as (a & c & Ha & Hc). destruct (read_effect e (ypipes w) a c Ha Hc) as (o3 & v3 & c3 & E3 & Hef & _). rewrite Ev in E3. injection E3 as _ <-.
    destruct (effect_ok w p e _ _ a (sent w ++ map (pair p) (commands v)) Hw He Hef) as (_ & _ & Hoth). destruct (Hoth q (not_eq_sym Hq)) as [_ Ho]. split; [exact Ho|].
    cbn. unfold taking_at. cbn. by rewrite lookup_insert_ne.
  - destruct (read_some_takes _ m v Ev) as (Ht & Hout & a & c & Ha & Hu). cbn [me upipes] in *. destruct (own_in w p e Hw He) as (a' & c' & Ha' & Hc').
    assert (a' = a) as -> by congruence. destruct (read_effect e (ypipes w) a c' Ha Hc') as (o3 & v3 & c3 & E3 & Hef & _). rewrite Ev in E3. injection E3 as _ <-.
    destruct (effect_ok w p e _ _ a (sent w ++ map (pair p) (commands v)) Hw He Hef) as (_ & _ & Hoth). destruct (decide (q = p)) as [->|Hq].
    + cbn. split; [|unfold taking_at; cbn; by rewrite lookup_insert_eq, He].
      unfold outbox_of, channel_at. cbn. rewrite lookup_insert_eq, He, Hout, Hu. destruct (outpipe e) as [b|] eqn:Eb; [|done]. cbn. rewrite lookup_insert_ne; [done|].
      intros ->. apply (sp_apart w Hw p e He). congruence.
    + destruct (Hoth q Hq) as [_ Ho]. split; [exact Ho|]. cbn. unfold taking_at. cbn. by rewrite lookup_insert_ne.
Qed.
Next Obligation. intros w p m b w' E. apply (identity_kept p (write m) w b w' E). intros v b' v'. apply write_identity. Qed.
Next Obligation.
  intros w p b w' E. cbn [pipe_check_write socket_pipe_ops] in E. split; [|split].
  - destruct (on_pipe_inv _ _ _ _ _ E) as (e & v & He & [= Ev] & _). cbn. unfold taking_at. rewrite He. pose proof (check_write_takes (mkView e (ypipes w) [] [] [])) as Ht. rewrite Ev in Ht. exact Ht.
  - apply (taking_kept p _ w b w' E). intros v b' v' [= Ev]. destruct (check_write_identity v) as [_ Ht]. by rewrite Ev in Ht.
  - apply (identity_kept p _ w b w' E). intros v b' v' [= Ev]. destruct (check_write_identity v) as [Ht _]. by rewrite Ev in Ht.
Qed.
Next Obligation.
  intros w p w' E. cbn [pipe_flush socket_pipe_ops] in E. destruct (on_pipe p _ w) as [[[] w1]| |] eqn:E1; try done. cbn [obind] in E. injection E as <-.
  apply (identity_kept p _ w tt w1 E1). intros v [] v'. destruct (flush v) as [v2| |] eqn:Ef; try done. cbn [obind]. intros [= <-]. by apply flush_identity.
Qed.
