(* ===== verification/Router.v ===== *)
(** * Router sockets ([lib/zeromq/router.hpp], [router.cpp])

    [router_t] receives through a fair queue and puts the identity of the peer in
    front of every message; what it sends goes to the peer whose identity is the
    first part.  A peer says its identity in its first message; until then its
    pipe is anonymous. *)

From stdpp Require Import tactics gmap list.
From S2P Require Import Prelude Wire Msg Array Pipes Routes Rotation Fq.

Definition ZMQ_ROUTER_MANDATORY : Z := 33.

Record outpipe_t := mkOutpipe { pipe : Z; active : bool }.

Record router_t := mkRouter {
  fq : fq_t;
  prefetched : bool;
  identity_sent : bool;
  prefetched_id : msg_t;
  prefetched_msg : msg_t;
  more_in : bool;
  anonymous_pipes : gset Z;
  outpipes : gmap bytes outpipe_t;
  current_out : option Z;
  more_out : bool;
  next_peer_id : Z;
  mandatory : bool
}.

(** [generate_random ()] is the first generated identity. *)
Definition new_router (random : Z) : router_t := mkRouter new_fq false false init init false ∅ ∅ None false random false.

Definition with_fq (q : fq_t) (r : router_t) : router_t :=
  mkRouter q (prefetched r) (identity_sent r) (prefetched_id r) (prefetched_msg r) (more_in r) (anonymous_pipes r) (outpipes r) (current_out r) (more_out r) (next_peer_id r) (mandatory r).
Definition with_prefetched (b sent : bool) (i m : msg_t) (r : router_t) : router_t :=
  mkRouter (fq r) b sent i m (more_in r) (anonymous_pipes r) (outpipes r) (current_out r) (more_out r) (next_peer_id r) (mandatory r).
Definition with_more_in (b : bool) (r : router_t) : router_t :=
  mkRouter (fq r) (prefetched r) (identity_sent r) (prefetched_id r) (prefetched_msg r) b (anonymous_pipes r) (outpipes r) (current_out r) (more_out r) (next_peer_id r) (mandatory r).
Definition with_anonymous (s : gset Z) (r : router_t) : router_t :=
  mkRouter (fq r) (prefetched r) (identity_sent r) (prefetched_id r) (prefetched_msg r) (more_in r) s (outpipes r) (current_out r) (more_out r) (next_peer_id r) (mandatory r).
Definition with_outpipes (o : gmap bytes outpipe_t) (r : router_t) : router_t :=
  mkRouter (fq r) (prefetched r) (identity_sent r) (prefetched_id r) (prefetched_msg r) (more_in r) (anonymous_pipes r) o (current_out r) (more_out r) (next_peer_id r) (mandatory r).
Definition with_out (p : option Z) (more_ : bool) (r : router_t) : router_t :=
  mkRouter (fq r) (prefetched r) (identity_sent r) (prefetched_id r) (prefetched_msg r) (more_in r) (anonymous_pipes r) (outpipes r) p more_ (next_peer_id r) (mandatory r).
Definition with_next_peer_id (n : Z) (r : router_t) : router_t :=
  mkRouter (fq r) (prefetched r) (identity_sent r) (prefetched_id r) (prefetched_msg r) (more_in r) (anonymous_pipes r) (outpipes r) (current_out r) (more_out r) n (mandatory r).
Definition with_mandatory (b : bool) (r : router_t) : router_t :=
  mkRouter (fq r) (prefetched r) (identity_sent r) (prefetched_id r) (prefetched_msg r) (more_in r) (anonymous_pipes r) (outpipes r) (current_out r) (more_out r) (next_peer_id r) b.

(** The destructor, and that of the fair queue. *)
Definition destroy (r : router_t) (h : memory) : outcome memory :=
  let! _ := assertion (bool_decide (anonymous_pipes r = ∅)) "anonymous_pipes.empty ()" in
  let! _ := assertion (bool_decide (outpipes r = ∅)) "outpipes.empty ()" in
  let! (_, _, h) := close (prefetched_id r) h in
  let! (_, _, h) := close (prefetched_msg r) h in
  let! _ := Fq.destroy (fq r) in
  Ok h.

(** [optval_] is the integer at the pointer, when there are four bytes. *)
Definition xsetsockopt (option_ optval_ optvallen_ : Z) (r : router_t) : bool * router_t :=
  if negb (option_ =? ZMQ_ROUTER_MANDATORY) then (false, r)
  else if negb (optvallen_ =? 4) || (optval_ <? 0) then (false, r)
  else (true, with_mandatory (negb (optval_ =? 0)) r).

(** The search for the pipe among the outpipes; every pipe is in one entry at
    most, so that the order of the entries is of no account. *)
Definition find_pipe (pipe_ : Z) (o : gmap bytes outpipe_t) : option (bytes * outpipe_t) :=
  List.find (fun e => pipe e.2 =? pipe_) (map_to_list o).

Definition xwrite_activated (pipe_ : Z) (r : router_t) : outcome router_t :=
  match find_pipe pipe_ (outpipes r) with
  | None => Aborted "it != outpipes.end ()"
  | Some (i, o) =>
      let! _ := assertion (negb (active o)) "!it->second.active" in
      Ok (with_outpipes (<[i := mkOutpipe (pipe o) true]> (outpipes r)) r)
  end.

Section Router.
Context {W : Type} `{PipeOps W, RouteOps W}.
(** Whether [malloc] succeeds. *)
Variable available : Z -> bool.

(** The generated identity. *)
Definition generated_id (n : Z) : bytes := chr 0 :: put_uint32 n.

(** Whether the peer said an identity that is its own. *)
Definition identify_peer (pipe_ : Z) (r : router_t) (w : W) (h : memory) : outcome (bool * router_t * W * memory) :=
  let! (o, w) := pipe_read pipe_ w in
  match o with
  | None => Ok (false, r, w, h)
  | Some msg =>
      let! n := Msg.size msg h in
      let insert (identity : bytes) (r : router_t) (w : W) (h : memory) :=
        let! w := pipe_set_identity pipe_ identity w in
        let! _ := assertion (bool_decide (outpipes r !! identity = None)) "ok" in
        Ok (true, with_outpipes (<[identity := mkOutpipe pipe_ true]> (outpipes r)) r, w, h) in
      if n =? 0 then
        let identity := generated_id (next_peer_id r) in
        let r := with_next_peer_id (to_uint32 (next_peer_id r + 1)) r in
        let! (_, _, h) := close msg h in
        insert identity r w h
      else
        let! identity := data msg h in
        let! (_, _, h) := close msg h in
        match outpipes r !! identity with
        | Some _ => Ok (false, r, w, h)
        | None => insert identity r w h
        end
  end.

Definition xattach_pipe (pipe_ : Z) (r : router_t) (w : W) (h : memory) : outcome (router_t * W * memory) :=
  let! (identity_ok, r, w, h) := identify_peer pipe_ r w h in
  if identity_ok then let! q := Fq.attach pipe_ (fq r) in Ok (with_fq q r, w, h)
  else Ok (with_anonymous ({[pipe_]} ∪ anonymous_pipes r) r, w, h).

Definition xterminated (pipe_ : Z) (r : router_t) (w : W) : outcome router_t :=
  if bool_decide (pipe_ ∈ anonymous_pipes r) then Ok (with_anonymous (anonymous_pipes r ∖ {[pipe_]}) r)
  else
    let! identity := pipe_get_identity pipe_ w in
    let! _ := assertion (bool_decide (is_Some (outpipes r !! identity))) "it != outpipes.end ()" in
    let r := with_outpipes (delete identity (outpipes r)) r in
    let! q := Fq.terminated pipe_ (fq r) in
    let r := with_fq q r in
    Ok (if bool_decide (current_out r = Some pipe_) then with_out None (more_out r) r else r).

Definition xread_activated (pipe_ : Z) (r : router_t) (w : W) (h : memory) : outcome (router_t * W * memory) :=
  if negb (bool_decide (pipe_ ∈ anonymous_pipes r)) then let! q := Fq.activated pipe_ (fq r) in Ok (with_fq q r, w, h)
  else
    let! (identity_ok, r, w, h) := identify_peer pipe_ r w h in
    if identity_ok then
      let r := with_anonymous (anonymous_pipes r ∖ {[pipe_]}) r in
      let! q := Fq.attach pipe_ (fq r) in
      Ok (with_fq q r, w, h)
    else Ok (r, w, h).

(** ** Sending *)

(** [msg_->close ()] and [msg_->init ()] with their assertions. *)
Definition drop_msg (msg_ : msg_t) (h : memory) : outcome (msg_t * memory) :=
  let! (rc, _, h) := close msg_ h in
  let! _ := assertion (rc =? 0) "rc == 0" in
  Ok (init, h).

Definition router_xsend (msg_ : msg_t) (r : router_t) (w : W) (h : memory) : outcome (result * msg_t * router_t * W * memory) :=
  if negb (more_out r) then
    let! _ := assertion (bool_decide (current_out r = None)) "!current_out" in
    if has_flag more msg_ then
      let r := with_out (current_out r) true r in
      let! identity := data msg_ h in
      match outpipes r !! identity with
      | Some o =>
          let! (b, w) := pipe_check_write (pipe o) w in
          let r := if b then with_out (Some (pipe o)) (more_out r) r
                   else with_out None (more_out r) (with_outpipes (<[identity := mkOutpipe (pipe o) false]> (outpipes r)) r) in
          let! (m, h) := drop_msg msg_ h in
          Ok (Done, m, r, w, h)
      | None =>
          if mandatory r then Ok (EHOSTUNREACH, msg_, with_out (current_out r) false r, w, h)
          else let! (m, h) := drop_msg msg_ h in Ok (Done, m, r, w, h)
      end
    else let! (m, h) := drop_msg msg_ h in Ok (Done, m, r, w, h)
  else
    let r := with_out (current_out r) (has_flag more msg_) r in
    match current_out r with
    | Some p =>
        let! (ok, w) := pipe_write p msg_ w in
        if negb ok then Ok (Done, init, with_out None (more_out r) r, w, h)
        else if negb (more_out r) then let! w := pipe_flush p w in Ok (Done, init, with_out None (more_out r) r, w, h)
        else Ok (Done, init, r, w, h)
    | None => let! (m, h) := drop_msg msg_ h in Ok (Done, m, r, w, h)
    end.

(** The messages that the pipe gives back are closed. *)
Fixpoint close_all (l : list msg_t) (h : memory) : outcome memory :=
  match l with [] => Ok h | m :: l' => let! (_, _, h) := close m h in close_all l' h end.

Definition rollback (r : router_t) (w : W) (h : memory) : outcome (router_t * W * memory) :=
  match current_out r with
  | Some p =>
      let! (l, w) := pipe_rollback p w in
      let! h := close_all l h in
      Ok (with_out None false r, w, h)
  | None => Ok (r, w, h)
  end.

(** ** Receiving *)

(** A message with these bytes. *)
Definition make_msg (d : bytes) (h : memory) : outcome (msg_t * memory) :=
  let! o := init_size available (fun _ => d) (Z.of_nat (length d)) h in
  match o with Some r => Ok r | None => Aborted "rc == 0" end.

(** Identities that peers say again are dropped.  The fuel is the number of
    messages that wait, and one. *)
Fixpoint recv_message (fuel : nat) (msg_ : msg_t) (q : fq_t) (w : W) (h : memory) : outcome (Z * msg_t * option Z * fq_t * W * memory) :=
  match fuel with
  | O => OutOfFuel
  | S fuel' =>
      let! (rc, m, p, q, w, h) := recvpipe msg_ q w h in
      if (rc =? 0) && is_identity m then recv_message fuel' m q w h else Ok (rc, m, p, q, w, h)
  end.

(** [zmq_assert (pipe != NULL)]. *)
Definition the_pipe (p : option Z) : outcome Z := match p with Some q => Ok q | None => Aborted "pipe != NULL" end.

Definition router_xrecv (fuel : nat) (msg_ : msg_t) (r : router_t) (w : W) (h : memory) : outcome (result * msg_t * router_t * W * memory) :=
  if prefetched r then
    let! (m, r, h) :=
      (if negb (identity_sent r) then
        let! (rc, m, src, h) := move msg_ (prefetched_id r) h in
        let! _ := assertion (rc =? 0) "rc == 0" in
        Ok (m, with_prefetched true true src (prefetched_msg r) r, h)
       else
        let! (rc, m, src, h) := move msg_ (prefetched_msg r) h in
        let! _ := assertion (rc =? 0) "rc == 0" in
        Ok (m, with_prefetched false (identity_sent r) (prefetched_id r) src r, h)) in
    Ok (Done, m, with_more_in (has_flag more m) r, w, h)
  else
    let! (rc, m, p, q, w, h) := recv_message fuel msg_ (fq r) w h in
    let r := with_fq q r in
    if negb (rc =? 0) then Ok (EAGAIN, m, r, w, h)
    else
      let! p := the_pipe p in
      if more_in r then Ok (Done, m, with_more_in (has_flag more m) r, w, h)
      else
        let! (rc, pm, m, h) := move (prefetched_msg r) m h in
        let! _ := assertion (rc =? 0) "rc == 0" in
        let! identity := pipe_get_identity p w in
        let! (m, h) := make_msg identity h in
        Ok (Done, set_flags more m, with_prefetched true true (prefetched_id r) pm r, w, h).

Definition router_xhas_in (fuel : nat) (r : router_t) (w : W) (h : memory) : outcome (bool * router_t * W * memory) :=
  if more_in r then Ok (true, r, w, h)
  else if prefetched r then Ok (true, r, w, h)
  else
    let! (rc, m, p, q, w, h) := recv_message fuel (prefetched_msg r) (fq r) w h in
    let r := with_prefetched (prefetched r) (identity_sent r) (prefetched_id r) m (with_fq q r) in
    if negb (rc =? 0) then Ok (false, r, w, h)
    else
      let! p := the_pipe p in
      let! identity := pipe_get_identity p w in
      let! (i, h) := make_msg identity h in
      Ok (true, with_prefetched true false (set_flags more i) (prefetched_msg r) r, w, h).

Definition router_xhas_out (r : router_t) : bool := true.

End Router.
