(* ===== verification/Rep.v ===== *)
(** * Reply sockets ([lib/zeromq/rep.hpp], [rep.cpp])

    [rep_t] is a router that receives a request and sends a reply in turn.  The
    parts of a request up to the empty one are the addresses it came by; they are
    copied to the pipe of the reply before the user sees the request. *)

From stdpp Require Import tactics gmap list.
From S2P Require Import Prelude Msg Array Pipes Routes Rotation Fq Router.

Record rep_t := mkRep { router : router_t; sending_reply : bool; request_begins : bool }.

Definition new_rep (random : Z) : rep_t := mkRep (new_router random) false true.

Definition with_router (r : router_t) (x : rep_t) : rep_t := mkRep r (sending_reply x) (request_begins x).

Section Rep.
Context {W : Type} `{PipeOps W, RouteOps W}.
Variable available : Z -> bool.

Definition rep_xsend (msg_ : msg_t) (x : rep_t) (w : W) (h : memory) : outcome (result * msg_t * rep_t * W * memory) :=
  if negb (sending_reply x) then Ok (EFSM, msg_, x, w, h)
  else
    let parts_follow := has_flag more msg_ in
    let! (rc, m, r, w, h) := router_xsend msg_ (router x) w h in
    let x := with_router r x in
    if bool_decide (rc <> Done) then Ok (rc, m, x, w, h)
    else Ok (Done, m, if negb parts_follow then mkRep (router x) false (request_begins x) else x, w, h).

(** The loop of [xrecv] that copies the addresses.  The fuel is the number of
    messages that wait, and three. *)
Fixpoint copy_labels (fuel : nat) (msg_ : msg_t) (r : router_t) (w : W) (h : memory) : outcome (result * msg_t * router_t * W * memory) :=
  match fuel with
  | O => OutOfFuel
  | S fuel' =>
      let! (rc, m, r, w, h) := router_xrecv available fuel' msg_ r w h in
      if bool_decide (rc <> Done) then Ok (rc, m, r, w, h)
      else if has_flag more m then
        let! n := Msg.size m h in
        let! (rc, m, r, w, h) := router_xsend m r w h in
        let! _ := assertion (bool_decide (rc = Done)) "rc == 0" in
        if n =? 0 then Ok (Done, m, r, w, h) else copy_labels fuel' m r w h
      else
        let! (r, w, h) := rollback r w h in
        copy_labels fuel' m r w h
  end.

Definition rep_xrecv (fuel : nat) (msg_ : msg_t) (x : rep_t) (w : W) (h : memory) : outcome (result * msg_t * rep_t * W * memory) :=
  if sending_reply x then Ok (EFSM, msg_, x, w, h)
  else
    let! (rc, m, x, w, h) :=
      (if request_begins x then
        let! (rc, m, r, w, h) := copy_labels fuel msg_ (router x) w h in
        Ok (rc, m, if bool_decide (rc = Done) then mkRep r (sending_reply x) false else with_router r x, w, h)
       else Ok (Done, msg_, x, w, h)) in
    if bool_decide (rc <> Done) then Ok (rc, m, x, w, h)
    else
      let! (rc, m, r, w, h) := router_xrecv available fuel m (router x) w h in
      let x := with_router r x in
      if bool_decide (rc <> Done) then Ok (rc, m, x, w, h)
      else Ok (Done, m, if negb (has_flag more m) then mkRep (router x) true true else x, w, h).

Definition rep_xhas_in (fuel : nat) (x : rep_t) (w : W) (h : memory) : outcome (bool * rep_t * W * memory) :=
  if sending_reply x then Ok (false, x, w, h)
  else let! (b, r, w, h) := router_xhas_in available fuel (router x) w h in Ok (b, with_router r x, w, h).

Definition rep_xhas_out (x : rep_t) : bool := if negb (sending_reply x) then false else router_xhas_out (router x).

End Rep.
