(* ===== verification/RouterTheorems.v ===== *)
(** * Messages find their way through a router

    What is sent goes to the peer that is named in front of it, whole, and to no
    other; what is received is the messages of the peers, each behind the name of
    the peer that it came from. *)

From stdpp Require Import tactics gmap list.
From S2P Require Import Prelude Msg MsgTheorems Array Pipes Routes Rotation Fq FqTheorems Listening LbTheorems Router.

Section Routing.
Context {W : Type} `{RouteLaws W}.

(** ** What reading leaves alone *)

(** What goes out by [x] did not change. *)
Definition undisturbed (w w' : W) (x : Z) : Prop := outbox w' x = outbox w x /\ taking w' x = taking w x.

(** Only a pipe without messages may be disturbed by a read: it may be found to
    be closed by the peer. *)
Definition quiet (w w' : W) : Prop :=
  (forall x, identity_of w' x = identity_of w x) /\ forall x, attached w x -> undisturbed w w' x \/ inbox w x = [].

Lemma quiet_same w : quiet w w.
Proof. split; [done|]. intros x _. left. by split. Qed.

Lemma recv_loop_quiet fuel : forall f w o f' w', pipes_ok w -> recv_loop fuel f w = Ok (o, f', w') -> quiet w w'.
Proof.
  induction fuel as [|fuel IH]; intros f w o f' w' Hw; cbn [recv_loop]; (destruct (negb (0 <? Rotation.active (rot f))); [intros [= _ _ <-]; apply quiet_same|]); [done|].
  destruct (current_pipe (rot f)) as [p| |]; try done. cbn [obind]. destruct (pipe_read p w) as [[o1 w1]| |] eqn:Er; try done. cbn [obind].
  destruct (read_quiet w p o1 w1 Hw Er) as (Hp & Hid & Hout). destruct o1 as [m|].
  - intros [= _ _ <-]. split; [done|]. intros x Hx. left. apply Hout; [done|]. right. by eexists.
  - destruct (assertion _ _); try done. cbn [obind]. destruct (deactivate (rot f)) as [r| |]; try done. cbn [obind]. intros E.
    destruct (pipe_read_ok w p Hw Hp) as (o2 & w2 & E2 & Hw1 & Hatt & Ho & Hin). rewrite Er in E2. injection E2 as <- <-.
    assert (Hnil : inbox w p = []) by (by destruct (inbox w p)).
    destruct (IH _ w1 o f' w' Hw1 E) as [Hid' Hq]. split; [intros x; by rewrite Hid'|]. intros x Hx.
    destruct (decide (x = p)) as [->|Hne]; [by right|]. destruct (Hout x Hx) as [O1 O2]; [left; congruence|].
    specialize (Hin x Hx). rewrite bool_decide_eq_false_2 in Hin by congruence. destruct (Hq x) as [[Q1 Q2]|Hi]; [by apply Hatt| |right; congruence].
    left. split; congruence.
Qed.

Lemma recvpipe_quiet msg f w h rc m o f' w' h' : pipes_ok w -> recvpipe msg f w h = Ok (rc, m, o, f', w', h') -> quiet w w'.
Proof.
  intros Hw. unfold recvpipe. destruct (close msg h) as [[[rc1 m1] h1]| |]; try done. cbn [obind]. destruct (assertion _ _); try done. cbn [obind].
  destruct (recv_loop _ f w) as [[[o1 f1] w1]| |] eqn:E; try done. cbn [obind]. apply recv_loop_quiet in E; [|done]. by destruct o1 as [[??]|]; intros [= _ _ _ _ <- _].
Qed.

(** ** The same messages elsewhere *)

(** The pipes did not lose messages, and the messages elsewhere are other ones. *)
Lemma listening_change m hs f w h t L m' hs' w' h' : listening m hs f w h t L ->
  pipes_ok w' -> (forall q, attached w' q <-> attached w q) -> (forall q, attached w q -> inbox w' q = inbox w q) ->
  balanced (m' :: in_pipes L w ++ hs') h' -> few (m' :: in_pipes L w ++ hs') -> check m' = true -> data_kept L w h h' ->
  listening m' hs' f w' h' t L.
Proof.
  intros [(P & Ht & HL) [[Hw Hatt] Hb Hfew Hc Hdata Hends Hwh]] Hw' Hatt' Hin Hb' Hfew' Hc' Hk.
  assert (Hin' : forall x, x ∈ L -> inbox w' x = inbox w x) by (intros x Hx; by apply Hin, Hatt).
  pose proof (in_pipes_same L w w' Hin') as Epi. split; [by exists P|]. split; rewrite ?Epi; try done.
  - split; [done|]. intros q Hq. by apply Hatt', Hatt.
  - intros x Hx. destruct (Hdata x Hx) as [d Hd]. exists d. by apply Hk.
  - intros x Hx. rewrite Hin' by done. by apply Hends.
  - intros Hm. destruct (Hwh Hm) as (Hpos & q & Eq & Hq). split; [done|]. exists q. split; [done|].
    unfold waiting in *. rewrite Hin; [done|]. apply Hatt. rewrite <- HL. apply (turn_idle _ _ _ _ Ht) in Hpos.
    destruct t as [[|a A] B]; [done|]. rewrite (turn_current_pipe _ _ _ _ _ Ht) in Eq. injection Eq as ->. by left.
Qed.

(** ** The messages with names *)

Definition says_identity (m : msg_t) : Prop := is_identity m = true.

(** Names that were said again are gone. *)
Definition less_names (w w' : W) (x : Z) : Prop := exists ids, Forall says_identity ids /\ inbox w x = ids ++ inbox w' x.

Lemma less_names_same w w' x : inbox w' x = inbox w x -> less_names w w' x.
Proof. intros E. by exists []. Qed.

Lemma less_names_trans w w1 w2 x : less_names w w1 x -> less_names w1 w2 x -> less_names w w2 x.
Proof. intros (i1 & H1' & E1) (i2 & H2' & E2). exists (i1 ++ i2). split; [by apply Forall_app|]. by rewrite E1, E2, app_assoc. Qed.

(** The pipes [L] after messages were read: those that are not empty are as before. *)
Definition calm (w w' : W) (L : list Z) : Prop :=
  (forall x, identity_of w' x = identity_of w x) /\ forall x, x ∈ L -> undisturbed w w' x \/ inbox w' x = [].

Lemma quiet_calm m hs f (w w' : W) h t L : listening m hs f w h t L -> quiet w w' -> (forall x, x ∈ L -> inbox w x = [] -> inbox w' x = []) -> calm w w' L.
Proof.
  intros [_ [[_ Hatt] _ _ _ _ _ _]] [Hid Hq] He. split; [done|]. intros x Hx. destruct (Hq x (Hatt x Hx)) as [|Hi]; [by left|right]. by apply He.
Qed.

(** Messages only leave the pipes, and those that stay have their data. *)
Definition pipes_keep (w w' : W) (h h' : memory) (L : list Z) : Prop := forall x, x ∈ in_pipes L w' -> x ∈ in_pipes L w /\ forall d, data x h = Ok d -> data x h' = Ok d.

Lemma pipes_keep_trans w w1 w2 h h1 h2 L : pipes_keep w w1 h h1 L -> pipes_keep w1 w2 h1 h2 L -> pipes_keep w w2 h h2 L.
Proof. intros K1 K2 x Hx. destruct (K2 x Hx) as [Hx1 D2]. destruct (K1 x Hx1) as [Hx0 D1]. split; [done|]. intros d Hd. by apply D2, D1. Qed.

Lemma heard_keep t t' (w w' : W) h h' L : heard t t' w w' h h' L -> pipes_keep w w' h h' L.
Proof. intros [Hl Hd _ _] x Hx. split; [by apply Hl|]. intros d. by apply Hd. Qed.

Lemma calm_trans w w1 w2 L : calm w w1 L -> calm w1 w2 L -> (forall x, x ∈ L -> inbox w1 x = [] -> inbox w2 x = []) -> calm w w2 L.
Proof.
  intros [I1 C1] [I2 C2] He. split; [intros x; by rewrite I2|]. intros x Hx. destruct (C2 x Hx) as [[O2 T2]|]; [|by right].
  destruct (C1 x Hx) as [[O1 T1]|Hi]; [left; split; congruence|right; by apply He].
Qed.

(** A message [m'] was received from [q], behind names. *)
Record received_from (q : Z) (m' : msg_t) (f' : fq_t) (w w' : W) (L : list Z) : Prop := {
  rf_in : q ∈ L;
  rf_first : exists ids, Forall says_identity ids /\ inbox w q = ids ++ m' :: inbox w' q;
  rf_message : is_identity m' = false;
  rf_others x : x ∈ L -> x <> q -> less_names w w' x;
  rf_out : undisturbed w w' q;
  rf_more : Fq.more_parts f' = has_flag more m';
  rf_next : has_flag more m' = true -> current_pipe (rot f') = Ok q;
  rf_load : (length (in_pipes L w') < length (in_pipes L w))%nat
}.

Lemma recv_message_ok hs L fuel : forall m f w h t, listening m hs f w h t L -> (length (in_pipes L w) < fuel)%nat ->
  exists rc m' o f' w' h' t', recv_message fuel m f w h = Ok (rc, m', o, f', w', h') /\ listening m' hs f' w' h' t' L /\ heard t t' w w' h h' L /\ calm w w' L
    /\ (rc = -1 /\ m' = init /\ (forall x, x ∈ L -> less_names w w' x) /\ (forall x, x ∈ t.1 ++ t.2 -> inbox w' x = []) /\ Fq.more_parts f' = false
        \/ rc = 0 /\ exists q, o = Some q /\ received_from q m' f' w w' L /\ forall d, data m' h = Ok d -> data m' h' = Ok d).
Proof.
  induction fuel as [|fuel IH]; intros m f w h t Hl Hf; [lia|]. cbn [recv_message].
  destruct (listening_recvpipe m hs f w h t L Hl) as (rc & m1 & o & f1 & w1 & h1 & t1 & E & Hl1 & Hh1 & Hcase).
  assert (Hw : pipes_ok w) by (by destruct Hl as [_ [[? _] _ _ _ _ _ _]]). pose proof (recvpipe_quiet _ _ _ _ _ _ _ _ _ _ Hw E) as Hq1. rewrite E. cbn [obind].
  destruct Hcase as [(-> & -> & Hin & Hno & _ & Hm1)|(-> & q & -> & Hq & Hg & Hd)].
  - cbn [Z.eqb andb]. exists (-1), init, o, f1, w1, h1, t1. split; [done|]. split; [done|]. split; [done|]. split.
    { apply (quiet_calm _ _ _ _ _ _ _ _ Hl Hq1). intros x Hx. by rewrite Hin. }
    left. split; [done|]. split; [done|]. split; [intros x Hx; by apply less_names_same, Hin|]. split; [|done].
    intros x Hx. rewrite Hin by (by eapply heard_members). by apply Hno.
  - pose proof Hg as [G1 G2 G3 _ G5 G6].
    assert (He : forall x, x ∈ L -> inbox w x = [] -> inbox w1 x = []).
    { intros x Hx Ex. destruct (decide (x = q)) as [->|Hne]; [by rewrite Ex in G2|by rewrite G3]. }
    pose proof (quiet_calm _ _ _ _ _ _ _ _ Hl Hq1 He) as Hc1.
    assert (Hnd : NoDup L) by (destruct Hl as [(P & Ht & HL) _]; rewrite <- HL; by eapply turn_nodup).
    pose proof (Permutation_length (in_pipes_read L w w1 q m1 Hnd G1 G2 G3)) as Hlen. cbn [length] in Hlen.
    change (0 =? 0) with true. cbn [andb]. destruct (is_identity m1) eqn:Ei.
    +      destruct (IH m1 f1 w1 h1 t1 Hl1 ltac:(lia)) as (rc & m2 & o & f2 & w2 & h2 & t2 & E2 & Hl2 & Hh2 & Hc2 & Hcase).
      assert (Hone : forall x, x ∈ L -> less_names w w1 x).
      { intros x Hx. destruct (decide (x = q)) as [->|Hne]; [exists [m1]; split; [by constructor|done]|by apply less_names_same, G3]. }
      assert (He2 : forall x, x ∈ L -> inbox w1 x = [] -> inbox w2 x = []).
      { intros x Hx Ex. destruct (inbox w2 x) as [|y l] eqn:Ey; [done|]. exfalso.
        destruct Hcase as [(_ & _ & Hn & _)|(_ & q2 & _ & [R1 (ids & _ & R2) _ R4 _ _ _ _] & _)].
        - destruct (Hn x Hx) as (ids & _ & Ei2). rewrite Ex, Ey in Ei2. by destruct ids.
        - destruct (decide (x = q2)) as [->|Hne]; [rewrite Ex in R2; by destruct ids|]. destruct (R4 x Hx Hne) as (ids2 & _ & Ei2). rewrite Ex, Ey in Ei2. by destruct ids2. }
      exists rc, m2, o, f2, w2, h2, t2. split; [done|]. split; [done|]. split; [by apply (heard_trans _ _ _ _ _ _ _ _ _ _ Hh1 Hh2)|].
      split; [by apply (calm_trans _ w1)|]. destruct Hcase as [(-> & -> & Hn & Hno & Hm)|(-> & q2 & -> & [R1 R2 R3 R4 R5 R6 R7 R8] & Hd2)]; [left|right].
      * split; [done|]. split; [done|]. split; [intros x Hx; apply (less_names_trans _ w1); [by apply Hone|by apply Hn]|]. split; [|done].
        intros x Hx. destruct (heard_active _ _ _ _ _ _ _ Hh1 x Hx) as [Hx1|Hx1]; [by apply Hno|]. apply He2; [by apply (heard_members _ _ _ _ _ _ _ Hh1)|done].
      * split; [done|]. exists q2. split; [done|]. destruct R2 as (ids & R2 & R2').
        assert (Hm2 : m2 ∈ in_pipes L w1) by (apply (in_pipes_elem L w1 q2 m2 R1); rewrite R2'; apply elem_of_app; right; by left).
        split; [|intros d Hdd; apply Hd2; by apply (heard_data _ _ _ _ _ _ _ Hh1)].
        split; try done.
        -- destruct (Hone q2 R1) as (ids0 & H0' & E0). exists (ids0 ++ ids). split; [by apply Forall_app|]. by rewrite E0, R2', app_assoc.
        -- intros x Hx Hne. apply (less_names_trans _ w1); [by apply Hone|by apply R4].
        -- destruct R5 as [R5 R5']. destruct Hc1 as [_ Hc1]. destruct (Hc1 q2 R1) as [[O1 T1]|Hi]; [split; congruence|]. rewrite Hi in R2'. by destruct ids.
        -- lia.
    + exists 0, m1, (Some q), f1, w1, h1, t1. split; [done|]. split; [done|]. split; [done|]. split; [done|]. right. split; [done|]. exists q. split; [done|]. split; [|done].
      split; try done.
      * by exists [].
      * intros x Hx Hne. by apply less_names_same, G3.
      * destruct Hq1 as [_ Hq1]. destruct Hl as [_ [[_ Hatt] _ _ _ _ _ _]]. destruct (Hq1 q (Hatt q G1)) as [|Hi]; [done|]. by rewrite Hi in G2.
      * lia.
Qed.

(** ** The heap *)

Lemma move_data m s hs h : balanced (m :: s :: hs) h -> few (m :: s :: hs) -> check m = true -> check s = true ->
  exists h', move m s h = Ok (0, s, init, h') /\ balanced (s :: hs) h' /\ forall x d, x ∈ s :: hs -> data x h = Ok d -> data x h' = Ok d.
Proof.
  intros Hb Hf Hm Hs. destruct (close_ok m (s :: hs) h Hb Hf Hm) as (h' & E & Hb' & _). exists h'. unfold move. rewrite Hs, E. cbn [negb obind].
  split; [done|]. split; [done|]. intros x d. by apply (close_data m (s :: hs) h _ _ h' x d Hb Hf E).
Qed.

Lemma drop_msg_ok m hs h : balanced (m :: hs) h -> few (m :: hs) -> check m = true ->
  exists h', drop_msg m h = Ok (init, h') /\ balanced hs h' /\ forall x d, x ∈ hs -> data x h = Ok d -> data x h' = Ok d.
Proof.
  intros Hb Hf Hm. destruct (close_ok m hs h Hb Hf Hm) as (h' & E & Hb' & _). exists h'. unfold drop_msg. rewrite E. cbn [obind]. split; [done|]. split; [done|].
  intros x d. by apply (close_data m hs h _ _ h' x d Hb Hf E).
Qed.

Lemma flags_keep_owner a m f : Z.testbit f 7 = false -> owner a (set_flags f m) = owner a m.
Proof.
  intros Hf. unfold owner. cbn [u set_flags]. destruct (u m); try done. case_decide; [|done]. f_equal. unfold has_flag, set_flags, flags_of. cbn [msg_flags_].
  replace (Z.land (Z.lor (msg_flags_ m) f) shared) with (Z.land (msg_flags_ m) shared); [done|]. rewrite Z.land_lor_distr_l.
  replace (Z.land f shared) with 0; [by rewrite Z.lor_0_r|]. change shared with (2 ^ 7). apply Z.bits_inj'. intros n Hn. rewrite Z.bits_0, Z.land_spec, Z.pow2_bits_eqb by lia.
  destruct (Z.eqb_spec 7 n) as [<-|]; [by rewrite Hf|by rewrite andb_false_r].
Qed.

Lemma balanced_flags m f hs h : Z.testbit f 7 = false -> balanced (m :: hs) h -> balanced (set_flags f m :: hs) h.
Proof. intros Hf Hb a. specialize (Hb a). by rewrite owners_cons, (flags_keep_owner a m f Hf). Qed.

Lemma make_msg_ok available d hs h : (forall n, available n = true) -> Z.of_nat (length d) < 2 ^ 64 - sizeof_content -> balanced hs h ->
  exists m h', make_msg available d h = Ok (m, h') /\ balanced (m :: hs) h' /\ data m h' = Ok d /\ flags_of m = 0 /\ forall x e, data x h = Ok e -> data x h' = Ok e.
Proof.
  intros Hav Hd Hb. destruct (init_size_spec available (fun _ => d) (Z.of_nat (length d)) h hs ltac:(lia) Hb) as (o & E & Ho). unfold make_msg. rewrite E. cbn [obind].
  revert E. unfold init_size, malloc_content. rewrite Hav. cbn [negb]. destruct (_ <=? max_vsm_size).
  - intros [= <-]. by eexists _, h.
  - destruct (assertion _ _); try done. cbn [obind]. intros [= <-]. eexists _, _. split; [reflexivity|]. split; [apply Ho|]. split; [|split; [done|]].
    + unfold data. cbn. unfold content_at. lookups. done.
    + intros x e. unfold data. destruct (check x); cbn [assertion obind]; [|done]. destruct (u x) as [?|b| |]; try done.
      unfold content_at. destruct (contents h !! b) as [c|] eqn:Ea; [|done]. lookups. rewrite lookup_insert_ne; [by rewrite Ea|]. intros <-. by rewrite fresh_content in Ea.
Qed.

(** ** A part is sent *)

(** Pipes were written to, and no more. *)
Record written (w w' : W) : Prop := {
  wr_ok : pipes_ok w';
  wr_att q : attached w' q <-> attached w q;
  wr_in q : attached w q -> inbox w' q = inbox w q;
  wr_id q : identity_of w' q = identity_of w q
}.

Lemma written_trans w w1 w2 : written w w1 -> written w1 w2 -> written w w2.
Proof.
  intros [O1 A1 I1 D1] [O2 A2 I2 D2]. split; [done|..]; intros q.
  - by rewrite A2.
  - intros Hq. rewrite I2 by by apply A1. by apply I1.
  - by rewrite D2.
Qed.

(** The messages that went out: by the pipe, or they were dropped. *)
Definition sent_to (o : option Z) (ms : list msg_t) (w w' : W) : Prop :=
  forall x, attached w x -> outbox w' x = if bool_decide (o = Some x) then outbox w x ++ ms else outbox w x.

Lemma sent_to_trans o ms ms' w w1 w2 : (forall q, attached w1 q <-> attached w q) -> sent_to o ms w w1 -> sent_to o ms' w1 w2 -> sent_to o (ms ++ ms') w w2.
Proof. intros Ha H1' H2' x Hx. rewrite (H2' x (proj2 (Ha x) Hx)), (H1' x Hx). case_bool_decide; [by rewrite app_assoc|done]. Qed.

(** The pipe of the message takes what follows. *)
Definition open_way (o : option Z) (w : W) : Prop := match o with Some p => attached w p /\ taking w p = true | None => True end.

Definition kept (o : option Z) (ms : list msg_t) : list msg_t := match o with Some _ => ms | None => [] end.

Lemma send_part_ok m r w hs h : more_out r = true -> pipes_ok w -> open_way (current_out r) w -> balanced (m :: hs) h -> few (m :: hs) -> check m = true ->
  exists w' h', router_xsend m r w h = Ok (Done, init, with_out (if has_flag more m then current_out r else None) (has_flag more m) r, w', h')
    /\ written w w' /\ sent_to (current_out r) [m] w w' /\ (has_flag more m = true -> open_way (current_out r) w')
    /\ balanced (kept (current_out r) [m] ++ hs) h' /\ (forall x d, x ∈ hs -> data x h = Ok d -> data x h' = Ok d)
    /\ (forall x, current_out r <> Some x -> taking w' x = taking w x).
Proof.
  intros Hmo Hw Hway Hb Hf Hc. unfold router_xsend. rewrite Hmo. cbn [negb]. cbn [current_out with_out]. destruct (current_out r) as [p|] eqn:Eo.
  - destruct Hway as [Hp Ht]. destruct (pipe_write_ok w p m Hw Hp) as (b & w1 & E & Hw1 & Hatt & Hin & Hout & Hb1 & Hgo & Hoth). rewrite Ht in Hb1. subst b.
    rewrite E. cbn [obind negb]. pose proof (write_quiet w p m true w1 E) as Hid.
    assert (Hs : sent_to (Some p) [m] w w1).
    { intros x Hx. rewrite Hout by done. cbn [andb]. destruct (decide (p = x)) as [->|Hne]; [by rewrite !bool_decide_eq_true_2|by rewrite !bool_decide_eq_false_2 by congruence]. }
    cbn [more_out with_out]. destruct (has_flag more m) eqn:Em; cbn [negb].
    + exists w1, h. split; [done|]. split; [by split|]. split; [done|]. split; [intros _; split; [by apply Hatt|by apply Hgo]|]. split; [done|]. split; [done|].
      intros x Hx. apply Hoth. congruence.
    + destruct (pipe_flush_ok w1 p Hw1 ltac:(by apply Hatt)) as (w2 & E2 & Hw2 & Hatt2 & Hio & Ht2). rewrite E2. cbn [obind]. pose proof (flush_quiet w1 p w2 E2) as Hid2.
      exists w2, h. split; [done|]. split; [split; [done|..]|].
      * intros q. by rewrite Hatt2.
      * intros q Hq. rewrite (proj1 (Hio q ltac:(by apply Hatt))). by apply Hin.
      * intros q. by rewrite Hid2.
      * split; [intros x Hx; rewrite (proj2 (Hio x ltac:(by apply Hatt))); by apply Hs|]. split; [done|]. split; [done|]. split; [done|].
        intros x Hx. rewrite Ht2. apply Hoth. congruence.
  - destruct (drop_msg_ok m hs h Hb Hf Hc) as (h' & E & Hb' & Hd). rewrite E. cbn [obind]. exists w, h'. split; [by destruct (has_flag more m)|].
    split; [by split|]. split; [by intros x Hx|]. by split_and!.
Qed.

(** ** A message is sent *)

(** The pipe that takes a message for [i], if there is one. *)
Definition routed (i : bytes) (r : router_t) (w : W) : option Z :=
  match outpipes r !! i with Some o => if taking w (pipe o) then Some (pipe o) else None | None => None end.

(** A peer that takes nothing is passive from then on. *)
Definition passive (i : bytes) (r : router_t) (w : W) : gmap bytes outpipe_t :=
  match outpipes r !! i with Some o => if taking w (pipe o) then outpipes r else <[i := mkOutpipe (pipe o) false]> (outpipes r) | None => outpipes r end.

Definition unreachable (i : bytes) (r : router_t) : bool := mandatory r && bool_decide (outpipes r !! i = None).

(** Between messages. *)
Definition resting (r : router_t) : Prop := more_out r = false /\ current_out r = None.

(** The peer with this name is there. *)
Definition peer_attached (i : bytes) (r : router_t) (w : W) : Prop := forall o, outpipes r !! i = Some o -> attached w (pipe o).

Lemma route_refused m i r w h : resting r -> has_flag more m = true -> data m h = Ok i -> unreachable i r = true -> router_xsend m r w h = Ok (EHOSTUNREACH, m, r, w, h).
Proof.
  intros [Hmo Ho] Hm Hi Hun. apply andb_true_iff in Hun as [Hman Hno%bool_decide_eq_true]. unfold router_xsend. rewrite Hmo, Ho, bool_decide_eq_true_2 by done.
  cbn [negb assertion obind]. rewrite Hm, Hi. cbn [obind]. cbn [outpipes mandatory with_out]. rewrite Hno, Hman. destruct r. cbn in *. by subst.
Qed.

Lemma route_ok m i hs r w h : resting r -> pipes_ok w -> peer_attached i r w -> has_flag more m = true -> data m h = Ok i -> unreachable i r = false ->
  balanced (m :: hs) h -> few (m :: hs) ->
  exists w' h', router_xsend m r w h = Ok (Done, init, with_out (routed i r w) true (with_outpipes (passive i r w) r), w', h')
    /\ written w w' /\ (forall x, attached w x -> outbox w' x = outbox w x) /\ (forall x, taking w' x = taking w x) /\ open_way (routed i r w) w'
    /\ balanced hs h' /\ (forall x d, x ∈ hs -> data x h = Ok d -> data x h' = Ok d).
Proof.
  intros [Hmo Ho] Hw Hk Hm Hi Hun Hb Hf. unfold router_xsend. rewrite Hmo, Ho, bool_decide_eq_true_2 by done. cbn [negb assertion obind]. rewrite Hm, Hi. cbn [obind].
  cbn [outpipes mandatory current_out more_out with_out].
  assert (Hc : check m = true) by (unfold data in Hi; by destruct (check m)). destruct (drop_msg_ok m hs h Hb Hf Hc) as (h' & Ed & Hb' & Hd).
  unfold unreachable in Hun. unfold routed, passive. destruct (outpipes r !! i) as [o|] eqn:Eo.
  - destruct (pipe_check_write_ok w (pipe o) Hw (Hk o Eo)) as (b & w1 & E & Hw1 & Hatt & Hio). destruct (check_write_tells w _ _ _ E) as (Hb1 & Ht & Hid). rewrite E. cbn [obind].
    rewrite Ed. cbn [obind]. exists w1, h'. split; [by subst b; destruct (taking w (pipe o)), r|]. split; [split; try done; intros q Hq; by apply Hio|].
    split; [intros x Hx; by apply Hio|]. split; [done|]. split; [|done]. destruct (taking w (pipe o)) eqn:Et; [|done]. split; [by apply Hatt, Hk|by rewrite Ht].
  - rewrite bool_decide_eq_true_2, andb_true_r in Hun by done. rewrite Hun, Ed. cbn [obind]. exists w, h'. split; [by destruct r; cbn in *; subst|]. by split_and!.
Qed.

(** The parts of a message, one call after the other. *)
Fixpoint router_sends (ms : list msg_t) (r : router_t) (w : W) (h : memory) : outcome (result * router_t * W * memory) :=
  match ms with
  | [] => Ok (Done, r, w, h)
  | m :: ms' =>
      let! (rc, _, r, w, h) := router_xsend m r w h in
      if bool_decide (rc <> Done) then Ok (rc, r, w, h) else router_sends ms' r w h
  end.

Lemma kept_app o ms ms' : kept o (ms ++ ms') = kept o ms ++ kept o ms'.
Proof. by destruct o. Qed.

Lemma few_shrink ms ms' hs : (length ms' <= length ms)%nat -> few (ms ++ hs) -> few (ms' ++ hs).
Proof. unfold few. rewrite !length_app. lia. Qed.

Lemma kept_length o ms : (length (kept o ms) <= length ms)%nat.
Proof. destruct o; cbn; lia. Qed.

Lemma send_rest_parts last parts : has_flag more last = false -> Forall (fun m => has_flag more m = true) parts -> forall hs r w h,
  Forall (fun m => check m = true) (parts ++ [last]) -> more_out r = true -> pipes_ok w -> open_way (current_out r) w ->
  balanced ((parts ++ [last]) ++ hs) h -> few ((parts ++ [last]) ++ hs) ->
  exists w' h', router_sends (parts ++ [last]) r w h = Ok (Done, with_out None false r, w', h')
    /\ written w w' /\ sent_to (current_out r) (parts ++ [last]) w w' /\ balanced (kept (current_out r) (parts ++ [last]) ++ hs) h'
    /\ (forall x d, x ∈ hs -> data x h = Ok d -> data x h' = Ok d).
Proof.
  intros Hl Hall. induction Hall as [|m parts Hm Hall IH]; intros hs r w h Hc Hmo Hw Hway Hb Hf; cbn [app router_sends] in *; apply Forall_cons in Hc as [Hcm Hc];
    destruct (send_part_ok m r w _ h Hmo Hw Hway Hb Hf Hcm) as (w1 & h1 & E & Hwr & Hs & Hgo & Hb1 & Hd & _) || destruct (send_part_ok last r w _ h Hmo Hw Hway Hb Hf Hcm) as (w1 & h1 & E & Hwr & Hs & _ & Hb1 & Hd & _);
    rewrite E; cbn [obind]; rewrite (bool_decide_eq_false_2 (Done <> Done)) by auto.
  - rewrite Hl. exists w1, h1. by split_and!.
  - rewrite Hm in *. set (r1 := with_out (current_out r) true r).
    assert (Hp : kept (current_out r) [m] ++ (parts ++ [last]) ++ hs ≡ₚ (parts ++ [last]) ++ kept (current_out r) [m] ++ hs) by apply Permutation_app_swap_app.
    destruct (IH (kept (current_out r) [m] ++ hs) r1 w1 h1 Hc eq_refl (wr_ok _ _ Hwr) (Hgo eq_refl)) as (w2 & h2 & E2 & Hwr2 & Hs2 & Hb2 & Hd2).
    { by rewrite <- Hp. }
    { unfold few in *. rewrite <- (Permutation_length Hp). pose proof (kept_length (current_out r) [m]) as Hk. rewrite !length_app in *. cbn [length] in *. rewrite !length_app in *. cbn [length] in *. lia. }
    exists w2, h2. split; [exact E2|]. split; [by apply (written_trans _ w1)|]. split; [by apply (sent_to_trans _ [m] _ w w1 w2 (wr_att _ _ Hwr))|].
    split; [|intros x d Hx Hxd; apply Hd2; [apply elem_of_app; by right|]; apply Hd; [apply elem_of_app; by right|done]].
    change (current_out r1) with (current_out r) in Hb2. change (m :: parts ++ [last]) with ([m] ++ parts ++ [last]). rewrite kept_app, <- app_assoc, Permutation_app_swap_app. exact Hb2.
Qed.

(** ** A message is received *)

Variable available : Z -> bool.
Hypothesis memory_left : forall n, available n = true.

(** Between messages, nothing kept. *)
Record at_start (r : router_t) : Prop := {
  as_prefetched : prefetched r = false;
  as_message : prefetched_msg r = init;
  as_more : more_in r = false;
  as_fq : Fq.more_parts (fq r) = false
}.

(** The parts [l] of a message of [q], and what follows it, are still to be read;
    the first one may be kept. *)
Definition at_part (q : Z) (l : list msg_t) (r : router_t) (w : W) : Prop :=
  prefetched r = true /\ identity_sent r = true /\ l = prefetched_msg r :: inbox w q
    /\ Fq.more_parts (fq r) = has_flag more (prefetched_msg r) /\ (has_flag more (prefetched_msg r) = true -> current_pipe (rot (fq r)) = Ok q)
  \/ prefetched r = false /\ prefetched_msg r = init /\ more_in r = true /\ l = inbox w q /\ Fq.more_parts (fq r) = true /\ current_pipe (rot (fq r)) = Ok q.

(** What sending knows. *)
Definition sending (r : router_t) := (outpipes r, current_out r, more_out r, mandatory r).

(** The router listens, with [m] in the hands of the caller. *)
Definition router_listens (m : msg_t) (hs : list msg_t) (r : router_t) (w : W) (h : memory) (t : turns) (L : list Z) : Prop :=
  listening m (prefetched_msg r :: hs) (fq r) w h t L.

(** A name is short enough for a message. *)
Definition short_name (i : bytes) : Prop := Z.of_nat (length i) < 2 ^ 64 - sizeof_content.

Lemma has_data_check m h d : data m h = Ok d -> check m = true.
Proof. unfold data. by destruct (check m). Qed.

Lemma swap_kept {A} (x y : A) l k : x :: l ++ y :: k ≡ₚ y :: l ++ x :: k.
Proof. by rewrite <- !Permutation_middle, Permutation_swap. Qed.

(** The name in front of a message. *)
Lemma name_made i m1 hs f w h t L : short_name i -> listening m1 (init :: hs) f w h t L ->
  exists m h', make_msg available i h = Ok (m, h') /\ listening (set_flags more m) (m1 :: hs) f w h' t L /\ data (set_flags more m) h' = Ok i
    /\ has_flag more (set_flags more m) = true /\ forall x d, data x h = Ok d -> data x h' = Ok d.
Proof.
  intros Hi Hl. pose proof Hl as [_ [[Hw _] Hb Hfew Hc _ _ _]]. destruct (make_msg_ok available i _ h memory_left Hi Hb) as (m & h' & E & Hb' & Hm & Hfl & Hk).
  exists m, h'. split; [done|]. assert (Hd : data (set_flags more m) h' = Ok i) by exact Hm.
  split; [|split; [done|split; [unfold has_flag, flags_of, set_flags; cbn [msg_flags_]; by rewrite Hfl|done]]].
  apply (listening_change m1 (init :: hs) f w h t L); try done.
  - apply balanced_flags; [done|]. rewrite (swap_kept m1 init), (Permutation_swap init) in Hb'. by apply balanced_nothing in Hb'.
  - unfold few in *. cbn [length] in *. rewrite !length_app in *. cbn [length] in *. done.
  - by apply (has_data_check _ h' i).
  - intros x d _. apply Hk.
Qed.

Lemma move_init m h : check m = true -> move init m h = Ok (0, m, init, h).
Proof. intros Hm. unfold move. by rewrite Hm. Qed.

Lemma router_begins m hs r w h t L fuel : at_start r -> router_listens m hs r w h t L -> (length (in_pipes L w) < fuel)%nat ->
  (forall x, x ∈ L -> short_name (identity_of w x)) ->
  exists res m' r' w' h' t', router_xrecv available fuel m r w h = Ok (res, m', r', w', h') /\ router_listens m' hs r' w' h' t' L /\ calm w w' L /\ pipes_keep w w' h h' L /\ sending r' = sending r
    /\ (res = EAGAIN /\ at_start r' /\ (forall x, x ∈ L -> less_names w w' x) /\ (forall x, x ∈ t.1 ++ t.2 -> inbox w' x = [])
        \/ res = Done /\ exists q m1, received_from q m1 (fq r') w w' L /\ at_part q (m1 :: inbox w' q) r' w' /\ check m1 = true /\ has_flag more m' = true
             /\ data m' h' = Ok (identity_of w q) /\ forall x d, x ∈ m1 :: inbox w' q -> data x h = Ok d -> data x h' = Ok d).
Proof.
  intros [Hp Hpm Hmo Hfm] Hl Hf Hs. unfold router_listens in Hl. rewrite Hpm in Hl. unfold router_xrecv. rewrite Hp.
  destruct (recv_message_ok (init :: hs) L fuel m (fq r) w h t Hl Hf) as (rc & m1 & o & f1 & w1 & h1 & t1 & E & Hl1 & Hh & Hc & Hcase). rewrite E. cbn [obind].
  destruct Hcase as [(-> & -> & Hn & Hno & Hm)|(-> & q & -> & Hrf & Hd)]; cbn [Z.eqb negb].
  - exists EAGAIN, init, (with_fq f1 r), w1, h1, t1. split; [done|]. unfold router_listens. cbn [prefetched_msg fq with_fq]. rewrite Hpm. split; [done|]. split; [done|]. split; [by apply (heard_keep _ _ _ _ _ _ _ Hh)|]. split; [done|].
    left. by split_and!.
  - pose proof Hl1 as [_ [[_ Hatt] _ _ Hck _ _ _]]. cbn [the_pipe obind more_in with_fq prefetched_msg]. rewrite Hmo, Hpm, (move_init m1 h1 Hck). cbn [obind assertion Z.eqb].
    rewrite (get_identity_ok w1 q (Hatt q (rf_in _ _ _ _ _ _ Hrf))). cbn [obind]. destruct Hc as [Hid Hc]. rewrite Hid.
    destruct (name_made (identity_of w q) m1 hs f1 w1 h1 t1 L (Hs q (rf_in _ _ _ _ _ _ Hrf)) Hl1) as (i & h2 & E2 & Hl2 & Hdi & Hmi & Hk). rewrite E2. cbn [obind].
    eexists Done, _, _, w1, h2, t1. split; [reflexivity|]. split; [exact Hl2|]. split; [by split|].
    split; [intros x Hx; destruct (heard_keep _ _ _ _ _ _ _ Hh x Hx) as [? Hxd]; split; [done|]; intros d Hdd; by apply Hk, Hxd|]. split; [done|]. right. split; [done|]. exists q, m1. split; [exact Hrf|].
    split; [|split; [done|split; [done|split; [done|]]]].
    + left. cbn. split_and!; try done; [apply (rf_more _ _ _ _ _ _ Hrf)|apply (rf_next _ _ _ _ _ _ Hrf)].
    + intros x d [->|Hx]%elem_of_cons Hxd; apply Hk; [by apply Hd|]. apply (heard_data _ _ _ _ _ _ _ Hh); [|done]. by apply (in_pipes_elem L w1 q x (rf_in _ _ _ _ _ _ Hrf)).
Qed.

(** The next part of the message of [q]. *)
Record next_part (q : Z) (m1 : msg_t) (l : list msg_t) (hs : list msg_t) (r r' : router_t) (w w' : W) (h h' : memory) (t' : turns) (L : list Z) : Prop := {
  np_listens : router_listens m1 hs r' w' h' t' L;
  np_calm : calm w w' L;
  np_out : undisturbed w w' q;
  np_sending : sending r' = sending r;
  np_rest : inbox w' q = l;
  np_others x : x ∈ L -> x <> q -> inbox w' x = inbox w x;
  np_then : if has_flag more m1 then at_part q l r' w' else at_start r';
  np_data x d : x ∈ m1 :: l -> data x h = Ok d -> data x h' = Ok d;
  np_pipes : pipes_keep w w' h h' L;
  np_kept : prefetched r' = false;
  np_load : (length (in_pipes L w') + 1 = length (in_pipes L w) + (if prefetched r then 1 else 0))%nat
}.

(** The message that was kept. *)
Lemma router_next_kept q m1 l m hs r w h t L fuel : prefetched r = true -> identity_sent r = true -> m1 :: l = prefetched_msg r :: inbox w q ->
  Fq.more_parts (fq r) = has_flag more (prefetched_msg r) -> (has_flag more (prefetched_msg r) = true -> current_pipe (rot (fq r)) = Ok q) ->
  router_listens m hs r w h t L -> q ∈ L -> check m1 = true ->
  exists r' w' h' t', router_xrecv available fuel m r w h = Ok (Done, m1, r', w', h') /\ next_part q m1 l hs r r' w w' h h' t' L.
Proof.
  intros Hp Hs [= Epm El] Hfm Hcur Hl Hq Hck. unfold router_listens in Hl. rewrite <- Epm in *. unfold router_xrecv. rewrite Hp, Hs. cbn [negb].
  pose proof Hl as [_ [[Hw _] Hb Hfew Hc Hdata _ _]].
  assert (Hperm : m :: in_pipes L w ++ m1 :: hs ≡ₚ m :: m1 :: in_pipes L w ++ hs) by by rewrite <- Permutation_middle.
  destruct (move_data m m1 (in_pipes L w ++ hs) h) as (h' & E & Hb' & Hk); [by rewrite <- Hperm|unfold few in *; by rewrite <- (Permutation_length Hperm)|done..|].
  rewrite <- Epm, E. cbn [obind assertion Z.eqb]. eexists _, w, h', t. split; [reflexivity|].
  split; cbn [prefetched_msg with_prefetched with_more_in fq]; try done.
  - unfold router_listens. cbn [prefetched_msg with_prefetched with_more_in fq]. apply (listening_change m (m1 :: hs) _ w h t L); try done.
    + rewrite <- Permutation_middle, Permutation_swap. by apply balanced_nothing.
    + unfold few in *. cbn [length] in *. rewrite !length_app in *. cbn [length] in *. done.
    + intros x d Hx. apply Hk. right. apply elem_of_app. by left.
  - split; [done|]. intros x _. left. by split.
  - destruct (has_flag more m1) eqn:Em; [|by split].
    right. cbn. split_and!; try done. by apply Hcur.
  - intros x d [->|Hx]%elem_of_cons; apply Hk; [by left|]. right. apply elem_of_app. left. apply (in_pipes_elem L w q x Hq). by rewrite <- El.
  - intros x Hx. split; [done|]. intros d. apply Hk. right. apply elem_of_app. by left.
  - by rewrite Hp.
Qed.

Lemma router_next_read q m1 l m hs r w h t L fuel : prefetched r = false -> prefetched_msg r = init -> more_in r = true -> inbox w q = m1 :: l ->
  Fq.more_parts (fq r) = true -> current_pipe (rot (fq r)) = Ok q ->
  router_listens m hs r w h t L -> is_identity m1 = false -> (0 < fuel)%nat ->
  exists r' w' h' t', router_xrecv available fuel m r w h = Ok (Done, m1, r', w', h') /\ next_part q m1 l hs r r' w w' h h' t' L.
Proof.
  intros Hp Hpm Hmo Ew Hfm Hcur Hl Hi Hf. destruct fuel as [|fuel]; [lia|]. unfold router_xrecv. rewrite Hp. cbn [recv_message].
  destruct (listening_recvpipe m _ _ w h t L Hl) as (rc & m' & o & f1 & w1 & h1 & t1 & E & Hl1 & Hh1 & Hcase). pose proof Hl as [_ [[Hw Hatt] _ _ _ _ _ _]].
  pose proof (recvpipe_quiet _ _ _ _ _ _ _ _ _ _ Hw E) as Hq1. rewrite E. cbn [obind].
  destruct Hcase as [(_ & _ & _ & _ & Hn & _)|(-> & q' & -> & _ & [G1 G2 G3 G4 G5 G6] & Hd)]; [congruence|].
  assert (q' = q) as -> by (specialize (G4 Hfm); congruence). rewrite Ew in G2. injection G2 as <- El. rewrite Hi. cbn [Z.eqb andb negb the_pipe obind more_in with_fq]. rewrite Hmo.
  assert (He : forall x, x ∈ L -> inbox w x = [] -> inbox w1 x = []) by (intros x Hx Ex; destruct (decide (x = q)) as [->|Hne]; [by rewrite Ex in Ew|by rewrite G3]).
  eexists _, w1, h1, t1. split; [reflexivity|]. split; try done.
  - by apply (quiet_calm _ _ _ _ _ _ _ _ Hl Hq1).
  - destruct Hq1 as [_ Hq1]. destruct (Hq1 q (Hatt q G1)) as [|Ei]; [done|]. by rewrite Ei in Ew.
  - destruct (has_flag more m1) eqn:Em; [|by split]. right. split_and!; try done. by apply G6.
  - intros x d [->|Hx]%elem_of_cons; [apply Hd|]. apply (heard_data _ _ _ _ _ _ _ Hh1). apply (in_pipes_elem L w1 q x G1). by rewrite <- El.
  - by apply (heard_keep _ _ _ _ _ _ _ Hh1).
  - assert (Hnd : NoDup L) by (destruct Hl as [(P & Ht & HL) _]; rewrite <- HL; by eapply turn_nodup).
    assert (Eq : inbox w q = m1 :: inbox w1 q) by by rewrite <- El. pose proof (Permutation_length (in_pipes_read L w w1 q m1 Hnd G1 Eq G3)) as Hlen. rewrite Hp. cbn [length] in Hlen. lia.
Qed.

Lemma router_next q m1 l m hs r w h t L fuel : at_part q (m1 :: l) r w -> router_listens m hs r w h t L -> q ∈ L -> is_identity m1 = false -> check m1 = true -> (0 < fuel)%nat ->
  exists r' w' h' t', router_xrecv available fuel m r w h = Ok (Done, m1, r', w', h') /\ next_part q m1 l hs r r' w w' h h' t' L.
Proof.
  intros [(Hp & Hs & El & Hfm & Hcur)|(Hp & Hpm & Hmo & El & Hfm & Hcur)] Hl Hq Hi Hck Hf; [by apply (router_next_kept _ _ _ _ _ _ _ _ t)|by apply (router_next_read _ _ _ _ _ _ _ _ t)].
Qed.
End Routing.

(** ** The properties *)

(** C21: a message goes to the peer that is named in front of it.  Between messages,
    the parts behind a name arrive whole and in order at the pipe of the peer with
    this name, and nothing arrives anywhere else; when this pipe takes nothing, or
    no peer has the name, the parts are dropped and their contents freed, unless
    unreachable peers are to be reported: then the name is refused, with nothing
    changed.  The name itself is not sent, and the socket is between messages
    again. *)
Theorem router_routes {W} `{RouteLaws W} m i parts last hs r w h :
  resting r -> pipes_ok w -> peer_attached i r w -> has_flag more m = true -> data m h = Ok i -> Forall (fun z => has_flag more z = true) parts -> has_flag more last = false ->
  Forall (fun z => check z = true) (parts ++ [last]) -> balanced (m :: (parts ++ [last]) ++ hs) h -> few (m :: (parts ++ [last]) ++ hs) ->
  if unreachable i r then router_xsend m r w h = Ok (EHOSTUNREACH, m, r, w, h)
  else exists w' h', router_sends (m :: parts ++ [last]) r w h = Ok (Done, with_outpipes (passive i r w) r, w', h')
    /\ sent_to (routed i r w) (parts ++ [last]) w w' /\ balanced (kept (routed i r w) (parts ++ [last]) ++ hs) h'.
Proof.
  intros Hr Hw Hp Hm Hi Hall Hl Hc Hb Hf. destruct (unreachable i r) eqn:Hu; [by apply (route_refused m i)|].
  destruct (route_ok m i _ r w h Hr Hw Hp Hm Hi Hu Hb Hf) as (w1 & h1 & E & Hwr & Hout & Ht & Hway & Hb1 & _). cbn [router_sends]. rewrite E. cbn [obind].
  rewrite (bool_decide_eq_false_2 (Done <> Done)) by auto.
  destruct (send_rest_parts last parts Hl Hall hs (with_out (routed i r w) true (with_outpipes (passive i r w) r)) w1 h1 Hc eq_refl (wr_ok _ _ Hwr) Hway Hb1) as (w2 & h2 & E2 & Hwr2 & Hs & Hb2 & _).
  { unfold few in *. cbn [length] in Hf. lia. }
  exists w2, h2. split; [|split; [|done]].
  - rewrite E2. destruct Hr as [Hmo Ho]. destruct r. cbn in *. by subst.
  - intros x Hx. rewrite (Hs x) by by apply Hwr. by rewrite (Hout x Hx).
Qed.
