(* ===== verification/RouterPeers.v ===== *)
(** * A router knows its peers

    Every pipe of a router is anonymous, or it is in the fair queue and in the
    table, under the identity that the pipe has.  The invariant [peers_ok] holds
    whatever pipes come and go and whatever the user does in between. *)

From stdpp Require Import tactics gmap list.
From S2P Require Import Prelude Msg MsgTheorems Array Pipes Routes Rotation Fq FqTheorems Router RouterTheorems.

Section Peers.
Context {W : Type} `{RouteLaws W}.
Variable available : Z -> bool.

Definition in_queue (r : router_t) (p : Z) : Prop := member (Rotation.pipes (rot (fq r))) p.

Record peers_ok (r : router_t) (w : W) : Prop := {
  po_world : pipes_ok w;
  po_turns : exists A B P, turn (rot (fq r)) A B P;
  po_anonymous p : p ∈ anonymous_pipes r -> ~ in_queue r p /\ attached w p;
  po_table i o : outpipes r !! i = Some o -> in_queue r (pipe o) /\ attached w (pipe o) /\ identity_of w (pipe o) = i;
  po_queue p : in_queue r p -> exists o, outpipes r !! identity_of w p = Some o /\ pipe o = p;
  po_current p : current_out r = Some p -> in_queue r p
}.

(** The same pipes, with the same identities. *)
Record same_peers (w w' : W) : Prop := {
  sp_ok : pipes_ok w';
  sp_att q : attached w' q <-> attached w q;
  sp_id q : identity_of w' q = identity_of w q
}.

Lemma same_peers_trans w w1 w2 : same_peers w w1 -> same_peers w1 w2 -> same_peers w w2.
Proof. intros [O1 A1 I1] [O2 A2 I2]. split; [done|..]; intros q; [by rewrite A2|by rewrite I2]. Qed.

Lemma written_same w w' : written w w' -> same_peers w w'.
Proof. by intros [? ? _ ?]. Qed.

(** The pipes [r] knows did not change. *)
Lemma peers_kept r r' w w' : peers_ok r w -> same_peers w w' -> (exists A B P, turn (rot (fq r')) A B P) -> (forall p, in_queue r' p <-> in_queue r p) ->
  anonymous_pipes r' = anonymous_pipes r -> (forall i, pipe <$> outpipes r' !! i = pipe <$> outpipes r !! i) -> (forall p, current_out r' = Some p -> in_queue r p) -> peers_ok r' w'.
Proof.
  intros [O T A R Q C] [Hw Ha Hi] Ht Hm Han Hp Hc. split; try done.
  - intros p. rewrite Han, Hm, Ha. apply A.
  - intros i o Ho. specialize (Hp i). rewrite Ho in Hp. destruct (outpipes r !! i) as [o1|] eqn:E; [|done]. injection Hp as Hp. rewrite Hp, Hm, Ha, Hi. by apply R.
  - intros p Hq%Hm. destruct (Q p Hq) as (o & Eo & Ep). rewrite Hi. specialize (Hp (identity_of w p)). rewrite Eo in Hp.
    destruct (outpipes r' !! identity_of w p) as [o'|]; [|done]. injection Hp as Hp. exists o'. split; [done|congruence].
  - intros p Hp'. by apply Hm, Hc.
Qed.

Lemma known_once r w i o : peers_ok r w -> outpipes r !! i = Some o -> identity_of w (pipe o) = i.
Proof. intros [_ _ _ R _ _] Ho. by apply (R i o). Qed.

(** ** A peer says its name *)

(** The first message of the pipe can be read as a name; when it is empty the next
    generated name is free. *)
Definition name_readable (p : Z) (r : router_t) (w : W) (h : memory) : Prop :=
  forall m, head (inbox w p) = Some m -> exists d rc m' h', data m h = Ok d /\ close m h = Ok (rc, m', h') /\ (d = [] -> outpipes r !! generated_id (next_peer_id r) = None).

Lemma identify_ok p r w h : pipes_ok w -> attached w p -> name_readable p r w h ->
  exists b r' w' h', identify_peer p r w h = Ok (b, r', w', h') /\ fq r' = fq r /\ anonymous_pipes r' = anonymous_pipes r /\ current_out r' = current_out r
    /\ pipes_ok w' /\ (forall q, attached w' q <-> attached w q)
    /\ (b = false /\ outpipes r' = outpipes r /\ (forall q, identity_of w' q = identity_of w q)
        \/ b = true /\ exists i, outpipes r !! i = None /\ outpipes r' = <[i := mkOutpipe p true]> (outpipes r)
             /\ forall q, identity_of w' q = if bool_decide (p = q) then i else identity_of w q).
Proof.
  intros Hw Hp Hn. unfold identify_peer. destruct (pipe_read_ok w p Hw Hp) as (o & w1 & E & Hw1 & Hatt & Ho & _). destruct (read_quiet w p o w1 Hw E) as (_ & Hid & _). rewrite E. cbn [obind].
  destruct o as [m|]; [|exists false, r, w1, h; split_and!; try done; by left].
  destruct (Hn m (eq_sym Ho)) as (d & rc & m' & h' & Hd & Hc & Hgen). unfold Msg.size. rewrite Hd. cbn [obind].
  assert (Hp1 : attached w1 p) by by apply Hatt.
  destruct (Z.eqb_spec (Z.of_nat (length d)) 0) as [Ez|Ez].
  - assert (d = []) by (destruct d; [done|cbn in Ez; lia]). rewrite Hc. cbn [obind]. set (i := generated_id (next_peer_id r)) in *.
    destruct (set_identity_ok w1 p i Hw1 Hp1) as (w2 & E2 & Hw2 & Hatt2 & _ & Hid2). rewrite E2. cbn [obind outpipes with_next_peer_id]. rewrite bool_decide_eq_true_2 by by apply Hgen. cbn [assertion obind].
    eexists true, _, w2, h'. split; [reflexivity|]. cbn. split_and!; try done; [intros q; by rewrite Hatt2|]. right. split; [done|]. exists i. split; [by apply Hgen|]. split; [done|].
    intros q. rewrite Hid2. by rewrite Hid.
  - rewrite Hc. cbn [obind]. destruct (outpipes r !! d) as [o|] eqn:Eo; [exists false, r, w1, h'; split_and!; try done; by left|].
    destruct (set_identity_ok w1 p d Hw1 Hp1) as (w2 & E2 & Hw2 & Hatt2 & _ & Hid2). rewrite E2. cbn [obind]. rewrite bool_decide_eq_true_2 by done. cbn [assertion obind].
    eexists true, _, w2, h'. split; [reflexivity|]. cbn. split_and!; try done; [intros q; by rewrite Hatt2|]. right. split; [done|]. exists d. split; [done|]. split; [done|].
    intros q. rewrite Hid2. by rewrite Hid.
Qed.

(** The named peer joins the queue. *)
Lemma joined p i r r' w w' q1 A B P : peers_ok r w -> ~ in_queue r p -> attached w p -> pipes_ok w' -> (forall q, attached w' q <-> attached w q) ->
  outpipes r !! i = None -> outpipes r' = <[i := mkOutpipe p true]> (outpipes r) -> (forall q, identity_of w' q = if bool_decide (p = q) then i else identity_of w q) ->
  turn (rot (fq r)) A B P -> turn (rot q1) (A ++ [p]) B P -> current_out r' = current_out r -> (forall q, q ∈ anonymous_pipes r' -> q ∈ anonymous_pipes r /\ q <> p) ->
  peers_ok (with_fq q1 r') w'.
Proof.
  intros [O T An R Q C] Hn Hp Hw Hatt Hi Hout Hid Ht Ht1 Hc Han.
  assert (Hm : forall q, in_queue (with_fq q1 r') q <-> q = p \/ in_queue r q).
  { intros q. unfold in_queue. cbn [fq with_fq]. rewrite (turn_member _ _ _ _ q Ht), (turn_member _ _ _ _ q Ht1), elem_of_app, list_elem_of_singleton. tauto. }
  split; cbn [outpipes anonymous_pipes current_out with_fq]; try done.
  - by exists (A ++ [p]), B, P.
  - intros q Hq. destruct (Han q Hq) as [Hq' Hne]. destruct (An q Hq') as [Hnq Haq]. rewrite Hm, Hatt. split; [|done]. by intros [->|].
  - intros j o. rewrite Hout, Hm, Hatt. destruct (decide (j = i)) as [->|Hne].
    + rewrite lookup_insert_eq. intros [= <-]. cbn. rewrite Hid, bool_decide_eq_true_2 by done. auto.
    + rewrite lookup_insert_ne by done. intros Ho. destruct (R j o Ho) as (H1' & H2' & H3'). rewrite Hid, bool_decide_eq_false_2; [auto|]. intros ->. done.
  - intros q [->|Hq]%Hm; rewrite Hid, Hout.
    + rewrite bool_decide_eq_true_2 by done. exists (mkOutpipe p true). by rewrite lookup_insert_eq.
    + rewrite bool_decide_eq_false_2 by (intros <-; done). destruct (Q q Hq) as (o & Eo & Ep). exists o. split; [|done]. rewrite lookup_insert_ne; [done|]. intros Ei. congruence.
  - intros q. rewrite Hc. intros Hq. apply Hm. right. by apply C.
Qed.

Lemma attach_peers p r w h : peers_ok r w -> attached w p -> ~ in_queue r p -> p ∉ anonymous_pipes r -> name_readable p r w h -> Array.size (Rotation.pipes (rot (fq r))) < INT_MAX ->
  exists r' w' h', xattach_pipe p r w h = Ok (r', w', h') /\ peers_ok r' w'.
Proof.
  intros Hok Hp Hn Hna Hname Hs. pose proof Hok as [O (A & B & P & Ht) An R Q C].
  destruct (identify_ok p r w h O Hp Hname) as (b & r1 & w1 & h1 & E & Hf & Han & Hc & Hw1 & Hatt & Hcase). unfold xattach_pipe. rewrite E. cbn [obind].
  destruct Hcase as [(-> & Hout & Hid)|(-> & i & Hi & Hout & Hid)].
  - eexists _, w1, h1. split; [reflexivity|]. assert (Hm : forall q, in_queue (with_anonymous ({[p]} ∪ anonymous_pipes r1) r1) q <-> in_queue r q) by (intros q; unfold in_queue; cbn [fq with_anonymous]; by rewrite Hf).
    split; cbn [outpipes anonymous_pipes current_out fq with_anonymous]; try done.
    + exists A, B, P. by rewrite Hf.
    + intros q. rewrite Hm, Han, elem_of_union, elem_of_singleton, Hatt. intros [->|Hq]; [done|]. by apply An.
    + intros j o. rewrite Hout, Hm, Hatt, Hid. apply R.
    + intros q Hq%Hm. rewrite Hout, Hid. by apply Q.
    + intros q. rewrite Hc, Hm. apply C.
  - rewrite Hf. destruct (attach_turn p (fq r) A B P Ht Hn Hs) as (q1 & E1 & _ & Ht1). rewrite E1. cbn [obind]. eexists _, w1, h1. split; [reflexivity|].
    apply (joined p i r r1 w w1 q1 A B P); try done. intros q. rewrite Han. intros Hq. split; [done|]. by intros ->.
Qed.

Lemma readable_peers p r w h : peers_ok r w -> name_readable p r w h -> Array.size (Rotation.pipes (rot (fq r))) < INT_MAX ->
  p ∈ anonymous_pipes r \/ in_queue r p /\ Rotation.active (rot (fq r)) <= index (Rotation.pipes (rot (fq r))) p ->
  exists r' w' h', xread_activated p r w h = Ok (r', w', h') /\ peers_ok r' w'.
Proof.
  intros Hok Hname Hs Hcase. pose proof Hok as [O (A & B & P & Ht) An R Q C]. unfold xread_activated. destruct Hcase as [Hp|[Hp Hidle]].
  - rewrite bool_decide_eq_true_2 by done. cbn [negb]. destruct (An p Hp) as [Hn Hatp].
    destruct (identify_ok p r w h O Hatp Hname) as (b & r1 & w1 & h1 & E & Hf & Han & Hc & Hw1 & Hatt & Hcase). rewrite E. cbn [obind].
    destruct Hcase as [(-> & Hout & Hid)|(-> & i & Hi & Hout & Hid)].
    + eexists _, w1, h1. split; [reflexivity|]. apply (peers_kept r _ w); try done; [exists A, B, P; by rewrite Hf|intros q; unfold in_queue; by rewrite Hf|intros j; by rewrite Hout|].
      intros q. rewrite Hc. apply C.
    + cbn [fq with_anonymous]. rewrite Hf. destruct (attach_turn p (fq r) A B P Ht Hn Hs) as (q1 & E1 & _ & Ht1). rewrite E1. cbn [obind]. eexists _, w1, h1. split; [reflexivity|].
      apply (joined p i r (with_anonymous (anonymous_pipes r1 ∖ {[p]}) r1) w w1 q1 A B P); try done. intros q. cbn [anonymous_pipes with_anonymous]. rewrite Han, elem_of_difference, elem_of_singleton. done.
  - rewrite bool_decide_eq_false_2 by (intros Hq; by apply An in Hq as [? _]). cbn [negb]. destruct (idle_member _ _ _ _ p Ht Hp Hidle) as [P' HP].
    destruct (activated_turn (rot (fq r)) p A B P' (turn_perm _ _ _ _ _ HP Ht)) as (r1 & E & Ht1). unfold Fq.activated. rewrite E. cbn [obind]. eexists _, w, h. split; [reflexivity|].
    apply (peers_kept r _ w); try done; [by exists (A ++ [p]), B, P'|]. intros q. unfold in_queue. cbn [fq with_fq rot]. rewrite (turn_member _ _ _ _ q Ht), (turn_member _ _ _ _ q Ht1), HP, elem_of_app, list_elem_of_singleton, elem_of_cons. tauto.
Qed.

Lemma write_ok_peer p r w i o : peers_ok r w -> outpipes r !! i = Some o -> pipe o = p -> active o = false -> exists r', xwrite_activated p r = Ok r' /\ peers_ok r' w.
Proof.
  intros Hok Ho Hp Hact. unfold xwrite_activated, find_pipe. destruct (List.find _ _) as [[j o1]|] eqn:E.
  - apply List.find_some in E as [Hin Hj]. apply Z.eqb_eq in Hj. cbn in Hj. apply list_elem_of_In, elem_of_map_to_list in Hin.
    assert (j = i) as -> by (rewrite <- (known_once r w i o Hok Ho), <- (known_once r w j o1 Hok Hin); congruence).
    assert (o1 = o) as -> by congruence. rewrite Hact. cbn [negb assertion obind]. eexists. split; [reflexivity|]. pose proof Hok as [O T An R Q C].
    apply (peers_kept r _ w); try done. intros j. cbn [outpipes with_outpipes]. destruct (decide (j = i)) as [->|Hne]; [by rewrite lookup_insert_eq, Ho|by rewrite lookup_insert_ne].
  - exfalso. apply (List.find_none _ _) with (x := (i, o)) in E; [|by apply list_elem_of_In, elem_of_map_to_list]. cbn in E. lia.
Qed.

Lemma leaves p f A B P : turn (rot f) A B P -> member (Rotation.pipes (rot f)) p -> exists f' A' B' P', Fq.terminated p f = Ok f' /\ turn (rot f') A' B' P' /\ p :: A' ++ B' ++ P' ≡ₚ A ++ B ++ P.
Proof.
  intros Ht Hq. unfold Fq.terminated. apply (turn_member _ _ _ _ p Ht) in Hq. assert (Hc : p ∈ A ++ B \/ p ∈ P) by (rewrite elem_of_app; tauto). destruct Hc as [Hin|[P' HP]%elem_of_Permutation].
  - destruct (terminated_turn _ p _ _ _ Ht Hin) as (r1 & -> & Ht1). cbn [obind]. eexists _, _, _, P. split; [reflexivity|]. split; [exact Ht1|].
    rewrite !app_assoc, app_comm_cons. apply Permutation_app_tail, leave_turn_perm; [|done|].
    + apply turn_nodup in Ht. rewrite app_assoc in Ht. by apply NoDup_app in Ht as [? _].
    + intros ->. rewrite (turn_none _ _ _ _ Ht eq_refl) in Hin. by apply elem_of_nil in Hin.
  - destruct (terminated_idle _ p A B P' (turn_perm _ _ _ _ _ HP Ht)) as (r1 & -> & Ht1). cbn [obind]. eexists _, A, B, P'. split; [reflexivity|]. split; [done|]. by rewrite HP, <- !Permutation_middle.
Qed.

Lemma terminated_peers p r w : peers_ok r w -> p ∈ anonymous_pipes r \/ in_queue r p -> exists r', xterminated p r w = Ok r' /\ peers_ok r' w.
Proof.
  intros Hok Hcase. pose proof Hok as [O (A & B & P & Ht) An R Q C]. unfold xterminated. destruct (bool_decide_reflect (p ∈ anonymous_pipes r)) as [Hp|Hp].
  - eexists. split; [reflexivity|]. split; cbn [outpipes anonymous_pipes current_out fq with_anonymous]; try done; [by exists A, B, P|]. intros q [Hq _]%elem_of_difference. by apply An.
  - destruct Hcase as [|Hq]; [done|]. destruct (Q p Hq) as (o & Eo & Ep). destruct (R _ _ Eo) as (_ & Hatp & _). rewrite Ep in Hatp. rewrite (get_identity_ok w p Hatp). cbn [obind].
    rewrite Eo, bool_decide_eq_true_2 by by eexists. cbn [assertion obind fq with_outpipes].
    destruct (leaves p (fq r) A B P Ht Hq) as (q1 & A' & B' & P' & E1 & Ht1 & Hperm). cbn [fq with_outpipes]. rewrite E1. cbn [obind].
    assert (Hm : forall q, in_queue (with_fq q1 r) q <-> in_queue r q /\ q <> p).
    { intros q. unfold in_queue. cbn [fq with_fq]. pose proof (turn_nodup _ _ _ _ Ht) as Hnd. rewrite <- Hperm in Hnd. apply NoDup_cons in Hnd as [Hnp _].
      rewrite (turn_member _ _ _ _ q Ht1), (turn_member _ _ _ _ q Ht), <- !elem_of_app, <- Hperm, elem_of_cons. split; [intros Hin; split; [by right|by intros ->]|by intros [[?|?] ?]]. }
    set (r1 := with_fq q1 (with_outpipes (delete (identity_of w p) (outpipes r)) r)). change (forall q, in_queue r1 q <-> in_queue r q /\ q <> p) in Hm.
    assert (Hr1 : forall r', outpipes r' = outpipes r1 -> fq r' = fq r1 -> anonymous_pipes r' = anonymous_pipes r1 -> (forall q, current_out r' = Some q -> in_queue r1 q) -> peers_ok r' w).
    { intros r' Eout Efq Ean Hcur. assert (Hm' : forall q, in_queue r' q <-> in_queue r q /\ q <> p) by (intros q; rewrite <- Hm; unfold in_queue; by rewrite Efq).
      split; try done.
      - exists A', B', P'. by rewrite Efq.
      - intros q. rewrite Ean. intros Hqa. destruct (An q Hqa) as [Hnq Haq]. split; [by intros [? _]%Hm'|done].
      - intros i o1. rewrite Eout, Hm'. unfold r1. cbn [outpipes with_fq with_outpipes]. intros [Hne Ho1]%lookup_delete_Some. destruct (R i o1 Ho1) as (R1 & R2 & R3). split; [|done]. split; [done|]. congruence.
      - intros q [Hqq Hne]%Hm'. destruct (Q q Hqq) as (o1 & Eo1 & Ep1). exists o1. split; [|done]. rewrite Eout. unfold r1. cbn [outpipes with_fq with_outpipes]. rewrite lookup_delete_ne; [done|]. congruence.
      - intros q Hqc. by apply Hm', Hm, Hcur. }
    eexists. split; [reflexivity|]. fold r1. destruct (bool_decide_reflect (current_out r1 = Some p)) as [Ec|Ec].
    + by apply Hr1.
    + apply Hr1; try done. intros q Hqc. apply Hm. split; [by apply C|]. intros ->. done.
Qed.

(** ** The calls of the user *)

Lemma recv_loop_peers fuel : forall f w o f' w' A B P, pipes_ok w -> turn (rot f) A B P -> recv_loop fuel f w = Ok (o, f', w') ->
  same_peers w w' /\ exists A' B' P', turn (rot f') A' B' P' /\ A' ++ B' ++ P' ≡ₚ A ++ B ++ P.
Proof.
  induction fuel as [|fuel IH]; intros f w o f' w' A B P Hw Ht; cbn [recv_loop]; (destruct (Z.ltb_spec 0 (Rotation.active (rot f))) as [Hpos|]; cbn [negb];
    [|intros [= _ <- <-]; split; [by split|by exists A, B, P]]); [done|].
  apply (turn_idle _ _ _ _ Ht) in Hpos. destruct A as [|p A]; [done|]. rewrite (turn_current_pipe _ _ _ _ _ Ht). cbn [obind].
  destruct (pipe_read p w) as [[o1 w1]| |] eqn:Er; try done. cbn [obind]. destruct (read_quiet w p o1 w1 Hw Er) as (Hp & Hid & _).
  destruct (pipe_read_ok w p Hw Hp) as (o2 & w2 & E2 & Hw1 & Hatt & _). rewrite Er in E2. injection E2 as <- <-. assert (Hsame : same_peers w w1) by by split.
  destruct o1 as [m|].
  - intros [= _ <- <-]. split; [done|]. cbn [rot]. destruct (negb (has_flag more m)); [|by exists (p :: A), B, P].
    eexists _, _, P. split; [by apply advance_turn|]. rewrite !app_assoc. by rewrite (next_turn_perm (p :: A, B)).
  - destruct (assertion _ _); try done. cbn [obind]. destruct (deactivate_turn _ _ _ _ _ Ht) as (r1 & E1 & Ht1). rewrite E1. cbn [obind]. intros E.
    destruct (IH (mkFq r1 (Fq.more_parts f)) w1 o f' w' _ _ _ Hw1 Ht1 E) as (Hs & A' & B' & P' & Ht' & Hperm). split; [by apply (same_peers_trans _ w1)|].
    exists A', B', P'. split; [done|]. rewrite Hperm, !app_assoc, <- Permutation_middle, app_comm_cons, (skip_turn_perm p A B). done.
Qed.

Lemma recv_message_peers fuel : forall m f w h rc m' o f' w' h' A B P, pipes_ok w -> turn (rot f) A B P -> recv_message fuel m f w h = Ok (rc, m', o, f', w', h') ->
  same_peers w w' /\ exists A' B' P', turn (rot f') A' B' P' /\ A' ++ B' ++ P' ≡ₚ A ++ B ++ P.
Proof.
  induction fuel as [|fuel IH]; intros m f w h rc m' o f' w' h' A B P Hw Ht; [done|]. cbn [recv_message]. unfold recvpipe at 1.
  destruct (close m h) as [[[rc1 m1] h1]| |]; try done. cbn [obind]. destruct (assertion _ _); try done. cbn [obind].
  destruct (recv_loop _ f w) as [[[o1 f1] w1]| |] eqn:E; try done. cbn [obind]. destruct (recv_loop_peers _ _ _ _ _ _ _ _ _ Hw Ht E) as (Hs & A1 & B1 & P1 & Ht1 & Hp1).
  destruct o1 as [[m2 q]|]; cbn [obind].
  - destruct (_ && _); [|intros [= _ _ _ <- <- _]; split; [done|by exists A1, B1, P1]]. intros E2.
    destruct (IH _ _ _ _ _ _ _ _ _ _ _ _ _ (sp_ok _ _ Hs) Ht1 E2) as (Hs2 & A2 & B2 & P2 & Ht2 & Hp2). split; [by apply (same_peers_trans _ w1)|]. exists A2, B2, P2. split; [done|]. by rewrite Hp2.
  - cbn [Z.eqb andb]. intros [= _ _ _ <- <- _]. split; [done|]. by exists A1, B1, P1.
Qed.

Lemma receive_ok fuel m r w h rc m' r' w' h' : peers_ok r w -> router_xrecv available fuel m r w h = Ok (rc, m', r', w', h') -> peers_ok r' w'.
Proof.
  intros Hok. pose proof Hok as [O (A & B & P & Ht) An R Q C].
  assert (Hkept : forall r2 w2 A2 B2 P2, same_peers w w2 -> turn (rot (fq r2)) A2 B2 P2 -> A2 ++ B2 ++ P2 ≡ₚ A ++ B ++ P -> anonymous_pipes r2 = anonymous_pipes r -> outpipes r2 = outpipes r -> current_out r2 = current_out r -> peers_ok r2 w2).
  { intros r2 w2 A2 B2 P2 Hs Ht2 Hp Ea Eo Ec. apply (peers_kept r r2 w w2); try done; [by exists A2, B2, P2| |by rewrite Eo|by intros q; rewrite Ec; apply C].
    intros q. by apply (same_members _ _ _ _ _ _ _ _ Ht Ht2). }
  unfold router_xrecv. destruct (prefetched r).
  - assert (Hsw : same_peers w w) by by split.
    destruct (negb (identity_sent r)); (destruct (move _ _ h) as [[[[rc1 m1] s1] h1]| |]; try done); cbn [obind]; (destruct (assertion _ _); try done); cbn [obind]; intros [= _ _ <- <- _]; by apply (Hkept _ w A B P).
  - destruct (recv_message fuel m (fq r) w h) as [[[[[[rc1 m1] o] f1] w1] h1]| |] eqn:E; try done. cbn [obind].
    destruct (recv_message_peers _ _ _ _ _ _ _ _ _ _ _ _ _ _ O Ht E) as (Hs & A1 & B1 & P1 & Ht1 & Hp1).
    destruct (negb (rc1 =? 0)); [intros [= _ _ <- <- _]; by apply (Hkept _ w1 A1 B1 P1)|]. destruct (the_pipe o) as [p| |]; try done. cbn [obind].
    destruct (more_in _); [intros [= _ _ <- <- _]; by apply (Hkept _ w1 A1 B1 P1)|]. destruct (move _ m1 h1) as [[[[rc2 m2] s2] h2]| |]; try done. cbn [obind]. destruct (assertion _ _); try done. cbn [obind].
    destruct (pipe_get_identity p w1) as [i| |]; try done. cbn [obind]. destruct (make_msg available i h2) as [[m3 h3]| |]; try done. cbn [obind]. intros [= _ _ <- <- _]. by apply (Hkept _ w1 A1 B1 P1).
Qed.

Lemma check_write_same p w b w' : pipes_ok w -> attached w p -> pipe_check_write p w = Ok (b, w') -> same_peers w w'.
Proof.
  intros Hw Hp E. destruct (pipe_check_write_ok w p Hw Hp) as (b1 & w1 & E1 & Hw1 & Hatt & _). rewrite E in E1. injection E1 as <- <-. destruct (check_write_tells _ _ _ _ E) as (_ & _ & Hid). by split.
Qed.

Lemma write_same p m w b w' : pipes_ok w -> attached w p -> pipe_write p m w = Ok (b, w') -> same_peers w w'.
Proof. intros Hw Hp E. destruct (pipe_write_ok w p m Hw Hp) as (b1 & w1 & E1 & Hw1 & Hatt & _). rewrite E in E1. injection E1 as <- <-. pose proof (write_quiet _ _ _ _ _ E). by split. Qed.

Lemma flush_same p w w' : pipes_ok w -> attached w p -> pipe_flush p w = Ok w' -> same_peers w w'.
Proof. intros Hw Hp E. destruct (pipe_flush_ok w p Hw Hp) as (w1 & E1 & Hw1 & Hatt & _). rewrite E in E1. injection E1 as <-. pose proof (flush_quiet _ _ _ E). by split. Qed.

Lemma send_ok_peers m r w h rc m' r' w' h' : peers_ok r w -> router_xsend m r w h = Ok (rc, m', r', w', h') -> peers_ok r' w'.
Proof.
  intros Hok. pose proof Hok as [O T An R Q C].
  assert (Hkept : forall r2 w2, same_peers w w2 -> fq r2 = fq r -> anonymous_pipes r2 = anonymous_pipes r -> (forall i, pipe <$> outpipes r2 !! i = pipe <$> outpipes r !! i) ->
    (forall p, current_out r2 = Some p -> in_queue r p) -> peers_ok r2 w2).
  { intros r2 w2 Hs Hf Ha Ho Hc. apply (peers_kept r r2 w w2); try done; [by rewrite Hf|intros q; unfold in_queue; by rewrite Hf]. }
  assert (Hsw : same_peers w w) by by split.
  unfold router_xsend. destruct (negb (more_out r)).
  - destruct (assertion _ _); try done. cbn [obind].
    destruct (has_flag more m); [|destruct (drop_msg m h) as [[m1 h1]| |]; try done; cbn [obind]; intros [= _ _ <- <- _]; by apply Hkept].
    destruct (data m h) as [i| |]; try done. cbn [obind outpipes with_out]. destruct (outpipes r !! i) as [o|] eqn:Eo.
    + destruct (pipe_check_write (pipe o) w) as [[b w1]| |] eqn:E; try done. cbn [obind]. destruct (R i o Eo) as (Hqo & Hao & _). pose proof (check_write_same _ _ _ _ O Hao E) as Hs.
      destruct (drop_msg m h) as [[m1 h1]| |]; try done. cbn [obind]. intros [= _ _ <- <- _]. apply Hkept; [done|by destruct b|by destruct b| |].
      * intros j. destruct b; [done|]. cbn [outpipes with_out with_outpipes]. destruct (decide (j = i)) as [->|Hne]; [by rewrite lookup_insert_eq, Eo|by rewrite lookup_insert_ne].
      * intros p. destruct b; [|done]. cbn [current_out with_out]. by intros [= <-].
    + cbn [mandatory with_out]. destruct (mandatory r); [intros [= _ _ <- <- _]; by apply Hkept|]. destruct (drop_msg m h) as [[m1 h1]| |]; try done. cbn [obind]. intros [= _ _ <- <- _]. by apply Hkept.
  - cbn [current_out with_out]. destruct (current_out r) as [p|] eqn:Ec; [|destruct (drop_msg m h) as [[m1 h1]| |]; try done; cbn [obind]; intros [= _ _ <- <- _]; by apply Hkept].
    assert (Hp : in_queue r p) by by apply C. assert (Hap : attached w p) by (destruct (Q p Hp) as (o & Eo & <-); by apply (R _ _ Eo)).
    destruct (pipe_write p m w) as [[b w1]| |] eqn:E; try done. cbn [obind]. pose proof (write_same _ _ _ _ _ O Hap E) as Hs.
    destruct (negb b); [intros [= _ _ <- <- _]; by apply Hkept|]. destruct (negb _); [|intros [= _ _ <- <- _]; apply Hkept; try done; by intros q [= <-]].
    destruct (pipe_flush p w1) as [w2| |] eqn:E2; try done. cbn [obind]. intros [= _ _ <- <- _]. apply Hkept; try done. apply (same_peers_trans _ w1); [done|].
    apply (flush_same p w1 w2); [apply Hs|by apply Hs|done].
Qed.

(** ** Whatever happens *)

Inductive router_event :=
| Pipe_attached (p : Z)
| Pipe_readable (p : Z)
| Pipe_writable (p : Z)
| Pipe_gone (p : Z)
| Send_part (m : msg_t)
| Receive_part (fuel : nat) (m : msg_t)
(** The peers and the other threads. *)
| Elsewhere (w' : W) (h' : memory).

Definition router_state : Type := router_t * W * memory.

Definition run_router (e : router_event) (s : router_state) : outcome router_state :=
  let '(r, w, h) := s in
  match e with
  | Pipe_attached p => xattach_pipe p r w h
  | Pipe_readable p => xread_activated p r w h
  | Pipe_writable p => let! r := xwrite_activated p r in Ok (r, w, h)
  | Pipe_gone p => let! r := xterminated p r w in Ok (r, w, h)
  | Send_part m => let! (_, _, r, w, h) := router_xsend m r w h in Ok (r, w, h)
  | Receive_part fuel m => let! (_, _, r, w, h) := router_xrecv available fuel m r w h in Ok (r, w, h)
  | Elsewhere w' h' => Ok (r, w', h')
  end.

(** What the owner of the router does: a pipe is attached once; a pipe in the queue
    is activated when it is idle, or its entry is passive; a pipe that is gone was
    there; the calls of the user are those that return; what happens elsewhere
    leaves the pipes that the router knows attached, with their identities. *)
Definition router_legal (e : router_event) (s : router_state) : Prop :=
  let '(r, w, h) := s in
  let a := Rotation.pipes (rot (fq r)) in
  match e with
  | Pipe_attached p => attached w p /\ ~ in_queue r p /\ p ∉ anonymous_pipes r /\ name_readable p r w h /\ Array.size a < INT_MAX
  | Pipe_readable p => (p ∈ anonymous_pipes r \/ in_queue r p /\ Rotation.active (rot (fq r)) <= index a p) /\ name_readable p r w h /\ Array.size a < INT_MAX
  | Pipe_writable p => exists i o, outpipes r !! i = Some o /\ pipe o = p /\ active o = false
  | Pipe_gone p => p ∈ anonymous_pipes r \/ in_queue r p
  | Send_part m => exists x, router_xsend m r w h = Ok x
  | Receive_part fuel m => exists x, router_xrecv available fuel m r w h = Ok x
  | Elsewhere w' _ => pipes_ok w' /\ forall p, p ∈ anonymous_pipes r \/ in_queue r p -> attached w' p /\ identity_of w' p = identity_of w p
  end.

Fixpoint run_routers (es : list router_event) (s : router_state) : outcome router_state :=
  match es with [] => Ok s | e :: es' => let! s := run_router e s in run_routers es' s end.

Fixpoint router_legal_events (es : list router_event) (s : router_state) : Prop :=
  match es with
  | [] => True
  | e :: es' => router_legal e s /\ match run_router e s with Ok s => router_legal_events es' s | _ => True end
  end.

Lemma run_router_ok e r w h : peers_ok r w -> router_legal e (r, w, h) -> exists r' w' h', run_router e (r, w, h) = Ok (r', w', h') /\ peers_ok r' w'.
Proof.
  intros Hok. destruct e as [p|p|p|p|m|fuel m|w' h']; cbn [router_legal run_router].
  - intros (Ha & Hq & Hn & Hname & Hs). by apply attach_peers.
  - intros (Hc & Hname & Hs). by apply readable_peers.
  - intros (i & o & Ho & Hp & Hact). destruct (write_ok_peer p r w i o Hok Ho Hp Hact) as (r' & E & Hok'). rewrite E. cbn [obind]. by exists r', w, h.
  - intros Hc. destruct (terminated_peers p r w Hok Hc) as (r' & E & Hok'). rewrite E. cbn [obind]. by exists r', w, h.
  - intros [[[[[rc m'] r'] w'] h'] E]. rewrite E. cbn [obind]. exists r', w', h'. split; [done|]. by apply (send_ok_peers m r w h rc m' r' w' h').
  - intros [[[[[rc m'] r'] w'] h'] E]. rewrite E. cbn [obind]. exists r', w', h'. split; [done|]. by apply (receive_ok fuel m r w h rc m' r' w' h').
  - intros [Hw Hp]. exists r, w', h'. split; [done|]. destruct Hok as [O T An R Q C]. split; try done.
    + intros p Hpa. split; [by apply An|]. apply Hp. by left.
    + intros i o Ho. destruct (R i o Ho) as (R1 & _ & R3). destruct (Hp (pipe o)) as [Hatt Hid]; [by right|]. rewrite Hid. done.
    + intros p Hq. destruct (Hp p) as [_ ->]; [by right|]. by apply Q.
Qed.

Lemma run_routers_ok es : forall r w h, peers_ok r w -> router_legal_events es (r, w, h) -> exists r' w' h', run_routers es (r, w, h) = Ok (r', w', h') /\ peers_ok r' w'.
Proof.
  induction es as [|e es IH]; intros r w h Hok; [by exists r, w, h|]. intros [He Hes]. destruct (run_router_ok e r w h Hok He) as (r1 & w1 & h1 & E & Hok1). cbn [run_routers]. rewrite E in *. cbn [obind].
  by apply IH.
Qed.

Lemma new_router_ok random w : pipes_ok w -> peers_ok (new_router random) w.
Proof.
  intros Hw. assert (Hno : forall p, ~ in_queue (new_router random) p).
  { intros p Hp. apply (turn_member _ _ _ _ p new_rotation_turn) in Hp. by destruct Hp as [Hp|[Hp|Hp]]; apply elem_of_nil in Hp. }
  split; try done.
  - exists [], [], []. apply new_rotation_turn.
  - intros p Hp. by apply Hno in Hp.
Qed.
End Peers.

