(* ===== verification/RepTheorems.v ===== *)
(** * A reply goes back the way the request came

    [rep_t] copies the addresses in front of a request to the pipe that the
    request came by, gives the rest to the user and sends the reply behind the
    addresses. *)

From stdpp Require Import tactics gmap list.
From S2P Require Import Prelude Msg MsgTheorems Array Pipes Routes Rotation Fq FqTheorems Listening LbTheorems Router RouterTheorems Rep.

(** ** Requests *)

Definition not_last (m : msg_t) : Prop := has_flag more m = true /\ is_identity m = false.
Definition is_last (m : msg_t) : Prop := has_flag more m = false /\ is_identity m = false.

(** A part of the stack of addresses, and its bottom. *)
Definition address (h : memory) (m : msg_t) : Prop := not_last m /\ exists d, data m h = Ok d /\ d <> [].
Definition bottom (h : memory) (m : msg_t) : Prop := not_last m /\ data m h = Ok [].

(** The request with these addresses and this body. *)
Record request (h : memory) (stack : list msg_t) (b : msg_t) (body : list msg_t) (last : msg_t) : Prop := {
  rq_stack : Forall (address h) stack;
  rq_bottom : bottom h b;
  rq_body : Forall not_last body;
  rq_last : is_last last
}.

(** What peers that follow the protocol send: names and requests. *)
Inductive requests (h : memory) : list msg_t -> Prop :=
| no_requests : requests h []
| name_first i l : says_identity i -> requests h l -> requests h (i :: l)
| request_first stack b body last l : request h stack b body last -> requests h l -> requests h (stack ++ b :: (body ++ [last]) ++ l).

(** Behind names, a request. *)
Lemma request_behind h l : requests h l -> forall ids m1 l', Forall says_identity ids -> is_identity m1 = false -> l = ids ++ m1 :: l' ->
  exists stack b body last rest, m1 :: l' = stack ++ b :: (body ++ [last]) ++ rest /\ request h stack b body last /\ requests h rest.
Proof.
  induction 1 as [|i l Hi _ IH|stack b body last l Hr Hl _]; intros ids m1 l' Hids Hm El.
  - by destruct ids.
  - destruct ids as [|j ids]; injection El as -> El; [unfold says_identity in Hi; congruence|]. apply Forall_cons in Hids as [_ Hids]. by apply (IH ids).
  - destruct ids as [|j ids]; [by exists stack, b, body, last, l|]. exfalso. apply Forall_cons in Hids as [Hj _].
    assert (Hn : is_identity j = false); [|unfold says_identity in Hj; congruence]. destruct Hr as [Hs [[_ Hb] _] _ _].
    destruct stack as [|s stack]; injection El as -> _; [done|]. by apply Forall_cons in Hs as [[[_ ?] _] _].
Qed.

(** Names can be lost. *)
Lemma requests_behind h ids : Forall says_identity ids -> forall l, requests h (ids ++ l) -> requests h l.
Proof.
  induction 1 as [|i ids Hi _ IH]; intros l Hl; [done|]. apply IH. inversion Hl as [E|j l' Hj Hl' E|stack b body last l' Hr Hl' E]; [done|]. exfalso.
  assert (Hn : is_identity i = false); [|unfold says_identity in Hi; congruence]. destruct Hr as [Hs [[_ Hb] _] _ _].
  destruct stack as [|s stack]; injection E as -> _; [done|]. by apply Forall_cons in Hs as [[[_ ?] _] _].
Qed.

Lemma requests_kept h h' l : (forall x d, x ∈ l -> data x h = Ok d -> data x h' = Ok d) -> requests h l -> requests h' l.
Proof.
  intros Hk Hl. induction Hl as [|i l Hi Hl IH|stack b body last l [Ra [Rn Rb] Rc Rd] Hl IH]; [constructor| |].
  - constructor; [done|]. apply IH. intros x d Hx. apply Hk. by right.
  - constructor.
    + split; try done; [|split; [done|apply Hk; [apply elem_of_app; right; by left|done]]]. rewrite Forall_forall in Ra |- *. intros x Hx.
      destruct (Ra x Hx) as [Hn (d & Hd & Hne)]. split; [done|]. exists d. split; [|done]. apply Hk; [apply elem_of_app; by left|done].
    + apply IH. intros x d Hx. apply Hk. apply elem_of_app. right. right. apply elem_of_app. by right.
Qed.

Section Replies.
Context {W : Type} `{RouteLaws W}.
Variable available : Z -> bool.
Hypothesis memory_left : forall n, available n = true.

(** ** The addresses *)

(** [ms] went out by [o], which is the pipe [q] or none; other pipes lost at most
    names. *)
Record went (q : Z) (o : option Z) (ms : list msg_t) (w w' : W) (h h' : memory) (L : list Z) : Prop := {
  we_id x : identity_of w' x = identity_of w x;
  we_here : outbox w' q = if bool_decide (o = Some q) then outbox w q ++ ms else outbox w q;
  we_others x : x ∈ L -> x <> q -> outbox w' x = outbox w x \/ inbox w' x = [];
  we_less x : x ∈ L -> x <> q -> less_names w w' x;
  we_pipes : pipes_keep w w' h h' L
}.

Lemma less_names_nil w w' x : less_names w w' x -> inbox w x = [] -> inbox w' x = [].
Proof. intros (ids & _ & E) Ex. rewrite Ex in E. by destruct ids. Qed.

Lemma went_trans q o ms ms' w w1 w2 h h1 h2 L : went q o ms w w1 h h1 L -> went q o ms' w1 w2 h1 h2 L -> went q o (ms ++ ms') w w2 h h2 L.
Proof.
  intros [I1 H1' O1 L1 P1] [I2 H2' O2 L2 P2]. split; [..|by apply (pipes_keep_trans _ w1 _ _ h1)].
  - intros x. by rewrite I2.
  - rewrite H2', H1'. case_bool_decide; [by rewrite app_assoc|done].
  - intros x Hx Hne. destruct (O2 x Hx Hne) as [E2|]; [|by right]. destruct (O1 x Hx Hne) as [E1|E1]; [left; congruence|right]. by apply (less_names_nil w1 w2 x (L2 x Hx Hne)).
  - intros x Hx Hne. apply (less_names_trans _ w1); [by apply L1|by apply L2].
Qed.

(** The way back, for a message of [q]. *)
Definition way_back (q : Z) (o : option Z) (r : router_t) (w : W) : Prop := more_out r = true /\ current_out r = o /\ (o = None \/ o = Some q) /\ open_way o w.

(** The messages that there are fit in a counter. *)
Definition roomy (r : router_t) (w : W) (hs : list msg_t) (L : list Z) : Prop :=
  Z.of_nat (length (in_pipes L w) + length hs + (if prefetched r then 1 else 0)) + 2 < 2 ^ 32.

Lemma kept_aside {A} (k l hs : list A) p : k ++ l ++ p :: hs ≡ₚ l ++ p :: k ++ hs.
Proof. rewrite (Permutation_app_swap_app k). apply Permutation_app_head. by rewrite <- Permutation_middle. Qed.

Lemma at_part_elem q l r w hs L x : at_part q l r w -> q ∈ L -> x ∈ l -> x ∈ in_pipes L w ++ prefetched_msg r :: hs.
Proof.
  intros [(_ & _ & -> & _)|(_ & _ & _ & -> & _)] Hq Hx; apply elem_of_app.
  - apply elem_of_cons in Hx as [->|Hx]; [right; by left|left; by apply (in_pipes_elem L w q x Hq)].
  - left. by apply (in_pipes_elem L w q x Hq).
Qed.

(** A part is received, and sent on. *)
Lemma pass_part q o m1 l m hs r w h t L fuel : at_part q (m1 :: l) r w -> router_listens m hs r w h t L -> q ∈ L -> way_back q o r w -> roomy r w hs L -> not_last m1 -> check m1 = true -> (0 < fuel)%nat ->
  exists r1 w1 h1 r2 w2 h2 t2, router_xrecv available fuel m r w h = Ok (Done, m1, r1, w1, h1) /\ (forall d, data m1 h = Ok d -> data m1 h1 = Ok d)
    /\ router_xsend m1 r1 w1 h1 = Ok (Done, init, r2, w2, h2) /\ router_listens init (kept o [m1] ++ hs) r2 w2 h2 t2 L /\ at_part q l r2 w2
    /\ went q o [m1] w w2 h h2 L /\ way_back q o r2 w2 /\ outpipes r2 = outpipes r /\ roomy r2 w2 (kept o [m1] ++ hs) L /\ (forall x d, x ∈ l -> data x h = Ok d -> data x h2 = Ok d).
Proof.
  intros Hat Hl Hq (Hmo & Ho & Hoq & Hway) Hroom [Hm Hi] Hck Hf.
  destruct (router_next available q m1 l m hs r w h t L fuel Hat Hl Hq Hi Hck Hf) as (r1 & w1 & h1 & t1 & E & [N1 [N2 N2'] N3 N4 N5 N6 N7 N8 N9 N10 N11]).
  rewrite Hm in N7. injection N4 as Np No Nm _. rewrite Hmo in Nm. rewrite Ho in No.
  pose proof N1 as [_ [[Hw1 Hatt1] Hb Hfew Hc _ _ _]]. pose proof Hl as [_ [[_ Hatt] _ _ _ _ _ _]].
  assert (Hway1 : open_way (current_out r1) w1).
  { rewrite No. destruct o as [p|]; [|done]. destruct Hoq as [|[= ->]]; [done|]. destruct Hway as [_ Ht]. destruct N3 as [_ Ht1]. split; [by apply Hatt1|congruence]. }
  destruct (send_part_ok m1 r1 w1 _ h1 Nm Hw1 Hway1 Hb Hfew Hc) as (w2 & h2 & E2 & Hwr & Hs & Hgo & Hb2 & Hd2 & _). rewrite Hm, No in *.
  exists r1, w1, h1, (with_out o true r1), w2, h2, t1. split; [done|]. split; [intros d Hd; apply N8; [by left|done]|]. split; [done|].
  assert (Hin2 : inbox w2 q = inbox w1 q) by (apply (wr_in _ _ Hwr), Hatt1, Hq).
  assert (Hin2' : in_pipes L w2 = in_pipes L w1) by (apply in_pipes_same; intros x Hx; by apply (wr_in _ _ Hwr), Hatt1).
  pose proof (kept_length o [m1]) as Hkl. cbn [length] in Hkl. unfold roomy in Hroom.
  split; [|split; [|split; [|split; [|split; [|split]]]]].
  - unfold router_listens in *. change (prefetched_msg (with_out o true r1)) with (prefetched_msg r1). change (fq (with_out o true r1)) with (fq r1).
    apply (listening_change m1 (prefetched_msg r1 :: hs) (fq r1) w1 h1 t1 L); try done; [apply Hwr|apply Hwr|apply Hwr| | |].
    + apply balanced_nothing; [done|]. by rewrite kept_aside in Hb2.
    + unfold few. cbn [length]. rewrite length_app. cbn [length]. rewrite length_app. lia.
    + intros x d Hx. apply Hd2. apply elem_of_app. by left.
  - unfold at_part in *. change (prefetched_msg (with_out o true r1)) with (prefetched_msg r1). cbn [prefetched identity_sent fq more_in with_out]. by rewrite Hin2.
  - split.
    + intros x. by rewrite (wr_id _ _ Hwr), N2.
    + rewrite (Hs q (Hatt1 q Hq)). destruct N3 as [-> _]. done.
    + intros x Hx Hne. rewrite (Hs x (Hatt1 x Hx)), bool_decide_eq_false_2 by (destruct Hoq; congruence).
      rewrite (wr_in _ _ Hwr) by by apply Hatt1. destruct (N2' x Hx) as [[? _]|?]; [by left|by right].
    + intros x Hx Hne. apply less_names_same. rewrite (wr_in _ _ Hwr) by by apply Hatt1. by apply N6.
    + apply (pipes_keep_trans _ w1 _ _ h1); [done|]. intros x Hx. rewrite Hin2' in Hx. split; [done|]. intros d. apply Hd2. apply elem_of_app. by left.
  - split_and!; try done. by apply Hgo.
  - exact Np.
  - unfold roomy. change (prefetched (with_out o true r1)) with (prefetched r1). rewrite Hin2', N10, length_app. lia.
  - intros x d Hx Hd. assert (Hx1 : x ∈ m1 :: l) by by right. pose proof (N8 x d Hx1 Hd) as Hd1.
    apply Hd2; [|done]. by apply (at_part_elem q l r1 w1 hs L).
Qed.

Lemma address_kept h h' (l stack : list msg_t) : (forall x d, x ∈ l -> data x h = Ok d -> data x h' = Ok d) -> (forall x, x ∈ stack -> x ∈ l) -> Forall (address h) stack -> Forall (address h') stack.
Proof. intros Hk Hs Ha. rewrite Forall_forall in Ha |- *. intros x Hx. destruct (Ha x Hx) as [Hn (d & Hd & Hne)]. split; [done|]. exists d. split; [|done]. apply Hk; [by apply Hs|done]. Qed.

Lemma size_of m h d : data m h = Ok d -> Msg.size m h = Ok (Z.of_nat (length d)).
Proof. intros Hd. unfold Msg.size. by rewrite Hd. Qed.

(** What is known when the addresses were copied. *)
Record copied (q : Z) (o : option Z) (ms l hs : list msg_t) (r r' : router_t) (w w' : W) (h h' : memory) (t' : turns) (L : list Z) : Prop := {
  cp_listens : router_listens init (kept o ms ++ hs) r' w' h' t' L;
  cp_at : at_part q l r' w';
  cp_went : went q o ms w w' h h' L;
  cp_outpipes i : pipe <$> outpipes r' !! i = pipe <$> outpipes r !! i;
  cp_back : way_back q o r' w';
  cp_roomy : roomy r' w' (kept o ms ++ hs) L;
  cp_data x d : x ∈ l -> data x h = Ok d -> data x h' = Ok d
}.

Lemma copy_addresses q o b rest L stack : forall fuel m hs r w h t, Forall (address h) stack -> bottom h b -> at_part q (stack ++ b :: rest) r w -> router_listens m hs r w h t L ->
  q ∈ L -> way_back q o r w -> roomy r w hs L -> (length stack + 1 < fuel)%nat ->
  exists r' w' h' t', copy_labels available fuel m r w h = Ok (Done, init, r', w', h') /\ copied q o (stack ++ [b]) rest hs r r' w w' h h' t' L.
Proof.
  induction stack as [|a stack IH]; intros [|fuel] m hs r w h t Ha Hb Hat Hl Hq Hway Hroom Hf; try (cbn in Hf; lia); cbn [app copy_labels] in *.
  - destruct Hb as [Hbn Hbd]. destruct (pass_part q o b rest m hs r w h t L fuel Hat Hl Hq Hway Hroom Hbn (has_data_check _ _ _ Hbd) ltac:(cbn in Hf; lia))
      as (r1 & w1 & h1 & r2 & w2 & h2 & t2 & E1 & Hd1 & E2 & Hl2 & Hat2 & Hwent & Hway2 & Hop2 & Hroom2 & Hd2).
    rewrite E1. cbn [obind]. rewrite (bool_decide_eq_false_2 (Done <> Done)) by auto. destruct Hbn as [-> _]. rewrite (size_of b h1 [] (Hd1 _ Hbd)). cbn [obind]. rewrite E2.
    cbn [obind]. rewrite bool_decide_eq_true_2 by done. cbn [assertion obind length Z.of_nat Z.eqb]. exists r2, w2, h2, t2. split; [done|]. split; try done. intros i. by rewrite Hop2.
  - apply Forall_cons in Ha as [[Han (d & Hd & Hne)] Ha].
    destruct (pass_part q o a _ m hs r w h t L fuel Hat Hl Hq Hway Hroom Han (has_data_check _ _ _ Hd) ltac:(cbn in Hf; lia))
      as (r1 & w1 & h1 & r2 & w2 & h2 & t2 & E1 & Hd1 & E2 & Hl2 & Hat2 & Hwent & Hway2 & Hop2 & Hroom2 & Hd2).
    rewrite E1. cbn [obind]. rewrite (bool_decide_eq_false_2 (Done <> Done)) by auto. destruct Han as [-> _]. rewrite (size_of a h1 d (Hd1 _ Hd)). cbn [obind]. rewrite E2.
    cbn [obind]. rewrite bool_decide_eq_true_2 by done. cbn [assertion obind].
    destruct (Z.eqb_spec (Z.of_nat (length d)) 0) as [Ez|_]; [destruct d; [done|cbn in Ez; lia]|].
    destruct (IH fuel init (kept o [a] ++ hs) r2 w2 h2 t2) as (r3 & w3 & h3 & t3 & E3 & [C1 C2 C3 C3' C4 C5 C6]); try done.
    + apply (address_kept h h2 (stack ++ b :: rest) stack Hd2); [|done]. intros x Hx. apply elem_of_app. by left.
    + destruct Hb as [Hbn Hbd]. split; [done|]. apply Hd2; [|done]. apply elem_of_app. right. by left.
    + cbn in Hf. lia.
    + exists r3, w3, h3, t3. split; [exact E3|].
      assert (Hp : kept o (stack ++ [b]) ++ kept o [a] ++ hs ≡ₚ kept o (a :: stack ++ [b]) ++ hs).
      { change (a :: stack ++ [b]) with ([a] ++ stack ++ [b]). rewrite (kept_app o [a]), <- app_assoc. by apply Permutation_app_swap_app. }
      split; try done.
      * unfold router_listens in *. pose proof C1 as [_ [[Hw3 Hatt3] Hb3 Hf3 Hc3 _ _ _]].
        apply (listening_change init (prefetched_msg r3 :: kept o (stack ++ [b]) ++ kept o [a] ++ hs) (fq r3) w3 h3 t3 L); try done.
        -- by rewrite <- Hp.
        -- unfold few in *. by rewrite <- Hp.
        -- by intros x e.
      * by apply (went_trans q o [a] (stack ++ [b]) w w2 w3 h h2 h3).
      * intros i. by rewrite C3', Hop2.
      * unfold roomy in *. by rewrite <- (Permutation_length Hp).
      * intros x e Hx He. apply C6; [done|]. apply Hd2; [|done]. apply elem_of_app. right. by right.
Qed.

(** ** The beginning of a request *)

(** The router knows the pipes that it reads, by names that are not empty. *)
Definition knows (r : router_t) (w : W) (L : list Z) : Prop := forall x, x ∈ L ->
  identity_of w x <> [] /\ short_name (identity_of w x) /\ exists o, outpipes r !! identity_of w x = Some o /\ pipe o = x.

(** The way back to [q], if it takes messages. *)
Definition way_to (q : Z) (w : W) : option Z := if taking w q then Some q else None.

(** The name goes to the router, which finds the pipe. *)
Lemma name_ok q m1 l m hs r w h t L : at_part q (m1 :: l) r w -> router_listens m hs r w h t L -> q ∈ L -> resting r -> knows r w L ->
  has_flag more m = true -> data m h = Ok (identity_of w q) ->
  exists r' w' h', router_xsend m r w h = Ok (Done, init, r', w', h') /\ router_listens init hs r' w' h' t L /\ at_part q (m1 :: l) r' w'
    /\ (forall x, x ∈ L -> outbox w' x = outbox w x /\ inbox w' x = inbox w x) /\ (forall x, identity_of w' x = identity_of w x)
    /\ way_back q (way_to q w) r' w' /\ prefetched r' = prefetched r /\ (forall i, pipe <$> outpipes r' !! i = pipe <$> outpipes r !! i)
    /\ forall x d, x ∈ in_pipes L w ++ prefetched_msg r :: hs -> data x h = Ok d -> data x h' = Ok d.
Proof.
  intros Hat Hl Hq Hres Hkn Hm Hd. destruct (Hkn q Hq) as (_ & _ & o & Eo & Ep). pose proof Hl as [_ [[Hw Hatt] Hb Hfew Hc _ _ _]].
  assert (Hun : unreachable (identity_of w q) r = false) by (unfold unreachable; rewrite Eo, bool_decide_eq_false_2 by done; apply andb_false_r).
  assert (Hka : peer_attached (identity_of w q) r w) by (intros o'; rewrite Eo; intros [= <-]; rewrite Ep; by apply Hatt).
  destruct (route_ok m _ _ r w h Hres Hw Hka Hm Hd Hun Hb Hfew) as (w1 & h1 & E & Hwr & Hout & Ht & Hway & Hb1 & Hk). rewrite E.
  assert (Er : routed (identity_of w q) r w = way_to q w) by (unfold routed, way_to; rewrite Eo, Ep; by destruct (taking w q)). rewrite Er in *.
  eexists _, w1, h1. split; [reflexivity|]. split; [|split; [|split; [|split; [|split; [|split; [|split]]]]]].
  - unfold router_listens in *. apply (listening_change m (prefetched_msg r :: hs) (fq r) w h t L); try done; try apply Hwr.
    intros x d Hx. apply Hk. apply elem_of_app. by left.
  - unfold at_part in *. cbn [prefetched identity_sent prefetched_msg fq more_in with_out with_outpipes]. by rewrite (wr_in _ _ Hwr q (Hatt q Hq)).
  - intros x Hx. split; [by apply Hout, Hatt|by apply (wr_in _ _ Hwr), Hatt].
  - intros x. apply (wr_id _ _ Hwr).
  - split; [done|]. split; [done|]. split; [unfold way_to; destruct (taking w q); auto|done].
  - done.
  - intros i. cbn [outpipes with_out with_outpipes]. unfold passive. rewrite Eo, Ep. destruct (taking w q); [done|].
    destruct (decide (i = identity_of w q)) as [->|Hne]; [by rewrite lookup_insert_eq, Eo, <- Ep|by rewrite lookup_insert_ne].
  - done.
Qed.

(** A socket between a reply and the next request. *)
Record ready (m : msg_t) (hs : list msg_t) (r : router_t) (w : W) (h : memory) (t : turns) (L : list Z) : Prop := {
  rd_start : at_start r;
  rd_resting : resting r;
  rd_listens : router_listens m hs r w h t L;
  rd_knows : knows r w L
}.

(** Only names wait, and only in pipes that are not active. *)
Definition no_request_waits (w w' : W) (t : turns) (L : list Z) : Prop :=
  (forall x, x ∈ L -> less_names w w' x) /\ (forall x, x ∈ t.1 ++ t.2 -> inbox w' x = []).

Lemma request_begins_ok m hs r w h t L fuel : ready m hs r w h t L -> (forall x, x ∈ L -> requests h (inbox w x)) -> (length (in_pipes L w) + 2 < fuel)%nat ->
  (exists m' r' w' h', copy_labels available fuel m r w h = Ok (EAGAIN, m', r', w', h') /\ at_start r' /\ sending r' = sending r /\ no_request_waits w w' t L)
  \/ exists q ids stack b body last rest r' w' h' t', q ∈ L /\ Forall says_identity ids /\ inbox w q = ids ++ stack ++ b :: (body ++ [last]) ++ rest /\ request h stack b body last /\ requests h rest
     /\ copy_labels available fuel m r w h = Ok (Done, init, r', w', h') /\ copied q (way_to q w) (stack ++ [b]) ((body ++ [last]) ++ rest) hs r r' w w' h h' t' L.
Proof.
  intros [Hst Hres Hl Hkn] Hrq Hf. destruct fuel as [|fuel]; [lia|]. cbn [copy_labels].
  destruct (router_begins available memory_left m hs r w h t L fuel Hst Hl ltac:(lia)) as (res & m1 & r1 & w1 & h1 & t1 & E & Hl1 & [Hid Hcalm] & Hpk & Hsend & Hcase);
    [intros x Hx; by apply (Hkn x Hx)|]. rewrite E. cbn [obind].
  destruct Hcase as [(-> & Hst1 & Hn & Hno)|(-> & q & p & Hrf & Hat & Hck & Hm1 & Hd1 & Hk1)].
  { rewrite (bool_decide_eq_true_2 (EAGAIN <> Done)) by done. left. by exists m1, r1, w1, h1. }
  rewrite (bool_decide_eq_false_2 (Done <> Done)) by auto. rewrite Hm1. right. pose proof Hrf as [Hq (ids & Hids & Ew) Hp Hoth Hund Hmo _ Hload].
  destruct (request_behind h (inbox w q) (Hrq q Hq) ids p _ Hids Hp Ew) as (stack & b & body & last & rest & El & Hreq & Hrest). injection Hsend as S1 S2 S3 S4.
  assert (Hres1 : resting r1) by (destruct Hres; split; congruence). pose proof Hl1 as [_ [[_ Hatt1] _ Hfew1 _ _ _ _]]. pose proof Hl as [_ [[_ Hatt] _ Hfew _ _ _ _]].
  assert (Hkn1 : knows r1 w1 L) by (intros x Hx; rewrite Hid, S1; by apply Hkn).
  rewrite <- Hid in Hd1. destruct (name_ok q p _ m1 hs r1 w1 h1 t1 L Hat Hl1 Hq Hres1 Hkn1 Hm1 Hd1) as (r2 & w2 & h2 & E2 & Hl2 & Hat2 & Hio & Hid2 & Hway & Hpre & Hop2 & Hk2).
  rewrite (size_of m1 h1 _ Hd1). cbn [obind]. rewrite E2. cbn [obind]. rewrite bool_decide_eq_true_2 by done. cbn [assertion obind].
  destruct (Hkn q Hq) as (Hne & _). rewrite Hid. destruct (Z.eqb_spec (Z.of_nat (length (identity_of w q))) 0) as [Ez|_]; [destruct (identity_of w q); [done|cbn in Ez; lia]|].
  rewrite El in *. assert (Ewt : way_to q w1 = way_to q w) by (unfold way_to; by rewrite (proj2 Hund)). rewrite Ewt in *.
  assert (Hks : forall x d, x ∈ stack ++ b :: (body ++ [last]) ++ rest -> data x h = Ok d -> data x h2 = Ok d) by (intros x d Hx Hd; apply Hk2; [exact (at_part_elem q _ r1 w1 hs L x Hat Hq Hx)|by apply Hk1]).
  assert (Hlen : (length stack + 2 <= length (in_pipes L w))%nat).
  { pose proof (inbox_length L w q Hq) as Hil. rewrite Ew, !length_app in Hil. cbn [length] in Hil. rewrite !length_app in Hil. cbn [length] in Hil. lia. }
  assert (Hsame : in_pipes L w2 = in_pipes L w1) by (apply in_pipes_same; intros x Hx; by apply Hio).
  destruct Hreq as [Ra Rb Rc Rd]. destruct (copy_addresses q (way_to q w) b ((body ++ [last]) ++ rest) L stack fuel init hs r2 w2 h2 t1) as (r3 & w3 & h3 & t3 & E3 & [C1 C2 C3 C3' C4 C5 C6]); try done.
  - apply (address_kept h h2 (stack ++ b :: (body ++ [last]) ++ rest) stack Hks); [|done]. intros x Hx. apply elem_of_app. by left.
  - destruct Rb as [Hbn Hbd]. split; [done|]. apply Hks; [|done]. apply elem_of_app. right. by left.
  - unfold roomy. rewrite Hsame, Hpre. unfold few in Hfew. cbn [length] in Hfew. rewrite length_app in Hfew. cbn [length] in Hfew. destruct (prefetched r1); lia.
  - lia.
  - exists q, ids, stack, b, body, last, rest, r3, w3, h3, t3. split; [done|]. split; [done|]. split; [done|]. split; [done|]. split; [done|]. split; [done|]. split; try done.
    + apply (went_trans q (way_to q w) [] (stack ++ [b]) w w2 w3 h h2 h3); [|done]. split.
      * intros x. by rewrite Hid2.
      * destruct (Hio q Hq) as [-> _]. destruct Hund as [-> _]. rewrite app_nil_r. by case_bool_decide.
      * intros x Hx Hnx. destruct (Hio x Hx) as [-> ->]. destruct (Hcalm x Hx) as [[? _]|?]; [by left|by right].
      * intros x Hx Hnx. destruct (Hoth x Hx Hnx) as (jds & Hi & Ei). exists jds. split; [done|]. by rewrite (proj2 (Hio x Hx)).
      * apply (pipes_keep_trans _ w1 _ _ h1); [done|]. intros x Hx. rewrite Hsame in Hx. split; [done|]. intros d. apply Hk2. apply elem_of_app. by left.
    + intros i. by rewrite C3', Hop2, S1.
    + intros x d Hx Hd. apply C6; [done|]. apply Hks; [|done]. apply elem_of_app. right. by right.
Qed.

(** ** The body of a request *)

(** The parts that the user receives with [n] calls, the message being used again. *)
Fixpoint rep_recvs (fuel n : nat) (m : msg_t) (x : rep_t) (w : W) (h : memory) : outcome (list (result * msg_t) * rep_t * W * memory) :=
  match n with
  | O => Ok ([], x, w, h)
  | S n' =>
      let! (rc, m, x, w, h) := rep_xrecv available fuel m x w h in
      let! (l, x, w, h) := rep_recvs fuel n' m x w h in
      Ok ((rc, m) :: l, x, w, h)
  end.

(** What is known when a part of the body, or all of it, was read. *)
Record read_on (q : Z) (o : option Z) (hs : list msg_t) (last : msg_t) (r r' : router_t) (w w' : W) (h h' : memory) (t' : turns) (L : list Z) : Prop := {
  ro_listens : router_listens last hs r' w' h' t' L;
  ro_went : went q o [] w w' h h' L;
  ro_back : way_back q o r' w';
  ro_sending : sending r' = sending r
}.

Lemma next_read_on q o m1 l hs r r' w w' h h' t' L : q ∈ L -> next_part q m1 l hs r r' w w' h h' t' L -> way_back q o r w -> read_on q o hs m1 r r' w w' h h' t' L.
Proof.
  intros Hq [N1 [N2 N2'] [N3 N3'] N4 N5 N6 N7 N8 N9 N10 N11] (Hmo & Ho & Hoq & Hway). pose proof N1 as [_ [[_ Hatt] _ _ _ _ _ _]]. split; try done.
  - split; try done.
    + rewrite app_nil_r, N3. by case_bool_decide.
    + intros x Hx _. destruct (N2' x Hx) as [[? _]|?]; [by left|by right].
    + intros x Hx Hne. by apply less_names_same, N6.
  - injection N4 as _ No Nm _. split; [congruence|]. split; [congruence|]. split; [done|]. destruct o as [p|]; [|done]. destruct Hoq as [|[= ->]]; [done|].
    destruct Hway as [_ Ht]. split; [by apply Hatt|congruence].
Qed.

Lemma read_on_trans q o m1 m2 hs r r1 r2 w w1 w2 h h1 h2 t1 t2 L : read_on q o hs m1 r r1 w w1 h h1 t1 L -> read_on q o hs m2 r1 r2 w1 w2 h1 h2 t2 L -> read_on q o hs m2 r r2 w w2 h h2 t2 L.
Proof. intros [_ W1 _ S1] [L2 W2 B2 S2]. split; try done; [by apply (went_trans q o [] [] w w1 w2 h h1 h2)|congruence]. Qed.

Lemma read_body q o rest L last : is_last last -> forall body fuel m x w h t hs, Forall not_last body -> at_part q ((body ++ [last]) ++ rest) (router x) w ->
  router_listens m hs (router x) w h t L -> q ∈ L -> way_back q o (router x) w -> (forall z, z ∈ body ++ [last] -> exists d, data z h = Ok d) -> (0 < fuel)%nat ->
  sending_reply x = false -> request_begins x = false ->
  exists r' w' h' t', rep_recvs fuel (length (body ++ [last])) m x w h = Ok (map (pair Done) (body ++ [last]), mkRep r' true true, w', h')
    /\ read_on q o hs last (router x) r' w w' h h' t' L /\ at_start r' /\ inbox w' q = rest.
Proof.
  intros [Hlm Hli] body. induction body as [|p body IH]; intros fuel m x w h t hs Hb Hat Hl Hq Hway Hd Hf Hs Hr; cbn [app length rep_recvs map] in *; unfold rep_xrecv; rewrite Hs, Hr; cbn [obind];
    rewrite (bool_decide_eq_false_2 (Done <> Done)) by auto.
  - destruct (Hd last ltac:(by left)) as [d Hld].
    destruct (router_next available q last rest m hs (router x) w h t L fuel Hat Hl Hq Hli (has_data_check _ _ _ Hld) Hf) as (r1 & w1 & h1 & t1 & E & Hnp). rewrite E. cbn [obind].
    rewrite (bool_decide_eq_false_2 (Done <> Done)) by auto. rewrite Hlm. cbn [negb]. pose proof (np_then _ _ _ _ _ _ _ _ _ _ _ _ Hnp) as Hst. rewrite Hlm in Hst.
    exists r1, w1, h1, t1. split; [done|]. split; [by apply (next_read_on q o last rest)|]. split; [done|]. apply (np_rest _ _ _ _ _ _ _ _ _ _ _ _ Hnp).
  - apply Forall_cons in Hb as [[Hpm Hpi] Hb]. destruct (Hd p ltac:(by left)) as [d Hpd].
    destruct (router_next available q p _ m hs (router x) w h t L fuel Hat Hl Hq Hpi (has_data_check _ _ _ Hpd) Hf) as (r1 & w1 & h1 & t1 & E & Hnp). rewrite E. cbn [obind].
    rewrite (bool_decide_eq_false_2 (Done <> Done)) by auto. rewrite Hpm. cbn [negb]. pose proof (np_then _ _ _ _ _ _ _ _ _ _ _ _ Hnp) as Hat1. rewrite Hpm in Hat1.
    pose proof (next_read_on q o p _ hs _ _ _ _ _ _ _ L Hq Hnp Hway) as Hro.
    destruct (IH fuel p (with_router r1 x) w1 h1 t1 hs) as (r2 & w2 & h2 & t2 & E2 & Hro2 & Hst & Hin); try done; [by apply Hnp|by apply Hro| |].
    { intros z Hz. destruct (Hd z ltac:(by right)) as [e Hze]. exists e. apply (np_data _ _ _ _ _ _ _ _ _ _ _ _ Hnp); [|done]. right. apply elem_of_app. by left. }
    exists r2, w2, h2, t2. cbn [obind]. rewrite E2. cbn [obind]. split; [done|]. split; [|done]. by apply (read_on_trans q o p last hs _ r1 _ _ w1 _ _ h1 _ t1).
Qed.

(** ** The reply *)

Fixpoint rep_sends (ms : list msg_t) (x : rep_t) (w : W) (h : memory) : outcome (result * rep_t * W * memory) :=
  match ms with
  | [] => Ok (Done, x, w, h)
  | m :: ms' =>
      let! (rc, _, x, w, h) := rep_xsend m x w h in
      if bool_decide (rc <> Done) then Ok (rc, x, w, h) else rep_sends ms' x w h
  end.

Lemma rep_sends_router last parts : has_flag more last = false -> Forall (fun m => has_flag more m = true) parts -> forall x w h r' w' h', sending_reply x = true ->
  router_sends (parts ++ [last]) (router x) w h = Ok (Done, r', w', h') -> rep_sends (parts ++ [last]) x w h = Ok (Done, mkRep r' false (request_begins x), w', h').
Proof.
  intros Hl Hall. induction Hall as [|m parts Hm _ IH]; intros x w h r' w' h' Hs E; cbn [app rep_sends router_sends] in *; unfold rep_xsend; rewrite Hs; cbn [negb].
  - destruct (router_xsend last (router x) w h) as [[[[[rc m1] r1] w1] h1]| |]; try done. cbn [obind] in *.
    destruct (bool_decide_reflect (rc <> Done)) as [Hne|He]; [by injection E as -> _ _ _|]. cbn [obind]. rewrite (bool_decide_eq_false_2 (Done <> Done)) by auto.
    rewrite Hl. cbn [negb]. by injection E as <- <- <-.
  - destruct (router_xsend m (router x) w h) as [[[[[rc m1] r1] w1] h1]| |]; try done. cbn [obind] in *.
    destruct (bool_decide_reflect (rc <> Done)) as [Hne|He]; [by injection E as -> _ _ _|]. cbn [obind]. rewrite (bool_decide_eq_false_2 (Done <> Done)) by auto.
    rewrite Hm. cbn [negb]. by apply (IH (with_router r1 x)).
Qed.

(** ** A request and its reply *)

(** A reply socket to which peers send names and requests. *)
Record serving (m : msg_t) (hs : list msg_t) (x : rep_t) (w : W) (h : memory) (t : turns) (L : list Z) : Prop := {
  sv_receiving : sending_reply x = false /\ request_begins x = true;
  sv_ready : ready m hs (router x) w h t L;
  sv_requests q : q ∈ L -> requests h (inbox w q)
}.

Lemma knows_same (r r' : router_t) w w' L : (forall i, pipe <$> outpipes r' !! i = pipe <$> outpipes r !! i) -> (forall x, identity_of w' x = identity_of w x) -> knows r w L -> knows r' w' L.
Proof.
  intros Hp Hi Hk x Hx. destruct (Hk x Hx) as (H1' & H2' & o & Eo & Ep). rewrite Hi. split; [done|]. split; [done|]. specialize (Hp (identity_of w x)).
  rewrite Eo in Hp. destruct (outpipes r' !! identity_of w x) as [o'|]; [|done]. injection Hp as Ep'. exists o'. split; [done|congruence].
Qed.

Lemma hand_over {A} (R l K hs : list A) m i : R ++ m :: l ++ i :: K ++ hs ≡ₚ m :: l ++ i :: (K ++ R) ++ hs.
Proof. rewrite <- Permutation_middle, kept_aside, <- app_assoc. apply perm_skip, Permutation_app_head, perm_skip. by apply Permutation_app_swap_app. Qed.

(** The reply is sent, and the socket serves again. *)
Lemma reply_ok q o K reply last_reply m hs r w h t L : q ∈ L -> at_start r -> router_listens m (K ++ (reply ++ [last_reply]) ++ hs) r w h t L -> way_back q o r w -> knows r w L ->
  Forall (fun z => has_flag more z = true) reply -> has_flag more last_reply = false -> Forall (fun z => check z = true) (reply ++ [last_reply]) ->
  exists r' w' h', router_sends (reply ++ [last_reply]) r w h = Ok (Done, r', w', h') /\ ready m ((K ++ kept o (reply ++ [last_reply])) ++ hs) r' w' h' t L
    /\ went q o (reply ++ [last_reply]) w w' h h' L /\ (forall x, x ∈ L -> inbox w' x = inbox w x).
Proof.
  intros Hq [Hp Hpm Hmo Hfm] Hl (Hout & Ho & Hoq & Hway) Hkn Hall Hlast Hck. unfold router_listens in Hl. rewrite Hpm in Hl. pose proof Hl as [_ [[Hw Hatt] Hb Hfew Hc _ _ _]].
  assert (Hperm : m :: in_pipes L w ++ init :: K ++ (reply ++ [last_reply]) ++ hs ≡ₚ (reply ++ [last_reply]) ++ m :: in_pipes L w ++ init :: K ++ hs)
    by (by rewrite (hand_over (reply ++ [last_reply])), <- (app_assoc K)).
  rewrite <- Ho in Hway. destruct (send_rest_parts last_reply reply Hlast Hall (m :: in_pipes L w ++ init :: K ++ hs) r w h Hck Hout Hw Hway) as (w1 & h1 & E & Hwr & Hs & Hb1 & Hk).
  { by rewrite <- Hperm. }
  { unfold few in *. by rewrite <- (Permutation_length Hperm). }
  rewrite Ho in *. assert (Hin : forall x, x ∈ L -> inbox w1 x = inbox w x) by (intros x Hx; by apply (wr_in _ _ Hwr), Hatt).
  assert (Hpk : pipes_keep w w1 h h1 L).
  { intros x Hx. rewrite (in_pipes_same L w w1 Hin) in Hx. split; [done|]. intros d. apply Hk. right. apply elem_of_app. by left. }
  exists (with_out None false r), w1, h1. split; [done|]. split; [|split; [|done]].
  - split; try done.
    + unfold router_listens. cbn [prefetched_msg with_out fq]. rewrite Hpm. apply (listening_change _ _ _ w h t L _ _ _ _ Hl); try apply Hwr; try done.
      * by rewrite <- (hand_over (kept o (reply ++ [last_reply]))).
      * unfold few in *. rewrite <- (Permutation_length (hand_over (kept o (reply ++ [last_reply])) (in_pipes L w) K hs m init)). rewrite (Permutation_length Hperm) in Hfew.
        pose proof (kept_length o (reply ++ [last_reply])). rewrite length_app in Hfew |- *. lia.
      * intros x d Hx. apply Hk. right. apply elem_of_app. by left.
    + apply (knows_same r _ w w1); [done|apply Hwr|done].
  - split; try done; [apply Hwr|by apply Hs, Hatt| |].
    + intros x Hx Hne. left. rewrite (Hs x (Hatt x Hx)), bool_decide_eq_false_2; [done|]. destruct Hoq; congruence.
    + intros x Hx _. by apply less_names_same, Hin.
Qed.

(** The first call reads the addresses and the first part of the body. *)
Lemma first_call fuel n m x w h r1 w1 h1 : sending_reply x = false -> request_begins x = true -> copy_labels available fuel m (router x) w h = Ok (Done, init, r1, w1, h1) ->
  rep_recvs fuel (S n) m x w h = rep_recvs fuel (S n) init (mkRep r1 false false) w1 h1.
Proof.
  intros Hs Hb E. cbn [rep_recvs]. unfold rep_xrecv at 1. rewrite Hs, Hb, E. cbn [obind]. rewrite !(bool_decide_eq_true_2 (Done = Done)), (bool_decide_eq_false_2 (Done <> Done)) by auto.
  unfold rep_xrecv. cbn [sending_reply request_begins router obind]. by rewrite (bool_decide_eq_false_2 (Done <> Done)) by auto.
Qed.

(** The request of [q] that is answered, and what else there was. *)
Record asked (h : memory) (w : W) (q : Z) (stack : list msg_t) (b : msg_t) (body : list msg_t) (last : msg_t) (rest : list msg_t) : Prop := {
  ak_request : request h stack b body last;
  ak_behind : exists ids, Forall says_identity ids /\ inbox w q = ids ++ stack ++ b :: (body ++ [last]) ++ rest
}.

(** The reply reached [q] behind the addresses, if [q] takes messages; nothing was
    written to another pipe, and other pipes lost at most names. *)
Record replied (q : Z) (stack : list msg_t) (b : msg_t) (reply rest : list msg_t) (w w' : W) (L : list Z) : Prop := {
  rp_rest : inbox w' q = rest;
  rp_reply : outbox w' q = if taking w q then outbox w q ++ stack ++ b :: reply else outbox w q;
  rp_others x : x ∈ L -> x <> q -> less_names w w' x /\ (outbox w' x = outbox w x \/ inbox w' x = [])
}.

Lemma round_ok m hs reply last_reply x w h t L fuel : serving m ((reply ++ [last_reply]) ++ hs) x w h t L -> (length (in_pipes L w) + 2 < fuel)%nat ->
  Forall (fun z => has_flag more z = true) reply -> has_flag more last_reply = false -> Forall (fun z => check z = true) (reply ++ [last_reply]) ->
  (exists m' r' w' h', rep_xrecv available fuel m x w h = Ok (EAGAIN, m', with_router r' x, w', h') /\ at_start r' /\ sending r' = sending (router x) /\ no_request_waits w w' t L)
  \/ exists q stack b body last rest x1 w1 h1 x2 w2 h2 t2, q ∈ L /\ asked h w q stack b body last rest
     /\ rep_recvs fuel (length (body ++ [last])) m x w h = Ok (map (pair Done) (body ++ [last]), x1, w1, h1)
     /\ rep_sends (reply ++ [last_reply]) x1 w1 h1 = Ok (Done, x2, w2, h2)
     /\ replied q stack b (reply ++ [last_reply]) rest w w2 L
     /\ serving last (kept (way_to q w) (stack ++ b :: reply ++ [last_reply]) ++ hs) x2 w2 h2 t2 L.
Proof.
  intros [[Hs Hb] Hrd Hrq] Hf Hall Hlast Hck.
  destruct (request_begins_ok m _ (router x) w h t L fuel Hrd Hrq Hf) as [(m1 & r1 & w1 & h1 & E & Hst & Hsend & Hno)
    |(q & ids & stack & b & body & last & rest & r1 & w1 & h1 & t1 & Hq & Hids & Ew & Hreq & Hrest & E & [C1 C2 C3 C3' C4 C5 C6])].
  { left. exists m1, r1, w1, h1. unfold rep_xrecv. rewrite Hs, Hb, E. cbn [obind]. rewrite (bool_decide_eq_false_2 (EAGAIN = Done)), (bool_decide_eq_true_2 (EAGAIN <> Done)) by done. done. }
  right. assert (Hbd : forall z, z ∈ body ++ [last] -> exists d, data z h1 = Ok d).
  { intros z Hz. pose proof (rd_listens _ _ _ _ _ _ _ Hrd) as [_ [_ _ _ _ Hd _ _]]. destruct (Hd z) as [d Hd'].
    - apply (in_pipes_elem L w q z Hq). rewrite Ew. apply elem_of_app. right. apply elem_of_app. right. right. apply elem_of_app. by left.
    - exists d. apply C6; [apply elem_of_app; by left|done]. }
  destruct (read_body q (way_to q w) rest L last (rq_last _ _ _ _ _ Hreq) body fuel init (mkRep r1 false false) w1 h1 t1 _ (rq_body _ _ _ _ _ Hreq) C2 C1 Hq C4 Hbd ltac:(lia) eq_refl eq_refl)
    as (r2 & w2 & h2 & t2 & E2 & [B1 B2 B3 B4] & Hst2 & Hin2).
  pose proof (rd_knows _ _ _ _ _ _ _ Hrd) as Hkn. injection B4 as B4 _ _ _.
  assert (Hkn2 : knows r2 w2 L).
  { apply (knows_same (router x) _ w); [intros i; rewrite B4; apply C3'|intros z; by rewrite (we_id _ _ _ _ _ _ _ _ B2), (we_id _ _ _ _ _ _ _ _ C3)|done]. }
  destruct (reply_ok q (way_to q w) (kept (way_to q w) (stack ++ [b])) reply last_reply last hs r2 w2 h2 t2 L Hq Hst2 B1 B3 Hkn2 Hall Hlast Hck) as (r3 & w3 & h3 & E3 & Hrd3 & Hw3 & Hin3).
  assert (Ek : kept (way_to q w) (stack ++ [b]) ++ kept (way_to q w) (reply ++ [last_reply]) = kept (way_to q w) (stack ++ b :: reply ++ [last_reply])).
  { rewrite <- kept_app. f_equal. by rewrite <- app_assoc. }
  pose proof (went_trans _ _ _ _ _ _ _ _ _ _ _ (went_trans _ _ _ _ _ _ _ _ _ _ _ C3 B2) Hw3) as [_ T2 T3 T4 T5].
  exists q, stack, b, body, last, rest, (mkRep r2 true true), w2, h2, (mkRep r3 false true), w3, h3, t2. split; [done|]. split; [split; [done|by exists ids]|]. split; [|split; [|split]].
  - rewrite <- E2. destruct (length (body ++ [last])) as [|n] eqn:En; [rewrite length_app in En; cbn in En; lia|]. by apply first_call.
  - by apply (rep_sends_router last_reply reply Hlast Hall (mkRep r2 true true)).
  - split.
    + by rewrite (Hin3 q Hq).
    + rewrite T2. unfold way_to. destruct (taking w q); [rewrite bool_decide_eq_true_2 by done|by rewrite bool_decide_eq_false_2]. by rewrite app_nil_r, <- app_assoc.
    + intros y Hy Hne. split; [by apply T4|by apply T3].
  - split; [done|by rewrite <- Ek|]. intros y Hy. apply (requests_kept h h3); [intros z d Hz; apply (proj2 (T5 z ltac:(by apply (in_pipes_elem L w3 y)))) |].
    destruct (decide (y = q)) as [->|Hne]; [by rewrite (Hin3 q Hq), Hin2|]. destruct (T4 y Hy Hne) as (jds & Hj & Ej). apply (requests_behind h jds Hj). rewrite <- Ej. by apply Hrq.
Qed.
End Replies.

(** ** The order of the calls *)

Section Calls.
Context {W : Type} `{PipeOps W, RouteOps W}.
Variable available : Z -> bool.

(** A call of the user, or an event of a pipe, with the pipes and the heap as they
    are then. *)
Inductive rep_event :=
| User_sends (m : msg_t) (w : W) (h : memory)
| User_receives (fuel : nat) (m : msg_t) (w : W) (h : memory)
| Attached (p : Z) (w : W) (h : memory)
| Read_activated (p : Z) (w : W) (h : memory)
| Write_activated (p : Z)
| Terminated (p : Z) (w : W).

(** What the user sees: a part was received or sent, with the flag [more], the call
    failed, or nothing. *)
Inductive rep_seen := Part_received (parts_follow : bool) | Part_sent (parts_follow : bool) | Receive_failed (e : result) | Sending_failed (e : result) | Nothing_seen.

Definition run_event (e : rep_event) (x : rep_t) : outcome (rep_seen * rep_t) :=
  match e with
  | User_sends m w h => let! (rc, _, x, _, _) := rep_xsend m x w h in Ok (if bool_decide (rc = Done) then Part_sent (has_flag more m) else Sending_failed rc, x)
  | User_receives fuel m w h =>
      let! (rc, m, x, _, _) := rep_xrecv available fuel m x w h in Ok (if bool_decide (rc = Done) then Part_received (has_flag more m) else Receive_failed rc, x)
  | Attached p w h => let! (r, _, _) := xattach_pipe p (router x) w h in Ok (Nothing_seen, with_router r x)
  | Read_activated p w h => let! (r, _, _) := xread_activated p (router x) w h in Ok (Nothing_seen, with_router r x)
  | Write_activated p => let! r := xwrite_activated p (router x) in Ok (Nothing_seen, with_router r x)
  | Terminated p w => let! r := xterminated p (router x) w in Ok (Nothing_seen, with_router r x)
  end.

Fixpoint run_events (es : list rep_event) (x : rep_t) : outcome (list rep_seen * rep_t) :=
  match es with
  | [] => Ok ([], x)
  | e :: es' =>
      let! (s, x) := run_event e x in
      let! (ss, x) := run_events es' x in
      Ok (s :: ss, x)
  end.

(** A request is received, or a reply is sent. *)
Inductive rep_phase := Receiving | Answering.

Inductive rep_protocol : rep_phase -> list rep_seen -> rep_phase -> Prop :=
| rep_end p : rep_protocol p [] p
| rep_event_seen p ss p' : rep_protocol p ss p' -> rep_protocol p (Nothing_seen :: ss) p'
| rep_request_part ss p : rep_protocol Receiving ss p -> rep_protocol Receiving (Part_received true :: ss) p
| rep_request_end ss p : rep_protocol Answering ss p -> rep_protocol Receiving (Part_received false :: ss) p
| rep_reply_part ss p : rep_protocol Answering ss p -> rep_protocol Answering (Part_sent true :: ss) p
| rep_reply_end ss p : rep_protocol Receiving ss p -> rep_protocol Answering (Part_sent false :: ss) p
| rep_send_early ss p : rep_protocol Receiving ss p -> rep_protocol Receiving (Sending_failed EFSM :: ss) p
| rep_recv_early ss p : rep_protocol Answering ss p -> rep_protocol Answering (Receive_failed EFSM :: ss) p
| rep_recv_again ss p : rep_protocol Receiving ss p -> rep_protocol Receiving (Receive_failed EAGAIN :: ss) p.

Definition rep_phase_of (x : rep_t) : rep_phase := if sending_reply x then Answering else Receiving.

(** Behind the addresses, the router is in the middle of a message. *)
Definition rep_wf (x : rep_t) : Prop :=
  (sending_reply x = true -> request_begins x = true) /\ (sending_reply x = true \/ request_begins x = false -> more_out (router x) = true).

Lemma xrecv_keeps fuel m r (w : W) h : match router_xrecv available fuel m r w h with Ok (rc, _, r', _, _) => more_out r' = more_out r /\ (rc = Done \/ rc = EAGAIN) | _ => True end.
Proof.
  unfold router_xrecv. destruct (prefetched r).
  - destruct (negb (identity_sent r)); destruct (move _ _ h) as [[[[rc m1] s1] h1]| |]; try done; cbn [obind]; destruct (assertion _ _); try done; cbn [obind]; auto.
  - destruct (recv_message fuel m (fq r) w h) as [[[[[[rc m1] o] f1] w1] h1]| |]; try done. cbn [obind]. destruct (negb (rc =? 0)); [auto|].
    destruct (the_pipe o) as [p| |]; try done. cbn [obind]. destruct (more_in _); [auto|]. destruct (move _ m1 h1) as [[[[rc2 m2] s2] h2]| |]; try done. cbn [obind].
    destruct (assertion _ _); try done. cbn [obind]. destruct (pipe_get_identity p w1) as [i| |]; try done. cbn [obind]. destruct (make_msg available i h2) as [[m3 h3]| |]; try done. cbn [obind]. auto.
Qed.

(** Behind the first part, every part is accepted. *)
Lemma xsend_more m r (w : W) h : match router_xsend m r w h with Ok (rc, _, r', _, _) =>
    (more_out r = true -> rc = Done) /\ (rc = Done -> has_flag more m = true -> more_out r' = true) | _ => True end.
Proof.
  unfold router_xsend. destruct (more_out r) eqn:Em; cbn [negb].
  - cbn [current_out with_out]. destruct (current_out r) as [p|].
    + destruct (pipe_write p m w) as [[ok w1]| |]; try done. cbn [obind]. destruct ok; cbn [negb]; [|auto]. cbn [more_out with_out]. destruct (negb (has_flag more m)) eqn:En; [|auto].
      by destruct (pipe_flush p w1) as [w2| |].
    + by destruct (drop_msg m h) as [[m1 h1]| |].
  - destruct (assertion _ _); try done. cbn [obind]. destruct (has_flag more m) eqn:Hm.
    + destruct (data m h) as [i| |]; try done. cbn [obind outpipes with_out]. destruct (outpipes r !! i) as [o|].
      * destruct (pipe_check_write (pipe o) w) as [[b w1]| |]; try done. cbn [obind]. destruct (drop_msg m h) as [[m1 h1]| |]; destruct b; done.
      * cbn [mandatory with_out]. destruct (mandatory r); [done|]. by destruct (drop_msg m h) as [[m1 h1]| |].
    + destruct (drop_msg m h) as [[m1 h1]| |]; try done.
Qed.

Lemma copy_labels_more fuel : forall m r (w : W) h, match copy_labels available fuel m r w h with Ok (rc, _, r', _, _) => (rc = Done -> more_out r' = true) /\ (rc = Done \/ rc = EAGAIN) | _ => True end.
Proof.
  induction fuel as [|fuel IH]; intros m r w h; [done|]. cbn [copy_labels]. pose proof (xrecv_keeps fuel m r w h) as Hx.
  destruct (router_xrecv available fuel m r w h) as [[[[[rc m1] r1] w1] h1]| |]; try done. cbn [obind]. destruct Hx as [_ Hrc].
  destruct (bool_decide_reflect (rc <> Done)) as [Hne|_]; [by split|]. destruct (has_flag more m1) eqn:Hm.
  - destruct (Msg.size m1 h1) as [n| |]; try done. cbn [obind]. pose proof (xsend_more m1 r1 w1 h1) as Hs. destruct (router_xsend m1 r1 w1 h1) as [[[[[rc2 m2] r2] w2] h2]| |]; try done. cbn [obind].
    destruct (bool_decide_reflect (rc2 = Done)) as [Ed|]; try done. cbn [assertion obind]. destruct Hs as [_ Hs]. destruct (n =? 0); [|apply IH]. split; [auto|by left].
  - destruct (rollback r1 w1 h1) as [[[r2 w2] h2]| |]; try done. cbn [obind]. apply IH.
Qed.

Lemma recv_event fuel m x (w : W) h : rep_wf x -> match run_event (User_receives fuel m w h) x with
  | Ok (s, x') => rep_wf x' /\ forall ss p, rep_protocol (rep_phase_of x') ss p -> rep_protocol (rep_phase_of x) (s :: ss) p | _ => True end.
Proof.
  intros Hwf. cbn [run_event]. unfold rep_xrecv, rep_phase_of. destruct (sending_reply x) eqn:Es; [cbn; rewrite Es; split; [done|by constructor]|].
  set (first := if request_begins x then _ else _).
  assert (Hf : match first with Ok (rc, _, x1, _, _) => sending_reply x1 = false /\ rep_wf x1 /\ (rc = Done -> more_out (router x1) = true) /\ (rc = Done \/ rc = EAGAIN) | _ => True end).
  { unfold first. destruct (request_begins x) eqn:Er; [|split_and!; [done|done|intros _; apply Hwf; by right|by left]]. pose proof (copy_labels_more fuel m (router x) w h) as Hc.
    destruct (copy_labels available fuel m (router x) w h) as [[[[[rc m1] r1] w1] h1]| |]; try done. cbn [obind]. destruct Hc as [Hc Hrc].
    destruct (bool_decide_reflect (rc = Done)) as [->|Hne]; cbn; [split_and!; [done|by split; [cbn; congruence|intros _; apply Hc]|done|done]|].
    split_and!; [done| |done|done]. unfold rep_wf. cbn. rewrite Es, Er. split; [done|by intros []]. }
  destruct first as [[[[[rc m1] x1] w1] h1]| |]; try done. destruct Hf as (Hs1 & Hwf1 & Hd & Hrc). cbn [obind].
  destruct (bool_decide_reflect (rc <> Done)) as [Hne|He]; cbn [obind].
  { rewrite bool_decide_eq_false_2 by done. destruct Hrc as [?| ->]; [done|]. rewrite Hs1. split; [done|]. by constructor. }
  pose proof (xrecv_keeps fuel m1 (router x1) w1 h1) as Hx. destruct (router_xrecv available fuel m1 (router x1) w1 h1) as [[[[[rc2 m2] r2] w2] h2]| |]; try done. cbn [obind]. destruct Hx as [Hk Hrc2].
  assert (Ed : rc = Done) by (destruct Hrc as [->| ->]; [done|by destruct He]). specialize (Hd Ed).
  destruct (bool_decide_reflect (rc2 <> Done)) as [Hne2|He2]; cbn [obind].
  - rewrite bool_decide_eq_false_2 by done. destruct Hrc2 as [?| ->]; [done|]. cbn. rewrite Hs1. split; [|by constructor]. unfold rep_wf. cbn. rewrite Hs1. split; [done|congruence].
  - cbn. destruct (has_flag more m2); cbn; [rewrite Hs1|]; (split; [unfold rep_wf; cbn; split; congruence|by constructor]).
Qed.

Lemma send_event m x (w : W) h : rep_wf x -> match run_event (User_sends m w h) x with
  | Ok (s, x') => rep_wf x' /\ forall ss p, rep_protocol (rep_phase_of x') ss p -> rep_protocol (rep_phase_of x) (s :: ss) p | _ => True end.
Proof.
  intros Hwf. cbn [run_event]. unfold rep_xsend, rep_phase_of. destruct (sending_reply x) eqn:Es; cbn [negb]; [|cbn; rewrite Es; split; [done|by constructor]].
  pose proof (xsend_more m (router x) w h) as Hx. destruct (router_xsend m (router x) w h) as [[[[[rc m1] r1] w1] h1]| |]; try done. cbn [obind].
  destruct Hwf as [Hb Hmo]. destruct Hx as [Hd Hm]. rewrite (Hd (Hmo (or_introl Es))) in *. rewrite (bool_decide_eq_false_2 (Done <> Done)) by auto. cbn [obind].
  rewrite (bool_decide_eq_true_2 (Done = Done)) by done. destruct (has_flag more m) eqn:Ef; cbn.
  - rewrite Es. split; [|by constructor]. split; cbn; [done|]. intros _. by apply Hm.
  - split; [|by constructor]. split; cbn; [done|]. rewrite (Hb Es). by intros [].
Qed.

Lemma identify_more p r (w : W) h : match identify_peer p r w h with Ok (_, r', _, _) => more_out r' = more_out r | _ => True end.
Proof.
  unfold identify_peer. destruct (pipe_read p w) as [[[m|] w1]| |]; try done. cbn [obind]. destruct (Msg.size m h) as [n| |]; try done. cbn [obind]. destruct (n =? 0).
  - destruct (close m h) as [[[rc m1] h1]| |]; try done. cbn [obind]. destruct (pipe_set_identity p _ w1) as [w2| |]; try done. cbn [obind]. by destruct (assertion _ _).
  - destruct (data m h) as [d| |]; try done. cbn [obind]. destruct (close m h) as [[[rc m1] h1]| |]; try done. cbn [obind]. destruct (outpipes r !! d); [done|].
    by destruct (pipe_set_identity p d w1) as [w2| |].
Qed.

(** The events of the pipes leave a message that is sent where it is. *)
Lemma quiet_event x r' : rep_wf x -> more_out r' = more_out (router x) ->
  rep_wf (with_router r' x) /\ forall ss p, rep_protocol (rep_phase_of (with_router r' x)) ss p -> rep_protocol (rep_phase_of x) (Nothing_seen :: ss) p.
Proof. intros [H1' H2'] E. split; [split; cbn; [done|by rewrite E]|]. intros ss p. apply rep_event_seen. Qed.

Lemma run_event_ok e x : rep_wf x -> match run_event e x with
  | Ok (s, x') => rep_wf x' /\ forall ss p, rep_protocol (rep_phase_of x') ss p -> rep_protocol (rep_phase_of x) (s :: ss) p | _ => True end.
Proof.
  intros Hwf. destruct e as [m w h|fuel m w h|p w h|p w h|p|p w]; [by apply send_event|by apply recv_event|..]; cbn [run_event].
  - unfold xattach_pipe. pose proof (identify_more p (router x) w h) as Hi. destruct (identify_peer p (router x) w h) as [[[[b r1] w1] h1]| |]; try done. cbn [obind].
    destruct b; [destruct (Fq.attach p (fq r1)); try done; cbn [obind]|]; by apply quiet_event.
  - unfold xread_activated. destruct (negb _); [destruct (Fq.activated p (fq (router x))); try done; cbn [obind]; by apply quiet_event|].
    pose proof (identify_more p (router x) w h) as Hi. destruct (identify_peer p (router x) w h) as [[[[b r1] w1] h1]| |]; try done. cbn [obind].
    destruct b; [destruct (Fq.attach p _); try done; cbn [obind]|]; by apply quiet_event.
  - unfold xwrite_activated. destruct (find_pipe p _) as [[i o]|]; [|done]. destruct (assertion _ _); try done. cbn [obind]. by apply quiet_event.
  - unfold xterminated. destruct (bool_decide (p ∈ _)); [by apply quiet_event|]. destruct (pipe_get_identity p w) as [i| |]; try done. cbn [obind].
    destruct (assertion _ _); try done. cbn [obind]. destruct (Fq.terminated p _); try done. cbn [obind]. destruct (bool_decide _); by apply quiet_event.
Qed.

Lemma run_events_ok es : forall x, rep_wf x -> match run_events es x with Ok (ss, x') => rep_protocol (rep_phase_of x) ss (rep_phase_of x') | _ => True end.
Proof.
  induction es as [|e es IH]; intros x Hwf; [constructor|]. cbn [run_events]. pose proof (run_event_ok e x Hwf) as He.
  destruct (run_event e x) as [[s x1]| |]; try done. cbn [obind]. destruct He as [Hwf1 Hp]. specialize (IH x1 Hwf1).
  destruct (run_events es x1) as [[ss x2]| |]; try done. cbn [obind]. by apply Hp.
Qed.
End Calls.

(** ** The properties *)


(** C19: a reply goes back the way the request came.  When peers that the router
    knows send names and requests, receiving either finds no request in the active
    pipes, or one peer's request is read: as many calls as its body has parts
    return these parts in order, and the reply that is sent then, part by part,
    arrives at the pipe of this peer behind the addresses of the request, whole and
    in order, or nowhere if the pipe does not take it.  Nothing goes to another
    pipe, nothing behind the request is read, and the socket is where it was, with
    the requests that are left. *)
Theorem rep_answers_the_asker {W} `{RouteLaws W} (available : Z -> bool) (memory_left : forall n, available n = true) m hs reply last_reply x w h t L fuel :
  serving m ((reply ++ [last_reply]) ++ hs) x w h t L -> (length (in_pipes L w) + 2 < fuel)%nat ->
  Forall (fun z => has_flag more z = true) reply -> has_flag more last_reply = false -> Forall (fun z => check z = true) (reply ++ [last_reply]) ->
  (exists m' r' w' h', rep_xrecv available fuel m x w h = Ok (EAGAIN, m', with_router r' x, w', h') /\ at_start r' /\ sending r' = sending (router x) /\ no_request_waits w w' t L)
  \/ exists q stack b body last rest x1 w1 h1 x2 w2 h2 t2, q ∈ L /\ asked h w q stack b body last rest
     /\ rep_recvs available fuel (length (body ++ [last])) m x w h = Ok (map (pair Done) (body ++ [last]), x1, w1, h1)
     /\ rep_sends (reply ++ [last_reply]) x1 w1 h1 = Ok (Done, x2, w2, h2)
     /\ replied q stack b (reply ++ [last_reply]) rest w w2 L
     /\ serving last (kept (way_to q w) (stack ++ b :: reply ++ [last_reply]) ++ hs) x2 w2 h2 t2 L.
Proof. by apply round_ok. Qed.
