(* ===== verification/Own.v ===== *)
(** * The tree of owned objects ([lib/zeromq/own.cpp], [object.cpp])

    Sockets, sessions, listeners and connecters live in several threads and form a
    tree of owners.  They are shut down by commands: an object asks its owner to
    terminate it ([term_req]), the owner tells it to ([term]), and it acknowledges
    ([term_ack]) when it is gone.  An object waits for the acknowledgements of those
    it told, and, by counting them, for the commands that are still on their way
    to it. *)

From stdpp Require Import tactics gmap list.
From S2P Require Import Prelude.

(** The commands to owned objects; engines and pipes are for the derived classes. *)
Inductive command := plug | own (object : Z) | attach (engine : Z) | bind (pipe : Z) | term_req (object : Z) | term (linger : Z) | term_ack.

(** A command on its way, with the object that sent it. *)
Record packet := mkPacket { source : Z; destination : Z; type : command }.

(** The members of an object; of the derived classes, [pending] of a session and
    the events that a socket waits for, which it counts in [term_acks] too. *)
Record own_t := mkOwn {
  linger : Z;
  terminating : bool;
  sent_seqnum : Z;
  processed_seqnum : Z;
  owner : option Z;
  owned : gset Z;
  term_acks : Z;
  pending : bool;
  events : nat
}.

Definition new_own (linger_ : Z) : own_t := mkOwn linger_ false 0 0 None ∅ 0 false 0.

Definition with_terminating (b : bool) (o : own_t) : own_t := mkOwn (linger o) b (sent_seqnum o) (processed_seqnum o) (owner o) (owned o) (term_acks o) (pending o) (events o).
Definition with_sent (n : Z) (o : own_t) : own_t := mkOwn (linger o) (terminating o) n (processed_seqnum o) (owner o) (owned o) (term_acks o) (pending o) (events o).
Definition with_processed (n : Z) (o : own_t) : own_t := mkOwn (linger o) (terminating o) (sent_seqnum o) n (owner o) (owned o) (term_acks o) (pending o) (events o).
Definition with_owner (p : option Z) (o : own_t) : own_t := mkOwn (linger o) (terminating o) (sent_seqnum o) (processed_seqnum o) p (owned o) (term_acks o) (pending o) (events o).
Definition with_owned (s : gset Z) (o : own_t) : own_t := mkOwn (linger o) (terminating o) (sent_seqnum o) (processed_seqnum o) (owner o) s (term_acks o) (pending o) (events o).
Definition with_acks (n : Z) (o : own_t) : own_t := mkOwn (linger o) (terminating o) (sent_seqnum o) (processed_seqnum o) (owner o) (owned o) n (pending o) (events o).
Definition with_pending (b : bool) (o : own_t) : own_t := mkOwn (linger o) (terminating o) (sent_seqnum o) (processed_seqnum o) (owner o) (owned o) (term_acks o) b (events o).
Definition with_events (n : nat) (o : own_t) : own_t := mkOwn (linger o) (terminating o) (sent_seqnum o) (processed_seqnum o) (owner o) (owned o) (term_acks o) (pending o) n.

(** The objects by their addresses, which grow, and what is on its way, in the
    order in which it was sent. *)
Record world := mkWorld { objects : gmap Z own_t; next : Z; on_the_way : list packet }.

Definition no_objects : world := mkWorld ∅ 0 [].

(** [this->member]; the object is gone after [delete this]. *)
Definition get (this : Z) (w : world) : outcome own_t :=
  match objects w !! this with None => Aborted "deleted object" | Some o => Ok o end.

Definition put (this : Z) (o : own_t) (w : world) : world := mkWorld (<[this := o]> (objects w)) (next w) (on_the_way w).

(** [delete this]. *)
Definition process_destroy (this : Z) (w : world) : world := mkWorld (delete this (objects w)) (next w) (on_the_way w).

(** ** Sending *)

Definition send_command (this destination_ : Z) (c : command) (w : world) : world :=
  mkWorld (objects w) (next w) (on_the_way w ++ [mkPacket this destination_ c]).

Definition inc_seqnum (this : Z) (w : world) : outcome world :=
  let! o := get this w in Ok (put this (with_sent (to_uint32 (sent_seqnum o + 1)) o) w).

Definition send_plug (this destination_ : Z) (w : world) : outcome world :=
  let! w := inc_seqnum destination_ w in Ok (send_command this destination_ plug w).

Definition send_own (this destination_ object_ : Z) (w : world) : outcome world :=
  let! w := inc_seqnum destination_ w in Ok (send_command this destination_ (own object_) w).

Definition send_attach (this destination_ engine_ : Z) (w : world) : outcome world :=
  let! w := inc_seqnum destination_ w in Ok (send_command this destination_ (attach engine_) w).

Definition send_bind (this destination_ pipe_ : Z) (w : world) : outcome world :=
  let! w := inc_seqnum destination_ w in Ok (send_command this destination_ (bind pipe_) w).

Definition send_term_req (this destination_ object_ : Z) (w : world) : world := send_command this destination_ (term_req object_) w.
Definition send_term (this destination_ linger_ : Z) (w : world) : world := send_command this destination_ (term linger_) w.
Definition send_term_ack (this destination_ : Z) (w : world) : world := send_command this destination_ term_ack w.

(** ** [own_t] *)

Definition check_term_acks (this : Z) (w : world) : outcome world :=
  let! o := get this w in
  if terminating o && (processed_seqnum o =? sent_seqnum o) && (term_acks o =? 0) then
    let! _ := assertion (bool_decide (owned o = ∅)) "owned.empty ()" in
    let w := match owner o with Some p => send_term_ack this p w | None => w end in
    Ok (process_destroy this w)
  else Ok w.

Definition process_seqnum (this : Z) (w : world) : outcome world :=
  let! o := get this w in
  check_term_acks this (put this (with_processed (to_uint64 (processed_seqnum o + 1)) o) w).

Definition register_term_acks (this count_ : Z) (w : world) : outcome world :=
  let! o := get this w in Ok (put this (with_acks (term_acks o + count_) o) w).

Definition unregister_term_ack (this : Z) (w : world) : outcome world :=
  let! o := get this w in
  let! _ := assertion (0 <? term_acks o) "term_acks > 0" in
  check_term_acks this (put this (with_acks (term_acks o - 1) o) w).

Definition process_term_ack (this : Z) (w : world) : outcome world := unregister_term_ack this w.

Definition process_own (this object_ : Z) (w : world) : outcome world :=
  let! o := get this w in
  if terminating o then let! w := register_term_acks this 1 w in Ok (send_term this object_ 0 w)
  else Ok (put this (with_owned ({[object_]} ∪ owned o) o) w).

Definition process_term_req (this object_ : Z) (w : world) : outcome world :=
  let! o := get this w in
  if terminating o then Ok w
  else if bool_decide (object_ ∉ owned o) then Ok w
  else
    let w := put this (with_owned (owned o ∖ {[object_]}) o) w in
    let! w := register_term_acks this 1 w in
    Ok (send_term this object_ (linger o) w).

Definition term_child (this object_ : Z) (w : world) : outcome world := process_term_req this object_ w.

Definition process_term (this linger_ : Z) (w : world) : outcome world :=
  let! o := get this w in
  let! _ := assertion (negb (terminating o)) "!terminating" in
  let w := fold_left (fun w c => send_term this c linger_ w) (elements (owned o)) w in
  let! w := register_term_acks this (Z.of_nat (base.size (owned o))) w in
  let! o := get this w in
  check_term_acks this (put this (with_terminating true (with_owned ∅ o)) w).

Definition terminate (this : Z) (w : world) : outcome world :=
  let! o := get this w in
  if terminating o then Ok w
  else match owner o with
  | None => process_term this (linger o) w
  | Some p => Ok (send_term_req this p this w)
  end.

Definition set_owner (this owner_ : Z) (w : world) : outcome world :=
  let! o := get this w in
  let! _ := assertion (bool_decide (owner o = None)) "!owner" in
  Ok (put this (with_owner (Some owner_) o) w).

Definition launch_child (this object_ : Z) (w : world) : outcome world :=
  let! w := set_owner object_ this w in
  let! w := send_plug this object_ w in
  send_own this this object_ w.

(** [object_t::process_command].  What the derived classes do with a plug, an
    engine or a pipe is not part of an object here. *)
Definition process_command (this : Z) (c : command) (w : world) : outcome world :=
  match c with
  | plug | attach _ | bind _ => process_seqnum this w
  | own object_ => let! w := process_own this object_ w in process_seqnum this w
  | term_req object_ => process_term_req this object_ w
  | term linger_ => process_term this linger_ w
  | term_ack => process_term_ack this w
  end.

(** ** What derived classes add *)

(** [session_base_t::process_term] with a pipe: the termination is put off until
    the pipe is gone. *)
Definition put_off_term (this : Z) (w : world) : outcome world :=
  let! o := get this w in
  let! _ := assertion (negb (pending o)) "!pending" in
  Ok (put this (with_pending true o) w).

Definition proceed_with_term (this : Z) (w : world) : outcome world :=
  let! o := get this w in process_term this 0 (put this (with_pending false o) w).

(** [socket_base_t] waits for its pipes: it registers them in [process_term] and
    [attach_pipe], and unregisters them when they are terminated. *)
Definition await_events (this : Z) (n : nat) (w : world) : outcome world :=
  let! w := register_term_acks this (Z.of_nat n) w in
  let! o := get this w in Ok (put this (with_events (n + events o) o) w).

Definition event_happened (this : Z) (w : world) : outcome world :=
  let! o := get this w in unregister_term_ack this (put this (with_events (pred (events o)) o) w).

(** ** The system *)

Inductive action :=
| New (linger_ : Z)
| Launch (this object_ : Z)
| Attach (this session engine : Z)
| Bind (this socket pipe : Z)
| Terminate (this : Z)
| Term_child (this object_ : Z)
| Await (this : Z) (n : nat)
| Event (this : Z)
| Proceed (this : Z)
| Deliver (i : nat)
| Put_off (i : nat).

Definition arrive (i : nat) (w : world) : world := mkWorld (objects w) (next w) (delete i (on_the_way w)).

Definition act (a : action) (w : world) : outcome world :=
  match a with
  | New linger_ => Ok (mkWorld (<[next w := new_own linger_]> (objects w)) (next w + 1) (on_the_way w))
  | Launch this object_ => launch_child this object_ w
  | Attach this session engine => send_attach this session engine w
  | Bind this socket pipe => send_bind this socket pipe w
  | Terminate this => terminate this w
  | Term_child this object_ => term_child this object_ w
  | Await this n => await_events this n w
  | Event this => event_happened this w
  | Proceed this => proceed_with_term this w
  | Deliver i => match on_the_way w !! i with None => Ok w | Some p => process_command (destination p) (type p) (arrive i w) end
  | Put_off i => match on_the_way w !! i with None => Ok w | Some p => put_off_term (destination p) (arrive i w) end
  end.

Fixpoint acts (l : list action) (w : world) : outcome world :=
  match l with [] => Ok w | a :: l' => let! w := act a w in acts l' w end.
