(* ===== verification/OwnTree.v ===== *)
(** * The life of owned objects

    What [own_t] promises: an object is launched, adopted by its owner, told to
    terminate, and acknowledges when it is gone, which is after everything that it
    owns.  Here is this abstract tree, and the invariant that relates the objects
    and the commands on their way to it. *)

From stdpp Require Import tactics gmap list sorting relations.
From S2P Require Import Prelude Own.

(** ** Sums over finite maps *)

Section Sums.
Context {A : Type}.
Implicit Types (f g : Z -> A -> nat) (m : gmap Z A).

Definition msum f m : nat := map_fold (fun k x n => (f k x + n)%nat) 0%nat m.

Lemma msum_delete f m k x : m !! k = Some x -> msum f m = (f k x + msum f (delete k m))%nat.
Proof. intros Hk. unfold msum. rewrite (map_fold_delete_L _ _ k x m); [done| |done]. intros. lia. Qed.

(** What one key adds. *)
Definition at_key f k (e : option A) : nat := match e with Some x => f k x | None => 0 end.

Lemma msum_key f m k : msum f m = (at_key f k (m !! k) + msum f (delete k m))%nat.
Proof. destruct (m !! k) as [x|] eqn:Hk; [by apply msum_delete|]. by rewrite delete_id. Qed.

Lemma msum_change f m m' k : (forall y, y <> k -> m' !! y = m !! y) -> (msum f m' + at_key f k (m !! k) = msum f m + at_key f k (m' !! k))%nat.
Proof.
  intros Hy. rewrite (msum_key f m k), (msum_key f m' k). replace (delete k m') with (delete k m); [lia|].
  apply map_eq. intros y. destruct (decide (y = k)) as [->|Hne]; [by rewrite !lookup_delete_eq|]. by rewrite !lookup_delete_ne, Hy by done.
Qed.

Lemma msum_at f m k x : m !! k = Some x -> (f k x <= msum f m)%nat.
Proof. intros Hk. rewrite (msum_key f m k), Hk. cbn [at_key]. lia. Qed.
End Sums.

(** ** The abstract tree *)

(** Launched by its owner, adopted by it, told to terminate, putting that off,
    terminating, and gone but not yet acknowledged. *)
Inductive phase := Launched | Adopted | Told | Waiting | Closing | Acking.

#[export] Instance phase_eq_dec : EqDecision phase.
Proof. solve_decision. Defined.

(** The objects with their owners; a root has none. *)
Abbreviation tree := (gmap Z (option Z * phase)).

Definition living (G : tree) (c : Z) : Prop := exists p ph, G !! c = Some (p, ph) /\ ph <> Acking.

Definition childless (G : tree) (p : Z) : Prop := forall c ph, G !! c <> Some (Some p, ph).

(** From one phase to the next. *)
Definition follows (p : option Z) (ph ph' : phase) : Prop :=
  match p, ph, ph' with
  | Some _, Launched, (Adopted | Told) => True
  | Some _, Adopted, Told => True
  | Some _, Told, (Waiting | Closing) => True
  | Some _, Waiting, Closing => True
  | None, Adopted, Closing => True
  | _, _, _ => False
  end.

Inductive life : tree -> tree -> Prop :=
| life_new G c : G !! c = None -> life G (<[c := (None, Adopted)]> G)
| life_launch G p c : living G p -> p < c -> G !! c = Some (None, Adopted) -> life G (<[c := (Some p, Launched)]> G)
| life_follow G p c ph ph' : G !! c = Some (p, ph) -> follows p ph ph' -> life G (<[c := (p, ph')]> G)
| life_gone G p c : G !! c = Some (Some p, Closing) -> childless G c -> life G (<[c := (Some p, Acking)]> G)
| life_root_gone G c : G !! c = Some (None, Closing) -> childless G c -> life G (delete c G)
| life_acknowledged G p c : G !! c = Some (Some p, Acking) -> life G (delete c G).

(** Steps that bring nothing new to the tree make it smaller. *)
Definition rank (ph : phase) : nat :=
  match ph with Launched => 6 | Adopted => 5 | Told => 4 | Waiting => 3 | Closing => 2 | Acking => 1 end.

Definition rank_at (_ : Z) (e : option Z * phase) : nat := rank e.2.

Definition size (G : tree) : nat := msum rank_at G.

Definition fades (G G' : tree) : Prop := life G G' /\ (size G' < size G)%nat.

Lemma follows_rank p ph ph' : follows p ph ph' -> (rank ph' < rank ph)%nat.
Proof. destruct p, ph, ph'; cbn; intros Hf; (done || lia). Qed.

Lemma size_insert G c e : (size (<[c := e]> G) + at_key rank_at c (G !! c) = size G + rank e.2)%nat.
Proof.
  unfold size. pose proof (msum_change rank_at G (<[c := e]> G) c (fun y Hy => lookup_insert_ne _ _ _ _ (not_eq_sym Hy))) as Hm. rewrite lookup_insert_eq in Hm. exact Hm.
Qed.

Lemma rank_pos ph : (0 < rank ph)%nat.
Proof. destruct ph; cbn; lia. Qed.

Lemma fades_follow G p c ph ph' : G !! c = Some (p, ph) -> follows p ph ph' -> fades G (<[c := (p, ph')]> G).
Proof.
  intros Hc Hf. split; [by apply (life_follow G p c ph)|]. pose proof (size_insert G c (p, ph')) as Hs. rewrite Hc in Hs.
  change (at_key _ _ (Some (p, ph))) with (rank ph) in Hs. cbn [snd] in Hs. pose proof (follows_rank p ph ph' Hf). lia.
Qed.

Lemma fades_gone G p c : G !! c = Some (Some p, Closing) -> childless G c -> fades G (<[c := (Some p, Acking)]> G).
Proof.
  intros Hc Hl. split; [by apply life_gone|]. pose proof (size_insert G c (Some p, Acking)) as Hs. rewrite Hc in Hs.
  change (at_key _ _ (Some (Some p, Closing))) with 2%nat in Hs. cbn [snd rank] in Hs. lia.
Qed.

Lemma fades_delete G p c ph : G !! c = Some (p, ph) -> life G (delete c G) -> fades G (delete c G).
Proof.
  intros Hc Hl. split; [done|]. unfold size. rewrite (msum_delete rank_at G c (p, ph)) by done. unfold rank_at at 2. destruct ph; cbn [snd rank]; lia.
Qed.

Lemma fades_size G G' : rtc fades G G' -> (size G' <= size G)%nat /\ (size G' = size G -> G' = G).
Proof.
  induction 1 as [G|G1 G2 G3 [_ Hs] _ [IH1 IH2]]; [done|]. split; [lia|]. intros E. lia.
Qed.

(** ** What is on its way *)

(** The object that a packet announces something about: it is launched, told, or
    gone.  The commands that an object counts. *)
Definition token (p : packet) : option Z :=
  match type p with own x => Some x | term _ => Some (destination p) | term_ack => Some (source p) | _ => None end.

Definition counted (c : Z) (p : packet) : bool :=
  (destination p =? c) && match type p with plug | own _ | attach _ | bind _ => true | _ => false end.

Definition count (c : Z) (l : list packet) : nat := length (List.filter (counted c) l).

Definition tokens (l : list packet) : list Z := omap token l.

Definition has_token (ph : phase) : bool := match ph with Launched | Told | Acking => true | _ => false end.

(** What a packet says of the tree. *)
Definition says (p : packet) (G : tree) : Prop :=
  living G (destination p) /\
  match type p with
  | own x => G !! x = Some (Some (destination p), Launched)
  | term _ => exists q, G !! destination p = Some (Some q, Told)
  | term_ack => G !! source p = Some (Some (destination p), Acking)
  | term_req _ => exists ph, G !! source p = Some (Some (destination p), ph)
  | plug | attach _ | bind _ => True
  end.

Definition is_term_req (p : packet) : bool := match type p with term_req _ => true | _ => false end.

(** Behind its acknowledgement an object asks for nothing. *)
Definition silent (p q : packet) : Prop := type p = term_ack -> is_term_req q = true -> source q <> source p.

Record mail_ok (l : list packet) (G : tree) : Prop := {
  mail_says p : p ∈ l -> says p G;
  mail_once : NoDup (tokens l);
  mail_tokens x : x ∈ tokens l <-> exists p ph, G !! x = Some (p, ph) /\ has_token ph = true;
  mail_silent : StronglySorted silent l
}.

(** ** The objects *)

Definition awaited_phase (ph : phase) : bool := match ph with Told | Waiting | Closing | Acking => true | _ => false end.

(** Whether [p] waits for the acknowledgement of an object. *)
Definition awaits (p : Z) (_ : Z) (e : option Z * phase) : nat := if bool_decide (e.1 = Some p) && awaited_phase e.2 then 1 else 0.

Definition ready (o : own_t) : Prop := terminating o = true /\ processed_seqnum o = sent_seqnum o /\ term_acks o = 0.

(** [n] commands that count are on their way to the object; in the middle of a
    handler it may be ready to go. *)
Record object_ok (middle : bool) (n : nat) (G : tree) (c : Z) (o : own_t) (p : option Z) (ph : phase) : Prop := {
  ok_owner : owner o = p;
  ok_root : p = None -> ph = Adopted \/ ph = Closing;
  ok_terminating : terminating o = true <-> ph = Closing;
  ok_pending : pending o = true <-> ph = Waiting;
  ok_seqnum : 0 <= processed_seqnum o /\ processed_seqnum o + Z.of_nat n = sent_seqnum o /\ sent_seqnum o <= UINT_MAX;
  ok_owned x : x ∈ owned o <-> G !! x = Some (Some c, Adopted);
  ok_acks : term_acks o = Z.of_nat (msum (awaits c) G + events o);
  ok_settled : middle = false -> terminating o = true -> owned o = ∅ /\ ~ ready o
}.

(** [this] is the object whose handler runs. *)
Record inv (this : option Z) (w : world) (G : tree) : Prop := {
  inv_next c : is_Some (G !! c) -> c < next w;
  inv_living c : is_Some (objects w !! c) <-> living G c;
  inv_up c q ph : G !! c = Some (Some q, ph) -> q < c /\ living G q;
  inv_object c o : objects w !! c = Some o -> exists p ph, G !! c = Some (p, ph) /\ object_ok (bool_decide (this = Some c)) (count c (on_the_way w)) G c o p ph;
  inv_mail : mail_ok (on_the_way w) G
}.

Lemma inv_empty : inv None no_objects ∅.
Proof.
  split; cbn; try done.
  - intros c. rewrite lookup_empty. by intros [??].
  - intros c. rewrite lookup_empty. split; [by intros [??]|]. intros (p & ph & E & _). by rewrite lookup_empty in E.
  - split; cbn; [intros p []%elem_of_nil|constructor| |constructor].
    intros x. split; [by intros ?%elem_of_nil|]. intros (p & ph & E & _). by rewrite lookup_empty in E.
Qed.

(** ** Packets *)

Lemma tokens_app l1 l2 : tokens (l1 ++ l2) = tokens l1 ++ tokens l2.
Proof. apply omap_app. Qed.

Lemma count_app c l1 l2 : count c (l1 ++ l2) = (count c l1 + count c l2)%nat.
Proof. unfold count. by rewrite List.filter_app, length_app. Qed.

Lemma token_elem p x l : p ∈ l -> token p = Some x -> x ∈ tokens l.
Proof. intros Hp Ht. apply list_elem_of_omap. by exists p. Qed.

(** A packet says the same of a tree that agrees where it looks. *)
Lemma says_frame q G G' : says q G -> (living G (destination q) -> living G' (destination q)) -> (forall x, token q = Some x -> G' !! x = G !! x) ->
  (forall d ph, is_term_req q = true -> G !! source q = Some (Some d, ph) -> exists ph', G' !! source q = Some (Some d, ph')) -> says q G'.
Proof.
  intros [Hl Hs] Hl' Ht Hr. split; [by apply Hl'|]. unfold token, is_term_req in *. destruct (type q); try done.
  - by rewrite Ht.
  - destruct Hs as [ph Hs]. by apply (Hr _ ph).
  - by rewrite Ht.
  - by rewrite Ht.
Qed.

Definition token_of (x : Z) (e : option (option Z * phase)) : list Z := match e with Some (_, ph) => if has_token ph then [x] else [] | None => [] end.

Lemma mail_no_token l G x : mail_ok l G -> token_of x (G !! x) = [] -> x ∉ tokens l.
Proof.
  intros [_ _ Ht _] Hx Hin. apply Ht in Hin as (p & ph & E & Hph). unfold token_of in Hx. by rewrite E, Hph in Hx.
Qed.

(** One object of the tree changes, with the packets that announce it. *)
Lemma mail_change l1 rem l2 add G G' x : mail_ok (l1 ++ rem ++ l2) G -> (forall y, y <> x -> G' !! y = G !! y) ->
  tokens rem = token_of x (G !! x) -> tokens add = token_of x (G' !! x) ->
  (forall q, q ∈ l1 ++ l2 -> destination q = x -> living G' x) ->
  (forall q, q ∈ l1 ++ l2 -> is_term_req q = true -> source q = x -> exists ph, G' !! x = Some (Some (destination q), ph)) ->
  (forall q, q ∈ add -> says q G' /\ is_term_req q = false) -> mail_ok ((l1 ++ l2) ++ add) G'.
Proof.
  intros Hm Ho Hrem Hadd Hdst Hreq Hnew. pose proof Hm as [Hs Hn Ht Hq].
  assert (Hx : x ∉ tokens (l1 ++ l2)).
  { rewrite !tokens_app in Hn. intros Hin. rewrite tokens_app in Hin. destruct (token_of x (G !! x)) as [|y l] eqn:E.
    - apply (mail_no_token _ _ x Hm E). rewrite !tokens_app. set_solver.
    - assert (x ∈ tokens rem). { rewrite Hrem. unfold token_of in E. destruct (G !! x) as [[p ph]|]; [|done]. destruct (has_token ph); [|done]. injection E as <- <-. by left. }
      apply NoDup_app in Hn as (Hn1 & Hn2 & Hn3). apply NoDup_app in Hn3 as (Hn3 & Hn4 & Hn5). set_solver. }
  assert (Hsub : forall q, q ∈ l1 ++ l2 -> q ∈ l1 ++ rem ++ l2) by (intros q; rewrite !elem_of_app; tauto).
  assert (Hn' : NoDup (tokens (l1 ++ l2))).
  { rewrite !tokens_app in *. rewrite (Permutation_app_swap_app _ _) in Hn. by apply NoDup_app in Hn as (_ & _ & ?). }
  split.
  - intros q [Hin|Hin]%elem_of_app; [|by apply Hnew]. apply (says_frame q G); [by apply Hs, Hsub| | |].
    + intros Hl. destruct (decide (destination q = x)) as [E|Hne]; [rewrite E; by apply (Hdst q)|]. unfold living. by rewrite Ho.
    + intros y Hy. apply Ho. intros ->. by apply Hx, (token_elem q).
    + intros d ph Hr E. destruct (decide (source q = x)) as [Ex|Hne]; [|rewrite Ho by done; by exists ph].
      destruct (Hreq q Hin Hr Ex) as [ph' E']. destruct (Hs q (Hsub q Hin)) as [_ Hsq]. unfold is_term_req in Hr. destruct (type q); try done.
      destruct Hsq as [ph2 E2]. rewrite E2 in E. injection E as <- <-. rewrite Ex. by exists ph'.
  - rewrite tokens_app. apply NoDup_app. split; [done|]. split.
    + intros y Hy. rewrite Hadd. unfold token_of. destruct (G' !! x) as [[p ph]|]; [|by intros ?%elem_of_nil]. destruct (has_token ph); [|by intros ?%elem_of_nil].
      intros ->%list_elem_of_singleton. done.
    + rewrite Hadd. unfold token_of. destruct (G' !! x) as [[p ph]|]; [|constructor]. destruct (has_token ph); [apply NoDup_singleton|constructor].
  - intros y. rewrite tokens_app, elem_of_app, Hadd. destruct (decide (y = x)) as [->|Hne].
    + unfold token_of. destruct (G' !! x) as [[p ph]|]; split.
      * intros [?|Hin]; [done|]. exists p, ph. destruct (has_token ph); [done|by apply elem_of_nil in Hin].
      * intros (p' & ph' & [= <- <-] & ->). right. by left.
      * intros [?|?%elem_of_nil]; done.
      * by intros (p & ph & ? & _).
    + rewrite (Ho y Hne), <- Ht, !tokens_app, !elem_of_app, Hrem. unfold token_of.
      assert (forall e, y ∉ token_of x e) as Hno by (intros [[? ph]|]; cbn; [destruct (has_token ph)|]; rewrite ?list_elem_of_singleton; try done; apply not_elem_of_nil).
      pose proof (Hno (G !! x)). pose proof (Hno (G' !! x)). unfold token_of in *. tauto.
  - apply StronglySorted_app in Hq as (Hq1 & Hq2 & Hq3). apply StronglySorted_app in Hq3 as (Hq3 & _ & Hq4). apply StronglySorted_app. split_and!.
    + intros p q _ Hq0 _ Hr. destruct (Hnew q Hq0) as [_ Hf]. congruence.
    + apply StronglySorted_app. split_and!; [|done..]. intros p q Hp Hq'. apply Hq1; [done|]. rewrite elem_of_app. by right.
    + clear -Hnew. induction add as [|q add IH]; [constructor|]. constructor; [apply IH; intros; apply Hnew; by right|].
      apply Forall_forall. intros r Hr _ Hf. destruct (Hnew r) as [_ Hf']; [by right|]. congruence.
Qed.

Lemma mail_drop l1 q l2 G : mail_ok (l1 ++ q :: l2) G -> token q = None -> mail_ok (l1 ++ l2) G.
Proof.
  intros [Hs Hn Ht Hq] Hq'. assert (Et : tokens (l1 ++ q :: l2) = tokens (l1 ++ l2)) by (rewrite !tokens_app; cbn; by rewrite Hq').
  rewrite Et in Hn, Ht. split; [|done..|].
  - intros p Hp. apply Hs. rewrite elem_of_app, elem_of_cons in *. tauto.
  - apply StronglySorted_app in Hq as (Hq1 & Hq2 & Hq3). apply StronglySorted_cons in Hq3 as [_ Hq3]. apply StronglySorted_app. split_and!; [|done..].
    intros a b Ha Hb. apply Hq1; [done|by right].
Qed.

Lemma mail_add l q G : mail_ok l G -> token q = None -> says q G -> (is_term_req q = true -> living G (source q)) -> mail_ok (l ++ [q]) G.
Proof.
  intros [Hs Hn Ht Hq] Hq' Hsq Hl. assert (Et : tokens (l ++ [q]) = tokens l) by (rewrite tokens_app; cbn; by rewrite Hq', app_nil_r).
  split; rewrite ?Et; [|done..|].
  - intros p [Hp| ->%list_elem_of_singleton]%elem_of_app; [by apply Hs|done].
  - apply StronglySorted_app. split_and!; [|done|by repeat constructor]. intros p r Hp ->%list_elem_of_singleton Ha Hr Es.
    destruct (Hs p Hp) as [_ Hsp]. rewrite Ha in Hsp. destruct (Hl Hr) as (p' & ph & E & Hph). rewrite Es, Hsp in E. congruence.
Qed.

(** The acknowledgement that arrives before no other packet between the two is the
    last thing that the object sent. *)
Lemma mail_acked l1 p l2 G : mail_ok (l1 ++ p :: l2) G -> type p = term_ack -> (forall q, q ∈ l1 -> source q = source p -> destination q <> destination p) ->
  mail_ok (l1 ++ l2) (delete (source p) G).
Proof.
  intros Hm Hp Hf. pose proof Hm as [Hs Hn Ht Hq]. destruct (Hs p) as [_ Hsp]; [apply elem_of_app; right; by left|]. rewrite Hp in Hsp.
  rewrite <- (app_nil_r (l1 ++ l2)). assert (Hin : forall q, q ∈ l1 ++ l2 -> says q G) by (intros q Hq'; apply Hs; rewrite elem_of_app, elem_of_cons in *; tauto).
  apply (mail_change l1 [p] l2 [] G (delete (source p) G) (source p)).
  - done.
  - intros y Hy. by apply lookup_delete_ne.
  - rewrite Hsp. unfold tokens. cbn. unfold token. by rewrite Hp.
  - by rewrite lookup_delete_eq.
  - intros q Hq' E. destruct (Hin q Hq') as [(p' & ph & E' & Hph) _]. rewrite E, Hsp in E'. congruence.
  - intros q Hq' Hr E. exfalso. apply elem_of_app in Hq' as [Hq'|Hq'].
    + destruct (Hin q) as [_ Hsq]; [apply elem_of_app; by left|]. unfold is_term_req in Hr. destruct (type q); try done. destruct Hsq as [ph E']. rewrite E, Hsp in E'. injection E' as Ed _. by apply (Hf q).
    + apply StronglySorted_app in Hq as (_ & _ & Hq3). apply StronglySorted_cons in Hq3 as [Hq3 _]. rewrite Forall_forall in Hq3. by apply (Hq3 q Hq').
  - intros q ?%elem_of_nil. done.
Qed.

(** ** Objects that a step leaves alone *)

Lemma awaits_at p x e : awaits p x e = if bool_decide (e.1 = Some p) && awaited_phase e.2 then 1%nat else 0%nat.
Proof. done. Qed.

Lemma awaits_other G G' x c : (forall y, y <> x -> G' !! y = G !! y) -> (forall ph, G !! x <> Some (Some c, ph)) -> (forall ph, G' !! x <> Some (Some c, ph)) ->
  msum (awaits c) G' = msum (awaits c) G.
Proof.
  intros Ho Hx Hx'. pose proof (msum_change (awaits c) G G' x Ho) as Hs.
  assert (Hz : forall e, (forall ph, e <> Some (Some c, ph)) -> at_key (awaits c) x e = 0%nat).
  { intros [[p ph]|] He; cbn; [|done]. unfold awaits. cbn. rewrite bool_decide_eq_false_2; [done|]. intros ->. by apply (He ph). }
  rewrite !Hz in Hs by done. lia.
Qed.

Lemma object_frame middle middle' n G G' x c o p ph : object_ok middle n G c o p ph -> (middle' = false -> middle = false) -> (forall y, y <> x -> G' !! y = G !! y) ->
  (forall ph, G !! x <> Some (Some c, ph)) -> (forall ph, G' !! x <> Some (Some c, ph)) -> object_ok middle' n G' c o p ph.
Proof.
  intros [H1 H2 H3 H4 H5 H6 H7 H8] Hm Ho Hx Hx'. split; auto.
  - intros y. rewrite H6. destruct (decide (y = x)) as [->|Hy]; [|by rewrite Ho]. split; intros E; [by apply Hx in E|by apply Hx' in E].
  - by rewrite (awaits_other G G' x c).
Qed.

(** An object that is neither the one that changes nor its owner. *)
Lemma inv_frame this this' w G G' x c o l : inv this w G -> objects w !! c = Some o -> (forall y, y <> x -> G' !! y = G !! y) -> c <> x ->
  (forall ph, G !! x <> Some (Some c, ph)) -> (forall ph, G' !! x <> Some (Some c, ph)) -> count c l = count c (on_the_way w) -> (this = Some c -> this' = Some c) ->
  exists p ph, G' !! c = Some (p, ph) /\ object_ok (bool_decide (this' = Some c)) (count c l) G' c o p ph.
Proof.
  intros Hi Ec Ho Hc Hx Hx' Hl Ht. destruct (inv_object _ _ _ Hi c o Ec) as (p & ph & E & Hok). exists p, ph. split; [by rewrite Ho|].
  rewrite Hl. apply (object_frame _ _ _ _ _ x _ _ _ _ Hok); try done. intros Hf. apply bool_decide_eq_false in Hf. apply bool_decide_eq_false_2. auto.
Qed.

(** ** An object that is ready goes *)

Lemma awaits_value c x q ph : at_key (awaits c) x (Some (Some q, ph)) = if bool_decide (q = c) && awaited_phase ph then 1%nat else 0%nat.
Proof. cbn. unfold awaits. cbn. by rewrite (bool_decide_ext (Some q = Some c) (q = c)) by (split; congruence). Qed.

Lemma childless_awaits (G : tree) c : childless G c -> msum (awaits c) G = 0%nat.
Proof.
  unfold msum, childless. apply (map_fold_weak_ind (fun n m => (forall d ph, m !! d <> Some (Some c, ph)) -> n = 0%nat)); [done|].
  intros d [p ph] m n Hd IH Hm. pose proof (Hm d) as Hdm. rewrite lookup_insert_eq in Hdm. rewrite awaits_at. cbn [fst snd].
  rewrite bool_decide_eq_false_2 by (intros ->; by apply (Hdm ph)). apply IH. intros d' ph' E. destruct (decide (d' = d)) as [->|Hd']; [congruence|].
  apply (Hm d' ph'). by rewrite lookup_insert_ne.
Qed.

(** The object [c] when one of the others, [x], changes. *)
Lemma object_update middle middle' n n' G G' x c o o' p ph : object_ok middle n G c o p ph -> (forall y, y <> x -> G' !! y = G !! y) ->
  owner o' = owner o -> terminating o' = terminating o -> pending o' = pending o -> sent_seqnum o' = sent_seqnum o -> events o' = events o ->
  0 <= processed_seqnum o' /\ processed_seqnum o' + Z.of_nat n' = sent_seqnum o ->
  (forall y, y ∈ owned o' <-> (y ∈ owned o /\ y <> x) \/ (y = x /\ G' !! x = Some (Some c, Adopted))) ->
  term_acks o' + Z.of_nat (at_key (awaits c) x (G !! x)) = term_acks o + Z.of_nat (at_key (awaits c) x (G' !! x)) ->
  (middle' = false -> terminating o' = true -> owned o' = ∅ /\ ~ ready o') -> object_ok middle' n' G' c o' p ph.
Proof.
  intros [H1 H2 H3 H4 H5 H6 H7 H8] Ho Eo Et Ep Es Ee Hp Hown Hacks Hset. split; try done.
  - congruence.
  - by rewrite Et.
  - by rewrite Ep.
  - rewrite Es. lia.
  - intros y. rewrite Hown, H6. destruct (decide (y = x)) as [->|Hy]; [tauto|]. rewrite (Ho y Hy). tauto.
  - rewrite Ee. pose proof (msum_change (awaits c) G G' x Ho). lia.
Qed.

(** What waits to be dealt with, besides the tokens. *)
Definition no_token (p : packet) : bool := match token p with None => true | Some _ => false end.

Definition loose (l : list packet) : nat := length (List.filter no_token l).

Definition events_at (_ : Z) (o : own_t) : nat := events o.

Definition work (w : world) : nat := (loose (on_the_way w) + msum events_at (objects w))%nat.

Lemma loose_app l1 l2 : loose (l1 ++ l2) = (loose l1 + loose l2)%nat.
Proof. unfold loose. by rewrite List.filter_app, length_app. Qed.

Lemma work_put this o o' w l n : objects w !! this = Some o -> (work (mkWorld (<[this := o']> (objects w)) n l) + loose (on_the_way w) + events o = work w + loose l + events o')%nat.
Proof.
  intros Eo. unfold work. cbn [objects on_the_way]. pose proof (msum_change events_at (objects w) (<[this := o']> (objects w)) this) as Hs.
  rewrite lookup_insert_eq, Eo in Hs. specialize (Hs (fun y Hy => lookup_insert_ne _ _ _ _ (not_eq_sym Hy))).
  change (at_key _ _ (Some o)) with (events o) in Hs. change (at_key _ _ (Some o')) with (events o') in Hs. lia.
Qed.

Lemma count_zero c l q : count c l = 0%nat -> q ∈ l -> counted c q = false.
Proof.
  unfold count. intros Hz Hq. destruct (counted c q) eqn:E; [|done]. exfalso. apply length_zero_iff_nil in Hz.
  apply list_elem_of_In in Hq. assert (In q (List.filter (counted c) l)) as Hin by (by apply filter_In). by rewrite Hz in Hin.
Qed.

Lemma count_none c l : (forall q, q ∈ l -> destination q <> c) -> count c l = 0%nat.
Proof.
  induction l as [|q l IH]; intros Hl; [done|]. unfold count in *. cbn. unfold counted at 1.
  rewrite (proj2 (Z.eqb_neq _ _)) by (apply Hl; by left). apply IH. intros r Hr. apply Hl. by right.
Qed.

Lemma ready_alone this w G c o p ph : inv this w G -> objects w !! c = Some o -> object_ok true (count c (on_the_way w)) G c o p ph ->
  ready o -> owned o = ∅ -> ph = Closing /\ childless G c /\ (forall q, q ∈ on_the_way w -> destination q <> c) /\ events o = 0%nat.
Proof.
  intros Hi Ec [H1 H2 H3 H4 H5 H6 H7 H8] (Ht & Hp & Ha) Hown. pose proof (inv_mail _ _ _ Hi) as [Hs Hn Htok _].
  assert (Hz : count c (on_the_way w) = 0%nat) by lia. assert (Haw : msum (awaits c) G = 0%nat) by lia.
  assert (Hph : ph = Closing) by (by apply H3). assert (Hc : childless G c).
  { intros x ph' Ex. assert (Ha' : at_key (awaits c) x (G !! x) = 0%nat) by (rewrite (msum_key _ _ x) in Haw; lia).
    rewrite Ex, awaits_value, bool_decide_eq_true_2 in Ha' by done. destruct ph'; try done.
    - assert (Hx : x ∈ tokens (on_the_way w)) by (apply Htok; by exists (Some c), Launched). apply list_elem_of_omap in Hx as (q & Hq & Eq).
      destruct (Hs q Hq) as [_ Hsq]. pose proof (count_zero c _ q Hz Hq) as Hcq. unfold token in Eq. unfold counted in Hcq. destruct (type q) eqn:Etq; try done.
      + injection Eq as ->. rewrite Ex in Hsq. injection Hsq as E. rewrite <- E, Z.eqb_refl in Hcq. done.
      + injection Eq as Eq. destruct Hsq as [q' Hsq]. rewrite Eq, Ex in Hsq. done.
      + injection Eq as Eq. rewrite Eq, Ex in Hsq. done.
    - assert (x ∈ owned o) by (by apply H6). rewrite Hown in *. by apply elem_of_empty in H. }
  split; [done|]. split; [done|]. split; [|lia]. intros q Hq Ed. destruct (Hs q Hq) as [_ Hsq]. pose proof (count_zero c _ q Hz Hq) as Hcq. unfold counted in Hcq. rewrite Ed, Z.eqb_refl in Hcq.
  destruct (inv_object _ _ _ Hi c o Ec) as (p' & ph' & E & Hok'). destruct (type q); try done.
  - destruct Hsq as [ph2 Hsq]. rewrite Ed in Hsq. by apply (Hc _ _ Hsq).
  - destruct Hsq as [q' Hsq]. rewrite Ed, E in Hsq. injection Hsq as -> ->. destruct Hok' as [_ _ H3' _ _ _ _ _]. apply H3' in Ht. done.
  - rewrite Ed in Hsq. by apply (Hc _ _ Hsq).
Qed.

Definition is_ready (o : own_t) : bool := terminating o && (processed_seqnum o =? sent_seqnum o) && (term_acks o =? 0).

Lemma is_ready_spec o : is_ready o = true <-> ready o.
Proof. unfold is_ready, ready. rewrite !andb_true_iff, !Z.eqb_eq. tauto. Qed.

(** The tree without an object that is gone. *)
Definition gone (c : Z) (p : option Z) (G : tree) : tree := match p with Some q => <[c := (Some q, Acking)]> G | None => delete c G end.

Lemma gone_others c p G y : y <> c -> gone c p G !! y = G !! y.
Proof. intros Hy. destruct p; cbn; [by rewrite lookup_insert_ne|by rewrite lookup_delete_ne]. Qed.

Lemma gone_living c p G d : living (gone c p G) d <-> living G d /\ d <> c.
Proof.
  unfold living. destruct (decide (d = c)) as [->|Hd].
  - split; [|by intros [_ []]]. destruct p; cbn; rewrite ?lookup_insert_eq, ?lookup_delete_eq; [|by intros (? & ? & ? & _)].
    intros (p' & ph & [= <- <-] & []). done.
  - rewrite gone_others by done. tauto.
Qed.

Lemma mail_gone l G c p : mail_ok l G -> G !! c = Some (p, Closing) -> childless G c -> (forall q, q ∈ l -> destination q <> c) -> (forall q, p = Some q -> living G q /\ q <> c) ->
  mail_ok (l ++ match p with Some q => [mkPacket c q term_ack] | None => [] end) (gone c p G).
Proof.
  intros Hm Ec Hl Hd Hp. rewrite <- (app_nil_r l) at 1. apply (mail_change l [] [] _ G (gone c p G) c); [by rewrite !app_nil_r|intros y; apply gone_others| | | | |]; rewrite ?app_nil_r, ?Ec.
  - done.
  - destruct p; cbn; by rewrite ?lookup_insert_eq, ?lookup_delete_eq.
  - intros q Hq E. by destruct (Hd q Hq).
  - intros q Hq Hr Es. destruct (mail_says _ _ Hm q Hq) as [_ Hsq]. unfold is_term_req in Hr. destruct (type q); try done. destruct Hsq as [ph E].
    rewrite Es, Ec in E. injection E as -> _. cbn. rewrite lookup_insert_eq. by eexists.
  - destruct p as [q|]; [|by intros q ?%elem_of_nil]. intros r ->%list_elem_of_singleton. destruct (Hp q eq_refl) as [Hq Hqc].
    split; [|done]. split; cbn [destination type source]; [by apply gone_living|]. cbn. by rewrite lookup_insert_eq.
Qed.

(** What a command leads to: no failure, the invariant, and a tree to which
    nothing was added. *)
Definition leads (G : tree) (n : nat) (r : outcome world) : Prop :=
  exists w' G', r = Ok w' /\ inv None w' G' /\ rtc fades G G' /\ (work w' <= n)%nat.

Lemma inv_settled w G c o : inv (Some c) w G -> objects w !! c = Some o -> (terminating o = true -> owned o = ∅) -> ~ ready o -> inv None w G.
Proof.
  intros Hi Ec Hown Hnr. destruct Hi as [H1 H2 H3 H4 H5]. split; try done. intros d od Ed. destruct (H4 d od Ed) as (p & ph & E & Hok). exists p, ph. split; [done|].
  cbn. destruct Hok as [K1 K2 K3 K4 K5 K6 K7 K8]. split; try done. intros _ Ht. destruct (decide (d = c)) as [->|Hd].
  - replace od with o in * by congruence. by split; [apply Hown|].
  - apply K8; [|done]. apply bool_decide_eq_false_2. congruence.
Qed.

Lemma settle_ok w G c o : inv (Some c) w G -> objects w !! c = Some o -> (terminating o = true -> owned o = ∅) -> leads G (work w) (check_term_acks c w).
Proof.
  intros Hi Ec Hown. unfold check_term_acks, get. rewrite Ec. cbn [obind]. fold (is_ready o). destruct (is_ready o) eqn:Er.
  2: { exists w, G. split; [done|]. split; [|by split; [constructor|]]. apply (inv_settled w G c o); try done. rewrite <- is_ready_spec. congruence. }
  apply is_ready_spec in Er. pose proof (Hown (proj1 Er)) as Eo. rewrite Eo, bool_decide_eq_true_2 by done. cbn [assertion obind].
  destruct (inv_object _ _ _ Hi c o Ec) as (p & ph & E & Hok). rewrite bool_decide_eq_true_2 in Hok by done.
  destruct (ready_alone _ w G c o p ph Hi Ec Hok Er Eo) as (-> & Hl & Hd & Hev).
  assert (Hp : forall q, p = Some q -> living G q /\ q <> c /\ q < c) by (intros q ->; destruct (inv_up _ _ _ Hi c q _ E); split_and!; [done|lia|lia]).
  set (l' := on_the_way w ++ match p with Some q => [mkPacket c q term_ack] | None => [] end).
  assert (Ew : process_destroy c (match owner o with Some q => send_term_ack c q w | None => w end) = mkWorld (delete c (objects w)) (next w) l').
  { rewrite (ok_owner _ _ _ _ _ _ _ Hok). unfold l'. destruct p; cbn; by rewrite ?app_nil_r. }
  rewrite Ew. exists (mkWorld (delete c (objects w)) (next w) l'), (gone c p G). split; [done|]. split; [|split].
  - split; cbn [objects next on_the_way].
    + intros d Hd'. apply (inv_next _ _ _ Hi). destruct (decide (d = c)) as [->|Hdc]; [by rewrite E|]. by rewrite gone_others in Hd'.
    + intros d. rewrite gone_living, <- (inv_living _ _ _ Hi). destruct (decide (d = c)) as [->|Hdc]; [rewrite lookup_delete_eq; split; [by intros [??]|by intros [_ []]]|].
      rewrite lookup_delete_ne by done. tauto.
    + intros d q ph Ed. rewrite gone_living. destruct (decide (d = c)) as [->|Hdc].
      * destruct p as [p|]; cbn in Ed; [|by rewrite lookup_delete_eq in Ed]. rewrite lookup_insert_eq in Ed. injection Ed as <- <-. destruct (Hp p eq_refl) as (? & ? & ?). by split.
      * rewrite gone_others in Ed by done. destruct (inv_up _ _ _ Hi d q ph Ed). split_and!; try done. intros ->. by apply (Hl d ph).
    + intros d od Ed. assert (Hdc : d <> c) by (intros ->; by rewrite lookup_delete_eq in Ed). rewrite lookup_delete_ne in Ed by done.
      assert (Hcount : count d l' = count d (on_the_way w)) by (unfold l'; rewrite count_app; destruct p; cbn; unfold counted; cbn; rewrite ?andb_false_r; cbn; lia).
      destruct (decide (p = Some d)) as [->|Hpd].
      * destruct (inv_object _ _ _ Hi d od Ed) as (pd & phd & E' & Hokd). exists pd, phd. rewrite gone_others by done. split; [done|].
        rewrite bool_decide_eq_false_2 in Hokd by congruence. rewrite Hcount. apply (object_update _ _ _ _ _ _ c d od od _ _ Hokd); try done; [apply gone_others| | | |].
        -- split; [apply (ok_seqnum _ _ _ _ _ _ _ Hokd)|]. by destruct (ok_seqnum _ _ _ _ _ _ _ Hokd) as (_ & ? & _).
        -- intros y. cbn. rewrite lookup_insert_eq. split; [|intros [[? _]|[_ ?]]; done]. intros Hy. left. split; [done|]. intros ->.
           apply (ok_owned _ _ _ _ _ _ _ Hokd) in Hy. congruence.
        -- rewrite E. cbn [gone]. rewrite lookup_insert_eq, !awaits_value. done.
        -- intros _. by apply (ok_settled _ _ _ _ _ _ _ Hokd).
      * apply (inv_frame (Some c) None w G (gone c p G) c d od l' Hi Ed); try done; [apply gone_others| | |congruence].
        -- intros ph. rewrite E. congruence.
        -- intros ph. destruct p; cbn; [rewrite lookup_insert_eq; congruence|by rewrite lookup_delete_eq].
    + apply mail_gone; try done; [apply Hi|]. intros q Hq. destruct (Hp q Hq) as (? & ? & ?). done.
  - apply rtc_once. destruct p; cbn; [by apply fades_gone|]. apply (fades_delete G None c Closing); [done|]. by apply life_root_gone.
  - unfold work. cbn [objects on_the_way]. unfold l'. rewrite loose_app. rewrite (msum_delete events_at (objects w) c o Ec). unfold events_at at 2. destruct p; cbn; lia.
Qed.
