(* ===== verification/OwnSteps.v ===== *)
(** * The handlers of owned objects keep the tree

    Every command that arrives, and every call of the derived classes, keeps the
    invariant of [OwnTree]: no assertion fails, no command goes to an object that
    is gone, and the tree takes steps of its life. *)

From stdpp Require Import tactics gmap list sorting relations.
From S2P Require Import Prelude Own OwnTree.

(** ** One object changes *)

Section Changes.
Variables (m : option Z) (w : world) (G : tree) (c : Z) (o o' : own_t) (l : list packet).
Hypothesis Hinv : inv m w G.
Hypothesis Hm : m = None \/ m = Some c.
Hypothesis Ho : objects w !! c = Some o.
Hypothesis Hcount : forall d, d <> c -> count d l = count d (on_the_way w).

Lemma middle_le d : (m = Some d -> Some c = Some d).
Proof. destruct Hm as [->| ->]; congruence. Qed.

(** The tree stays. *)
Lemma inv_put p ph : G !! c = Some (p, ph) -> object_ok true (count c l) G c o' p ph -> mail_ok l G -> inv (Some c) (mkWorld (<[c := o']> (objects w)) (next w) l) G.
Proof.
  intros E Hok Hl. destruct Hinv as [H1 H2 H3 H4 H5]. split; cbn [objects next on_the_way]; try done.
  - intros d. rewrite <- H2. destruct (decide (d = c)) as [->|Hd]; [rewrite lookup_insert_eq, Ho; by split; eexists|by rewrite lookup_insert_ne].
  - intros d od Ed. destruct (decide (d = c)) as [->|Hd].
    + rewrite lookup_insert_eq in Ed. injection Ed as <-. exists p, ph. by rewrite bool_decide_eq_true_2.
    + rewrite lookup_insert_ne in Ed by done. destruct (H4 d od Ed) as (p' & ph' & E' & Hok'). exists p', ph'. split; [done|]. rewrite Hcount by done.
      apply (object_frame _ _ _ G G d d od p' ph' Hok'); try done; [|intros ph2 E2; by destruct (H3 d d ph2 E2) as [? _]; lia..].
      intros Hf. apply bool_decide_eq_false in Hf. apply bool_decide_eq_false_2. intros Hd'. by apply Hf, middle_le.
Qed.

(** A child [x] of the object changes with it. *)
Lemma inv_child G' x ph1 e p ph : (forall y, y <> x -> G' !! y = G !! y) -> G !! x = Some (Some c, ph1) ->
  (forall e', G' !! x = Some e' -> exists ph2, e' = (Some c, ph2) /\ e = Some ph2 /\ (ph1 = Closing <-> ph2 = Closing) /\ (ph1 = Waiting <-> ph2 = Waiting)) ->
  (living G' x <-> living G x) -> G !! c = Some (p, ph) -> object_ok true (count c l) G' c o' p ph -> mail_ok l G' ->
  inv (Some c) (mkWorld (<[c := o']> (objects w)) (next w) l) G'.
Proof.
  intros Hy Ex Ex' Hlx E Hok Hl. pose proof Hinv as [H1 H2 H3 H4 H5]. destruct (H3 _ _ _ Ex) as [Hlt Hlc].
  assert (Hliv : forall d, living G' d <-> living G d) by (intros d; destruct (decide (d = x)) as [->|Hd]; [done|unfold living; by rewrite Hy]).
  split; cbn [objects next on_the_way]; try done.
  - intros d Hd. apply H1. destruct (decide (d = x)) as [->|Hdx]; [by rewrite Ex|]. by rewrite Hy in Hd.
  - intros d. rewrite Hliv, <- H2. destruct (decide (d = c)) as [->|Hd]; [rewrite lookup_insert_eq, Ho; by split; eexists|by rewrite lookup_insert_ne].
  - intros d q phd Ed. rewrite Hliv. destruct (decide (d = x)) as [->|Hdx]; [destruct (Ex' _ Ed) as (ph2 & [= -> ->] & _); done|]. rewrite Hy in Ed by done. by apply (H3 d q phd).
  - intros d od Ed. destruct (decide (d = c)) as [->|Hd].
    + rewrite lookup_insert_eq in Ed. injection Ed as <-. exists p, ph. rewrite bool_decide_eq_true_2 by done. rewrite Hy by lia. done.
    + rewrite lookup_insert_ne in Ed by done. rewrite Hcount by done. destruct (H4 d od Ed) as (p' & ph' & E' & Hok').
      assert (Hmid : bool_decide (Some c = Some d) = false -> bool_decide (m = Some d) = false).
      { intros Hf. apply bool_decide_eq_false in Hf. apply bool_decide_eq_false_2. intros Hd'. by apply Hf, middle_le. }
      assert (Hfr : object_ok (bool_decide (Some c = Some d)) (count d (on_the_way w)) G' d od p' ph').
      { apply (object_frame _ _ _ G G' x d od p' ph' Hok'); try done; [rewrite Ex; congruence|]. intros ph2 E2. destruct (Ex' _ E2) as (ph3 & [= -> ->] & _). done. }
      destruct (decide (d = x)) as [->|Hdx]; [|exists p', ph'; by rewrite Hy].
      assert (Hlv : living G' x) by (apply Hliv, H2; by exists od). destruct Hlv as (p2 & ph2 & E2 & _). destruct (Ex' _ E2) as (ph3 & [= -> ->] & _ & Hc & Hw).
      rewrite Ex in E'. injection E' as <- <-. exists (Some c), ph3. split; [done|]. destruct Hfr as [K1 K2 K3 K4 K5 K6 K7 K8]. split; try done; [by rewrite <- Hc|by rewrite <- Hw].
Qed.

(** The object itself goes from one phase to the next; its owner waits for it
    before and after. *)
Lemma inv_self G' p ph ph' : (forall y, y <> c -> G' !! y = G !! y) -> G !! c = Some (p, ph) -> G' !! c = Some (p, ph') -> ph' <> Acking ->
  (p = None \/ awaited_phase ph = true /\ awaited_phase ph' = true) -> object_ok true (count c l) G' c o' p ph' -> mail_ok l G' ->
  inv (Some c) (mkWorld (<[c := o']> (objects w)) (next w) l) G'.
Proof.
  intros Hy E E' Ha Hp Hok Hl. pose proof Hinv as [H1 H2 H3 H4 H5].
  assert (Hlc : living G c) by (apply H2; by eexists). assert (Hliv : forall d, living G' d <-> living G d).
  { intros d. destruct (decide (d = c)) as [->|Hd]; [|unfold living; by rewrite Hy]. split; [done|]. intros _. by exists p, ph'. }
  split; cbn [objects next on_the_way]; try done.
  - intros d Hd. apply H1. destruct (decide (d = c)) as [->|Hdc]; [by rewrite E|]. by rewrite Hy in Hd.
  - intros d. rewrite Hliv, <- H2. destruct (decide (d = c)) as [->|Hd]; [rewrite lookup_insert_eq, Ho; by split; eexists|by rewrite lookup_insert_ne].
  - intros d q phd Ed. rewrite Hliv. destruct (decide (d = c)) as [->|Hdc]; [rewrite E' in Ed; injection Ed as -> _; by apply (H3 c q ph)|]. rewrite Hy in Ed by done. by apply (H3 d q phd).
  - intros d od Ed. destruct (decide (d = c)) as [->|Hd].
    + rewrite lookup_insert_eq in Ed. injection Ed as <-. exists p, ph'. by rewrite bool_decide_eq_true_2.
    + rewrite lookup_insert_ne in Ed by done. rewrite Hcount by done. destruct (H4 d od Ed) as (pd & phd & Ed' & Hokd). exists pd, phd. rewrite Hy by done. split; [done|].
      assert (Hmid : bool_decide (Some c = Some d) = false -> bool_decide (m = Some d) = false).
      { intros Hf. apply bool_decide_eq_false in Hf. apply bool_decide_eq_false_2. intros Hd'. by apply Hf, middle_le. }
      destruct (decide (p = Some d)) as [->|Hpd]; [|apply (object_frame _ _ _ G G' c d od pd phd Hokd); try done; congruence].
      destruct Hp as [?|[Ha1 Ha2]]; [done|]. apply (object_update _ _ _ _ _ _ c d od od _ _ Hokd); try done.
      * by destruct (ok_seqnum _ _ _ _ _ _ _ Hokd) as (? & ? & _).
      * intros y. rewrite E'. split; [|intros [[? _]|[_ [= ->]]]; done]. intros Hyo. left. split; [done|]. intros ->. apply (ok_owned _ _ _ _ _ _ _ Hokd) in Hyo. rewrite E in Hyo. injection Hyo as ->. done.
      * rewrite E, E', !awaits_value, Ha1, Ha2. done.
      * intros Hf. apply (ok_settled _ _ _ _ _ _ _ Hokd). by apply Hmid.
Qed.
End Changes.

(** ** Counted commands *)

Lemma leads_trans G G1 n n1 r : rtc fades G G1 -> (n1 <= n)%nat -> leads G1 n1 r -> leads G n r.
Proof. intros HG Hn (w' & G' & E & Hi & HG' & Hw). exists w', G'. split_and!; [done|done|by etrans|lia]. Qed.

Lemma living_object m w G c : inv m w G -> living G c -> exists o, objects w !! c = Some o.
Proof. intros Hi Hl. apply (inv_living _ _ _ Hi) in Hl as [o ?]. by exists o. Qed.

Lemma delivered_says m w G l1 q l2 : inv m w G -> on_the_way w = l1 ++ q :: l2 -> says q G.
Proof. intros Hi E. apply (mail_says _ _ (inv_mail _ _ _ Hi)). rewrite E. apply elem_of_app. right. by left. Qed.

Lemma count_middle c l1 q l2 : count c (l1 ++ q :: l2) = ((if counted c q then 1 else 0) + count c (l1 ++ l2))%nat.
Proof. rewrite !count_app. unfold count. cbn. destruct (counted c q); cbn; lia. Qed.

Lemma loose_middle l1 q l2 : loose (l1 ++ q :: l2) = ((if no_token q then 1 else 0) + loose (l1 ++ l2))%nat.
Proof. rewrite !loose_app. unfold loose. cbn. destruct (no_token q); cbn; lia. Qed.

Lemma counted_other c d q : destination q = d -> c <> d -> counted c q = false.
Proof. intros <- Hd. unfold counted. destruct (Z.eqb_spec (destination q) c); [congruence|done]. Qed.

Definition arrived (w : world) (l : list packet) : world := mkWorld (objects w) (next w) l.

(** A handler that sends tokens only. *)
Lemma work_arrived w c o o' n l add : objects w !! c = Some o -> (events o' <= events o)%nat -> loose add = 0%nat ->
  (work (mkWorld (<[c := o']> (objects w)) n (l ++ add)) + events o = work (arrived w l) + events o')%nat.
Proof.
  intros Eo Ee Ha. pose proof (work_put c o o' (arrived w l) (l ++ add) n Eo) as Hw. rewrite loose_app in Hw. unfold arrived in *. cbn [objects next on_the_way] in *. lia.
Qed.

Lemma next_seqnum o n : 0 <= processed_seqnum o /\ processed_seqnum o + Z.of_nat (S n) = sent_seqnum o /\ sent_seqnum o <= UINT_MAX ->
  to_uint64 (processed_seqnum o + 1) = processed_seqnum o + 1.
Proof. unfold UINT_MAX. intros (? & ? & ?). apply to_uint64_id. lia. Qed.

(** A plug, an engine or a pipe arrives. *)
Lemma counted_ok w G l1 q l2 c : inv None w G -> on_the_way w = l1 ++ q :: l2 -> destination q = c -> token q = None -> counted c q = true ->
  leads G (work (arrived w (l1 ++ l2))) (process_seqnum c (arrived w (l1 ++ l2))).
Proof.
  intros Hi El Ed Et Ec. pose proof (delivered_says None w G l1 q l2 Hi El) as [Hl _]. rewrite Ed in Hl. destruct (living_object _ _ _ _ Hi Hl) as [o Eo].
  unfold process_seqnum, get. cbn [objects arrived]. rewrite Eo. cbn [obind]. set (o' := with_processed _ o).
  destruct (inv_object _ _ _ Hi c o Eo) as (p & ph & E & Hok). rewrite El, count_middle, Ec in Hok. cbn in Hok. pose proof Hok as [K1 K2 K3 K4 K5 K6 K7 K8].
  assert (Hi' : inv (Some c) (mkWorld (<[c := o']> (objects w)) (next w) (l1 ++ l2)) G).
  { apply (inv_put None w G c o o' (l1 ++ l2) Hi ltac:(auto) Eo) with (p := p) (ph := ph); [|done| |].
    - intros d Hd. rewrite El, count_middle, (counted_other d c) by done. done.
    - unfold o'. rewrite (next_seqnum o _ K5). split; cbn; try done. lia.
    - pose proof (inv_mail _ _ _ Hi) as Hmail. rewrite El in Hmail. by apply (mail_drop l1 q l2 G). }
  apply (leads_trans G G _ (work (put c o' (arrived w (l1 ++ l2))))); [done| |].
  - pose proof (work_arrived w c o o' (next w) (l1 ++ l2) [] Eo (le_n _) eq_refl) as Hw. rewrite app_nil_r in Hw. change (events o') with (events o) in Hw. change (put c o' (arrived w (l1 ++ l2))) with (mkWorld (<[c := o']> (objects w)) (next w) (l1 ++ l2)). lia.
  - apply (settle_ok _ G c o'); [exact Hi'|apply lookup_insert_eq|]. intros Ht. by apply K8.
Qed.

(** ** A child is adopted *)

Lemma insert_others (G : gmap Z (option Z * phase)) x e y : y <> x -> <[x := e]> G !! y = G !! y.
Proof. intros Hy. by rewrite lookup_insert_ne. Qed.

(** What an owner does to a child changes neither its place nor what it is sent. *)
Definition same_place (o o' : own_t) : Prop :=
  owner o' = owner o /\ terminating o' = terminating o /\ pending o' = pending o /\ sent_seqnum o' = sent_seqnum o /\ events o' = events o.

(** The packets by which a child is told, or adopted in silence. *)
Definition telling (c x lg : Z) (ph : phase) : list packet := match ph with Told => [mkPacket c x (term lg)] | _ => [] end.

Section Follow.
Variables (m : option Z) (w : world) (G : tree) (l1 rem l2 : list packet) (c x lg : Z) (o o' : own_t) (ph1 ph2 : phase).
Hypothesis Hi : inv m w G.
Hypothesis Hm : m = None \/ m = Some c.
Hypothesis Eo : objects w !! c = Some o.
Hypothesis Hmail : mail_ok (l1 ++ rem ++ l2) G.
Hypothesis Hcnt : forall d, d <> c -> count d (l1 ++ l2) = count d (on_the_way w).
Hypothesis Ex : G !! x = Some (Some c, ph1).
Hypothesis Hph : follows (Some c) ph1 ph2.
Hypothesis Hph2 : ph2 = Adopted \/ ph2 = Told.
Hypothesis Hrem : tokens rem = token_of x (G !! x).
Hypothesis Hsame : same_place o o'.
Abbreviation G' := (<[x := (Some c, ph2)]> G).

Lemma follow_mail : mail_ok ((l1 ++ l2) ++ telling c x lg ph2) G'.
Proof.
  destruct (inv_up _ _ _ Hi x c _ Ex) as [Hlt [pc [phc [Epc Hpc]]]].
  apply (mail_change l1 rem l2 _ G G' x Hmail); [intros y; apply insert_others|done| | | |]; rewrite ?lookup_insert_eq.
  - by destruct Hph2 as [->| ->].
  - intros r _ _. exists (Some c), ph2. rewrite lookup_insert_eq. by destruct Hph2 as [->| ->].
  - intros r Hr Hq Er. destruct (mail_says _ _ Hmail r) as [_ Hsr]; [rewrite !elem_of_app in *; tauto|]. unfold is_term_req in Hq. destruct (type r); try done.
    destruct Hsr as [ph3 E2]. rewrite Er, Ex in E2. injection E2 as -> _. by eexists.
  - intros r Hr. destruct Hph2 as [->| ->]; cbn [telling] in Hr; [by apply elem_of_nil in Hr|]. apply list_elem_of_singleton in Hr as ->. split; [|done].
    split; cbn [type destination]; [exists (Some c), Told|exists c]; by rewrite lookup_insert_eq.
Qed.

Lemma inv_follow n p ph : object_ok true n G c o p ph -> G !! c = Some (p, ph) ->
  0 <= processed_seqnum o' /\ processed_seqnum o' + Z.of_nat (count c (l1 ++ l2)) = sent_seqnum o ->
  (forall y, y ∈ owned o' <-> (y ∈ owned o /\ y <> x) \/ (y = x /\ ph2 = Adopted)) ->
  term_acks o' = term_acks o + (if bool_decide (ph2 = Told) then 1 else 0) ->
  inv (Some c) (mkWorld (<[c := o']> (objects w)) (next w) ((l1 ++ l2) ++ telling c x lg ph2)) G' /\ fades G G'.
Proof.
  intros Hok E Hpr Hown Hacks. destruct Hsame as (S1 & S2 & S3 & S4 & S5). split; [|by apply (fades_follow G (Some c) x ph1 ph2)].
  assert (Hz : forall d, count d ((l1 ++ l2) ++ telling c x lg ph2) = count d (l1 ++ l2)).
  { intros d. rewrite count_app. destruct ph2; cbn; try lia. unfold count. cbn. unfold counted. cbn. rewrite andb_false_r. cbn. lia. }
  apply (inv_child m w G c o o' _ Hi Hm Eo) with (x := x) (ph1 := ph1) (e := Some ph2) (p := p) (ph := ph); [|intros y; apply insert_others|done| | |done| |apply follow_mail].
  - intros d Hd. rewrite Hz. by apply Hcnt.
  - intros e'. rewrite lookup_insert_eq. intros [= <-]. exists ph2. split; [done|]. split; [done|]. destruct Hph2 as [->| ->], ph1; cbn in Hph; done.
  - split; intros _; [exists (Some c), ph1|exists (Some c), ph2; rewrite lookup_insert_eq]; (split; [done|]); [by destruct ph1|by destruct Hph2 as [->| ->]].
  - apply (object_update _ _ _ _ G G' x c o o' _ _ Hok); try done; [intros y; apply insert_others|by rewrite Hz| |]; rewrite ?lookup_insert_eq.
    + intros y. rewrite Hown. destruct Hph2 as [->| ->]; [tauto|]. split; (intros [?|[? ?]]; [by left|done]).
    + rewrite Ex, !awaits_value, bool_decide_eq_true_2, Hacks by done. destruct Hph2 as [->| ->]; case_bool_decide; try done; destruct ph1; cbn in *; (done || lia).
Qed.
End Follow.

(** The end of a handler. *)
Lemma leads_settle w G G1 c o o' l add : inv (Some c) (mkWorld (<[c := o']> (objects w)) (next w) (l ++ add)) G1 -> rtc fades G G1 -> objects w !! c = Some o ->
  (events o' <= events o)%nat -> loose add = 0%nat -> (terminating o' = true -> owned o' = ∅) ->
  leads G (work (arrived w l) + events o' - events o) (check_term_acks c (mkWorld (<[c := o']> (objects w)) (next w) (l ++ add))).
Proof.
  intros Hi HG Eo Ee Ha Ht. pose proof (work_arrived w c o o' (next w) l add Eo Ee Ha) as Hw.
  apply (leads_trans G G1 _ (work (mkWorld (<[c := o']> (objects w)) (next w) (l ++ add)))); [done|lia|]. apply (settle_ok _ _ c o'); [done|apply lookup_insert_eq|done].
Qed.

(** A handler that takes the tree further. *)
Definition pays (G : tree) (n : nat) (r : outcome world) : Prop := exists G1, fades G G1 /\ leads G1 n r.

Lemma leads_le G n n' r : leads G n r -> (n <= n')%nat -> leads G n' r.
Proof. intros (w' & G' & E & Hi & HG & Hw) Hn. exists w', G'. split_and!; (done || lia). Qed.

Lemma own_ok w G l1 q l2 c x : inv None w G -> on_the_way w = l1 ++ q :: l2 -> destination q = c -> type q = own x ->
  pays G (work (arrived w (l1 ++ l2))) (let! w := process_own c x (arrived w (l1 ++ l2)) in process_seqnum c w).
Proof.
  intros Hi El Ed Et. pose proof (delivered_says None w G l1 q l2 Hi El) as [Hl Hs]. rewrite Et, Ed in Hs. rewrite Ed in Hl. destruct (living_object _ _ _ _ Hi Hl) as [o Eo].
  destruct (inv_object _ _ _ Hi c o Eo) as (p & ph & E & Hok). assert (Ec : counted c q = true) by (unfold counted; by rewrite Ed, Z.eqb_refl, Et).
  rewrite El, count_middle, Ec in Hok. cbn in Hok. pose proof Hok as [K1 K2 K3 K4 K5 K6 K7 K8].
  assert (Hok' : object_ok true (S (count c (l1 ++ l2))) G c o p ph) by by split.
  assert (Hcnt : forall d, d <> c -> count d (l1 ++ l2) = count d (on_the_way w)) by (intros d Hd; by rewrite El, count_middle, (counted_other d c)).
  assert (Htok : tokens [q] = token_of x (G !! x)) by (rewrite Hs; unfold tokens; cbn; unfold token; by rewrite Et).
  pose proof (inv_mail _ _ _ Hi) as Hmail. rewrite El in Hmail. change (l1 ++ q :: l2) with (l1 ++ [q] ++ l2) in Hmail.
  assert (En : to_uint64 (processed_seqnum o + 1) = processed_seqnum o + 1) by (apply (next_seqnum o _ K5)).
  assert (Hx : x ∉ owned o) by (rewrite K6, Hs; congruence).
  unfold process_own, get. cbn [objects arrived]. rewrite Eo. cbn [obind]. destruct (terminating o) eqn:Eterm.
  - unfold register_term_acks, get. cbn [objects arrived]. rewrite Eo. cbn [obind]. unfold process_seqnum, get, send_term, send_command, put. cbn [objects next on_the_way arrived].
    rewrite lookup_insert_eq. cbn [obind]. rewrite insert_insert_eq. set (o' := with_processed _ _).
    destruct (inv_follow None w G l1 [q] l2 c x 0 o o' Launched Told Hi ltac:(auto) Eo Hmail Hcnt Hs I ltac:(auto) Htok ltac:(done) _ p ph Hok' E) as [Hi' HG]; [cbn; lia| |done|].
    { intros y. cbn [owned o' with_processed with_acks]. split; [|intros [[? _]|[_ ?]]; done]. intros Hy. left. split; [done|]. congruence. }
    assert (Ht : terminating o' = true -> owned o' = ∅) by (intros Ht; by apply K8).
    exists (<[x := (Some c, Told)]> G). split; [done|]. eapply leads_le; [exact (leads_settle w _ _ c o o' _ _ Hi' (rtc_refl _ _) Eo (le_n _) eq_refl Ht)|cbn; lia].
  - unfold process_seqnum, get, put. cbn [objects next on_the_way arrived obind]. rewrite lookup_insert_eq. cbn [obind]. rewrite insert_insert_eq. set (o' := with_processed _ _).
    destruct (inv_follow None w G l1 [q] l2 c x 0 o o' Launched Adopted Hi ltac:(auto) Eo Hmail Hcnt Hs I ltac:(auto) Htok ltac:(done) _ p ph Hok' E) as [Hi' HG]; [cbn; lia| |rewrite bool_decide_eq_false_2, Z.add_0_r by done; done|].
    { intros y. cbn [owned o' with_processed with_owned]. rewrite elem_of_union, elem_of_singleton. destruct (decide (y = x)) as [->|]; tauto. }
    assert (Ht : terminating o' = true -> owned o' = ∅) by (intros Ht; change (terminating o') with (terminating o) in Ht; congruence).
    pose proof (leads_settle w _ _ c o o' _ _ Hi' (rtc_refl _ _) Eo (le_n _) eq_refl Ht) as HL. cbn [telling] in HL. rewrite app_nil_r in HL.
    exists (<[x := (Some c, Adopted)]> G). split; [done|]. eapply leads_le; [exact HL|cbn; lia].
Qed.

(** ** A request to terminate a child *)

Lemma inv_arrived w G l : inv None w G -> mail_ok l G -> (forall d, count d l = count d (on_the_way w)) -> inv None (arrived w l) G.
Proof.
  intros [H1 H2 H3 H4 H5] Hl Hc. split; try done. intros c o Ec. destruct (H4 c o Ec) as (p & ph & E & Hok). exists p, ph. split; [done|]. cbn [on_the_way arrived]. by rewrite Hc.
Qed.

Lemma term_req_ok w G l c x : inv None w G -> living G c -> mail_ok l G -> (forall d, count d l = count d (on_the_way w)) ->
  leads G (work (arrived w l)) (process_term_req c x (arrived w l)).
Proof.
  intros Hi Hl Hmail Hcnt. destruct (living_object _ _ _ _ Hi Hl) as [o Eo]. destruct (inv_object _ _ _ Hi c o Eo) as (p & ph & E & Hok).
  assert (Hsame : leads G (work (arrived w l)) (Ok (arrived w l))) by (exists (arrived w l), G; split_and!; [done|by apply inv_arrived|constructor|done]).
  unfold process_term_req, get. cbn [objects arrived]. rewrite Eo. cbn [obind]. destruct (terminating o) eqn:Et; [done|]. destruct (bool_decide_reflect (x ∉ owned o)) as [Hx|Hx]; [done|].
  apply dec_stable in Hx. pose proof Hok as [_ _ _ _ K5 K6 _ _]. apply K6 in Hx as Ex.
  unfold register_term_acks, get, put. cbn [objects next on_the_way arrived]. rewrite lookup_insert_eq. cbn [obind]. rewrite insert_insert_eq.
  set (o' := with_acks _ _). unfold send_term, send_command. cbn [objects next on_the_way]. set (lg := linger o).
  assert (Hok' : object_ok true (count c (on_the_way w)) G c o p ph) by (by destruct Hok; split).
  destruct (inv_follow None w G l [] [] c x lg o o' Adopted Told Hi ltac:(auto) Eo) with (n := count c (on_the_way w)) (p := p) (ph := ph) as [Hi' HG]; try done.
  - by rewrite !app_nil_r.
  - intros d _. by rewrite app_nil_r.
  - auto.
  - by rewrite Ex.
  - rewrite app_nil_r, Hcnt. cbn. destruct K5 as (? & ? & ?). done.
  - intros y. cbn [owned o' with_acks with_owned]. rewrite elem_of_difference, elem_of_singleton. split; [tauto|]. intros [?|[_ ?]]; done.
  - rewrite app_nil_r in Hi'. cbn [telling] in Hi'. eexists _, _. split; [reflexivity|]. split; [|split; [exact (rtc_once _ _ HG)|]].
    + apply (inv_settled _ _ c o' Hi'); [apply lookup_insert_eq| |]; [intros Ht|intros [Ht _]]; change (terminating o') with (terminating o) in Ht; congruence.
    + pose proof (work_arrived w c o o' (next w) l [mkPacket c x (term lg)] Eo (le_n _) eq_refl) as Hw. change (events o') with (events o) in Hw. lia.
Qed.

(** ** Termination *)

Definition terms (c lg : Z) (L : list Z) : list packet := map (fun x => mkPacket c x (term lg)) L.

Lemma send_terms c lg L : forall w, fold_left (fun w x => send_term c x lg w) L w = mkWorld (objects w) (next w) (on_the_way w ++ terms c lg L).
Proof.
  induction L as [|x L IH]; intros w; cbn; [destruct w; cbn; by rewrite app_nil_r|]. rewrite IH. cbn. by rewrite <- app_assoc.
Qed.

Lemma loose_terms c lg L : loose (terms c lg L) = 0%nat.
Proof. by induction L. Qed.

(** The object [o] after it told the children in [L]. *)
Definition told (L : list Z) (o : own_t) : own_t := with_owned (owned o ∖ list_to_set L) (with_acks (term_acks o + Z.of_nat (length L)) o).

Lemma tell_all c lg L : forall w G o, inv (Some c) w G -> objects w !! c = Some o -> NoDup L -> (forall x, x ∈ L -> x ∈ owned o) ->
  exists G', inv (Some c) (mkWorld (<[c := told L o]> (objects w)) (next w) (on_the_way w ++ terms c lg L)) G' /\ rtc fades G G'.
Proof.
  induction L as [|x L IH]; intros w G o Hi Eo Hn Hown.
  - exists G. split; [|constructor]. unfold told, terms. cbn. rewrite Z.add_0_r, app_nil_r. replace (with_owned _ _) with o; [rewrite insert_id by done; by destruct w|].
    destruct o. unfold with_owned, with_acks. cbn. f_equal. by rewrite difference_empty_L.
  - apply NoDup_cons in Hn as [Hx Hn]. destruct (inv_object _ _ _ Hi c o Eo) as (p & ph & E & Hok). rewrite bool_decide_eq_true_2 in Hok by done.
    assert (Ex : G !! x = Some (Some c, Adopted)) by (apply (ok_owned _ _ _ _ _ _ _ Hok), Hown; by left). set (o1 := told [x] o).
    destruct (inv_follow (Some c) w G (on_the_way w) [] [] c x lg o o1 Adopted Told Hi ltac:(auto) Eo) with (n := count c (on_the_way w)) (p := p) (ph := ph) as [Hi1 HG1]; try done.
    + by rewrite !app_nil_r; apply Hi.
    + intros d _. by rewrite app_nil_r.
    + auto.
    + by rewrite Ex.
    + rewrite app_nil_r. destruct (ok_seqnum _ _ _ _ _ _ _ Hok) as (? & ? & ?). done.
    + intros y. cbn. rewrite elem_of_difference, elem_of_union, elem_of_singleton. split; [intros [? Hy]; left; split; [done|]; intros ->; apply Hy; by left|].
      intros [[? ?]|[_ ?]]; [|done]. split; [done|]. intros [?|?%elem_of_empty]; done.
    + rewrite app_nil_r in Hi1. destruct (IH _ _ o1 Hi1) as (G2 & Hi2 & HG2).
      * apply lookup_insert_eq.
      * done.
      * intros y Hy. cbn. rewrite elem_of_difference, elem_of_union, elem_of_singleton. split; [apply Hown; by right|]. intros [->|?%elem_of_empty]; done.
      * exists G2. split; [|by eapply rtc_l]. cbn [objects next on_the_way] in Hi2. rewrite insert_insert_eq, <- app_assoc in Hi2. cbn [telling app] in Hi2.
        replace (told (x :: L) o) with (told L o1); [exact Hi2|]. unfold told, o1. destruct o. cbn. unfold with_owned, with_acks. cbn. f_equal; [|lia].
        apply set_eq. intros y. rewrite !elem_of_difference, !elem_of_union, elem_of_singleton. set_solver.
Qed.

(** The object goes to a phase that nothing on its way announces. *)
Lemma mail_self l1 rem l2 G c p ph ph' : mail_ok (l1 ++ rem ++ l2) G -> G !! c = Some (p, ph) -> tokens rem = token_of c (G !! c) -> has_token ph' = false ->
  mail_ok (l1 ++ l2) (<[c := (p, ph')]> G).
Proof.
  intros Hmail E Hrem Hph. rewrite <- (app_nil_r (l1 ++ l2)).
  apply (mail_change l1 rem l2 [] G _ c Hmail); [intros y; apply insert_others|done| | | |]; rewrite ?lookup_insert_eq.
  - cbn. by rewrite Hph.
  - intros r _ _. exists p, ph'. rewrite lookup_insert_eq. split; [done|]. by intros ->.
  - intros r Hr Hq Er. destruct (mail_says _ _ Hmail r) as [_ Hsr]; [rewrite !elem_of_app in *; tauto|]. unfold is_term_req in Hq. destruct (type r); try done.
    destruct Hsr as [ph3 E2]. rewrite Er, E in E2. injection E2 as -> _. by eexists.
  - by intros r ?%elem_of_nil.
Qed.

Lemma awaits_self G p ph c : G !! c = Some (p, ph) -> p <> Some c -> forall ph', msum (awaits c) (<[c := (p, ph')]> G) = msum (awaits c) G.
Proof.
  intros E Hp ph'. apply (awaits_other _ _ c); [intros y; apply insert_others|rewrite E; congruence|]. intros ph2. rewrite lookup_insert_eq. congruence.
Qed.

Lemma owned_self (G : gmap Z (option Z * phase)) p ph c : G !! c = Some (p, ph) -> p <> Some c -> forall ph' y, <[c := (p, ph')]> G !! y = Some (Some c, Adopted) <-> G !! y = Some (Some c, Adopted).
Proof.
  intros E Hp ph' y. destruct (decide (y = c)) as [->|Hy]; [rewrite lookup_insert_eq, E; split; congruence|by rewrite insert_others].
Qed.

Lemma not_own_parent m w G c p ph : inv m w G -> G !! c = Some (p, ph) -> p <> Some c.
Proof. intros Hi E ->. destruct (inv_up _ _ _ Hi c c ph E) as [? _]. lia. Qed.

Lemma process_term_ok w G l c o lg p ph : inv None w G -> objects w !! c = Some o -> G !! c = Some (p, ph) -> follows p ph Closing ->
  mail_ok l (<[c := (p, Closing)]> G) -> (forall d, count d l = count d (on_the_way w)) ->
  pays G (work (arrived w l)) (process_term c lg (put c (with_pending false o) (arrived w l))).
Proof.
  intros Hi Eo E Hf Hmail Hcnt. exists (<[c := (p, Closing)]> G). split; [by apply (fades_follow G p c ph)|].
  destruct (inv_object _ _ _ Hi c o Eo) as (p' & ph' & E' & Hok). rewrite E in E'. injection E' as <- <-. pose proof Hok as [K1 K2 K3 K4 K5 K6 K7 K8].
  assert (Et : terminating o = false) by (destruct (terminating o); [|done]; exfalso; assert (ph = Closing) as -> by (by apply K3); by destruct p).
  set (o1 := with_terminating true (with_pending false o)). set (G1 := <[c := (p, Closing)]> G) in *. pose proof (not_own_parent _ _ _ _ _ _ Hi E) as Hpc.
  assert (Hi1 : inv (Some c) (mkWorld (<[c := o1]> (objects w)) (next w) l) G1).
  { apply (inv_self None w G c o o1 l Hi ltac:(auto) Eo) with (p := p) (ph := ph) (ph' := Closing); try done.
    - intros y. apply insert_others.
    - apply lookup_insert_eq.
    - destruct p, ph; cbn in Hf; try done; auto.
    - split; cbn; try done; [auto|rewrite Hcnt; lia| |].
      + intros y. rewrite K6. symmetry. by apply (owned_self G p ph).
      + unfold G1. by rewrite (awaits_self G p ph). }
  destruct (tell_all c lg (elements (owned o)) _ G1 o1 Hi1) as (G2 & Hi2 & HG2); [apply lookup_insert_eq|apply NoDup_elements|by intros x ?%elem_of_elements|].
  unfold process_term, get, put. cbn [objects next on_the_way arrived]. rewrite lookup_insert_eq. cbn [obind with_pending terminating owned]. rewrite Et. cbn [negb assertion obind].
  rewrite send_terms. unfold register_term_acks, get, put. cbn [objects next on_the_way]. rewrite lookup_insert_eq. cbn [obind objects]. rewrite !insert_insert_eq. rewrite lookup_insert_eq. cbn [obind objects next on_the_way].
  rewrite insert_insert_eq. set (o2 := with_terminating true _). cbn [objects next on_the_way] in Hi2. rewrite insert_insert_eq in Hi2.
  replace (told (elements (owned o)) o1) with o2 in Hi2.
  2: { unfold told, o2, o1, base.size, set_size. destruct o. unfold with_owned, with_acks, with_pending, with_terminating. cbn. f_equal.
       rewrite list_to_set_elements_L. by rewrite difference_diag_L. }
  pose proof (leads_settle w G1 G2 c o o2 l _ Hi2 HG2 Eo (le_n _) (loose_terms _ _ _) (fun _ => eq_refl)) as HLs. eapply leads_le; [exact HLs|]. change (events o2) with (events o). lia.
Qed.

(** ** The end of a child *)

Lemma ack_ok w G l1 q l2 c : inv None w G -> on_the_way w = l1 ++ q :: l2 -> destination q = c -> type q = term_ack ->
  (forall r, r ∈ l1 -> source r = source q -> destination r <> c) -> pays G (work (arrived w (l1 ++ l2))) (process_term_ack c (arrived w (l1 ++ l2))).
Proof.
  intros Hi El Ed Et Hf. pose proof (delivered_says None w G l1 q l2 Hi El) as [Hl Hs]. rewrite Et, Ed in Hs. rewrite Ed in Hl. destruct (living_object _ _ _ _ Hi Hl) as [o Eo].
  destruct (inv_object _ _ _ Hi c o Eo) as (p & ph & E & Hok). pose proof Hok as [K1 K2 K3 K4 K5 K6 K7 K8].
  pose proof (inv_mail _ _ _ Hi) as Hmail. rewrite El in Hmail. set (x := source q) in *. set (G' := delete x G).
  assert (Hfd : fades G G') by (apply (fades_delete G (Some c) x Acking Hs); by apply (life_acknowledged G c)). exists G'. split; [done|].
  assert (Hy : forall y, y <> x -> G' !! y = G !! y) by (intros y Hy; by apply lookup_delete_ne).
  assert (Hpos : (1 <= msum (awaits c) G)%nat) by (rewrite (msum_key _ _ x), Hs, awaits_value, bool_decide_eq_true_2 by done; cbn [awaited_phase andb]; lia).
  assert (Hcnt : forall d, count d (l1 ++ l2) = count d (on_the_way w)) by (intros d; rewrite El, count_middle; unfold counted; rewrite Et, andb_false_r; done).
  unfold process_term_ack, unregister_term_ack, get. cbn [objects arrived]. rewrite Eo. cbn [obind]. destruct (Z.ltb_spec 0 (term_acks o)); [|lia]. cbn [assertion obind].
  unfold put. cbn [objects next on_the_way arrived]. set (o' := with_acks _ o).
  assert (Hi' : inv (Some c) (mkWorld (<[c := o']> (objects w)) (next w) ((l1 ++ l2) ++ [])) G').
  { apply (inv_child None w G c o o' _ Hi ltac:(auto) Eo) with (x := x) (ph1 := Acking) (e := None) (p := p) (ph := ph); try done.
    - intros d _. by rewrite app_nil_r.
    - intros e'. unfold G'. by rewrite lookup_delete_eq.
    - unfold living, G'. rewrite lookup_delete_eq, Hs. split; [by intros (? & ? & ? & _)|by intros (? & ? & [= <- <-] & [])].
    - apply (object_update _ _ _ _ G G' x c o o' _ _ Hok); try done; unfold G'; rewrite ?lookup_delete_eq.
      + rewrite app_nil_r, Hcnt. change (processed_seqnum o') with (processed_seqnum o). destruct K5 as (? & ? & ?). done.
      + intros y. split; [|intros [[? _]|[_ ?]]; done]. intros Hyo. left. split; [done|]. intros ->. apply K6 in Hyo. congruence.
      + rewrite Hs, awaits_value, bool_decide_eq_true_2 by done. change (term_acks o') with (term_acks o - 1). cbn. lia.
    - rewrite app_nil_r. apply (mail_acked l1 q l2 G Hmail Et). intros r Hr Er. rewrite Ed. by apply Hf. }
  assert (Ht : terminating o' = true -> owned o' = ∅) by (intros Ht; by apply K8).
  pose proof (leads_settle w G' G' c o o' _ _ Hi' (rtc_refl _ _) Eo (le_n _) eq_refl Ht) as HL. rewrite app_nil_r in HL. eapply leads_le; [exact HL|]. change (events o') with (events o). lia.
Qed.

Lemma event_ok w G c o : inv None w G -> objects w !! c = Some o -> (0 < events o)%nat -> leads G (work w - 1) (event_happened c w).
Proof.
  intros Hi Eo He. destruct (inv_object _ _ _ Hi c o Eo) as (p & ph & E & Hok). pose proof Hok as [K1 K2 K3 K4 K5 K6 K7 K8].
  unfold event_happened, unregister_term_ack, get, put. cbn [objects]. rewrite Eo. cbn [obind objects]. rewrite lookup_insert_eq. cbn [obind with_events term_acks].
  destruct (Z.ltb_spec 0 (term_acks o)); [|lia]. cbn [assertion obind objects next on_the_way]. rewrite insert_insert_eq. set (o' := with_acks _ _).
  assert (Hi' : inv (Some c) (mkWorld (<[c := o']> (objects w)) (next w) (on_the_way w ++ [])) G).
  { rewrite app_nil_r. apply (inv_put None w G c o o' _ Hi ltac:(auto) Eo) with (p := p) (ph := ph); [done|done| |apply Hi].
    split; try done. cbn. lia. }
  assert (Ht : terminating o' = true -> owned o' = ∅) by (intros Ht; by apply K8).
  pose proof (leads_settle w G G c o o' _ _ Hi' (rtc_refl _ _) Eo ltac:(cbn; lia) eq_refl Ht) as HL. rewrite app_nil_r in HL. eapply leads_le; [exact HL|].
  replace (arrived w (on_the_way w)) with w by (by destruct w). change (events o') with (pred (events o)). lia.
Qed.

(** ** Termination that is put off, and the calls of objects *)

Lemma put_off_ok w G l1 q l2 c lg : inv None w G -> on_the_way w = l1 ++ q :: l2 -> destination q = c -> type q = term lg ->
  pays G (work (arrived w (l1 ++ l2))) (put_off_term c (arrived w (l1 ++ l2))).
Proof.
  intros Hi El Ed Et. pose proof (delivered_says None w G l1 q l2 Hi El) as [Hl Hs]. rewrite Et, Ed in Hs. rewrite Ed in Hl. destruct Hs as [p Hs]. destruct (living_object _ _ _ _ Hi Hl) as [o Eo].
  destruct (inv_object _ _ _ Hi c o Eo) as (p' & ph & E & Hok). rewrite Hs in E. injection E as <- <-. pose proof Hok as [K1 K2 K3 K4 K5 K6 K7 K8].
  assert (Etm : terminating o = false) by (destruct (terminating o); [by destruct K3 as [K3 _]; specialize (K3 eq_refl)|done]).
  assert (Ep : pending o = false) by (destruct (pending o); [by destruct K4 as [K4 _]; specialize (K4 eq_refl)|done]).
  pose proof (inv_mail _ _ _ Hi) as Hmail. rewrite El in Hmail. pose proof (not_own_parent _ _ _ _ _ _ Hi Hs) as Hpc.
  exists (<[c := (Some p, Waiting)]> G). split; [by apply (fades_follow G (Some p) c Told)|].
  unfold put_off_term, get, put. cbn [objects next on_the_way arrived]. rewrite Eo. cbn [obind]. rewrite Ep. cbn [negb assertion obind]. set (o' := with_pending true o).
  assert (Hcnt : forall d, count d (l1 ++ l2) = count d (on_the_way w)) by (intros d; rewrite El, count_middle; unfold counted; rewrite Et, andb_false_r; done).
  assert (Hi' : inv (Some c) (mkWorld (<[c := o']> (objects w)) (next w) (l1 ++ l2)) (<[c := (Some p, Waiting)]> G)).
  { apply (inv_self None w G c o o' _ Hi ltac:(auto) Eo) with (p := Some p) (ph := Told) (ph' := Waiting); try done.
    - intros y. apply insert_others.
    - apply lookup_insert_eq.
    - auto.
    - split; cbn; try done; [by rewrite Etm|rewrite Hcnt; lia| |].
      + intros y. rewrite K6. symmetry. by apply (owned_self G (Some p) Told).
      + by rewrite (awaits_self G (Some p) Told).
    - apply (mail_self l1 [q] l2 G c (Some p) Told); try done. rewrite Hs. unfold tokens. cbn. unfold token. by rewrite Et, Ed. }
  eexists _, _. split; [reflexivity|]. split; [|split; [constructor|]].
  - apply (inv_settled _ _ c o' Hi'); [apply lookup_insert_eq| |]; [intros Ht|intros [Ht _]]; change (terminating o') with (terminating o) in Ht; congruence.
  - pose proof (work_arrived w c o o' (next w) (l1 ++ l2) [] Eo (le_n _) eq_refl) as Hw. rewrite app_nil_r in Hw. change (events o') with (events o) in Hw. lia.
Qed.

Lemma new_ok w G lg : inv None w G -> inv None (mkWorld (<[next w := new_own lg]> (objects w)) (next w + 1) (on_the_way w)) (<[next w := (None, Adopted)]> G) /\ life G (<[next w := (None, Adopted)]> G).
Proof.
  intros Hi. pose proof Hi as [H1 H2 H3 H4 H5]. set (c := next w).
  assert (Ec : G !! c = None) by (destruct (G !! c) eqn:E; [|done]; assert (c < next w) by (apply H1; by rewrite E); unfold c in *; lia).
  assert (Hno : forall d ph, G !! d <> Some (Some c, ph)) by (intros d ph E; destruct (H3 _ _ _ E) as [_ (p & ph' & E' & _)]; congruence).
  assert (Eo : objects w !! c = None) by (destruct (objects w !! c) eqn:E; [|done]; destruct (proj1 (H2 c)) as (p & ph & E' & _); [by eexists|congruence]).
  split; [|by apply life_new]. assert (Hliv : forall d, living (<[c := (None, Adopted)]> G) d <-> living G d \/ d = c).
  { intros d. destruct (decide (d = c)) as [->|Hd].
    - split; [by right|]. intros _. exists None, Adopted. by rewrite lookup_insert_eq.
    - unfold living. rewrite insert_others by done. tauto. }
  assert (Hdst : forall q, q ∈ on_the_way w -> destination q <> c).
  { intros q Hq Ed. destruct (mail_says _ _ H5 q Hq) as [(p & ph & E & _) _]. rewrite Ed in E. congruence. }
  split; cbn [objects next on_the_way].
  - intros d Hd. destruct (decide (d = c)) as [->|Hdc]; [unfold c; lia|]. rewrite insert_others in Hd by done. specialize (H1 d Hd). lia.
  - intros d. rewrite Hliv, <- H2. destruct (decide (d = c)) as [->|Hd]; [rewrite lookup_insert_eq; split; [by right|by intros _; eexists]|]. rewrite lookup_insert_ne by done. tauto.
  - intros d q ph E. rewrite Hliv. destruct (decide (d = c)) as [->|Hd]; [rewrite lookup_insert_eq in E; congruence|]. rewrite insert_others in E by done. destruct (H3 _ _ _ E). auto.
  - intros d o E. destruct (decide (d = c)) as [->|Hd].
    + rewrite lookup_insert_eq in E. injection E as <-. exists None, Adopted. rewrite lookup_insert_eq, count_none by done. split; [done|].
      split; try done; [by left| |].
      * intros y. split; [by intros ?%elem_of_empty|]. intros E. destruct (decide (y = c)) as [->|Hy]; [rewrite lookup_insert_eq in E; congruence|]. rewrite insert_others in E by done. by destruct (Hno y Adopted).
      * rewrite (awaits_other G _ c c); [by rewrite childless_awaits|intros y; apply insert_others|by rewrite Ec|intros ph; rewrite lookup_insert_eq; congruence].
    + rewrite lookup_insert_ne in E by done. apply (inv_frame None None w G _ c d o _ Hi E); try done; [intros y; apply insert_others|by rewrite Ec|intros ph; rewrite lookup_insert_eq; congruence].
  - rewrite <- (app_nil_r (on_the_way w)) at 1. rewrite <- (app_nil_r (on_the_way w)) at 1. apply (mail_change (on_the_way w) [] [] [] G _ c); rewrite ?app_nil_r; try done; rewrite ?lookup_insert_eq, ?Ec; try done.
    + intros y. apply insert_others.
    + intros r Hr Ed. by destruct (Hdst r Hr).
    + intros r Hr Hq Er. destruct (mail_says _ _ H5 r Hr) as [_ Hsr]. unfold is_term_req in Hq. destruct (type r); try done. destruct Hsr as [ph E]. rewrite Er in E. congruence.
    + by intros r ?%elem_of_nil.
Qed.

Lemma next_sent n : 0 <= n < UINT_MAX -> to_uint32 (n + 1) = n + 1.
Proof. unfold UINT_MAX. intros ?. apply to_uint32_id. unfold is_uint32, UINT_MAX. lia. Qed.

(** A command that the object counts is sent to it. *)
Lemma counted_sent w G c o q : inv None w G -> objects w !! c = Some o -> sent_seqnum o < UINT_MAX -> destination q = c -> token q = None -> counted c q = true ->
  inv None (mkWorld (<[c := with_sent (to_uint32 (sent_seqnum o + 1)) o]> (objects w)) (next w) (on_the_way w ++ [q])) G.
Proof.
  intros Hi Eo Hs Ed Et Ec. destruct (inv_object _ _ _ Hi c o Eo) as (p & ph & E & Hok). pose proof Hok as [K1 K2 K3 K4 K5 K6 K7 K8]. rewrite next_sent by lia. set (o' := with_sent _ o).
  assert (Hc1 : forall d, count d (on_the_way w ++ [q]) = (count d (on_the_way w) + if counted d q then 1 else 0)%nat) by (intros d; rewrite count_app; unfold count; cbn; by destruct (counted d q)).
  assert (Hl : living G c) by (apply (inv_living _ _ _ Hi); by exists o).
  assert (Hi' : inv (Some c) (mkWorld (<[c := o']> (objects w)) (next w) (on_the_way w ++ [q])) G).
  { apply (inv_put None w G c o o' _ Hi ltac:(auto) Eo) with (p := p) (ph := ph); [|done| |].
    - intros d Hd. rewrite Hc1, (counted_other d c) by done. lia.
    - rewrite Hc1, Ec. split; cbn; try done. lia.
    - apply mail_add; [apply Hi|done| |].
      + split; [by rewrite Ed|]. unfold token, counted in *. destruct (type q); try done; by rewrite andb_false_r in Ec.
      + unfold is_term_req, counted in *. destruct (type q); try done. by rewrite andb_false_r in Ec. }
  apply (inv_settled _ _ c o' Hi'); [apply lookup_insert_eq|intros Ht; by apply K8|]. intros (_ & Hp & _). cbn in Hp. lia.
Qed.


(** A root becomes the child of an older object. *)
Lemma launched_ok w G this x o ox : inv None w G -> objects w !! this = Some o -> objects w !! x = Some ox -> this < x -> G !! x = Some (None, Adopted) -> sent_seqnum o < UINT_MAX ->
  let o' := with_sent (to_uint32 (sent_seqnum o + 1)) o in let G' := <[x := (Some this, Launched)]> G in
  inv None (mkWorld (<[this := o']> (<[x := with_owner (Some this) ox]> (objects w))) (next w) (on_the_way w ++ [mkPacket this this (own x)])) G'.
Proof.
  intros Hi Eo Ex Hlt E Hs o' G'. pose proof Hi as [H1 H2 H3 H4 H5]. set (q := mkPacket this this (own x)).
  assert (Hl : living G this) by (apply H2; by exists o). assert (Hy : forall y, y <> x -> G' !! y = G !! y) by (intros y; apply insert_others).
  assert (Ex' : G' !! x = Some (Some this, Launched)) by apply lookup_insert_eq.
  assert (Hliv : forall d, living G' d <-> living G d).
  { intros d. destruct (decide (d = x)) as [->|Hd]; [|unfold living; by rewrite Hy]. split; intros _; [by exists None, Adopted|by exists (Some this), Launched]. }
  assert (Hc1 : forall d, count d (on_the_way w ++ [q]) = (count d (on_the_way w) + (if (this =? d)%Z then 1 else 0))%nat).
  { intros d. rewrite count_app. unfold count. cbn. unfold counted. cbn. rewrite andb_true_r. by destruct (this =? d). }
  split; cbn [objects next on_the_way].
  - intros d Hd. apply H1. destruct (decide (d = x)) as [->|Hdx]; [by rewrite E|]. by rewrite Hy in Hd.
  - intros d. rewrite Hliv, <- H2. destruct (decide (d = this)) as [->|Hd]; [rewrite lookup_insert_eq, Eo; by split; eexists|]. rewrite lookup_insert_ne by done.
    destruct (decide (d = x)) as [->|Hdx]; [rewrite lookup_insert_eq, Ex; by split; eexists|by rewrite lookup_insert_ne].
  - intros d p ph Ed. rewrite Hliv. destruct (decide (d = x)) as [->|Hdx]; [rewrite Ex' in Ed; by injection Ed as <- _|]. rewrite Hy in Ed by done. by apply (H3 d p ph).
  - intros d od Ed. rewrite Hc1. destruct (decide (d = this)) as [->|Hd]; [|rewrite lookup_insert_ne in Ed by done; rewrite (proj2 (Z.eqb_neq this d)), Nat.add_0_r by done; destruct (decide (d = x)) as [->|Hdx]].
    + rewrite lookup_insert_eq in Ed. injection Ed as <-. destruct (H4 this o Eo) as (p & ph & E' & Hok). exists p, ph. rewrite Hy by lia. split; [done|].
      pose proof Hok as [K1 K2 K3 K4 K5 K6 K7 K8]. rewrite Z.eqb_refl. unfold o'. rewrite next_sent by lia. split; cbn; try done; [lia| | |].
      * intros y. rewrite K6. destruct (decide (y = x)) as [->|Hyx]; [rewrite Ex', E; split; congruence|by rewrite Hy].
      * rewrite K7. pose proof (msum_change (awaits this) G G' x Hy) as Hsum. rewrite E, Ex', awaits_value in Hsum. cbn [awaited_phase] in Hsum. rewrite andb_false_r in Hsum. change (at_key _ _ (Some (None, Adopted))) with 0%nat in Hsum. lia.
      * intros _ Ht. destruct (K8 eq_refl Ht) as [Hown _]. split; [done|]. intros (_ & Hp & _). cbn in Hp. lia.
    + rewrite lookup_insert_eq in Ed. injection Ed as <-. exists (Some this), Launched. split; [done|]. destruct (H4 x ox Ex) as (p & ph & E' & Hok). rewrite E in E'. injection E' as <- <-.
      pose proof (object_frame _ (bool_decide (None = Some x)) _ G G' x x ox _ _ Hok ltac:(done) Hy ltac:(rewrite E; congruence) ltac:(intros ph; rewrite Ex'; intros [=]; lia)) as [K1 K2 K3 K4 K5 K6 K7 K8].
      split; cbn; try done; [split; [|done]; intros Ht; by apply K3 in Ht|split; [|done]; intros Ht; by apply K4 in Ht].
    + rewrite lookup_insert_ne in Ed by done. apply (inv_frame None None w G G' x d od _ Hi Ed); try done; [congruence|rewrite Ex'; congruence].
  - rewrite <- (app_nil_r (on_the_way w)). apply (mail_change (on_the_way w) [] [] [q] G G' x); rewrite ?app_nil_r, ?E, ?Ex'; try done.
    + intros r _ _. apply Hliv. by exists None, Adopted.
    + intros r Hr Hq Er. destruct (mail_says _ _ H5 r Hr) as [_ Hsr]. unfold is_term_req in Hq. destruct (type r); try done. destruct Hsr as [ph E']. rewrite Er in E'. congruence.
    + intros r ->%list_elem_of_singleton. split; [|done]. split; cbn; [by apply Hliv|done].
Qed.

Lemma launch_ok w G this x o ox : inv None w G -> objects w !! this = Some o -> objects w !! x = Some ox -> this < x -> owner ox = None -> terminating ox = false ->
  sent_seqnum o < UINT_MAX -> sent_seqnum ox < UINT_MAX ->
  exists w', launch_child this x w = Ok w' /\ inv None w' (<[x := (Some this, Launched)]> G) /\ life G (<[x := (Some this, Launched)]> G).
Proof.
  intros Hi Eo Ex Hlt Eow Et Hs Hsx. destruct (inv_object _ _ _ Hi x ox Ex) as (p & ph & E & Hok). assert (Ep : p = None) by (by rewrite <- (ok_owner _ _ _ _ _ _ _ Hok)). subst p.
  assert (Eph : ph = Adopted) by (destruct (ok_root _ _ _ _ _ _ _ Hok eq_refl) as [->|Hc]; [done|]; apply (ok_terminating _ _ _ _ _ _ _ Hok) in Hc; congruence). subst ph.
  assert (Hl : living G this) by (apply (inv_living _ _ _ Hi); by exists o).
  pose proof (counted_sent w G x ox (mkPacket this x plug) Hi Ex Hsx eq_refl eq_refl ltac:(unfold counted; cbn; by rewrite Z.eqb_refl)) as Hi1.
  set (ox1 := with_sent (to_uint32 (sent_seqnum ox + 1)) ox) in *. assert (Hne : this <> x) by lia.
  pose proof (launched_ok _ G this x o ox1 Hi1) as Hi2. cbn [objects next on_the_way] in Hi2. rewrite lookup_insert_ne, lookup_insert_eq in Hi2 by done.
  specialize (Hi2 Eo eq_refl Hlt E Hs). rewrite insert_insert_eq in Hi2. eexists. split; [|split; [exact Hi2|by apply life_launch]].
  unfold launch_child, set_owner, send_plug, inc_seqnum, send_own, inc_seqnum, send_command, get, put. cbn [objects next on_the_way]. rewrite Ex. cbn [obind]. rewrite Eow, bool_decide_eq_true_2 by done. cbn [assertion obind objects].
  rewrite lookup_insert_eq. cbn [obind objects next on_the_way]. rewrite insert_insert_eq, lookup_insert_ne by done. rewrite Eo. done.
Qed.

Lemma await_ok w G c o n : inv None w G -> objects w !! c = Some o -> exists w', await_events c n w = Ok w' /\ inv None w' G.
Proof.
  intros Hi Eo. destruct (inv_object _ _ _ Hi c o Eo) as (p & ph & E & Hok). pose proof Hok as [K1 K2 K3 K4 K5 K6 K7 K8].
  unfold await_events, register_term_acks, get, put. rewrite Eo. cbn [obind objects]. rewrite lookup_insert_eq. cbn [obind objects next on_the_way]. rewrite insert_insert_eq. set (o' := with_events _ _).
  eexists. split; [reflexivity|]. assert (Hi' : inv (Some c) (mkWorld (<[c := o']> (objects w)) (next w) (on_the_way w)) G).
  { apply (inv_put None w G c o o' _ Hi ltac:(auto) Eo) with (p := p) (ph := ph); [done|done| |apply Hi]. split; try done. cbn. lia. }
  apply (inv_settled _ _ c o' Hi'); [apply lookup_insert_eq|intros Ht; by apply K8|]. intros (Ht & Hp & Ha). destruct (K8 eq_refl Ht) as [_ Hnr]. apply Hnr. cbn in *. split_and!; [done|done|lia].
Qed.

Lemma request_ok w G c o p : inv None w G -> objects w !! c = Some o -> owner o = Some p -> inv None (send_term_req c p c w) G.
Proof.
  intros Hi Eo Ep. destruct (inv_object _ _ _ Hi c o Eo) as (p' & ph & E & Hok). rewrite (ok_owner _ _ _ _ _ _ _ Hok) in Ep. subst p'. destruct (inv_up _ _ _ Hi _ _ _ E) as [_ Hl].
  apply (inv_arrived w G (on_the_way w ++ [mkPacket c p (term_req c)]) Hi).
  - apply mail_add; [apply Hi|done| |]; [split; [done|by exists ph]|]. intros _. apply (inv_living _ _ _ Hi). by exists o.
  - intros d. rewrite count_app. unfold count. cbn. unfold counted. cbn. rewrite andb_false_r. cbn. lia.
Qed.
