(* ===== verification/OwnTheorems.v ===== *)
(** * Owned objects are shut down in order, and all of them

    The runs of a system of owned objects, under every order in which commands of
    different senders may arrive: nothing fails, an object goes after everything
    that it owns, and what is under an object that terminates is freed. *)

From stdpp Require Import tactics gmap list sorting relations.
From S2P Require Import Prelude Own OwnTree OwnSteps.

(** ** Legal actions *)

Definition has_room (c : Z) (w : world) : bool := match objects w !! c with Some o => sent_seqnum o <? UINT_MAX | None => false end.

Definition alive (c : Z) (w : world) : bool := match objects w !! c with Some _ => true | None => false end.

(** The commands of one sender to one object arrive in their order. *)
Definition in_order (i : nat) (w : world) : bool :=
  match on_the_way w !! i with
  | Some q => forallb (fun r => negb ((source r =? source q) && (destination r =? destination q))) (take i (on_the_way w))
  | None => false
  end.

Definition is_term (p : option packet) : bool := match p with Some q => match type q with term _ => true | _ => false end | None => false end.

(** An object is launched once, by an older one, before it terminates; fewer than
    2^32 commands are counted by an object. *)
Definition legal (a : action) (w : world) : bool :=
  match a with
  | New _ => true
  | Launch this x => has_room this w && has_room x w && (this <? x)
      && match objects w !! x with Some o => bool_decide (owner o = None) && negb (terminating o) | None => false end
  | Attach _ c _ | Bind _ c _ => has_room c w
  | Terminate c | Term_child c _ | Await c _ => alive c w
  | Event c => match objects w !! c with Some o => (0 <? events o)%nat | None => false end
  | Proceed c => match objects w !! c with Some o => pending o | None => false end
  | Deliver i => in_order i w
  | Put_off i => in_order i w && is_term (on_the_way w !! i)
  end.

(** The actions that only deal with what is already going on. *)
Definition carries_on (a : action) : bool := match a with Event _ | Proceed _ | Deliver _ | Put_off _ => true | _ => false end.

Definition kept (w : world) (G : tree) (a : action) : Prop :=
  exists w' G', act a w = Ok w' /\ inv None w' G' /\ rtc life G G'
    /\ (carries_on a = true -> rtc fades G G' /\ (work w' + size G' < work w + size G)%nat).

Lemma fades_life G G' : rtc fades G G' -> rtc life G G'.
Proof. induction 1 as [|G1 G2 G3 [H _] _ IH]; [constructor|by eapply rtc_l]. Qed.

Lemma leads_kept w G n a : leads G n (act a w) -> (n < work w)%nat -> kept w G a.
Proof.
  intros (w' & G' & E & Hi & HG & Hw) Hn. exists w', G'. split_and!; [done|done|by apply fades_life|]. intros _. split; [done|].
  destruct (fades_size _ _ HG). lia.
Qed.

Lemma pays_kept w G n a : pays G n (act a w) -> (n <= work w)%nat -> kept w G a.
Proof.
  intros (G1 & H1 & w' & G' & E & Hi & HG & Hw) Hn. assert (HG' : rtc fades G G') by by eapply rtc_l. exists w', G'. split_and!; [done|done|by apply fades_life|].
  intros _. split; [done|]. destruct H1 as [_ ?]. destruct (fades_size _ _ HG). lia.
Qed.

Lemma in_order_split i w : in_order i w = true -> exists l1 q l2, on_the_way w = l1 ++ q :: l2 /\ delete i (on_the_way w) = l1 ++ l2 /\ on_the_way w !! i = Some q
  /\ (forall r, r ∈ l1 -> source r = source q -> destination r <> destination q).
Proof.
  unfold in_order. destruct (on_the_way w !! i) as [q|] eqn:Eq; [|done]. intros Hf. exists (take i (on_the_way w)), q, (drop (S i) (on_the_way w)).
  split; [by rewrite take_drop_middle|]. split; [by rewrite delete_take_drop|]. split; [done|]. intros r Hr Es Ed. rewrite forallb_forall in Hf.
  apply list_elem_of_In in Hr. specialize (Hf r Hr). rewrite Es, Ed, !Z.eqb_refl in Hf. done.
Qed.

Lemma work_split w l1 q l2 : on_the_way w = l1 ++ q :: l2 -> work w = ((if no_token q then 1 else 0) + work (arrived w (l1 ++ l2)))%nat.
Proof. intros E. unfold work. cbn [objects on_the_way arrived]. rewrite E, loose_middle. lia. Qed.

Lemma with_pending_id o : pending o = false -> with_pending false o = o.
Proof. destruct o. cbn. by intros ->. Qed.

(** ** Every legal action keeps the tree *)

Lemma deliver_kept w G i : inv None w G -> in_order i w = true -> kept w G (Deliver i).
Proof.
  intros Hi Ho. destruct (in_order_split i w Ho) as (l1 & q & l2 & El & Edel & Eq & Hf). pose proof (work_split w l1 q l2 El) as Hw.
  pose proof (delivered_says None w G l1 q l2 Hi El) as [Hl Hs]. pose proof (inv_mail _ _ _ Hi) as Hmail. rewrite El in Hmail.
  assert (Ea : act (Deliver i) w = process_command (destination q) (type q) (arrived w (l1 ++ l2))) by (cbn; rewrite Eq; unfold arrive; by rewrite Edel).
  assert (Hcnt : counted (destination q) q = false -> forall d, count d (l1 ++ l2) = count d (on_the_way w)).
  { intros Hc d. rewrite El, count_middle. destruct (decide (d = destination q)) as [->|Hd]; [by rewrite Hc|by rewrite (counted_other d (destination q))]. }
  unfold no_token, token in Hw. destruct (type q) eqn:Et; rewrite ?Et in Hw.
  - apply (leads_kept w G (work (arrived w (l1 ++ l2)))); [|lia]. rewrite Ea. apply (counted_ok w G l1 q l2); try done; unfold token, counted; by rewrite Et, ?Z.eqb_refl.
  - apply (pays_kept w G (work (arrived w (l1 ++ l2)))); [|lia]. rewrite Ea. by apply (own_ok w G l1 q l2).
  - apply (leads_kept w G (work (arrived w (l1 ++ l2)))); [|lia]. rewrite Ea. apply (counted_ok w G l1 q l2); try done; unfold token, counted; by rewrite Et, ?Z.eqb_refl.
  - apply (leads_kept w G (work (arrived w (l1 ++ l2)))); [|lia]. rewrite Ea. apply (counted_ok w G l1 q l2); try done; unfold token, counted; by rewrite Et, ?Z.eqb_refl.
  - apply (leads_kept w G (work (arrived w (l1 ++ l2)))); [|lia]. rewrite Ea. apply term_req_ok; try done; [apply (mail_drop l1 q l2 G Hmail); unfold token; by rewrite Et|].
    apply Hcnt. unfold counted. by rewrite Et, andb_false_r.
  - apply (pays_kept w G (work (arrived w (l1 ++ l2)))); [|lia]. rewrite Ea. cbn [process_command]. destruct Hs as [p E]. destruct (living_object _ _ _ _ Hi Hl) as [o Eo].
    destruct (inv_object _ _ _ Hi _ o Eo) as (p' & ph & E' & Hok). rewrite E in E'. injection E' as <- <-.
    assert (Ep : pending o = false) by (destruct (pending o) eqn:Ep; [|done]; by apply (ok_pending _ _ _ _ _ _ _ Hok) in Ep).
    replace (arrived w (l1 ++ l2)) with (put (destination q) (with_pending false o) (arrived w (l1 ++ l2))) at 2 by (rewrite with_pending_id by done; unfold put, arrived; cbn; by rewrite insert_id).
    apply (process_term_ok w G (l1 ++ l2) (destination q) o linger (Some p) Told Hi Eo E I); [|apply Hcnt; unfold counted; by rewrite Et, andb_false_r].
    apply (mail_self l1 [q] l2 G _ (Some p) Told); try done. rewrite E. unfold tokens. cbn. unfold token. by rewrite Et.
  - apply (pays_kept w G (work (arrived w (l1 ++ l2)))); [|lia]. rewrite Ea. by apply (ack_ok w G l1 q l2).
Qed.

Lemma room_object c w : has_room c w = true -> exists o, objects w !! c = Some o /\ sent_seqnum o < UINT_MAX.
Proof. unfold has_room. destruct (objects w !! c) as [o|]; [|done]. intros ?%Z.ltb_lt. by exists o. Qed.

Lemma alive_object c w : alive c w = true -> exists o, objects w !! c = Some o.
Proof. unfold alive. destruct (objects w !! c) as [o|]; [|done]. by exists o. Qed.

Lemma proceed_kept w G c : inv None w G -> legal (Proceed c) w = true -> kept w G (Proceed c).
Proof.
  intros Hi. cbn [legal]. destruct (objects w !! c) as [o|] eqn:Eo; [|done]. intros Hp. destruct (inv_object _ _ _ Hi c o Eo) as (p & ph & E & Hok).
  assert (Eph : ph = Waiting) by (by apply (ok_pending _ _ _ _ _ _ _ Hok)). subst ph. destruct p as [p|]; [|by destruct (ok_root _ _ _ _ _ _ _ Hok eq_refl)].
  apply (pays_kept w G (work (arrived w (on_the_way w)))); [|by destruct w]. cbn [act]. unfold proceed_with_term, get. rewrite Eo. cbn [obind].
  replace w with (arrived w (on_the_way w)) at 2 by (by destruct w). apply (process_term_ok w G (on_the_way w) c o 0 (Some p) Waiting Hi Eo E I); [|done].
  pose proof (inv_mail _ _ _ Hi) as Hmail. rewrite <- (app_nil_r (on_the_way w)) in Hmail |- *. apply (mail_self (on_the_way w) [] [] G c (Some p) Waiting); try done. by rewrite E.
Qed.

Lemma terminate_kept w G c : inv None w G -> alive c w = true -> kept w G (Terminate c).
Proof.
  intros Hi Ha. destruct (alive_object c w Ha) as [o Eo]. destruct (inv_object _ _ _ Hi c o Eo) as (p & ph & E & Hok). unfold kept. cbn [act]. unfold terminate, get. rewrite Eo. cbn [obind].
  destruct (terminating o) eqn:Et; [by exists w, G|]. destruct (owner o) as [q|] eqn:Eow; [exists (send_term_req c q c w), G; split_and!; [done|by apply (request_ok w G c o)|constructor|done]|].
  rewrite (ok_owner _ _ _ _ _ _ _ Hok) in Eow. subst p. assert (Eph : ph = Adopted) by (destruct (ok_root _ _ _ _ _ _ _ Hok eq_refl) as [->|Hc]; [done|]; apply (ok_terminating _ _ _ _ _ _ _ Hok) in Hc; congruence). subst ph.
  assert (Ep : pending o = false) by (destruct (pending o) eqn:Ep; [|done]; by apply (ok_pending _ _ _ _ _ _ _ Hok) in Ep).
  pose proof (inv_mail _ _ _ Hi) as Hmail. assert (Hmail' : mail_ok (on_the_way w) (<[c := (None, Closing)]> G)).
  { rewrite <- (app_nil_r (on_the_way w)) in Hmail |- *. apply (mail_self (on_the_way w) [] [] G c None Adopted); try done. by rewrite E. }
  destruct (process_term_ok w G (on_the_way w) c o (linger o) None Adopted Hi Eo E I Hmail' ltac:(done)) as (G1 & H1 & w' & G' & E' & Hi' & HG & Hw).
  rewrite with_pending_id in E' by done. replace (put c o (arrived w (on_the_way w))) with w in E' by (destruct w; unfold put, arrived; cbn in *; by rewrite insert_id).
  exists w', G'. split_and!; [done|done| |done]. apply fades_life. by eapply rtc_l.
Qed.

Lemma act_kept w G a : inv None w G -> legal a w = true -> kept w G a.
Proof.
  intros Hi Ha. assert (Hquiet : forall w', act a w = Ok w' -> inv None w' G -> carries_on a = false -> kept w G a).
  { intros w' E Hi' Hc. exists w', G. split_and!; [done|done|constructor|congruence]. }
  destruct a; cbn [legal] in Ha.
  - destruct (new_ok w G linger_ Hi) as [Hi' Hl]. eexists _, _. split; [reflexivity|]. split; [exact Hi'|]. split; [by apply rtc_once|done].
  - rewrite !andb_true_iff in Ha. destruct Ha as [[[H1 H2] H3] H4]. apply room_object in H1 as (o & Eo & Hs). apply room_object in H2 as (ox & Ex & Hsx). rewrite Ex in H4.
    apply andb_prop in H4 as [H4 H5]. apply bool_decide_eq_true in H4. apply negb_true_iff in H5. apply Z.ltb_lt in H3.
    destruct (launch_ok w G this object_ o ox Hi Eo Ex H3 H4 H5 Hs Hsx) as (w' & E & Hi' & Hl). exists w', (<[object_ := (Some this, Launched)]> G). split_and!; [done|done|by apply rtc_once|done].
  - apply room_object in Ha as (o & Eo & Hs). eapply Hquiet; [cbn [act]; unfold send_attach, inc_seqnum, get; rewrite Eo; reflexivity| |done].
    by apply (counted_sent w G session o (mkPacket this session (attach engine))); unfold counted; cbn; rewrite ?Z.eqb_refl.
  - apply room_object in Ha as (o & Eo & Hs). eapply Hquiet; [cbn [act]; unfold send_bind, inc_seqnum, get; rewrite Eo; reflexivity| |done].
    by apply (counted_sent w G socket o (mkPacket this socket (bind pipe))); unfold counted; cbn; rewrite ?Z.eqb_refl.
  - by apply terminate_kept.
  - apply alive_object in Ha as [o Eo]. assert (Hl : living G this) by (apply (inv_living _ _ _ Hi); by exists o).
    destruct (term_req_ok w G (on_the_way w) this object_ Hi Hl (inv_mail _ _ _ Hi) ltac:(done)) as (w' & G' & E & Hi' & HG & _).
    replace (arrived w (on_the_way w)) with w in E by (by destruct w). exists w', G'. split_and!; [done|done|by apply fades_life|done].
  - apply alive_object in Ha as [o Eo]. destruct (await_ok w G this o n Hi Eo) as (w' & E & Hi'). by apply (Hquiet w').
  - destruct (objects w !! this) as [o|] eqn:Eo; [|done]. apply Nat.ltb_lt in Ha. apply (leads_kept w G (work w - 1)); [by apply (event_ok w G this o)|].
    unfold work. pose proof (msum_at events_at (objects w) this o Eo) as Hev. change (events_at this o) with (events o) in Hev. lia.
  - by apply proceed_kept.
  - by apply deliver_kept.
  - apply andb_prop in Ha as [Ho Ht]. destruct (in_order_split i w Ho) as (l1 & q & l2 & El & Edel & Eq & _). rewrite Eq in Ht. cbn in Ht. destruct (type q) eqn:Et; try done.
    apply (pays_kept w G (work (arrived w (l1 ++ l2)))); [|by rewrite (work_split w l1 q l2 El); lia].
    assert (Ea : act (Put_off i) w = put_off_term (destination q) (arrived w (l1 ++ l2))) by (cbn; rewrite Eq; unfold arrive; by rewrite Edel). rewrite Ea.
    by apply (put_off_ok w G l1 q l2 (destination q) linger).
Qed.

(** ** Runs *)

(** Every action is legal when it is its turn. *)
Fixpoint legal_run (l : list action) (w : world) : Prop :=
  match l with [] => True | a :: l' => legal a w = true /\ forall w', act a w = Ok w' -> legal_run l' w' end.

Lemma acts_kept l : forall w G, inv None w G -> legal_run l w -> exists w' G', acts l w = Ok w' /\ inv None w' G' /\ rtc life G G'.
Proof.
  induction l as [|a l IH]; intros w G Hi Hl; [by exists w, G|]. destruct Hl as [Ha Hl]. destruct (act_kept w G a Hi Ha) as (w1 & G1 & E1 & Hi1 & HG1 & _).
  destruct (IH w1 G1 Hi1 (Hl w1 E1)) as (w' & G' & E & Hi' & HG). exists w', G'. cbn [acts]. rewrite E1. split_and!; [done|done|by etrans].
Qed.

(** An object goes on with what is already going on. *)
Definition delivers (w w' : world) : Prop := exists a, carries_on a = true /\ legal a w = true /\ act a w = Ok w'.

Lemma delivers_kept w G w' : inv None w G -> delivers w w' -> exists G', inv None w' G' /\ rtc fades G G' /\ (work w' + size G' < work w + size G)%nat.
Proof.
  intros Hi (a & Hc & Hl & E). destruct (act_kept w G a Hi Hl) as (w1 & G1 & E1 & Hi1 & _ & Hm). destruct (Hm Hc) as [Hf Hs].
  rewrite E in E1. injection E1 as <-. by exists G1.
Qed.

Lemma delivers_ends w G : inv None w G -> sn delivers w.
Proof.
  remember (work w + size G)%nat as n eqn:En. revert w G En. induction (lt_wf n) as [n _ IH]. intros w G -> Hi. constructor. intros w' Hd.
  destruct (delivers_kept w G w' Hi Hd) as (G' & Hi' & _ & Hlt). by apply (IH _ Hlt w' G').
Qed.

Lemma delivers_star w G w' : inv None w G -> rtc delivers w w' -> exists G', inv None w' G' /\ rtc fades G G'.
Proof.
  intros Hi Hr. revert G Hi. induction Hr as [w|w1 w2 w3 Hd _ IH]; intros G Hi; [by exists G|].
  destruct (delivers_kept w1 G w2 Hi Hd) as (G2 & Hi2 & HG & _). destruct (IH G2 Hi2) as (G3 & Hi3 & HG3). exists G3. split; [done|by etrans].
Qed.

(** What fades keeps its owner and does not go back. *)
Definition ended (ph : phase) : Prop := ph = Closing \/ ph = Acking.

Lemma fades_once_back G G' c p ph' : fades G G' -> G' !! c = Some (p, ph') -> exists ph, G !! c = Some (p, ph) /\ (ended ph -> ended ph').
Proof.
  intros [Hl Hs] E. destruct Hl as [G d Ed|G q d Hlq Hlt Ed|G q d ph1 ph3 Ed Hf|G q d Ed Hcl|G d Ed Hcl|G q d Ed].
  - pose proof (size_insert G d (None, Adopted)) as Hsz. rewrite Ed in Hsz. cbn [at_key snd rank] in Hsz. lia.
  - pose proof (size_insert G d (Some q, Launched)) as Hsz. rewrite Ed in Hsz. change (at_key _ _ (Some (None, Adopted))) with 5%nat in Hsz. cbn [snd rank] in Hsz. lia.
  - destruct (decide (c = d)) as [->|Hcd]; [|rewrite lookup_insert_ne in E by done; eauto]. rewrite lookup_insert_eq in E. injection E as -> ->.
    exists ph1. split; [done|]. intros [->| ->]; by destruct p.
  - destruct (decide (c = d)) as [->|Hcd]; [|rewrite lookup_insert_ne in E by done; eauto]. rewrite lookup_insert_eq in E. injection E as <- <-.
    exists Closing. split; [done|]. intros _. by right.
  - rewrite lookup_delete_ne in E by (intros ->; by rewrite lookup_delete_eq in E). eauto.
  - rewrite lookup_delete_ne in E by (intros ->; by rewrite lookup_delete_eq in E). eauto.
Qed.

Lemma fades_back G G' c p ph' : rtc fades G G' -> G' !! c = Some (p, ph') -> exists ph, G !! c = Some (p, ph) /\ (ended ph -> ended ph').
Proof.
  intros HG. revert ph'. induction HG as [G|G1 G2 G3 Hf _ IH]; intros ph' E; [by exists ph'|].
  destruct (IH ph' E) as (ph2 & E2 & H2). destruct (fades_once_back G1 G2 c p ph2 Hf E2) as (ph1 & E1 & H1). exists ph1. auto.
Qed.

(** ** Where nothing goes on, nothing terminates *)

Lemma nothing_on_the_way w : nf delivers w -> (forall G, inv None w G -> on_the_way w = []).
Proof.
  intros Hnf G Hi. destruct (on_the_way w) as [|q l] eqn:El; [done|]. exfalso. assert (Hl : legal (Deliver 0) w = true) by (cbn; unfold in_order; by rewrite El).
  destruct (act_kept w G (Deliver 0) Hi Hl) as (w' & G' & E & _). apply Hnf. exists w'. by exists (Deliver 0).
Qed.

Lemma nothing_pending w G c o : nf delivers w -> inv None w G -> objects w !! c = Some o -> pending o = false /\ events o = 0%nat.
Proof.
  intros Hnf Hi Eo. split.
  - destruct (pending o) eqn:Ep; [|done]. exfalso. assert (Hl : legal (Proceed c) w = true) by (cbn; by rewrite Eo).
    destruct (act_kept w G (Proceed c) Hi Hl) as (w' & G' & E & _). apply Hnf. exists w'. by exists (Proceed c).
  - destruct (events o) as [|n] eqn:En; [done|]. exfalso. assert (Hl : legal (Event c) w = true) by (cbn; by rewrite Eo, En).
    destruct (act_kept w G (Event c) Hi Hl) as (w' & G' & E & _). apply Hnf. exists w'. by exists (Event c).
Qed.

(** An object that someone waits for. *)
Lemma awaited_child (G : tree) c : (0 < msum (awaits c) G)%nat -> exists x ph, G !! x = Some (Some c, ph) /\ awaited_phase ph = true.
Proof.
  unfold msum. apply (map_fold_weak_ind (fun n (m : tree) => (0 < n)%nat -> exists x ph, m !! x = Some (Some c, ph) /\ awaited_phase ph = true)); [lia|].
  intros d [p ph] m n Hd IH Hn. rewrite awaits_at in Hn. cbn [fst snd] in Hn. destruct (bool_decide_reflect (p = Some c)) as [->|Hp]; cbn [andb] in Hn.
  - destruct (awaited_phase ph) eqn:Ea; [exists d, ph; by rewrite lookup_insert_eq|]. destruct (IH Hn) as (x & ph' & E & Hx). exists x, ph'. split; [|done]. rewrite lookup_insert_ne; [done|congruence].
  - destruct (IH Hn) as (x & ph' & E & Hx). exists x, ph'. split; [|done]. rewrite lookup_insert_ne; [done|congruence].
Qed.

Lemma none_terminates w G : nf delivers w -> inv None w G -> forall c o, objects w !! c = Some o -> terminating o = false.
Proof.
  intros Hnf Hi. pose proof (nothing_on_the_way w Hnf G Hi) as El. pose proof (inv_mail _ _ _ Hi) as Hmail. rewrite El in Hmail.
  assert (Hk : forall k c o, (Z.to_nat (next w - c) <= k)%nat -> objects w !! c = Some o -> terminating o = false); [|intros c o; by apply (Hk (Z.to_nat (next w - c)))].
  induction k as [|k IH]; intros c o Hk Eo; destruct (inv_object _ _ _ Hi c o Eo) as (p & ph & E & Hok); assert (Hlt : c < next w) by (apply (inv_next _ _ _ Hi); by rewrite E); [lia|].
  destruct (terminating o) eqn:Et; [|done]. exfalso. pose proof Hok as [K1 K2 K3 K4 K5 K6 K7 K8]. destruct (K8 eq_refl Et) as [_ Hnr]. rewrite El in K5. change (count c []) with 0%nat in K5.
  destruct (nothing_pending w G c o Hnf Hi Eo) as [_ Hev]. destruct (awaited_child G c) as (x & ph' & Ex & Ha).
  { destruct (Nat.eq_dec (msum (awaits c) G) 0%nat) as [Hz|?]; [|lia]. exfalso. apply Hnr. unfold ready. split; [done|]. lia. }
  destruct (inv_up _ _ _ Hi _ _ _ Ex) as [Hcx _]. assert (Hno : has_token ph' = false).
  { destruct (has_token ph') eqn:Eht; [|done]. assert (Hx : x ∈ tokens []) by (apply (mail_tokens _ _ Hmail); by exists (Some c), ph'). by apply elem_of_nil in Hx. }
  assert (Hl : living G x) by (exists (Some c), ph'; split; [done|]; by intros ->). destruct (living_object _ _ _ _ Hi Hl) as [ox Eox].
  destruct (inv_object _ _ _ Hi x ox Eox) as (px & phx & E' & Hokx). rewrite Ex in E'. injection E' as <- <-. destruct (nothing_pending w G x ox Hnf Hi Eox) as [Hpx _].
  assert (Hxn : x < next w) by (apply (inv_next _ _ _ Hi); by rewrite Ex).
  assert (Htx : terminating ox = false) by (apply (IH x); [lia|done]). destruct ph'; try done.
  - rewrite (proj2 (ok_pending _ _ _ _ _ _ _ Hokx) eq_refl) in Hpx. done.
  - rewrite (proj2 (ok_terminating _ _ _ _ _ _ _ Hokx) eq_refl) in Htx. done.
Qed.

(** The object [r] and what it owns, and what that owns. *)
Inductive under (w : world) (r : Z) : Z -> Prop :=
| under_self : under w r r
| under_child p c o : under w r p -> objects w !! c = Some o -> owner o = Some p -> under w r c.

Lemma under_gone w G w' r o : inv None w G -> rtc delivers w w' -> nf delivers w' -> objects w !! r = Some o -> terminating o = true ->
  forall c, under w r c -> objects w' !! c = None.
Proof.
  intros Hi Hr Hnf Eo Et. destruct (delivers_star w G w' Hi Hr) as (G' & Hi' & HG). induction 1 as [|p c oc Hu IH Eoc Eow].
  - destruct (objects w' !! r) as [o'|] eqn:Eo'; [|done]. exfalso. destruct (inv_object _ _ _ Hi' r o' Eo') as (p & ph' & E' & Hok').
    destruct (fades_back G G' r p ph' HG E') as (ph & E & He). destruct (inv_object _ _ _ Hi r o Eo) as (p2 & ph2 & E2 & Hok). rewrite E in E2. injection E2 as <- <-.
    apply (ok_terminating _ _ _ _ _ _ _ Hok) in Et as ->. destruct (He ltac:(by left)) as [->| ->].
    + pose proof (none_terminates w' G' Hnf Hi' r o' Eo') as Ht. rewrite (proj2 (ok_terminating _ _ _ _ _ _ _ Hok') eq_refl) in Ht. done.
    + assert (Hl : living G' r) by (apply (inv_living _ _ _ Hi'); by exists o'). destruct Hl as (? & ? & E3 & H3). congruence.
  - destruct (objects w' !! c) as [o'|] eqn:Eo'; [|done]. exfalso. destruct (inv_object _ _ _ Hi' c o' Eo') as (p2 & ph' & E' & _).
    destruct (fades_back G G' c p2 ph' HG E') as (ph & E & _). destruct (inv_object _ _ _ Hi c oc Eoc) as (p3 & ph3 & E3 & Hok). rewrite E in E3. injection E3 as <- <-.
    rewrite (ok_owner _ _ _ _ _ _ _ Hok) in Eow. subst p2. destruct (inv_up _ _ _ Hi' _ _ _ E') as [_ Hl]. apply (inv_living _ _ _ Hi') in Hl. rewrite IH in Hl. by destruct Hl.
Qed.

(** ** The properties *)

(** What the objects show of the abstract tree. *)
Definition shows (w : world) (G : tree) : Prop :=
  (forall c, is_Some (objects w !! c) <-> living G c)
  /\ forall c o, objects w !! c = Some o -> exists ph, G !! c = Some (owner o, ph) /\ (terminating o = true <-> ph = Closing) /\ (pending o = true <-> ph = Waiting)
      /\ (forall x, x ∈ owned o <-> G !! x = Some (Some c, Adopted)).

(** C4: owned objects live as the abstract tree does.  For every legal sequence
    of calls and deliveries no assertion fails and no command is processed by an
    object that is gone; what is on its way goes to living objects, and the
    objects show a tree that steps of [life] lead to, in which an object goes only
    when nothing is left under it. *)
Theorem own_refines_life l : legal_run l no_objects ->
  exists w G, acts l no_objects = Ok w /\ rtc life ∅ G /\ shows w G /\ (forall q, q ∈ on_the_way w -> is_Some (objects w !! destination q)).
Proof.
  intros Hl. destruct (acts_kept l no_objects ∅ inv_empty Hl) as (w & G & E & Hi & HG). exists w, G. split; [done|]. split; [done|]. split; [split; [apply Hi|]|].
  - intros c o Eo. destruct (inv_object _ _ _ Hi c o Eo) as (p & ph & Ec & [K1 K2 K3 K4 K5 K6 K7 K8]). exists ph. by rewrite K1.
  - intros q Hq. apply (inv_living _ _ _ Hi). by destruct (mail_says _ _ (inv_mail _ _ _ Hi) q Hq).
Qed.

(** C3: what is under an object that terminates is freed.  From every reachable
    state, when the objects only go on with what is already going on, every
    schedule ends, and where it ends the object and everything under it are
    gone, and no other object is terminating. *)
Theorem own_tree_is_freed l w : legal_run l no_objects -> acts l no_objects = Ok w ->
  sn delivers w /\ forall w', rtc delivers w w' -> nf delivers w' ->
    (forall r o, objects w !! r = Some o -> terminating o = true -> forall c, under w r c -> objects w' !! c = None)
    /\ on_the_way w' = [] /\ forall c o, objects w' !! c = Some o -> terminating o = false.
Proof.
  intros Hl E. destruct (acts_kept l no_objects ∅ inv_empty Hl) as (w1 & G & E1 & Hi & _). rewrite E in E1. injection E1 as <-. split; [by apply (delivers_ends w G)|].
  intros w' Hr Hnf. destruct (delivers_star w G w' Hi Hr) as (G' & Hi' & _). split_and!.
  - intros r o Eo Et. by apply (under_gone w G w' r o).
  - by apply (nothing_on_the_way w' Hnf G').
  - by apply (none_terminates w' G').
Qed.
