(* ===== verification/Mailbox.v ===== *)
(** * Mailboxes ([lib/zeromq/mailbox.cpp], [signaler.cpp])

    A [mailbox_t] takes commands from any number of threads and gives them to one.
    The commands wait in a [ypipe_t], which is the [channel] that it was shown to
    be; [sync] makes its writers one after the other; the signaler wakes the
    reader, by a counter of the kernel ([eventfd]) or by bytes in a socket pair.

    Every thread has a place in [send] or in [recv] and moves one access to shared
    memory or one system call at a time.  The kernel is what the guards of
    [enabled] say: a mutex is taken when it is free, [poll] says that the
    descriptor is readable when it is, lets the time run out only when it is not,
    and fails only when it is interrupted. *)

From stdpp Require Import tactics list.
From S2P Require Import Prelude Ypipe.

Section Mailbox.
Context {T : Type}.

(** [ZMQ_HAVE_EVENTFD], and how many bytes the socket pair takes otherwise. *)
Variables (eventfd : bool) (room : Z).

(** ** The signaler

    What [r] has to read: the value of the counter, or the bytes on their way. *)

Definition signaler_t := Z.

Definition new_signaler : signaler_t := 0.

(** The largest value of an eventfd object. *)
Definition eventfd_max : Z := 2 ^ 64 - 2.

(** One turn of the loop, and whether there is another one; only the socket is
    interrupted. *)
Definition signaler_send (interrupted : bool) (s : signaler_t) : outcome (bool * signaler_t) :=
  if eventfd then
    let! _ := assertion (s + 1 <=? eventfd_max) "sz == sizeof (inc)" in
    Ok (false, s + 1)
  else if interrupted then Ok (true, s)
  else
    let! _ := assertion (s <? room) "nbytes == sizeof (dummy)" in
    Ok (false, s + 1).

(** The answer says that a second signal was read, which is to be put back. *)
Definition signaler_recv (s : signaler_t) : outcome (bool * signaler_t) :=
  let! _ := assertion (0 <? s) "errno" in
  if eventfd then
    if s =? 2 then Ok (true, 0)
    else let! _ := assertion (s =? 1) "dummy == 1" in Ok (false, 0)
  else Ok (false, s - 1).

Definition put_back (s : signaler_t) : outcome signaler_t :=
  let! _ := assertion (s + 1 <=? eventfd_max) "sz == sizeof (inc)" in
  Ok (s + 1).

Inductive errno_t := EINTR | EAGAIN | EOTHER.

#[local] Instance errno_t_eq_dec : EqDecision errno_t.
Proof. solve_decision. Defined.

(** What [poll] returns. *)
Inductive poll_answer := PollReady | PollTimeout | PollError (errno : errno_t).

(** [rc] and [errno]. *)
Definition signaler_wait (answer : poll_answer) : outcome (Z * errno_t) :=
  match answer with
  | PollError errno => let! _ := assertion (bool_decide (errno = EINTR)) "errno == EINTR" in Ok (-1, EINTR)
  | PollTimeout => Ok (-1, EAGAIN)
  | PollReady => Ok (0, EOTHER)
  end.

Definition poll_may (s : signaler_t) (timeout_ : Z) (answer : poll_answer) : bool :=
  match answer with
  | PollReady => 0 <? s
  | PollTimeout => (s =? 0) && (0 <=? timeout_)
  | PollError errno => bool_decide (errno = EINTR)
  end.

(** ** The mailbox *)

Record mailbox_t := mkMailbox { cpipe : channel T; signaler : signaler_t; sync : option nat; active : bool }.

(** A call of the pipe.  Its writer does nothing else between the two steps of a
    [flush]. *)
Definition on_pipe (a : action T) (m : mailbox_t) : outcome (result T * mailbox_t) :=
  let! _ := assertion (allowed (awaking (cpipe m)) a) "one writer" in
  let (x, c) := promised a (cpipe m) in
  Ok (x, mkMailbox c (signaler m) (sync m) (active m)).

Definition set_signaler (s : signaler_t) (m : mailbox_t) : mailbox_t := mkMailbox (cpipe m) s (sync m) (active m).
Definition set_sync (o : option nat) (m : mailbox_t) : mailbox_t := mkMailbox (cpipe m) (signaler m) o (active m).
Definition set_active (b : bool) (m : mailbox_t) : mailbox_t := mkMailbox (cpipe m) (signaler m) (sync m) b.

Definition new_mailbox : outcome mailbox_t :=
  let! (x, m) := on_pipe Read (mkMailbox new_channel new_signaler None false) in
  let! _ := assertion (match x with NoItem => true | _ => false end) "!ok" in
  Ok (set_active false m).

(** What a step shows to its caller. *)
Inductive event := Silent | Posted (cmd_ : T) | Received (cmd_ : T) | Failed (errno : errno_t).

(** ** [send] *)

Inductive sender := Outside | AtLock (cmd_ : T) | AtWrite (cmd_ : T) | AtFlush | AtWake | AtUnlock (ok : bool) | AtSignal.

Definition send_step (self : nat) (interrupted : bool) (p : sender) (m : mailbox_t) : outcome (event * sender * mailbox_t) :=
  match p with
  | Outside => Ok (Silent, Outside, m)
  | AtLock cmd_ => Ok (Silent, AtWrite cmd_, set_sync (Some self) m)
  | AtWrite cmd_ => let! (_, m) := on_pipe (Write cmd_ false) m in Ok (Posted cmd_, AtFlush, m)
  | AtFlush =>
      let! (x, m) := on_pipe FlushTry m in
      Ok (Silent, match x with Said ok => AtUnlock ok | _ => AtWake end, m)
  | AtWake =>
      let! (x, m) := on_pipe FlushWake m in
      Ok (Silent, match x with Said ok => AtUnlock ok | _ => AtWake end, m)
  | AtUnlock ok => Ok (Silent, if ok then Outside else AtSignal, set_sync None m)
  | AtSignal =>
      let! (again, s) := signaler_send interrupted (signaler m) in
      Ok (Silent, if again then AtSignal else Outside, set_signaler s m)
  end.

(** ** [recv] *)

Inductive receiver := Away | Reading (timeout_ : Z) | Draining (timeout_ : Z) | PuttingBack (timeout_ : Z) | Waiting (timeout_ : Z) | Getting.

Definition recv_start (timeout_ : Z) (m : mailbox_t) : receiver := if active m then Reading timeout_ else Waiting timeout_.

Definition recv_step (answer : poll_answer) (p : receiver) (m : mailbox_t) : outcome (event * receiver * mailbox_t) :=
  match p with
  | Away => Ok (Silent, Away, m)
  | Reading timeout_ =>
      let! (x, m) := on_pipe Read m in
      match x with
      | Item (Some cmd_) => Ok (Received cmd_, Away, m)
      | _ => Ok (Silent, Draining timeout_, set_active false m)
      end
  | Draining timeout_ =>
      let! (second, s) := signaler_recv (signaler m) in
      Ok (Silent, if second then PuttingBack timeout_ else Waiting timeout_, set_signaler s m)
  | PuttingBack timeout_ =>
      let! s := put_back (signaler m) in
      Ok (Silent, Waiting timeout_, set_signaler s m)
  | Waiting timeout_ =>
      let! (rc, errno) := signaler_wait answer in
      if negb (rc =? 0) && (bool_decide (errno = EAGAIN) || bool_decide (errno = EINTR)) then Ok (Failed errno, Away, m)
      else
        let m := set_active true m in
        let! _ := assertion (rc =? 0) "rc == 0" in
        Ok (Silent, Getting, m)
  | Getting =>
      let! (x, m) := on_pipe Read m in
      match x with
      | Item (Some cmd_) => Ok (Received cmd_, Away, m)
      | _ => Aborted "ok"
      end
  end.

(** ** The threads *)

Record system := mkSystem { mailbox : mailbox_t; senders : list sender; reader : receiver }.

Definition new_system (n : nat) : outcome system :=
  let! m := new_mailbox in
  Ok (mkSystem m (replicate n Outside) Away).

Inductive move := CallSend (i : nat) (cmd_ : T) | Sends (i : nat) (interrupted : bool) | CallRecv (timeout_ : Z) | Receives (answer : poll_answer).

Definition enabled (a : move) (s : system) : bool :=
  match a with
  | CallSend i _ => match senders s !! i with Some Outside => true | _ => false end
  | Sends i _ =>
      match senders s !! i with
      | Some Outside | None => false
      | Some (AtLock _) => bool_decide (sync (mailbox s) = None)
      | Some _ => true
      end
  | CallRecv _ => match reader s with Away => true | _ => false end
  | Receives answer =>
      match reader s with
      | Away => false
      | Waiting timeout_ => poll_may (signaler (mailbox s)) timeout_ answer
      | _ => true
      end
  end.

Definition act (a : move) (s : system) : outcome (event * system) :=
  match a with
  | CallSend i cmd_ => Ok (Silent, mkSystem (mailbox s) (<[i := AtLock cmd_]> (senders s)) (reader s))
  | Sends i interrupted =>
      let! (e, p, m) := send_step i interrupted (default Outside (senders s !! i)) (mailbox s) in
      Ok (e, mkSystem m (<[i := p]> (senders s)) (reader s))
  | CallRecv timeout_ => Ok (Silent, mkSystem (mailbox s) (senders s) (recv_start timeout_ (mailbox s)))
  | Receives answer =>
      let! (e, p, m) := recv_step answer (reader s) (mailbox s) in
      Ok (e, mkSystem m (senders s) p)
  end.

(** The runs of the threads, with what their steps showed. *)
Inductive run : system -> list event -> system -> Prop :=
| run_nil s : run s [] s
| run_cons s a e s' trace s'' : enabled a s = true -> act a s = Ok (e, s') -> run s' trace s'' -> run s (e :: trace) s''.

(** A run by a list of moves. *)
Fixpoint exec (moves : list move) (s : system) : outcome (list event * system) :=
  match moves with
  | [] => Ok ([], s)
  | a :: moves =>
      let! _ := assertion (enabled a s) "enabled" in
      let! (e, s) := act a s in
      let! (es, s) := exec moves s in
      Ok (e :: es, s)
  end.

(** ** A queue

    What the threads should see: every command once, in the order in which they
    were posted. *)

Inductive queue_run : list T -> list event -> list T -> Prop :=
| queue_nil q : queue_run q [] q
| queue_silent q trace q' : queue_run q trace q' -> queue_run q (Silent :: trace) q'
| queue_posted q c trace q' : queue_run (q ++ [c]) trace q' -> queue_run q (Posted c :: trace) q'
| queue_received q c trace q' : queue_run q trace q' -> queue_run (c :: q) (Received c :: trace) q'
| queue_failed q errno trace q' : errno = EAGAIN \/ errno = EINTR -> queue_run q trace q' -> queue_run q (Failed errno :: trace) q'.

(** What was posted and not yet received. *)
Definition unread (s : system) : list T :=
  let c := cpipe (mailbox s) in fetched c ++ flushed c ++ complete c ++ incomplete c.

(** ** The receiver on its own

    [poll] when no other thread runs; nothing when it blocks. *)
Definition poll_alone (s : signaler_t) (timeout_ : Z) : option poll_answer :=
  if 0 <? s then Some PollReady else if 0 <=? timeout_ then Some PollTimeout else None.

(** A step that does not wait needs no answer. *)
Definition answer_alone (s : system) : option poll_answer :=
  match reader s with Waiting timeout_ => poll_alone (signaler (mailbox s)) timeout_ | _ => Some PollReady end.

(** [recv] up to its end, or up to where it blocks. *)
Fixpoint finish (fuel : nat) (s : system) : outcome (option event * system) :=
  match fuel with
  | O => Ok (None, s)
  | S fuel =>
      match answer_alone s with
      | None => Ok (None, s)
      | Some answer =>
          let! (e, s) := act (Receives answer) s in
          match e with Silent => finish fuel s | _ => Ok (Some e, s) end
      end
  end.

(** A call that is going on goes on; otherwise there is a new one. *)
Definition recv (timeout_ : Z) (s : system) : outcome (option event * system) :=
  finish 5 (match reader s with Away => mkSystem (mailbox s) (senders s) (recv_start timeout_ (mailbox s)) | _ => s end).

(** Calls of [recv] one after the other. *)
Fixpoint recvs (timeouts : list Z) (s : system) : outcome (list (option event) * system) :=
  match timeouts with
  | [] => Ok ([], s)
  | t :: ts =>
      let! (e, s) := recv t s in
      let! (es, s) := recvs ts s in
      Ok (e :: es, s)
  end.

(** The timeout of the call that is going on, or of a new one. *)
Definition timeout_of (timeout_ : Z) (s : system) : Z :=
  match reader s with Reading t | Draining t | PuttingBack t | Waiting t => t | Away | Getting => timeout_ end.

(** ** The invariant

    Signals are sent, or owed by a sender, as often as the reader must still be
    woken or has still to take one. *)

Definition owed (p : sender) : Z := match p with AtUnlock false | AtSignal => 1 | _ => 0 end.

Fixpoint owed_all (l : list sender) : Z := match l with [] => 0 | p :: l => owed p + owed_all l end.

Definition held (p : receiver) : Z := match p with PuttingBack _ => 1 | _ => 0 end.
Definition due (p : receiver) : Z := match p with Draining _ => 1 | _ => 0 end.
Definition awake (c : channel T) : Z := if asleep c then 0 else 1.

Definition in_section (p : sender) : bool :=
  match p with AtWrite _ | AtFlush | AtWake | AtUnlock _ => true | Outside | AtLock _ | AtSignal => false end.

(** The pipe while a sender is at its place. *)
Definition section_ok (p : sender) (c : channel T) : Prop :=
  match p with
  | AtWrite _ | AtUnlock _ => complete c = [] /\ awaking c = false
  | AtFlush => complete c <> [] /\ awaking c = false
  | AtWake => complete c <> [] /\ awaking c = true /\ asleep c = true
  | Outside | AtLock _ | AtSignal => False
  end.

Definition lock_ok (s : system) : Prop :=
  match sync (mailbox s) with
  | None => complete (cpipe (mailbox s)) = [] /\ awaking (cpipe (mailbox s)) = false
  | Some i => exists p, senders s !! i = Some p /\ section_ok p (cpipe (mailbox s))
  end.

(** The reader may read without waiting. *)
Definition up (p : receiver) (m : mailbox_t) : bool := match p with Away => active m | Reading _ | Getting => true | _ => false end.

Record reader_ok (p : receiver) (m : mailbox_t) : Prop := {
  reader_active : p <> Away -> active m = up p m;
  reader_up : up p m = true -> asleep (cpipe m) = false /\ 1 <= signaler m;
  reader_down : up p m = false \/ p = Getting -> fetched (cpipe m) = [] /\ (asleep (cpipe m) = false -> flushed (cpipe m) <> []);
  reader_asleep : asleep (cpipe m) = true -> fetched (cpipe m) = [] /\ flushed (cpipe m) = [];
  reader_draining : forall t, p = Draining t -> 1 <= signaler m;
  reader_putting_back : forall t, p = PuttingBack t -> asleep (cpipe m) = false
}.

Record system_ok (s : system) : Prop := {
  ok_owner : forall i p, senders s !! i = Some p -> in_section p = true <-> sync (mailbox s) = Some i;
  ok_lock : lock_ok s;
  ok_whole : incomplete (cpipe (mailbox s)) = [];
  ok_reader : reader_ok (reader s) (mailbox s);
  ok_count : 0 <= signaler (mailbox s);
  ok_signals : signaler (mailbox s) + owed_all (senders s) + held (reader s) = awake (cpipe (mailbox s)) + due (reader s)
}.

Lemma owed_bounds p : 0 <= owed p <= 1.
Proof. destruct p as [| | | | |[]|]; cbn; lia. Qed.

Lemma owed_all_nonneg l : 0 <= owed_all l.
Proof. induction l as [|p l IH]; cbn; [|pose proof (owed_bounds p)]; lia. Qed.

Lemma owed_insert l i p q : l !! i = Some p -> owed_all (<[i := q]> l) = owed_all l - owed p + owed q.
Proof.
  revert i. induction l as [|x l IH]; intros [|i] Hi; [done|done|cbn in *; simplify_eq; lia|].
  change (owed x + owed_all (<[i := q]> l) = owed x + owed_all l - owed p + owed q). rewrite (IH i Hi). lia.
Qed.

Lemma owed_member l i p : l !! i = Some p -> owed p <= owed_all l.
Proof.
  revert i. induction l as [|x l IH]; intros [|i] Hi; [done|done| |]; cbn in *; simplify_eq; pose proof (owed_all_nonneg l).
  - lia.
  - pose proof (owed_bounds x). specialize (IH i Hi). lia.
Qed.

Lemma owed_outside n : owed_all (replicate n Outside) = 0.
Proof. induction n as [|n IH]; cbn; lia. Qed.

Lemma signals_at_most s : system_ok s -> signaler (mailbox s) + owed_all (senders s) + held (reader s) <= 2.
Proof. intros H. rewrite (ok_signals s H). unfold awake, due. repeat case_match; lia. Qed.

(** A sender moved. *)
Lemma owner_moves s i p q m : system_ok s -> senders s !! i = Some p ->
  (in_section q = true <-> sync m = Some i) ->
  (forall j, j <> i -> sync m = Some j <-> sync (mailbox s) = Some j) ->
  forall j x, <[i := q]> (senders s) !! j = Some x -> in_section x = true <-> sync m = Some j.
Proof.
  intros H Hi Hq Hj j x. destruct (decide (j = i)) as [->|Hne].
  - rewrite list_lookup_insert_eq by (by eapply lookup_lt_Some). by intros [= <-].
  - rewrite list_lookup_insert_ne by done. intros Hx. rewrite (Hj j Hne). by apply (ok_owner s H).
Qed.

Lemma new_system_ok n : exists s, new_system n = Ok s /\ system_ok s /\ unread s = [].
Proof.
  eexists. split; [reflexivity|]. split; [|done]. constructor; cbn; try done.
  - intros i p [-> _]%lookup_replicate. done.
  - unfold new_signaler, awake. cbn. pose proof (owed_outside n). lia.
Qed.

(** ** The senders keep it *)

Lemma section_here s i p : system_ok s -> senders s !! i = Some p -> in_section p = true -> section_ok p (cpipe (mailbox s)).
Proof.
  intros H Hi Hp. pose proof (proj1 (ok_owner s H i p Hi) Hp) as Hs. pose proof (ok_lock s H) as Hl.
  unfold lock_ok in Hl. rewrite Hs in Hl. by destruct Hl as (? & ? & ?); simplify_eq.
Qed.

Lemma reader_ok_same p m m' : reader_ok p m -> active m' = active m -> fetched (cpipe m') = fetched (cpipe m) ->
  flushed (cpipe m') = flushed (cpipe m) -> asleep (cpipe m') = asleep (cpipe m) -> signaler m <= signaler m' -> reader_ok p m'.
Proof.
  intros [H1 H2 H3 H4 H5 H6] Ha Hf Hl Hz Hs. assert (Hu : up p m' = up p m) by (unfold up; by rewrite Ha).
  constructor; rewrite ?Hu, ?Ha, ?Hf, ?Hl, ?Hz; try done.
  - intros Hup. destruct (H2 Hup). split; [done|lia].
  - intros t Ht. specialize (H5 t Ht). lia.
Qed.

Lemma reader_ok_flush p m m' l : reader_ok p m -> l <> [] -> active m' = active m -> fetched (cpipe m') = fetched (cpipe m) ->
  flushed (cpipe m') = flushed (cpipe m) ++ l -> asleep (cpipe m') = false -> signaler m' = signaler m -> reader_ok p m'.
Proof.
  intros [H1 H2 H3 H4 H5 H6] Hne Ha Hf Hl Hz Hs. assert (Hu : up p m' = up p m) by (unfold up; by rewrite Ha).
  constructor; rewrite ?Hu, ?Ha, ?Hf, ?Hl, ?Hz, ?Hs; try done.
  - intros Hup. split; [done|]. by destruct (H2 Hup).
  - intros Hd. destruct (H3 Hd) as [-> _]. split; [done|]. intros _ [_ ?]%app_eq_nil. done.
Qed.

Lemma sender_moves s i p q m : system_ok s -> senders s !! i = Some p ->
  (in_section q = true <-> sync m = Some i) ->
  (forall j, j <> i -> sync m = Some j <-> sync (mailbox s) = Some j) ->
  lock_ok (mkSystem m (<[i := q]> (senders s)) (reader s)) -> incomplete (cpipe m) = [] -> reader_ok (reader s) m ->
  0 <= signaler m -> signaler m + owed q - awake (cpipe m) = signaler (mailbox s) + owed p - awake (cpipe (mailbox s)) ->
  system_ok (mkSystem m (<[i := q]> (senders s)) (reader s)).
Proof.
  intros H Hi Hq Hj Hl Hw Hr Hc Hb. constructor; cbn [mailbox senders reader]; try done.
  - by apply (owner_moves s i p).
  - rewrite (owed_insert _ i p q Hi). pose proof (ok_signals s H). lia.
Qed.

(** In its section, the lock being kept. *)
Lemma section_moves s i p q m : system_ok s -> senders s !! i = Some p -> in_section p = true -> in_section q = true ->
  sync m = sync (mailbox s) -> section_ok q (cpipe m) -> incomplete (cpipe m) = [] -> reader_ok (reader s) m ->
  signaler m = signaler (mailbox s) -> owed q - awake (cpipe m) = owed p - awake (cpipe (mailbox s)) ->
  system_ok (mkSystem m (<[i := q]> (senders s)) (reader s)).
Proof.
  intros H Hi Hp Hq Hs Hc Hw Hr Hn Hb. pose proof (proj1 (ok_owner s H i p Hi) Hp) as Ho.
  apply (sender_moves s i p); try done.
  - by rewrite Hs, Ho.
  - intros j _. by rewrite Hs.
  - unfold lock_ok. cbn [mailbox senders]. rewrite Hs, Ho. exists q. split; [|done].
    apply list_lookup_insert_eq. by eapply lookup_lt_Some.
  - rewrite Hn. apply (ok_count s H).
  - lia.
Qed.

(** Outside it, the pipe and the lock being as they were. *)
Lemma outside_moves s i p q m : system_ok s -> senders s !! i = Some p -> in_section p = false -> in_section q = false ->
  cpipe m = cpipe (mailbox s) -> sync m = sync (mailbox s) -> active m = active (mailbox s) ->
  signaler (mailbox s) <= signaler m -> signaler m + owed q = signaler (mailbox s) + owed p ->
  system_ok (mkSystem m (<[i := q]> (senders s)) (reader s)).
Proof.
  intros H Hi Hp Hq Hc Hs Ha Hn Hb.
  assert (Ho : sync (mailbox s) <> Some i) by (intros Ho; apply (ok_owner s H i p Hi) in Ho; congruence).
  apply (sender_moves s i p); try done.
  - rewrite Hs, Hq. by split.
  - intros j _. by rewrite Hs.
  - pose proof (ok_lock s H) as Hl. unfold lock_ok in *. cbn [mailbox senders]. rewrite Hs, Hc. destruct (sync (mailbox s)) as [j|]; [|done].
    destruct Hl as (x & Hx & ?). exists x. split; [|done]. rewrite list_lookup_insert_ne; [done|]. by intros ->.
  - rewrite Hc. apply (ok_whole s H).
  - apply (reader_ok_same _ (mailbox s)); rewrite ?Hc; try done. apply (ok_reader s H).
  - pose proof (ok_count s H). lia.
  - rewrite Hc. lia.
Qed.

Lemma call_send_ok s i c : system_ok s -> enabled (CallSend i c) s = true ->
  system_ok (mkSystem (mailbox s) (<[i := AtLock c]> (senders s)) (reader s)).
Proof.
  intros H. cbn. destruct (senders s !! i) as [[]|] eqn:Hi; try done. intros _.
  by apply (outside_moves s i Outside); try done.
Qed.

(** What a step keeps. *)
Definition steps_to (m : outcome (event * system)) (s : system) : Prop :=
  exists e s', m = Ok (e, s') /\ system_ok s' /\ queue_run (unread s) [e] (unread s').

Lemma steps_silently s s' : system_ok s' -> unread s' = unread s -> steps_to (Ok (Silent, s')) s.
Proof. intros H E. exists Silent, s'. split_and!; try done. rewrite E. apply queue_silent, queue_nil. Qed.

(** The socket pair takes two bytes. *)
Hypothesis enough_room : 2 <= room.

Lemma lock_step_ok s i c b : system_ok s -> senders s !! i = Some (AtLock c) -> enabled (Sends i b) s = true ->
  steps_to (act (Sends i b) s) s.
Proof.
  intros H Hi. cbn. rewrite Hi. cbn. intros Hn%bool_decide_eq_true. apply steps_silently; [|done].
  apply (sender_moves s i (AtLock c)); cbn; try done.
  - intros j Hj. rewrite Hn. split; congruence.
  - unfold lock_ok. cbn [mailbox sync senders set_sync cpipe]. exists (AtWrite c). split; [apply list_lookup_insert_eq; by eapply lookup_lt_Some|].
    pose proof (ok_lock s H) as Hl. unfold lock_ok in Hl. by rewrite Hn in Hl.
  - apply (ok_whole s H).
  - apply (reader_ok_same _ (mailbox s)); try done. apply (ok_reader s H).
  - apply (ok_count s H).
Qed.

Lemma write_step_ok s i c b : system_ok s -> senders s !! i = Some (AtWrite c) -> steps_to (act (Sends i b) s) s.
Proof.
  intros H Hi. destruct (section_here s i _ H Hi eq_refl) as [Hc Hw]. pose proof (ok_whole s H) as Hinc.
  unfold act, send_step. rewrite Hi. cbn [default]. unfold on_pipe, allowed. rewrite Hw. cbn -[lookup insert]. rewrite Hc, Hinc. cbn [app].
  eexists _, _. split; [reflexivity|]. split.
  - apply (section_moves s i (AtWrite c)); cbn; try done.
    apply (reader_ok_same _ (mailbox s)); try done. apply (ok_reader s H).
  - unfold unread. cbn. rewrite Hc, Hinc. cbn. rewrite !app_nil_r, app_assoc. apply queue_posted, queue_nil.
Qed.

Lemma flush_step_ok s i b : system_ok s -> senders s !! i = Some AtFlush -> steps_to (act (Sends i b) s) s.
Proof.
  intros H Hi. destruct (section_here s i _ H Hi eq_refl) as [Hc Hw]. pose proof (ok_whole s H) as Hinc. pose proof (ok_reader s H) as Hr.
  unfold act, send_step. rewrite Hi. cbn [default]. unfold on_pipe, allowed. rewrite Hw. cbn -[lookup insert].
  destruct (complete (cpipe (mailbox s))) as [|v l] eqn:El; [done|]. destruct (asleep (cpipe (mailbox s))) eqn:Ez; apply steps_silently.
  - apply (section_moves s i AtFlush); cbn; unfold awake; cbn; rewrite ?Ez; try done. by apply (reader_ok_same _ (mailbox s)).
  - unfold unread. cbn. by rewrite El.
  - apply (section_moves s i AtFlush); cbn; unfold awake; cbn; rewrite ?Ez; try done. by apply (reader_ok_flush _ (mailbox s) _ (v :: l)).
  - unfold unread. cbn. by rewrite El, Hinc, !app_nil_r.
Qed.

Lemma wake_step_ok s i b : system_ok s -> senders s !! i = Some AtWake -> steps_to (act (Sends i b) s) s.
Proof.
  intros H Hi. destruct (section_here s i _ H Hi eq_refl) as (Hc & Hw & Ez). pose proof (ok_whole s H) as Hinc.
  unfold act, send_step. rewrite Hi. cbn [default]. unfold on_pipe, allowed. rewrite Hw. cbn -[lookup insert]. apply steps_silently.
  - apply (section_moves s i AtWake); cbn; unfold awake; cbn; rewrite ?Ez; try done.
    apply (reader_ok_flush _ (mailbox s) _ (complete (cpipe (mailbox s)))); try done. apply (ok_reader s H).
  - unfold unread. cbn. by rewrite Hinc, !app_nil_r.
Qed.

Lemma unlock_step_ok s i ok b : system_ok s -> senders s !! i = Some (AtUnlock ok) -> steps_to (act (Sends i b) s) s.
Proof.
  intros H Hi. destruct (section_here s i _ H Hi eq_refl) as [Hc Hw]. pose proof (proj1 (ok_owner s H i _ Hi) eq_refl) as Ho.
  unfold act, send_step. rewrite Hi. cbn [default obind]. apply steps_silently; [|done].
  apply (sender_moves s i (AtUnlock ok)); cbn; try done.
  - by destruct ok.
  - intros j Hj. rewrite Ho. split; congruence.
  - apply (ok_whole s H).
  - apply (reader_ok_same _ (mailbox s)); try done. apply (ok_reader s H).
  - apply (ok_count s H).
  - by destruct ok.
Qed.

Lemma signal_step_ok s i b : system_ok s -> senders s !! i = Some AtSignal -> steps_to (act (Sends i b) s) s.
Proof.
  intros H Hi. pose proof (signals_at_most s H) as Hm. pose proof (owed_member _ _ _ Hi) as Hw. cbn in Hw.
  assert (Hh : 0 <= held (reader s)) by (by destruct (reader s)).
  unfold act, send_step. rewrite Hi. cbn [default]. unfold signaler_send. destruct eventfd; [|destruct b].
  - assert (Ec : (signaler (mailbox s) + 1 <=? eventfd_max) = true) by (unfold eventfd_max; lia). rewrite Ec. cbn -[insert].
    apply steps_silently; [|done]. apply (outside_moves s i AtSignal); cbn; try done; lia.
  - cbn -[insert]. apply steps_silently; [|done]. apply (outside_moves s i AtSignal); cbn; try done; lia.
  - assert (Ec : (signaler (mailbox s) <? room) = true) by lia. rewrite Ec. cbn -[insert].
    apply steps_silently; [|done]. apply (outside_moves s i AtSignal); cbn; try done; lia.
Qed.

Lemma sends_ok s i b : system_ok s -> enabled (Sends i b) s = true -> steps_to (act (Sends i b) s) s.
Proof.
  intros H He. destruct (senders s !! i) as [[|c|c| | |ok|]|] eqn:Hi; try by (cbn in He; rewrite Hi in He).
  - by eapply lock_step_ok.
  - by eapply write_step_ok.
  - by eapply flush_step_ok.
  - by eapply wake_step_ok.
  - by eapply unlock_step_ok.
  - by eapply signal_step_ok.
Qed.

(** ** The reader keeps it *)

Lemma reader_moves s p m : system_ok s -> sync m = sync (mailbox s) -> complete (cpipe m) = complete (cpipe (mailbox s)) ->
  awaking (cpipe m) = awaking (cpipe (mailbox s)) -> incomplete (cpipe m) = incomplete (cpipe (mailbox s)) ->
  (asleep (cpipe (mailbox s)) = true -> asleep (cpipe m) = true) -> reader_ok p m -> 0 <= signaler m ->
  signaler m + held p - awake (cpipe m) - due p = signaler (mailbox s) + held (reader s) - awake (cpipe (mailbox s)) - due (reader s) ->
  system_ok (mkSystem m (senders s) p).
Proof.
  intros H Hs Hc Hw Hi Hz Hr Hn Hb. constructor; cbn [mailbox senders reader]; try done.
  - intros i x. rewrite Hs. apply (ok_owner s H).
  - pose proof (ok_lock s H) as Hl. unfold lock_ok in *. cbn [mailbox senders]. rewrite Hs, Hc, Hw. destruct (sync (mailbox s)) as [i|]; [|done].
    destruct Hl as (x & Hx & Hk). exists x. split; [done|]. destruct x; cbn in *; rewrite ?Hc, ?Hw; naive_solver.
  - rewrite Hi. apply (ok_whole s H).
  - pose proof (ok_signals s H). lia.
Qed.

(** What [read] finds. *)
Lemma read_cases (m : mailbox_t) :
  (exists c m', on_pipe Read m = Ok (Item (Some c), m') /\ fetched (cpipe m) ++ flushed (cpipe m) = c :: fetched (cpipe m') ++ flushed (cpipe m') /\
     signaler m' = signaler m /\ sync m' = sync m /\ active m' = active m /\ complete (cpipe m') = complete (cpipe m) /\
     incomplete (cpipe m') = incomplete (cpipe m) /\ awaking (cpipe m') = awaking (cpipe m) /\ asleep (cpipe m') = asleep (cpipe m)) \/
  fetched (cpipe m) = [] /\ flushed (cpipe m) = [] /\
  on_pipe Read m = Ok (NoItem, mkMailbox (mkChannel [] [] (complete (cpipe m)) (incomplete (cpipe m)) true (awaking (cpipe m))) (signaler m) (sync m) (active m)).
Proof.
  destruct m as [[fe fl co inc z w] s o a]. unfold on_pipe. cbn. destruct fe as [|c fe]; cbn; [destruct fl as [|c fl]; cbn|].
  - by right.
  - left. eexists _, _. split; [reflexivity|]. split_and!; try done. cbn. by rewrite app_nil_r.
  - left. eexists _, _. split; [reflexivity|]. by split_and!.
Qed.

(** A command is received by a reader that is up. *)
Lemma receives_ok s c m : system_ok s -> up (reader s) (mailbox s) = true -> active (mailbox s) = true -> held (reader s) = 0 -> due (reader s) = 0 ->
  fetched (cpipe (mailbox s)) ++ flushed (cpipe (mailbox s)) = c :: fetched (cpipe m) ++ flushed (cpipe m) ->
  signaler m = signaler (mailbox s) -> sync m = sync (mailbox s) -> active m = active (mailbox s) -> complete (cpipe m) = complete (cpipe (mailbox s)) ->
  incomplete (cpipe m) = incomplete (cpipe (mailbox s)) -> awaking (cpipe m) = awaking (cpipe (mailbox s)) -> asleep (cpipe m) = asleep (cpipe (mailbox s)) ->
  system_ok (mkSystem m (senders s) Away) /\ unread s = c :: unread (mkSystem m (senders s) Away).
Proof.
  intros H Hu Ha Hh Hd Ef Hn Hs Hac Hc Hi Hw Hz. destruct (reader_up _ _ (ok_reader s H) Hu) as [Hz' Hn']. split.
  - apply (reader_moves s); try done.
    + by rewrite Hz.
    + constructor; cbn; rewrite ?Hac, ?Ha, ?Hz, ?Hz', ?Hn; try done. by intros [?|?].
    + rewrite Hn. apply (ok_count s H).
    + unfold awake. rewrite Hz, Hn, Hh, Hd. cbn. lia.
  - unfold unread. cbn [mailbox]. rewrite Hc, Hi. rewrite (app_assoc (fetched (cpipe (mailbox s)))), Ef. cbn. by rewrite <- app_assoc.
Qed.

Lemma call_recv_ok s t : system_ok s -> reader s = Away -> system_ok (mkSystem (mailbox s) (senders s) (recv_start t (mailbox s))).
Proof.
  intros H Hr. destruct (ok_reader s H) as [H1 H2 H3 H4 H5 H6]. rewrite Hr in *. unfold recv_start.
  apply (reader_moves s); try done.
  - constructor; destruct (active (mailbox s)) eqn:Ea; cbn in *; try done; try (by intros [?|?]); rewrite ?Ea in *; auto.
  - apply (ok_count s H).
  - rewrite Hr. by destruct (active (mailbox s)).
Qed.

(** A step that shows nothing. *)
Definition silently (a : poll_answer) (s s' : system) : Prop :=
  act (Receives a) s = Ok (Silent, s') /\ system_ok s' /\ unread s' = unread s /\ senders s' = senders s.

(** A step that receives the first command. *)
Definition receives (a : poll_answer) (s : system) : Prop :=
  exists c s', act (Receives a) s = Ok (Received c, s') /\ system_ok s' /\ unread s = c :: unread s' /\ senders s' = senders s /\ reader s' = Away.

Lemma reading_ok s t a : system_ok s -> reader s = Reading t ->
  receives a s \/ fetched (cpipe (mailbox s)) ++ flushed (cpipe (mailbox s)) = [] /\ exists s', silently a s s' /\ reader s' = Draining t.
Proof.
  intros H Hr. pose proof (ok_reader s H) as Ho. rewrite Hr in Ho. destruct (reader_up _ _ Ho eq_refl) as [Hz Hn].
  assert (Ha : active (mailbox s) = true) by (by rewrite (reader_active _ _ Ho)).
  unfold receives, silently, act. rewrite Hr. unfold recv_step. destruct (read_cases (mailbox s)) as [(c & m & -> & E & ? & ? & ? & ? & ? & ? & ?)|(Ef & El & ->)]; cbn [obind].
  - left. destruct (receives_ok s c m) as [Hs Hu]; rewrite ?Hr; try done. by eexists _, _.
  - right. split; [by rewrite Ef, El|]. eexists. split; [split; [reflexivity|]; split_and!; try done|done].
    + apply (reader_moves s); cbn; try done; [apply (ok_count s H)|]. unfold awake. rewrite Hr, Hz. cbn. lia.
    + unfold unread. cbn. by rewrite Ef, El.
Qed.

Lemma draining_ok s t a : system_ok s -> reader s = Draining t ->
  exists s', silently a s s' /\ (reader s' = Waiting t \/ reader s' = PuttingBack t /\ signaler (mailbox s) = 2).
Proof.
  intros H Hr. pose proof (ok_reader s H) as Ho. rewrite Hr in Ho. pose proof (reader_draining _ _ Ho t eq_refl) as Hn.
  pose proof (signals_at_most s H) as Hm. pose proof (owed_all_nonneg (senders s)) as Hp. pose proof (ok_signals s H) as Hb. rewrite Hr in Hm, Hb. cbn in Hm, Hb.
  destruct Ho as [H1 H2 H3 H4 H5 H6]. cbn in *.
  unfold silently, act. rewrite Hr. unfold recv_step, signaler_recv. assert (E0 : (0 <? signaler (mailbox s)) = true) by lia. rewrite E0. cbn [assertion obind].
  destruct eventfd; [destruct (Z.eqb_spec (signaler (mailbox s)) 2) as [E2|E2]|].
  - cbn [obind]. eexists. split; [split; [reflexivity|]; split_and!; try done|by right].
    apply (reader_moves s); cbn; try done; [|rewrite Hr; unfold awake in *; cbn in *; lia].
    constructor; cbn; try done; [by intros _; apply H1|by intros _; apply H3; left|]. intros _ _. unfold awake in Hb. destruct (asleep _); [lia|done].
  - assert (E1 : (signaler (mailbox s) =? 1) = true) by lia. rewrite E1. cbn [assertion obind]. eexists. split; [split; [reflexivity|]; split_and!; try done|by left].
    apply (reader_moves s); cbn; try done; [|rewrite Hr; unfold awake in *; cbn in *; lia].
    constructor; cbn; try done; [by intros _; apply H1|by intros _; apply H3; left].
  - cbn [obind]. eexists. split; [split; [reflexivity|]; split_and!; try done|by left].
    apply (reader_moves s); cbn; try done; [|lia|rewrite Hr; unfold awake in *; cbn in *; lia].
    constructor; cbn; try done; [by intros _; apply H1|by intros _; apply H3; left].
Qed.

Lemma putting_back_ok s t a : system_ok s -> reader s = PuttingBack t -> exists s', silently a s s' /\ reader s' = Waiting t.
Proof.
  intros H Hr. pose proof (ok_reader s H) as Ho. rewrite Hr in Ho. pose proof (signals_at_most s H) as Hm. pose proof (owed_all_nonneg (senders s)) as Hp.
  rewrite Hr in Hm. cbn in Hm. pose proof (ok_count s H) as Hc. destruct Ho as [H1 H2 H3 H4 H5 H6]. cbn in *.
  unfold silently, act. rewrite Hr. unfold recv_step, put_back. assert (E0 : (signaler (mailbox s) + 1 <=? eventfd_max) = true) by (unfold eventfd_max; lia).
  rewrite E0. cbn [assertion obind]. eexists. split; [split; [reflexivity|]; split_and!; try done|done].
  apply (reader_moves s); cbn; try done; [|lia|rewrite Hr; unfold awake in *; cbn in *; lia].
  constructor; cbn; try done; [by intros _; apply H1|by intros _; apply H3; left].
Qed.

Lemma ready_ok s t : system_ok s -> reader s = Waiting t -> 0 < signaler (mailbox s) ->
  exists s', silently PollReady s s' /\ reader s' = Getting.
Proof.
  intros H Hr Hn. pose proof (ok_reader s H) as Ho. rewrite Hr in Ho. pose proof (owed_all_nonneg (senders s)) as Hp.
  pose proof (ok_signals s H) as Hb. rewrite Hr in Hb. cbn in Hb. destruct Ho as [H1 H2 H3 H4 H5 H6]. cbn in *.
  assert (Hz : asleep (cpipe (mailbox s)) = false) by (unfold awake in Hb; destruct (asleep _); [lia|done]).
  unfold silently, act. rewrite Hr. cbn. eexists. split; [split; [reflexivity|]; split_and!; try done|done].
  apply (reader_moves s); cbn; try done; [|lia|rewrite Hr; unfold awake in *; cbn in *; lia].
  constructor; cbn; try done; [intros _; split; [done|lia]|by intros _; apply H3; left].
Qed.

Lemma wait_fails_ok s t a e : system_ok s -> reader s = Waiting t -> signaler_wait a = Ok (-1, e) -> e = EAGAIN \/ e = EINTR ->
  act (Receives a) s = Ok (Failed e, mkSystem (mailbox s) (senders s) Away) /\ system_ok (mkSystem (mailbox s) (senders s) Away).
Proof.
  intros H Hr Ew He. pose proof (ok_reader s H) as Ho. rewrite Hr in Ho. destruct Ho as [H1 H2 H3 H4 H5 H6]. cbn in *.
  assert (Ha : active (mailbox s) = false) by (by apply H1).
  unfold act. rewrite Hr. unfold recv_step. rewrite Ew. cbn [obind]. split; [by destruct He as [-> | ->]|].
  apply (reader_moves s); cbn; try done; [|apply (ok_count s H)|rewrite Hr; cbn; lia].
  constructor; cbn; rewrite ?Ha; try done. by intros _; apply H3; left.
Qed.

Lemma getting_ok s a : system_ok s -> reader s = Getting -> receives a s.
Proof.
  intros H Hr. pose proof (ok_reader s H) as Ho. rewrite Hr in Ho. destruct (reader_up _ _ Ho eq_refl) as [Hz Hn].
  destruct (reader_down _ _ Ho (or_intror eq_refl)) as [Hf Hl]. specialize (Hl Hz).
  assert (Ha : active (mailbox s) = true) by (by rewrite (reader_active _ _ Ho)).
  unfold receives, act. rewrite Hr. unfold recv_step. destruct (read_cases (mailbox s)) as [(c & m & -> & E & ? & ? & ? & ? & ? & ? & ?)|(_ & El & _)]; [|done].
  cbn [obind]. destruct (receives_ok s c m) as [Hs Hu]; rewrite ?Hr; try done. by eexists _, _.
Qed.

Lemma received_step a s : receives a s -> steps_to (act (Receives a) s) s.
Proof. intros (c & s' & E & H & Hu & _). exists (Received c), s'. split_and!; try done. rewrite Hu. apply queue_received, queue_nil. Qed.

Lemma silent_step a s s' : silently a s s' -> steps_to (act (Receives a) s) s.
Proof. intros (-> & H & Hu & _). by apply steps_silently. Qed.

Lemma receives_steps s a : system_ok s -> enabled (Receives a) s = true -> steps_to (act (Receives a) s) s.
Proof.
  intros H He. destruct (reader s) as [|t|t|t|t|] eqn:Hr.
  - cbn in He. by rewrite Hr in He.
  - destruct (reading_ok s t a H Hr) as [Hc|(_ & s' & Hs & _)]; [by apply received_step|by eapply silent_step].
  - destruct (draining_ok s t a H Hr) as (s' & Hs & _). by eapply silent_step.
  - destruct (putting_back_ok s t a H Hr) as (s' & Hs & _). by eapply silent_step.
  - cbn in He. rewrite Hr in He. destruct a as [| |e]; cbn in He.
    + destruct (ready_ok s t H Hr) as (s' & Hs & _); [lia|]. by eapply silent_step.
    + destruct (wait_fails_ok s t PollTimeout EAGAIN H Hr eq_refl (or_introl eq_refl)) as [-> Hs].
      eexists _, _. split_and!; [done..|]. apply queue_failed, queue_nil. by left.
    + apply bool_decide_eq_true in He as ->. destruct (wait_fails_ok s t (PollError EINTR) EINTR H Hr eq_refl (or_intror eq_refl)) as [-> Hs].
      eexists _, _. split_and!; [done..|]. apply queue_failed, queue_nil. by right.
  - by apply received_step, getting_ok.
Qed.

Lemma moves_ok a s : system_ok s -> enabled a s = true -> steps_to (act a s) s.
Proof.
  intros H He. destruct a as [i c|i b|t|a].
  - apply steps_silently; [by apply call_send_ok|done].
  - by apply sends_ok.
  - apply steps_silently; [|done]. apply call_recv_ok; [done|]. cbn in He. by destruct (reader s).
  - by apply receives_steps.
Qed.

Lemma queue_run_app q l q' k q'' : queue_run q l q' -> queue_run q' k q'' -> queue_run q (l ++ k) q''.
Proof. induction 1; cbn; intros ?; try constructor; auto. Qed.

Lemma run_ok s trace s' : run s trace s' -> system_ok s -> system_ok s' /\ queue_run (unread s) trace (unread s').
Proof.
  induction 1 as [|s a e s1 trace s2 He Ea _ IH]; intros H; [split; [done|apply queue_nil]|].
  destruct (moves_ok a s H He) as (e' & s' & Ea' & H' & Hq). rewrite Ea' in Ea. injection Ea as <- <-.
  destruct (IH H') as [H2 Hq2]. split; [done|]. exact (queue_run_app _ [e'] _ _ _ Hq Hq2).
Qed.

(** ** The receiver on its own *)

Definition idle (s : system) : Prop := Forall (eq Outside) (senders s).

Lemma idle_facts s : system_ok s -> idle s -> owed_all (senders s) = 0 /\ complete (cpipe (mailbox s)) = [].
Proof.
  intros H Hi. split.
  - clear H. induction Hi as [|p l <- _ IH]; cbn; lia.
  - pose proof (ok_lock s H) as Hl. unfold lock_ok in Hl. destruct (sync (mailbox s)) as [i|]; [|by destruct Hl].
    destruct Hl as (p & Hp & Hk). apply (Forall_lookup_1 _ _ _ _ Hi) in Hp as <-. done.
Qed.

(** With so much fuel [recv] ends as it should; [t] is its timeout. *)
Definition ends (n : nat) (t : Z) (s : system) : Prop :=
  match unread s with
  | c :: l => exists s', finish n s = Ok (Some (Received c), s') /\ system_ok s' /\ unread s' = l /\ senders s' = senders s
  | [] => exists s', finish n s = Ok (if 0 <=? t then Some (Failed EAGAIN) else None, s') /\ unread s' = []
  end.

Lemma ends_silently n t s s' : answer_alone s = Some PollReady -> silently PollReady s s' -> ends n t s' -> ends (S n) t s.
Proof.
  intros Ea (E & H & Hu & Hs) He. unfold ends in *. rewrite Hu in He. cbn [finish]. rewrite Ea, E. cbn [obind].
  destruct (unread s); [done|]. destruct He as (s2 & ? & ? & ? & ?). exists s2. split_and!; try done. by rewrite <- Hs.
Qed.

Lemma ends_received n t s : answer_alone s = Some PollReady -> receives PollReady s -> ends (S n) t s.
Proof. intros Ea (c & s' & E & H & Hu & Hs & _). unfold ends. rewrite Hu. cbn [finish]. rewrite Ea, E. cbn [obind]. by exists s'. Qed.

Lemma answer_ready s : (forall t, reader s <> Waiting t) -> answer_alone s = Some PollReady.
Proof. unfold answer_alone. destruct (reader s); try done. intros H. by destruct (H timeout_). Qed.

Lemma ends_waiting n t s : system_ok s -> idle s -> reader s = Waiting t -> ends (S (S n)) t s.
Proof.
  intros H Hi Hr. destruct (idle_facts s H Hi) as [Ho Hc]. pose proof (ok_signals s H) as Hb. rewrite Ho, Hr in Hb. cbn in Hb.
  destruct (Z.ltb_spec 0 (signaler (mailbox s))) as [Hn|Hn].
  - destruct (ready_ok s t H Hr Hn) as (s' & Hs & Hr'). apply (ends_silently _ _ _ s'); [|done|].
    + unfold answer_alone. rewrite Hr. unfold poll_alone. by assert ((0 <? signaler (mailbox s)) = true) as -> by lia.
    + apply ends_received; [apply answer_ready; by rewrite Hr'|]. apply getting_ok; [by apply Hs|done].
  - pose proof (ok_reader s H) as Hro. pose proof (ok_count s H) as Hp. unfold awake in Hb.
    destruct (asleep (cpipe (mailbox s))) eqn:Ez; [|lia]. destruct (reader_asleep _ _ Hro Ez) as [Hf Hl].
    assert (Eu : unread s = []) by (unfold unread; by rewrite Hf, Hl, Hc, (ok_whole s H)).
    unfold ends. rewrite Eu. cbn [finish]. unfold answer_alone. rewrite Hr. unfold poll_alone.
    assert ((0 <? signaler (mailbox s)) = false) as -> by lia. destruct (0 <=? t); [|by exists s].
    destruct (wait_fails_ok s t PollTimeout EAGAIN H Hr eq_refl (or_introl eq_refl)) as [-> _]. cbn [obind]. by eexists.
Qed.

Lemma idle_silently a s s' : silently a s s' -> idle s -> idle s'.
Proof. intros (_ & _ & _ & Hs) Hi. unfold idle. by rewrite Hs. Qed.

Lemma ends_putting_back n t s : system_ok s -> idle s -> reader s = PuttingBack t -> ends (S (S (S n))) t s.
Proof.
  intros H Hi Hr. destruct (putting_back_ok s t PollReady H Hr) as (s' & Hs & Hr'). apply (ends_silently _ _ _ s'); [apply answer_ready; by rewrite Hr|done|].
  apply ends_waiting; [apply Hs|by eapply idle_silently|done].
Qed.

Lemma ends_draining n t s : system_ok s -> idle s -> reader s = Draining t -> ends (S (S (S (S n)))) t s.
Proof.
  intros H Hi Hr. destruct (draining_ok s t PollReady H Hr) as (s' & Hs & Hr'). apply (ends_silently _ _ _ s'); [apply answer_ready; by rewrite Hr|done|].
  destruct Hr' as [Hr'|[Hr' _]].
  - apply ends_waiting; [apply Hs|by eapply idle_silently|done].
  - apply ends_putting_back; [apply Hs|by eapply idle_silently|done].
Qed.

Lemma ends_reading n t s : system_ok s -> idle s -> reader s = Reading t -> ends (S (S (S (S (S n))))) t s.
Proof.
  intros H Hi Hr. destruct (reading_ok s t PollReady H Hr) as [Hc|(_ & s' & Hs & Hr')].
  - apply ends_received; [apply answer_ready; by rewrite Hr|done].
  - apply (ends_silently _ _ _ s'); [apply answer_ready; by rewrite Hr|done|]. apply ends_draining; [apply Hs|by eapply idle_silently|done].
Qed.

Lemma ends_getting n t s : system_ok s -> reader s = Getting -> ends (S n) t s.
Proof. intros H Hr. apply ends_received; [apply answer_ready; by rewrite Hr|by apply getting_ok]. Qed.

Lemma recv_ends t s : system_ok s -> idle s ->
  match unread s with
  | c :: l => exists s', recv t s = Ok (Some (Received c), s') /\ system_ok s' /\ unread s' = l /\ idle s'
  | [] => exists s', recv t s = Ok (if 0 <=? timeout_of t s then Some (Failed EAGAIN) else None, s') /\ unread s' = []
  end.
Proof.
  intros H Hi.
  assert (He : ends 5 (timeout_of t s) (match reader s with Away => mkSystem (mailbox s) (senders s) (recv_start t (mailbox s)) | _ => s end)).
  { unfold timeout_of. destruct (reader s) as [|u|u|u|u|] eqn:Hr.
    - pose proof (call_recv_ok s t H Hr) as Hc. unfold recv_start in *. destruct (active (mailbox s)); [by apply ends_reading|by apply ends_waiting].
    - by apply ends_reading.
    - by apply ends_draining.
    - by apply ends_putting_back.
    - by apply ends_waiting.
    - by apply ends_getting. }
  unfold recv, ends in *. destruct (reader s); cbn [senders] in He; unfold unread in *; cbn [mailbox] in He;
    (destruct (fetched _ ++ _) as [|c l]; [exact He|]); destruct He as (s' & ? & ? & ? & Hs); exists s'; split_and!; try done; unfold idle; by rewrite Hs.
Qed.

Lemma recvs_drain ts s : system_ok s -> idle s -> length ts = length (unread s) ->
  exists s', recvs ts s = Ok (map (fun c => Some (Received c)) (unread s), s') /\ system_ok s' /\ idle s' /\ unread s' = [].
Proof.
  revert s. induction ts as [|t ts IH]; intros s H Hi Hl.
  - destruct (unread s) eqn:Eu; [|done]. by exists s.
  - pose proof (recv_ends t s H Hi) as He. destruct (unread s) as [|c l] eqn:Eu; [done|]. destruct He as (s1 & E1 & H1 & U1 & I1).
    destruct (IH s1 H1 I1) as (s2 & E2 & ? & ? & ?); [rewrite U1; by injection Hl|]. exists s2. split_and!; try done. cbn [recvs]. rewrite E1. cbn [obind]. rewrite E2. cbn. by rewrite U1.
Qed.

Lemma exec_run moves s trace s' : exec moves s = Ok (trace, s') -> run s trace s'.
Proof.
  revert s trace. induction moves as [|a moves IH]; intros s trace; cbn [exec].
  - intros [= <- <-]. constructor.
  - destruct (enabled a s) eqn:He; [|done]. cbn [assertion obind]. destruct (act a s) as [[e s1]| |] eqn:Ea; try done. cbn [obind].
    destruct (exec moves s1) as [[es s2]| |] eqn:Ee; try done. cbn [obind]. intros [= <- <-]. by econstructor; [| |apply IH].
Qed.

(** ** The theorems *)

(** C6: A mailbox with any number of senders is a queue.  However their steps and
    those of the reader are interleaved, with whatever interruptions and timeouts,
    every command is received once and in the order of posting, the commands not
    yet received are those the state holds, and [recv] fails with [EAGAIN] or
    [EINTR] only; no assertion of the mailbox or of the signaler fails, the pipe
    has one writer at a time, and there are never more than two signals. *)
Theorem mailbox_refines_queue n :
  exists s0, new_system n = Ok s0 /\
    forall trace s, run s0 trace s ->
      queue_run [] trace (unread s) /\ signaler (mailbox s) <= 2 /\
      forall a, enabled a s = true -> exists e s', act a s = Ok (e, s').
Proof using enough_room.
  destruct (new_system_ok n) as (s0 & E0 & H0 & U0). exists s0. split; [done|]. intros trace s Hr.
  destruct (run_ok s0 trace s Hr H0) as [H Hq]. rewrite U0 in Hq. split_and!; [done| |].
  - pose proof (signals_at_most s H). pose proof (owed_all_nonneg (senders s)). assert (0 <= held (reader s)) by (by destruct (reader s)). lia.
  - intros a Ha. destruct (moves_ok a s H Ha) as (e & s' & E & _). by exists e, s'.
Qed.

(** C7: No wake-up is lost.  In every reachable state in which no call of [send]
    is going on, wherever the reader is, asleep in [poll] or between the steps of
    a [recv], as many calls of [recv] as there are commands not yet received
    return exactly these in order, none of them blocks or times out, and the next
    call fails with [EAGAIN], or blocks when it has no timeout. *)
Theorem mailbox_loses_no_wakeup n s0 trace s ts :
  new_system n = Ok s0 -> run s0 trace s -> Forall (eq Outside) (senders s) -> length ts = length (unread s) ->
  exists s1, recvs ts s = Ok (map (fun c => Some (Received c)) (unread s), s1) /\
    forall t, exists s2, recv t s1 = Ok (if 0 <=? timeout_of t s1 then Some (Failed EAGAIN) else None, s2).
Proof using enough_room.
  intros E0 Hr Hi Hl. destruct (new_system_ok n) as (s0' & E0' & H0 & _). rewrite E0 in E0'. injection E0' as <-.
  destruct (run_ok s0 trace s Hr H0) as [H _]. destruct (recvs_drain ts s H Hi Hl) as (s1 & E1 & H1 & I1 & U1).
  exists s1. split; [done|]. intros t. pose proof (recv_ends t s1 H1 I1) as He. rewrite U1 in He. destruct He as (s2 & E2 & _). by exists s2.
Qed.

End Mailbox.

Arguments system : clear implicits.
Arguments move : clear implicits.
Arguments event : clear implicits.

(** ** Runs *)

(** A [send] that wakes the reader, and one that need not. *)
Definition whole_send (i : nat) (c : Z) : list (move Z) := CallSend i c :: replicate 6 (Sends i false).
Definition quiet_send (i : nat) (c : Z) : list (move Z) := CallSend i c :: replicate 4 (Sends i false).

(** The reader finds nothing, a sender wakes it again, and only then it takes the
    first signal: on an eventfd it takes both. *)
Definition two_signals : list (move Z) :=
  whole_send 0 10 ++ [CallRecv (-1); Receives PollReady; Receives PollReady; CallRecv 100; Receives PollReady] ++ whole_send 1 20.

(** It goes on; the second sender is interrupted before its first step of another
    call. *)
Definition put_back_signal : list (move Z) :=
  two_signals ++ [CallSend 1%nat 30; Receives PollReady; Receives PollReady; Receives (PollError EINTR); CallRecv 100; Receives PollReady; Receives PollReady].

Definition run_of (eventfd : bool) (room : Z) (moves : list (move Z)) : outcome (list (event Z) * system Z) :=
  let! s := new_system 2 in exec eventfd room moves s.

Definition loud (e : event Z) : bool := match e with Silent => false | _ => true end.

Definition posts_and_receipts (m : outcome (list (event Z) * system Z)) : option (list (event Z)) :=
  match m with Ok (es, _) => Some (filter (fun e => loud e = true) es) | _ => None end.

Example second_signal_is_put_back :
  posts_and_receipts (run_of true 0 put_back_signal) = Some [Posted 10; Received 10; Posted 20; Failed EINTR; Received 20].
Proof. vm_compute. reflexivity. Qed.

(** A socket pair that takes one byte only would not do. *)
Example one_byte_is_not_enough : run_of false 1 two_signals = Aborted "nbytes == sizeof (dummy)".
Proof. vm_compute. reflexivity. Qed.

Definition started : system Z := mkSystem (mkMailbox (mkChannel [] [] [] [] true false) 0 None false) [Outside; Outside] Away.

Definition ended (moves : list (move Z)) : list (event Z) * system Z :=
  match exec true 2 moves started with Ok x => x | _ => ([], started) end.

Lemma ended_run : exec true 2 put_back_signal started = Ok (ended put_back_signal).
Proof. vm_compute. reflexivity. Qed.

Lemma mailbox_refines_queue_witness :
  2 <= 2 /\ @new_system Z 2 = Ok started /\ run true 2 started (ended put_back_signal).1 (ended put_back_signal).2 /\
  queue_run [] (ended put_back_signal).1 (unread (ended put_back_signal).2).
Proof.
  destruct (mailbox_refines_queue (T := Z) true 2 ltac:(lia) 2) as (s0 & E0 & H). injection E0 as <-.
  assert (Hr : run true 2 started (ended put_back_signal).1 (ended put_back_signal).2).
  { apply (exec_run true 2 put_back_signal). exact ended_run. }
  split; [lia|]. split; [reflexivity|]. split; [exact Hr|]. exact (proj1 (H _ _ Hr)).
Defined.

(** The reader is about to take the first signal, the second one has been sent, and
    three commands wait. *)
Definition three_wait : list (move Z) := two_signals ++ quiet_send 0 30 ++ quiet_send 1 40.

Definition three_waiting : system Z :=
  mkSystem (mkMailbox (mkChannel [] [20; 30; 40] [] [] false false) 2 None false) [Outside; Outside] (Draining 100).

Definition three_wait_events : list (event Z) :=
  Silent :: Silent :: Posted 10 :: replicate 6 Silent ++ Received 10 :: replicate 4 Silent ++ Posted 20 :: replicate 6 Silent ++
  Posted 30 :: replicate 4 Silent ++ [Posted 40; Silent; Silent].

Lemma three_wait_run : exec true 2 three_wait started = Ok (three_wait_events, three_waiting).
Proof. vm_compute. reflexivity. Qed.

Lemma mailbox_loses_no_wakeup_witness :
  exists s1, recvs true 2 [0; 0; 0] three_waiting = Ok ([Some (Received 20); Some (Received 30); Some (Received 40)], s1) /\
    forall t, exists s2, recv true 2 t s1 = Ok (if 0 <=? timeout_of t s1 then Some (Failed EAGAIN) else None, s2).
Proof.
  exact (mailbox_loses_no_wakeup (T := Z) true 2 ltac:(lia) 2 started three_wait_events three_waiting [0; 0; 0] eq_refl
    (exec_run true 2 three_wait started _ _ three_wait_run) ltac:(repeat constructor) eq_refl).
Defined.
