(* ===== verification/SocketRuns.v ===== *)
(** * Runs of the sockets and of the objects behind them

    Inputs at which the theorems about fair queues, load balancers, sockets and
    owned objects are used, and runs that do not go as they should; a module per
    component. *)

From stdpp Require Import gmap gmultiset list relations sorting tactics.
From S2P Require Prelude ZmqTables Trie TrieTheorems Mtrie MtrieTheorems MtrieRefinement Msg MsgTheorems Array Pipes Dist DistTheorems Pipe SocketPipes DistRefinement Rotation Fq Lb FqTheorems LbTheorems Xpub XpubTheorems Listening Xsub XsubTheorems Req ReqTheorems Routes Router Rep RouterTheorems RouterPeers RepTheorems Own OwnTree OwnSteps OwnTheorems.

(** ** Runs of the fair queue over the pipes of a socket *)

Module FqRuns.
Import Prelude Msg MsgTheorems Array Pipes Rotation Pipe SocketPipes Fq FqTheorems.

Definition no_memory : memory := mkMemory ∅ [].

Definition text (c : ascii) : msg_t := mkMsgT (Vsm [c]) 0.
Definition first_part (c : ascii) : msg_t := mkMsgT (Vsm [c]) 1.

(** Three pipes; a message of two parts waits in the third one, others in the first. *)
Definition three_senders : socket_pipes :=
  arrive 31 (text "d") (arrive 31 (first_part "c") (arrive 11 (text "b") (arrive 11 (text "a")
    (plug 1 11 12 0 (plug 2 21 22 0 (plug 3 31 32 0 no_pipes)))))).

Lemma three_senders_ok : socket_ok three_senders.
Proof. do 4 apply arrive_ok. repeat (apply plug_ok; [|done..]). apply no_pipes_ok. Qed.

Definition attached_fq : fq_t := mkFq (mkRotation (mkArray [1; 2; 3] {[1 := 0; 2 := 1; 3 := 2]}) 3 0) false.

Lemma attached_turn : turn (rot attached_fq) [1; 2; 3] [] [].
Proof.
  split; try done; [|by exists []]. split; [by intros [|[|[|i]]] p [= <-]|by vm_compute].
Qed.

Lemma member_three q : q ∈ [1; 2; 3] -> attached three_senders q.
Proof. intros [->|[->|[->|[]%elem_of_nil]%elem_of_cons]%elem_of_cons]%elem_of_cons; by eexists. Qed.

Lemma attached_world : fq_world (rot attached_fq) three_senders.
Proof. split; [apply three_senders_ok|]. intros q. apply member_three. Qed.

Lemma fq_serves_in_turn_witness :
  let t := settle (waiting three_senders) (count ([1; 2; 3], [])) ([1; 2; 3], []) in
  exists rc m o fq' w' h' P', recvpipe init attached_fq three_senders no_memory = Ok (rc, m, o, fq', w', h') /\ balanced [] h'
    /\ match t.1 with
       | [] => rc = -1 /\ m = init /\ o = None /\ turn (rot fq') [] [] P' /\ (forall x, attached three_senders x -> inbox w' x = inbox three_senders x)
       | q :: _ => rc = 0 /\ o = Some q /\ inbox three_senders q = m :: inbox w' q /\ (forall x, attached three_senders x -> x <> q -> inbox w' x = inbox three_senders x)
           /\ let t' := if has_flag more m then t else next_turn t in turn (rot fq') t'.1 t'.2 P'
       end.
Proof.
  apply (fq_serves_in_turn init [] attached_fq three_senders no_memory [1; 2; 3] [] []); [apply attached_turn|apply attached_world|done|done| |done].
  by apply balanced_nothing.
Defined.

(** The third pipe is served before a third message of the others is complete. *)
Lemma fq_is_fair_witness : exists l, receives [three_senders; three_senders] attached_fq no_memory = Ok l /\ length l = 2%nat
  /\ Forall (fun x => is_Some x.2) l /\ ((forall x, x ∈ l -> x.2 <> Some 3) -> (finals l <= 2)%nat).
Proof.
  apply (fq_is_fair 3 2 [three_senders; three_senders] attached_fq no_memory [1; 2; 3] [] []); [apply attached_turn|done| |].
  - assert (Hs : pipes_ok three_senders /\ (forall q, q ∈ [1; 2; 3] ++ [] ++ [] -> attached three_senders q) /\ waiting three_senders 3 = true).
    { split; [apply three_senders_ok|]. split; [intros q; apply member_three|done]. }
    constructor; [exact Hs|constructor; [exact Hs|constructor]].
  - split; [done|]. vm_compute. done.
Defined.

Definition a_day : list (fq_op (W := socket_pipes)) := [Attach 1; Attach 2; Attach 3; Receive three_senders; Terminated 1; Receive three_senders].

Lemma fq_legal_cons (o : fq_op (W := socket_pipes)) os fq h s' : fq_legal o fq -> run_fq o (fq, h) = Ok s' -> fq_legal_calls os s' -> fq_legal_calls (o :: os) (fq, h).
Proof. intros Ho E Hs. split; [done|]. by rewrite E. Qed.

Lemma sublist_members (r : rotation) : forallb (fun q => bool_decide (q ∈ [1; 2; 3])) (items (pipes r)) = true -> fq_world r three_senders.
Proof.
  intros Hr. split; [apply three_senders_ok|]. intros q Hq. apply member_three. rewrite forallb_forall in Hr.
  apply (bool_decide_unpack _), Is_true_true. apply Hr. by apply list_elem_of_In.
Qed.

Ltac by_membership := unfold fq_legal, member; apply (bool_decide_unpack _); by vm_compute.
Ltac new_pipe := split; [by_membership|by vm_compute].

Lemma fq_refines_turns_witness : exists fq' h' t' P', run_fqs a_day (new_fq, no_memory) = Ok (fq', h')
  /\ turn (rot fq') t'.1 t'.2 P' /\ turn_run (([], []), []) a_day (t', P').
Proof.
  apply (fq_refines_turns a_day no_memory). do 3 (eapply fq_legal_cons; [new_pipe|vm_compute; reflexivity|]).
  eapply fq_legal_cons; [split; [by apply sublist_members|done]|vm_compute; reflexivity|].
  eapply fq_legal_cons; [by_membership|vm_compute; reflexivity|].
  eapply fq_legal_cons; [split; [by apply sublist_members|done]|vm_compute; reflexivity|done].
Defined.

(** *** A pipe that leaves in the middle of a message *)

(** The calls of a socket on its fair queue; the pipes change as the reads change
    them. *)
Fixpoint reads (n : nat) (fq : fq_t) (w : socket_pipes) : outcome (list (msg_t * option Z) * fq_t * socket_pipes) :=
  match n with
  | O => Ok ([], fq, w)
  | S n' =>
      let! (_, m, o, fq, w, _) := recvpipe init fq w no_memory in
      let! (l, fq, w) := reads n' fq w in
      Ok ((m, o) :: l, fq, w)
  end.

(** The third pipe has its turn, and its first part is read; then the second pipe,
    which has nothing to do with the message, leaves.  The part that is read next
    is a message of the first pipe. *)
Theorem leaving_pipe_cuts_message :
  (let fq := mkFq (mkRotation (pipes (rot attached_fq)) 3 2) false in
   let! (l1, fq, w) := reads 1 fq three_senders in
   let! fq := terminated 2 fq in
   let! (l2, _, _) := reads 1 fq w in
   Ok (l1, l2)) = Ok ([(first_part "c", Some 3)], [(text "a", Some 1)]).
Proof. vm_compute. reflexivity. Qed.

End FqRuns.

(** ** Runs of the load balancer over the pipes of a socket *)

Module LbRuns.
Import Prelude Msg Array Pipes Rotation Pipe SocketPipes Lb LbTheorems.

Definition no_memory : memory := mkMemory ∅ [].

Definition text (c : ascii) : msg_t := mkMsgT (Vsm [c]) 0.
Definition a_part (c : ascii) : msg_t := mkMsgT (Vsm [c]) 1.

(** Two pipes; the first one takes one message only. *)
Definition two_receivers : socket_pipes := plug 1 11 12 1 (plug 2 21 22 0 no_pipes).

Lemma two_receivers_ok : socket_ok two_receivers.
Proof. repeat (apply plug_ok; [|done..]). apply no_pipes_ok. Qed.

Definition attached_lb : lb_t := mkLb (mkRotation (mkArray [1; 2] {[1 := 0; 2 := 1]}) 2 0) false false.

Lemma two_attached_turn : turn (rot attached_lb) [1; 2] [] [].
Proof. split; try done; [|by exists []]. split; [by intros [|[|i]] p [= <-]|by vm_compute]. Qed.

Lemma two_attached_world : lb_world (rot attached_lb) two_receivers.
Proof. split; [apply two_receivers_ok|]. intros q [->|[->|[]%elem_of_nil]%elem_of_cons]%elem_of_cons; by eexists. Qed.

Lemma lb_sends_once_witness : exists k rc m' lb' w' P', send (text "a") attached_lb two_receivers no_memory = Ok (rc, m', lb', w', no_memory)
  /\ taken (skipped k ([1; 2], [])) (text "a") two_receivers w' /\ (more_parts attached_lb = true -> k = 0%nat)
  /\ match skipped k ([1; 2], []) with
     | ([], _) => rc = -1 /\ m' = text "a" /\ turn (rot lb') [] [] P'
     | (q :: A', B') => rc = 0 /\ m' = init /\ more_parts lb' = has_flag more (text "a")
         /\ let t' := if has_flag more (text "a") then (q :: A', B') else next_turn (q :: A', B') in turn (rot lb') t'.1 t'.2 P'
     end.
Proof. apply (lb_sends_once (text "a") attached_lb two_receivers no_memory [1; 2] [] []); [apply two_attached_turn|apply two_attached_world|done|done]. Defined.

Lemma lb_keeps_messages_whole_witness : exists rc lb' w',
  send_parts ([a_part "a"; a_part "b"] ++ [text "c"]) attached_lb two_receivers no_memory = Ok (rc, lb', w', no_memory)
  /\ ((rc = -1 /\ forall x, attached two_receivers x -> outbox w' x = outbox two_receivers x)
      \/ (rc = 0 /\ more_parts lb' = false
          /\ exists q, member (pipes (rot attached_lb)) q /\ arrived_at q ([a_part "a"; a_part "b"] ++ [text "c"]) two_receivers w')).
Proof.
  apply (lb_keeps_messages_whole [a_part "a"; a_part "b"] (text "c") attached_lb two_receivers no_memory [1; 2] [] []);
    [apply two_attached_turn|apply two_attached_world|done|done|by repeat constructor|done].
Defined.

(** The second message finds the first pipe full and goes to the second one. *)
Example full_pipe_is_skipped : (let! (_, _, lb, w, h) := send (text "a") attached_lb two_receivers no_memory in
  let! (_, _, lb, w, h) := send (text "b") lb w h in
  let! (_, _, lb, w, h) := send (text "c") lb w h in
  Ok (outbox_of w 1, outbox_of w 2, items (pipes (rot lb)), active (rot lb))) = Ok ([text "a"], [text "b"; text "c"], [2; 1], 1).
Proof. vm_compute. reflexivity. Qed.

(** *** A peer that closes in the middle of a message *)

(** The command [pipe_term] of the peer of [p]. *)
Definition peer_terminates (p : Z) (w : socket_pipes) : outcome socket_pipes :=
  let! (_, w) := on_pipe p (fun v => process_command pipe_term v) w in Ok w.

(** Between two parts of a message the peer of the current pipe terminates.  The
    pipe waits for its delimiter then and refuses the next part, and the assertion
    that a pipe never refuses in the middle of a message stops the process. *)
Theorem closing_peer_aborts_sender :
  (let! (_, _, lb, w, h) := send (a_part "a") attached_lb two_receivers no_memory in
   let! w := peer_terminates 1 w in
   let! (rc, _, _, _, _) := send (text "b") lb w h in Ok rc) = Aborted "!more".
Proof. vm_compute. reflexivity. Qed.

End LbRuns.

(** ** Runs of the publishing sockets over the pipes of a socket

    Two subscribers; the inputs at which the theorems of [XpubTheorems] are used,
    and a subscriber that stops the publisher. *)

Module XpubRuns.
Import Prelude ZmqTables Mtrie MtrieTheorems MtrieRefinement Msg MsgTheorems Array Pipes Dist DistTheorems Pipe SocketPipes DistRefinement Xpub XpubTheorems.

Abbreviation xop := (xpub_op (W := socket_pipes)).

(** The subscription to the topic a, and its end. *)
Definition subscribe_a : msg_t := mkMsgT (Vsm [chr 1; "a"%char]) 0.
Definition unsubscribe_a : msg_t := mkMsgT (Vsm [chr 0; "a"%char]) 0.

(** The first pipe brings the subscription. *)
Definition subscribing : socket_pipes := arrive 11 subscribe_a three_pipes.

Lemma subscribing_ok : socket_ok subscribing.
Proof. apply arrive_ok, three_pipes_ok. Qed.

Definition two_joined : pub_state := mkPub ∅ {[1 := Active; 2 := Active]} false [] false.
Definition one_subscribed : pub_state := mkPub {[ ["a"%char] := {[1]} ]} {[1 := Active; 2 := Active]} false [] false.

Definition joins : list xop := [Attach 1 false three_pipes no_memory; Attach 2 false three_pipes no_memory; ReadActivated 1 subscribing no_memory].

Lemma legal_then ty (o : xop) os s s' : xpub_legal o s -> promised_op ty o s = Ok s' -> xpub_legals ty os s' -> xpub_legals ty (o :: os) s.
Proof. intros Ho E Hs. split; [done|]. by rewrite E. Qed.

Lemma nothing_waits p : inbox three_pipes p = [] -> subs_ready three_pipes p no_memory.
Proof.
  intros E. exists [], []. rewrite E. split; [constructor|]. split; [|by vm_compute]. done.
Qed.

Lemma world_two (w : socket_pipes) s : socket_ok w -> (forall q, is_Some (classes_of s !! q) -> q = 1 \/ q = 2) -> is_Some (ends w !! 1) -> is_Some (ends w !! 2) -> world_of w s.
Proof. intros Hw Hs H1 H2. split; [done|]. by intros q [-> | ->]%Hs. Qed.

Lemma members_two c c' q : is_Some (({[1 := c; 2 := c']} : gmap Z class) !! q) -> q = 1 \/ q = 2.
Proof. intros [x [[-> _]|[_ [-> _]%lookup_singleton_Some]]%lookup_insert_Some]; auto. Qed.

Lemma joins_legal : xpub_legals ZMQ_PUB joins no_subscribers.
Proof.
  apply (legal_then _ _ _ _ (joining 1 no_subscribers)); [|done|].
  { split; [done|]. split; [by vm_compute|]. split; [split; [apply three_pipes_ok|]|]; [|split; [by eexists|by apply nothing_waits]].
    intros q Hq. cbn in Hq. by apply lookup_empty_is_Some in Hq. }
  apply (legal_then _ _ _ _ two_joined); [|by vm_compute|].
  { split; [done|]. split; [by vm_compute|]. split; [|split; [by eexists|by apply nothing_waits]]. apply world_two; [apply three_pipes_ok| |by eexists..].
    intros q Hq. left. cbn in Hq. destruct (decide (q = 1)) as [|Hne]; [done|]. rewrite lookup_insert_ne in Hq by done. by apply lookup_empty_is_Some in Hq. }
  apply (legal_then _ _ _ _ one_subscribed); [|by vm_compute|done].
  split; [by eexists|]. split; [apply world_two; [apply subscribing_ok|apply members_two|by eexists..]|].
  exists [], [[chr 1; "a"%char]]. assert (E : inbox subscribing 1 = [subscribe_a]) by (by vm_compute). rewrite E. split; [by repeat constructor|].
  split; [|by vm_compute]. apply balanced_nothing; [done|]. done.
Qed.


(** A message of two parts for the topic. *)
Definition first_part : msg_t := mkMsgT (Vsm ["a"%char; "b"%char]) more.
Definition second_part : msg_t := mkMsgT (Vsm ["c"%char]) 0.

Definition publisher : xpub_t := match run_xpubs joins new_pub with Ok x => x | _ => new_pub end.

Lemma publisher_rel : xpub_rel publisher one_subscribed subscribing.
Proof.
  pose proof (run_xpubs_ok ZMQ_PUB joins new_pub no_subscribers (new_like _ three_pipes three_pipes_ok) joins_legal) as HP.
  assert (E : promised_ops ZMQ_PUB joins no_subscribers = Ok one_subscribed) by (by vm_compute). rewrite E in HP. destruct HP as (x & Ex & _ & _ & Hx).
  replace publisher with x by (unfold publisher; by rewrite Ex). apply Hx. apply world_two; [apply subscribing_ok|apply members_two|by eexists..].
Qed.

Lemma xpub_delivers_witness : exists parts' x' s' w' h' ns, xsends ([first_part] ++ [second_part]) publisher subscribing no_memory = Ok (x', w', h')
  /\ Forall2 same_part ([first_part] ++ [second_part]) parts'
  /\ xpub_rel x' s' w' /\ in_message s' = false /\ topics_of s' = topics_of one_subscribed
  /\ (forall q c, classes_of one_subscribed !! q = Some c ->
      if decide (q ∈ subscribers (topics_of one_subscribed) ["a"%char; "b"%char] /\ c = Active)
      then if taking subscribing q then outbox w' q = outbox subscribing q ++ parts' /\ classes_of s' !! q = Some Active
           else outbox w' q = outbox subscribing q /\ classes_of s' !! q = Some Passive
      else outbox w' q = outbox subscribing q /\ classes_of s' !! q = Some c)
  /\ balanced (concat (zip_with replicate ns parts') ++ []) h'.
Proof.
  apply (xpub_delivers (W := socket_pipes)); [apply publisher_rel|done|by repeat constructor|done|by repeat constructor| |by vm_compute|by intros m rest [= <- _]].
  cbn [app]. do 2 (apply balanced_nothing; [done|]). done.
Defined.

(** Both parts are in the first pipe, and none in the second. *)
Example only_the_subscriber : (let! (_, w, _) := xsends [first_part; second_part] publisher subscribing no_memory in Ok (outbox_of w 1, outbox_of w 2))
  = Ok ([first_part; second_part], []).
Proof. vm_compute. reflexivity. Qed.

(** The second pipe ends a subscription that only the first one has. *)
Definition unsubscribing : list xop := joins ++ [ReadActivated 2 (arrive 21 unsubscribe_a three_pipes) no_memory].

(** An unsubscription is not checked: a peer that unsubscribes from a topic
    that it is not subscribed to, but another peer is, stops the publisher with a
    failed assertion. *)
Theorem peer_aborts_publisher : run_xpubs unsubscribing new_pub = Aborted "erased == 1".
Proof. vm_compute. reflexivity. Qed.

End XpubRuns.

(** ** Runs of the subscribing sockets over the pipes of a socket

    A subscriber of one topic with three publishers; the inputs at which the
    theorems of [XsubTheorems] are used. *)

Module XsubRuns.
Import Prelude ZmqTables Trie TrieTheorems Msg MsgTheorems Array Pipes Rotation Pipe SocketPipes Fq FqTheorems FqRuns Listening Dist Xsub XsubTheorems.

(** The subscription to the topic b. *)
Definition topic_b : gmultiset bytes := {[+ ["b"%char] +]}.

Definition trie_b : trie_t := match Trie.add ["b"%char] new_trie with Ok (_, t) => t | _ => new_trie end.

Lemma trie_b_represents : represents trie_b topic_b.
Proof.
  destruct (perform_promised 0 (Add ["b"%char]) new_trie ∅ ltac:(by vm_compute) represents_new) as (t & E & Ht & _); [intros k; by rewrite multiplicity_empty|].
  cbn [perform promised fst snd] in *. unfold trie_b. destruct (Trie.add _ _) as [[b t']| |]; try discriminate. cbn [obind] in E. injection E as _ ->.
  by rewrite (left_id_L ∅ _) in Ht.
Qed.

Definition subscriber : xsub_t := mkXsub attached_fq new_dist trie_b false init false true.

Lemma three_pipes_ready : listening init [] (fq subscriber) three_senders no_memory ([1; 2; 3], []) [1; 2; 3].
Proof.
  assert (E1 : inbox three_senders 1 = [text "a"; text "b"]) by (by vm_compute). assert (E2 : inbox three_senders 2 = []) by (by vm_compute).
  assert (E3 : inbox three_senders 3 = [first_part "c"; text "d"]) by (by vm_compute).
  split; [exists []; split; [apply attached_turn|done]|].
  assert (Epi : in_pipes [1; 2; 3] three_senders = [text "a"; text "b"; first_part "c"; text "d"]) by (unfold in_pipes; cbn [map concat]; by rewrite E1, E2, E3).
  split; rewrite ?Epi; try done.
  - split; [apply three_senders_ok|apply member_three].
  - intros m Hm. repeat (apply elem_of_cons in Hm as [->|Hm]; [by eexists|]). by apply elem_of_nil in Hm.
  - intros q Hq. repeat (apply elem_of_cons in Hq as [->|Hq]); [rewrite E1|rewrite E2|rewrite E3|by apply elem_of_nil in Hq]; by intros m [= <-].
Qed.

Lemma xsub_filters_witness : exists rc m f' b w' h' t',
  xrecv (Datatypes.S (length (in_pipes [1; 2; 3] three_senders))) init subscriber three_senders no_memory = Ok (rc, m, with_more b (with_fq f' subscriber), w', h')
  /\ listening m [] f' w' h' t' [1; 2; 3] /\ b = Fq.more_parts f'
  /\ (rc = -1 /\ m = init /\ b = false /\ (forall q, q ∈ [1; 2; 3] -> filtered topic_b no_memory three_senders w' q) /\ (forall q, q ∈ ([1; 2; 3] ++ []) -> inbox w' q = [])
      \/ rc = 0 /\ b = has_flag more m /\ exists q, passed topic_b subscriber m q no_memory three_senders w' [1; 2; 3]).
Proof.
  apply (xsub_filters (W := socket_pipes) init [] subscriber three_senders no_memory ([1; 2; 3], []) [1; 2; 3] topic_b); [apply three_pipes_ready|done|done|apply trie_b_represents].
Defined.

(** The message a and the message of two parts are dropped. *)
Example receives_b : (let! (rc, m, x, w, h) := xrecv 5 init subscriber three_senders no_memory in Ok (rc, m, more_parts x, map (inbox_of w) [1; 2; 3]))
  = Ok (0, text "b", false, [[]; []; []]).
Proof. vm_compute. reflexivity. Qed.

Lemma xhas_in_prefetches_witness :
  xhas_in 5 subscriber three_senders no_memory = (let! (rc, m, x', w', h') := xrecv 5 (message subscriber) subscriber three_senders no_memory in
                        Ok (rc =? 0, with_message (rc =? 0) m (with_more false x'), w', h'))
  /\ (forall m x' w' h' h'' closed, xrecv 5 (message subscriber) subscriber three_senders no_memory = Ok (0, m, x', w', h') -> check m = true -> close init h' = Ok (0, closed, h'') ->
      xrecv 5 init (with_message true m (with_more false x')) w' h' = Ok (0, m, with_more (has_flag more m) (with_message false init x'), w', h'')).
Proof. apply (xhas_in_prefetches (W := socket_pipes) 5 init subscriber three_senders no_memory); done. Defined.

End XsubRuns.

(** ** Runs of the request socket over the pipes of a socket

    The inputs at which the theorems of [ReqTheorems] are used, and the reply
    that stops a socket. *)

Module ReqRuns.
Import Prelude Msg MsgTheorems Array Pipes Rotation Pipe SocketPipes Fq FqTheorems FqRuns Lb LbTheorems Listening Req ReqTheorems.

(** One peer, and the same peer with a reply of two parts and the first part of
    the next one. *)
Definition one_peer : socket_pipes := plug 1 11 12 0 no_pipes.
Definition identity_part (c : ascii) : msg_t := mkMsgT (Vsm [c]) 64.
Definition with_reply : socket_pipes :=
  arrive 11 (text "e") (arrive 11 (text "d") (arrive 11 (first_part "c") (arrive 11 bottom_part (arrive 11 (identity_part "i") one_peer)))).

Definition one_lb : lb_t := mkLb (mkRotation (mkArray [1] {[1 := 0]}) 1 0) false false.
Definition one_fq : fq_t := mkFq (mkRotation (mkArray [1] {[1 := 0]}) 1 0) false.
Definition asking : req_t := mkReq (mkDealer one_fq one_lb false init) false true.
Definition awaiting : req_t := mkReq (mkDealer one_fq one_lb false init) true true.

Lemma one_peer_ok : socket_ok one_peer.
Proof. apply plug_ok; [apply no_pipes_ok|done..]. Qed.

Lemma with_reply_ok : socket_ok with_reply.
Proof. do 5 apply arrive_ok. apply one_peer_ok. Qed.

Lemma one_turn : turn (mkRotation (mkArray [1] {[1 := 0]}) 1 0) [1] [] [].
Proof. split; try done; [|by exists []]. split; [by intros [|i] p [= <-]|by vm_compute]. Qed.

Lemma asking_may : may_request asking one_peer.
Proof.
  repeat (split; [done|]). exists [1], [], []. split; [apply one_turn|]. split; [apply one_peer_ok|].
  intros q Hq. change (q ∈ [1]) in Hq. apply list_elem_of_singleton in Hq as ->. by eexists.
Qed.

Lemma req_sends_request_witness : exists r l' w', req_sends ([first_part "a"] ++ [text "b"]) asking one_peer no_memory
    = Ok (r, mkReq (with_lb l' (dealer asking)) (bool_decide (r = Done)) true, w', no_memory)
  /\ (r = EAGAIN /\ (forall q, attached one_peer q -> outbox w' q = outbox one_peer q)
      \/ r = Done /\ exists q, member (pipes (rot (lb (dealer asking)))) q /\ arrived_at q (bottom_part :: [first_part "a"] ++ [text "b"]) one_peer w').
Proof.
  apply (req_sends_request (W := socket_pipes) [first_part "a"] (text "b") asking one_peer no_memory); [apply asking_may|by constructor|done].
Defined.

Lemma awaiting_listens : listening init [] (fq (dealer awaiting)) with_reply no_memory ([1], []) [1].
Proof.
  assert (E1 : inbox with_reply 1 = [identity_part "i"; bottom_part; first_part "c"; text "d"; text "e"]) by (by vm_compute).
  assert (Epi : in_pipes [1] with_reply = [identity_part "i"; bottom_part; first_part "c"; text "d"; text "e"]) by (unfold in_pipes; cbn [map concat]; by rewrite E1, app_nil_r).
  split; [exists []; split; [apply one_turn|done]|].
  split; rewrite ?Epi; try done.
  - split; [apply with_reply_ok|]. intros q ->%list_elem_of_singleton. by eexists.
  - intros m Hm. repeat (apply elem_of_cons in Hm as [->|Hm]; [by eexists|]). by apply elem_of_nil in Hm.
  - intros q ->%list_elem_of_singleton. rewrite E1. by intros m [= <-].
Qed.


(** A call in turn, one that is too early, the reply, and the next request. *)
Definition a_dialogue : list (call (W := socket_pipes)) :=
  [Recv 2 init one_peer no_memory; Send (text "a") one_peer no_memory; Send (text "b") one_peer no_memory; Recv 2 init with_reply no_memory].


(** *** A reply of one part

    Nothing between two sockets of one process checks the form of a reply.  The
    part without the flag [more] is a malformed reply, and [xrecv] reads the rest
    of it, although it has none: the next receive fails, and the assertion behind
    it stops the process. *)
Theorem lone_part_stops_req : req_xrecv 3 init awaiting (arrive 11 (text "x") one_peer) no_memory = Aborted "rc == 0".
Proof. vm_compute. reflexivity. Qed.

(** With the first part of another message behind it, that message is lost too. *)
Theorem malformed_reply_takes_next :
  (let! (r, m, _, w, _) := req_xrecv 3 init awaiting (arrive 11 (text "y") (arrive 11 (text "x") one_peer)) no_memory in Ok (r, m, inbox_of w 1)) = Ok (EAGAIN, init, []).
Proof. vm_compute. reflexivity. Qed.

End ReqRuns.

(** ** Runs of the router and of the reply socket over the pipes of a socket

    The inputs at which the theorems of [RouterTheorems], [RouterPeers] and
    [RepTheorems] are used, and what goes wrong with peers that do not follow the
    protocol. *)

Module RouterRuns.
Import Prelude Msg MsgTheorems Array Pipe SocketPipes Pipes Routes Rotation Fq FqTheorems FqRuns ReqRuns Listening Router RouterTheorems RouterPeers Rep RepTheorems.

(** There is always memory. *)
Definition plenty : Z -> bool := fun _ => true.

Definition named (p : Z) (c : ascii) (w : socket_pipes) : socket_pipes := mkPipes (alter (set_identity [c]) p (ends w)) (ypipes w) (sent w).

(** The pipe is told that there are messages. *)
Definition woken (p : Z) (w : socket_pipes) : socket_pipes := mkPipes (alter (with_in_active true) p (ends w)) (ypipes w) (sent w).

Lemma alter_ok f p w : (forall e, inpipe (f e) = inpipe e /\ outpipe (f e) = outpipe e /\ state (f e) = state e) -> socket_ok w -> socket_ok (mkPipes (alter f p (ends w)) (ypipes w) (sent w)).
Proof.
  intros Hf [O1 O2 O3 O4 O5]. assert (Hl : forall q e, alter f p (ends w) !! q = Some e -> exists e0, ends w !! q = Some e0 /\ inpipe e = inpipe e0 /\ outpipe e = outpipe e0 /\ state e = state e0).
  { intros q e. destruct (decide (q = p)) as [->|Hne]; [rewrite lookup_alter_eq|rewrite lookup_alter_ne by done; intros He; by exists e].
    destruct (ends w !! p) as [e0|] eqn:E; [|done]. intros [= <-]. exists e0. by destruct (Hf e0). }
  split.
  - intros q e (e0 & E & -> & _)%Hl. by apply (O1 q).
  - intros q e (e0 & E & _ & -> & ->)%Hl. by apply (O2 q).
  - intros q e (e0 & E & -> & -> & _)%Hl. by apply (O3 q).
  - intros q e a (e0 & E & Hi & Ho & _)%Hl. unfold owns. rewrite Hi, Ho. by apply (O4 q).
  - intros q q' e e' a (e0 & E & Hi & Ho & _)%Hl (e1 & E1 & Hi1 & Ho1 & _)%Hl. unfold owns. rewrite Hi, Ho, Hi1, Ho1. by apply (O5 q q' e0 e1).
Qed.

Lemma named_ok p c w : socket_ok w -> socket_ok (named p c w).
Proof. by apply alter_ok. Qed.

Lemma woken_ok p w : socket_ok w -> socket_ok (woken p w).
Proof. by apply alter_ok. Qed.

(** Two peers, [a] and [b].  The first one said its name again; of the second one
    two requests wait, one that came by another peer and one of its own. *)
Definition two_peers : socket_pipes := named 2 "b" (named 1 "a" (plug 1 11 12 0 (plug 2 21 22 0 no_pipes))).
Definition with_requests : socket_pipes :=
  arrive 21 (text "t") (arrive 21 Req.bottom_part (arrive 21 (text "s") (arrive 21 (first_part "r") (arrive 21 Req.bottom_part (arrive 21 (first_part "x") (arrive 11 (identity_part "a") two_peers)))))).

Lemma two_peers_ok : socket_ok two_peers.
Proof. do 2 apply named_ok. repeat (apply plug_ok; [|done..]). apply no_pipes_ok. Qed.

Lemma with_requests_ok : socket_ok with_requests.
Proof. do 7 apply arrive_ok. apply two_peers_ok. Qed.

Definition two_fq : fq_t := mkFq (mkRotation (mkArray [1; 2] {[1 := 0; 2 := 1]}) 2 0) false.
Definition two_router (mandatory_ : bool) : router_t :=
  mkRouter two_fq false false init init false ∅ {[ ["a"%char] := mkOutpipe 1 true; ["b"%char] := mkOutpipe 2 true ]} None false 7 mandatory_.
Definition two_rep : rep_t := mkRep (two_router false) false true.

Lemma two_turn : turn (rot two_fq) [1; 2] [] [].
Proof. split; try done; [|by exists []]. split; [by intros [|[|i]] p [= <-]|by vm_compute]. Qed.

Lemma in_two q : q ∈ [1; 2] -> q = 1 \/ q = 2.
Proof. intros [->|[->|[]%elem_of_nil]%elem_of_cons]%elem_of_cons; auto. Qed.

(** *** Routing *)

Lemma router_routes_witness : exists w' h', router_sends (first_part "b" :: [first_part "c"] ++ [text "d"]) (two_router true) two_peers no_memory
    = Ok (Done, with_outpipes (passive ["b"%char] (two_router true) two_peers) (two_router true), w', h')
  /\ sent_to (routed ["b"%char] (two_router true) two_peers) ([first_part "c"] ++ [text "d"]) two_peers w'
  /\ balanced (kept (routed ["b"%char] (two_router true) two_peers) ([first_part "c"] ++ [text "d"]) ++ []) h'.
Proof.
  apply (router_routes (W := socket_pipes) (first_part "b") ["b"%char] [first_part "c"] (text "d") [] (two_router true) two_peers no_memory); try done.
  - apply two_peers_ok.
  - intros o. vm_compute. intros [= <-]. by eexists.
  - by constructor.
  - by repeat constructor.
Defined.

(** The parts arrived; without the peer the name is refused, or the message dropped. *)
Example second_peer_gets_it : routed ["b"%char] (two_router true) two_peers = Some 2.
Proof. by vm_compute. Qed.

Example unknown_peer_is_reported : router_xsend (first_part "z") (two_router true) two_peers no_memory = Ok (EHOSTUNREACH, first_part "z", two_router true, two_peers, no_memory).
Proof. by vm_compute. Qed.

(** *** Requests and replies *)

Lemma inbox_first : inbox with_requests 1 = [identity_part "a"].
Proof. by vm_compute. Qed.

Lemma inbox_second : inbox with_requests 2 = [first_part "x"; Req.bottom_part; first_part "r"; text "s"; Req.bottom_part; text "t"].
Proof. by vm_compute. Qed.

Lemma plain_not_last c : not_last (first_part c).
Proof. by split. Qed.

Lemma requests_second : requests no_memory [first_part "x"; Req.bottom_part; first_part "r"; text "s"; Req.bottom_part; text "t"].
Proof.
  apply (request_first no_memory [first_part "x"] Req.bottom_part [first_part "r"] (text "s") [Req.bottom_part; text "t"]).
  - split; [constructor; [split; [apply plain_not_last|by eexists]|constructor]|by split|by constructor; [apply plain_not_last|]|by split].
  - apply (request_first no_memory [] Req.bottom_part [] (text "t") []); [|constructor]. split; [constructor|by split|constructor|by split].
Qed.

Lemma two_rep_serves : serving init (([first_part "y"] ++ [text "z"]) ++ []) two_rep with_requests no_memory ([1; 2], []) [1; 2].
Proof.
  assert (Epi : in_pipes [1; 2] with_requests = identity_part "a" :: inbox with_requests 2) by (unfold in_pipes; cbn [map concat]; by rewrite inbox_first, app_nil_r).
  rewrite inbox_second in Epi. split; [done|split; [by split|by split| |]|].
  - split; [exists []; split; [apply two_turn|done]|]. split; rewrite ?Epi; try done.
    + split; [apply with_requests_ok|]. intros q [->| ->]%in_two; by eexists.
    + intros m Hm. repeat (apply elem_of_cons in Hm as [->|Hm]; [by eexists|]). by apply elem_of_nil in Hm.
    + intros q [->| ->]%in_two; rewrite ?inbox_first, ?inbox_second; by intros m [= <-].
  - intros q [->| ->]%in_two; (split; [done|split; [done|by eexists]]).
  - intros q [->| ->]%in_two; [rewrite inbox_first; constructor; [done|constructor]|rewrite inbox_second; apply requests_second].
Qed.

Lemma rep_answers_the_asker_witness :
  (exists m' r' w' h', rep_xrecv plenty 10 init two_rep with_requests no_memory = Ok (EAGAIN, m', with_router r' two_rep, w', h')
     /\ at_start r' /\ sending r' = sending (router two_rep) /\ no_request_waits with_requests w' ([1; 2], []) [1; 2])
  \/ exists q stack b body last rest x1 w1 h1 x2 w2 h2 t2, q ∈ [1; 2] /\ asked no_memory with_requests q stack b body last rest
     /\ rep_recvs plenty 10 (length (body ++ [last])) init two_rep with_requests no_memory = Ok (map (pair Done) (body ++ [last]), x1, w1, h1)
     /\ rep_sends ([first_part "y"] ++ [text "z"]) x1 w1 h1 = Ok (Done, x2, w2, h2)
     /\ replied q stack b ([first_part "y"] ++ [text "z"]) rest with_requests w2 [1; 2]
     /\ serving last (kept (way_to q with_requests) (stack ++ b :: [first_part "y"] ++ [text "z"]) ++ []) x2 w2 h2 t2 [1; 2].
Proof.
  apply (rep_answers_the_asker plenty (fun _ => eq_refl) init [] [first_part "y"] (text "z") two_rep with_requests no_memory ([1; 2], []) [1; 2] 10);
    [apply two_rep_serves|vm_compute; lia|by constructor|done|by repeat constructor].
Defined.

(** The reply to the request that came by [x] goes back behind [x] and the empty part. *)
Example reply_with_its_addresses :
  (let! (l, x, w, h) := rep_recvs plenty 10 2 init two_rep with_requests no_memory in
   let! (rc, x, w, h) := rep_sends [first_part "y"; text "z"] x w h in
   Ok (l, rc, outbox_of w 1, outbox_of w 2)) = Ok ([(Done, first_part "r"); (Done, text "s")], Done, [], [first_part "x"; Req.bottom_part; first_part "y"; text "z"]).
Proof. vm_compute. reflexivity. Qed.

(** Calls in turn and out of turn. *)
Definition rep_dialogue : list (rep_event (W := socket_pipes)) :=
  [Attached 2 (arrive 21 (identity_part "b") two_peers) no_memory; User_sends (text "y") two_peers no_memory; User_receives 10 init two_peers no_memory;
   Read_activated 2 two_peers no_memory; User_receives 10 init (arrive 21 (text "q") (arrive 21 Req.bottom_part two_peers)) no_memory; User_receives 10 init two_peers no_memory; User_sends (first_part "y") two_peers no_memory;
   Terminated 2 two_peers; User_sends (text "z") two_peers no_memory; User_sends (text "z") two_peers no_memory].


(** *** Peers that come and go *)

Definition first_says_a : socket_pipes := arrive 11 (identity_part "a") (plug 1 11 12 0 (plug 2 21 22 0 no_pipes)).

Lemma first_says_a_ok : socket_ok first_says_a.
Proof. apply arrive_ok. repeat (apply plug_ok; [|done..]). apply no_pipes_ok. Qed.

Lemma first_peers_ok : peers_ok (new_router 7) first_says_a.
Proof. apply new_router_ok, first_says_a_ok. Qed.

(** The state after events that run. *)
Definition after (es : list (router_event (W := socket_pipes))) : router_state :=
  match run_routers plenty es (new_router 7, first_says_a, no_memory) with Ok s => s | _ => (new_router 7, first_says_a, no_memory) end.

Lemma event_legal_cons e es s s' : router_legal plenty e s -> run_router (W := socket_pipes) plenty e s = Ok s' -> router_legal_events plenty es s' -> router_legal_events plenty (e :: es) s.
Proof. intros He E Hs. split; [done|]. by rewrite E. Qed.

Ltac decided := apply (bool_decide_unpack _); by vm_compute.
Ltac readable := let m := fresh in let Hm := fresh in intros m Hm; vm_compute in Hm; first [discriminate Hm | injection Hm as <-; eexists _, _, _, _; split; [vm_compute; reflexivity|split; [vm_compute; reflexivity|by vm_compute]]].

(** Two pipes are attached; the second one says nothing yet. *)
Lemma two_come_legal : router_legal_events (W := socket_pipes) plenty [Pipe_attached 1; Pipe_attached 2] (new_router 7, first_says_a, no_memory).
Proof.
  apply (event_legal_cons _ _ _ (after [Pipe_attached 1])); [|by vm_compute|].
  - split; [decided|]. split; [unfold in_queue, member; decided|]. split; [decided|]. split; [readable|by vm_compute].
  - apply (event_legal_cons _ _ _ (after [Pipe_attached 1; Pipe_attached 2])); [|by vm_compute|done].
    split; [decided|]. split; [unfold in_queue, member; decided|]. split; [decided|]. split; [readable|by vm_compute].
Qed.

Definition come : list (router_event (W := socket_pipes)) := [Pipe_attached 1; Pipe_attached 2].

(** Then the second one says its name, and both send. *)
Definition both_sent : socket_pipes := woken 2 (arrive 21 (text "s") (arrive 21 (identity_part "b") (arrive 11 (text "r") (after come).1.2))).

Lemma known_in (l : list Z) (r : router_t) p : forallb (fun q => bool_decide (q ∈ l)) (elements (anonymous_pipes r) ++ items (Rotation.pipes (rot (fq r)))) = true ->
  p ∈ anonymous_pipes r \/ in_queue r p -> p ∈ l.
Proof.
  intros Hr Hp. rewrite forallb_forall in Hr. apply (bool_decide_unpack _), Is_true_true, Hr, list_elem_of_In, elem_of_app. destruct Hp as [Hp|Hp]; [left; by apply elem_of_elements|by right].
Qed.

Lemma both_sent_ok : socket_ok both_sent.
Proof.
  apply woken_ok. do 3 apply arrive_ok. destruct (run_routers_ok plenty come (new_router 7) first_says_a no_memory first_peers_ok two_come_legal) as (r & w & h & E & Hok).
  unfold after. rewrite E. apply Hok.
Qed.

Definition a_life : list (router_event (W := socket_pipes)) :=
  come ++ [Elsewhere both_sent no_memory; Pipe_readable 2; Send_part (first_part "a"); Send_part (text "q"); Receive_part 5 init; Receive_part 5 init; Pipe_gone 1].

Definition at_step (n : nat) : router_state := after (take n a_life).

(** Calls of the user that return. *)
Lemma sending_legal m s : is_ok (let '(r, w, h) := s in router_xsend m r w h) = true -> router_legal (W := socket_pipes) plenty (Send_part m) s.
Proof. destruct s as [[r w] h]. cbn [router_legal]. destruct (router_xsend m r w h) as [x| |]; [by exists x|done..]. Qed.

Lemma receiving_legal fuel m s : is_ok (let '(r, w, h) := s in router_xrecv plenty fuel m r w h) = true -> router_legal (W := socket_pipes) plenty (Receive_part fuel m) s.
Proof. destruct s as [[r w] h]. cbn [router_legal]. destruct (router_xrecv plenty fuel m r w h) as [x| |]; [by exists x|done..]. Qed.

Lemma going_legal p s : bool_decide (p ∈ items (Rotation.pipes (rot (fq s.1.1)))) = true -> router_legal (W := socket_pipes) plenty (Pipe_gone p) s.
Proof. destruct s as [[r w] h]. intros Hp%bool_decide_eq_true. by right. Qed.

Lemma elsewhere_legal w' h' s l : socket_ok w' ->
  forallb (fun q => bool_decide (q ∈ l)) (elements (anonymous_pipes s.1.1) ++ items (Rotation.pipes (rot (fq s.1.1)))) = true ->
  forallb (fun q => bool_decide (is_Some (ends w' !! q)) && bool_decide (identity_at w' q = identity_at s.1.2 q)) l = true ->
  router_legal (W := socket_pipes) plenty (Elsewhere w' h') s.
Proof.
  destruct s as [[r w] h]. intros Hw Hk Hl. split; [done|]. intros p Hp. pose proof (known_in l r p Hk Hp) as Hin.
  rewrite forallb_forall in Hl. apply list_elem_of_In, Hl, andb_true_iff in Hin as [H1%bool_decide_eq_true H2%bool_decide_eq_true]. done.
Qed.

Lemma a_life_legal : router_legal_events plenty a_life (new_router 7, first_says_a, no_memory).
Proof.
  destruct two_come_legal as [L1 L2]. apply (event_legal_cons _ _ _ (at_step 1)); [exact L1|by vm_compute|]. destruct L2 as [L2 _].
  apply (event_legal_cons _ _ _ (at_step 2)); [exact L2|by vm_compute|]. apply (event_legal_cons _ _ _ (at_step 3)); [|by vm_compute|].
  { apply elsewhere_legal with (l := [1; 2]); [apply both_sent_ok|by vm_compute..]. }
  apply (event_legal_cons _ _ _ (at_step 4)); [|by vm_compute|].
  { split; [left; decided|]. split; [readable|by vm_compute]. }
  apply (event_legal_cons _ _ _ (at_step 5)); [apply sending_legal; by vm_compute|by vm_compute|].
  apply (event_legal_cons _ _ _ (at_step 6)); [apply sending_legal; by vm_compute|by vm_compute|].
  apply (event_legal_cons _ _ _ (at_step 7)); [apply receiving_legal; by vm_compute|by vm_compute|].
  apply (event_legal_cons _ _ _ (at_step 8)); [apply receiving_legal; by vm_compute|by vm_compute|].
  apply (event_legal_cons _ _ _ (at_step 9)); [apply going_legal; by vm_compute|by vm_compute|done].
Qed.


(** The part that was sent arrived at the first pipe, and only the second one is left. *)
Example what_is_left : (outbox_of (after a_life).1.2 1, outpipes (after a_life).1.1) = ([text "q"], {[ ["b"%char] := mkOutpipe 2 true ]}).
Proof. by vm_compute. Qed.

(** *** Peers that do not follow the protocol *)

(** The first peer, which takes nothing more, sends a part that is no request, and
    the second one a request.  [rollback] leaves [more_out] set when no pipe was
    found, so that the addresses of the request are taken for the rest of the
    malformed one: its reply reaches nobody, although its peer takes messages. *)
Definition full_first : socket_pipes :=
  arrive 21 (text "q") (arrive 21 Req.bottom_part (arrive 11 (text "m") (mkPipes (alter (with_out_active false) 1 (ends two_peers)) (ypipes two_peers) (sent two_peers)))).

Theorem malformed_request_loses_next_reply :
  (taking full_first 2,
   let! (l, x, w, h) := rep_recvs plenty 20 1 init two_rep full_first no_memory in
   let! (rc, x, w, h) := rep_sends [text "z"] x w h in
   Ok (l, rc, outbox_of w 1, outbox_of w 2)) = (true, Ok ([(Done, text "q")], Done, [], [])).
Proof. vm_compute. reflexivity. Qed.

(** The second peer says the name of the first one and stays anonymous; the first
    part of its request, the empty one, is then taken for its name: it has a
    generated one from then on, and its request has no bottom any more. *)
Definition same_name : socket_pipes :=
  arrive 21 (text "q") (arrive 21 Req.bottom_part (arrive 21 (identity_part "a") (arrive 11 (identity_part "a") (plug 1 11 12 0 (plug 2 21 22 0 no_pipes))))).

Theorem refused_name_is_tried_again :
  (let! (r, w, h) := run_routers plenty [Pipe_attached 1; Pipe_attached 2] (new_router 7, same_name, no_memory) in
   let! (r', w', h') := run_router plenty (Pipe_readable 2) (r, w, h) in
   Ok (anonymous_pipes r, outpipes r, anonymous_pipes r', identity_at w' 2, inbox_of w' 2))
  = Ok ({[2]}, {[["a"%char] := mkOutpipe 1 true]}, ∅, generated_id 7, [text "q"]).
Proof. vm_compute. reflexivity. Qed.

(** A peer says the name that is generated next, and the next peer without a name
    stops the process. *)
Definition generated_name : socket_pipes :=
  arrive 21 (mkMsgT (Vsm []) 64) (arrive 11 (mkMsgT (Vsm (generated_id 7)) 64) (plug 1 11 12 0 (plug 2 21 22 0 no_pipes))).

Theorem taken_name_aborts_router : run_routers plenty [Pipe_attached 1; Pipe_attached 2] (new_router 7, generated_name, no_memory) = Aborted "ok".
Proof. vm_compute. reflexivity. Qed.

(** A part that the pipe refuses in the middle of a message is forgotten without
    being closed: nobody owns its content, and it is never freed. *)
Definition one_content : memory := mkMemory {[1 := mkContent ["c"%char] None 0]} [].

Theorem refused_part_leaks :
  (let! (_, _, r, w, h) := router_xsend (first_part "b") (two_router false) two_peers one_content in
   let w := mkPipes (alter (with_state StTerminating) 2 (ends w)) (ypipes w) (sent w) in
   let! (rc, m, r, w, h) := router_xsend (mkMsgT (Lmsg 1) 0) r w h in
   Ok (rc, m, outbox_of w 2, contents h)) = Ok (Done, init, [], contents one_content).
Proof. vm_compute. reflexivity. Qed.

End RouterRuns.

(** ** Runs of owned objects

    A socket with a session and its connecter; the inputs at which the theorems of
    [OwnTheorems] are used, and two runs that do not go as they should. *)

Module OwnRuns.
Import Prelude Own OwnTree OwnSteps OwnTheorems.

(** A socket (0) launches a session (1), and that a connecter (2); the session
    sends the socket a pipe; the socket waits for the pipe and terminates. *)
Definition a_session : list action :=
  [New 0; New 0; Launch 0 1; New 0; Launch 1 2; Bind 1 0 7; Await 0 1; Deliver 0; Deliver 0; Deliver 0; Deliver 0; Deliver 0; Terminate 0].

Ltac legal_steps := repeat (split; [by vm_compute|]; let E := fresh in intros ? E; vm_compute in E; injection E as <-); exact I.

Lemma a_session_legal : legal_run a_session no_objects.
Proof. unfold a_session. legal_steps. Qed.

Lemma own_refines_life_witness : exists w G, acts a_session no_objects = Ok w /\ rtc life ∅ G /\ shows w G /\ (forall q, q ∈ on_the_way w -> is_Some (objects w !! destination q)).
Proof. apply (own_refines_life a_session). apply a_session_legal. Defined.

Definition closing_session : world := match acts a_session no_objects with Ok w => w | _ => no_objects end.

Lemma own_tree_is_freed_witness : sn delivers closing_session /\ forall w', rtc delivers closing_session w' -> nf delivers w' ->
    (forall r o, objects closing_session !! r = Some o -> terminating o = true -> forall c, under closing_session r c -> objects w' !! c = None)
    /\ on_the_way w' = [] /\ forall c o, objects w' !! c = Some o -> terminating o = false.
Proof. apply (own_tree_is_freed a_session closing_session); [apply a_session_legal|vm_compute; reflexivity]. Defined.

(** One schedule to the end; the termination of the session is put off first. *)
Example session_ends : (let! w := acts [Put_off 0; Event 0; Proceed 1; Deliver 0; Deliver 0; Deliver 0] closing_session in Ok (map_to_list (objects w), on_the_way w)) = Ok ([], []).
Proof. vm_compute. reflexivity. Qed.

(** What the projections of a world show. *)
Definition state_of (c : Z) (w : world) : option (bool * Z * list Z) := o ← objects w !! c; Some (terminating o, term_acks o, elements (owned o)).

(** *** A request that comes too early

    [launch_child] sends the plug to the new object before it sends the command
    [own] to the owner.  When the new object, in another thread, is done at once
    and asks to be terminated, the request may arrive first: the owner does not
    own the object yet and ignores the request, and then adopts the object, which
    will not ask again. *)
Theorem early_request_is_lost :
  (let! w := acts [New 0; New 0; Launch 0 1; Deliver 0; Terminate 1; Deliver 1; Deliver 0] no_objects in Ok (state_of 0 w, state_of 1 w, on_the_way w))
  = Ok (Some (false, 0, [1]), Some (false, 0, []), []).
Proof. vm_compute. reflexivity. Qed.

Lemma early_request_legal : legal_run [New 0; New 0; Launch 0 1; Deliver 0; Terminate 1; Deliver 1; Deliver 0] no_objects.
Proof. legal_steps. Qed.

(** *** Counters of different widths

    [sent_seqnum] has 32 bits and [processed_seqnum] 64.  After 2^32 commands they
    differ although every command was processed, and the object is never freed. *)
Definition busy_socket : world := mkWorld {[0 := with_processed UINT_MAX (with_sent UINT_MAX (new_own 0))]} 1 [].

Theorem counters_part_company :
  (let! w := acts [Terminate 0] busy_socket in Ok (state_of 0 w)) = Ok None
  /\ (let! w := acts [Bind 1 0 7; Deliver 0; Terminate 0] busy_socket in Ok (state_of 0 w, on_the_way w)) = Ok (Some (true, 0, []), []).
Proof. by vm_compute. Qed.

End OwnRuns.

